(* ===== verification/_CoqProject ===== *)
-Q . S2P
Prelude.v
Util.v
Const.v
Size.v
Pptr.v
Persist.v
Token.v
Desc.v
DescLemmas.v
Bits.v
MetaFile.v
MetaInv.v
MetaLog.v
MetaOps.v
MetaSpec.v
MetaCrash.v
ExtFile.v
Run.v
ExtSpec.v
RunSpec.v
LargeSpec.v
RunCaseSpec.v
Arena.v
ArenaSpec.v
TCache.v
ArenasSpec.v
TokenSpec.v
ObjSpec.v
PublishSpec.v
CacheSpec.v
Slab.v
SlabSpec.v
HeapSpec.v
RootSpec.v
KvType.v
RecordCrash.v
HashTable.v
Buckets.v
HashSpec.v
TableSize.v
ConcTable.v
ConcInv.v
ConcStep.v
ConcRead.v
ConcWrite.v
ConcDir.v
ConcSteps.v
ConcSplit.v
ConcSpec.v
ConcMain.v
HashStore.v
StoreSlots.v
StoreSpec.v
StoreMap.v
UnloadSpec.v
RebootSpec.v
ShutdownSpec.v
StoreRuns.v
