(* ===== verification/Prelude.v ===== *)
(** * SlabStore: a verification development

    SlabStore is a key-value store for persistent memory in C++.  This library
    models its allocator (src/slab) and its store (src/store) in Rocq and proves
    what the parts promise to each other.

    ** The program and the files

    From the bottom up; each line is a part of the program, its source, and the
    files that model it.

    - Constants (slab/const.h): [Const].  Size classes (slab/size.h): [Size].
    - Persistent pointers (slab/pptr.h): [Pptr].  Write-back and the machine
      under it, with its crashes (slab/persist.h): [Persist].
    - The tokens that mark a region as busy (slab/token.h, slab/region.h): [Token].
    - The persistent structures ExtentDesc, SmallMeta, MediumMeta
      (slab/desc.h): [Desc], and their properties: [DescLemmas].
    - The bitmaps of runs (slab/bits.h): [Bits].
    - The allocator of extents in the meta file (slab/meta-file.h): [MetaFile]
      has the operations, [MetaInv] the invariant, [MetaOps] the effect of every
      operation, [MetaLog] the order of its stores, [MetaSpec] its contract and
      [MetaCrash] its behaviour when the machine stops.
    - The file of extents and the extent case (slab/ext-file.h, slab/extent.h):
      [ExtFile], their contract: [ExtSpec].
    - Runs and large regions (slab/run.h): [Run], the contract of the bins of
      runs: [RunSpec], of the bins of large regions: [LargeSpec], of a run case,
      which holds both: [RunCaseSpec].
    - Arenas (slab/arena.h): [Arena], the contract of an arena bin: [ArenaSpec],
      of all arenas over one pool: [ArenasSpec], [TokenSpec] for the tokens of
      their regions, [ObjSpec] for small, medium and large regions together, and
      [PublishSpec] for the publication of a region.
    - Thread caches (slab/tcache.h): [TCache], their contract: [CacheSpec].
    - The allocator as a whole (slab/slab.h): [Slab], its contract: [SlabSpec],
      and the abstract heap that it implements: [HeapSpec].
    - Records (store/kv-type.h): [KvType]; how they reach persistent memory, and
      what a crash leaves of them (store/hash-store.h): [RecordCrash].
    - The hash table (store/hash-table.h): [HashTable] has the operations,
      [Buckets] the properties of one bucket, [HashSpec] those of the table,
      [TableSize] its size.
    - The hash table as many threads run it (store/hash-table.h): [ConcTable] has
      the steps of a thread, one access to shared memory each, their interleaving,
      and the atomic map that is their specification; [ConcInv] the invariant,
      what a thread knows at every point and what a step may do to the others;
      [ConcStep], [ConcWrite] and [ConcDir] the rules for steps that read, that
      write buckets and locks, and that write the directory; [ConcRead],
      [ConcSteps] and [ConcSplit] every step of [thread_step]; [ConcSpec] puts them
      together and starts from a sequential table, [ConcMain] has the properties.
    - The store (store/hash-store.h): [HashStore] has the operations; [StoreSlots]
      says where its records are, [StoreSpec] has the invariant and a rule per
      operation, [StoreMap] the contract of the store; runs of it that show its
      defects: [StoreRuns].
    - Shutting the store down and starting it again: [RootSpec] for the root of
      the pool, [UnloadSpec] for the buckets and segments that are saved and
      loaded, [RebootSpec] for the loops over the directory, [ShutdownSpec] for
      the destructor and [open].

    A store operation calls the thread cache for a region, which falls back on
    the arena, the arena on a run bin, the run bin on the extent case, and that
    on the meta file; then it writes a record into the region and publishes the
    address in the hash table.  The definitions are composed in the same way.

    ** How the program is represented

    - An operation is a function in the state and error monad [M] of this file:
      it returns a value and the new state, or an [error].  A failed [assert] is
      [EAssert]: the asserts are modelled as enabled.  The theorems are stated
      with [wp], which is total correctness: the operation terminates, without
      error, in a state that satisfies the postcondition.
    - Integers are [Z]; where the width matters the wrap-around is written out
      ([u16], [u32], [u64], [swrap]).  Addresses are integers, 0 is [nullptr].
    - Persistent memory is a record of finite maps from addresses to structures
      ([pmem] of [Desc]); every store and every flush of the code is an event of
      a log ([Persist.Pmem]).  A crash image takes, for each cache line, any
      content it had since its last completed write-back.
    - Unordered maps are [gmap]s, their iteration order is the parameter
      [UnorderedMap].
    - The submodule util is not part of the sources: the bit scans and the
      rounding ([Util], laws [UtilSpec]), the pointers with 16 spare bits
      ([Dense]), the SIMD comparison ([Simd]) and the hash function ([HashFn])
      are classes with the documented behaviour as laws; each has an instance,
      used by the witnesses only.  Of [roundup] the laws say no more than what the
      calls rely on: a multiple of a power of two, and for the call of run.h with
      the arguments in the other order what unit/alloc-test.cpp checks.  System calls are parameters of [ExtFile].
    - Operations run one at a time, except in the Conc files.  There the state is
      shared memory ([ctable]), a thread is a program counter with its local
      variables ([pc]), and an execution is any interleaving of steps; memory is
      sequentially consistent, the version locks of util are a class ([VerLock]).
      Elsewhere locks and retries have no effect.  Of the epoch, running the oldest retired function is a step of
      its own ([run_closure]) that may come at any time; a reader in the epoch is a
      [guard] of [StoreSpec].

    ** What is proved

    - Size classes: [size2index] is the least class that fits, and inverse to
      [index2size]; persistent pointers round trip and survive relocation; the
      flush loop covers exactly the lines of its range; tokens round trip.
    - Bitmaps: [fill_regions] takes the first free regions and nothing else,
      deallocation frees exactly one, [reload] restores the bitmap.
    - Meta file: creation establishes the invariant [ext_inv]; acquire and
      release refine an abstract allocator of extents; close and reopen restore
      it; acquire and release are atomic under crashes at any event; recording
      at close is not (a finding).
    - Bins of runs and of large regions: acquire hands out one run or region
      that was free, release returns exactly one, the invariant of every bin is
      kept, also of those that share the pool.
    - Run cases and arena bins: the constructors establish the invariants; filling
      a cache bin takes distinct regions that were free and releasing one frees
      exactly that one, also when runs and extents change hands under it; regions
      in use never overlap.
    - The allocator, in normal operation: the constructor establishes an invariant
      that ties together the thread caches, the arenas, the run cases, the extents
      and the tokens; acquire hands out one object nobody holds, release by any
      thread gives back exactly one, region_size is the same for every thread.
      It fails, or returns null for a medium size, only if in the state of the call
      ([out_of_memory]) the cache bin of the thread is empty and its arena can get
      fewer regions than the cache bin asks for ([ran_out]), because the bin of the
      arena, its run case and the pool are used up; then less than 64 extents were
      unused ([out_of_memory_full]), so this does not happen in a pool that has more
      ([not_exhausted]; the witnesses check it along their runs).  Hence every
      well-behaved client sees a heap of disjoint blocks, which it may publish
      ([HeapSpec]).
    - Records round trip; overwriting an expired record is atomic under crashes,
      and a new record is durable before its region is marked as busy.
    - The hash table, as a finite map from keys to records:
      a new table is empty, lookup, update and upsert are the operations of the
      map, including splits and doublings of the directory; its size is the
      number of keys.
    - The hash table under concurrency: it is linearizable - what the threads call
      and get is an execution of the atomic map -, no thread faults, some thread
      can always go on, and a lookup that runs alone ends.
    - The store, in normal operation: a program of operations of any threads, with
      the steps of the epoch anywhere in between, sees a finite map; a record that
      a reader has found is not written while only those retired functions run
      that were retired before; no block of the allocator is ever lost.  The
      hypotheses: the pool lies below 2^48, records are not larger than a medium
      block, fewer keys than a bucket has slots collide in the low 32 bits of
      their codes, fewer than 2^62 writes happen, and only keys that have been
      inserted are removed (removing another one is a defect, see [StoreRuns]).
    - Shutdown and start: when the epoch holds nothing back and the tombstones are
      not so many that they are reclaimed, the destructor of the store saves it
      and a new store loads the same map, given an allocator that comes back with
      the same blocks and the same root.  The destructor fails only if the directory
      is too large or, in a state that its calls reach, the allocator is exhausted.

    ** Bounds and fuel

    Loops that are not structural take a fuel; each use passes a bound that the
    theorems show to be enough ([EFuel] is an error, and [wp] excludes errors):
    the number of extents for the walks of the meta file, 8 rounds for
    [small_count_loop], 64 for the scans of a bitmap word, the depth of 64 bits
    for the splits of the hash table.  A lookup on its own has at most
    [steps_left PStart] steps left.

    ** What is not modelled

    The allocator is proved in normal operation, after recovery has finished or was
    not needed; the operations of recovery (reboot, reload and the recover_ ones)
    are defined, and proved for the meta file and the bitmaps only.  Not modelled are the
    concurrency of the other parts than the hash table (their locks and the
    per-thread lists), pools above 4 TiB (the 32-bit offsets between MediumMeta
    arrays, [mm_next], are absolute addresses here and do not wrap), and the weak
    memory orders (the code loads and stores slots
    as memory_order_relaxed; [ConcTable] says what is assumed); the file system (fs-util.h); the class Allocator of slab.h, which
    forwards to AllocatorDetail, except for the choice of its address; the
    drivers, tests, adapters of other stores, and scripts. *)

From stdpp Require Export base numbers list gmap fin_maps.
From Stdlib Require Export ZArith Lia.
#[export] Set Default Goal Selector "!".
#[global] Open Scope Z_scope.

(** ** The state and error monad

    A C++ operation is a function from the state of its component to a
    result: a value with the new state, or an error. *)

(** [EAssert]: a failed [assert]; [EExit]: a call of [exit]; [EUB]: undefined
    behaviour (null dereference, index out of an array, division by zero);
    [EFuel]: the fuel of a loop was too small (never the case on the states
    the theorems are about). *)
Inductive error := EAssert | EExit | EUB | EFuel.

Inductive res (S A : Type) :=
| Ok (a : A) (s : S)
| Err (e : error).
Arguments Ok {S A} a s.
Arguments Err {S A} e.

Definition M (S A : Type) : Type := S → res S A.

#[export] Instance M_ret S : MRet (M S) := λ A a s, Ok a s.
#[export] Instance M_bind S : MBind (M S) := λ A B f m s,
  match m s with Ok a s' => f a s' | Err e => Err e end.

Definition merr {S A} (e : error) : M S A := λ _, Err e.
Definition mget {S} : M S S := λ s, Ok s s.
Definition mgets {S A} (f : S → A) : M S A := λ s, Ok (f s) s.
Definition mmodify {S} (f : S → S) : M S unit := λ s, Ok tt (f s).
Definition massert {S} (b : bool) : M S unit :=
  λ s, if b then Ok tt s else Err EAssert.
Definition mwhen {S} (b : bool) (m : M S unit) : M S unit :=
  if b then m else mret tt.

(** Reading an optional value that the code dereferences unconditionally. *)
Definition mderef {S A} (o : option A) : M S A :=
  match o with Some a => mret a | None => merr EUB end.

(** Running an operation of a component inside the state that contains it. *)
Definition mzoom {S T A} (get : T → S) (put : S → T → T) (m : M S A) : M T A :=
  λ t, match m (get t) with Ok a s => Ok a (put s t) | Err e => Err e end.

(** [for (i = from; i < from + n; i++) body(i)] *)
Fixpoint mfor {S} (n : nat) (from : Z) (body : Z → M S unit) : M S unit :=
  match n with
  | O => mret tt
  | Datatypes.S n => body from ;; mfor n (from + 1) body
  end.

(** [for (x : l) body(x)] *)
Fixpoint mforeach {S A} (l : list A) (body : A → M S unit) : M S unit :=
  match l with
  | [] => mret tt
  | x :: l => body x ;; mforeach l body
  end.

(** The same loop, with a local variable [a] that the body updates. *)
Fixpoint mfold {S A} (n : nat) (from : Z) (body : Z → A → M S A) (a : A) : M S A :=
  match n with
  | O => mret a
  | Datatypes.S n => a' ← body from a; mfold n (from + 1) body a'
  end.

(** Total correctness: [m] run in [s] returns, without any error, a value and
    a state that satisfy [Q]. *)
Definition wp {S A} (m : M S A) (Q : A → S → Prop) (s : S) : Prop :=
  match m s with Ok a s' => Q a s' | Err _ => False end.

(** ** Machine words *)

Definition wrap (w x : Z) : Z := x mod 2 ^ w.
Definition u8 := wrap 8.
Definition u16 := wrap 16.
Definition u32 := wrap 32.
Definition u64 := wrap 64.

(** Two's complement reading of the low [w] bits. *)
Definition swrap (w x : Z) : Z :=
  (x + 2 ^ (w - 1)) mod 2 ^ w - 2 ^ (w - 1).

(** The null pointer; every other address is positive. *)
Definition nullptr : Z := 0.

(** Arrays are lists indexed by [Z]. *)
Definition nthZ {A} (l : list A) (i : Z) : option A :=
  if 0 <=? i then l !! Z.to_nat i else None.
Definition updZ {A} (l : list A) (i : Z) (x : A) : list A :=
  if 0 <=? i then <[Z.to_nat i := x]> l else l.
Definition lenZ {A} (l : list A) : Z := Z.of_nat (length l).

(** [0x01ul << i] and the usual masks of a 64-bit word. *)
Definition bit (i : Z) : Z := Z.shiftl 1 i.
Definition set_bit (w i : Z) : Z := Z.lor w (bit i).
Definition clear_bit (w i : Z) : Z := Z.land w (u64 (Z.lnot (bit i))).
Definition test_bit (w i : Z) : bool := negb (Z.land w (bit i) =? 0).

(** The indices of the set bits of a 64-bit word, in increasing order. *)
Definition bits_of (w : Z) : list Z :=
  filter (λ i, Z.testbit w i = true) (seqZ 0 64).

(** ** Record setters

    [setter eta proj] builds the function that replaces the field [proj] of a
    record whose constructor applied to all its projections is [eta]. *)
Ltac setter eta proj :=
  let body := eval unfold eta in eta in
  let b := eval pattern proj in body in
  lazymatch b with
  | ?s _ => let r := eval cbv beta in (fun v => s (fun _ => v)) in exact r
  end.

(** ** Lemmas *)

Section monad_lemmas.
Context {S A B : Type}.
Implicit Types (s : S).

Lemma wp_ret (a : A) (Q : A → S → Prop) s : Q a s → wp (mret a) Q s.
Proof. done. Qed.

Lemma wp_bind (m : M S A) (f : A → M S B) Q s :
  wp m (λ a s', wp (f a) Q s') s → wp (m ≫= f) Q s.
Proof. unfold wp, mbind, M_bind. by destruct (m s). Qed.

Lemma wp_bind_inv (m : M S A) (f : A → M S B) Q s :
  wp (m ≫= f) Q s → wp m (λ a s', wp (f a) Q s') s.
Proof. unfold wp, mbind, M_bind. by destruct (m s). Qed.

Lemma wp_mono (m : M S A) (P Q : A → S → Prop) s :
  wp m P s → (∀ a s', P a s' → Q a s') → wp m Q s.
Proof. unfold wp. destruct (m s); auto. Qed.

Lemma wp_get (Q : S → S → Prop) s : Q s s → wp mget Q s.
Proof. done. Qed.

Lemma wp_gets (f : S → A) Q s : Q (f s) s → wp (mgets f) Q s.
Proof. done. Qed.

Lemma wp_modify (f : S → S) Q s : Q tt (f s) → wp (mmodify f) Q s.
Proof. done. Qed.

Lemma wp_assert b Q s : b = true → Q tt s → wp (massert (S:=S) b) Q s.
Proof. by intros ->. Qed.

Lemma wp_when (b : bool) (m : M S unit) Q s :
  (b = true → wp m Q s) → (b = false → Q tt s) → wp (mwhen b m) Q s.
Proof. destruct b; intros H1 H2; [by apply H1|by apply H2]. Qed.

Lemma wp_deref (o : option A) (a : A) Q s :
  o = Some a → Q a s → wp (mderef o) Q s.
Proof. by intros ->. Qed.

Lemma wp_zoom {T} (get : T → S) (put : S → T → T) (m : M S A) Q (t : T) :
  wp m (λ a s, Q a (put s t)) (get t) → wp (mzoom get put m) Q t.
Proof. unfold wp, mzoom. by destruct (m (get t)). Qed.

(** A program that does not change the state. *)
Lemma wp_pure (m : M S A) a Q s : m s = Ok a s → Q a s → wp m Q s.
Proof. intros Hm HQ. unfold wp. by rewrite Hm. Qed.

Lemma wp_Ok (m : M S A) Q s : wp m Q s ↔ ∃ a s', m s = Ok a s' ∧ Q a s'.
Proof.
  unfold wp. destruct (m s) as [a s'|e]; split.
  - eauto.
  - by intros (? & ? & [= -> ->] & ?).
  - done.
  - by intros (? & ? & ? & ?).
Qed.
End monad_lemmas.

(** A loop keeps an invariant indexed by the loop variable. *)
Lemma wp_mfor {S} (I : Z → S → Prop) n from (body : Z → M S unit) Q s :
  I from s →
  (∀ i s, from ≤ i < from + Z.of_nat n → I i s → wp (body i) (λ _, I (i + 1)) s) →
  (∀ s, I (from + Z.of_nat n) s → Q tt s) →
  wp (mfor n from body) Q s.
Proof.
  revert from s. induction n as [|n IH]; intros from s HI Hb HQ; simpl.
  - apply wp_ret, HQ. by rewrite Z.add_0_r.
  - apply wp_bind. apply wp_mono with (λ _, I (from + 1)); [apply Hb; [lia|done]|].
    intros _ s' HI'. apply IH; [done|intros; apply Hb; [lia|done]|].
    intros s'' H''. apply HQ.
    by replace (from + Z.of_nat (Datatypes.S n)) with (from + 1 + Z.of_nat n) by lia.
Qed.


Lemma wp_mfold {S A} (I : Z → A → S → Prop) n from (body : Z → A → M S A) a Q s :
  I from a s →
  (∀ i a s, from ≤ i < from + Z.of_nat n → I i a s → wp (body i a) (λ a, I (i + 1) a) s) →
  (∀ a s, I (from + Z.of_nat n) a s → Q a s) →
  wp (mfold n from body a) Q s.
Proof.
  revert from a s. induction n as [|n IH]; intros from a s HI Hb HQ; simpl.
  - apply wp_ret, HQ. by rewrite Z.add_0_r.
  - apply wp_bind. apply wp_mono with (λ a, I (from + 1) a); [apply Hb; [lia|done]|].
    intros a' s' HI'. apply IH; [done|intros; apply Hb; [lia|done]|].
    intros a'' s'' H''. apply HQ.
    by replace (from + Z.of_nat (Datatypes.S n)) with (from + 1 + Z.of_nat n) by lia.
Qed.

(** The loop of a constructor that appends one element per iteration. *)
Lemma mfold_build {S A} (f : Z → M S A) (g : Z → A) n from (l : list A) (s : S) :
  (∀ i, from ≤ i < from + Z.of_nat n → f i s = Ok (g i) s) →
  mfold n from (λ i l, b ← f i; mret (l ++ [b])) l s = Ok (l ++ (g <$> seqZ from (Z.of_nat n))) s.
Proof.
  revert from l. induction n as [|n IH]; intros from l Hf.
  - simpl. by rewrite app_nil_r.
  - simpl. unfold mbind, M_bind. rewrite Hf by lia. unfold mret, M_ret.
    rewrite IH by (intros i Hi; apply Hf; lia). rewrite (seqZ_cons from) by lia. simpl.
    rewrite <-app_assoc. simpl.
    by replace (Z.pred (Z.of_nat (Datatypes.S n))) with (Z.of_nat n) by lia.
Qed.

(** *** Outcomes with errors *)

(** [m] run in [s] ends in an error that satisfies [E], or returns a value and a
    state that satisfy [Q]. *)
Definition wp_e {S A} (m : M S A) (E : error → Prop) (Q : A → S → Prop) (s : S) : Prop :=
  match m s with Ok a s' => Q a s' | Err e => E e end.

Lemma wp_e_bind {S A B} (m : M S A) (f : A → M S B) E Q (s : S) :
  wp_e m E (λ a, wp_e (f a) E Q) s → wp_e (m ≫= f) E Q s.
Proof. unfold wp_e, mbind, M_bind. by destruct (m s). Qed.
Lemma wp_e_mono {S A} (m : M S A) (E F : error → Prop) (P Q : A → S → Prop) (s : S) :
  wp_e m E P s → (∀ e, E e → F e) → (∀ a s', P a s' → Q a s') → wp_e m F Q s.
Proof. unfold wp_e. intros HP HE HPQ. destruct (m s); auto. Qed.
Lemma wp_e_wp {S A} (m : M S A) E Q (s : S) : wp m Q s → wp_e m E Q s.
Proof. unfold wp, wp_e. by destruct (m s). Qed.
Lemma wp_e_zoom {S T A} (get : T → S) (put : S → T → T) (m : M S A) E Q (t : T) :
  wp_e m E (λ a s, Q a (put s t)) (get t) → wp_e (mzoom get put m) E Q t.
Proof. unfold wp_e, mzoom. by destruct (m (get t)). Qed.
Lemma wp_e_err {S A} e (E : error → Prop) (Q : A → S → Prop) (s : S) : E e → wp_e (merr e) E Q s.
Proof. done. Qed.

(** ** Arrays *)

Section arrays.
Context {A : Type}.
Implicit Types (l : list A) (i j : Z) (x : A).

Lemma nthZ_Some l i x : nthZ l i = Some x → 0 ≤ i < lenZ l.
Proof.
  unfold nthZ, lenZ. destruct (Z.leb_spec 0 i); [|done].
  intros H'%lookup_lt_Some. lia.
Qed.

Lemma nthZ_is_Some l i : 0 ≤ i < lenZ l → is_Some (nthZ l i).
Proof.
  unfold nthZ, lenZ. intros Hi. destruct (Z.leb_spec 0 i); [|lia].
  apply lookup_lt_is_Some_2. lia.
Qed.

Lemma lenZ_updZ l i x : lenZ (updZ l i x) = lenZ l.
Proof. unfold lenZ, updZ. destruct (0 <=? i); [|done]. by rewrite length_insert. Qed.

Lemma nthZ_updZ_eq l i x : 0 ≤ i < lenZ l → nthZ (updZ l i x) i = Some x.
Proof.
  unfold nthZ, updZ, lenZ. intros Hi. destruct (Z.leb_spec 0 i); [|lia].
  apply list_lookup_insert_eq. lia.
Qed.

Lemma nthZ_updZ_ne l i j x : i ≠ j → nthZ (updZ l i x) j = nthZ l j.
Proof.
  unfold nthZ, updZ. intros Hi.
  destruct (Z.leb_spec 0 i), (Z.leb_spec 0 j); try done.
  apply list_lookup_insert_ne. lia.
Qed.

Lemma nthZ_updZ l i j x :
  0 ≤ i < lenZ l → nthZ (updZ l i x) j = if decide (i = j) then Some x else nthZ l j.
Proof.
  intros Hi. case_decide as Hij; [subst; by apply nthZ_updZ_eq|by apply nthZ_updZ_ne].
Qed.

Lemma updZ_id l i x : nthZ l i = Some x → updZ l i x = l.
Proof. unfold nthZ, updZ. destruct (0 <=? i); [|done]. apply list_insert_id. Qed.

Lemma nthZ_replicate n x i : 0 ≤ i < Z.of_nat n → nthZ (replicate n x) i = Some x.
Proof.
  intros Hi. unfold nthZ. destruct (Z.leb_spec 0 i); [|lia].
  apply lookup_replicate. split; [done|lia].
Qed.

Lemma lenZ_replicate n x : lenZ (replicate n x) = Z.of_nat n.
Proof. unfold lenZ. by rewrite length_replicate. Qed.

Lemma lenZ_app l k : lenZ (l ++ k) = lenZ l + lenZ k.
Proof. unfold lenZ. rewrite length_app. lia. Qed.
End arrays.

Lemma nthZ_snoc {A} (l : list A) (x : A) i :
  nthZ (l ++ [x]) i = if decide (i = lenZ l) then Some x else nthZ l i.
Proof.
  unfold nthZ, lenZ. destruct (Z.leb_spec 0 i) as [Hi|Hi]; [|case_decide; [lia|done]].
  case_decide as Hd.
  - rewrite Hd, Nat2Z.id, lookup_app_r by lia. by rewrite Nat.sub_diag.
  - destruct (decide (i < Z.of_nat (length l))) as [Hl|Hl]; [apply lookup_app_l; lia|].
    rewrite lookup_app_r, (lookup_ge_None_2 l) by lia. apply lookup_ge_None_2. simpl. lia.
Qed.

Lemma seqZ_split (m n i : Z) :
  0 ≤ i < n → seqZ m n = seqZ m i ++ (m + i) :: seqZ (m + i + 1) (n - i - 1).
Proof.
  intros Hi. replace n with (i + (n - i)) at 1 by lia.
  rewrite (seqZ_app m i (n - i)) by lia. f_equal. rewrite seqZ_cons by lia.
  replace (Z.succ (m + i)) with (m + i + 1) by lia. f_equal.
Qed.

(** ** Bits *)

Section bits.
Implicit Types (w i j : Z).

Lemma bit_testbit i j : 0 ≤ i → Z.testbit (bit i) j = bool_decide (i = j).
Proof.
  intros Hi. unfold bit.
  destruct (decide (0 ≤ j)) as [Hj|Hj]; last first.
  { rewrite Z.testbit_neg_r by lia. symmetry. apply bool_decide_eq_false. lia. }
  rewrite Z.shiftl_1_l. destruct (decide (i = j)) as [->|Hne].
  - rewrite bool_decide_true by done. by apply Z.pow2_bits_true.
  - rewrite bool_decide_false by done. by apply Z.pow2_bits_false.
Qed.

Lemma set_bit_testbit w i j :
  0 ≤ i → Z.testbit (set_bit w i) j = Z.testbit w j || bool_decide (i = j).
Proof. intros. unfold set_bit. by rewrite Z.lor_spec, bit_testbit. Qed.

Lemma clear_bit_testbit w i j :
  0 ≤ i < 64 → 0 ≤ w < 2 ^ 64 →
  Z.testbit (clear_bit w i) j = Z.testbit w j && negb (bool_decide (i = j)).
Proof.
  intros Hi Hw. unfold clear_bit, u64, wrap. rewrite Z.land_spec.
  destruct (decide (0 ≤ j)) as [Hj|Hj]; [|by rewrite !Z.testbit_neg_r by lia].
  destruct (decide (j < 64)) as [Hj'|Hj'].
  - rewrite Z.mod_pow2_bits_low by lia. rewrite Z.lnot_spec by lia.
    by rewrite bit_testbit by lia.
  - assert (Z.testbit w j = false) as ->; [|done].
    rewrite <-(Z.mod_small w (2 ^ 64)) by done. apply Z.mod_pow2_bits_high. lia.
Qed.

Lemma test_bit_testbit w i : 0 ≤ i → 0 ≤ w → test_bit w i = Z.testbit w i.
Proof.
  intros Hi Hw. unfold test_bit, bit. rewrite Z.shiftl_1_l.
  destruct (Z.testbit w i) eqn:E.
  - apply negb_true_iff, Z.eqb_neq. intros H.
    assert (Z.testbit (Z.land w (2 ^ i)) i = true) as H'.
    { rewrite Z.land_spec, E. by rewrite Z.pow2_bits_true. }
    by rewrite H, Z.bits_0 in H'.
  - apply negb_false_iff, Z.eqb_eq. apply Z.bits_inj_0. intros j.
    rewrite Z.land_spec. destruct (decide (i = j)) as [<-|Hij].
    + by rewrite E.
    + by rewrite Z.pow2_bits_false, andb_false_r.
Qed.

Lemma word_bound w n :
  0 ≤ n → 0 ≤ w → (∀ j, n ≤ j → Z.testbit w j = false) → w < 2 ^ n.
Proof.
  intros Hn Hw Hb. destruct (decide (w = 0)) as [->|H0]; [lia|].
  apply Z.log2_lt_pow2; [lia|].
  destruct (decide (n ≤ Z.log2 w)) as [Hl|Hl]; [|lia].
  specialize (Hb _ Hl). rewrite Z.bit_log2 in Hb by lia. done.
Qed.

Lemma testbit_above w n j : 0 ≤ w < 2 ^ n → 0 ≤ n ≤ j → Z.testbit w j = false.
Proof.
  intros Hw Hj. rewrite <-(Z.mod_small w (2 ^ n)) by done.
  apply Z.mod_pow2_bits_high. lia.
Qed.

Lemma set_bit_range w i : 0 ≤ w < 2 ^ 64 → 0 ≤ i < 64 → 0 ≤ set_bit w i < 2 ^ 64.
Proof.
  intros Hw Hi. assert (0 ≤ set_bit w i).
  { unfold set_bit, bit. apply Z.lor_nonneg. split; [lia|]. apply Z.shiftl_nonneg. lia. }
  split; [done|]. apply word_bound; [lia|done|]. intros j Hj.
  rewrite set_bit_testbit by lia. rewrite (testbit_above w 64) by lia.
  apply bool_decide_eq_false. lia.
Qed.

Lemma clear_bit_range w i : 0 ≤ w < 2 ^ 64 → 0 ≤ i < 64 → 0 ≤ clear_bit w i < 2 ^ 64.
Proof.
  intros Hw Hi. assert (0 ≤ clear_bit w i).
  { unfold clear_bit. apply Z.land_nonneg. lia. }
  split; [done|]. apply word_bound; [lia|done|]. intros j Hj.
  rewrite clear_bit_testbit by lia. by rewrite (testbit_above w 64) by lia.
Qed.

Lemma elem_of_bits_of w i : i ∈ bits_of w ↔ 0 ≤ i < 64 ∧ Z.testbit w i = true.
Proof. unfold bits_of. rewrite list_elem_of_filter, elem_of_seqZ. tauto. Qed.

Lemma ones_testbit n j : 0 ≤ n → Z.testbit (bit n - 1) j = bool_decide (0 ≤ j < n).
Proof.
  intros Hn. unfold bit. rewrite Z.shiftl_1_l.
  replace (2 ^ n - 1) with (Z.ones n) by (rewrite Z.ones_equiv; lia).
  destruct (decide (0 ≤ j)) as [Hj|Hj]; last first.
  { rewrite Z.testbit_neg_r by lia. symmetry. apply bool_decide_eq_false. lia. }
  destruct (decide (j < n)) as [Hl|Hl].
  - rewrite Z.ones_spec_low by lia. symmetry. apply bool_decide_eq_true. lia.
  - rewrite Z.ones_spec_high by lia. symmetry. apply bool_decide_eq_false. lia.
Qed.
End bits.

Lemma filter_ext_in {A} (f g : A → bool) (l : list A) :
  (∀ x, x ∈ l → f x = g x) →
  filter (λ x, f x = true) l = filter (λ x, g x = true) l.
Proof.
  induction l as [|x l IH]; intros Hfg; [done|]. rewrite !filter_cons.
  rewrite (Hfg x) by set_solver. rewrite IH by (intros; apply Hfg; set_solver).
  by destruct (g x).
Qed.

(** The number of set bits changes by one when a bit is set or cleared. *)
Lemma filter_flip_count (f g : Z → bool) (l : list Z) (i : Z) :
  NoDup l → i ∈ l → f i = false → g i = true → (∀ j, j ≠ i → f j = g j) →
  length (filter (λ j, g j = true) l) = S (length (filter (λ j, f j = true) l)).
Proof.
  induction 1 as [|x l Hx Hl IH]; intros Hi Hf Hg Hfg; [by apply not_elem_of_nil in Hi|].
  rewrite !filter_cons. apply elem_of_cons in Hi as [<-|Hi].
  - rewrite Hf, Hg, decide_True by done. rewrite decide_False by done. simpl. f_equal.
    f_equal. apply filter_ext_in. intros j Hj. symmetry. apply Hfg. by intros ->.
  - assert (x ≠ i) by (intros ->; done). rewrite <-Hfg by done.
    destruct (f x); [rewrite !decide_True by done|rewrite !decide_False by done];
      simpl; f_equal; by apply IH.
Qed.

(** ** Automation *)

Create HintDb slab.
Create Rewrite HintDb slab_rw.
#[export] Hint Resolve set_bit_range clear_bit_range wp_ret wp_get wp_gets wp_modify : slab.
#[export] Hint Rewrite @lenZ_updZ @lenZ_replicate @lenZ_app : slab_rw.

(** One step of symbolic execution of a monadic program. *)
Ltac wp_step :=
  lazymatch goal with
  | |- wp (mbind _ _) _ _ => apply wp_bind
  | |- wp (mret _) _ _ => apply wp_ret
  | |- wp mget _ _ => apply wp_get
  | |- wp (mgets _) _ _ => apply wp_gets
  | |- wp (mmodify _) _ _ => apply wp_modify
  | |- wp (mzoom _ _ _) _ _ => apply wp_zoom
  | |- wp (massert _) _ _ => apply wp_assert
  | |- wp (mderef _) _ _ => eapply wp_deref
  end; cbv beta.

(** Evaluate the powers, products, quotients and shifts of integer literals. *)
Ltac is_Zlit z :=
  lazymatch z with
  | Z0 => idtac
  | Zpos ?p => is_poslit p
  | Zneg ?p => is_poslit p
  end
with is_poslit p :=
  lazymatch p with
  | xH => idtac
  | xO ?q => is_poslit q
  | xI ?q => is_poslit q
  end.

Ltac eval_Z op a b :=
  is_Zlit a; is_Zlit b; let v := eval vm_compute in (op a b) in change (op a b) with v in *.

Ltac norm_consts :=
  repeat match goal with
  | H : context [?op ?a ?b] |- _ =>
      match op with Z.add => idtac | Z.sub => idtac | Z.mul => idtac | Z.pow => idtac
                  | Z.div => idtac | Z.modulo => idtac | Z.shiftl => idtac end; eval_Z op a b
  | |- context [?op ?a ?b] =>
      match op with Z.add => idtac | Z.sub => idtac | Z.mul => idtac | Z.pow => idtac
                  | Z.div => idtac | Z.modulo => idtac | Z.shiftl => idtac end; eval_Z op a b
  end.

Ltac bool_split :=
  repeat match goal with
  | H : _ && _ = true |- _ => apply andb_true_iff in H as [??]
  | |- _ && _ = true => apply andb_true_iff; split
  end.
