(* ===== verification/Util.v ===== *)
(** * The util submodule

    The headers under src/ include [util.h], which lives in a git submodule
    whose directory is empty in this repository.  Its functions are therefore
    operations of a class, [Util], that every component is parameterised by,
    and what the code relies on is the class [UtilSpec] of their laws.  The
    laws state what the names and the call sites say: [index_least0] finds the
    least significant zero bit and answers -1 on a full word (desc.h and bits.h
    compare with -1), [index_most1] the most significant one bit, [popcount]
    counts, [roundup]/[rounddown] move a value to a multiple of an alignment; of
    [roundup] this is only asked when the alignment is a power of two.  One call is
    different: [roundup(kPageSize, size)] (run.h) has the arguments the other way
    round.  unit/alloc-test.cpp, which acquires regions of such sizes and asserts that
    it gets them, says what the code relies on there: the result is a whole number
    of pages and does not exceed the region ([roundup_page]).
    [RefUtil] is an instance of both classes: it only serves to evaluate the
    definitions on concrete inputs. *)

From S2P Require Export Prelude.

Class Util := {
  index_least0 : Z → Z;
  index_least1 : Z → Z;
  index_most1 : Z → Z;
  popcount : Z → Z;
  roundup : Z → Z → Z;
  rounddown : Z → Z → Z;
}.

Class UtilSpec `{Util} : Prop := {
  index_least0_full : index_least0 (2 ^ 64 - 1) = -1;
  index_least0_spec w :
    0 ≤ w < 2 ^ 64 - 1 →
    0 ≤ index_least0 w < 64 ∧ Z.testbit w (index_least0 w) = false ∧
    ∀ j, 0 ≤ j < index_least0 w → Z.testbit w j = true;
  index_least1_spec w :
    0 < w < 2 ^ 64 →
    0 ≤ index_least1 w < 64 ∧ Z.testbit w (index_least1 w) = true ∧
    ∀ j, 0 ≤ j < index_least1 w → Z.testbit w j = false;
  index_most1_spec w : 0 < w < 2 ^ 64 → index_most1 w = Z.log2 w;
  popcount_spec w : 0 ≤ w < 2 ^ 64 → popcount w = lenZ (bits_of w);
  roundup_spec x k :
    0 ≤ x → 0 ≤ k → x + 2 ^ k ≤ 2 ^ 64 →
    roundup x (2 ^ k) mod 2 ^ k = 0 ∧ x ≤ roundup x (2 ^ k) < x + 2 ^ k;
  roundup_page size :
    2 ^ 16 < size ≤ 2 ^ 22 →
    roundup 4096 size mod 4096 = 0 ∧ 0 < roundup 4096 size ≤ 2 ^ Z.log2_up size;
  rounddown_spec x a : 0 ≤ x → 0 < a → rounddown x a = x - x mod a;
}.

(** The scan of the bits of a word, from bit 0. *)
Fixpoint scan (p : Z → bool) (fuel : nat) (i : Z) : Z :=
  match fuel with
  | O => -1
  | S fuel => if p i then i else scan p fuel (i + 1)
  end.

#[export] Instance RefUtil : Util := {|
  index_least0 w := scan (λ i, negb (Z.testbit w i)) 64 0;
  index_least1 w := scan (Z.testbit w) 64 0;
  index_most1 w := Z.log2 w;
  popcount w := lenZ (bits_of w);
  roundup x a := Z.ldiff (x + a - 1) (a - 1);
  rounddown x a := x - x mod a;
|}.

Lemma scan_spec p fuel i :
  (∃ j, i ≤ j < i + Z.of_nat fuel ∧ p j = true) →
  i ≤ scan p fuel i < i + Z.of_nat fuel ∧ p (scan p fuel i) = true ∧
  ∀ j, i ≤ j < scan p fuel i → p j = false.
Proof.
  revert i. induction fuel as [|fuel IH]; intros i (j & Hj & Hp); [lia|]. simpl.
  destruct (p i) eqn:Hi; [split_and!; [lia..|done|lia]|].
  destruct (IH (i + 1)) as (H1 & H2 & H3).
  { exists j. split; [|done]. destruct (decide (i = j)); [congruence|lia]. }
  split_and!; [lia..|done|]. intros k Hk. destruct (decide (i = k)) as [<-|]; [done|].
  apply H3. lia.
Qed.

Lemma scan_none p fuel i :
  (∀ j, i ≤ j < i + Z.of_nat fuel → p j = false) → scan p fuel i = -1.
Proof.
  revert i. induction fuel as [|fuel IH]; intros i Hp; [done|]. simpl.
  rewrite (Hp i) by lia. apply IH. intros j Hj. apply Hp. lia.
Qed.

(** A word below [2^64 - 1] has a zero bit among its 64 bits. *)
Lemma word_zero_bit w : 0 ≤ w < 2 ^ 64 - 1 → ∃ j, 0 ≤ j < 64 ∧ Z.testbit w j = false.
Proof.
  intros Hw. destruct (decide (Forall (λ j, Z.testbit w j = true) (seqZ 0 64))) as [Hf|Hf].
  - exfalso. assert (w = Z.ones 64) as ->; [|change (Z.ones 64) with (2 ^ 64 - 1) in Hw; lia].
    apply Z.bits_inj'. intros j Hj. destruct (decide (j < 64)).
    + rewrite Z.ones_spec_low by lia. rewrite Forall_forall in Hf. apply Hf.
      apply elem_of_seqZ. lia.
    + rewrite Z.ones_spec_high by lia. apply (testbit_above w 64); lia.
  - apply not_Forall_Exists in Hf; [|apply _]. apply Exists_exists in Hf as (j & Hj & Hb).
    apply elem_of_seqZ in Hj. exists j. split; [lia|]. simpl in Hb.
    by destruct (Z.testbit w j).
Qed.

(** A positive word has a one bit among its 64 bits. *)
Lemma word_one_bit w : 0 < w < 2 ^ 64 → ∃ j, 0 ≤ j < 64 ∧ Z.testbit w j = true.
Proof.
  intros Hw. exists (Z.log2 w). split.
  - split; [apply Z.log2_nonneg|]. apply Z.log2_lt_pow2; lia.
  - apply Z.bit_log2. lia.
Qed.

Lemma ldiff_pow2 v k : 0 ≤ k → Z.ldiff v (2 ^ k - 1) = v - v mod 2 ^ k.
Proof.
  intros Hk. replace (2 ^ k - 1) with (Z.ones k) by (rewrite Z.ones_equiv; lia).
  rewrite Z.ldiff_ones_r, Z.shiftr_div_pow2, Z.shiftl_mul_pow2 by done.
  pose proof (Z.div_mod v (2 ^ k)). lia.
Qed.

(** Adding a page to [t] and clearing the bits of [t]. *)
Lemma ldiff_page t : 0 ≤ t → Z.ldiff (4096 + t) t = 4096 * Z.ldiff (t / 4096 + 1) (t / 4096).
Proof.
  intros Ht. change 4096 with (2 ^ 12). apply Z.bits_inj'. intros n Hn. rewrite Z.ldiff_spec, Z.mul_comm.
  assert ((2 ^ 12 + t) / 2 ^ 12 = t / 2 ^ 12 + 1) as Ed.
  { replace (2 ^ 12 + t) with (t + 1 * 2 ^ 12) by lia. by rewrite Z.div_add. }
  destruct (decide (n < 12)) as [Hlt|Hge].
  - rewrite Z.mul_pow2_bits_low by done.
    rewrite <-(Z.mod_pow2_bits_low (2 ^ 12 + t) 12 n), <-(Z.mod_pow2_bits_low t 12 n) by done.
    replace (2 ^ 12 + t) with (t + 1 * 2 ^ 12) by lia. rewrite Z.mod_add by done. apply andb_negb_r.
  - rewrite Z.mul_pow2_bits, Z.ldiff_spec by lia. rewrite <-Ed, !Z.div_pow2_bits by lia.
    by replace (n - 12 + 12) with n by lia.
Qed.

Definition page_check (u : Z) : bool :=
  (0 <? Z.ldiff (u + 1) u) && (Z.ldiff (u + 1) u <=? 2 ^ (Z.log2 u + 1)).
Lemma pages_checked : forallb page_check (seqZ 16 1008) = true.
Proof. vm_compute. reflexivity. Qed.

Lemma RefUtil_page size :
  2 ^ 16 < size ≤ 2 ^ 22 →
  let r := Z.ldiff (4096 + size - 1) (size - 1) in r mod 4096 = 0 ∧ 0 < r ≤ 2 ^ Z.log2_up size.
Proof.
  change (2 ^ 16) with 65536. change (2 ^ 22) with 4194304. intros Hs. cbv zeta.
  replace (4096 + size - 1) with (4096 + (size - 1)) by lia. rewrite ldiff_page by lia. set (u := (size - 1) / 4096).
  assert (16 ≤ u < 1024) as Hu by (subst u; Z.div_mod_to_equations; lia).
  pose proof pages_checked as Hall. rewrite forallb_forall in Hall. specialize (Hall u).
  rewrite <-list_elem_of_In, elem_of_seqZ in Hall. specialize (Hall ltac:(lia)). unfold page_check in Hall.
  apply andb_true_iff in Hall as [H1%Z.ltb_lt H2%Z.leb_le]. split; [rewrite Z.mul_comm; by apply Z.mod_mul|]. split; [lia|].
  assert (Z.log2 (size - 1) = Z.log2 u + 12) as El.
  { assert (u = Z.shiftr (size - 1) 12) as -> by (subst u; by rewrite Z.shiftr_div_pow2 by lia).
    rewrite Z.log2_shiftr by lia.
    assert (16 ≤ Z.log2 (size - 1)) by (apply Z.log2_le_pow2; [lia|]; change (2 ^ 16) with 65536; lia). lia. }
  rewrite Z.log2_up_eqn by lia. unfold Z.pred. replace (size + -1) with (size - 1) by lia. rewrite El.
  pose proof (Z.log2_nonneg u). replace (Z.succ (Z.log2 u + 12)) with ((Z.log2 u + 1) + 12) by lia.
  rewrite Z.pow_add_r by lia. change (2 ^ 12) with 4096. lia.
Qed.

#[export] Instance RefUtilSpec : UtilSpec.
Proof.
  split.
  - vm_compute. reflexivity.
  - intros w Hw. destruct (word_zero_bit w Hw) as (j & Hj & Hb).
    destruct (scan_spec (λ i, negb (Z.testbit w i)) 64 0) as (H1 & H2 & H3).
    { exists j. split; [lia|]. by rewrite Hb. }
    split_and!; [apply H1..| |].
    + by apply negb_true_iff in H2.
    + intros k Hk. specialize (H3 k Hk). by apply negb_false_iff in H3.
  - intros w Hw. destruct (word_one_bit w Hw) as (j & Hj & Hb).
    destruct (scan_spec (Z.testbit w) 64 0) as (H1 & H2 & H3); [by exists j|].
    split_and!; [apply H1..|done|done].
  - done.
  - done.
  - intros x k Hx Hk _. unfold roundup, RefUtil. rewrite ldiff_pow2 by done.
    assert (0 < 2 ^ k) by (by apply Z.pow_pos_nonneg). set (v := x + 2 ^ k - 1).
    pose proof (Z.div_mod v (2 ^ k)) as Hd. pose proof (Z.mod_pos_bound v (2 ^ k)). split; [|lia].
    replace (v - v mod 2 ^ k) with (v / 2 ^ k * 2 ^ k) by lia. apply Z.mod_mul. lia.
  - intros size Hs. exact (RefUtil_page size Hs).
  - done.
Qed.

Section util_lemmas.
Context `{UtilSpec}.

(** [index_least0] answers -1 exactly on the full word. *)
Lemma index_least0_neg w : 0 ≤ w < 2 ^ 64 → index_least0 w = -1 ↔ w = 2 ^ 64 - 1.
Proof.
  intros Hw. split; intros Hi.
  - destruct (decide (w = 2 ^ 64 - 1)); [done|].
    destruct (index_least0_spec w) as (? & ? & ?); lia.
  - rewrite Hi. apply index_least0_full.
Qed.

(** A zero bit below every other zero bit is the answer of [index_least0]. *)
Lemma index_least0_unique w i :
  0 ≤ w < 2 ^ 64 → 0 ≤ i < 64 → Z.testbit w i = false →
  (∀ j, 0 ≤ j < i → Z.testbit w j = true) → index_least0 w = i.
Proof.
  intros Hw Hi Hb Hl. destruct (decide (w = 2 ^ 64 - 1)) as [->|Hne].
  { change (2 ^ 64 - 1) with (Z.ones 64) in Hb. rewrite Z.ones_spec_low in Hb by lia. done. }
  destruct (index_least0_spec w) as (H1 & H2 & H3); [lia|].
  destruct (Z.lt_trichotomy (index_least0 w) i) as [Hlt|[?|Hgt]]; [|done|].
  - rewrite Hl in H2 by lia. done.
  - rewrite H3 in Hb by lia. done.
Qed.

Lemma popcount_nonneg w : 0 ≤ w < 2 ^ 64 → 0 ≤ popcount w.
Proof. intros Hw. rewrite popcount_spec by done. unfold lenZ. lia. Qed.

Lemma popcount_zero w : 0 ≤ w < 2 ^ 64 → popcount w = 0 ↔ w = 0.
Proof.
  intros Hw. rewrite popcount_spec by done. split.
  - intros Hl. destruct (decide (w = 0)); [done|].
    destruct (word_one_bit w) as (j & Hj & Hb); [lia|].
    assert (j ∈ bits_of w) as Hin by (by apply elem_of_bits_of).
    destruct (bits_of w); [by apply not_elem_of_nil in Hin|]. unfold lenZ in Hl. simpl in Hl. lia.
  - intros ->. vm_compute. reflexivity.
Qed.

Lemma popcount_set w i :
  0 ≤ w < 2 ^ 64 → 0 ≤ i < 64 → Z.testbit w i = false →
  popcount (set_bit w i) = popcount w + 1.
Proof.
  intros Hw Hi Hb. rewrite !popcount_spec by auto with slab. unfold bits_of, lenZ.
  rewrite (filter_flip_count (Z.testbit w) (Z.testbit (set_bit w i)) _ i).
  - lia.
  - apply NoDup_seqZ.
  - apply elem_of_seqZ. lia.
  - done.
  - rewrite set_bit_testbit by lia. rewrite bool_decide_true by done. apply orb_true_r.
  - intros j Hj. rewrite set_bit_testbit by lia. rewrite bool_decide_false by done.
    by rewrite orb_false_r.
Qed.

Lemma popcount_clear w i :
  0 ≤ w < 2 ^ 64 → 0 ≤ i < 64 → Z.testbit w i = true →
  popcount (clear_bit w i) = popcount w - 1.
Proof.
  intros Hw Hi Hb. rewrite !popcount_spec by auto with slab. unfold bits_of, lenZ.
  rewrite (filter_flip_count (Z.testbit (clear_bit w i)) (Z.testbit w) _ i).
  - lia.
  - apply NoDup_seqZ.
  - apply elem_of_seqZ. lia.
  - rewrite clear_bit_testbit by lia. rewrite bool_decide_true by done. apply andb_false_r.
  - done.
  - intros j Hj. rewrite clear_bit_testbit by lia. rewrite bool_decide_false by done.
    by rewrite andb_true_r.
Qed.
End util_lemmas.
