(* ===== verification/Const.v ===== *)
(** * Constants (slab/const.h)

    The constants of [namespace SlabStore] and of [struct SlabConst], under the
    names of the source, and its [static_assert]s as lemmas. *)

From S2P Require Export Prelude.

Definition kCacheLineSize : Z := 64.
Definition kPageSize : Z := Z.shiftl 1 12.
Definition kGigaBytes : Z := Z.shiftl 1 30.

Definition kEnhancedADR : bool := false.
Definition kPhyReclaim : bool := false.
Definition kPreAlloc : bool := true.
Definition kCorePerArena : Z := 2.
Definition kCorePerRunCase : Z := kCorePerArena * 2.
Definition kRootCount : Z := 1024.
Definition kExtentSize : Z := Z.shiftl 1 22.
Definition kPoolSizeAlign : Z := Z.shiftl 1 30.
Definition kSmallRunBase : Z := 4 * kPageSize.
Definition kMediumRunBase : Z := 32 * kPageSize.
Definition kQuantumSize : Z := Z.shiftl 1 5.
Definition kMinGapSize : Z := Z.shiftl 1 7.
Definition kMaxSmallSize : Z := Z.shiftl 1 11.
Definition kMaxMediumSize : Z := Z.shiftl 1 16.
Definition kMaxLargeSize : Z := Z.shiftl 1 22.
Definition kMaxLookupSize : Z := kPageSize.
Definition kNSlabsPerGrp : Z := 4.
Definition kNSlabsCached : Z := 40.
Definition kNSizeGroup : Z := kNSlabsCached / kNSlabsPerGrp.
Definition kCacheBinCapTab : list Z := [128; 128; 64; 64; 32; 16; 16; 8; 8; 4].
Definition kCacheBinStockTab : list Z := [64; 64; 32; 32; 16; 8; 8; 4; 4; 2].
Definition kRunTypeCount : Z := 6.
Definition kRunSizeTab : list Z :=
  [kSmallRunBase; kSmallRunBase * 2; kSmallRunBase * 4;
   kMediumRunBase; kMediumRunBase * 2; kMediumRunBase * 4].
Definition kCBin2RBin : list Z := [0; 0; 1; 1; 2; 3; 3; 4; 4; 5].
Definition kExtentHoldCount : Z := 1.
Definition kRunHoldCount : Z := 1.

(** The [static_assert]s at the end of the struct. *)
Lemma const_static_asserts :
  kExtentSize / kSmallRunBase ≤ 64 * 4 ∧ kExtentSize / kMediumRunBase ≤ 32 ∧
  kNSlabsCached mod kNSlabsPerGrp = 0 ∧ kQuantumSize * kNSlabsPerGrp = kMinGapSize ∧
  Z.shiftl kMinGapSize (kNSlabsCached / kNSlabsPerGrp - 1) = kMaxMediumSize.
Proof. vm_compute. intuition congruence. Qed.
