(* ===== verification/Size.v ===== *)
(** * Size classes (slab/size.h)

    The conversion between an allocation size and the index of its size class:
    the two [compute] functions, the two tables that the constructor of
    [SizeClass] fills with them, and the two public functions that choose
    between table and computation.  The theorems state that the class chosen
    for a size is the smallest that holds it, that the tables agree with the
    computation (so the asserts of the public functions never fail), that the
    two conversions are inverse on the classes, and bound the waste. *)

From S2P Require Export Util Const.

Section size_class.
Context `{Util}.

Definition kSz2idxTabSize : Z := kMaxLookupSize / kQuantumSize.
Definition kMinGapShift : Z := 7.

(** The unsigned subtractions of [size_t] wrap modulo [2^64]. *)
Definition size2index_compute (size : Z) : Z :=
  if size <=? kMinGapSize then u64 (size - 1) / kQuantumSize
  else
    let most := index_most1 (u64 (size - 1)) in
    let gap := bit most in
    let fidx := (most - kMinGapShift + 1) * kNSlabsPerGrp in
    let sidx := u64 (size - gap - 1) / (gap / kNSlabsPerGrp) in
    fidx + sidx.

Definition index2size_compute (idx : Z) : Z :=
  if idx <? kNSlabsPerGrp then (idx + 1) * kQuantumSize
  else
    let gap := Z.shiftl kMinGapSize (idx / kNSlabsPerGrp - 1) in
    let space := gap / kNSlabsPerGrp in
    let sid := idx mod kNSlabsPerGrp in
    gap + space * (sid + 1).

Record SizeClass := {
  idx2sz_tab_ : list Z;  (* uint16_t, in units of kQuantumSize *)
  sz2idx_tab_ : list Z;  (* uint8_t *)
}.

(** The constructor fills both tables. *)
Definition SizeClass_new : SizeClass := {|
  sz2idx_tab_ := (λ i, u8 (size2index_compute ((i + 1) * kQuantumSize - 1))) <$>
                   seqZ 0 kSz2idxTabSize;
  idx2sz_tab_ := (λ i, u16 (index2size_compute i / kQuantumSize)) <$>
                   seqZ 0 kNSlabsCached;
|}.

Definition size2index_lookup {S} (sc : SizeClass) (size : Z) : M S Z :=
  massert (size <=? kMaxLookupSize) ;;
  mderef (nthZ (sz2idx_tab_ sc) (u64 (size - 1) / kQuantumSize)).

Definition index2size_lookup {S} (sc : SizeClass) (idx : Z) : M S Z :=
  sz ← mderef (nthZ (idx2sz_tab_ sc) idx);
  mret (sz * kQuantumSize).

Definition size2index {S} (sc : SizeClass) (size : Z) : M S Z :=
  massert ((0 <? size) && (size <=? kMaxMediumSize)) ;;
  if kMaxLookupSize <? size then mret (size2index_compute size)
  else
    i ← size2index_lookup sc size;
    massert (size2index_compute size =? i) ;;
    size2index_lookup sc size.

Definition index2size {S} (sc : SizeClass) (idx : Z) : M S Z :=
  massert (idx <? kNSlabsCached) ;;
  sz ← index2size_lookup sc idx;
  massert (index2size_compute idx =? sz) ;;
  i ← size2index sc sz;
  massert (i =? idx) ;;
  index2size_lookup sc idx.

(** ** Lemmas *)

Context `{!UtilSpec}.

(** Case analysis on the position of the leading bit of [size - 1]. *)
Lemma log2_cases size :
  128 < size ≤ 65536 →
  ∃ m, Z.log2 (size - 1) = m ∧ 2 ^ m < size ≤ 2 ^ (m + 1) ∧
       (m = 7 ∨ m = 8 ∨ m = 9 ∨ m = 10 ∨ m = 11 ∨ m = 12 ∨ m = 13 ∨ m = 14 ∨ m = 15).
Proof.
  intros Hs. exists (Z.log2 (size - 1)).
  pose proof (Z.log2_spec (size - 1)) as [Hl Hu]; [lia|].
  assert (7 ≤ Z.log2 (size - 1)) by (apply Z.log2_le_pow2; lia).
  assert (Z.log2 (size - 1) < 16) by (apply Z.log2_lt_pow2; lia).
  split_and!; [done|lia|unfold Z.succ in Hu; lia|lia].
Qed.

Lemma size2index_small size :
  0 < size ≤ 128 → size2index_compute size = (size - 1) / 32.
Proof.
  intros Hs. unfold size2index_compute. change kMinGapSize with 128.
  rewrite (proj2 (Z.leb_le _ _)) by lia. unfold u64, wrap.
  by rewrite Z.mod_small by lia.
Qed.

Lemma size2index_big size m :
  128 < size ≤ 65536 → Z.log2 (size - 1) = m → 7 ≤ m → 2 ^ m < size →
  size2index_compute size = (m - 6) * 4 + (size - 2 ^ m - 1) / (2 ^ m / 4).
Proof.
  intros Hs Hm Hm7 Hp. unfold size2index_compute. change kMinGapSize with 128.
  assert (0 < 2 ^ m) by (apply Z.pow_pos_nonneg; lia).
  rewrite (proj2 (Z.leb_gt _ _)) by lia. unfold u64, wrap.
  rewrite (Z.mod_small (size - 1)) by lia. rewrite index_most1_spec by lia.
  rewrite Hm. unfold bit. rewrite Z.shiftl_1_l.
  change kMinGapShift with 7. change kNSlabsPerGrp with 4.
  rewrite Z.mod_small by lia. lia.
Qed.

Lemma index2size_eq idx :
  0 ≤ idx < 40 →
  index2size_compute idx =
    if idx <? 4 then (idx + 1) * 32
    else 2 ^ (idx / 4 + 6) + 2 ^ (idx / 4 + 4) * (idx mod 4 + 1).
Proof.
  intros Hi. unfold index2size_compute. change kNSlabsPerGrp with 4.
  destruct (Z.ltb_spec idx 4); [done|].
  assert (1 ≤ idx / 4) by (apply Z.div_le_lower_bound; lia).
  rewrite Z.shiftl_mul_pow2 by lia. change kMinGapSize with (2 ^ 7).
  rewrite <-Z.pow_add_r by lia.
  replace (7 + (idx / 4 - 1)) with (idx / 4 + 4 + 2) by lia.
  rewrite (Z.pow_add_r 2 (idx / 4 + 4) 2) by lia.
  change (2 ^ 2) with 4. rewrite Z.div_mul by lia.
  replace (idx / 4 + 6) with (idx / 4 + 4 + 2) by lia.
  rewrite (Z.pow_add_r 2 (idx / 4 + 4) 2) by lia. done.
Qed.

(** One group of four classes, with gap [4 * s]. *)
Lemma size_group_quot x s q :
  0 < s → q = (x - 4 * s - 1) / s → 4 * s < x ≤ 8 * s →
  0 ≤ q < 4 ∧ s * q < x - 4 * s ≤ s * (q + 1).
Proof.
  intros Hs -> Hx. pose proof (Z.div_mod (x - 4 * s - 1) s).
  pose proof (Z.mod_pos_bound (x - 4 * s - 1) s).
  assert (0 ≤ (x - 4 * s - 1) / s) by (apply Z.div_pos; lia).
  assert ((x - 4 * s - 1) / s < 4) by (apply Z.div_lt_upper_bound; lia). lia.
Qed.

(** The arithmetic of one size group: the class of [size], the size of that
    class, and the size of the class before it. *)
Lemma size_class_spec size :
  0 < size ≤ 65536 →
  let i := size2index_compute size in
  0 ≤ i < 40 ∧ size ≤ index2size_compute i ∧
  (0 < i → index2size_compute (i - 1) < size) ∧
  (128 < size → (index2size_compute i - size) * 4 < size).
Proof.
  intros Hs i. subst i. destruct (decide (size ≤ 128)) as [Hle|Hgt].
  - rewrite size2index_small by lia. pose proof (Z.div_mod (size - 1) 32).
    pose proof (Z.mod_pos_bound (size - 1) 32).
    rewrite index2size_eq by lia.
    split_and!; [lia|lia|rewrite (proj2 (Z.ltb_lt _ _)) by lia; lia| |lia].
    intros Hi. rewrite index2size_eq by lia. rewrite (proj2 (Z.ltb_lt _ _)) by lia. lia.
  - destruct (log2_cases size) as (m & Hm & Hr & Hcase); [lia|].
    rewrite (size2index_big size m) by lia. clear Hm.
    destruct (size_group_quot size (2 ^ m / 4) ((size - 2 ^ m - 1) / (2 ^ m / 4))) as [Hq Hqr].
    { repeat destruct Hcase as [->|Hcase]; try subst m; reflexivity. }
    { repeat destruct Hcase as [->|Hcase]; try subst m; reflexivity. }
    { repeat destruct Hcase as [->|Hcase]; try subst m; norm_consts; lia. }
    revert Hq Hqr. generalize ((size - 2 ^ m - 1) / (2 ^ m / 4)). intros q Hq Hqr.
    assert (q = 0 ∨ q = 1 ∨ q = 2 ∨ q = 3) as Hq4 by lia.
    repeat destruct Hcase as [->|Hcase]; try subst m;
      repeat destruct Hq4 as [->|Hq4]; try subst q;
      rewrite !index2size_eq by lia; norm_consts; simpl in *; norm_consts; split_and!; lia.
Qed.

(** The class sizes increase strictly, are multiples of the quantum, and fit
    the 16-bit entries of the table. *)
Lemma index2size_table :
  forallb (λ i, (index2size_compute i mod 32 =? 0) && (0 <? index2size_compute i) &&
                (index2size_compute i <=? 65536) &&
                forallb (λ j, (j <=? i) || (index2size_compute i <? index2size_compute j))
                        (seqZ 0 40)) (seqZ 0 40) = true.
Proof. vm_compute. reflexivity. Qed.

Lemma index2size_facts i :
  0 ≤ i < 40 →
  index2size_compute i mod 32 = 0 ∧ 0 < index2size_compute i ≤ 65536 ∧
  ∀ j, i < j < 40 → index2size_compute i < index2size_compute j.
Proof.
  intros Hi. pose proof index2size_table as Ht. rewrite forallb_forall in Ht.
  specialize (Ht i). rewrite <-list_elem_of_In, elem_of_seqZ in Ht.
  specialize (Ht ltac:(lia)). apply andb_true_iff in Ht as [Ht Hall]. bool_split.
  split_and!; [by apply Z.eqb_eq|by apply Z.ltb_lt|by apply Z.leb_le|].
  intros j Hj. rewrite forallb_forall in Hall. specialize (Hall j).
  rewrite <-list_elem_of_In, elem_of_seqZ in Hall. specialize (Hall ltac:(lia)).
  apply orb_true_iff in Hall as [Hle|]; [apply Z.leb_le in Hle; lia|by apply Z.ltb_lt].
Qed.

(** A size determines its class. *)
Lemma class_unique size i j :
  0 ≤ i < 40 → 0 ≤ j < 40 →
  size ≤ index2size_compute i → (0 < i → index2size_compute (i - 1) < size) →
  size ≤ index2size_compute j → (0 < j → index2size_compute (j - 1) < size) → i = j.
Proof.
  intros Hi Hj Hsi Hli Hsj Hlj.
  destruct (Z.lt_trichotomy i j) as [Hlt|[?|Hgt]]; [|done|].
  - destruct (decide (i = j - 1)) as [->|]; [lia|].
    pose proof (index2size_facts i Hi) as (_ & _ & Hm). specialize (Hm (j - 1)). lia.
  - destruct (decide (j = i - 1)) as [->|]; [lia|].
    pose proof (index2size_facts j Hj) as (_ & _ & Hm). specialize (Hm (i - 1)). lia.
Qed.

(** The lookup table agrees with the computation: the class of a size depends
    only on the quantum it falls in. *)
Lemma size2index_quantum size :
  0 < size ≤ 4096 →
  size2index_compute (((size - 1) / 32 + 1) * 32 - 1) = size2index_compute size.
Proof.
  intros Hs. pose proof (Z.div_mod (size - 1) 32). pose proof (Z.mod_pos_bound (size - 1) 32).
  set (k := (size - 1) / 32) in *. assert (0 ≤ k < 128) by lia.
  destruct (size_class_spec size) as (Hi & Hsi & Hli & _); [lia|].
  destruct (size_class_spec ((k + 1) * 32 - 1)) as (Hj & Hsj & Hlj & _); [lia|].
  set (i := size2index_compute size) in *.
  set (j := size2index_compute ((k + 1) * 32 - 1)) in *.
  destruct (index2size_facts i Hi) as (Hm & _ & _).
  destruct (index2size_facts j Hj) as (Hm' & _ & _).
  apply (class_unique size); try done.
  - destruct (decide (size = (k + 1) * 32)); [|lia].
    pose proof (Z.div_mod (index2size_compute j) 32). lia.
  - intros Hj0. specialize (Hlj Hj0).
    destruct (index2size_facts (j - 1)) as (Hm'' & _ & _); [lia|].
    pose proof (Z.div_mod (index2size_compute (j - 1)) 32). lia.
Qed.

Lemma nthZ_seqZ_fmap {A} (f : Z → A) n i :
  0 ≤ i < n → nthZ (f <$> seqZ 0 n) i = Some (f i).
Proof.
  intros Hi. unfold nthZ. rewrite (proj2 (Z.leb_le _ _)) by lia.
  rewrite list_lookup_fmap, lookup_seqZ_lt by lia. simpl. f_equal. f_equal. lia.
Qed.

Lemma size2index_ok {S} size (s : S) :
  0 < size ≤ 65536 →
  size2index SizeClass_new size s = Ok (size2index_compute size) s.
Proof.
  intros Hs. unfold size2index, massert, mbind, M_bind.
  change kMaxMediumSize with 65536. change kMaxLookupSize with 4096.
  rewrite (proj2 (Z.ltb_lt 0 _)), (proj2 (Z.leb_le size _)) by lia. simpl andb. cbv iota.
  destruct (Z.ltb_spec 4096 size); [done|].
  assert (size2index_lookup (S:=S) SizeClass_new size s = Ok (size2index_compute size) s) as Hl.
  { unfold size2index_lookup, massert, mbind, M_bind. change kMaxLookupSize with 4096.
    rewrite (proj2 (Z.leb_le size _)) by lia. unfold u64, wrap. rewrite Z.mod_small by lia.
    change kQuantumSize with 32. unfold SizeClass_new, sz2idx_tab_.
    assert (0 ≤ (size - 1) / 32 < 128).
    { pose proof (Z.div_mod (size - 1) 32). pose proof (Z.mod_pos_bound (size - 1) 32). lia. }
    rewrite nthZ_seqZ_fmap by (change kSz2idxTabSize with 128; lia).
    unfold mderef, mret, M_ret. f_equal. change kQuantumSize with 32.
    rewrite size2index_quantum by lia. unfold u8, wrap. apply Z.mod_small.
    destruct (size_class_spec size); lia. }
  rewrite Hl, Z.eqb_refl. apply Hl.
Qed.

Lemma index2size_lookup_ok {S} i (s : S) :
  0 ≤ i < 40 → index2size_lookup SizeClass_new i s = Ok (index2size_compute i) s.
Proof.
  intros Hi. unfold index2size_lookup, mbind, M_bind, SizeClass_new, idx2sz_tab_.
  rewrite nthZ_seqZ_fmap by (change kNSlabsCached with 40; lia).
  unfold mderef, mret, M_ret. f_equal. change kQuantumSize with 32.
  destruct (index2size_facts i) as (Hm & Hr & _); [lia|].
  pose proof (Z.div_mod (index2size_compute i) 32). unfold u16, wrap.
  rewrite Z.mod_small by lia. lia.
Qed.

Lemma class_of_class i :
  0 ≤ i < 40 → size2index_compute (index2size_compute i) = i.
Proof.
  intros Hi. destruct (index2size_facts i Hi) as (_ & Hr & _).
  destruct (size_class_spec (index2size_compute i)) as (Hj & Hs & Hl & _); [lia|].
  apply (class_unique (index2size_compute i)); try done.
  intros H1. destruct (index2size_facts (i - 1)) as (_ & _ & Hm); [lia|]. apply Hm. lia.
Qed.

Lemma index2size_ok {S} i (s : S) :
  0 ≤ i < 40 → index2size SizeClass_new i s = Ok (index2size_compute i) s.
Proof.
  intros Hi. destruct (index2size_facts i Hi) as (_ & Hr & _).
  unfold index2size, massert, mbind, M_bind. change kNSlabsCached with 40.
  rewrite (proj2 (Z.ltb_lt i _)) by lia. rewrite index2size_lookup_ok by lia.
  rewrite Z.eqb_refl, size2index_ok by lia. rewrite class_of_class by lia.
  rewrite Z.eqb_refl. by apply index2size_lookup_ok.
Qed.

(** C38: for every size from 1 byte to 64 KiB, [SizeClass::size2index] passes its
    asserts and returns the index of the smallest of the 40 size classes that
    holds the size; above 128 bytes less than a quarter of the request is
    wasted. *)
Theorem size2index_best_fit {S} size (s : S) :
  0 < size ≤ kMaxMediumSize →
  ∃ i, size2index SizeClass_new size s = Ok i s ∧ 0 ≤ i < kNSlabsCached ∧
    size ≤ index2size_compute i ∧
    (∀ j, 0 ≤ j < kNSlabsCached → size ≤ index2size_compute j → i ≤ j) ∧
    (kMinGapSize < size → (index2size_compute i - size) * 4 < size).
Proof.
  change kMaxMediumSize with 65536. change kNSlabsCached with 40.
  change kMinGapSize with 128. intros Hs. exists (size2index_compute size).
  destruct (size_class_spec size Hs) as (Hi & Hf & Hl & Hw).
  split_and!; [by apply size2index_ok|lia|lia|done| |done].
  intros j Hj Hfj. destruct (decide (size2index_compute size ≤ j)) as [|Hgt]; [done|].
  specialize (Hl ltac:(lia)). destruct (decide (j = size2index_compute size - 1)) as [->|]; [lia|].
  destruct (index2size_facts j Hj) as (_ & _ & Hm).
  specialize (Hm (size2index_compute size - 1)). lia.
Qed.

(** For every class index, [SizeClass::index2size] passes its three asserts,
    and [size2index] maps the size it returns back to the index. *)
Lemma index2size_roundtrip {S} i (s : S) :
  0 ≤ i < kNSlabsCached →
  ∃ sz, index2size SizeClass_new i s = Ok sz s ∧ size2index SizeClass_new sz s = Ok i s.
Proof.
  change kNSlabsCached with 40. intros Hi. exists (index2size_compute i).
  split; [by apply index2size_ok|]. destruct (index2size_facts i Hi) as (_ & Hr & _).
  rewrite size2index_ok by lia. by rewrite class_of_class.
Qed.
End size_class.

Lemma size2index_best_fit_witness :
  0 < 5000 ≤ kMaxMediumSize ∧
  ∃ i, size2index SizeClass_new 5000 tt = Ok i tt ∧ 0 ≤ i < kNSlabsCached ∧
    5000 ≤ index2size_compute i ∧
    (∀ j, 0 ≤ j < kNSlabsCached → 5000 ≤ index2size_compute j → i ≤ j) ∧
    (kMinGapSize < 5000 → (index2size_compute i - 5000) * 4 < 5000).
Proof.
  split; [vm_compute; split; congruence|].
  apply (size2index_best_fit 5000 tt). vm_compute. split; congruence.
Defined.

Lemma index2size_roundtrip_witness :
  0 ≤ 17 < kNSlabsCached ∧
  ∃ sz, index2size SizeClass_new 17 tt = Ok sz tt ∧ size2index SizeClass_new sz tt = Ok 17 tt.
Proof.
  split; [vm_compute; split; congruence|].
  apply (index2size_roundtrip 17 tt). vm_compute. split; congruence.
Defined.
