(* ===== verification/Pptr.v ===== *)
(** * Persistent pointers (slab/pptr.h)

    A [pptr_t<off_t>] holds the signed distance from its own address to the
    object it points to, in an [off_t] of [w] bits (32 or 64), and the most
    negative value for a null pointer.  Addresses are [size_t] values, 0 is
    [nullptr].  The theorems say for which pairs of addresses a store followed
    by a load gives the pointer back, and that a load does not depend on where
    the file is mapped. *)

From S2P Require Export Const.

Section pptr.
Variable w : Z.

Definition kShift : Z := w - 1.
Definition kInvalid : Z := swrap w (Z.shiftl 1 kShift).

(** [void store(const void* ptr)]: the new content of [off_]. *)
Definition pptr_store (this ptr : Z) : Z :=
  if ptr =? nullptr then kInvalid else swrap w (u64 (ptr - this)).

(** [void* load() const] *)
Definition pptr_load (this off : Z) : Z :=
  if off =? kInvalid then nullptr else u64 (this + u64 off).

(** [pptr_t(const pptr_t& pptr) { store(pptr.load()); }], also operator=. *)
Definition pptr_copy (this other off : Z) : Z := pptr_store this (pptr_load other off).

(** ** Lemmas *)

Hypothesis Hw : 1 < w ≤ 64.

Lemma pow_w : 2 ^ w = 2 * 2 ^ (w - 1) ∧ 0 < 2 ^ (w - 1) ≤ 2 ^ 63.
Proof using Hw.
  split.
  - rewrite <-(Z.pow_succ_r 2 (w - 1)) by lia. f_equal. lia.
  - split; [apply Z.pow_pos_nonneg; lia|apply Z.pow_le_mono_r; lia].
Qed.

Lemma swrap_small x : - 2 ^ (w - 1) ≤ x < 2 ^ (w - 1) → swrap w x = x.
Proof using Hw.
  intros Hx. destruct pow_w as [He Hp]. unfold swrap. rewrite Z.mod_small by lia. lia.
Qed.

Lemma swrap_range x : - 2 ^ (w - 1) ≤ swrap w x < 2 ^ (w - 1).
Proof using Hw.
  destruct pow_w as [He Hp]. unfold swrap.
  pose proof (Z.mod_pos_bound (x + 2 ^ (w - 1)) (2 ^ w)). lia.
Qed.

(** Reduction modulo [2^64] first does not change the low [w] bits. *)
Lemma swrap_u64 x : swrap w (u64 x) = swrap w x.
Proof using Hw.
  unfold swrap, u64, wrap. f_equal.
  assert (0 < 2 ^ w) by (apply Z.pow_pos_nonneg; lia).
  assert (0 < 2 ^ (64 - w)) by (apply Z.pow_pos_nonneg; lia).
  replace (2 ^ 64) with (2 ^ w * 2 ^ (64 - w)) by (rewrite <-Z.pow_add_r by lia; f_equal; lia).
  rewrite <-Zplus_mod_idemp_l. rewrite Z.rem_mul_r by lia.
  rewrite (Z.mul_comm (2 ^ w)), Z.mod_add by lia.
  rewrite Z.mod_mod by lia. by rewrite Zplus_mod_idemp_l.
Qed.

Lemma kInvalid_eq : kInvalid = - 2 ^ (w - 1).
Proof using Hw.
  destruct pow_w as [He Hp]. unfold kInvalid, kShift, swrap. rewrite Z.shiftl_1_l.
  replace (2 ^ (w - 1) + 2 ^ (w - 1)) with (2 ^ w) by lia.
  rewrite Z.mod_same by lia. lia.
Qed.

Lemma pptr_store_near this ptr :
  ptr ≠ 0 → - 2 ^ (w - 1) < ptr - this < 2 ^ (w - 1) → pptr_store this ptr = ptr - this.
Proof using Hw.
  intros H0 Hd. unfold pptr_store, nullptr. rewrite (proj2 (Z.eqb_neq _ _)) by done.
  rewrite swrap_u64. apply swrap_small. lia.
Qed.

Lemma pptr_load_off this off :
  off ≠ - 2 ^ (w - 1) → 0 ≤ this + off < 2 ^ 64 → pptr_load this off = this + off.
Proof using Hw.
  intros Ho Ha. unfold pptr_load. rewrite kInvalid_eq, (proj2 (Z.eqb_neq _ _)) by lia.
  unfold u64, wrap. rewrite Zplus_mod_idemp_r. by apply Z.mod_small.
Qed.

(** For two addresses below [2^47] (user space), a persistent pointer gives
    back the pointer stored in it exactly when that pointer is null or less
    than [2^(w-1)] bytes away from the persistent pointer itself. *)
Lemma pptr_roundtrip this ptr :
  0 < this < 2 ^ 47 → 0 ≤ ptr < 2 ^ 47 →
  pptr_load this (pptr_store this ptr) = ptr ↔
    ptr = nullptr ∨ - 2 ^ (w - 1) < ptr - this < 2 ^ (w - 1).
Proof using Hw.
  intros Ht Hp. destruct pow_w as [He Hw1]. unfold nullptr.
  destruct (decide (ptr = 0)) as [->|H0].
  { split; [by left|]. intros _. unfold pptr_store, pptr_load. by rewrite Z.eqb_refl. }
  split.
  - intros Hl. right. unfold pptr_store, nullptr in Hl.
    rewrite (proj2 (Z.eqb_neq _ _)) in Hl by done. rewrite swrap_u64 in Hl.
    pose proof (swrap_range (ptr - this)) as Hr. unfold pptr_load, nullptr in Hl.
    rewrite kInvalid_eq in Hl. destruct (Z.eqb_spec (swrap w (ptr - this)) (- 2 ^ (w - 1))); [lia|].
    unfold u64, wrap in Hl. rewrite Zplus_mod_idemp_r in Hl.
    set (d := swrap w (ptr - this)) in *. change (2 ^ 63) with 9223372036854775808 in *.
    change (2 ^ 47) with 140737488355328 in *. change (2 ^ 64) with 18446744073709551616 in *.
    assert (this + d = ptr ∨ this + d = ptr - 18446744073709551616); [|lia].
    pose proof (Z.div_mod (this + d) 18446744073709551616).
    assert (-1 ≤ (this + d) / 18446744073709551616 < 1) by
      (split; [apply Z.div_le_lower_bound|apply Z.div_lt_upper_bound]; lia). lia.
  - intros [?|Hd]; [done|]. rewrite pptr_store_near by done.
    rewrite pptr_load_off by lia. lia.
Qed.

(** Mapping the file [d] bytes further moves what a persistent pointer in it
    points to by [d] bytes: the stored offset is independent of the mapping. *)
Lemma pptr_relocation this ptr d :
  0 < this < 2 ^ 47 → 0 < ptr < 2 ^ 47 → 0 < this + d < 2 ^ 47 → 0 < ptr + d < 2 ^ 47 →
  - 2 ^ (w - 1) < ptr - this < 2 ^ (w - 1) →
  pptr_load (this + d) (pptr_store this ptr) = ptr + d.
Proof using Hw.
  intros. rewrite pptr_store_near by lia. rewrite pptr_load_off by lia. lia.
Qed.

(** Copying a persistent pointer keeps its target. *)
Lemma pptr_copy_ok this other ptr :
  0 < this < 2 ^ 47 → 0 < other < 2 ^ 47 → 0 < ptr < 2 ^ 47 →
  - 2 ^ (w - 1) < ptr - this < 2 ^ (w - 1) → - 2 ^ (w - 1) < ptr - other < 2 ^ (w - 1) →
  pptr_load this (pptr_copy this other (pptr_store other ptr)) = ptr.
Proof using Hw.
  intros. unfold pptr_copy. rewrite (pptr_store_near other) by lia.
  rewrite (pptr_load_off other) by lia. rewrite pptr_store_near by lia.
  rewrite pptr_load_off by lia. lia.
Qed.
End pptr.

(** The two typedefs. *)
Definition pptr32_load := pptr_load 32.
Definition pptr32_store := pptr_store 32.
Definition pptr64_load := pptr_load 64.
Definition pptr64_store := pptr_store 64.

Lemma pptr_roundtrip_witness :
  1 < 32 ≤ 64 ∧
  (pptr_load 32 4096 (pptr_store 32 4096 8192) = 8192 ↔
     8192 = nullptr ∨ - 2 ^ (32 - 1) < 8192 - 4096 < 2 ^ (32 - 1)).
Proof. split; [lia|]. apply (pptr_roundtrip 32 ltac:(lia) 4096 8192); lia. Defined.

Lemma pptr_relocation_witness :
  1 < 64 ≤ 64 ∧ pptr_load 64 (4096 + 65536) (pptr_store 64 4096 8192) = 8192 + 65536.
Proof. split; [lia|]. apply (pptr_relocation 64 ltac:(lia) 4096 8192 65536); lia. Defined.
