(* ===== verification/Persist.v ===== *)
(** * Writing back to persistent memory (slab/persist.h)

    [PersistCall] is the loop that flushes the cache lines of a range, with the
    theorem that it flushes exactly the lines the range meets.  [Pmem] is the
    machine under it: stores reach the cache, a write-back of a line followed by
    a fence makes it durable, and at any moment the hardware may evict a line.
    A crash image therefore takes, for every line, any of the contents the line
    had since its last completed write-back.  It is generic in the type of the
    lines and of their contents. *)

From S2P Require Export Const.

Module PersistCall.
Section persist_call.

(** [for(uptr = ptr & ~(kCacheLineSize - 1); uptr < ptr + len; uptr += kCacheLineSize)];
    the result lists the arguments of [flush_call]. *)
Fixpoint persist_loop (fuel : nat) (uptr stop : Z) : list Z :=
  match fuel with
  | O => []
  | S fuel =>
      if uptr <? stop then uptr :: persist_loop fuel (uptr + kCacheLineSize) stop else []
  end.

Definition persist_call (ptr len : Z) : list Z :=
  persist_loop (Z.to_nat (len / kCacheLineSize + 2))
    (Z.land ptr (u64 (Z.lnot (kCacheLineSize - 1)))) (ptr + len).

(** The line of an address. *)
Definition line_of (a : Z) : Z := a - a mod kCacheLineSize.

Lemma land_line a : 0 ≤ a < 2 ^ 64 → Z.land a (u64 (Z.lnot (kCacheLineSize - 1))) = line_of a.
Proof.
  intros Ha. unfold line_of, u64, wrap. change kCacheLineSize with (2 ^ 6).
  assert (a - a mod 2 ^ 6 = Z.shiftl (Z.shiftr a 6) 6) as ->.
  { rewrite Z.shiftl_mul_pow2, Z.shiftr_div_pow2 by lia.
    pose proof (Z.div_mod a (2 ^ 6)). lia. }
  apply Z.bits_inj'. intros j Hj. rewrite Z.land_spec.
  destruct (decide (j < 6)).
  - rewrite Z.shiftl_spec_low by lia. rewrite Z.mod_pow2_bits_low by lia.
    rewrite Z.lnot_spec by lia. change (2 ^ 6 - 1) with (Z.ones 6).
    rewrite Z.ones_spec_low by lia. apply andb_false_r.
  - rewrite Z.shiftl_spec by lia. rewrite Z.shiftr_spec by lia.
    replace (j - 6 + 6) with j by lia. destruct (decide (j < 64)).
    + rewrite Z.mod_pow2_bits_low by lia. rewrite Z.lnot_spec by lia.
      change (2 ^ 6 - 1) with (Z.ones 6). rewrite Z.ones_spec_high by lia. apply andb_true_r.
    + by rewrite (testbit_above a 64) by lia.
Qed.

Lemma persist_loop_spec fuel u stop :
  stop ≤ u + kCacheLineSize * Z.of_nat fuel →
  ∀ x, x ∈ persist_loop fuel u stop ↔ ∃ k, 0 ≤ k ∧ x = u + kCacheLineSize * k ∧ x < stop.
Proof.
  change kCacheLineSize with 64. revert u. induction fuel as [|fuel IH]; intros u Hs x; simpl.
  - split; [by intros ?%not_elem_of_nil|]. intros (k & ? & ? & ?). lia.
  - destruct (Z.ltb_spec u stop) as [Hlt|Hge]; last first.
    { split; [by intros ?%not_elem_of_nil|]. intros (k & ? & ? & ?). lia. }
    change kCacheLineSize with 64. rewrite elem_of_cons, (IH (u + 64)) by lia. split.
    + intros [->|(k & ? & ? & ?)]; [exists 0; lia|exists (k + 1); lia].
    + intros (k & Hk & Hx & Hxs). destruct (decide (k = 0)); [left; lia|].
      right. exists (k - 1). lia.
Qed.

Lemma persist_call_lines ptr len x :
  0 ≤ ptr → 0 < len → ptr + len < 2 ^ 64 →
  x ∈ persist_call ptr len ↔ ∃ a, ptr ≤ a < ptr + len ∧ x = line_of a.
Proof.
  intros Hp Hl Hm. unfold persist_call. rewrite land_line by lia.
  unfold line_of in *. change kCacheLineSize with 64.
  pose proof (Z.div_mod ptr 64). pose proof (Z.mod_pos_bound ptr 64).
  pose proof (Z.div_mod len 64). pose proof (Z.mod_pos_bound len 64).
  rewrite persist_loop_spec; change kCacheLineSize with 64; [|lia]. split.
  - intros (k & Hk & Hx & Hlt). destruct (decide (k = 0)).
    + exists ptr. lia.
    + exists x. rewrite Hx.
      replace (ptr - ptr mod 64 + 64 * k) with ((ptr / 64 + k) * 64) by lia.
      rewrite Z.mod_mul by lia. lia.
  - intros (a & Ha & ->). exists (a / 64 - ptr / 64).
    pose proof (Z.div_mod a 64). pose proof (Z.mod_pos_bound a 64).
    assert (ptr / 64 ≤ a / 64) by (apply Z.div_le_mono; lia). lia.
Qed.

(** [persist_call] terminates and calls the flush for a line exactly when the
    line holds a byte of [ptr, ptr + len), for a non-empty range. *)
Lemma persist_call_covers ptr len x :
  0 ≤ ptr → 0 < len → ptr + len < 2 ^ 64 →
  x ∈ persist_call ptr len ↔ ∃ a, ptr ≤ a < ptr + len ∧ x = line_of a.
Proof. apply persist_call_lines. Qed.
End persist_call.

Lemma persist_call_covers_witness :
  0 ≤ 100 ∧ (128 ∈ persist_call 100 60 ↔ ∃ a, 100 ≤ a < 100 + 60 ∧ 128 = line_of a).
Proof. split; [lia|]. apply (persist_call_covers 100 60 128); lia. Defined.
End PersistCall.

Module Pmem.
Section pmem.
Context {L V : Type} `{EqDecision L}.

(** The events of an execution, in program order: a store that leaves the line
    [l] with content [v], [clwb] of a line, [mfence]. *)
Inductive pev :=
| Store (l : L) (v : V)
| Flush (l : L)
| Fence.

(** What is known of one line: the contents it may have after a crash, the
    current one last, and how many of them the next fence rules out. *)
Record line_state := { opts : list V; mark : nat }.

Definition line_step (l : L) (e : pev) (s : line_state) : line_state :=
  match e with
  | Store l' v => if decide (l = l') then {| opts := opts s ++ [v]; mark := mark s |} else s
  | Flush l' => if decide (l = l')
                then {| opts := opts s; mark := pred (length (opts s)) |} else s
  | Fence => {| opts := drop (mark s) (opts s); mark := 0 |}
  end.

Definition line_run (l : L) (tr : list pev) (s : line_state) : line_state :=
  fold_left (λ s e, line_step l e s) tr s.

(** The contents line [l] may have if the machine stops after [tr], when [v0]
    was durable at the start. *)
Definition crash_options (l : L) (v0 : V) (tr : list pev) : list V :=
  opts (line_run l tr {| opts := [v0]; mark := 0 |}).

(** [img] is a crash image of the execution [tr] from the durable memory [m0]:
    the machine stops after some prefix of [tr]. *)
Definition crash_image (m0 : L → V) (tr : list pev) (img : L → V) : Prop :=
  ∃ k, ∀ l, img l ∈ crash_options l (m0 l) (take k tr).

(** A completed write-back ([wait_write_back]) leaves one possible content. *)
Lemma write_back_durable l v0 tr :
  ∃ v, crash_options l v0 (tr ++ [Flush l; Fence]) = [v] ∧
       last (crash_options l v0 tr) = Some v.
Proof.
  unfold crash_options, line_run. rewrite fold_left_app. simpl. rewrite decide_True by done.
  simpl. set (s := fold_left _ tr _).
  assert (opts s ≠ []) as Hne.
  { subst s. cut (∀ tr s, (mark s < length (opts s))%nat →
      let s' := fold_left (λ s e, line_step l e s) tr s in
      (mark s' < length (opts s'))%nat).
    { intros Hc. specialize (Hc tr {| opts := [v0]; mark := 0 |} ltac:(simpl; lia)).
      simpl in Hc. intros He. rewrite He in Hc. simpl in Hc. lia. }
    clear tr. induction tr as [|e tr IH]; intros s Hs; simpl; [done|]. apply IH.
    destruct e as [l' v|l'|]; simpl.
    - case_decide; [simpl; rewrite length_app; simpl; lia|done].
    - case_decide; [simpl; lia|done].
    - rewrite length_drop. lia. }
  destruct (opts s) as [|v vs _] using rev_ind; [done|].
  exists v. rewrite length_app. simpl.
  replace (pred (length vs + 1)) with (length vs) by lia.
  rewrite drop_app_length, last_snoc. done.
Qed.

(** A line that is never stored to keeps its content. *)
Lemma crash_options_untouched l v0 tr :
  (∀ v, Store l v ∉ tr) → crash_options l v0 tr = [v0].
Proof.
  intros Hu. unfold crash_options, line_run.
  cut (∀ s, opts s = [v0] → mark s = O →
    let s' := fold_left (λ s e, line_step l e s) tr s in opts s' = [v0] ∧ mark s' = O).
  { intros Hc. by apply Hc. }
  induction tr as [|e tr IH]; intros s Ho Hm; simpl; [done|].
  apply IH; [intros v Hv; apply (Hu v); set_solver|..].
  - destruct e as [l' v|l'|]; simpl.
    + case_decide as Hd; [|done]. subst l'. exfalso. apply (Hu v). set_solver.
    + by case_decide.
    + by rewrite Hm, Ho.
  - destruct e as [l' v|l'|]; simpl.
    + by case_decide.
    + case_decide; [by simpl; rewrite Ho|done].
    + done.
Qed.

(** *** Committing with one store *)

Lemma line_run_app l tr1 tr2 s : line_run l (tr1 ++ tr2) s = line_run l tr2 (line_run l tr1 s).
Proof. apply fold_left_app. Qed.

(** After [tr], line [l] can only have the content [w]. *)
Definition settled (l : L) (v0 : V) (tr : list pev) (w : V) : Prop :=
  line_run l tr {| opts := [v0]; mark := 0 |} = {| opts := [w]; mark := 0 |}.

Lemma settled_app l v0 tr1 tr2 w :
  settled l v0 tr1 w → crash_options l v0 (tr1 ++ tr2) = crash_options l w tr2.
Proof. unfold settled, crash_options. intros Hs. by rewrite line_run_app, Hs. Qed.

Lemma line_run_untouched l tr s :
  (∀ v, Store l v ∉ tr) → (∃ v, s = {| opts := [v]; mark := 0 |}) → line_run l tr s = s.
Proof.
  unfold line_run. revert s. induction tr as [|e tr IH]; intros s Hu [v ->]; simpl; [done|].
  assert (line_step l e {| opts := [v]; mark := 0 |} = {| opts := [v]; mark := 0 |}) as ->.
  { destruct e as [l' v'|l'|]; simpl; [|by case_decide|done]. rewrite decide_False; [done|].
    intros ->. apply (Hu v'). by left. }
  apply IH; [|by exists v]. intros v' Hv'. apply (Hu v'). by right.
Qed.

Lemma settled_untouched l v0 tr : (∀ v, Store l v ∉ tr) → settled l v0 tr v0.
Proof. intros Hu. apply line_run_untouched; [done|by exists v0]. Qed.

Lemma options_subset_run l tr s x :
  x ∈ opts (line_run l tr s) → x ∈ opts s ∨ Store l x ∈ tr.
Proof.
  unfold line_run. revert s. induction tr as [|e tr IH]; intros s Hx; simpl in *; [by left|].
  apply IH in Hx as [Hx|Hx]; [|right; by right].
  destruct e as [l' v|l'|]; simpl in Hx.
  - destruct (decide (l = l')) as [->|]; [|by left]. simpl in Hx.
    apply elem_of_app in Hx as [Hx|Hx%list_elem_of_singleton]; [by left|]. subst x. right. by left.
  - destruct (decide (l = l')); by left.
  - left. apply list_elem_of_lookup in Hx as [k Hk]. rewrite lookup_drop in Hk.
    by eapply list_elem_of_lookup_2.
Qed.

Lemma options_subset l v0 tr x : x ∈ crash_options l v0 tr → x = v0 ∨ Store l x ∈ tr.
Proof.
  intros [Hx|Hx]%options_subset_run; [|by right]. left. by apply list_elem_of_singleton in Hx.
Qed.

(** A line that is flushed, not stored to again, and then fenced is settled. *)
Lemma settled_flush l v0 tr1 tr2 w :
  last (crash_options l v0 tr1) = Some w → (∀ v, Store l v ∉ tr2) →
  settled l v0 (tr1 ++ Flush l :: tr2 ++ [Fence]) w.
Proof.
  unfold settled, crash_options. intros Hw Hu. rewrite line_run_app. simpl.
  set (s := line_run l tr1 _) in *. change (Flush l :: tr2 ++ [Fence]) with ([Flush l] ++ tr2 ++ [Fence]).
  rewrite !line_run_app. simpl. rewrite decide_True by done.
  assert (∀ s', (∃ pre, opts s' = pre ++ [w] ∧ mark s' = length pre) ∨ s' = {| opts := [w]; mark := 0 |} →
    let s2 := line_run l tr2 s' in
    (∃ pre, opts s2 = pre ++ [w] ∧ mark s2 = length pre) ∨ s2 = {| opts := [w]; mark := 0 |}) as Hrun.
  { clear Hw s. unfold line_run. induction tr2 as [|e tr2 IH]; intros s' Hs'; simpl; [done|].
    apply IH; [intros v Hv; apply (Hu v); by right|].
    destruct e as [l' v|l'|]; simpl.
    - rewrite decide_False; [done|]. intros ->. apply (Hu v). by left.
    - case_decide; [|done]. left. destruct Hs' as [(pre & Ho & Hm)| ->]; [|by exists []].
      exists pre. rewrite Ho, length_app. simpl. split; [done|lia].
    - right. destruct Hs' as [(pre & Ho & Hm)| ->]; [|done].
      by rewrite Ho, Hm, drop_app_length. }
  set (s1 := {| opts := opts s; mark := _ |}).
  destruct (Hrun s1) as [(pre & Ho & Hm)|Heq].
  - left. subst s1. simpl. destruct (opts s) as [|v vs _] using rev_ind; [done|].
    rewrite last_snoc in Hw. injection Hw as ->. exists vs. rewrite length_app. simpl. split; [done|lia].
  - simpl. unfold line_run in *. by rewrite Ho, Hm, drop_app_length.
  - simpl. unfold line_run in *. by rewrite Heq.
Qed.

(** A protocol that writes and settles every line but [C], then commits by
    storing [v] to [C], then cleans up with [tr3]: a crash either leaves [C] as
    it was, and then the other lines have their old content or one that was
    stored before the commit, or [C] has been written, and then the other lines
    have their settled content or one that the clean-up stored. *)
Lemma commit_image (m0 w : L → V) C v tr1 tr3 img :
  (∀ x, Store C x ∉ tr1) → (∀ x, Store C x ∉ tr3) →
  (∀ l, l ≠ C → settled l (m0 l) tr1 (w l)) →
  crash_image m0 (tr1 ++ [Store C v; Flush C; Fence] ++ tr3) img →
  (img C = m0 C ∧ ∀ l, l ≠ C → img l = m0 l ∨ Store l (img l) ∈ tr1) ∨
  (img C = v ∧ ∀ l, l ≠ C → img l = w l ∨ Store l (img l) ∈ tr3).
Proof.
  intros HC1 HC3 Hset [k Hk].
  destruct (decide (k ≤ length tr1)%nat) as [Hle|Hgt].
  { left. rewrite take_app_le in Hk by done. split.
    - specialize (Hk C). rewrite crash_options_untouched in Hk; [by apply list_elem_of_singleton in Hk|].
      intros x Hx. apply (HC1 x). by eapply subseteq_take.
    - intros l _. destruct (options_subset _ _ _ _ (Hk l)) as [|Hx]; [by left|right].
      by eapply subseteq_take. }
  assert (∃ j, (0 < j)%nat ∧ ∀ l, img l ∈ crash_options l (m0 l)
    (tr1 ++ take j ([Store C v; Flush C; Fence] ++ tr3))) as (j & Hj & Hopt).
  { exists (k - length tr1)%nat. split; [lia|]. intros l. specialize (Hk l).
    by rewrite take_app_ge in Hk by lia. }
  clear Hk Hgt k. pose proof (settled_untouched C (m0 C) tr1 HC1) as HsC.
  assert (∀ l, l ≠ C → img l ∈ crash_options l (w l) (take j ([Store C v; Flush C; Fence] ++ tr3))) as Hl.
  { intros l Hne. specialize (Hopt l). by rewrite (settled_app l (m0 l) tr1 _ (w l)) in Hopt by auto. }
  pose proof (Hopt C) as HC. rewrite (settled_app C (m0 C) tr1 _ (m0 C)) in HC by done.
  assert (∀ l, l ≠ C → w l = m0 l ∨ Store l (w l) ∈ tr1) as Hw.
  { intros l Hne. apply options_subset. unfold crash_options. rewrite (Hset l Hne). by left. }
  destruct j as [|[|[|j]]]; [lia|..].
  1-2: assert (∀ l, l ≠ C → img l = w l) as Hlw
        by (intros l Hne; specialize (Hl l Hne); unfold crash_options in Hl; simpl in Hl;
            rewrite ?decide_False in Hl by done; by apply list_elem_of_singleton in Hl);
       unfold crash_options in HC; simpl in HC; rewrite ?decide_True in HC by done; simpl in HC;
       rewrite ?decide_True in HC by done; simpl in HC; set_unfold;
       destruct HC as [HC|[HC|[]]]; [left|right]; (split; [done|]); intros l Hne;
       rewrite Hlw by done; [by apply Hw|by left].
  right. change (take (S (S (S j))) _) with ([Store C v; Flush C; Fence] ++ take j tr3) in HC, Hl.
  split.
  - assert (settled C (m0 C) [Store C v; Flush C; Fence] v) as Hs.
    { unfold settled. simpl. rewrite !decide_True by done. done. }
    rewrite (settled_app _ _ _ _ _ Hs) in HC.
    rewrite crash_options_untouched in HC; [by apply list_elem_of_singleton in HC|].
    intros x Hx. apply (HC3 x). by eapply subseteq_take.
  - intros l Hne. specialize (Hl l Hne).
    assert (settled l (w l) [Store C v; Flush C; Fence] (w l)) as Hs.
    { unfold settled. simpl. by rewrite !decide_False by done. }
    rewrite (settled_app _ _ _ _ _ Hs) in Hl.
    destruct (options_subset _ _ _ _ Hl) as [|Hx]; [by left|right]. by eapply subseteq_take.
Qed.
End pmem.
Arguments pev : clear implicits.
Arguments line_state : clear implicits.
End Pmem.
