(* ===== verification/Token.v ===== *)
(** * Persistent tokens and regions (slab/token.h, slab/region.h)

    A token is one byte of persistent memory per region: an in-use bit, a mode
    bit and six bits of user marker.  This file has the byte-level part: the
    codes, the byte that [hire] writes and the three observers.  The stores of
    [hire] and [fire] to persistent memory are in [Desc]. *)

From S2P Require Export Const.

Definition kInuseBit : Z := 0x80.
Definition kModeBit : Z := 0x40.
Definition kMarkBits : Z := 0x3F.
Definition kFreeCode : Z := 0x00.

(** The byte written by [hire(mode, tag, persist)]. *)
Definition hire_code (mode : bool) (tag : Z) : Z :=
  let user := Z.lor (if mode then kModeBit else 0) tag in
  u8 (Z.lor kInuseBit user).

Definition token_busy (t : Z) : bool := negb (Z.land t kInuseBit =? 0).
Definition token_mode (t : Z) : bool := negb (Z.land t kModeBit =? 0).
Definition token_marker (t : Z) : Z := Z.land t kMarkBits.

(** A [token_t*]: the token array it points into and its index there. *)
Inductive token_ref :=
| TSmall (meta idx : Z)   (* SmallMeta::tokens_ *)
| TMedium (meta idx : Z)  (* MediumMeta::tokens_ *)
| TLarge (desc idx : Z).  (* ExtentDesc::large_ *)

#[export] Instance token_ref_eq_dec : EqDecision token_ref.
Proof. solve_decision. Defined.

(** [std::pair<token_t*, void*>]; the first is [None] for a null token. *)
Record region_t := region { reg_token : option token_ref; reg_pointer : Z }.

#[export] Instance region_eq_dec : EqDecision region_t.
Proof. solve_decision. Defined.

Definition null_region : region_t := region None nullptr.

(** The byte written by [hire] is read back by the observers: it is in use,
    with the given mode and the given marker, for every marker of six bits; and
    the free code is not in use. *)
Lemma hire_observe mode tag :
  0 ≤ tag ≤ kMarkBits →
  token_busy (hire_code mode tag) = true ∧ token_mode (hire_code mode tag) = mode ∧
  token_marker (hire_code mode tag) = tag ∧ token_busy kFreeCode = false ∧
  0 ≤ hire_code mode tag < 256.
Proof.
  intros Ht. change kMarkBits with 63 in Ht.
  assert (∃ n, tag = Z.of_nat n ∧ (n < 64)%nat) as (n & -> & Hn).
  { exists (Z.to_nat tag). lia. }
  do 64 (destruct n as [|n];
    [destruct mode; vm_compute; split_and!; congruence|]). lia.
Qed.

Lemma hire_observe_witness :
  0 ≤ 5 ≤ kMarkBits ∧
  token_busy (hire_code true 5) = true ∧ token_mode (hire_code true 5) = true ∧
  token_marker (hire_code true 5) = 5 ∧ token_busy kFreeCode = false ∧
  0 ≤ hire_code true 5 < 256.
Proof. split; [vm_compute; split; congruence|]. apply (hire_observe true 5). vm_compute. split; congruence. Defined.

(** A byte that is not the free code and has no other bit than the low six is
    not in use: being in use is exactly the top bit. *)
Lemma token_busy_bit t : 0 ≤ t < 256 → token_busy t = Z.testbit t 7.
Proof.
  intros Ht. unfold token_busy, kInuseBit. change 0x80 with (bit 7).
  by apply test_bit_testbit; lia.
Qed.
