(* ===== verification/Desc.v ===== *)
(** * Descriptors in persistent memory (slab/desc.h)

    The three persistent structures that describe how memory is used
    ([ExtentDesc], [SmallMeta], [MediumMeta]), the header of the meta file
    ([MetaHead] of meta-file.h, whose operations are in [MetaFile]), and the
    state [pst] of persistent memory that holds them: the contents, by address,
    and the log of persistence events ([Persist.Pmem]).  Every store of the code
    to one of these structures is one event; [persist_write_back] of a structure
    that occupies one cache line is the write-back of that line. *)

From S2P Require Export Util Token Persist.
Import Pmem.

(** ** Data *)

Inductive RegionType := kSmall | kMedium | kLarge | kInvalid | kTypeCount.
Inductive RunCond := kPure | kPolluted.
Inductive StatCode := kChaotic | kVolatile | kConsistent.

#[export] Instance RegionType_eq_dec : EqDecision RegionType.
Proof. solve_decision. Defined.
#[export] Instance RunCond_eq_dec : EqDecision RunCond.
Proof. solve_decision. Defined.
#[export] Instance StatCode_eq_dec : EqDecision StatCode.
Proof. solve_decision. Defined.

(** The anonymous union of [ExtentDesc]. *)
Inductive desc_union :=
| small_ (words : list Z)   (* uint64_t small_[4] *)
| medium_ (bytes : list Z)  (* uint8_t medium_[32] *)
| large_ (tokens : list Z). (* token_t large_[32] *)

Record ExtentDesc := {
  ed_type : RegionType;
  ed_rcase : Z;
  ed_size : Z;
  ed_count : Z;
  ed_next : Z;
  ed_runs : Z;
  ed_union : desc_union;
}.

Record SmallMeta := {
  sm_size : Z;
  sm_arena : Z;
  sm_count : Z;
  sm_next : Z;
  sm_cond : RunCond;
  sm_tokens : gmap Z Z;  (* token_t tokens_[], a byte never written is zero *)
}.

Record MediumMeta := {
  mm_size : Z;
  mm_arena : Z;
  mm_count : Z;
  mm_next : Z;
  mm_cond : RunCond;
  mm_tokens : list Z;  (* token_t tokens_[51] *)
}.

(** [MetaHead]: its first cache line, and the two [DescMeta] lines. *)
Record HeadLine := {
  stat_ : StatCode;
  size_ : Z;
  mind_ : Z;
  occupied_ : Z;
  ext_desc_ : Z;
  ext_total_ : Z;
  med_meta_ : Z;
  med_total_ : Z;
}.

Record DescMeta := {
  ext_used : Z;
  ext_free : Z;
  med_used : Z;
  med_free : Z;
}.

(** sizeof: [ExtentDesc] and [MediumMeta] fill one cache line, the fixed part of
    [SmallMeta] takes 24 bytes, a token one. *)
Definition sizeof_ExtentDesc : Z := 64.
Definition sizeof_MediumMeta : Z := 64.
Definition sizeof_SmallMeta : Z := 24.
Definition sizeof_token : Z := 1.

(** A file created by [ftruncate] reads as zero bytes. *)
Definition zero_desc : ExtentDesc := {|
  ed_type := kSmall; ed_rcase := 0; ed_size := 0; ed_count := 0;
  ed_next := nullptr; ed_runs := nullptr; ed_union := small_ (replicate 4 0) |}.
Definition zero_small : SmallMeta := {|
  sm_size := 0; sm_arena := 0; sm_count := 0; sm_next := nullptr; sm_cond := kPure;
  sm_tokens := ∅ |}.
Definition zero_medium : MediumMeta := {|
  mm_size := 0; mm_arena := 0; mm_count := 0; mm_next := nullptr; mm_cond := kPure;
  mm_tokens := replicate 51 0 |}.
Definition zero_meta : DescMeta :=
  {| ext_used := 0; ext_free := nullptr; med_used := 0; med_free := nullptr |}.
Definition zero_head : HeadLine := {|
  stat_ := kChaotic; size_ := 0; mind_ := 0; occupied_ := nullptr; ext_desc_ := nullptr;
  ext_total_ := 0; med_meta_ := nullptr; med_total_ := 0 |}.

(** Setters *)
Definition eta_desc d := {|
  ed_type := ed_type d; ed_rcase := ed_rcase d; ed_size := ed_size d; ed_count := ed_count d;
  ed_next := ed_next d; ed_runs := ed_runs d; ed_union := ed_union d |}.
Definition set_ed_type := ltac:(setter eta_desc ed_type).
Definition set_ed_rcase := ltac:(setter eta_desc ed_rcase).
Definition set_ed_size := ltac:(setter eta_desc ed_size).
Definition set_ed_count := ltac:(setter eta_desc ed_count).
Definition set_ed_next := ltac:(setter eta_desc ed_next).
Definition set_ed_runs := ltac:(setter eta_desc ed_runs).
Definition set_ed_union := ltac:(setter eta_desc ed_union).

Definition eta_small m := {|
  sm_size := sm_size m; sm_arena := sm_arena m; sm_count := sm_count m; sm_next := sm_next m;
  sm_cond := sm_cond m; sm_tokens := sm_tokens m |}.
Definition set_sm_size := ltac:(setter eta_small sm_size).
Definition set_sm_arena := ltac:(setter eta_small sm_arena).
Definition set_sm_count := ltac:(setter eta_small sm_count).
Definition set_sm_next := ltac:(setter eta_small sm_next).
Definition set_sm_cond := ltac:(setter eta_small sm_cond).
Definition set_sm_tokens := ltac:(setter eta_small sm_tokens).

Definition eta_medium m := {|
  mm_size := mm_size m; mm_arena := mm_arena m; mm_count := mm_count m; mm_next := mm_next m;
  mm_cond := mm_cond m; mm_tokens := mm_tokens m |}.
Definition set_mm_size := ltac:(setter eta_medium mm_size).
Definition set_mm_arena := ltac:(setter eta_medium mm_arena).
Definition set_mm_count := ltac:(setter eta_medium mm_count).
Definition set_mm_next := ltac:(setter eta_medium mm_next).
Definition set_mm_cond := ltac:(setter eta_medium mm_cond).
Definition set_mm_tokens := ltac:(setter eta_medium mm_tokens).

(** ** Persistent memory *)

(** The units that are written back: the cache lines of the structures, and the
    single tokens of the small runs.  The token of a medium or large region is
    part of the line of its MediumMeta or descriptor. *)
Inductive loc :=
| LHead
| LMeta (i : Z)
| LDesc (a : Z)
| LMed (a : Z)
| LSmall (a : Z)
| LTok (a i : Z)   (* a token of a small run *)
| LRoot (i : Z).

#[export] Instance loc_eq_dec : EqDecision loc.
Proof. solve_decision. Defined.

Inductive val :=
| VHead (h : HeadLine)
| VMeta (m : DescMeta)
| VDesc (d : ExtentDesc)
| VMed (m : MediumMeta)
| VSmall (m : SmallMeta)
| VTok (t : Z)
| VPtr (p : Z).

Record pmem := {
  pm_head : HeadLine;
  pm_meta : gmap Z DescMeta;         (* meta_[2] *)
  pm_desc : gmap Z ExtentDesc;       (* ExtDesc segment, by address *)
  pm_med : gmap Z MediumMeta;        (* MedMeta segment, by address *)
  pm_small : gmap Z SmallMeta;       (* heads of the small runs, by address *)
  pm_root : gmap Z Z;                (* PersistRoot::root_ *)
}.

Definition eta_pmem p := {|
  pm_head := pm_head p; pm_meta := pm_meta p; pm_desc := pm_desc p; pm_med := pm_med p;
  pm_small := pm_small p; pm_root := pm_root p |}.
Definition set_pm_head := ltac:(setter eta_pmem pm_head).
Definition set_pm_meta := ltac:(setter eta_pmem pm_meta).
Definition set_pm_desc := ltac:(setter eta_pmem pm_desc).
Definition set_pm_med := ltac:(setter eta_pmem pm_med).
Definition set_pm_small := ltac:(setter eta_pmem pm_small).
Definition set_pm_root := ltac:(setter eta_pmem pm_root).

Definition zero_pmem : pmem := {|
  pm_head := zero_head; pm_meta := ∅; pm_desc := ∅; pm_med := ∅;
  pm_small := ∅; pm_root := ∅ |}.

(** The state: the contents the processor sees, and the events so far. *)
Record pst := { mem : pmem; log : list (pev loc val) }.

Definition meta_at (p : pmem) (i : Z) : DescMeta := default zero_meta (pm_meta p !! i).
Definition desc_at (p : pmem) (a : Z) : ExtentDesc := default zero_desc (pm_desc p !! a).
Definition med_at (p : pmem) (a : Z) : MediumMeta := default zero_medium (pm_med p !! a).
Definition small_at (p : pmem) (a : Z) : SmallMeta := default zero_small (pm_small p !! a).
Definition root_at (p : pmem) (i : Z) : Z := default nullptr (pm_root p !! i).

Definition small_token (m : SmallMeta) (i : Z) : Z := default kFreeCode (sm_tokens m !! i).

(** The content of one line. *)
Definition loc_val (p : pmem) (l : loc) : val :=
  match l with
  | LHead => VHead (pm_head p)
  | LMeta i => VMeta (meta_at p i)
  | LDesc a => VDesc (desc_at p a)
  | LMed a => VMed (med_at p a)
  | LSmall a => VSmall (set_sm_tokens ∅ (small_at p a))
  | LTok a i => VTok (small_token (small_at p a) i)
  | LRoot i => VPtr (root_at p i)
  end.

(** A store: the new memory, and the event for the line [l] it hits. *)
Definition st_store (l : loc) (f : pmem → pmem) : M pst unit :=
  mmodify (λ s, let m := f (mem s) in {| mem := m; log := log s ++ [Store l (loc_val m l)] |}).

Definition persist_write_back (l : loc) : M pst unit :=
  mmodify (λ s, {| mem := mem s; log := log s ++ [Flush l] |}).
Definition persist_wait_finish : M pst unit :=
  mmodify (λ s, {| mem := mem s; log := log s ++ [Fence] |}).
Definition wait_write_back (l : loc) : M pst unit :=
  persist_write_back l ;; persist_wait_finish.

Definition upd_desc (a : Z) (f : ExtentDesc → ExtentDesc) (p : pmem) : pmem :=
  set_pm_desc (<[a := f (desc_at p a)]> (pm_desc p)) p.
Definition upd_med (a : Z) (f : MediumMeta → MediumMeta) (p : pmem) : pmem :=
  set_pm_med (<[a := f (med_at p a)]> (pm_med p)) p.
Definition upd_small (a : Z) (f : SmallMeta → SmallMeta) (p : pmem) : pmem :=
  set_pm_small (<[a := f (small_at p a)]> (pm_small p)) p.
Definition upd_head (f : HeadLine → HeadLine) (p : pmem) : pmem :=
  set_pm_head (f (pm_head p)) p.
Definition upd_meta (i : Z) (f : DescMeta → DescMeta) (p : pmem) : pmem :=
  set_pm_meta (<[i := f (meta_at p i)]> (pm_meta p)) p.

Definition st_desc (a : Z) (f : ExtentDesc → ExtentDesc) : M pst unit :=
  st_store (LDesc a) (upd_desc a f).
Definition st_med (a : Z) (f : MediumMeta → MediumMeta) : M pst unit :=
  st_store (LMed a) (upd_med a f).
Definition st_small (a : Z) (f : SmallMeta → SmallMeta) : M pst unit :=
  st_store (LSmall a) (upd_small a f).
Definition st_head (f : HeadLine → HeadLine) : M pst unit :=
  st_store LHead (upd_head f).
Definition st_meta (i : Z) (f : DescMeta → DescMeta) : M pst unit :=
  st_store (LMeta i) (upd_meta i f).

Definition ld_desc (a : Z) : M pst ExtentDesc := mgets (λ s, desc_at (mem s) a).
Definition ld_med (a : Z) : M pst MediumMeta := mgets (λ s, med_at (mem s) a).
Definition ld_small (a : Z) : M pst SmallMeta := mgets (λ s, small_at (mem s) a).

(** ** Tokens in memory *)

Definition token_byte (p : pmem) (r : token_ref) : option Z :=
  match r with
  | TSmall a i => Some (small_token (small_at p a) i)
  | TMedium a i => nthZ (mm_tokens (med_at p a)) i
  | TLarge a i => match ed_union (desc_at p a) with large_ ts => nthZ ts i | _ => None end
  end.

Definition ld_token (r : token_ref) : M pst Z :=
  o ← mgets (λ s, token_byte (mem s) r); mderef o.

(** A medium token shares the line of its [MediumMeta], a large one the line of
    its descriptor. *)
Definition st_token (r : token_ref) (t : Z) : M pst unit :=
  match r with
  | TSmall a i =>
      st_store (LTok a i) (upd_small a (λ m, set_sm_tokens (<[i := t]> (sm_tokens m)) m))
  | TMedium a i => st_med a (λ m, set_mm_tokens (updZ (mm_tokens m) i t) m)
  | TLarge a i =>
      st_desc a (λ d, match ed_union d with
                      | large_ ts => set_ed_union (large_ (updZ ts i t)) d
                      | _ => d end)
  end.

Definition token_line (r : token_ref) : loc :=
  match r with TSmall a i => LTok a i | TMedium a _ => LMed a | TLarge a _ => LDesc a end.

(** [token_t::hire] *)
Definition token_hire (r : token_ref) (mode : bool) (tag : Z) (persist : bool) : M pst unit :=
  t ← ld_token r;
  massert ((t =? kFreeCode) && (tag <=? kMarkBits)) ;;
  st_token r (hire_code mode tag) ;;
  if kEnhancedADR then persist_wait_finish
  else mwhen persist (wait_write_back (token_line r)).

(** [token_t::fire] *)
Definition token_fire (r : token_ref) (persist : bool) : M pst unit :=
  t ← ld_token r;
  if t =? kFreeCode then mret tt
  else
    st_token r kFreeCode ;;
    if kEnhancedADR then persist_wait_finish
    else mwhen persist (wait_write_back (token_line r)).

(** [region_t::publish] and [busy] (region.h) *)
Definition region_publish (r : region_t) (mode : bool) (tag : Z) (persist : bool) : M pst unit :=
  t ← mderef (reg_token r); token_hire t mode tag persist.
Definition region_busy (r : region_t) : M pst bool :=
  t ← mderef (reg_token r); b ← ld_token t; mret (token_busy b).
Definition region_mode (r : region_t) : M pst bool :=
  t ← mderef (reg_token r); b ← ld_token t; mret (token_mode b).
Definition region_marker (r : region_t) : M pst Z :=
  t ← mderef (reg_token r); b ← ld_token t; mret (token_marker b).

(** ** ExtentDesc *)

Section ops.
Context `{Util}.

Definition is_alloc_type (t : RegionType) : bool :=
  match t with kSmall | kMedium | kLarge => true | _ => false end.

Definition ExtentDesc_construct (this : Z) (type : RegionType) (run_case size next runs : Z)
    (wait : bool) : M pst unit :=
  massert (is_alloc_type type) ;;
  massert (size <=? kExtentSize) ;;
  (if size =? 0 then merr EUB else massert (kExtentSize mod size =? 0)) ;;
  massert (negb (bool_decide (type = kMedium)) || negb (runs =? nullptr)) ;;
  st_desc this (set_ed_type type) ;;
  st_desc this (set_ed_rcase (u32 run_case)) ;;
  st_desc this (set_ed_size (u32 size)) ;;
  st_desc this (set_ed_count (u32 (kExtentSize / size))) ;;
  st_desc this (set_ed_next next) ;;
  st_desc this (set_ed_runs runs) ;;
  match type with
  | kSmall => st_desc this (set_ed_union (small_ (replicate 4 0)))
  | kMedium => st_desc this (set_ed_union (medium_ (replicate 32 0)))
  | kLarge => st_desc this (set_ed_union (large_ (replicate 32 kFreeCode)))
  | _ => merr EExit
  end ;;
  persist_write_back (LDesc this) ;;
  mwhen wait persist_wait_finish ;;
  massert (this mod kCacheLineSize =? 0).

(** The arrays of the union, under the type that selects them. *)
Definition small_words {S} (d : ExtentDesc) : M S (list Z) :=
  massert (bool_decide (ed_type d = kSmall)) ;;
  match ed_union d with small_ ws => mret ws | _ => merr EUB end.
Definition medium_bytes {S} (d : ExtentDesc) : M S (list Z) :=
  massert (bool_decide (ed_type d = kMedium)) ;;
  match ed_union d with medium_ bs => mret bs | _ => merr EUB end.
Definition large_tokens {S} (d : ExtentDesc) : M S (list Z) :=
  massert (bool_decide (ed_type d = kLarge)) ;;
  match ed_union d with large_ ts => mret ts | _ => merr EUB end.

(** [for(ind = 0; ind < n; ind++) if(!tokens[ind].busy()) return true; return false] *)
Definition tokens_half_used (tok : Z → Z) (n : Z) : bool :=
  existsb (λ i, negb (token_busy (tok i))) (seqZ 0 n).

Definition ExtentDesc_half_used {S} (d : ExtentDesc) : M S bool :=
  ts ← large_tokens d;
  mret (tokens_half_used (λ i, default kFreeCode (nthZ ts i)) (ed_count d)).

Definition ExtentDesc_token {S} (this : Z) (d : ExtentDesc) (idx : Z) : M S token_ref :=
  massert ((idx <? ed_count d) && bool_decide (ed_type d = kLarge)) ;;
  mret (TLarge this idx).

Definition srun_busy {S} (d : ExtentDesc) : M S bool :=
  ws ← small_words d;
  massert (ed_count d mod 64 =? 0) ;;
  mret (existsb (λ w, negb (popcount w =? 0)) (take (Z.to_nat (ed_count d / 64)) ws)).

Definition mrun_busy {S} (d : ExtentDesc) : M S bool :=
  bs ← medium_bytes d;
  massert (ed_count d <=? 32) ;;
  mret (existsb (λ b, negb (b =? 0)) (take (Z.to_nat (ed_count d)) bs)).

Definition small_used {S} (d : ExtentDesc) (ind : Z) : M S bool :=
  massert (ind <? ed_count d) ;;
  ws ← small_words d;
  w ← mderef (nthZ ws (ind / 64));
  mret (negb (Z.land (bit (ind mod 64)) w =? 0)).

Definition medium_used {S} (d : ExtentDesc) (ind : Z) : M S bool :=
  massert (ind <? ed_count d) ;;
  bs ← medium_bytes d;
  b ← mderef (nthZ bs ind);
  mret (negb (b =? 0)).

(** The loop of [locate_fsrun] over the words from [uid] on. *)
Fixpoint locate_fs_loop (ws : list Z) (uid : Z) (count : Z) : Z :=
  match ws with
  | [] => count  (* no more free run *)
  | w :: ws =>
      let idx := index_least0 w in
      if idx =? -1 then locate_fs_loop ws (uid + 1) count else uid * 64 + idx
  end.

Definition locate_fsrun {S} (d : ExtentDesc) (ind : Z) : M S Z :=
  massert (ind <? ed_count d) ;;
  ws ← small_words d;
  massert (ed_count d mod 64 =? 0) ;;
  let unit := ed_count d / 64 in
  mret (locate_fs_loop (drop (Z.to_nat (ind / 64)) (take (Z.to_nat unit) ws)) (ind / 64)
                       (ed_count d)).

Definition palloc_srun (this rid : Z) : M pst unit :=
  d ← ld_desc this;
  massert (rid <? ed_count d) ;;
  ws ← small_words d;
  w ← mderef (nthZ ws (rid / 64));
  massert (Z.land w (bit (rid mod 64)) =? 0) ;;
  st_desc this (set_ed_union (small_ (updZ ws (rid / 64) (set_bit w (rid mod 64))))) ;;
  massert (this mod kCacheLineSize =? 0) ;;
  wait_write_back (LDesc this).

Definition pdealloc_srun (this rid : Z) : M pst unit :=
  d ← ld_desc this;
  massert (rid <? ed_count d) ;;
  ws ← small_words d;
  w ← mderef (nthZ ws (rid / 64));
  massert (negb (Z.land w (bit (rid mod 64)) =? 0)) ;;
  st_desc this (set_ed_union (small_ (updZ ws (rid / 64) (clear_bit w (rid mod 64))))) ;;
  wait_write_back (LDesc this).

(** The loop of [locate_fmrun] over the bytes from [rid] on. *)
Fixpoint locate_fm_loop (bs : list Z) (rid : Z) (count : Z) : Z :=
  match bs with
  | [] => count
  | b :: bs => if b =? 0 then rid else locate_fm_loop bs (rid + 1) count
  end.

Definition locate_fmrun {S} (d : ExtentDesc) (ind : Z) : M S Z :=
  massert (ind <? ed_count d) ;;
  bs ← medium_bytes d;
  massert (ed_count d <=? 32) ;;
  mret (locate_fm_loop (drop (Z.to_nat ind) (take (Z.to_nat (ed_count d)) bs)) ind (ed_count d)).

Definition palloc_mrun (this rid : Z) : M pst unit :=
  d ← ld_desc this;
  massert (rid <? ed_count d) ;;
  bs ← medium_bytes d;
  b ← mderef (nthZ bs rid);
  massert (b =? 0) ;;
  st_desc this (set_ed_union (medium_ (updZ bs rid 1))) ;;
  massert (this mod kCacheLineSize =? 0) ;;
  wait_write_back (LDesc this).

Definition pdealloc_mrun (this rid : Z) : M pst unit :=
  d ← ld_desc this;
  massert (rid <? ed_count d) ;;
  bs ← medium_bytes d;
  b ← mderef (nthZ bs rid);
  massert (b =? 1) ;;
  st_desc this (set_ed_union (medium_ (updZ bs rid 0))) ;;
  wait_write_back (LDesc this).

(** ** SmallMeta and MediumMeta *)

Definition SmallMeta_construct (this arena size count : Z) : M pst unit :=
  st_small this (set_sm_size (u32 size)) ;;
  st_small this (set_sm_arena (u16 arena)) ;;
  st_small this (set_sm_count (u16 count)) ;;
  st_small this (set_sm_next nullptr) ;;
  st_small this (set_sm_cond kPure) ;;
  mfor (Z.to_nat count) 0 (λ idx, token_fire (TSmall this idx) false) ;;
  (* wait_write_back(this, sizeof(SmallMeta) + count * sizeof(token_t)) *)
  persist_write_back (LSmall this) ;;
  mfor (Z.to_nat count) 0 (λ idx, persist_write_back (LTok this idx)) ;;
  persist_wait_finish.

Definition SmallMeta_half_used (m : SmallMeta) : bool :=
  tokens_half_used (small_token m) (sm_count m).

Definition SmallMeta_token {S} (this : Z) (m : SmallMeta) (idx : Z) : M S token_ref :=
  massert (idx <? sm_count m) ;; mret (TSmall this idx).

Definition MediumMeta_construct (this arena size count : Z) : M pst unit :=
  massert (count <=? 51) ;;
  st_med this (set_mm_size (u32 size)) ;;
  st_med this (set_mm_arena (u16 arena)) ;;
  st_med this (set_mm_count (u16 count)) ;;
  st_med this (set_mm_next nullptr) ;;
  st_med this (set_mm_cond kPure) ;;
  mfor (Z.to_nat count) 0 (λ ind, token_fire (TMedium this ind) false) ;;
  wait_write_back (LMed this).

Definition MediumMeta_half_used (m : MediumMeta) : bool :=
  tokens_half_used (λ i, default kFreeCode (nthZ (mm_tokens m) i)) (mm_count m).

Definition MediumMeta_token {S} (this : Z) (m : MediumMeta) (idx : Z) : M S token_ref :=
  massert (idx <? mm_count m) ;; mret (TMedium this idx).
End ops.
