(* ===== verification/DescLemmas.v ===== *)
(** * Properties of the descriptors

    Rules to run the persistent-memory primitives symbolically, the
    well-formedness of an extent descriptor, the abstract view [run_used] of its
    three occupancy arrays, and the effect of every operation of [ExtentDesc],
    [SmallMeta] and [MediumMeta] on that view. *)

From S2P Require Export Desc.
Import Pmem.

(** ** Definitions *)

(** Which runs (or large regions) of the extent are taken. *)
Definition run_used (d : ExtentDesc) (rid : Z) : bool :=
  match ed_union d with
  | small_ ws => Z.testbit (default 0 (nthZ ws (rid / 64))) (rid mod 64)
  | medium_ bs => negb (default 0 (nthZ bs rid) =? 0)
  | large_ ts => token_busy (default 0 (nthZ ts rid))
  end.

(** The content of a descriptor that [construct] has initialised and the
    operations have modified since. *)
Definition wf_desc (d : ExtentDesc) : Prop :=
  0 < ed_size d ∧ ed_count d = kExtentSize / ed_size d ∧ 0 < ed_count d ∧
  match ed_type d, ed_union d with
  | kSmall, small_ ws =>
      lenZ ws = 4 ∧ Forall (λ w, 0 ≤ w < 2 ^ 64) ws ∧ ed_count d ≤ 256 ∧ ed_count d mod 64 = 0
  | kMedium, medium_ bs =>
      lenZ bs = 32 ∧ Forall (λ b, b = 0 ∨ b = 1) bs ∧ ed_count d ≤ 32
  | kLarge, large_ ts =>
      lenZ ts = 32 ∧ Forall (λ t, 0 ≤ t < 256) ts ∧ ed_count d ≤ 32
  | _, _ => False
  end.

(** Every run of the extent is taken. *)
Definition all_used (d : ExtentDesc) : Prop :=
  ∀ rid, 0 ≤ rid < ed_count d → run_used d rid = true.

(** The descriptor written by [construct]. *)
Definition new_desc (type : RegionType) (run_case size next runs : Z) : ExtentDesc := {|
  ed_type := type; ed_rcase := u32 run_case; ed_size := u32 size;
  ed_count := u32 (kExtentSize / size); ed_next := next; ed_runs := runs;
  ed_union := match type with
              | kSmall => small_ (replicate 4 0)
              | kMedium => medium_ (replicate 32 0)
              | _ => large_ (replicate 32 kFreeCode)
              end |}.

(** Taking ([b = true]) or returning a run. *)
Definition mark_run (rid : Z) (b : bool) (d : ExtentDesc) : ExtentDesc :=
  match ed_union d with
  | small_ ws =>
      let w := default 0 (nthZ ws (rid / 64)) in
      set_ed_union (small_ (updZ ws (rid / 64)
        (if b then set_bit w (rid mod 64) else clear_bit w (rid mod 64)))) d
  | medium_ bs => set_ed_union (medium_ (updZ bs rid (if b then 1 else 0))) d
  | large_ ts => d
  end.

(** ** Symbolic execution of the primitives *)

Section prims.
Implicit Types (Q : unit → pst → Prop) (p : pmem).

Lemma wp_store l f Q p lg :
  (∀ lg, Q tt {| mem := f p; log := lg |}) → wp (st_store l f) Q {| mem := p; log := lg |}.
Proof. intros HQ. apply HQ. Qed.

Lemma wp_st_desc a f Q p lg :
  (∀ lg, Q tt {| mem := upd_desc a f p; log := lg |}) →
  wp (st_desc a f) Q {| mem := p; log := lg |}.
Proof. intros HQ. apply HQ. Qed.

Lemma wp_st_med a f Q p lg :
  (∀ lg, Q tt {| mem := upd_med a f p; log := lg |}) →
  wp (st_med a f) Q {| mem := p; log := lg |}.
Proof. intros HQ. apply HQ. Qed.

Lemma wp_st_small a f Q p lg :
  (∀ lg, Q tt {| mem := upd_small a f p; log := lg |}) →
  wp (st_small a f) Q {| mem := p; log := lg |}.
Proof. intros HQ. apply HQ. Qed.

Lemma wp_st_head f Q p lg :
  (∀ lg, Q tt {| mem := upd_head f p; log := lg |}) →
  wp (st_head f) Q {| mem := p; log := lg |}.
Proof. intros HQ. apply HQ. Qed.

Lemma wp_st_meta i f Q p lg :
  (∀ lg, Q tt {| mem := upd_meta i f p; log := lg |}) →
  wp (st_meta i f) Q {| mem := p; log := lg |}.
Proof. intros HQ. apply HQ. Qed.

Lemma wp_flush l Q p lg :
  (∀ lg, Q tt {| mem := p; log := lg |}) →
  wp (persist_write_back l) Q {| mem := p; log := lg |}.
Proof. intros HQ. apply HQ. Qed.

Lemma wp_fence Q p lg :
  (∀ lg, Q tt {| mem := p; log := lg |}) →
  wp persist_wait_finish Q {| mem := p; log := lg |}.
Proof. intros HQ. apply HQ. Qed.

Lemma wp_wait_write_back l Q p lg :
  (∀ lg, Q tt {| mem := p; log := lg |}) →
  wp (wait_write_back l) Q {| mem := p; log := lg |}.
Proof. intros HQ. apply HQ. Qed.

Lemma upd_desc_upd_desc a f g p : upd_desc a f (upd_desc a g p) = upd_desc a (f ∘ g) p.
Proof.
  unfold upd_desc, set_pm_desc, desc_at. simpl. rewrite lookup_insert_eq. simpl.
  by rewrite insert_insert_eq.
Qed.

Lemma upd_med_upd_med a f g p : upd_med a f (upd_med a g p) = upd_med a (f ∘ g) p.
Proof.
  unfold upd_med, set_pm_med, med_at. simpl. rewrite lookup_insert_eq. simpl.
  by rewrite insert_insert_eq.
Qed.

Lemma upd_small_upd_small a f g p : upd_small a f (upd_small a g p) = upd_small a (f ∘ g) p.
Proof.
  unfold upd_small, set_pm_small, small_at. simpl. rewrite lookup_insert_eq. simpl.
  by rewrite insert_insert_eq.
Qed.

Lemma upd_desc_ext a f g p : f (desc_at p a) = g (desc_at p a) → upd_desc a f p = upd_desc a g p.
Proof. unfold upd_desc. by intros ->. Qed.
Lemma upd_med_ext a f g p : f (med_at p a) = g (med_at p a) → upd_med a f p = upd_med a g p.
Proof. unfold upd_med. by intros ->. Qed.
Lemma upd_small_ext a f g p :
  f (small_at p a) = g (small_at p a) → upd_small a f p = upd_small a g p.
Proof. unfold upd_small. by intros ->. Qed.

Lemma desc_at_upd_eq a f p : desc_at (upd_desc a f p) a = f (desc_at p a).
Proof. unfold upd_desc, desc_at. simpl. by rewrite lookup_insert_eq. Qed.
Lemma desc_at_upd_ne a b f p : a ≠ b → desc_at (upd_desc a f p) b = desc_at p b.
Proof. intros. unfold upd_desc, desc_at. simpl. by rewrite lookup_insert_ne. Qed.
Lemma med_at_upd_eq a f p : med_at (upd_med a f p) a = f (med_at p a).
Proof. unfold upd_med, med_at. simpl. by rewrite lookup_insert_eq. Qed.
Lemma med_at_upd_ne a b f p : a ≠ b → med_at (upd_med a f p) b = med_at p b.
Proof. intros. unfold upd_med, med_at. simpl. by rewrite lookup_insert_ne. Qed.
Lemma small_at_upd_eq a f p : small_at (upd_small a f p) a = f (small_at p a).
Proof. unfold upd_small, small_at. simpl. by rewrite lookup_insert_eq. Qed.
Lemma small_at_upd_ne a b f p : a ≠ b → small_at (upd_small a f p) b = small_at p b.
Proof. intros. unfold upd_small, small_at. simpl. by rewrite lookup_insert_ne. Qed.
Lemma meta_at_upd_eq i f p : meta_at (upd_meta i f p) i = f (meta_at p i).
Proof. unfold upd_meta, meta_at. simpl. by rewrite lookup_insert_eq. Qed.
Lemma meta_at_upd_ne i j f p : i ≠ j → meta_at (upd_meta i f p) j = meta_at p j.
Proof. intros. unfold upd_meta, meta_at. simpl. by rewrite lookup_insert_ne. Qed.

Lemma upd_meta_upd_meta i f g p : upd_meta i f (upd_meta i g p) = upd_meta i (f ∘ g) p.
Proof.
  unfold upd_meta, set_pm_meta, meta_at. simpl. rewrite lookup_insert_eq. simpl.
  by rewrite insert_insert_eq.
Qed.
Lemma upd_meta_ext i f g p : f (meta_at p i) = g (meta_at p i) → upd_meta i f p = upd_meta i g p.
Proof. unfold upd_meta. by intros ->. Qed.

(** The maps of the other structures are not touched. *)
Lemma med_at_upd_desc a f p b : med_at (upd_desc a f p) b = med_at p b.
Proof. done. Qed.
Lemma desc_at_upd_med a f p b : desc_at (upd_med a f p) b = desc_at p b.
Proof. done. Qed.
Lemma small_at_upd_desc a f p b : small_at (upd_desc a f p) b = small_at p b.
Proof. done. Qed.
Lemma desc_at_upd_small a f p b : desc_at (upd_small a f p) b = desc_at p b.
Proof. done. Qed.
End prims.

#[export] Hint Rewrite desc_at_upd_eq med_at_upd_eq small_at_upd_eq meta_at_upd_eq
  med_at_upd_desc desc_at_upd_med small_at_upd_desc desc_at_upd_small : slab_rw.
#[export] Hint Rewrite desc_at_upd_ne med_at_upd_ne small_at_upd_ne meta_at_upd_ne
  using done : slab_rw.

(** One step of a program over persistent memory. *)
Ltac pm_step :=
  lazymatch goal with
  | |- wp (st_desc _ _) _ _ => apply wp_st_desc; intros ?lg
  | |- wp (st_med _ _) _ _ => apply wp_st_med; intros ?lg
  | |- wp (st_small _ _) _ _ => apply wp_st_small; intros ?lg
  | |- wp (st_head _) _ _ => apply wp_st_head; intros ?lg
  | |- wp (st_meta _ _) _ _ => apply wp_st_meta; intros ?lg
  | |- wp (wait_write_back _) _ _ => apply wp_wait_write_back; intros ?lg
  | |- wp (persist_write_back _) _ _ => apply wp_flush; intros ?lg
  | |- wp persist_wait_finish _ _ => apply wp_fence; intros ?lg
  | |- wp (ld_desc _) _ _ => unfold ld_desc; apply wp_gets; cbn [mem]
  | |- wp (ld_med _) _ _ => unfold ld_med; apply wp_gets; cbn [mem]
  | |- wp (ld_small _) _ _ => unfold ld_small; apply wp_gets; cbn [mem]
  | |- wp (mwhen true _) _ _ => unfold mwhen
  | |- wp (mwhen false _) _ _ => unfold mwhen
  | |- _ => wp_step
  end.
Ltac pm_steps := repeat pm_step.

(** ** Runs of an extent *)

Section runs.
Context `{UtilSpec}.
Implicit Types (d : ExtentDesc).

Lemma wf_small d :
  wf_desc d → ed_type d = kSmall →
  ∃ ws, ed_union d = small_ ws ∧ lenZ ws = 4 ∧ Forall (λ w, 0 ≤ w < 2 ^ 64) ws ∧
        0 < ed_count d ≤ 256 ∧ ed_count d mod 64 = 0.
Proof.
  intros (Hs & Hc & Hp & Hm) Ht. rewrite Ht in Hm. destruct (ed_union d) as [ws|?|?]; try done.
  exists ws. intuition.
Qed.

Lemma wf_medium d :
  wf_desc d → ed_type d = kMedium →
  ∃ bs, ed_union d = medium_ bs ∧ lenZ bs = 32 ∧ Forall (λ b, b = 0 ∨ b = 1) bs ∧
        0 < ed_count d ≤ 32.
Proof.
  intros (Hs & Hc & Hp & Hm) Ht. rewrite Ht in Hm. destruct (ed_union d) as [?|bs|?]; try done.
  exists bs. intuition.
Qed.

Lemma small_words_ok {S} d ws (s : S) :
  ed_type d = kSmall → ed_union d = small_ ws → small_words d s = Ok ws s.
Proof. intros Ht Hu. unfold small_words, mbind, M_bind, massert. rewrite Ht, Hu. done. Qed.

Lemma medium_bytes_ok {S} d bs (s : S) :
  ed_type d = kMedium → ed_union d = medium_ bs → medium_bytes d s = Ok bs s.
Proof. intros Ht Hu. unfold medium_bytes, mbind, M_bind, massert. rewrite Ht, Hu. done. Qed.

(** A run index of a small extent has its word. *)
Lemma small_word d ws rid :
  lenZ ws = 4 → Forall (λ w, 0 ≤ w < 2 ^ 64) ws → 0 ≤ rid < 256 →
  ∃ w, nthZ ws (rid / 64) = Some w ∧ 0 ≤ w < 2 ^ 64 ∧ 0 ≤ rid mod 64 < 64.
Proof.
  intros Hl Hf Hr. pose proof (Z.div_mod rid 64). pose proof (Z.mod_pos_bound rid 64).
  destruct (nthZ_is_Some ws (rid / 64)) as [w Hw]; [lia|].
  exists w. split_and!; [done|..|lia|lia]; rewrite Forall_forall in Hf;
    apply Hf; apply (list_elem_of_lookup_2 _ (Z.to_nat (rid / 64)));
    unfold nthZ in Hw; destruct (0 <=? rid / 64); done.
Qed.

Lemma small_used_ok {S} d rid (s : S) :
  wf_desc d → ed_type d = kSmall → 0 ≤ rid < ed_count d →
  small_used d rid s = Ok (run_used d rid) s.
Proof.
  intros Hwf Ht Hr. destruct (wf_small d Hwf Ht) as (ws & Hu & Hl & Hf & Hc & Hm).
  destruct (small_word d ws rid) as (w & Hw & Hwr & Hmr); [done|done|lia|].
  unfold small_used, mbind, M_bind, massert. rewrite (proj2 (Z.ltb_lt rid _)) by lia.
  rewrite (small_words_ok d ws) by done. unfold run_used. rewrite Hu, Hw. simpl.
  unfold mret, M_ret. f_equal. rewrite Z.land_comm. apply test_bit_testbit; lia.
Qed.

Lemma medium_used_ok {S} d rid (s : S) :
  wf_desc d → ed_type d = kMedium → 0 ≤ rid < ed_count d →
  medium_used d rid s = Ok (run_used d rid) s.
Proof.
  intros Hwf Ht Hr. destruct (wf_medium d Hwf Ht) as (bs & Hu & Hl & Hf & Hc).
  destruct (nthZ_is_Some bs rid) as [b Hb]; [lia|].
  unfold medium_used, mbind, M_bind, massert. rewrite (proj2 (Z.ltb_lt rid _)) by lia.
  rewrite (medium_bytes_ok d bs) by done. unfold run_used. by rewrite Hu, Hb.
Qed.

(** The scan of the words: the first clear bit from word [uid] on. *)
Lemma locate_fs_loop_spec ws uid count :
  Forall (λ w, 0 ≤ w < 2 ^ 64) ws → 0 ≤ uid →
  let r := locate_fs_loop ws uid count in
  (r = count ∧ ∀ k w j, nthZ ws k = Some w → 0 ≤ j < 64 → Z.testbit w j = true) ∨
  (∃ k w j, nthZ ws k = Some w ∧ 0 ≤ j < 64 ∧ r = (uid + k) * 64 + j ∧
     Z.testbit w j = false ∧ (∀ i, 0 ≤ i < j → Z.testbit w i = true) ∧
     ∀ k' w' i, 0 ≤ k' < k → nthZ ws k' = Some w' → 0 ≤ i < 64 → Z.testbit w' i = true).
Proof.
  revert uid. induction ws as [|w ws IH]; intros uid Hf Hu; simpl.
  { left. split; [done|]. intros k w j Hk. apply nthZ_Some in Hk. unfold lenZ in Hk. simpl in Hk. lia. }
  apply Forall_cons in Hf as [Hw Hf].
  assert (∀ k, 0 < k → nthZ (w :: ws) k = nthZ ws (k - 1)) as Hcons.
  { intros k Hk. unfold nthZ. rewrite !(proj2 (Z.leb_le _ _)) by lia.
    replace (Z.to_nat k) with (S (Z.to_nat (k - 1))) by lia. done. }
  destruct (Z.eqb_spec (index_least0 w) (-1)) as [Hi|Hi].
  - apply index_least0_neg in Hi; [|done]. subst w.
    assert (∀ j, 0 ≤ j < 64 → Z.testbit (2 ^ 64 - 1) j = true) as Hfull.
    { intros j Hj. change (2 ^ 64 - 1) with (Z.ones 64). apply Z.ones_spec_low. lia. }
    destruct (IH (uid + 1)) as [(-> & Hall)|(k & w & j & Hk & Hj & -> & Hb & Hlow & Hprev)];
      [done|lia|left|right].
    + split; [done|]. intros k w j Hk Hj. destruct (decide (k = 0)) as [->|].
      * injection Hk as <-. by apply Hfull.
      * pose proof (nthZ_Some _ _ _ Hk). rewrite Hcons in Hk by lia. by apply (Hall (k - 1)).
    + pose proof (nthZ_Some _ _ _ Hk). exists (k + 1), w, j.
      rewrite Hcons by lia. replace (k + 1 - 1) with k by lia.
      split_and!; [done|lia|lia|lia|done|done|].
      intros k' w' i Hk' Hw' Hi'. destruct (decide (k' = 0)) as [->|].
      * injection Hw' as <-. by apply Hfull.
      * rewrite Hcons in Hw' by lia. apply (Hprev (k' - 1) w' i); [lia|done|done].
  - right. exists 0, w, (index_least0 w).
    destruct (index_least0_spec w) as (H1 & H2 & H3).
    { split; [lia|]. destruct (decide (w = 2 ^ 64 - 1)) as [->|]; [|lia].
      by rewrite index_least0_full in Hi. }
    split_and!; [done|lia|lia|lia|done|done|lia].
Qed.

Lemma nthZ_drop_take {A} (l : list A) (a n k : Z) :
  0 ≤ a → 0 ≤ k → a + k < n →
  nthZ (drop (Z.to_nat a) (take (Z.to_nat n) l)) k = nthZ l (a + k).
Proof.
  intros Ha Hk Hn. unfold nthZ. rewrite !(proj2 (Z.leb_le _ _)) by lia.
  rewrite lookup_drop. replace (Z.to_nat a + Z.to_nat k)%nat with (Z.to_nat (a + k)) by lia.
  apply lookup_take_lt. lia.
Qed.

Lemma nthZ_drop_take_inv {A} (l : list A) (a n k : Z) x :
  0 ≤ a → nthZ (drop (Z.to_nat a) (take (Z.to_nat n) l)) k = Some x →
  0 ≤ k ∧ a + k < n ∧ nthZ l (a + k) = Some x.
Proof.
  intros Ha Hk. pose proof (nthZ_Some _ _ _ Hk) as Hb. unfold lenZ in Hb.
  rewrite length_drop, length_take in Hb.
  split_and!; [lia|lia|]. by rewrite nthZ_drop_take in Hk by lia.
Qed.

Lemma run_used_word d ws k w j :
  ed_union d = small_ ws → nthZ ws k = Some w → 0 ≤ j < 64 →
  run_used d (k * 64 + j) = Z.testbit w j.
Proof.
  intros Hu Hw Hj. unfold run_used. rewrite Hu.
  replace ((k * 64 + j) / 64) with k by (Z.div_mod_to_equations; lia).
  replace ((k * 64 + j) mod 64) with j by (Z.div_mod_to_equations; lia). by rewrite Hw.
Qed.

(** [locate_fsrun] returns the first free run of the words from that of [ind] on. *)
Lemma locate_fsrun_ok {S} d ind (s : S) :
  wf_desc d → ed_type d = kSmall → 0 ≤ ind < ed_count d →
  ∃ r, locate_fsrun d ind s = Ok r s ∧ ind / 64 * 64 ≤ r ≤ ed_count d ∧
    (∀ j, ind / 64 * 64 ≤ j < r → run_used d j = true) ∧
    (r < ed_count d → run_used d r = false).
Proof.
  intros Hwf Ht Hi. destruct (wf_small d Hwf Ht) as (ws & Hu & Hl & Hf & Hc & Hm).
  unfold locate_fsrun, mbind, M_bind, massert.
  rewrite (proj2 (Z.ltb_lt ind _)) by lia. rewrite (small_words_ok d ws) by done.
  rewrite Hm. simpl. unfold mret, M_ret. eexists. split; [reflexivity|].
  assert (0 ≤ ind / 64 < ed_count d / 64) by (Z.div_mod_to_equations; lia).
  assert (ed_count d = ed_count d / 64 * 64) by (Z.div_mod_to_equations; lia).
  assert (ed_count d / 64 ≤ 4) by (Z.div_mod_to_equations; lia).
  destruct (locate_fs_loop_spec (drop (Z.to_nat (ind / 64)) (take (Z.to_nat (ed_count d / 64)) ws))
    (ind / 64) (ed_count d)) as [(-> & Hall)|(k & w & j & Hk & Hj & -> & Hb & Hlow & Hprev)].
  - by apply Forall_drop, Forall_take.
  - lia.
  - split_and!; [lia|lia| |lia]. intros j Hj.
    destruct (nthZ_is_Some ws (j / 64)) as [w Hw]; [Z.div_mod_to_equations; lia|].
    replace j with (j / 64 * 64 + j mod 64) by (Z.div_mod_to_equations; lia).
    rewrite (run_used_word d ws _ w) by (try done; Z.div_mod_to_equations; lia).
    apply (Hall (j / 64 - ind / 64)); [|Z.div_mod_to_equations; lia].
    rewrite nthZ_drop_take by (Z.div_mod_to_equations; lia). by rewrite Zplus_minus.
  - apply nthZ_drop_take_inv in Hk as (Hk0 & Hkn & Hk); [|lia].
    split_and!; [lia|lia| |].
    + intros i Hi'.
      destruct (nthZ_is_Some ws (i / 64)) as [w' Hw']; [Z.div_mod_to_equations; lia|].
      replace i with (i / 64 * 64 + i mod 64) by (Z.div_mod_to_equations; lia).
      rewrite (run_used_word d ws _ w') by (try done; Z.div_mod_to_equations; lia).
      destruct (decide (i / 64 = ind / 64 + k)) as [He|Hne].
      * rewrite He in Hw'. replace w' with w by congruence. apply Hlow.
        Z.div_mod_to_equations; lia.
      * apply (Hprev (i / 64 - ind / 64) w'); [Z.div_mod_to_equations; lia| |Z.div_mod_to_equations; lia].
        rewrite nthZ_drop_take by (Z.div_mod_to_equations; lia). by rewrite Zplus_minus.
    + intros _. by rewrite (run_used_word d ws _ w).
Qed.

(** The scan of the bytes. *)
Lemma locate_fm_loop_spec bs rid count :
  let r := locate_fm_loop bs rid count in
  (r = count ∧ ∀ k b, nthZ bs k = Some b → b ≠ 0) ∨
  (∃ k, nthZ bs k = Some 0 ∧ r = rid + k ∧ ∀ k' b, 0 ≤ k' < k → nthZ bs k' = Some b → b ≠ 0).
Proof.
  revert rid. induction bs as [|b bs IH]; intros rid; simpl.
  { left. split; [done|]. intros k b Hk. apply nthZ_Some in Hk. unfold lenZ in Hk. simpl in Hk. lia. }
  assert (∀ k, 0 < k → nthZ (b :: bs) k = nthZ bs (k - 1)) as Hcons.
  { intros k Hk. unfold nthZ. rewrite !(proj2 (Z.leb_le _ _)) by lia.
    replace (Z.to_nat k) with (S (Z.to_nat (k - 1))) by lia. done. }
  destruct (Z.eqb_spec b 0) as [->|Hb].
  { right. exists 0. split_and!; [done|lia|lia]. }
  destruct (IH (rid + 1)) as [(-> & Hall)|(k & Hk & -> & Hprev)]; [left|right].
  - split; [done|]. intros k b' Hk. pose proof (nthZ_Some _ _ _ Hk).
    destruct (decide (k = 0)) as [->|]; [by injection Hk as <-|].
    rewrite Hcons in Hk by lia. by apply (Hall (k - 1)).
  - pose proof (nthZ_Some _ _ _ Hk). exists (k + 1). rewrite Hcons by lia.
    replace (k + 1 - 1) with k by lia. split_and!; [done|lia|].
    intros k' b' Hk' Hb'. destruct (decide (k' = 0)) as [->|]; [by injection Hb' as <-|].
    rewrite Hcons in Hb' by lia. apply (Hprev (k' - 1)); [lia|done].
Qed.

Lemma run_used_byte d bs rid b :
  ed_union d = medium_ bs → nthZ bs rid = Some b → run_used d rid = negb (b =? 0).
Proof. intros Hu Hb. unfold run_used. by rewrite Hu, Hb. Qed.

(** [locate_fmrun] returns the first free run from [ind] on. *)
Lemma locate_fmrun_ok {S} d ind (s : S) :
  wf_desc d → ed_type d = kMedium → 0 ≤ ind < ed_count d →
  ∃ r, locate_fmrun d ind s = Ok r s ∧ ind ≤ r ≤ ed_count d ∧
    (∀ j, ind ≤ j < r → run_used d j = true) ∧
    (r < ed_count d → run_used d r = false).
Proof.
  intros Hwf Ht Hi. destruct (wf_medium d Hwf Ht) as (bs & Hu & Hl & Hf & Hc).
  unfold locate_fmrun, mbind, M_bind, massert.
  rewrite (proj2 (Z.ltb_lt ind _)) by lia. rewrite (medium_bytes_ok d bs) by done.
  rewrite (proj2 (Z.leb_le _ 32)) by lia. unfold mret, M_ret. eexists. split; [reflexivity|].
  destruct (locate_fm_loop_spec (drop (Z.to_nat ind) (take (Z.to_nat (ed_count d)) bs)) ind
    (ed_count d)) as [(-> & Hall)|(k & Hk & -> & Hprev)].
  - split_and!; [lia|lia| |lia]. intros j Hj. destruct (nthZ_is_Some bs j) as [b Hb]; [lia|].
    rewrite (run_used_byte d bs j b) by done. apply negb_true_iff, Z.eqb_neq.
    apply (Hall (j - ind)). rewrite nthZ_drop_take by lia. by rewrite Zplus_minus.
  - apply nthZ_drop_take_inv in Hk as (Hk0 & Hkn & Hk); [|lia]. split_and!; [lia|lia| |].
    + intros j Hj. destruct (nthZ_is_Some bs j) as [b Hb]; [lia|].
      rewrite (run_used_byte d bs j b) by done. apply negb_true_iff, Z.eqb_neq.
      apply (Hprev (j - ind)); [lia|]. rewrite nthZ_drop_take by lia. by rewrite Zplus_minus.
    + intros _. by rewrite (run_used_byte d bs _ 0).
Qed.

(** Taking or returning a run changes that run only. *)
Lemma mark_run_used d rid b j :
  wf_desc d → ed_type d = kSmall ∨ ed_type d = kMedium →
  0 ≤ rid < ed_count d → 0 ≤ j < ed_count d →
  run_used (mark_run rid b d) j = if decide (rid = j) then b else run_used d j.
Proof.
  intros Hwf [Ht|Ht] Hr Hj.
  - destruct (wf_small d Hwf Ht) as (ws & Hu & Hl & Hf & Hc & Hm).
    destruct (small_word d ws rid) as (w & Hw & Hwr & Hmr); [done|done|lia|].
    unfold mark_run, run_used. rewrite Hu. simpl. rewrite Hw. simpl.
    rewrite nthZ_updZ by (Z.div_mod_to_equations; lia).
    destruct (decide (rid / 64 = j / 64)) as [He|Hne].
    + rewrite <-He, Hw. simpl. pose proof (Z.mod_pos_bound j 64).
      assert (rid mod 64 = j mod 64 ↔ rid = j) as Hiff by (split; intros; Z.div_mod_to_equations; lia).
      destruct b; [rewrite set_bit_testbit by lia|rewrite clear_bit_testbit by lia];
        (case_decide as Hd; [rewrite bool_decide_true by tauto|rewrite bool_decide_false by tauto]);
        simpl; by rewrite ?orb_true_r, ?orb_false_r, ?andb_false_r, ?andb_true_r.
    + rewrite decide_False by (intros ->; done). done.
  - destruct (wf_medium d Hwf Ht) as (bs & Hu & Hl & Hf & Hc).
    unfold mark_run, run_used. rewrite Hu. simpl. rewrite nthZ_updZ by lia.
    case_decide; [by destruct b|done].
Qed.

Lemma Forall_updZ {A} (P : A → Prop) l i x : Forall P l → P x → Forall P (updZ l i x).
Proof. intros. unfold updZ. destruct (0 <=? i); [by apply Forall_insert|done]. Qed.

Lemma mark_run_wf d rid b :
  wf_desc d → ed_type d = kSmall ∨ ed_type d = kMedium → 0 ≤ rid < ed_count d →
  wf_desc (mark_run rid b d).
Proof.
  intros Hwf [Ht|Ht] Hr.
  - destruct (wf_small d Hwf Ht) as (ws & Hu & Hl & Hf & Hc & Hm).
    destruct (small_word d ws rid) as (w & Hw & Hwr & Hmr); [done|done|lia|].
    destruct Hwf as (H1 & H2 & H3 & _). unfold mark_run. rewrite Hu, Hw. simpl.
    repeat split; simpl; try done. rewrite Ht. split_and!; [by rewrite lenZ_updZ| |lia|done].
    apply Forall_updZ; [done|]. destruct b; auto with slab.
  - destruct (wf_medium d Hwf Ht) as (bs & Hu & Hl & Hf & Hc).
    destruct Hwf as (H1 & H2 & H3 & _). unfold mark_run. rewrite Hu.
    repeat split; simpl; try done. rewrite Ht. split_and!; [by rewrite lenZ_updZ| |lia].
    apply Forall_updZ; [done|]. destruct b; auto.
Qed.

(** The fields other than the union. *)
Lemma mark_run_fields d rid b :
  ed_type (mark_run rid b d) = ed_type d ∧ ed_rcase (mark_run rid b d) = ed_rcase d ∧
  ed_size (mark_run rid b d) = ed_size d ∧ ed_count (mark_run rid b d) = ed_count d ∧
  ed_next (mark_run rid b d) = ed_next d ∧ ed_runs (mark_run rid b d) = ed_runs d.
Proof. unfold mark_run. by destruct (ed_union d). Qed.

Lemma wp_small_words d ws Q (s : pst) :
  ed_type d = kSmall → ed_union d = small_ ws → Q ws s → wp (small_words d) Q s.
Proof. intros. unfold wp. by rewrite (small_words_ok d ws). Qed.
Lemma wp_medium_bytes d bs Q (s : pst) :
  ed_type d = kMedium → ed_union d = medium_ bs → Q bs s → wp (medium_bytes d) Q s.
Proof. intros. unfold wp. by rewrite (medium_bytes_ok d bs). Qed.

(** [palloc_srun], [palloc_mrun]: a free run becomes taken. *)
Lemma wp_palloc_srun this rid Q p lg :
  let d := desc_at p this in
  wf_desc d → ed_type d = kSmall → 0 ≤ rid < ed_count d → run_used d rid = false →
  this mod 64 = 0 →
  (∀ lg, Q tt {| mem := upd_desc this (mark_run rid true) p; log := lg |}) →
  wp (palloc_srun this rid) Q {| mem := p; log := lg |}.
Proof.
  intros d Hwf Ht Hr Hfree Ha HQ.
  destruct (wf_small d Hwf Ht) as (ws & Hu & Hl & Hf & Hc & Hm).
  destruct (small_word d ws rid) as (w & Hw & Hwr & Hmr); [done|done|lia|].
  assert (Z.testbit w (rid mod 64) = false) as Hb.
  { revert Hfree. unfold run_used. by rewrite Hu, Hw. }
  unfold palloc_srun. pm_steps; [apply Z.ltb_lt; fold d; lia|]. fold d.
  apply wp_small_words with ws; [done..|]. pm_steps; [exact Hw|..].
  { pose proof (test_bit_testbit w (rid mod 64) ltac:(lia) ltac:(lia)) as Htb.
    unfold test_bit in Htb. rewrite Hb in Htb. by apply negb_false_iff in Htb. }
  { by apply Z.eqb_eq. }
  rewrite (upd_desc_ext _ _ (mark_run rid true)); [apply HQ|].
  fold d. unfold mark_run. by rewrite Hu, Hw.
Qed.

Lemma wp_pdealloc_srun this rid Q p lg :
  let d := desc_at p this in
  wf_desc d → ed_type d = kSmall → 0 ≤ rid < ed_count d → run_used d rid = true →
  (∀ lg, Q tt {| mem := upd_desc this (mark_run rid false) p; log := lg |}) →
  wp (pdealloc_srun this rid) Q {| mem := p; log := lg |}.
Proof.
  intros d Hwf Ht Hr Hused HQ.
  destruct (wf_small d Hwf Ht) as (ws & Hu & Hl & Hf & Hc & Hm).
  destruct (small_word d ws rid) as (w & Hw & Hwr & Hmr); [done|done|lia|].
  assert (Z.testbit w (rid mod 64) = true) as Hb.
  { revert Hused. unfold run_used. by rewrite Hu, Hw. }
  unfold pdealloc_srun. pm_steps; [apply Z.ltb_lt; fold d; lia|]. fold d.
  apply wp_small_words with ws; [done..|]. pm_steps; [exact Hw|..].
  { pose proof (test_bit_testbit w (rid mod 64) ltac:(lia) ltac:(lia)) as Htb.
    unfold test_bit in Htb. by rewrite Hb in Htb. }
  rewrite (upd_desc_ext _ _ (mark_run rid false)); [apply HQ|].
  fold d. unfold mark_run. by rewrite Hu, Hw.
Qed.

Lemma wp_palloc_mrun this rid Q p lg :
  let d := desc_at p this in
  wf_desc d → ed_type d = kMedium → 0 ≤ rid < ed_count d → run_used d rid = false →
  this mod 64 = 0 →
  (∀ lg, Q tt {| mem := upd_desc this (mark_run rid true) p; log := lg |}) →
  wp (palloc_mrun this rid) Q {| mem := p; log := lg |}.
Proof.
  intros d Hwf Ht Hr Hfree Ha HQ.
  destruct (wf_medium d Hwf Ht) as (bs & Hu & Hl & Hf & Hc).
  destruct (nthZ_is_Some bs rid) as [b Hb]; [lia|].
  rewrite (run_used_byte d bs rid b) in Hfree by done.
  unfold palloc_mrun. pm_steps; [apply Z.ltb_lt; fold d; lia|]. fold d.
  apply wp_medium_bytes with bs; [done..|]. pm_steps; [exact Hb|..].
  { by apply negb_false_iff. }
  { by apply Z.eqb_eq. }
  rewrite (upd_desc_ext _ _ (mark_run rid true)); [apply HQ|].
  fold d. unfold mark_run. by rewrite Hu.
Qed.

Lemma wp_pdealloc_mrun this rid Q p lg :
  let d := desc_at p this in
  wf_desc d → ed_type d = kMedium → 0 ≤ rid < ed_count d → run_used d rid = true →
  (∀ lg, Q tt {| mem := upd_desc this (mark_run rid false) p; log := lg |}) →
  wp (pdealloc_mrun this rid) Q {| mem := p; log := lg |}.
Proof.
  intros d Hwf Ht Hr Hused HQ.
  destruct (wf_medium d Hwf Ht) as (bs & Hu & Hl & Hf & Hc).
  destruct (nthZ_is_Some bs rid) as [b Hb]; [lia|].
  rewrite (run_used_byte d bs rid b) in Hused by done.
  assert (b = 1) as ->.
  { rewrite Forall_forall in Hf. destruct (Hf b); [|by subst|done].
    apply (list_elem_of_lookup_2 _ (Z.to_nat rid)). unfold nthZ in Hb. by destruct (0 <=? rid). }
  unfold pdealloc_mrun. pm_steps; [apply Z.ltb_lt; fold d; lia|]. fold d.
  apply wp_medium_bytes with bs; [done..|]. pm_steps; [exact Hb|done|].
  rewrite (upd_desc_ext _ _ (mark_run rid false)); [apply HQ|].
  fold d. unfold mark_run. by rewrite Hu.
Qed.

Lemma existsb_elem {A} (f : A → bool) l : existsb f l = true ↔ ∃ x, x ∈ l ∧ f x = true.
Proof. rewrite existsb_exists. by setoid_rewrite list_elem_of_In. Qed.

Lemma elem_of_take_nthZ {A} (l : list A) n x :
  x ∈ take (Z.to_nat n) l ↔ ∃ i, 0 ≤ i < n ∧ nthZ l i = Some x.
Proof.
  rewrite list_elem_of_lookup. setoid_rewrite lookup_take_Some. split.
  - intros (i & Hi & Hlt). exists (Z.of_nat i). split; [lia|]. unfold nthZ.
    rewrite (proj2 (Z.leb_le _ _)) by lia. by rewrite Nat2Z.id.
  - intros (i & Hi & Hx). exists (Z.to_nat i). split; [|lia]. unfold nthZ in Hx.
    by rewrite (proj2 (Z.leb_le _ _)) in Hx by lia.
Qed.

(** [srun_busy], [mrun_busy]: some run is taken. *)
Lemma srun_busy_ok {S} d (s : S) :
  wf_desc d → ed_type d = kSmall →
  ∃ b, srun_busy d s = Ok b s ∧ (b = true ↔ ∃ rid, 0 ≤ rid < ed_count d ∧ run_used d rid = true).
Proof.
  intros Hwf Ht. destruct (wf_small d Hwf Ht) as (ws & Hu & Hl & Hf & Hc & Hm).
  unfold srun_busy, mbind, M_bind, massert. rewrite (small_words_ok d ws) by done.
  rewrite Hm. simpl. eexists. split; [reflexivity|]. rewrite existsb_elem.
  setoid_rewrite elem_of_take_nthZ. split.
  - intros (w & (i & Hi & Hw) & Hp). apply negb_true_iff, Z.eqb_neq in Hp.
    assert (0 ≤ w < 2 ^ 64).
    { rewrite Forall_forall in Hf. apply Hf. apply (list_elem_of_lookup_2 _ (Z.to_nat i)).
      unfold nthZ in Hw. by destruct (0 <=? i). }
    destruct (word_one_bit w) as (j & Hj & Hb).
    { assert (w ≠ 0) by (intros ->; apply Hp; by apply popcount_zero). lia. }
    exists (i * 64 + j). split; [Z.div_mod_to_equations; lia|]. by rewrite (run_used_word d ws i w).
  - intros (rid & Hr & Hused). destruct (small_word d ws rid) as (w & Hw & Hwr & Hmr); [done|done|lia|].
    exists w. split; [exists (rid / 64); split; [Z.div_mod_to_equations; lia|done]|].
    apply negb_true_iff, Z.eqb_neq. intros Hp. rewrite popcount_zero in Hp by done. subst w.
    unfold run_used in Hused. rewrite Hu, Hw in Hused. simpl in Hused. by rewrite Z.bits_0 in Hused.
Qed.

Lemma mrun_busy_ok {S} d (s : S) :
  wf_desc d → ed_type d = kMedium →
  ∃ b, mrun_busy d s = Ok b s ∧ (b = true ↔ ∃ rid, 0 ≤ rid < ed_count d ∧ run_used d rid = true).
Proof.
  intros Hwf Ht. destruct (wf_medium d Hwf Ht) as (bs & Hu & Hl & Hf & Hc).
  unfold mrun_busy, mbind, M_bind, massert. rewrite (medium_bytes_ok d bs) by done.
  rewrite (proj2 (Z.leb_le _ 32)) by lia. eexists. split; [reflexivity|]. rewrite existsb_elem.
  setoid_rewrite elem_of_take_nthZ. split.
  - intros (b & (i & Hi & Hb) & Hne). exists i. split; [done|]. by rewrite (run_used_byte d bs i b).
  - intros (rid & Hr & Hused). destruct (nthZ_is_Some bs rid) as [b Hb]; [lia|].
    exists b. split; [by exists rid|]. by rewrite (run_used_byte d bs rid b) in Hused.
Qed.
End runs.

(** ** Construction *)

Section construct.
Context `{UtilSpec}.

Lemma u32_small x : 0 ≤ x < 2 ^ 32 → u32 x = x.
Proof. apply Z.mod_small. Qed.
Lemma u16_small x : 0 ≤ x < 2 ^ 16 → u16 x = x.
Proof. apply Z.mod_small. Qed.

(** [ExtentDesc::construct] passes its asserts and writes [new_desc]. *)
Lemma wp_construct this type run_case size next runs wait Q p lg :
  is_alloc_type type = true → 0 < size ≤ kExtentSize → kExtentSize mod size = 0 →
  (type = kMedium → runs ≠ nullptr) → this mod 64 = 0 →
  (∀ lg, Q tt {| mem := upd_desc this (λ _, new_desc type run_case size next runs) p; log := lg |}) →
  wp (ExtentDesc_construct this type run_case size next runs wait) Q {| mem := p; log := lg |}.
Proof.
  intros Ht Hs Hm Hr Ha HQ. unfold ExtentDesc_construct. rewrite Ht.
  rewrite (proj2 (Z.eqb_neq size 0)) by lia.
  wp_step. wp_step; [done|]. wp_step. wp_step; [by apply Z.leb_le; lia|].
  wp_step. wp_step; [by apply Z.eqb_eq|]. wp_step. wp_step.
  { destruct (decide (type = kMedium)) as [He|He].
    - rewrite bool_decide_true by done. simpl. apply negb_true_iff, Z.eqb_neq. by apply Hr.
    - by rewrite bool_decide_false. }
  pm_steps.
  destruct type; try done; cbn match; pm_steps; rewrite !upd_desc_upd_desc;
    destruct wait; pm_steps; try (by apply Z.eqb_eq); apply HQ.
Qed.

(** A fresh descriptor is well formed and has no run in use. *)
Lemma new_desc_wf type run_case size next runs :
  is_alloc_type type = true → 0 < size ≤ kExtentSize → kExtentSize mod size = 0 →
  (type = kSmall → kExtentSize / size ≤ 256 ∧ (kExtentSize / size) mod 64 = 0) →
  (type ≠ kSmall → kExtentSize / size ≤ 32) →
  let d := new_desc type run_case size next runs in
  wf_desc d ∧ ed_size d = size ∧ ed_count d = kExtentSize / size ∧
  ∀ rid, 0 ≤ rid < ed_count d → run_used d rid = false.
Proof.
  change kExtentSize with 4194304. intros Ht Hs Hm Hsm Hl d.
  assert (0 < 4194304 / size) by (apply Z.div_str_pos; lia).
  assert (4194304 / size ≤ 4194304) by (apply Z.div_le_upper_bound; nia).
  assert (ed_size d = size) as Hsize by (apply u32_small; lia).
  assert (ed_count d = 4194304 / size) as Hcount by (apply u32_small; lia).
  split_and!; [|done|done|].
  - unfold wf_desc. rewrite Hsize, Hcount. change kExtentSize with 4194304.
    split_and!; [lia|done|done|]. destruct type; try done; simpl.
    + destruct Hsm as [??]; [done|]. split_and!; [done| |done|done].
      apply (Forall_replicate _ 4). lia.
    + split_and!; [done| |by apply Hl]. apply (Forall_replicate _ 32). by left.
    + split_and!; [done| |by apply Hl]. apply (Forall_replicate _ 32). done.
  - rewrite Hcount. intros rid Hr. unfold run_used. subst d. destruct type; try done;
      unfold new_desc; cbn [ed_union].
    + assert (4194304 / size ≤ 256) by (by apply Hsm).
      rewrite (nthZ_replicate 4 0 (rid / 64)) by (Z.div_mod_to_equations; lia).
      apply Z.bits_0.
    + assert (4194304 / size ≤ 32) by (by apply Hl).
      by rewrite (nthZ_replicate 32 0 rid) by lia.
    + assert (4194304 / size ≤ 32) by (by apply Hl).
      by rewrite (nthZ_replicate 32 kFreeCode rid) by lia.
Qed.

Lemma wp_fire_small this i Q m p lg :
  (∀ m' lg, (m' = m ∨ m' = set_sm_tokens (<[i := kFreeCode]> (sm_tokens m)) m) →
     small_token m' i = kFreeCode →
     Q tt {| mem := upd_small this (λ _, m') p; log := lg |}) →
  wp (token_fire (TSmall this i) false) Q {| mem := upd_small this (λ _, m) p; log := lg |}.
Proof.
  intros HQ. unfold token_fire, ld_token. pm_steps; [done|].
  simpl. rewrite small_at_upd_eq. destruct (Z.eqb_spec (small_token m i) kFreeCode) as [He|He].
  - pm_steps. apply HQ; [by left|done].
  - pm_steps. unfold st_token. apply wp_store. intros lg'. simpl. pm_steps.
    rewrite upd_small_upd_small. rewrite (upd_small_ext _ _
      (λ _, set_sm_tokens (<[i := kFreeCode]> (sm_tokens m)) m)) by done.
    apply HQ; [by right|]. unfold small_token. simpl. by rewrite lookup_insert_eq.
Qed.

(** [SmallMeta::construct] sets the header and frees the first [count] tokens. *)
Lemma wp_SmallMeta_construct this arena size count Q p lg :
  0 ≤ count →
  (∀ m lg, sm_size m = u32 size → sm_arena m = u16 arena → sm_count m = u16 count →
     sm_next m = nullptr → sm_cond m = kPure →
     (∀ i, 0 ≤ i < count → small_token m i = kFreeCode) →
     Q tt {| mem := upd_small this (λ _, m) p; log := lg |}) →
  wp (SmallMeta_construct this arena size count) Q {| mem := p; log := lg |}.
Proof.
  intros Hc HQ. unfold SmallMeta_construct. pm_steps. rewrite !upd_small_upd_small.
  set (I := λ i (s : pst), ∃ m lg, s = {| mem := upd_small this (λ _, m) p; log := lg |} ∧
    sm_size m = u32 size ∧ sm_arena m = u16 arena ∧ sm_count m = u16 count ∧
    sm_next m = nullptr ∧ sm_cond m = kPure ∧
    ∀ j, 0 ≤ j < i → small_token m j = kFreeCode).
  apply (wp_mfor I).
  - eexists _, _. split; [by erewrite (upd_small_ext _ _ (λ _, _)); [|reflexivity]|].
    simpl. split_and!; try done. lia.
  - intros i s Hi (m & lg' & -> & H1 & H2 & H3 & H4 & H5 & H6).
    apply wp_fire_small. intros m' lg'' Hm' Ht. exists m', lg''.
    split; [done|]. split_and!; try (destruct Hm' as [->| ->]; done).
    intros j Hj. destruct (decide (j = i)) as [->|]; [done|].
    destruct Hm' as [->| ->]; [apply H6; lia|]. unfold small_token. simpl.
    rewrite lookup_insert_ne by done. apply H6. lia.
  - rewrite Z2Nat.id by lia. simpl. intros s (m & lg' & -> & H1 & H2 & H3 & H4 & H5 & H6).
    pm_steps.
    apply (wp_mfor (λ _ s, ∃ lg, s = {| mem := upd_small this (λ _, m) p; log := lg |})).
    + by eexists.
    + intros i s Hi (lg''' & ->). pm_steps. by eexists.
    + intros s (lg''' & ->). pm_steps. by apply HQ.
Qed.

Lemma wp_fire_medium this i Q m p lg :
  0 ≤ i < lenZ (mm_tokens m) →
  (∀ m' lg, (m' = m ∨ m' = set_mm_tokens (updZ (mm_tokens m) i kFreeCode) m) →
     nthZ (mm_tokens m') i = Some kFreeCode →
     Q tt {| mem := upd_med this (λ _, m') p; log := lg |}) →
  wp (token_fire (TMedium this i) false) Q {| mem := upd_med this (λ _, m) p; log := lg |}.
Proof.
  intros Hi HQ. destruct (nthZ_is_Some _ _ Hi) as [t Ht].
  unfold token_fire, ld_token. pm_steps; [simpl; rewrite med_at_upd_eq; exact Ht|].
  destruct (Z.eqb_spec t kFreeCode) as [->|He].
  - pm_steps. apply HQ; [by left|done].
  - pm_steps. unfold st_token. pm_steps. simpl. pm_steps.
    rewrite upd_med_upd_med. rewrite (upd_med_ext _ _
      (λ _, set_mm_tokens (updZ (mm_tokens m) i kFreeCode) m)) by done.
    apply HQ; [by right|]. simpl. by apply nthZ_updZ_eq.
Qed.

(** The token of a large region. *)
Lemma wp_fire_large this i ts Q p lg :
  ed_union (desc_at p this) = large_ ts → 0 ≤ i < lenZ ts →
  (∀ p' lg', pm_head p' = pm_head p → pm_meta p' = pm_meta p → pm_med p' = pm_med p →
     pm_small p' = pm_small p → (∀ a, a ≠ this → desc_at p' a = desc_at p a) →
     desc_at p' this = set_ed_union (large_ (updZ ts i kFreeCode)) (desc_at p this) →
     Q tt {| mem := p'; log := lg' |}) →
  wp (token_fire (TLarge this i) true) Q {| mem := p; log := lg |}.
Proof.
  intros Hu Hi HQ. destruct (nthZ_is_Some _ _ Hi) as [t Ht].
  unfold token_fire, ld_token. pm_steps; [simpl; rewrite Hu; exact Ht|].
  destruct (Z.eqb_spec t kFreeCode) as [->|He].
  - pm_steps. apply HQ; try done. rewrite updZ_id by done. rewrite <-Hu. by destruct (desc_at p this).
  - pm_steps. unfold st_token. pm_steps. simpl. pm_steps. apply HQ; try done.
    + intros a Ha. by rewrite desc_at_upd_ne.
    + rewrite desc_at_upd_eq. by rewrite Hu.
Qed.

(** [MediumMeta::construct], likewise. *)
Lemma wp_MediumMeta_construct this arena size count Q p lg :
  0 ≤ count ≤ 51 → lenZ (mm_tokens (med_at p this)) = 51 →
  (∀ m lg, mm_size m = u32 size → mm_arena m = u16 arena → mm_count m = u16 count →
     mm_next m = nullptr → mm_cond m = kPure → lenZ (mm_tokens m) = 51 →
     (∀ i, 0 ≤ i < count → nthZ (mm_tokens m) i = Some kFreeCode) →
     Q tt {| mem := upd_med this (λ _, m) p; log := lg |}) →
  wp (MediumMeta_construct this arena size count) Q {| mem := p; log := lg |}.
Proof.
  intros Hc Hlen HQ. unfold MediumMeta_construct.
  wp_step. wp_step; [by apply Z.leb_le; lia|]. pm_steps. rewrite !upd_med_upd_med.
  set (I := λ i (s : pst), ∃ m lg, s = {| mem := upd_med this (λ _, m) p; log := lg |} ∧
    mm_size m = u32 size ∧ mm_arena m = u16 arena ∧ mm_count m = u16 count ∧
    mm_next m = nullptr ∧ mm_cond m = kPure ∧ lenZ (mm_tokens m) = 51 ∧
    ∀ j, 0 ≤ j < i → nthZ (mm_tokens m) j = Some kFreeCode).
  apply (wp_mfor I).
  - eexists _, _. split; [by erewrite (upd_med_ext _ _ (λ _, _)); [|reflexivity]|].
    simpl. split_and!; try done. lia.
  - intros i s Hi (m & lg' & -> & H1 & H2 & H3 & H4 & H5 & H6 & H7).
    apply wp_fire_medium; [lia|]. intros m' lg'' Hm' Ht. exists m', lg''.
    split; [done|]. split_and!; try (destruct Hm' as [->| ->]; done).
    { destruct Hm' as [->| ->]; [done|]. simpl. by rewrite lenZ_updZ. }
    intros j Hj. destruct (decide (j = i)) as [->|]; [done|].
    destruct Hm' as [->| ->]; [apply H7; lia|]. simpl.
    rewrite nthZ_updZ_ne by done. apply H7. lia.
  - rewrite Z2Nat.id by lia. simpl.
    intros s (m & lg' & -> & H1 & H2 & H3 & H4 & H5 & H6 & H7). pm_steps. by apply HQ.
Qed.
End construct.
