(* ===== verification/Bits.v ===== *)
(** * Allocation bitmaps of runs (slab/bits.h)

    [RunBits] records in memory which regions of a run have been handed out.
    Up to 64 regions the bitmap is the word [bits_] itself, above it is an array
    that [bits_] points to.  The theorems relate every operation to the abstract
    view of a run, the set [rb_used] of its taken regions: the constructor,
    [fill_regions] (which takes the first free regions, in order), the two
    deallocations, [alloc_large] and [reload]. *)

From S2P Require Export DescLemmas.
Import Pmem.

(** ** Definitions *)

Definition kUnitBits : Z := 64.

(** The word [bits_], or the array it points to. *)
Inductive bit_store := Word (w : Z) | Heap (ws : list Z).

Record RunBits := {
  rb_size : Z;
  rb_count : Z;
  rb_alloc : Z;
  rb_meta : Z;
  rb_objs : Z;
  rb_bits : bit_store;
}.

Definition eta_rb r := {|
  rb_size := rb_size r; rb_count := rb_count r; rb_alloc := rb_alloc r;
  rb_meta := rb_meta r; rb_objs := rb_objs r; rb_bits := rb_bits r |}.
Definition set_rb_alloc := ltac:(setter eta_rb rb_alloc).
Definition set_rb_bits := ltac:(setter eta_rb rb_bits).

Section ops.
Context `{Util}.

Definition RunBits_new (size count meta objs : Z) (empty : bool) : RunBits := {|
  rb_size := u32 size;
  rb_count := u16 count;
  rb_alloc := u16 (if empty then count else 0);
  rb_meta := meta;
  rb_objs := objs;
  rb_bits :=
    if kUnitBits <? count then
      let nbytes := roundup count kUnitBits / 8 in
      let ws := replicate (Z.to_nat (nbytes / 8)) (if empty then 2 ^ 64 - 1 else 0) in
      let remain := count mod kUnitBits in
      if empty && negb (remain =? 0) then Heap (updZ ws (count / kUnitBits) (bit remain - 1))
      else Heap ws
    else if empty then
      Word (if count =? kUnitBits then u64 (Z.lnot 0) else bit count - 1)
    else Word 0 |}.

(** Word number [uid] of the array, or [bits_] itself. *)
Definition get_word (r : RunBits) (uid : Z) : option Z :=
  match rb_bits r with
  | Word w => if uid =? 0 then Some w else None
  | Heap ws => nthZ ws uid
  end.
Definition put_word (r : RunBits) (uid w : Z) : RunBits :=
  set_rb_bits (match rb_bits r with Word _ => Word w | Heap ws => Heap (updZ ws uid w) end) r.

(** [bits |= (0x01ul << idx), alloc_++] and [bits &= ~(0x01ul << idx), alloc_--] *)
Definition take_bit (r : RunBits) (uid idx w : Z) : RunBits :=
  set_rb_alloc (u16 (rb_alloc r + 1)) (put_word r uid (set_bit w idx)).
Definition drop_bit (r : RunBits) (uid idx w : Z) : RunBits :=
  set_rb_alloc (u16 (rb_alloc r - 1)) (put_word r uid (clear_bit w idx)).

(** The loops of the three [reload] overloads over the tokens. *)
Definition reload_step (token : Z → M pst token_ref) (ind : Z) (r : RunBits) : M pst RunBits :=
  let uid := if kUnitBits <? rb_count r then ind / kUnitBits else 0 in
  let idx := if kUnitBits <? rb_count r then ind mod kUnitBits else ind in
  w ← mderef (get_word r uid);
  (if kUnitBits <? rb_count r then massert (negb (idx =? 0) || (w =? 0)) else mret tt) ;;
  t ← token ind;
  b ← ld_token t;
  mret (if token_busy b then take_bit r uid idx w else r).

Definition reload_loop (r : RunBits) (token : Z → M pst token_ref) : M pst RunBits :=
  r' ← mfold (Z.to_nat (rb_count r)) 0 (reload_step token) r;
  massert ((0 <=? rb_alloc r') && (rb_alloc r' <? rb_count r')) ;;
  mret r'.

Definition is_zero_word (r : RunBits) : bool :=
  match rb_bits r with Word w => w =? 0 | Heap _ => false end.

Definition RunBits_reload_small (r : RunBits) (meta : Z) : M pst RunBits :=
  m ← ld_small meta;
  massert (meta =? rb_meta r) ;;
  massert ((sm_count m =? rb_count r) && (sm_size m =? rb_size r)) ;;
  (if kUnitBits <? rb_count r then massert (rb_alloc r =? 0)
   else massert (is_zero_word r && (rb_alloc r =? 0))) ;;
  reload_loop r (SmallMeta_token meta m).

Definition RunBits_reload_medium (r : RunBits) (meta : Z) : M pst RunBits :=
  m ← ld_med meta;
  massert ((meta =? rb_meta r) && (rb_count r <=? kUnitBits)) ;;
  massert ((mm_count m =? rb_count r) && (mm_size m =? rb_size r)) ;;
  massert (is_zero_word r && (rb_alloc r =? 0)) ;;
  reload_loop r (MediumMeta_token meta m).

Definition RunBits_reload_large (r : RunBits) (desc : Z) : M pst RunBits :=
  d ← ld_desc desc;
  massert ((desc =? rb_meta r) && (rb_count r <=? kUnitBits)) ;;
  massert ((ed_count d =? rb_count r) && (ed_size d =? rb_size r)) ;;
  massert (is_zero_word r && (rb_alloc r =? 0)) ;;
  reload_loop r (ExtentDesc_token desc d).

(** The overload chosen by the type of the argument. *)
Definition RunBits_reload (r : RunBits) (type : RegionType) (meta : Z) : M pst RunBits :=
  match type with
  | kSmall => RunBits_reload_small r meta
  | kMedium => RunBits_reload_medium r meta
  | _ => RunBits_reload_large r meta
  end.

Definition locate_token (r : RunBits) (idx : Z) (type : RegionType) : M pst token_ref :=
  match type with
  | kSmall =>
      m ← ld_small (rb_meta r);
      massert (sm_size m =? rb_size r) ;; SmallMeta_token (rb_meta r) m idx
  | kMedium =>
      m ← ld_med (rb_meta r);
      massert (mm_size m =? rb_size r) ;; MediumMeta_token (rb_meta r) m idx
  | _ =>
      d ← ld_desc (rb_meta r);
      massert (bool_decide (type = kLarge) && (ed_size d =? rb_size r)) ;;
      ExtentDesc_token (rb_meta r) d idx
  end.

(** The loop that takes regions from the word [uid], which has [count] regions;
    in the branch of at most 64 regions [uid] is 0. *)
Fixpoint fill_unit (fuel : nat) (uid count : Z) (type : RegionType) (restock : Z)
    (r : RunBits) (regions : list region_t) : M pst (RunBits * list region_t) :=
  match fuel with
  | O => merr EFuel
  | S fuel =>
      if lenZ regions <? restock then
        w ← mderef (get_word r uid);
        let idx := index_least0 w in
        if (idx =? count) || (idx =? -1) then mret (r, regions)
        else
          token ← locate_token r (uid * kUnitBits + idx) type;
          let reg := rb_objs r + (uid * kUnitBits + idx) * rb_size r in
          fill_unit fuel uid count type restock (take_bit r uid idx w)
            (regions ++ [region (Some token) reg])
      else mret (r, regions)
  end.

(** The loop over the words of a run of more than 64 regions. *)
Fixpoint fill_units (fuel : nat) (unit uid count : Z) (type : RegionType) (restock : Z)
    (r : RunBits) (regions : list region_t) : M pst (RunBits * list region_t) :=
  match fuel with
  | O => merr EFuel
  | S fuel =>
      if lenZ regions <? restock then
        '(r, regions) ← fill_unit (Z.to_nat (restock - lenZ regions) + 1) uid count type restock
                          r regions;
        let uid := uid + 1 in
        if unit <=? uid then mret (r, regions)
        else
          let count := if uid =? unit - 1 then rb_count r - uid * kUnitBits else count in
          fill_units fuel unit uid count type restock r regions
      else mret (r, regions)
  end.

Definition RunBits_fill_regions (r : RunBits) (regions : list region_t) (restock : Z)
    (type : RegionType) : M pst (RunBits * list region_t) :=
  massert ((rb_alloc r <? rb_count r) && (bool_decide (type = kSmall) || bool_decide (type = kMedium))) ;;
  if rb_count r <=? kUnitBits then
    w ← mderef (get_word r 0);
    massert ((popcount w <? rb_count r) && (popcount w =? rb_alloc r)) ;;
    fill_unit (Z.to_nat (restock - lenZ regions) + 1) 0 (rb_count r) type restock r regions
  else
    let unit := (rb_count r + kUnitBits - 1) / kUnitBits in
    fill_units (Z.to_nat unit) unit 0 kUnitBits type restock r regions.

Definition RunBits_dealloc_region {S} (r : RunBits) (index : Z) : M S RunBits :=
  massert ((rb_alloc r <=? rb_count r) && (index <? rb_count r)) ;;
  if rb_count r <=? kUnitBits then
    w ← mderef (get_word r 0);
    massert (popcount w =? rb_alloc r) ;;
    massert (test_bit w index) ;;
    mret (drop_bit r 0 index w)
  else
    let uid := index / kUnitBits in
    let ind := index mod kUnitBits in
    w ← mderef (get_word r uid);
    massert (test_bit w ind) ;;
    mret (drop_bit r uid ind w).

Definition RunBits_alloc_large (r : RunBits) : M pst (RunBits * region_t) :=
  massert ((rb_alloc r <? rb_count r) && (rb_count r <? kUnitBits)) ;;
  w ← mderef (get_word r 0);
  massert ((popcount w <? rb_count r) && (popcount w =? rb_alloc r)) ;;
  let idx := index_least0 w in
  token ← locate_token r idx kLarge;
  let reg := rb_objs r + idx * rb_size r in
  mret (take_bit r 0 idx w, region (Some token) reg).

Definition RunBits_dealloc_large {S} (r : RunBits) (index : Z) : M S RunBits :=
  massert ((rb_alloc r <=? rb_count r) && (rb_count r <? kUnitBits)) ;;
  w ← mderef (get_word r 0);
  massert ((index <? rb_count r) && test_bit w index) ;;
  massert (popcount w =? rb_alloc r) ;;
  mret (drop_bit r 0 index w).

Definition RunBits_mark_polluted (r : RunBits) (type : RegionType) : M pst unit :=
  massert (bool_decide (type = kSmall) || bool_decide (type = kMedium)) ;;
  if bool_decide (type = kSmall) then
    st_small (rb_meta r) (set_sm_cond kPolluted) ;; persist_write_back (LSmall (rb_meta r))
  else
    st_med (rb_meta r) (set_mm_cond kPolluted) ;; persist_write_back (LMed (rb_meta r)).

Definition RunBits_empty (r : RunBits) : bool := rb_alloc r =? rb_count r.
Definition RunBits_full (r : RunBits) : bool := rb_alloc r =? 0.

(** ** The abstract view *)

Definition rb_used (r : RunBits) (i : Z) : bool :=
  Z.testbit (default 0 (get_word r (i / 64))) (i mod 64).

(** The free regions from index [i] on, in order. *)
Definition free_from (r : RunBits) (i : Z) : list Z :=
  filter (λ j, negb (rb_used r j) = true) (seqZ i (rb_count r - i)).
Definition free_list (r : RunBits) : list Z := free_from r 0.
Definition used_count (r : RunBits) : Z :=
  lenZ (filter (λ j, rb_used r j = true) (seqZ 0 (rb_count r))).

Definition wf_store (count : Z) (b : bit_store) : Prop :=
  match b with
  | Word w => count ≤ 64 ∧ 0 ≤ w < 2 ^ 64
  | Heap ws => 64 < count ∧ lenZ ws = (count + 63) / 64 ∧ Forall (λ w, 0 ≤ w < 2 ^ 64) ws
  end.

(** The bitmap has the right shape, no bit beyond the last region is set, and
    [alloc_] counts the bits. *)
Definition wf_rb (r : RunBits) : Prop :=
  0 < rb_count r < 2 ^ 16 ∧ wf_store (rb_count r) (rb_bits r) ∧
  (∀ i, rb_count r ≤ i → rb_used r i = false) ∧ rb_alloc r = used_count r.

(** The management meta of the run agrees with the bitmap. *)
Definition meta_matches (p : pmem) (type : RegionType) (r : RunBits) : Prop :=
  match type with
  | kSmall => sm_size (small_at p (rb_meta r)) = rb_size r ∧
              sm_count (small_at p (rb_meta r)) = rb_count r
  | kMedium => mm_size (med_at p (rb_meta r)) = rb_size r ∧
               mm_count (med_at p (rb_meta r)) = rb_count r
  | kLarge => ed_size (desc_at p (rb_meta r)) = rb_size r ∧
              ed_count (desc_at p (rb_meta r)) = rb_count r ∧
              ed_type (desc_at p (rb_meta r)) = kLarge
  | _ => False
  end.

Definition token_of (type : RegionType) (meta idx : Z) : token_ref :=
  match type with
  | kSmall => TSmall meta idx
  | kMedium => TMedium meta idx
  | _ => TLarge meta idx
  end.

(** The region of index [i]. *)
Definition region_of (type : RegionType) (r : RunBits) (i : Z) : region_t :=
  region (Some (token_of type (rb_meta r) i)) (rb_objs r + i * rb_size r).
End ops.

(** ** Lemmas *)

Section lemmas.
Context `{UtilSpec}.
Implicit Types (r : RunBits) (i j uid idx w : Z).

Lemma filter_none {A} (f : A → bool) (l : list A) :
  (∀ x, x ∈ l → f x = false) → filter (λ x, f x = true) l = [].
Proof.
  intros Hf. induction l as [|x l IH]; [done|]. rewrite filter_cons, decide_False.
  - apply IH. intros y Hy. apply Hf. set_solver.
  - rewrite Hf by set_solver. done.
Qed.

Lemma filter_all {A} (f : A → bool) (l : list A) :
  (∀ x, x ∈ l → f x = true) → filter (λ x, f x = true) l = l.
Proof.
  intros Hf. induction l as [|x l IH]; [done|]. rewrite filter_cons, decide_True.
  - f_equal. apply IH. intros y Hy. apply Hf. set_solver.
  - apply Hf. set_solver.
Qed.

(** Every region index has its word. *)
Lemma wf_word r i :
  wf_rb r → 0 ≤ i < rb_count r →
  ∃ w, get_word r (i / 64) = Some w ∧ 0 ≤ w < 2 ^ 64 ∧ 0 ≤ i mod 64 < 64.
Proof.
  intros (Hc & Hs & _) Hi. pose proof (Z.mod_pos_bound i 64). unfold get_word.
  destruct (rb_bits r) as [w|ws]; simpl in Hs.
  - destruct Hs as [Hc64 Hw]. replace (i / 64) with 0 by (Z.div_mod_to_equations; lia).
    exists w. split_and!; (done || lia).
  - destruct Hs as (Hc64 & Hl & Hf).
    destruct (nthZ_is_Some ws (i / 64)) as [w Hw]; [Z.div_mod_to_equations; lia|].
    exists w. rewrite Forall_forall in Hf.
    assert (0 ≤ w < 2 ^ 64).
    { apply Hf, (list_elem_of_lookup_2 _ (Z.to_nat (i / 64))). unfold nthZ in Hw.
      by destruct (0 <=? i / 64). }
    split_and!; (done || lia).
Qed.

Lemma get_put_word r uid w w' k :
  get_word r uid = Some w → get_word (put_word r uid w') k = if k =? uid then Some w' else get_word r k.
Proof.
  unfold get_word, put_word. destruct (rb_bits r) as [v|ws]; simpl.
  - destruct (Z.eqb_spec uid 0) as [->|]; [|done]. intros _. by destruct (k =? 0).
  - intros Hw. apply nthZ_Some in Hw. rewrite nthZ_updZ by done.
    case_decide as Hd; destruct (Z.eqb_spec k uid); congruence.
Qed.

Lemma rb_used_word r uid w idx :
  get_word r uid = Some w → 0 ≤ idx < 64 → rb_used r (uid * 64 + idx) = Z.testbit w idx.
Proof.
  intros Hw Hi. unfold rb_used.
  replace ((uid * 64 + idx) / 64) with uid by (Z.div_mod_to_equations; lia).
  replace ((uid * 64 + idx) mod 64) with idx by (Z.div_mod_to_equations; lia). by rewrite Hw.
Qed.

Lemma put_word_used r uid w w' idx b j :
  get_word r uid = Some w → 0 ≤ idx < 64 →
  (∀ k, 0 ≤ k < 64 → Z.testbit w' k = if decide (idx = k) then b else Z.testbit w k) →
  rb_used (put_word r uid w') j = if decide (j = uid * 64 + idx) then b else rb_used r j.
Proof.
  intros Hw Hi Hb. unfold rb_used. rewrite (get_put_word r uid w) by done.
  pose proof (Z.mod_pos_bound j 64). destruct (Z.eqb_spec (j / 64) uid) as [He|Hne].
  - simpl. rewrite Hb by lia. rewrite He, Hw. simpl.
    assert (idx = j mod 64 ↔ j = uid * 64 + idx) by (split; intros; Z.div_mod_to_equations; lia).
    do 2 case_decide; tauto.
  - rewrite decide_False; [done|]. intros ->. apply Hne. Z.div_mod_to_equations; lia.
Qed.

Lemma take_bit_used r uid w idx j :
  get_word r uid = Some w → 0 ≤ idx < 64 →
  rb_used (take_bit r uid idx w) j = if decide (j = uid * 64 + idx) then true else rb_used r j.
Proof.
  intros Hw Hi. apply (put_word_used r uid w); [done|done|]. intros k Hk.
  rewrite set_bit_testbit by lia. case_decide as Hd.
  - by rewrite bool_decide_true, orb_true_r.
  - by rewrite bool_decide_false, orb_false_r.
Qed.

Lemma drop_bit_used r uid w idx j :
  get_word r uid = Some w → 0 ≤ w < 2 ^ 64 → 0 ≤ idx < 64 →
  rb_used (drop_bit r uid idx w) j = if decide (j = uid * 64 + idx) then false else rb_used r j.
Proof.
  intros Hw Hwr Hi. apply (put_word_used r uid w); [done|done|]. intros k Hk.
  rewrite clear_bit_testbit by lia. case_decide as Hd.
  - by rewrite bool_decide_true, andb_false_r.
  - by rewrite bool_decide_false, andb_true_r.
Qed.

Lemma wf_store_put r uid w w' :
  wf_store (rb_count r) (rb_bits r) → get_word r uid = Some w → 0 ≤ w' < 2 ^ 64 →
  wf_store (rb_count r) (rb_bits (put_word r uid w')).
Proof.
  unfold put_word. destruct (rb_bits r) as [v|ws]; simpl; [tauto|].
  intros (Hc & Hl & Hf) Hw Hr. split_and!; [done|by rewrite lenZ_updZ|]. by apply Forall_updZ.
Qed.

Lemma used_count_flip r r' i b :
  rb_count r' = rb_count r → 0 ≤ i < rb_count r → rb_used r i = negb b →
  (∀ j, rb_used r' j = if decide (j = i) then b else rb_used r j) →
  used_count r' = if b then used_count r + 1 else used_count r - 1.
Proof.
  intros Hc Hi Hb Hu. unfold used_count, lenZ. rewrite Hc.
  assert (i ∈ seqZ 0 (rb_count r)) by (apply elem_of_seqZ; lia).
  assert (rb_used r' i = b) by (rewrite Hu; by rewrite decide_True).
  assert (∀ j, j ≠ i → rb_used r' j = rb_used r j) by (intros; rewrite Hu; by rewrite decide_False).
  destruct b; simpl in *.
  - rewrite (filter_flip_count (rb_used r) (rb_used r') _ i);
      [lia|apply NoDup_seqZ|done|done|done|]. intros. symmetry. auto.
  - rewrite (filter_flip_count (rb_used r') (rb_used r) _ i);
      [lia|apply NoDup_seqZ|done|done|done|auto].
Qed.

Lemma used_count_bounds r : 0 ≤ rb_count r → 0 ≤ used_count r ≤ rb_count r.
Proof.
  intros Hc. unfold used_count, lenZ. pose proof (length_filter (λ j, rb_used r j = true) (seqZ 0 (rb_count r))) as Hl.
  rewrite length_seqZ in Hl. lia.
Qed.

Lemma filter_negb_length (f : Z → bool) (l : list Z) :
  lenZ (filter (λ j, negb (f j) = true) l) + lenZ (filter (λ j, f j = true) l) = lenZ l.
Proof.
  unfold lenZ. induction l as [|x l IH]; [done|]. rewrite !filter_cons.
  destruct (f x); simpl; repeat case_decide; simpl in *; try done; lia.
Qed.

(** The number of free regions complements [alloc_]. *)
Lemma free_used_count r : 0 ≤ rb_count r → lenZ (free_list r) = rb_count r - used_count r.
Proof.
  intros Hc. unfold free_list, free_from, used_count. rewrite Z.sub_0_r.
  pose proof (filter_negb_length (rb_used r) (seqZ 0 (rb_count r))) as Hl.
  assert (lenZ (seqZ 0 (rb_count r)) = rb_count r); [|lia].
  unfold lenZ. rewrite length_seqZ. lia.
Qed.

Lemma take_bit_wf r uid w idx :
  wf_rb r → get_word r uid = Some w → 0 ≤ w < 2 ^ 64 → 0 ≤ idx < 64 → 0 ≤ uid →
  uid * 64 + idx < rb_count r → Z.testbit w idx = false →
  wf_rb (take_bit r uid idx w) ∧ rb_alloc (take_bit r uid idx w) = rb_alloc r + 1.
Proof.
  intros (Hc & Hs & Hb & Ha) Hw Hwr Hi Hu Hlt Hfree.
  assert (used_count (take_bit r uid idx w) = used_count r + 1) as Hcount.
  { apply (used_count_flip r (take_bit r uid idx w) (uid * 64 + idx) true); [done|lia| |].
    - by rewrite (rb_used_word r uid w).
    - intros j. by apply take_bit_used. }
  assert (rb_alloc (take_bit r uid idx w) = rb_alloc r + 1) as Hal.
  { simpl. apply u16_small. pose proof (used_count_bounds r). 
    pose proof (used_count_bounds (take_bit r uid idx w)) as Hb'. simpl in Hb'. lia. }
  split; [|done]. split_and!; [apply Hc|apply Hc| | |by rewrite Hal, Hcount, Ha].
  - apply (wf_store_put r uid w); auto with slab.
  - intros j Hj. rewrite (take_bit_used r uid w) by done.
    rewrite decide_False; [by apply Hb|]. simpl in Hj. lia.
Qed.

Lemma drop_bit_wf r uid w idx :
  wf_rb r → get_word r uid = Some w → 0 ≤ w < 2 ^ 64 → 0 ≤ idx < 64 → 0 ≤ uid →
  uid * 64 + idx < rb_count r → Z.testbit w idx = true →
  wf_rb (drop_bit r uid idx w) ∧ rb_alloc (drop_bit r uid idx w) = rb_alloc r - 1.
Proof.
  intros (Hc & Hs & Hb & Ha) Hw Hwr Hi Hu Hlt Hfree.
  assert (used_count (drop_bit r uid idx w) = used_count r - 1) as Hcount.
  { apply (used_count_flip r (drop_bit r uid idx w) (uid * 64 + idx) false); [done|lia| |].
    - by rewrite (rb_used_word r uid w).
    - intros j. by apply drop_bit_used. }
  assert (rb_alloc (drop_bit r uid idx w) = rb_alloc r - 1) as Hal.
  { simpl. apply u16_small. pose proof (used_count_bounds r).
    pose proof (used_count_bounds (drop_bit r uid idx w)) as Hb'. simpl in Hb'. lia. }
  split; [|done]. split_and!; [apply Hc|apply Hc| | |by rewrite Hal, Hcount, Ha].
  - apply (wf_store_put r uid w); auto with slab.
  - intros j Hj. rewrite (drop_bit_used r uid w) by done.
    rewrite decide_False; [by apply Hb|]. simpl in Hj. lia.
Qed.

(** In a run of at most 64 regions [alloc_] is the population count. *)
Lemma small_run_popcount r w :
  wf_rb r → rb_count r ≤ 64 → get_word r 0 = Some w → popcount w = rb_alloc r.
Proof.
  intros (Hc & Hs & Hb & Ha) Hc64 Hw.
  assert (0 ≤ w < 2 ^ 64) as Hwr.
  { unfold get_word in Hw. destruct (rb_bits r); simpl in Hs; [|lia].
    simpl in Hw. injection Hw as <-. apply Hs. }
  rewrite Ha, popcount_spec by done. unfold used_count, bits_of. f_equal.
  replace 64 with (rb_count r + (64 - rb_count r)) at 1 by lia.
  rewrite (seqZ_app 0) by lia. rewrite filter_app.
  rewrite (filter_none (Z.testbit w) (seqZ (0 + rb_count r) _)).
  - rewrite app_nil_r. apply filter_ext_in. intros j Hj. apply elem_of_seqZ in Hj.
    rewrite <-(rb_used_word r 0 w) by (done || lia). f_equal.
  - intros j Hj. apply elem_of_seqZ in Hj. rewrite <-(rb_used_word r 0 w) by (done || lia).
    apply Hb. lia.
Qed.

(** The token of a region, when the meta agrees with the bitmap. *)
Lemma locate_token_ok r idx type (s : pst) :
  meta_matches (mem s) type r → idx < rb_count r →
  locate_token r idx type s = Ok (token_of type (rb_meta r) idx) s.
Proof.
  intros Hm Hi. unfold locate_token, ld_small, ld_med, ld_desc, mgets, mbind, M_bind, massert.
  destruct type; simpl in Hm; try done.
  - destruct Hm as [-> Hc]. rewrite Z.eqb_refl. unfold SmallMeta_token, mbind, M_bind, massert.
    rewrite Hc. by rewrite (proj2 (Z.ltb_lt _ _)).
  - destruct Hm as [-> Hc]. rewrite Z.eqb_refl. unfold MediumMeta_token, mbind, M_bind, massert.
    rewrite Hc. by rewrite (proj2 (Z.ltb_lt _ _)).
  - destruct Hm as (-> & Hc & Ht). rewrite Z.eqb_refl. simpl.
    unfold ExtentDesc_token, mbind, M_bind, massert. rewrite Hc, Ht.
    by rewrite (proj2 (Z.ltb_lt _ _)).
Qed.

(** The operations keep the parameters of the run. *)
Definition same_run (r r' : RunBits) : Prop :=
  rb_size r' = rb_size r ∧ rb_count r' = rb_count r ∧ rb_meta r' = rb_meta r ∧
  rb_objs r' = rb_objs r.

(** [r'] is [r] with the regions [idxs] taken. *)
Definition taken (r r' : RunBits) (idxs : list Z) : Prop :=
  wf_rb r' ∧ same_run r r' ∧ rb_alloc r' = rb_alloc r + lenZ idxs ∧
  ∀ j, rb_used r' j = rb_used r j || bool_decide (j ∈ idxs).

Lemma taken_refl r : wf_rb r → taken r r [].
Proof.
  intros Hwf. split_and!; [done|done| |].
  - unfold lenZ. simpl. lia.
  - intros j. rewrite bool_decide_false by set_solver. by rewrite orb_false_r.
Qed.

Lemma taken_trans r r1 r2 l1 l2 : taken r r1 l1 → taken r1 r2 l2 → taken r r2 (l1 ++ l2).
Proof.
  intros (_ & (?&?&?&?) & Ha & Hu) (Hwf & (?&?&?&?) & Ha2 & Hu2).
  split_and!; [done|repeat split; congruence| |].
  - rewrite lenZ_app. lia.
  - intros j. rewrite Hu2, Hu, <-orb_assoc. f_equal.
    destruct (bool_decide_reflect (j ∈ l1)), (bool_decide_reflect (j ∈ l2)); simpl; symmetry;
      try (apply bool_decide_eq_true; set_solver). apply bool_decide_eq_false. set_solver.
Qed.

Lemma region_of_same type r r' i : same_run r r' → region_of type r' i = region_of type r i.
Proof. intros (H1 & H2 & H3 & H4). unfold region_of. congruence. Qed.

Lemma meta_matches_same p type r r' :
  same_run r r' → meta_matches p type r → meta_matches p type r'.
Proof. intros (H1 & H2 & H3 & H4). unfold meta_matches. by rewrite H1, H2, H3. Qed.

Lemma take_bit_taken r uid w idx :
  wf_rb r → get_word r uid = Some w → 0 ≤ w < 2 ^ 64 → 0 ≤ idx < 64 → 0 ≤ uid →
  uid * 64 + idx < rb_count r → Z.testbit w idx = false →
  taken r (take_bit r uid idx w) [uid * 64 + idx].
Proof.
  intros Hwf Hw Hwr Hi Hu Hlt Hb. destruct (take_bit_wf r uid w idx) as [Hwf' Ha]; try done.
  split_and!; [done|done|by rewrite Ha|]. intros j. rewrite (take_bit_used r uid w) by done.
  case_decide as Hd.
  - rewrite bool_decide_true by set_solver. by rewrite orb_true_r.
  - rewrite bool_decide_false by set_solver. by rewrite orb_false_r.
Qed.

(** The number of regions of word [uid]. *)
Definition unit_size r uid : Z := Z.min 64 (rb_count r - uid * 64).
Definition unit_free r uid : list Z :=
  filter (λ j, negb (rb_used r j) = true) (seqZ (uid * 64) (unit_size r uid)).

(** The least zero bit of a word is its first free region, if it has one. *)
Lemma unit_free_head r uid :
  wf_rb r → 0 ≤ uid → uid * 64 < rb_count r →
  ∃ w, get_word r uid = Some w ∧ 0 ≤ w < 2 ^ 64 ∧
  ((unit_free r uid = [] ∧
    (index_least0 w = unit_size r uid ∨ index_least0 w = -1)) ∨
   (0 ≤ index_least0 w < unit_size r uid ∧ Z.testbit w (index_least0 w) = false ∧
    unit_free r uid = uid * 64 + index_least0 w :: unit_free (take_bit r uid (index_least0 w) w) uid)).
Proof.
  intros Hwf Hu Hlt. destruct (wf_word r (uid * 64)) as (w & Hw & Hwr & _); [done|lia|].
  rewrite Z.div_mul in Hw by lia. exists w. split; [done|]. split; [done|].
  assert (∀ i, 0 ≤ i < 64 → rb_used r (uid * 64 + i) = Z.testbit w i) as Hbit
    by (intros; by apply rb_used_word).
  assert (0 < unit_size r uid ≤ 64) as Hsz by (unfold unit_size; lia).
  destruct (decide (w = 2 ^ 64 - 1)) as [->|Hne].
  { left. split; [|right; apply index_least0_full].
    apply filter_none. intros j Hj. apply elem_of_seqZ in Hj. apply negb_false_iff.
    replace j with (uid * 64 + (j - uid * 64)) by lia. rewrite Hbit by lia.
    change (2 ^ 64 - 1) with (Z.ones 64). apply Z.ones_spec_low. lia. }
  destruct (index_least0_spec w) as (H1 & H2 & H3); [lia|].
  destruct (decide (index_least0 w < unit_size r uid)) as [Hin|Hout].
  - right. split; [lia|]. split; [done|]. unfold unit_free at 1.
    rewrite (seqZ_split _ _ (index_least0 w)) by lia.
    rewrite filter_app, filter_cons, decide_True by (by rewrite Hbit, H2 by lia).
    rewrite (filter_none (λ j, negb (rb_used r j))); last first.
    { intros j Hj. apply elem_of_seqZ in Hj. apply negb_false_iff.
      replace j with (uid * 64 + (j - uid * 64)) by lia. rewrite Hbit by lia. apply H3. lia. }
    simpl. f_equal. unfold unit_free. change (unit_size (take_bit _ _ _ _) uid) with (unit_size r uid).
    rewrite (seqZ_split _ (unit_size r uid) (index_least0 w)) by lia.
    rewrite filter_app, filter_cons, decide_False; last first.
    { rewrite (take_bit_used r uid w) by done. by rewrite decide_True. }
    rewrite (filter_none (λ j, negb (rb_used (take_bit _ _ _ _) j))); last first.
    { intros j Hj. apply elem_of_seqZ in Hj. apply negb_false_iff.
      rewrite (take_bit_used r uid w) by done. case_decide; [done|].
      replace j with (uid * 64 + (j - uid * 64)) by lia. rewrite Hbit by lia. apply H3. lia. }
    simpl. apply filter_ext_in. intros j Hj. apply elem_of_seqZ in Hj. f_equal.
    rewrite (take_bit_used r uid w) by done. rewrite decide_False; [done|lia].
  - left. split.
    + apply filter_none. intros j Hj. apply elem_of_seqZ in Hj. apply negb_false_iff.
      replace j with (uid * 64 + (j - uid * 64)) by lia. rewrite Hbit by lia. apply H3. lia.
    + left. unfold unit_size in *. apply index_least0_unique; [done|lia| |].
      * rewrite <-Hbit by lia. apply Hwf. lia.
      * intros j Hj. apply H3. lia.
Qed.

(** [fill_unit] takes the first free regions of its word. *)
Lemma fill_unit_ok fuel uid type restock r regions (s : pst) :
  wf_rb r → meta_matches (mem s) type r → 0 ≤ uid → uid * 64 < rb_count r →
  Z.max 0 (restock - lenZ regions) < Z.of_nat fuel →
  ∃ r', let idxs := take (Z.to_nat (restock - lenZ regions)) (unit_free r uid) in
    fill_unit fuel uid (unit_size r uid) type restock r regions s =
      Ok (r', regions ++ (region_of type r <$> idxs)) s ∧ taken r r' idxs.
Proof.
  revert r regions. induction fuel as [|fuel IH]; intros r regions Hwf Hm Hu Hlt Hfuel.
  { lia. }
  simpl. destruct (Z.ltb_spec (lenZ regions) restock) as [Hlen|Hlen]; last first.
  { exists r. replace (Z.to_nat (restock - lenZ regions)) with O by lia. simpl.
    rewrite app_nil_r. split; [done|by apply taken_refl]. }
  destruct (unit_free_head r uid) as (w & Hw & Hwr & [[Hf Hi]|(Hi & Hb & Hf)]); [done..| |].
  - exists r. rewrite Hf, take_nil. simpl. rewrite app_nil_r, Hw.
    split; [|by apply taken_refl]. unfold mderef, mbind, M_bind, mret, M_ret.
    destruct Hi as [->| ->]; [by rewrite Z.eqb_refl|by rewrite orb_true_r].
  - set (idx := index_least0 w) in *. assert (unit_size r uid ≤ 64) by (unfold unit_size; lia).
    assert (uid * 64 + idx < rb_count r) by (unfold unit_size in Hi; lia).
    destruct (IH (take_bit r uid idx w) (regions ++ [region_of type r (uid * 64 + idx)]))
      as (r' & Hrun & Ht); [|done|done|done| |].
    { by apply take_bit_wf; try done; lia. }
    { rewrite lenZ_app. unfold lenZ at 2. simpl. lia. }
    change (unit_size (take_bit r uid idx w) uid) with (unit_size r uid) in Hrun.
    exists r'. rewrite Hf. replace (Z.to_nat (restock - lenZ regions))
      with (S (Z.to_nat (restock - lenZ (regions ++ [region_of type r (uid * 64 + idx)])))); last first.
    { rewrite lenZ_app. unfold lenZ at 2. simpl. lia. }
    simpl. rewrite Hw. unfold mderef, mbind, M_bind, mret at 1, M_ret at 1. fold idx.
    rewrite (proj2 (Z.eqb_neq idx (unit_size r uid))), (proj2 (Z.eqb_neq idx (-1))) by lia.
    cbv beta iota delta [orb]. change kUnitBits with 64. rewrite locate_token_ok by done.
    split.
    + unfold region_of in Hrun at 1. rewrite Hrun. f_equal. f_equal.
      rewrite <-app_assoc. simpl. f_equal.
    + change (uid * 64 + idx :: ?l) with ([uid * 64 + idx] ++ l).
      eapply taken_trans; [|exact Ht]. apply take_bit_taken; try done; lia.
Qed.

(** The free regions of word [uid] come first among those from word [uid] on. *)
Lemma free_from_unit r uid :
  0 ≤ uid → uid * 64 < rb_count r →
  free_from r (uid * 64) =
    unit_free r uid ++ (if rb_count r <=? (uid + 1) * 64 then [] else free_from r ((uid + 1) * 64)).
Proof.
  intros Hu Hlt. unfold free_from, unit_free, unit_size. destruct (Z.leb_spec (rb_count r) ((uid + 1) * 64)).
  - rewrite app_nil_r. do 2 f_equal. lia.
  - rewrite Z.min_l by lia. replace (rb_count r - uid * 64) with (64 + (rb_count r - (uid + 1) * 64)) by lia.
    rewrite seqZ_app by lia. rewrite filter_app. do 3 f_equal. lia.
Qed.

Lemma free_from_taken r r' uid idxs :
  taken r r' idxs → (∀ j, j ∈ idxs → j < uid * 64) →
  free_from r' (uid * 64) = free_from r (uid * 64).
Proof.
  intros (_ & (_ & Hc & _) & _ & Hu) Hi. unfold free_from. rewrite Hc.
  apply filter_ext_in. intros j Hj. apply elem_of_seqZ in Hj. rewrite Hu.
  rewrite bool_decide_false; [by rewrite orb_false_r|]. intros Hin%Hi. lia.
Qed.

(** [fill_units] takes the first free regions from its word on. *)
Lemma fill_units_ok fuel uid type restock r regions (s : pst) :
  let unit := (rb_count r + 63) / 64 in
  wf_rb r → meta_matches (mem s) type r → 0 ≤ uid < unit → unit - uid ≤ Z.of_nat fuel →
  ∃ r', let idxs := take (Z.to_nat (restock - lenZ regions)) (free_from r (uid * 64)) in
    fill_units fuel unit uid (unit_size r uid) type restock r regions s =
      Ok (r', regions ++ (region_of type r <$> idxs)) s ∧ taken r r' idxs.
Proof.
  intros unit. revert uid r regions unit. induction fuel as [|fuel IH];
    intros uid r regions unit Hwf Hm Hu Hfuel; [lia|]. simpl.
  destruct (Z.ltb_spec (lenZ regions) restock) as [Hlen|Hlen]; last first.
  { exists r. replace (Z.to_nat (restock - lenZ regions)) with O by lia. simpl.
    rewrite app_nil_r. split; [done|by apply taken_refl]. }
  assert (uid * 64 < rb_count r) as Hlt by (subst unit; Z.div_mod_to_equations; lia).
  destruct (fill_unit_ok (Z.to_nat (restock - lenZ regions) + 1) uid type restock r regions s)
    as (r1 & Hrun & Ht); [done|done|lia|done|lia|].
  set (n := Z.to_nat (restock - lenZ regions)) in *.
  set (idxs1 := take n (unit_free r uid)) in *.
  unfold mbind, M_bind. rewrite Hrun. rewrite (free_from_unit r uid) by lia.
  assert (same_run r r1) as Hsame by apply Ht. assert (rb_count r1 = rb_count r) as Hc1 by apply Hsame.
  destruct (Z.leb_spec unit (uid + 1)) as [Hlast|Hmore].
  - exists r1. rewrite (proj2 (Z.leb_le (rb_count r) _)) by (subst unit; Z.div_mod_to_equations; lia).
    rewrite app_nil_r. split; [done|exact Ht].
  - assert ((uid + 1) * 64 < rb_count r) by (subst unit; Z.div_mod_to_equations; lia).
    rewrite (proj2 (Z.leb_gt (rb_count r) _)) by lia.
    assert ((if uid + 1 =? unit - 1 then rb_count r1 - (uid + 1) * kUnitBits
             else unit_size r uid) = unit_size r1 (uid + 1)) as ->.
    { change kUnitBits with 64. unfold unit_size. rewrite Hc1.
      destruct (Z.eqb_spec (uid + 1) (unit - 1)); subst unit; Z.div_mod_to_equations; lia. }
    destruct (IH (uid + 1) r1 (regions ++ (region_of type r <$> idxs1))) as (r2 & Hrun2 & Ht2).
    { apply Ht. }
    { eapply meta_matches_same; [|done]. done. }
    { rewrite Hc1. fold unit. lia. }
    { rewrite Hc1. fold unit. lia. }
    rewrite Hc1 in Hrun2. fold unit in Hrun2.
    set (n2 := Z.to_nat (restock - lenZ (regions ++ (region_of type r <$> idxs1)))) in *.
    assert (n2 = (n - length (unit_free r uid))%nat) as Hn2.
    { subst n2 n idxs1. rewrite lenZ_app. unfold lenZ. rewrite length_fmap, length_take. lia. }
    rewrite (free_from_taken r r1 (uid + 1) idxs1) in Hrun2, Ht2; [|done| |done|].
    2-3: intros j Hj; subst idxs1; apply elem_of_take in Hj as (k & Hk & _);
         apply list_elem_of_lookup_2 in Hk; unfold unit_free in Hk;
         apply list_elem_of_filter in Hk as [_ Hk]; apply elem_of_seqZ in Hk;
         unfold unit_size in Hk; lia.
    exists r2. rewrite take_app, <-Hn2. split; [|by eapply taken_trans].
    rewrite Hrun2. f_equal. f_equal. rewrite fmap_app, app_assoc. f_equal.
    apply list_fmap_ext. intros k x _. by apply region_of_same.
Qed.

(** [r'] is [r] with the region [i] given back. *)
Definition given_back (r r' : RunBits) (i : Z) : Prop :=
  wf_rb r' ∧ same_run r r' ∧ rb_alloc r' = rb_alloc r - 1 ∧
  ∀ j, rb_used r' j = rb_used r j && negb (bool_decide (j = i)).

Lemma drop_bit_given r i w :
  wf_rb r → 0 ≤ i < rb_count r → get_word r (i / 64) = Some w → 0 ≤ w < 2 ^ 64 →
  rb_used r i = true → given_back r (drop_bit r (i / 64) (i mod 64) w) i.
Proof.
  intros Hwf Hi Hw Hwr Hu. pose proof (Z.mod_pos_bound i 64).
  assert (i / 64 * 64 + i mod 64 = i) as He by (Z.div_mod_to_equations; lia).
  destruct (drop_bit_wf r (i / 64) w (i mod 64)) as [Hwf' Ha]; try done; try lia.
  { rewrite <-(rb_used_word r (i / 64)) by (done || lia). by rewrite He. }
  split_and!; [done|done|done|]. intros j. rewrite (drop_bit_used r (i / 64) w) by (done || lia).
  rewrite He. case_decide as Hd.
  - rewrite bool_decide_true by done. by rewrite andb_false_r.
  - rewrite bool_decide_false by done. by rewrite andb_true_r.
Qed.

Lemma used_bit r i w :
  get_word r (i / 64) = Some w → 0 ≤ i → rb_used r i = Z.testbit w (i mod 64).
Proof. intros Hw Hi. unfold rb_used. by rewrite Hw. Qed.

(** The bitmap that the constructor builds, when it is an array. *)
Lemma new_heap_ok size count meta objs empty :
  64 < count < 2 ^ 16 →
  let r := RunBits_new size count meta objs empty in
  wf_store count (rb_bits r) ∧ ∀ i, rb_used r i = empty && bool_decide (0 ≤ i < count).
Proof.
  intros [Hgt Hc] r. unfold rb_used, get_word. subst r. simpl. unfold kUnitBits.
  rewrite (proj2 (Z.ltb_lt 64 count)) by done.
  destruct (roundup_spec count 6) as [Hm Hr]; [lia|lia|change (2 ^ 6) with 64; lia|]. change (2 ^ 6) with 64 in Hm, Hr.
  assert (roundup count 64 / 8 / 8 = (count + 63) / 64) as ->.
  { rewrite Z.div_div by lia. change (8 * 8) with 64. Z.div_mod_to_equations; lia. }
  set (n := Z.to_nat ((count + 63) / 64)).
  assert (Z.of_nat n = (count + 63) / 64) as Hn by (subst n; Z.div_mod_to_equations; lia).
  assert (∀ x i : Z, nthZ (replicate n x) (i / 64) =
                 if bool_decide (0 ≤ i < Z.of_nat n * 64) then Some x else None) as Hrep.
  { intros x i. case_bool_decide.
    - apply nthZ_replicate. Z.div_mod_to_equations; lia.
    - destruct (nthZ (replicate n x) (i / 64)) eqn:E; [|done]. apply nthZ_Some in E.
      rewrite lenZ_replicate in E. Z.div_mod_to_equations; lia. }
  destruct (Z.eqb_spec (count mod 64) 0) as [Hm0|Hm0]; simpl.
  + rewrite andb_false_r. split.
    * simpl. rewrite lenZ_replicate. split_and!; [done|done|]. apply Forall_replicate.
      destruct empty; lia.
    * intros i. rewrite Hrep.
      assert (Z.of_nat n * 64 = count) as -> by (Z.div_mod_to_equations; lia).
      pose proof (Z.mod_pos_bound i 64). case_bool_decide; simpl.
      -- destruct empty; [|by rewrite Z.bits_0]. change (2 ^ 64 - 1) with (Z.ones 64).
         by rewrite Z.ones_spec_low by lia.
      -- rewrite Z.bits_0. by rewrite andb_false_r.
  + rewrite andb_true_r. destruct empty; simpl.
    * assert (0 ≤ count mod 64 < 64) by (apply Z.mod_pos_bound; lia).
      assert (0 ≤ bit (count mod 64) - 1 < 2 ^ 64).
      { unfold bit. rewrite Z.shiftl_1_l. assert (0 < 2 ^ (count mod 64)) by (apply Z.pow_pos_nonneg; lia).
        assert (2 ^ (count mod 64) ≤ 2 ^ 63) by (apply Z.pow_le_mono_r; lia). lia. }
      split.
      { simpl. rewrite lenZ_updZ, lenZ_replicate. split_and!; [done|done|].
        apply Forall_updZ; [|done]. apply Forall_replicate. lia. }
      intros i. pose proof (Z.mod_pos_bound i 64).
      rewrite nthZ_updZ by (rewrite lenZ_replicate; Z.div_mod_to_equations; lia).
      case_decide as Hd; simpl.
      -- rewrite ones_testbit by lia. apply bool_decide_ext. Z.div_mod_to_equations; lia.
      -- rewrite Hrep. case_bool_decide as Hin; simpl.
         ++ change (2 ^ 64 - 1) with (Z.ones 64). rewrite Z.ones_spec_low by lia.
            symmetry. apply bool_decide_eq_true. Z.div_mod_to_equations; lia.
         ++ rewrite Z.bits_0. symmetry. apply bool_decide_eq_false. Z.div_mod_to_equations; lia.
    * split.
      { simpl. rewrite lenZ_replicate. split_and!; [done|done|]. apply Forall_replicate. lia. }
      intros i. rewrite Hrep. by case_bool_decide; simpl; rewrite Z.bits_0.
Qed.

(** The bitmap that the constructor builds, when it is a word. *)
Lemma new_word_ok size count meta objs empty :
  0 < count ≤ 64 →
  let r := RunBits_new size count meta objs empty in
  wf_store count (rb_bits r) ∧ ∀ i, rb_used r i = empty && bool_decide (0 ≤ i < count).
Proof.
  intros Hc r. unfold rb_used, get_word. subst r. simpl. unfold kUnitBits.
  rewrite (proj2 (Z.ltb_ge 64 count)) by lia.
  destruct empty; simpl.
  + destruct (Z.eqb_spec count 64) as [->|Hne].
    * split; [simpl; vm_compute; intuition congruence|]. intros i.
      pose proof (Z.mod_pos_bound i 64). change (u64 (Z.lnot 0)) with (Z.ones 64).
      destruct (Z.eqb_spec (i / 64) 0); simpl.
      -- rewrite Z.ones_spec_low by lia. symmetry. apply bool_decide_eq_true.
         Z.div_mod_to_equations; lia.
      -- rewrite Z.bits_0. symmetry. apply bool_decide_eq_false. Z.div_mod_to_equations; lia.
    * split.
      { simpl. split; [lia|]. unfold bit. rewrite Z.shiftl_1_l.
        assert (0 < 2 ^ count) by (apply Z.pow_pos_nonneg; lia).
        assert (2 ^ count ≤ 2 ^ 63) by (apply Z.pow_le_mono_r; lia). lia. }
      intros i. pose proof (Z.mod_pos_bound i 64). destruct (Z.eqb_spec (i / 64) 0); simpl.
      -- rewrite ones_testbit by lia. apply bool_decide_ext. Z.div_mod_to_equations; lia.
      -- rewrite Z.bits_0. symmetry. apply bool_decide_eq_false. Z.div_mod_to_equations; lia.
  + split; [simpl; lia|]. intros i. destruct (i / 64 =? 0); simpl; by rewrite Z.bits_0.
Qed.

(** The constructor, for both sizes of bitmap and both initial states. *)
Lemma RunBits_new_ok size count meta objs empty :
  0 < count < 2 ^ 16 →
  let r := RunBits_new size count meta objs empty in
  wf_rb r ∧ rb_size r = u32 size ∧ rb_count r = count ∧ rb_meta r = meta ∧ rb_objs r = objs ∧
  rb_alloc r = (if empty then count else 0) ∧ ∀ i, 0 ≤ i < count → rb_used r i = empty.
Proof.
  intros Hc r. assert (rb_count r = count) as Hrc by (apply u16_small; lia).
  assert (rb_alloc r = if empty then count else 0) as Hra by (destruct empty; apply u16_small; lia).
  assert (wf_store count (rb_bits r) ∧ ∀ i, rb_used r i = empty && bool_decide (0 ≤ i < count))
    as [Hst Hu] by (destruct (decide (64 < count)); [apply new_heap_ok|apply new_word_ok]; lia).
  assert (∀ i, 0 ≤ i < count → rb_used r i = empty) as Hin.
  { intros i Hi. rewrite Hu, bool_decide_true by done. apply andb_true_r. }
  split_and!; try done. unfold wf_rb. rewrite Hrc. split_and!; [lia|lia|done| |].
  - intros i Hi. rewrite Hu, bool_decide_false by lia. apply andb_false_r.
  - rewrite Hra. unfold used_count. rewrite Hrc. destruct empty.
    + rewrite filter_all; [unfold lenZ; rewrite length_seqZ; lia|].
      intros x Hx%elem_of_seqZ. apply Hin. lia.
    + rewrite filter_none; [done|]. intros x Hx%elem_of_seqZ. apply Hin. lia.
Qed.

Lemma same_run_trans r1 r2 r3 : same_run r1 r2 → same_run r2 r3 → same_run r1 r3.
Proof. unfold same_run. intuition congruence. Qed.

(** One iteration of [reload]. *)
Lemma reload_step_ok r token t b ind (s : pst) :
  wf_rb r → 0 ≤ ind < rb_count r → (∀ j, ind ≤ j → rb_used r j = false) →
  token ind s = Ok t s → token_byte (mem s) t = Some b →
  ∃ r', reload_step token ind r s = Ok r' s ∧ wf_rb r' ∧ same_run r r' ∧
        ∀ j, rb_used r' j = rb_used r j || (bool_decide (j = ind) && token_busy b).
Proof.
  intros Hwf Hi Hfree Ht Hb. destruct (wf_word r ind Hwf Hi) as (w & Hw & Hwr & Hm).
  unfold reload_step. change kUnitBits with 64.
  assert ((if 64 <? rb_count r then ind / 64 else 0) = ind / 64) as ->.
  { destruct (Z.ltb_spec 64 (rb_count r)); [done|]. Z.div_mod_to_equations; lia. }
  assert ((if 64 <? rb_count r then ind mod 64 else ind) = ind mod 64) as ->.
  { destruct (Z.ltb_spec 64 (rb_count r)); [done|]. Z.div_mod_to_equations; lia. }
  assert (ind = ind / 64 * 64 + ind mod 64) as He by (Z.div_mod_to_equations; lia).
  assert (∀ s : pst, (if 64 <? rb_count r then massert (negb (ind mod 64 =? 0) || (w =? 0))
           else mret tt) s = Ok tt s) as Ha.
  { intros s'. destruct (64 <? rb_count r); [|done].
    destruct (Z.eqb_spec (ind mod 64) 0) as [Hz|]; [|done].
    assert (w = 0) as ->; [|done]. apply Z.bits_inj_0. intros k.
    destruct (decide (0 ≤ k < 64)).
    - rewrite <-(rb_used_word r (ind / 64)) by done. apply Hfree. lia.
    - destruct (decide (k < 0)); [by apply Z.testbit_neg_r|]. apply (testbit_above w 64); lia. }
  rewrite Hw. unfold mbind, M_bind, mderef, mret, M_ret in *. rewrite Ha, Ht.
  unfold ld_token, mbind, M_bind, mgets. rewrite Hb. simpl. eexists. split; [reflexivity|].
  destruct (token_busy b).
  - destruct (take_bit_wf r (ind / 64) w (ind mod 64)) as [Hwf' _]; try done; try lia.
    { rewrite <-(rb_used_word r (ind / 64)), <-He by done. by apply Hfree. }
    split_and!; [done|done|]. intros j. rewrite (take_bit_used r (ind / 64) w) by done.
    rewrite <-He, andb_true_r. case_decide as Hd.
    + by rewrite bool_decide_true, orb_true_r.
    + by rewrite bool_decide_false, orb_false_r.
  - split_and!; [done|done|]. intros j. by rewrite andb_false_r, orb_false_r.
Qed.

(** [alloc_ == 0]: no region is taken. *)
Lemma alloc_full_used r j :
  wf_rb r → rb_alloc r = rb_count r → 0 ≤ j < rb_count r → rb_used r j = true.
Proof.
  intros (Hc & _ & _ & Ha) Hf Hj. apply not_false_is_true. intros Hu.
  pose proof (filter_negb_length (rb_used r) (seqZ 0 (rb_count r))) as Hl.
  assert (j ∈ filter (λ j, negb (rb_used r j) = true) (seqZ 0 (rb_count r))) as Hin.
  { apply list_elem_of_filter. rewrite Hu. split; [done|]. apply elem_of_seqZ. lia. }
  apply list_elem_of_split in Hin as (l1 & l2 & E). rewrite E in Hl.
  unfold used_count, lenZ in *. rewrite length_app, length_seqZ in Hl. simpl in Hl. lia.
Qed.

Lemma alloc_zero_free r : wf_rb r → rb_alloc r = 0 → ∀ j, rb_used r j = false.
Proof.
  intros (Hc & Hs & Hb & Ha) Ha0 j. destruct (decide (rb_count r ≤ j)); [by apply Hb|].
  destruct (decide (j < 0)).
  { unfold rb_used, get_word, nthZ. destruct (rb_bits r) as [w|ws].
    - rewrite (proj2 (Z.eqb_neq _ _)) by (Z.div_mod_to_equations; lia). apply Z.bits_0.
    - rewrite (proj2 (Z.leb_gt _ _)) by (Z.div_mod_to_equations; lia). apply Z.bits_0. }
  apply not_true_is_false. intros Hu. rewrite Ha0 in Ha. unfold used_count, lenZ in Ha.
  assert (j ∈ filter (λ j, rb_used r j = true) (seqZ 0 (rb_count r))) as Hin.
  { apply list_elem_of_filter. split; [done|]. apply elem_of_seqZ. lia. }
  destruct (filter _ _); [by apply not_elem_of_nil in Hin|simpl in Ha; lia].
Qed.

(** [reload] sets the bits of the regions whose tokens are in use, provided not
    all of them are. *)
Lemma reload_loop_ok r token (t : Z → token_ref) (b : Z → Z) (s : pst) :
  wf_rb r → rb_alloc r = 0 →
  (∀ i, 0 ≤ i < rb_count r → token i s = Ok (t i) s ∧ token_byte (mem s) (t i) = Some (b i)) →
  (∃ i, 0 ≤ i < rb_count r ∧ token_busy (b i) = false) →
  ∃ r', reload_loop r token s = Ok r' s ∧ wf_rb r' ∧ same_run r r' ∧
        ∀ i, 0 ≤ i < rb_count r → rb_used r' i = token_busy (b i).
Proof.
  intros Hwf Ha0 Ht (i0 & Hi0 & Hb0).
  pose proof (alloc_zero_free r Hwf Ha0) as Hz.
  assert (wp (reload_loop r token) (λ r' s', s' = s ∧ wf_rb r' ∧ same_run r r' ∧
    ∀ i, 0 ≤ i < rb_count r → rb_used r' i = token_busy (b i)) s) as Hwp.
  { unfold reload_loop. wp_step.
    apply (wp_mfold (λ ind r' s', s' = s ∧ wf_rb r' ∧ same_run r r' ∧
      ∀ j, rb_used r' j = bool_decide (0 ≤ j < ind) && token_busy (b j))).
    - split_and!; try done. intros j. rewrite bool_decide_false by lia. simpl. apply Hz.
    - intros ind r' s' Hind (-> & Hwf' & Hsame & Hu). assert (rb_count r' = rb_count r) as Hc by apply Hsame.
      destruct (Ht ind) as [Ht1 Hb1]; [destruct Hwf; lia|].
      destruct (reload_step_ok r' token (t ind) (b ind) ind s) as (r2 & Hrun & Hwf2 & Hs2 & Hu2);
        [done|destruct Hwf; lia| |done|done|].
      { intros j Hj. rewrite Hu, bool_decide_false by lia. done. }
      unfold wp. rewrite Hrun. split_and!; [done|done|by eapply same_run_trans|].
      intros j. rewrite Hu2, Hu. destruct (decide (j = ind)) as [->|Hne].
      + rewrite (bool_decide_false (0 ≤ ind < ind)), !bool_decide_true by lia. done.
      + rewrite (bool_decide_false (j = ind)) by done. simpl. rewrite orb_false_r. f_equal.
        apply bool_decide_ext. lia.
    - intros r' s' (-> & Hwf' & Hsame & Hu). assert (rb_count r' = rb_count r) as Hc by apply Hsame.
      assert (∀ i, 0 ≤ i < rb_count r → rb_used r' i = token_busy (b i)) as Hu'.
      { intros i Hi. rewrite Hu, bool_decide_true by (destruct Hwf; lia). done. }
      assert (i0 ∈ free_list r') as Hin.
      { apply list_elem_of_filter. split; [by rewrite Hu', Hb0|]. apply elem_of_seqZ. lia. }
      pose proof (free_used_count r') as Hf. pose proof (used_count_bounds r').
      assert (0 < lenZ (free_list r')).
      { unfold lenZ. destruct (free_list r'); [by apply not_elem_of_nil in Hin|simpl; lia]. }
      destruct Hwf' as (Hc' & Hs' & Hb' & Ha').
      wp_step. wp_step; [|wp_step; done].
      apply andb_true_iff. rewrite Z.leb_le, Z.ltb_lt. lia. }
  apply wp_Ok in Hwp as (r' & s' & Hrun & -> & Hrest). by exists r'.
Qed.

(** ** Operations *)

Lemma fill_regions_run r regions restock type (s : pst) :
  wf_rb r → rb_alloc r < rb_count r → type = kSmall ∨ type = kMedium →
  meta_matches (mem s) type r →
  ∃ r', let idxs := take (Z.to_nat (restock - lenZ regions)) (free_list r) in
    RunBits_fill_regions r regions restock type s =
      Ok (r', regions ++ (region_of type r <$> idxs)) s ∧ taken r r' idxs.
Proof.
  intros Hwf Hlt Ht Hm. unfold RunBits_fill_regions, massert, mbind at 1, M_bind at 1.
  rewrite (proj2 (Z.ltb_lt _ _)) by done.
  assert (bool_decide (type = kSmall) || bool_decide (type = kMedium) = true) as ->.
  { apply orb_true_iff. rewrite !bool_decide_eq_true. done. }
  change kUnitBits with 64. assert (0 < rb_count r) as Hc by (destruct Hwf; lia).
  destruct (Z.leb_spec (rb_count r) 64) as [Hle|Hgt].
  - destruct (wf_word r 0) as (w & Hw & Hwr & _); [done|lia|]. change (0 / 64) with 0 in Hw.
    rewrite Hw. unfold mderef, mbind, M_bind, mret at 1, M_ret at 1.
    rewrite (small_run_popcount r w) by done.
    rewrite (proj2 (Z.ltb_lt _ _)), Z.eqb_refl by done. simpl andb. cbv iota.
    assert (rb_count r = unit_size r 0) as He by (unfold unit_size; lia).
    destruct (fill_unit_ok (Z.to_nat (restock - lenZ regions) + 1) 0 type
      restock r regions s) as (r' & Hrun & Htk); [done|done|lia|lia|lia|].
    exists r'. rewrite <-He in Hrun. unfold free_list. change (free_from r 0) with (free_from r (0 * 64)).
    rewrite (free_from_unit r 0) by lia.
    rewrite (proj2 (Z.leb_le _ _)) by lia. by rewrite app_nil_r.
  - assert (64 = unit_size r 0) as He by (unfold unit_size; lia).
    replace (rb_count r + 64 - 1) with (rb_count r + 63) by lia.
    destruct (fill_units_ok (Z.to_nat ((rb_count r + 63) / 64)) 0 type restock r regions s)
      as (r' & Hrun & Htk); [done|done|Z.div_mod_to_equations; lia..|].
    exists r'. by rewrite <-He in Hrun.
Qed.

Lemma dealloc_region_run {S} r i (s : S) :
  wf_rb r → 0 ≤ i < rb_count r → rb_used r i = true →
  ∃ r', RunBits_dealloc_region r i s = Ok r' s ∧ given_back r r' i.
Proof.
  intros Hwf Hi Hu. destruct (wf_word r i Hwf Hi) as (w & Hw & Hwr & Hm).
  exists (drop_bit r (i / 64) (i mod 64) w). split; [|by apply drop_bit_given].
  unfold RunBits_dealloc_region, massert, mbind, M_bind. change kUnitBits with 64.
  assert (rb_alloc r ≤ rb_count r) by (destruct Hwf as (Hc & _ & _ & ->); apply used_count_bounds; lia).
  rewrite (proj2 (Z.leb_le _ _)), (proj2 (Z.ltb_lt _ _)) by lia. simpl andb. cbv iota.
  rewrite (used_bit r i w) in Hu by (done || lia).
  destruct (Z.leb_spec (rb_count r) 64) as [Hle|Hgt].
  - assert (i / 64 = 0) as H0' by (Z.div_mod_to_equations; lia).
    assert (i mod 64 = i) as Hi' by (Z.div_mod_to_equations; lia).
    rewrite H0', Hi' in *. rewrite Hw. simpl. rewrite (small_run_popcount r w) by done.
    rewrite Z.eqb_refl, test_bit_testbit, Hu by lia. done.
  - rewrite Hw. simpl. rewrite test_bit_testbit, Hu by lia. done.
Qed.

Lemma alloc_large_run r (s : pst) :
  wf_rb r → rb_alloc r < rb_count r < 64 → meta_matches (mem s) kLarge r →
  ∃ r' i rest, free_list r = i :: rest ∧
    RunBits_alloc_large r s = Ok (r', region_of kLarge r i) s ∧ taken r r' [i].
Proof.
  intros Hwf Hlt Hm. assert (0 < rb_count r) as Hc by (destruct Hwf; lia).
  destruct (unit_free_head r 0) as (w & Hw & Hwr & Hcase); [done|lia|lia|].
  assert (unit_free r 0 = free_list r) as Hf.
  { unfold free_list. change (free_from r 0) with (free_from r (0 * 64)).
    rewrite (free_from_unit r 0) by lia.
    rewrite (proj2 (Z.leb_le _ _)) by lia. by rewrite app_nil_r. }
  rewrite Hf in Hcase. destruct Hcase as [[Hnil _]|(Hi & Hb & Hcons)].
  { pose proof (free_used_count r) as Hfu. rewrite Hnil in Hfu. unfold lenZ in Hfu. simpl in Hfu.
    destruct Hwf as (_ & _ & _ & Ha). lia. }
  assert (unit_size r 0 ≤ rb_count r) by (unfold unit_size; lia).
  eexists _, _, _. split; [exact Hcons|]. split; [|apply take_bit_taken; try done; lia].
  unfold RunBits_alloc_large, massert, mbind, M_bind. change kUnitBits with 64.
  rewrite (proj2 (Z.ltb_lt (rb_alloc r) _)), (proj2 (Z.ltb_lt (rb_count r) _)) by lia.
  simpl andb. cbv iota. rewrite Hw. unfold mderef, mret at 1, M_ret at 1.
  rewrite (small_run_popcount r w) by (done || lia).
  rewrite (proj2 (Z.ltb_lt (rb_alloc r) _)), Z.eqb_refl by lia. simpl andb. cbv iota.
  rewrite locate_token_ok by (done || lia). done.
Qed.

Lemma dealloc_large_run {S} r i (s : S) :
  wf_rb r → rb_count r < 64 → 0 ≤ i < rb_count r → rb_used r i = true →
  ∃ r', RunBits_dealloc_large r i s = Ok r' s ∧ given_back r r' i.
Proof.
  intros Hwf Hlt Hi Hu. destruct (wf_word r i Hwf Hi) as (w & Hw & Hwr & Hm).
  assert (i / 64 = 0) as H0' by (Z.div_mod_to_equations; lia).
  assert (i mod 64 = i) as Hi' by (Z.div_mod_to_equations; lia).
  exists (drop_bit r 0 i w). split.
  - unfold RunBits_dealloc_large, massert, mbind, M_bind. change kUnitBits with 64.
    assert (rb_alloc r ≤ rb_count r)
      by (destruct Hwf as (Hc & _ & _ & ->); apply used_count_bounds; lia).
    rewrite (used_bit r i w) in Hu by (done || lia). rewrite H0', Hi' in *.
    rewrite (proj2 (Z.leb_le _ _)), (proj2 (Z.ltb_lt (rb_count r) _)) by lia.
    simpl andb. cbv iota. rewrite Hw. simpl.
    rewrite (proj2 (Z.ltb_lt i _)), test_bit_testbit, Hu by lia. simpl.
    by rewrite (small_run_popcount r w), Z.eqb_refl by (done || lia).
  - pose proof (drop_bit_given r i w Hwf Hi Hw Hwr Hu) as Hg. by rewrite H0', Hi' in Hg.
Qed.

Lemma zero_word_ok r :
  wf_rb r → rb_alloc r = 0 → rb_count r ≤ 64 → is_zero_word r = true.
Proof.
  intros Hwf Ha Hc. unfold is_zero_word. pose proof (alloc_zero_free r Hwf Ha) as Hz.
  destruct Hwf as (_ & Hs & _ & _). destruct (rb_bits r) as [w|ws] eqn:E; simpl in Hs; [|lia].
  apply Z.eqb_eq, Z.bits_inj_0. intros k. destruct (decide (0 ≤ k < 64)) as [Hk|Hk].
  - assert (get_word r 0 = Some w) as Hw by (unfold get_word; by rewrite E).
    rewrite <-(rb_used_word r 0 w) by done. apply Hz.
  - destruct (decide (k < 0)); [by apply Z.testbit_neg_r|]. apply (testbit_above w 64); lia.
Qed.

Lemma reload_run r type (b : Z → Z) (s : pst) :
  wf_rb r → rb_alloc r = 0 → meta_matches (mem s) type r →
  type = kSmall ∨ rb_count r ≤ 64 →
  (∀ i, 0 ≤ i < rb_count r → token_byte (mem s) (token_of type (rb_meta r) i) = Some (b i)) →
  (∃ i, 0 ≤ i < rb_count r ∧ token_busy (b i) = false) →
  ∃ r', RunBits_reload r type (rb_meta r) s = Ok r' s ∧ wf_rb r' ∧ same_run r r' ∧
        ∀ i, 0 ≤ i < rb_count r → rb_used r' i = token_busy (b i).
Proof.
  intros Hwf Ha Hm Ht Hb Hfree.
  assert (∀ token : Z → M pst token_ref,
    (∀ i, 0 ≤ i < rb_count r → token i s = Ok (token_of type (rb_meta r) i) s) →
    ∃ r', reload_loop r token s = Ok r' s ∧ wf_rb r' ∧ same_run r r' ∧
          ∀ i, 0 ≤ i < rb_count r → rb_used r' i = token_busy (b i)) as Hloop.
  { intros token Htok. apply (reload_loop_ok r token (token_of type (rb_meta r)) b); auto. }
  assert (∀ c : Z, rb_count r ≤ 64 ∨ is_zero_word r && (rb_alloc r =? 0) = true →
    (if 64 <? rb_count r then massert (S:=pst) (rb_alloc r =? 0)
     else massert (is_zero_word r && (rb_alloc r =? 0))) s = Ok tt s) as Hz.
  { intros _ _. rewrite Ha. destruct (Z.ltb_spec 64 (rb_count r)); [done|].
    by rewrite (zero_word_ok r) by (done || lia). }
  specialize (Hz 0). unfold RunBits_reload.
  destruct type; simpl in Hm; try done;
    unfold RunBits_reload_small, RunBits_reload_medium, RunBits_reload_large,
      ld_small, ld_med, ld_desc, mgets, mbind, M_bind, massert;
    change kUnitBits with 64; rewrite Z.eqb_refl.
  - destruct Hm as [Hs Hc]. rewrite Hs, Hc, !Z.eqb_refl. simpl andb. cbv iota.
    rewrite Ha. destruct (Z.ltb_spec 64 (rb_count r)); [|rewrite (zero_word_ok r) by (done || lia)];
      simpl; apply Hloop; intros i Hi; unfold SmallMeta_token, massert, mbind, M_bind;
      by rewrite Hc, (proj2 (Z.ltb_lt _ _)) by lia.
  - destruct Hm as [Hs Hc]. destruct Ht as [|Ht]; [done|].
    rewrite Hs, Hc, !Z.eqb_refl, (proj2 (Z.leb_le _ 64)), Ha, (zero_word_ok r) by done. simpl.
    apply Hloop. intros i Hi. unfold MediumMeta_token, massert, mbind, M_bind.
    by rewrite Hc, (proj2 (Z.ltb_lt _ _)) by lia.
  - destruct Hm as (Hs & Hc & Hty). destruct Ht as [|Ht]; [done|].
    rewrite Hs, Hc, !Z.eqb_refl, (proj2 (Z.leb_le _ 64)), Ha, (zero_word_ok r) by done. simpl.
    apply Hloop. intros i Hi. unfold ExtentDesc_token, massert, mbind, M_bind.
    by rewrite Hc, Hty, (proj2 (Z.ltb_lt _ _)) by lia.
Qed.

(** ** Properties *)

(** C39: [RunBits::fill_regions], on any well-formed bitmap with a free region,
    passes its asserts, appends to the list exactly the first free regions of
    the run, in order, as many as are wanted or there are, and marks exactly
    those as taken; no region is handed out twice. *)
Theorem fill_regions_exact r regions restock type (s : pst) :
  wf_rb r → rb_alloc r < rb_count r → type = kSmall ∨ type = kMedium →
  meta_matches (mem s) type r →
  ∃ r', let idxs := take (Z.to_nat (restock - lenZ regions)) (free_list r) in
    RunBits_fill_regions r regions restock type s =
      Ok (r', regions ++ (region_of type r <$> idxs)) s ∧
    NoDup idxs ∧ wf_rb r' ∧ rb_alloc r' = rb_alloc r + lenZ idxs ∧
    ∀ i, rb_used r' i = rb_used r i || bool_decide (i ∈ idxs).
Proof.
  intros Hwf Hlt Ht Hm. destruct (fill_regions_run r regions restock type s)
    as (r' & Hrun & Hwf' & Hs & Ha & Hu); try done.
  exists r'. split_and!; try done.
  assert (NoDup (free_list r)) as Hnd by apply NoDup_filter, NoDup_seqZ.
  rewrite <-(take_drop (Z.to_nat (restock - lenZ regions)) (free_list r)) in Hnd.
  by apply NoDup_app in Hnd as [? _].
Qed.

(** Giving a taken region back, through [dealloc_region] or, in a run of
    large regions, through [dealloc_large], passes the asserts and frees exactly
    that region. *)
Lemma dealloc_exact {S} r i (s : S) :
  wf_rb r → 0 ≤ i < rb_count r → rb_used r i = true →
  (∃ r', RunBits_dealloc_region r i s = Ok r' s ∧ given_back r r' i) ∧
  (rb_count r < 64 → ∃ r', RunBits_dealloc_large r i s = Ok r' s ∧ given_back r r' i).
Proof.
  intros Hwf Hi Hu. split; [by apply dealloc_region_run|]. intros Hc. by apply dealloc_large_run.
Qed.

(** [RunBits::reload], the three overloads: on a fresh bitmap whose run has
    a region that is not in use, it passes its asserts and sets exactly the bits
    of the regions whose persistent tokens are in use. *)
Lemma reload_exact r type (b : Z → Z) (s : pst) :
  wf_rb r → rb_alloc r = 0 → meta_matches (mem s) type r →
  type = kSmall ∨ rb_count r ≤ 64 →
  (∀ i, 0 ≤ i < rb_count r → token_byte (mem s) (token_of type (rb_meta r) i) = Some (b i)) →
  (∃ i, 0 ≤ i < rb_count r ∧ token_busy (b i) = false) →
  ∃ r', RunBits_reload r type (rb_meta r) s = Ok r' s ∧ wf_rb r' ∧ same_run r r' ∧
        ∀ i, 0 ≤ i < rb_count r → rb_used r' i = token_busy (b i).
Proof. apply reload_run. Qed.
End lemmas.

(** ** Witnesses: a medium run of four regions, the second and third in use *)

Definition example_meta : MediumMeta := {|
  mm_size := 4096; mm_arena := 0; mm_count := 4; mm_next := nullptr; mm_cond := kPolluted;
  mm_tokens := [0; 128; 129; 0] ++ replicate 47 0 |}.
Definition example_pst : pst :=
  {| mem := upd_med 128 (λ _, example_meta) zero_pmem; log := [] |}.
Definition example_run : RunBits := RunBits_new 4096 4 128 65536 false.
Definition example_taken : RunBits := take_bit example_run 0 1 0.

Lemma example_run_wf : wf_rb example_run.
Proof. apply (RunBits_new_ok 4096 4 128 65536 false). lia. Qed.

Lemma example_taken_wf : wf_rb example_taken.
Proof. apply take_bit_wf; [apply example_run_wf|vm_compute; intuition congruence..]. Qed.

Lemma fill_regions_exact_witness :
  ∃ r', RunBits_fill_regions example_taken [] 2 kMedium example_pst =
      Ok (r', [region (Some (TMedium 128 0)) 65536; region (Some (TMedium 128 2)) 73728])
        example_pst ∧ rb_alloc r' = 3.
Proof.
  destruct (fill_regions_exact example_taken [] 2 kMedium example_pst) as (r' & Hrun & _ & _ & Ha & _).
  - apply example_taken_wf.
  - vm_compute. reflexivity.
  - by right.
  - vm_compute. done.
  - exists r'. split; [exact Hrun|]. rewrite Ha. vm_compute. reflexivity.
Defined.

Lemma dealloc_exact_witness :
  ∃ r', RunBits_dealloc_region example_taken 1 tt = Ok r' tt ∧ given_back example_taken r' 1.
Proof.
  destruct (dealloc_exact example_taken 1 tt) as [Hd _].
  - apply example_taken_wf.
  - vm_compute. split; congruence.
  - vm_compute. reflexivity.
  - exact Hd.
Defined.

Lemma reload_exact_witness :
  ∃ r', RunBits_reload example_run kMedium 128 example_pst = Ok r' example_pst ∧
        rb_used r' 1 = true ∧ rb_used r' 3 = false.
Proof.
  destruct (reload_exact example_run kMedium
    (λ i, default 0 (nthZ (mm_tokens example_meta) i)) example_pst) as (r' & Hrun & _ & _ & Hu).
  - apply example_run_wf.
  - reflexivity.
  - vm_compute. done.
  - right. vm_compute. congruence.
  - intros i Hi. change (rb_count example_run) with 4 in Hi.
    assert (i = 0 ∨ i = 1 ∨ i = 2 ∨ i = 3) as [->|[->|[->| ->]]] by lia; vm_compute; reflexivity.
  - exists 0. vm_compute. intuition congruence.
  - exists r'. split; [exact Hrun|]. rewrite !Hu; [vm_compute; done|vm_compute; intuition congruence..].
Defined.
