(* ===== verification/MetaFile.v ===== *)
(** * The extent allocator (slab/meta-file.h)

    [MetaHead] hands out extents and, for medium extents, arrays of
    [MediumMeta].  Free extents and free arrays are linked into two lists through
    the structures themselves; the heads of the lists and the two counters are
    the [DescMeta] that [mind_] selects, so that writing [mind_] commits an
    operation that changes several of them.  [ext_inv] is the invariant, with
    the contents of both lists as ghost arguments; the theorems show that
    acquiring and releasing keep it, never fail an assert, hand out an extent
    that is not in use, and never run out of [MediumMeta] arrays. *)

From S2P Require Export Bits.
Import Pmem.

(** ** Definitions *)

Definition kNBaseExtent : Z := kExtentSize / kMediumRunBase.

Definition eta_head h := {|
  stat_ := stat_ h; size_ := size_ h; mind_ := mind_ h; occupied_ := occupied_ h;
  ext_desc_ := ext_desc_ h; ext_total_ := ext_total_ h; med_meta_ := med_meta_ h;
  med_total_ := med_total_ h |}.
Definition set_stat := ltac:(setter eta_head stat_).
Definition set_size := ltac:(setter eta_head size_).
Definition set_mind := ltac:(setter eta_head mind_).
Definition set_occupied := ltac:(setter eta_head occupied_).
Definition set_ext_desc := ltac:(setter eta_head ext_desc_).
Definition set_ext_total := ltac:(setter eta_head ext_total_).
Definition set_med_meta := ltac:(setter eta_head med_meta_).
Definition set_med_total := ltac:(setter eta_head med_total_).

Definition eta_meta m := {|
  ext_used := ext_used m; ext_free := ext_free m; med_used := med_used m; med_free := med_free m |}.
Definition set_ext_used := ltac:(setter eta_meta ext_used).
Definition set_ext_free := ltac:(setter eta_meta ext_free).
Definition set_med_used := ltac:(setter eta_meta med_used).
Definition set_med_free := ltac:(setter eta_meta med_free).

Definition ld_head : M pst HeadLine := mgets (λ s, pm_head (mem s)).
Definition ld_meta (i : Z) : M pst DescMeta := mgets (λ s, meta_at (mem s) i).

(** [p - base] as an index of an array of 64-byte elements, converted to
    [size_t], and the address of an element. *)
Definition elem_index (p base : Z) : Z := u64 ((p - base) / kCacheLineSize).
Definition elem_addr (base i : Z) : Z := base + i * kCacheLineSize.

(** [std::pair<ExtentDesc*, size_t>] *)
Definition extent_id : Type := Z * Z.
Definition no_extent : extent_id := (nullptr, 0).

Section ops.
Context `{Util}.

(** [meta_[nid] = meta_[oid]]: the four fields are copied one by one. *)
Definition copy_meta (nid oid : Z) : M pst unit :=
  m ← ld_meta oid;
  st_meta nid (set_ext_used (ext_used m)) ;;
  st_meta nid (set_ext_free (ext_free m)) ;;
  st_meta nid (set_med_used (med_used m)) ;;
  st_meta nid (set_med_free (med_free m)).

Definition allocate_meta (mind : Z) : M pst Z :=
  h ← ld_head;
  massert ((mind <? 2) && negb (mind =? mind_ h)) ;;
  meta ← ld_meta mind;
  if negb (med_free meta =? nullptr) then
    let runs := med_free meta in
    massert (elem_index runs (med_meta_ h) <? med_total_ h) ;;
    m ← ld_med runs;
    st_meta mind (set_med_free (mm_next m)) ;;
    mret runs
  else
    let runs := elem_addr (med_meta_ h) (med_used meta) in
    st_meta mind (set_med_used (u64 (med_used meta + kNBaseExtent))) ;;
    mret runs.

(** [mind_ = nid; wait_write_back(&mind_, sizeof(mind_))] *)
Definition switch_mind (nid : Z) : M pst unit :=
  st_head (set_mind nid) ;; wait_write_back LHead.

Definition complex_reclaim (type : RegionType) (run_case size : Z) : M pst extent_id :=
  h ← ld_head;
  let oid := mind_ h in
  m ← ld_meta oid;
  massert (bool_decide (type = kMedium) && negb (ext_free m =? nullptr)) ;;
  let nid := (oid + 1) mod 2 in
  copy_meta nid oid ;;
  runs ← allocate_meta nid;
  m ← ld_meta nid;
  let desc := ext_free m in
  d ← ld_desc desc;
  let next := ed_next d in
  let index := elem_index desc (ext_desc_ h) in
  massert (index <? ext_total_ h) ;;
  ExtentDesc_construct desc type run_case size next runs false ;;
  st_meta nid (set_ext_free next) ;;
  wait_write_back (LMeta nid) ;;
  switch_mind nid ;;
  mret (desc, index).

Definition plain_reclaim (type : RegionType) (run_case size : Z) : M pst extent_id :=
  h ← ld_head;
  m ← ld_meta (mind_ h);
  massert (bool_decide (type = kSmall) ||
           bool_decide (type = kLarge) && negb (ext_free m =? nullptr)) ;;
  let desc := ext_free m in
  d ← ld_desc desc;
  let next := ed_next d in
  let index := elem_index desc (ext_desc_ h) in
  massert (index <? ext_total_ h) ;;
  ExtentDesc_construct desc type run_case size next nullptr true ;;
  st_meta (mind_ h) (set_ext_free next) ;;
  wait_write_back (LMeta (mind_ h)) ;;
  mret (desc, index).

Definition reclaim (type : RegionType) (run_case size : Z) : M pst extent_id :=
  h ← ld_head;
  m ← ld_meta (mind_ h);
  if ext_free m =? nullptr then mret no_extent
  else if bool_decide (type = kMedium) then complex_reclaim type run_case size
  else plain_reclaim type run_case size.

Definition complex_allocate (type : RegionType) (run_case size : Z) : M pst extent_id :=
  massert (bool_decide (type = kMedium)) ;;
  (if size =? 0 then merr EUB else massert (kExtentSize mod size =? 0)) ;;
  h ← ld_head;
  let oid := mind_ h in
  m ← ld_meta oid;
  massert (med_used m <=? med_total_ h) ;;
  let nid := (oid + 1) mod 2 in
  copy_meta nid oid ;;
  runs ← allocate_meta nid;
  m ← ld_meta nid;
  let index := ext_used m in
  let desc := elem_addr (ext_desc_ h) index in
  ExtentDesc_construct desc type run_case size nullptr runs false ;;
  st_meta nid (set_ext_used (u64 (index + 1))) ;;
  wait_write_back (LMeta nid) ;;
  switch_mind nid ;;
  mret (desc, index).

Definition plain_allocate (type : RegionType) (run_case size : Z) : M pst extent_id :=
  massert (bool_decide (type = kSmall) || bool_decide (type = kLarge)) ;;
  h ← ld_head;
  m ← ld_meta (mind_ h);
  massert ((ext_free m =? nullptr) && (ext_used m <? ext_total_ h)) ;;
  let index := ext_used m in
  let desc := elem_addr (ext_desc_ h) index in
  ExtentDesc_construct desc type run_case size nullptr nullptr true ;;
  st_meta (mind_ h) (set_ext_used (u64 (index + 1))) ;;
  wait_write_back (LMeta (mind_ h)) ;;
  mret (desc, index).

Definition MetaHead_allocate (type : RegionType) (run_case size : Z) : M pst extent_id :=
  h ← ld_head;
  m ← ld_meta (mind_ h);
  if ext_total_ h <=? ext_used m then mret no_extent
  else if bool_decide (type = kMedium) then complex_allocate type run_case size
  else plain_allocate type run_case size.

Definition complex_release (desc : Z) : M pst unit :=
  d ← ld_desc desc;
  massert (bool_decide (ed_type d = kMedium)) ;;
  h ← ld_head;
  let oid := mind_ h in
  let nid := (oid + 1) mod 2 in
  let runs := ed_runs d in
  copy_meta nid oid ;;
  m ← ld_meta nid;
  st_desc desc (set_ed_next (ext_free m)) ;;
  st_med runs (set_mm_next (med_free m)) ;;
  st_meta nid (set_ext_free desc) ;;
  st_meta nid (set_med_free runs) ;;
  persist_write_back (LDesc desc) ;;
  persist_write_back (LMed runs) ;;
  persist_write_back (LMeta nid) ;;
  persist_wait_finish ;;
  switch_mind nid ;;
  st_desc desc (set_ed_type kInvalid) ;;
  wait_write_back (LDesc desc).

Definition plain_release (desc : Z) : M pst unit :=
  d ← ld_desc desc;
  massert (bool_decide (ed_type d = kLarge) || bool_decide (ed_type d = kSmall)) ;;
  h ← ld_head;
  m ← ld_meta (mind_ h);
  st_desc desc (set_ed_next (ext_free m)) ;;
  wait_write_back (LDesc desc) ;;
  st_meta (mind_ h) (set_ext_free desc) ;;
  wait_write_back (LMeta (mind_ h)) ;;
  st_desc desc (set_ed_type kInvalid) ;;
  wait_write_back (LDesc desc).

(** [wait_write_back(this, sizeof(MetaHead))] *)
Definition write_back_head : M pst unit :=
  persist_write_back LHead ;; persist_write_back (LMeta 0) ;; persist_write_back (LMeta 1) ;;
  persist_wait_finish.

Definition MetaHead_init (size ext med : Z) : M pst unit :=
  st_head (set_stat kChaotic) ;;
  wait_write_back LHead ;;
  st_head (set_size size) ;;
  st_head (set_mind 0) ;;
  st_head (set_occupied nullptr) ;;
  st_head (set_ext_desc ext) ;;
  st_head (set_ext_total (size / kExtentSize)) ;;
  st_head (set_med_meta med) ;;
  st_head (set_med_total (size / kMediumRunBase)) ;;
  st_meta 0 (set_ext_used 0) ;;
  st_meta 0 (set_ext_free nullptr) ;;
  st_meta 0 (set_med_used 0) ;;
  st_meta 0 (set_med_free nullptr) ;;
  write_back_head ;;
  st_head (set_stat kVolatile) ;;
  wait_write_back LHead.

(** The loops of [reboot] and [resume] over the half-used extents; the result
    lists the descriptors that were visited. *)
Fixpoint unlink_occupied (fuel : nat) (desc : Z) (extents : list Z) : M pst (list Z) :=
  match fuel with
  | O => merr EFuel
  | S fuel =>
      if desc =? nullptr then mret extents
      else
        d ← ld_desc desc;
        massert (negb (bool_decide (ed_type d = kInvalid))) ;;
        let next := ed_next d in
        st_desc desc (set_ed_next nullptr) ;;
        persist_write_back (LDesc desc) ;;
        unlink_occupied fuel next (extents ++ [desc])
  end.

(** Fuel: the descriptors are distinct, so there are at most [ext_total_]. *)
Definition walk_occupied : M pst (list Z) :=
  h ← ld_head; unlink_occupied (Datatypes.S (Z.to_nat (ext_total_ h))) (occupied_ h) [].

Definition MetaHead_reboot (extents : list Z) : M pst (bool * list Z) :=
  h ← ld_head;
  match stat_ h with
  | kChaotic => merr EExit
  | kConsistent =>
      ds ← walk_occupied;
      st_head (set_stat kVolatile) ;;
      st_head (set_occupied nullptr) ;;
      wait_write_back LHead ;;
      mret (true, extents ++ ds)
  | kVolatile => mret (false, extents)
  end.

Definition MetaHead_resume : M pst unit :=
  h ← ld_head;
  massert (bool_decide (stat_ h = kVolatile)) ;;
  walk_occupied ;;
  mwhen (negb (occupied_ h =? nullptr))
    (st_head (set_occupied nullptr) ;; persist_write_back LHead) ;;
  m ← ld_meta (mind_ h);
  mwhen (negb (ext_free m =? nullptr))
    (st_desc (ext_free m) (set_ed_type kInvalid) ;; persist_write_back (LDesc (ext_free m))) ;;
  persist_wait_finish.

Definition MetaHead_shutdown : M pst unit :=
  write_back_head ;;
  st_head (set_stat kConsistent) ;;
  wait_write_back LHead.

(** The three range asserts on a descriptor. *)
Definition assert_desc (h : HeadLine) (desc : Z) : M pst unit :=
  massert (desc mod kCacheLineSize =? 0) ;;
  massert (ext_desc_ h <=? desc) ;;
  massert (desc <? elem_addr (ext_desc_ h) (ext_total_ h)).

Definition MetaHead_record (desc : Z) : M pst unit :=
  h ← ld_head;
  assert_desc h desc ;;
  st_desc desc (set_ed_next (occupied_ h)) ;;
  st_head (set_occupied desc) ;;
  persist_write_back (LDesc desc).

Definition MetaHead_acquire (type : RegionType) (run_case size : Z) : M pst extent_id :=
  reuse ← reclaim type run_case size;
  if negb (reuse.1 =? nullptr) then mret reuse
  else MetaHead_allocate type run_case size.

Definition MetaHead_release (desc : Z) : M pst unit :=
  h ← ld_head;
  assert_desc h desc ;;
  d ← ld_desc desc;
  if bool_decide (ed_type d = kMedium) then complex_release desc else plain_release desc.

Definition MetaHead_size : M pst Z := h ← ld_head; mret (size_ h).
Definition MetaHead_count : M pst Z := h ← ld_head; m ← ld_meta (mind_ h); mret (ext_used m).
Definition MetaHead_descriptor (index : Z) : M pst Z :=
  h ← ld_head;
  massert (index <? ext_total_ h) ;;
  mret (elem_addr (ext_desc_ h) index).
Definition MetaHead_index (desc : Z) : M pst Z :=
  h ← ld_head;
  assert_desc h desc ;;
  massert (elem_index desc (ext_desc_ h) <? ext_total_ h) ;;
  mret (elem_index desc (ext_desc_ h)).

(** [MetaFile::create]: the sizes of the segments, then [init]; [start] is the
    address at which the file is mapped.  The result is the size of the file. *)
Definition kMetaHeadSize : Z := kPageSize.
Definition MetaFile_create (start size : Z) : M pst Z :=
  let ext_desc := size / kExtentSize * sizeof_ExtentDesc in
  let med_meta := size / kMediumRunBase * sizeof_MediumMeta in
  massert ((ext_desc mod kPageSize =? 0) && (med_meta mod kPageSize =? 0)) ;;
  let ext_seg := start + kMetaHeadSize in
  let med_seg := ext_seg + ext_desc in
  MetaHead_init size ext_seg med_seg ;;
  mret (kMetaHeadSize + ext_desc + med_meta).
End ops.
