(* ===== verification/MetaInv.v ===== *)
(** * Correctness of the extent allocator

    The invariant of the meta file, with the two free lists as ghost lists of
    indices, and the effect of [MetaHead_acquire] and [MetaHead_release] on it. *)

From S2P Require Export MetaFile.
Import Pmem.

(** ** Definitions *)

(** The list [l] of indices is linked through [next] from the pointer [p]. *)
Fixpoint chain (next : Z → Z) (addr : Z → Z) (p : Z) (l : list Z) : Prop :=
  match l with
  | [] => p = nullptr
  | i :: l => p = addr i ∧ chain next addr (next (addr i)) l
  end.

Definition cur_meta (p : pmem) : DescMeta := meta_at p (mind_ (pm_head p)).
Definition ext_addr (p : pmem) (i : Z) : Z := elem_addr (ext_desc_ (pm_head p)) i.
(** Array number [j] of [kNBaseExtent] MediumMeta. *)
Definition slot_addr (p : pmem) (j : Z) : Z := elem_addr (med_meta_ (pm_head p)) (32 * j).
Definition desc_of (p : pmem) (i : Z) : ExtentDesc := desc_at p (ext_addr p i).

Definition wf_head (h : HeadLine) : Prop :=
  (mind_ h = 0 ∨ mind_ h = 1) ∧
  0 < ext_desc_ h ∧ ext_desc_ h mod 64 = 0 ∧ ext_desc_ h + 64 * ext_total_ h < 2 ^ 63 ∧
  0 < med_meta_ h ∧ med_meta_ h mod 64 = 0 ∧ med_meta_ h + 64 * med_total_ h < 2 ^ 63 ∧
  0 ≤ ext_total_ h ∧ med_total_ h = 32 * ext_total_ h.

(** An extent is live when it has been used and is not in the free list. *)
Definition live (p : pmem) (fl : list Z) (i : Z) : Prop :=
  0 ≤ i < ext_used (cur_meta p) ∧ i ∉ fl.

Definition is_medium (p : pmem) (i : Z) : bool := bool_decide (ed_type (desc_of p i) = kMedium).
Definition medium_list (p : pmem) (n : Z) : list Z :=
  filter (λ i, is_medium p i = true) (seqZ 0 n).
(** The MediumMeta arrays of the medium extents. *)
Definition med_slots (p : pmem) (n : Z) : list Z := (λ i, ed_runs (desc_of p i)) <$> medium_list p n.

(** [fl]: the free extents; [ml]: the free MediumMeta arrays.  The arrays that
    have been used, [k] of them, are the ones of the medium extents and the free
    ones, each exactly once. *)
Record ext_inv (p : pmem) (fl ml : list Z) : Prop := {
  inv_head : wf_head (pm_head p);
  inv_used : 0 ≤ ext_used (cur_meta p) ≤ ext_total_ (pm_head p);
  inv_nodup : NoDup fl;
  inv_free : ∀ i, i ∈ fl → 0 ≤ i < ext_used (cur_meta p) ∧ ed_type (desc_of p i) = kInvalid;
  inv_chain : chain (λ a, ed_next (desc_at p a)) (ext_addr p) (ext_free (cur_meta p)) fl;
  inv_live : ∀ i, live p fl i → wf_desc (desc_of p i);
  inv_med : ∃ k, 0 ≤ k ≤ ext_used (cur_meta p) ∧ med_used (cur_meta p) = 32 * k ∧
    med_slots p (ext_used (cur_meta p)) ++ (slot_addr p <$> ml) ≡ₚ slot_addr p <$> seqZ 0 k;
  inv_med_chain : chain (λ a, mm_next (med_at p a)) (slot_addr p) (med_free (cur_meta p)) ml;
}.

(** The requests the run cases make. *)
Definition ok_request (type : RegionType) (run_case size : Z) : Prop :=
  is_alloc_type type = true ∧ 0 < size ≤ kExtentSize ∧ kExtentSize mod size = 0 ∧
  0 ≤ run_case < 2 ^ 32 ∧
  (type = kSmall → kExtentSize / size ≤ 256 ∧ (kExtentSize / size) mod 64 = 0) ∧
  (type ≠ kSmall → kExtentSize / size ≤ 32).

(** The header fields that no operation of the allocator changes. *)
Definition same_layout (h h' : HeadLine) : Prop :=
  size_ h' = size_ h ∧ ext_desc_ h' = ext_desc_ h ∧ ext_total_ h' = ext_total_ h ∧
  med_meta_ h' = med_meta_ h ∧ med_total_ h' = med_total_ h.
Definition same_head (h h' : HeadLine) : Prop :=
  same_layout h h' ∧ stat_ h' = stat_ h ∧ occupied_ h' = occupied_ h.

(** ** Lemmas *)

Section lists.
Implicit Types (f g : Z → bool).

Lemma filter_flip_perm f g (l : list Z) i :
  NoDup l → i ∈ l → f i = false → g i = true → (∀ j, j ∈ l → j ≠ i → f j = g j) →
  filter (λ j, g j = true) l ≡ₚ i :: filter (λ j, f j = true) l.
Proof.
  induction 1 as [|x l Hx Hl IH]; intros Hi Hf Hg Hfg; [by apply not_elem_of_nil in Hi|].
  rewrite !filter_cons. apply elem_of_cons in Hi as [<-|Hi].
  - rewrite Hf, Hg, decide_True, decide_False by done. f_equiv.
    rewrite (filter_ext_in g f); [done|]. intros j Hj. symmetry. apply Hfg; [set_solver|].
    by intros ->.
  - assert (x ≠ i) by (intros ->; done). rewrite <-(Hfg x) by set_solver.
    assert (∀ j, j ∈ l → j ≠ i → f j = g j) by set_solver.
    destruct (f x); [rewrite !decide_True by done|by rewrite !decide_False by done; apply IH].
    rewrite IH by done. apply Permutation_swap.
Qed.

Lemma chain_ext next next' addr addr' p l :
  (∀ i, i ∈ l → addr i = addr' i ∧ next (addr i) = next' (addr' i)) →
  chain next addr p l → chain next' addr' p l.
Proof.
  revert p. induction l as [|i l IH]; intros p Hn; simpl; [done|].
  destruct (Hn i) as [Ha Hn']; [set_solver|]. intros [-> Hc]. split; [done|].
  rewrite <-Hn'. apply IH; [intros j Hj; apply Hn; set_solver|done].
Qed.

Lemma length_medium_bound (f : Z → bool) (fl : list Z) n :
  0 ≤ n → NoDup fl → (∀ i, i ∈ fl → 0 ≤ i < n ∧ f i = false) →
  lenZ (filter (λ i, f i = true) (seqZ 0 n)) + lenZ fl ≤ n.
Proof.
  intros Hn Hnd Hf. rewrite <-lenZ_app.
  assert (filter (λ i, f i = true) (seqZ 0 n) ++ fl ⊆+ seqZ 0 n) as Hs.
  { apply NoDup_submseteq.
    - apply NoDup_app. split_and!; [apply NoDup_filter, NoDup_seqZ| |done].
      intros x [Hx _]%list_elem_of_filter Hx'. destruct (Hf x Hx') as [_ Hfx]. congruence.
    - intros x [[_ Hx]%list_elem_of_filter|Hx]%elem_of_app; [done|].
      apply elem_of_seqZ. destruct (Hf x Hx). lia. }
  apply submseteq_length in Hs. unfold lenZ. rewrite length_seqZ in Hs. lia.
Qed.
End lists.

(** Reads of the parts of memory that an update does not touch. *)
Ltac pm_frame :=
  repeat match goal with
  | |- context [pm_head (upd_meta ?a ?f ?p)] => change (pm_head (upd_meta a f p)) with (pm_head p)
  | |- context [pm_head (upd_desc ?a ?f ?p)] => change (pm_head (upd_desc a f p)) with (pm_head p)
  | |- context [pm_head (upd_med ?a ?f ?p)] => change (pm_head (upd_med a f p)) with (pm_head p)
  | |- context [pm_head (upd_head ?f ?p)] => change (pm_head (upd_head f p)) with (f (pm_head p))
  | |- context [meta_at (upd_head ?f ?p)] => change (meta_at (upd_head f p)) with (meta_at p)
  | |- context [meta_at (upd_desc ?a ?f ?p)] => change (meta_at (upd_desc a f p)) with (meta_at p)
  | |- context [meta_at (upd_med ?a ?f ?p)] => change (meta_at (upd_med a f p)) with (meta_at p)
  | |- context [desc_at (upd_head ?f ?p)] => change (desc_at (upd_head f p)) with (desc_at p)
  | |- context [desc_at (upd_meta ?a ?f ?p)] => change (desc_at (upd_meta a f p)) with (desc_at p)
  | |- context [desc_at (upd_med ?a ?f ?p)] => change (desc_at (upd_med a f p)) with (desc_at p)
  | |- context [med_at (upd_head ?f ?p)] => change (med_at (upd_head f p)) with (med_at p)
  | |- context [med_at (upd_meta ?a ?f ?p)] => change (med_at (upd_meta a f p)) with (med_at p)
  | |- context [med_at (upd_desc ?a ?f ?p)] => change (med_at (upd_desc a f p)) with (med_at p)
  end.

Section inv.
Context `{UtilSpec}.
Implicit Types (p : pmem) (fl ml : list Z).

Lemma ext_addr_inj p i j : ext_addr p i = ext_addr p j → i = j.
Proof. unfold ext_addr, elem_addr. change kCacheLineSize with 64. lia. Qed.
Lemma slot_addr_inj p i j : slot_addr p i = slot_addr p j → i = j.
Proof. unfold slot_addr, elem_addr. change kCacheLineSize with 64. lia. Qed.

Lemma ext_addr_wf p i :
  wf_head (pm_head p) → 0 ≤ i < ext_total_ (pm_head p) →
  ext_addr p i ≠ nullptr ∧ ext_addr p i mod 64 = 0 ∧
  elem_index (ext_addr p i) (ext_desc_ (pm_head p)) = i ∧
  ext_desc_ (pm_head p) ≤ ext_addr p i < elem_addr (ext_desc_ (pm_head p)) (ext_total_ (pm_head p)).
Proof.
  intros Hh Hi. unfold wf_head in Hh. unfold ext_addr, elem_index, elem_addr, nullptr.
  change kCacheLineSize with 64. split_and!; try lia.
  - Z.div_mod_to_equations. lia.
  - replace (ext_desc_ (pm_head p) + i * 64 - ext_desc_ (pm_head p)) with (i * 64) by lia.
    rewrite Z.div_mul by lia. apply Z.mod_small. lia.
Qed.

Lemma slot_addr_wf p j :
  wf_head (pm_head p) → 0 ≤ j < ext_total_ (pm_head p) →
  slot_addr p j ≠ nullptr ∧
  elem_index (slot_addr p j) (med_meta_ (pm_head p)) < med_total_ (pm_head p).
Proof.
  intros Hh Hi. unfold wf_head in Hh. unfold slot_addr, elem_index, elem_addr, nullptr.
  change kCacheLineSize with 64. split; [lia|].
  replace (med_meta_ (pm_head p) + 32 * j * 64 - med_meta_ (pm_head p)) with (32 * j * 64) by lia.
  rewrite Z.div_mul by lia. unfold u64, wrap. rewrite Z.mod_small by lia. lia.
Qed.

(** *** The MediumMeta arrays *)

(** The medium extents after the extent [i0] has been given the descriptor [d']. *)
Lemma medium_list_alloc p p' n n' i0 :
  0 ≤ n → 0 ≤ i0 < n' → (n' = n ∨ n' = n + 1 ∧ i0 = n) →
  (∀ i, 0 ≤ i < n' → i ≠ i0 → is_medium p' i = is_medium p i) →
  (i0 < n → is_medium p i0 = false) →
  medium_list p' n' ≡ₚ if is_medium p' i0 then i0 :: medium_list p n else medium_list p n.
Proof.
  intros Hn Hi Hcase Hsame Hfree. unfold medium_list. destruct Hcase as [->|[-> ->]].
  - destruct (is_medium p' i0) eqn:E.
    + apply filter_flip_perm; auto.
      * apply NoDup_seqZ.
      * apply elem_of_seqZ. lia.
      * apply Hfree. lia.
      * intros j Hj%elem_of_seqZ Hne. symmetry. apply Hsame; [lia|done].
    + rewrite (filter_ext_in (is_medium p') (is_medium p)); [done|].
      intros j Hj%elem_of_seqZ. destruct (decide (j = i0)) as [->|Hne].
      * rewrite E, Hfree by lia. done.
      * apply Hsame; [lia|done].
  - rewrite seqZ_app by lia. rewrite filter_app. change (0 + n) with n.
    rewrite (seqZ_cons n 1) by lia. rewrite (seqZ_nil (Z.succ n)) by lia.
    rewrite (filter_ext_in (is_medium p') (is_medium p)).
    + rewrite filter_cons, filter_nil. destruct (is_medium p' n) eqn:E.
      * rewrite decide_True by done. by rewrite Permutation_app_comm.
      * rewrite decide_False by congruence. by rewrite app_nil_r.
    + intros j Hj%elem_of_seqZ. apply Hsame; lia.
Qed.

Lemma med_slots_alloc p p' n n' i0 :
  0 ≤ n → 0 ≤ i0 < n' → (n' = n ∨ n' = n + 1 ∧ i0 = n) →
  (∀ i, 0 ≤ i < n' → i ≠ i0 → desc_of p' i = desc_of p i) →
  (i0 < n → is_medium p i0 = false) →
  med_slots p' n' ≡ₚ
    if is_medium p' i0 then ed_runs (desc_of p' i0) :: med_slots p n else med_slots p n.
Proof.
  intros Hn Hi Hcase Hsame Hfree. unfold med_slots.
  rewrite (medium_list_alloc p p' n n' i0); try done.
  2: { intros i Hin Hne. unfold is_medium. by rewrite Hsame. }
  assert ((λ i, ed_runs (desc_of p' i)) <$> medium_list p n =
          (λ i, ed_runs (desc_of p i)) <$> medium_list p n) as Heq.
  { apply list_fmap_ext. intros k i Hk. apply list_elem_of_lookup_2 in Hk.
    apply list_elem_of_filter in Hk as [Hm Hk%elem_of_seqZ]. f_equal. apply Hsame; [lia|].
    intros ->. rewrite Hfree in Hm by lia. done. }
  destruct (is_medium p' i0); [rewrite fmap_cons|]; by rewrite Heq.
Qed.

Lemma inv_slots_bound p fl ml k :
  ext_inv p fl ml → 0 ≤ k →
  med_slots p (ext_used (cur_meta p)) ++ (slot_addr p <$> ml) ≡ₚ slot_addr p <$> seqZ 0 k →
  ml = [] → k + lenZ fl ≤ ext_used (cur_meta p).
Proof.
  intros Hinv Hk Hp ->. simpl in Hp. rewrite app_nil_r in Hp.
  apply Permutation_length in Hp. unfold med_slots in Hp. rewrite !length_fmap, length_seqZ in Hp.
  pose proof (length_medium_bound (is_medium p) fl (ext_used (cur_meta p))) as Hb.
  unfold medium_list in Hp. unfold lenZ in *. destruct (inv_used _ _ _ Hinv).
  specialize (Hb ltac:(lia) (inv_nodup _ _ _ Hinv)). rewrite Hp in Hb.
  enough (Z.of_nat (Z.to_nat k) + Z.of_nat (length fl) ≤ ext_used (cur_meta p)) by lia.
  apply Hb. intros i Hi. destruct (inv_free _ _ _ Hinv i Hi) as [Hr Ht]. split; [done|].
  unfold is_medium. by rewrite Ht.
Qed.

(** Every free array is one of the used ones, distinct from those of the live
    medium extents. *)
Lemma inv_free_slot p fl ml j :
  ext_inv p fl ml → j ∈ ml → 0 ≤ j < ext_used (cur_meta p).
Proof.
  intros Hinv Hj. destruct (inv_med _ _ _ Hinv) as (k & Hk & _ & Hp).
  assert (slot_addr p j ∈ slot_addr p <$> seqZ 0 k) as Hin.
  { rewrite <-Hp. apply elem_of_app. right. by apply list_elem_of_fmap_2. }
  apply list_elem_of_fmap in Hin as (j' & He & Hj'%elem_of_seqZ).
  apply slot_addr_inj in He as ->. lia.
Qed.

Lemma same_layout_addr p p' i j :
  same_layout (pm_head p) (pm_head p') → ext_addr p' i = ext_addr p i ∧ slot_addr p' j = slot_addr p j.
Proof. intros (_ & He & _ & Hm & _). unfold ext_addr, slot_addr. by rewrite He, Hm. Qed.

Lemma same_layout_wf p p' :
  same_layout (pm_head p) (pm_head p') → wf_head (pm_head p) →
  mind_ (pm_head p') = 0 ∨ mind_ (pm_head p') = 1 → wf_head (pm_head p').
Proof. intros (_ & He & Ht & Hm & Hmt) Hw Hi. unfold wf_head in *. rewrite He, Ht, Hm, Hmt. tauto. Qed.

Lemma same_head_addr p p' i j :
  same_head (pm_head p) (pm_head p') → ext_addr p' i = ext_addr p i ∧ slot_addr p' j = slot_addr p j.
Proof. intros [Hl _]. by apply same_layout_addr. Qed.

Lemma same_head_wf p p' :
  same_head (pm_head p) (pm_head p') → wf_head (pm_head p) →
  mind_ (pm_head p') = 0 ∨ mind_ (pm_head p') = 1 → wf_head (pm_head p').
Proof. intros [Hl _]. by apply same_layout_wf. Qed.

(** The invariant does not depend on the links of the live extents, on their
    occupancy, or on the contents of the live arrays. *)
Lemma ext_inv_frame p p' fl ml :
  ext_inv p fl ml → same_layout (pm_head p) (pm_head p') → mind_ (pm_head p') = mind_ (pm_head p) →
  cur_meta p' = cur_meta p →
  (∀ i, i ∈ fl → ed_type (desc_of p' i) = kInvalid ∧ ed_next (desc_of p' i) = ed_next (desc_of p i)) →
  (∀ i, live p fl i → wf_desc (desc_of p' i) ∧ ed_type (desc_of p' i) = ed_type (desc_of p i) ∧
                      ed_runs (desc_of p' i) = ed_runs (desc_of p i)) →
  (∀ j, j ∈ ml → mm_next (med_at p' (slot_addr p j)) = mm_next (med_at p (slot_addr p j))) →
  ext_inv p' fl ml.
Proof.
  intros Hinv Hh Hmi Hc Hf Hl Hm.
  assert (∀ i, 0 ≤ i < ext_used (cur_meta p) → is_medium p' i = is_medium p i) as Hmed.
  { intros i Hi. unfold is_medium. destruct (decide (i ∈ fl)) as [Hin|Hni].
    - destruct (Hf i Hin) as [-> _]. by destruct (inv_free _ _ _ Hinv i Hin) as [_ ->].
    - by destruct (Hl i) as (_ & -> & _). }
  assert (med_slots p' (ext_used (cur_meta p)) = med_slots p (ext_used (cur_meta p))) as Hs.
  { unfold med_slots, medium_list. rewrite (filter_ext_in (is_medium p') (is_medium p)).
    - apply list_fmap_ext. intros k i Hi. apply list_elem_of_lookup_2 in Hi.
      apply list_elem_of_filter in Hi as [Hmi' Hi%elem_of_seqZ].
      destruct (decide (i ∈ fl)) as [Hin|Hni]; [|by destruct (Hl i) as (_ & _ & ->)].
      unfold is_medium in Hmi'. destruct (inv_free _ _ _ Hinv i Hin) as [_ Ht]. by rewrite Ht in Hmi'.
    - intros i Hi%elem_of_seqZ. apply Hmed. lia. }
  destruct Hinv as [i1 i2 i3 i4 i5 i6 i7 i8]. constructor; rewrite ?Hc; try done.
  - apply (same_layout_wf p p'); [done|done|]. rewrite Hmi. apply i1.
  - destruct Hh as (_ & _ & -> & _). done.
  - intros i Hi. split; [by apply i4|]. by apply Hf.
  - eapply chain_ext, i5. intros i Hi. destruct (same_layout_addr p p' i 0 Hh) as [He _].
    rewrite He. split; [done|]. destruct (Hf i Hi) as [_ Hn]. unfold desc_of in Hn. by rewrite He in Hn.
  - intros i [Hi Hni]. rewrite Hc in Hi. by apply Hl.
  - destruct i7 as (k & Hk & Hku & Hp). exists k. split_and!; try apply Hk; [done|].
    rewrite Hs. assert (∀ l : list Z, slot_addr p' <$> l = slot_addr p <$> l) as Hsl.
    { intros l. apply list_fmap_ext. intros _ j _. by destruct (same_layout_addr p p' 0 j Hh). }
    by rewrite !Hsl.
  - eapply chain_ext, i8. intros j Hj. destruct (same_layout_addr p p' 0 j Hh) as [_ ->].
    split; [done|]. by rewrite Hm.
Qed.

(** How an operation that takes the extent [i0] may change the lists of extents
    and of MediumMeta arrays. *)
Definition ext_taken (p p' : pmem) (i0 : Z) (fl fl' : list Z) : Prop :=
  let m := cur_meta p in
  let m' := cur_meta p' in
  (fl = i0 :: fl' ∧ ext_used m' = ext_used m ∧ ext_free m' = ed_next (desc_of p i0)) ∨
  (fl = [] ∧ fl' = [] ∧ i0 = ext_used m ∧ i0 < ext_total_ (pm_head p) ∧
   ext_used m' = ext_used m + 1 ∧ ext_free m' = nullptr).

Definition med_taken (p p' : pmem) (d' : ExtentDesc) (ml ml' : list Z) : Prop :=
  let m := cur_meta p in
  let m' := cur_meta p' in
  (ed_type d' ≠ kMedium ∧ ml' = ml ∧ med_used m' = med_used m ∧ med_free m' = med_free m) ∨
  (ed_type d' = kMedium ∧ ∃ j, ml = j :: ml' ∧ ed_runs d' = slot_addr p j ∧
   med_used m' = med_used m ∧ med_free m' = mm_next (med_at p (slot_addr p j))) ∨
  (ed_type d' = kMedium ∧ ml = [] ∧ ml' = [] ∧
   ed_runs d' = elem_addr (med_meta_ (pm_head p)) (med_used m) ∧
   med_used m' = med_used m + 32 ∧ med_free m' = nullptr).

(** The facts about the lists of extents that follow from [ext_taken]. *)
Lemma ext_taken_facts p p' i0 fl fl' ml :
  ext_inv p fl ml → ext_taken p p' i0 fl fl' →
  let n := ext_used (cur_meta p) in
  let n' := ext_used (cur_meta p') in
  0 ≤ i0 < n' ∧ n' ≤ ext_total_ (pm_head p) ∧ n ≤ n' ∧ (n' = n ∨ n' = n + 1 ∧ i0 = n) ∧
  (i0 < n → is_medium p i0 = false) ∧ NoDup fl' ∧ i0 ∉ fl' ∧ (∀ i, i ∈ fl' → i ∈ fl) ∧
  (∀ i, 0 ≤ i < n' → i ≠ i0 → i ∉ fl' → live p fl i).
Proof.
  intros Hinv Ht. pose proof (inv_used _ _ _ Hinv) as Hu. pose proof (inv_nodup _ _ _ Hinv) as Hnd.
  destruct Ht as [(-> & Hu' & _)|(-> & -> & -> & Hlt & Hu' & _)]; rewrite Hu'.
  - apply NoDup_cons in Hnd as [Hni Hnd]. destruct (inv_free _ _ _ Hinv i0) as [Hr Hty]; [set_solver|].
    split_and!; try done; try lia.
    + intros _. unfold is_medium. by rewrite Hty.
    + set_solver.
    + intros i Hi Hne Hnf. split; [lia|]. set_solver.
  - split_and!; try lia; try done; try apply not_elem_of_nil.
    intros i Hi Hne _. split; [lia|]. apply not_elem_of_nil.
Qed.

Lemma med_taken_inv p p' i0 fl fl' ml ml' :
  ext_inv p fl ml → ext_taken p p' i0 fl fl' → same_head (pm_head p) (pm_head p') →
  (∀ a, a ≠ ext_addr p i0 → desc_at p' a = desc_at p a) →
  (∀ a, med_at p' a = med_at p a) →
  med_taken p p' (desc_of p' i0) ml ml' →
  (∃ k, 0 ≤ k ≤ ext_used (cur_meta p') ∧ med_used (cur_meta p') = 32 * k ∧
     med_slots p' (ext_used (cur_meta p')) ++ (slot_addr p' <$> ml') ≡ₚ slot_addr p' <$> seqZ 0 k) ∧
  chain (λ a, mm_next (med_at p' a)) (slot_addr p') (med_free (cur_meta p')) ml'.
Proof.
  intros Hinv Ht Hh Hd Hm Hmed.
  destruct (ext_taken_facts _ _ _ _ _ _ Hinv Ht) as (Hi & Hle & Hnn & Hcase & Hmf & _ & _ & _ & _).
  pose proof (inv_used _ _ _ Hinv) as Hu.
  assert (∀ i, 0 ≤ i < ext_used (cur_meta p') → i ≠ i0 → desc_of p' i = desc_of p i) as Hd'.
  { intros i _ Hne. unfold desc_of. destruct (same_head_addr p p' i 0 Hh) as [-> _]. apply Hd.
    intros He. by apply ext_addr_inj in He. }
  pose proof (med_slots_alloc p p' _ _ i0 (proj1 Hu) Hi Hcase Hd' Hmf) as Hs.
  assert (∀ l : list Z, slot_addr p' <$> l = slot_addr p <$> l) as Hsl.
  { intros l. apply list_fmap_ext. intros _ j _. by destruct (same_head_addr p p' 0 j Hh). }
  destruct (inv_med _ _ _ Hinv) as (k & Hk & Hku & Hp). pose proof (inv_med_chain _ _ _ Hinv) as Hc.
  assert (∀ q l, chain (λ a, mm_next (med_at p a)) (slot_addr p) q l →
                 chain (λ a, mm_next (med_at p' a)) (slot_addr p') q l) as Hchain.
  { intros q l. apply chain_ext. intros j _. destruct (same_head_addr p p' 0 j Hh) as [_ ->].
    by rewrite Hm. }
  unfold is_medium in Hs.
  destruct Hmed as [(Hty & -> & Hmu & Hmfr)|[(Hty & j & -> & Hr & Hmu & Hmfr)|
    (Hty & -> & -> & Hr & Hmu & Hmfr)]]; rewrite Hsl.
  - rewrite bool_decide_false in Hs by done. split.
    + exists k. split; [lia|]. split; [congruence|]. by rewrite Hs, Hsl.
    + rewrite Hmfr. by apply Hchain.
  - rewrite bool_decide_true in Hs by done. rewrite Hr in Hs. split.
    + exists k. split; [lia|]. split; [congruence|]. rewrite Hs, Hsl, <-Hp. simpl.
      apply Permutation_middle.
    + rewrite Hmfr. apply Hchain. by destruct Hc.
  - rewrite bool_decide_true in Hs by done. rewrite Hr, Hku in Hs. split; [|by rewrite Hmfr].
    exists (k + 1). pose proof (inv_slots_bound p fl [] k Hinv ltac:(lia) Hp eq_refl) as Hb.
    split.
    { destruct Ht as [(-> & Hu' & _)|(-> & _ & -> & _ & Hu' & _)]; unfold lenZ in Hb; simpl in Hb; lia. }
    split; [lia|]. rewrite Hs, Hsl. simpl in *. rewrite app_nil_r in *.
    rewrite seqZ_app by lia. rewrite fmap_app. change (0 + k) with k.
    rewrite (seqZ_cons k 1) by lia. rewrite (seqZ_nil (Z.succ k)) by lia. simpl.
    rewrite Hp. rewrite <-Permutation_cons_append. done.
Qed.

(** Taking an extent keeps the invariant. *)
Lemma ext_inv_alloc p p' i0 fl fl' ml ml' :
  ext_inv p fl ml → ext_taken p p' i0 fl fl' → same_head (pm_head p) (pm_head p') →
  mind_ (pm_head p') = 0 ∨ mind_ (pm_head p') = 1 →
  (∀ a, a ≠ ext_addr p i0 → desc_at p' a = desc_at p a) →
  (∀ a, med_at p' a = med_at p a) → wf_desc (desc_of p' i0) →
  med_taken p p' (desc_of p' i0) ml ml' → ext_inv p' fl' ml'.
Proof.
  intros Hinv Ht Hh Hmi Hd Hm Hwf Hmed.
  destruct (ext_taken_facts _ _ _ _ _ _ Hinv Ht)
    as (Hi & Hle & Hnn & Hcase & Hmf & Hnd & Hni & Hsub & Hlive).
  destruct (med_taken_inv p p' i0 fl fl' ml ml') as [Hmed1 Hmed2]; try done.
  pose proof (inv_used _ _ _ Hinv) as Hu.
  assert (∀ i, i ≠ i0 → desc_of p' i = desc_of p i) as Hd'.
  { intros i Hne. unfold desc_of. destruct (same_head_addr p p' i 0 Hh) as [-> _]. apply Hd.
    intros He. by apply ext_addr_inj in He. }
  assert (ext_total_ (pm_head p') = ext_total_ (pm_head p)) as Htot by apply Hh.
  constructor; try done.
  - apply (same_head_wf p p'); try done. apply (inv_head _ _ _ Hinv).
  - lia.
  - intros i Hin. destruct (inv_free _ _ _ Hinv i (Hsub i Hin)) as [Hr Hty].
    rewrite Hd' by (intros ->; done). split; [lia|done].
  - destruct Ht as [(-> & _ & Hf)|(_ & -> & _ & _ & _ & Hf)]; rewrite Hf; [|done].
    destruct (inv_chain _ _ _ Hinv) as [_ Hc]. eapply chain_ext, Hc.
    intros i Hin. destruct (same_head_addr p p' i 0 Hh) as [-> _]. split; [done|].
    rewrite Hd; [done|]. intros He. apply ext_addr_inj in He as ->. done.
  - intros i [Hr Hnf]. destruct (decide (i = i0)) as [->|Hne]; [done|]. rewrite Hd' by done.
    apply (inv_live _ _ _ Hinv). by apply Hlive.
Qed.

(** A live medium extent has its own array, which is not free. *)
Lemma live_slot p fl ml i :
  ext_inv p fl ml → live p fl i → is_medium p i = true →
  ∃ j, 0 ≤ j < ext_total_ (pm_head p) ∧ ed_runs (desc_of p i) = slot_addr p j ∧ j ∉ ml.
Proof.
  intros Hinv [Hi Hnf] Hm. destruct (inv_med _ _ _ Hinv) as (k & Hk & _ & Hp).
  pose proof (inv_used _ _ _ Hinv).
  assert (ed_runs (desc_of p i) ∈ med_slots p (ext_used (cur_meta p))) as Hin.
  { unfold med_slots. apply (list_elem_of_fmap_2 (λ i, ed_runs (desc_of p i))).
    apply list_elem_of_filter. split; [done|]. apply elem_of_seqZ. lia. }
  assert (NoDup (slot_addr p <$> seqZ 0 k)) as Hnd.
  { apply NoDup_fmap_2; [intros a b; apply slot_addr_inj|apply NoDup_seqZ]. }
  rewrite <-Hp in Hnd. apply NoDup_app in Hnd as (_ & Hdisj & _).
  assert (ed_runs (desc_of p i) ∈ slot_addr p <$> seqZ 0 k) as Hin'.
  { rewrite <-Hp. apply elem_of_app. by left. }
  apply list_elem_of_fmap in Hin' as (j & He & Hj%elem_of_seqZ). exists j.
  split; [lia|]. split; [done|]. intros Hj'. apply (Hdisj _ Hin). rewrite He.
  by apply list_elem_of_fmap_2.
Qed.

Definition med_given (p p' : pmem) (i0 : Z) (ml ml' : list Z) : Prop :=
  let m := cur_meta p in
  let m' := cur_meta p' in
  med_used m' = med_used m ∧
  if is_medium p i0 then
    ∃ j, ed_runs (desc_of p i0) = slot_addr p j ∧ ml' = j :: ml ∧ med_free m' = slot_addr p j ∧
      mm_next (med_at p' (slot_addr p j)) = med_free m ∧
      ∀ a, a ≠ slot_addr p j → med_at p' a = med_at p a
  else ml' = ml ∧ med_free m' = med_free m ∧ ∀ a, med_at p' a = med_at p a.

Lemma med_given_inv p p' i0 fl ml ml' :
  ext_inv p fl ml → live p fl i0 → same_head (pm_head p) (pm_head p') →
  ext_used (cur_meta p') = ext_used (cur_meta p) →
  (∀ a, a ≠ ext_addr p i0 → desc_at p' a = desc_at p a) →
  ed_type (desc_of p' i0) = kInvalid → med_given p p' i0 ml ml' →
  (∃ k, 0 ≤ k ≤ ext_used (cur_meta p') ∧ med_used (cur_meta p') = 32 * k ∧
     med_slots p' (ext_used (cur_meta p')) ++ (slot_addr p' <$> ml') ≡ₚ slot_addr p' <$> seqZ 0 k) ∧
  chain (λ a, mm_next (med_at p' a)) (slot_addr p') (med_free (cur_meta p')) ml'.
Proof.
  intros Hinv Hl Hh Hu Hd Hty [Hmu Hmed]. rewrite Hu, Hmu. set (n := ext_used (cur_meta p)) in *.
  pose proof (inv_used _ _ _ Hinv) as Hn. fold n in Hn. destruct Hl as [Hi Hni] eqn:El.
  assert (is_medium p' i0 = false) as Hm' by (unfold is_medium; by rewrite Hty).
  assert (∀ i, 0 ≤ i < n → i ≠ i0 → desc_of p i = desc_of p' i) as Hd'.
  { intros i _ Hne. unfold desc_of. destruct (same_head_addr p p' i 0 Hh) as [-> _].
    rewrite Hd; [done|]. intros He. by apply ext_addr_inj in He. }
  pose proof (med_slots_alloc p' p n n i0 (proj1 Hn) Hi (or_introl eq_refl) Hd' (λ _, Hm')) as Hs.
  assert (∀ l : list Z, slot_addr p' <$> l = slot_addr p <$> l) as Hsl.
  { intros l. apply list_fmap_ext. intros _ j _. by destruct (same_head_addr p p' 0 j Hh). }
  destruct (inv_med _ _ _ Hinv) as (k & Hk & Hku & Hp). fold n in Hk, Hp.
  pose proof (inv_med_chain _ _ _ Hinv) as Hc.
  destruct (is_medium p i0) eqn:Em.
  - destruct Hmed as (j & Hr & -> & Hmf & Hnx & Hrest).
    destruct (live_slot p fl ml i0 Hinv Hl Em) as (j' & _ & Hr' & Hj').
    assert (j' = j) as -> by (apply (slot_addr_inj p); congruence).
    split.
    + exists k. split; [done|]. split; [done|]. rewrite !Hsl, <-Hp, Hs, Hr. simpl.
      symmetry. apply Permutation_middle.
    + simpl. destruct (same_head_addr p p' 0 j Hh) as [_ ->]. split; [done|]. rewrite Hnx.
      eapply chain_ext, Hc. intros i Hin. destruct (same_head_addr p p' 0 i Hh) as [_ ->].
      split; [done|]. rewrite Hrest; [done|]. intros He. apply slot_addr_inj in He as ->. done.
  - destruct Hmed as (-> & Hmf & Hrest). split.
    + exists k. split; [done|]. split; [done|]. by rewrite !Hsl, <-Hp, Hs.
    + rewrite Hmf. eapply chain_ext, Hc. intros i _. destruct (same_head_addr p p' 0 i Hh) as [_ ->].
      by rewrite Hrest.
Qed.

(** Giving an extent back keeps the invariant. *)
Lemma ext_inv_release p p' i0 fl ml ml' :
  ext_inv p fl ml → live p fl i0 → same_head (pm_head p) (pm_head p') →
  mind_ (pm_head p') = 0 ∨ mind_ (pm_head p') = 1 →
  ext_used (cur_meta p') = ext_used (cur_meta p) →
  ext_free (cur_meta p') = ext_addr p i0 →
  (∀ a, a ≠ ext_addr p i0 → desc_at p' a = desc_at p a) →
  ed_type (desc_of p' i0) = kInvalid → ed_next (desc_of p' i0) = ext_free (cur_meta p) →
  med_given p p' i0 ml ml' → ext_inv p' (i0 :: fl) ml'.
Proof.
  intros Hinv Hl Hh Hmi Hu Hf Hd Hty Hnx Hmed.
  destruct (med_given_inv p p' i0 fl ml ml') as [Hmed1 Hmed2]; try done.
  pose proof (inv_used _ _ _ Hinv) as Hn.
  assert (∀ i, i ≠ i0 → desc_of p' i = desc_of p i) as Hd'.
  { intros i Hne. unfold desc_of. destruct (same_head_addr p p' i 0 Hh) as [-> _]. apply Hd.
    intros He. by apply ext_addr_inj in He. }
  assert (ext_total_ (pm_head p') = ext_total_ (pm_head p)) as Htot by apply Hh.
  destruct Hl as [Hi Hni].
  constructor; try done.
  - apply (same_head_wf p p'); try done. apply (inv_head _ _ _ Hinv).
  - lia.
  - constructor; [done|]. apply (inv_nodup _ _ _ Hinv).
  - intros i [->|Hin]%elem_of_cons; [split; [lia|done]|].
    destruct (inv_free _ _ _ Hinv i Hin) as [Hr Ht]. rewrite Hd' by (intros ->; done).
    split; [lia|done].
  - simpl. destruct (same_head_addr p p' i0 0 Hh) as [He _]. rewrite He. split; [done|].
    assert (ed_next (desc_at p' (ext_addr p i0)) = ext_free (cur_meta p)) as ->.
    { rewrite <-Hnx. unfold desc_of. by rewrite He. }
    eapply chain_ext, (inv_chain _ _ _ Hinv). intros i Hin.
    destruct (same_head_addr p p' i 0 Hh) as [-> _]. split; [done|].
    rewrite Hd; [done|]. intros Hea. apply ext_addr_inj in Hea as ->. done.
  - intros i [Hr Hnf]. apply not_elem_of_cons in Hnf as [Hne Hnf].
    rewrite Hd' by done. apply (inv_live _ _ _ Hinv). split; [lia|done].
Qed.
End inv.
