(* ===== verification/MetaLog.v ===== *)
(** * The events of the extent allocator

    Rules that run the primitives and record the events they log; the logs of
    the operations that take an extent, in the shape that
    [Pmem.commit_image] asks for: everything but one line is stored and settled,
    then that line is stored. *)

From S2P Require Export MetaInv.
Import Pmem.

(** ** Definitions *)

(** The events of a program, as a list added to the log. *)
Definition logs {A} (m : M pst A) (p : pmem) (Q : A → pmem → list (pev loc val) → Prop) : Prop :=
  ∀ lg, wp m (λ a s, ∃ tr, log s = lg ++ tr ∧ Q a (mem s) tr) {| mem := p; log := lg |}.

(** The log of an operation that takes the extent [i]: it stores to the
    descriptor and to the other DescMeta, settles them, then commits with one
    store. *)
Definition acquire_log (p p1 : pmem) (fl : list Z) (i : Z) (tr : list (pev loc val)) : Prop :=
  ∃ tr1 C,
    tr = tr1 ++ [Store C (loc_val p1 C); Flush C; Fence] ∧
    (C = LHead ∨ C = LMeta (mind_ (pm_head p))) ∧
    (∀ l x, Store l x ∈ tr1 →
       l = LMeta ((mind_ (pm_head p) + 1) mod 2) ∨
       ∃ d, l = LDesc (ext_addr p i) ∧ x = VDesc d ∧
            (i ∈ fl → ed_next d = ed_next (desc_of p i))) ∧
    (∀ l, l ≠ C → settled l (loc_val p l) tr1 (loc_val p1 l)).

(** The log of an operation that gives the extent [i] back: the same, then the
    type of the descriptor is invalidated.  [p2] is the state at the commit. *)
Definition release_log (p p1 : pmem) (i : Z) (tr : list (pev loc val)) : Prop :=
  ∃ tr1 C p2,
    tr = tr1 ++ [Store C (loc_val p2 C); Flush C; Fence] ++
         [Store (LDesc (ext_addr p i)) (VDesc (set_ed_type kInvalid (desc_at p2 (ext_addr p i))));
          Flush (LDesc (ext_addr p i)); Fence] ∧
    (C = LHead ∨ C = LMeta (mind_ (pm_head p))) ∧
    p1 = upd_desc (ext_addr p i) (set_ed_type kInvalid) p2 ∧
    (∀ l x, Store l x ∈ tr1 →
       l = LMeta ((mind_ (pm_head p) + 1) mod 2) ∨
       l = LMed (ed_runs (desc_of p i)) ∧ is_medium p i = true ∨
       ∃ d, l = LDesc (ext_addr p i) ∧ x = VDesc d ∧
            set_ed_next nullptr d = set_ed_next nullptr (desc_of p i)) ∧
    (∀ l, l ≠ C → settled l (loc_val p l) tr1 (loc_val p2 l)).

(** The array and the counters that [allocate_meta] chooses. *)
Definition alloc_runs (p : pmem) (m : DescMeta) : Z :=
  if med_free m =? nullptr then elem_addr (med_meta_ (pm_head p)) (med_used m) else med_free m.
Definition alloc_meta (p : pmem) (m : DescMeta) : DescMeta :=
  if med_free m =? nullptr then set_med_used (u64 (med_used m + kNBaseExtent)) m
  else set_med_free (mm_next (med_at p (med_free m))) m.

(** ** Rules *)

Section rules.
Implicit Types (p : pmem) (lg : list (pev loc val)).

(** The rules of the primitives, with the events they log. *)
Lemma wpl_desc a f (Q : unit → pst → Prop) p lg :
  Q tt {| mem := upd_desc a f p; log := lg ++ [Store (LDesc a) (VDesc (f (desc_at p a)))] |} →
  wp (st_desc a f) Q {| mem := p; log := lg |}.
Proof. unfold wp, st_desc, st_store, mmodify. simpl. by rewrite desc_at_upd_eq. Qed.

Lemma wpl_med a f (Q : unit → pst → Prop) p lg :
  Q tt {| mem := upd_med a f p; log := lg ++ [Store (LMed a) (VMed (f (med_at p a)))] |} →
  wp (st_med a f) Q {| mem := p; log := lg |}.
Proof. unfold wp, st_med, st_store, mmodify. simpl. by rewrite med_at_upd_eq. Qed.

Lemma wpl_head f (Q : unit → pst → Prop) p lg :
  Q tt {| mem := upd_head f p; log := lg ++ [Store LHead (VHead (f (pm_head p)))] |} →
  wp (st_head f) Q {| mem := p; log := lg |}.
Proof. done. Qed.

Lemma wpl_meta i f (Q : unit → pst → Prop) p lg :
  Q tt {| mem := upd_meta i f p; log := lg ++ [Store (LMeta i) (VMeta (f (meta_at p i)))] |} →
  wp (st_meta i f) Q {| mem := p; log := lg |}.
Proof. unfold wp, st_meta, st_store, mmodify. simpl. by rewrite meta_at_upd_eq. Qed.

Lemma wpl_flush l (Q : unit → pst → Prop) p lg :
  Q tt {| mem := p; log := lg ++ [Flush l] |} →
  wp (persist_write_back l) Q {| mem := p; log := lg |}.
Proof. done. Qed.

Lemma wpl_fence (Q : unit → pst → Prop) p lg :
  Q tt {| mem := p; log := lg ++ [Fence] |} →
  wp persist_wait_finish Q {| mem := p; log := lg |}.
Proof. done. Qed.

Lemma wpl_wait l (Q : unit → pst → Prop) p lg :
  Q tt {| mem := p; log := lg ++ [Flush l; Fence] |} →
  wp (wait_write_back l) Q {| mem := p; log := lg |}.
Proof.
  intros HQ. unfold wait_write_back. wp_step. apply wpl_flush, wpl_fence. by rewrite <-app_assoc.
Qed.
End rules.

Ltac pl_step :=
  lazymatch goal with
  | |- wp (st_desc _ _) _ _ => apply wpl_desc
  | |- wp (st_med _ _) _ _ => apply wpl_med
  | |- wp (st_head _) _ _ => apply wpl_head
  | |- wp (st_meta _ _) _ _ => apply wpl_meta
  | |- wp (wait_write_back _) _ _ => apply wpl_wait
  | |- wp (persist_write_back _) _ _ => apply wpl_flush
  | |- wp persist_wait_finish _ _ => apply wpl_fence
  | |- wp (ld_desc _) _ _ => unfold ld_desc; apply wp_gets; cbn [mem]
  | |- wp (ld_med _) _ _ => unfold ld_med; apply wp_gets; cbn [mem]
  | |- wp ld_head _ _ => unfold ld_head; apply wp_gets; cbn [mem]
  | |- wp (ld_meta _) _ _ => unfold ld_meta; apply wp_gets; cbn [mem]
  | |- wp (mwhen true _) _ _ => unfold mwhen
  | |- wp (mwhen false _) _ _ => unfold mwhen
  | |- _ => wp_step
  end.
Ltac pl_steps := repeat pl_step.

Section construct.
Context `{UtilSpec}.

(** [construct] stores to its own line only, and every value it stores has the
    old or the given link. *)
Lemma construct_logs this type run_case size next runs wait p :
  is_alloc_type type = true → 0 < size ≤ kExtentSize → kExtentSize mod size = 0 →
  (type = kMedium → runs ≠ nullptr) → this mod 64 = 0 →
  logs (ExtentDesc_construct this type run_case size next runs wait) p (λ _ p' tr,
    p' = upd_desc this (λ _, new_desc type run_case size next runs) p ∧
    ∃ vs, tr = (Store (LDesc this) ∘ VDesc <$> vs) ++ [Flush (LDesc this)] ++
               (if wait then [Fence] else []) ∧
          Forall (λ v, ed_next v = ed_next (desc_at p this) ∨ ed_next v = next) vs ∧
          last vs = Some (new_desc type run_case size next runs)).
Proof.
  intros Ht Hs Hm Hr Ha lg. unfold ExtentDesc_construct. rewrite Ht.
  rewrite (proj2 (Z.eqb_neq size 0)) by lia.
  wp_step. wp_step; [done|]. wp_step. wp_step; [by apply Z.leb_le; lia|].
  wp_step. wp_step; [by apply Z.eqb_eq|]. wp_step. wp_step.
  { destruct (decide (type = kMedium)) as [He|He].
    - rewrite bool_decide_true by done. simpl. apply negb_true_iff, Z.eqb_neq. by apply Hr.
    - by rewrite bool_decide_false. }
  pl_steps. rewrite !desc_at_upd_eq.
  destruct type; try done; cbn match; pl_steps; rewrite !desc_at_upd_eq;
    destruct wait; pl_steps; try (by apply Z.eqb_eq);
    (eexists; split; [cbn [log]; rewrite <-!app_assoc; reflexivity|]; cbn [mem];
     rewrite !upd_desc_upd_desc; split; [by apply upd_desc_ext|]);
    eexists [_; _; _; _; _; _; _];
    (split; [reflexivity|]); (split; [repeat constructor; simpl; tauto|]); reflexivity.
Qed.
End construct.

(** The content of a line after an update. *)
Section loc_val.
Implicit Types (p : pmem) (l : loc).

Lemma loc_val_desc a f p l :
  loc_val (upd_desc a f p) l = if decide (l = LDesc a) then VDesc (f (desc_at p a)) else loc_val p l.
Proof.
  case_decide as Hd; [subst; simpl; by rewrite desc_at_upd_eq|]. destruct l; simpl; try done.
  rewrite desc_at_upd_ne; [done|]. congruence.
Qed.

Lemma loc_val_med a f p l :
  loc_val (upd_med a f p) l = if decide (l = LMed a) then VMed (f (med_at p a)) else loc_val p l.
Proof.
  case_decide as Hd; [subst; simpl; by rewrite med_at_upd_eq|]. destruct l; simpl; try done.
  rewrite med_at_upd_ne; [done|]. congruence.
Qed.

Lemma loc_val_meta i f p l :
  loc_val (upd_meta i f p) l = if decide (l = LMeta i) then VMeta (f (meta_at p i)) else loc_val p l.
Proof.
  case_decide as Hd; [subst; simpl; by rewrite meta_at_upd_eq|]. destruct l; simpl; try done.
  rewrite meta_at_upd_ne; [done|]. congruence.
Qed.

Lemma loc_val_head f p l :
  loc_val (upd_head f p) l = if decide (l = LHead) then VHead (f (pm_head p)) else loc_val p l.
Proof. case_decide as Hd; [by subst|]. by destruct l. Qed.

(** The last option of a line is the last value stored to it. *)
Lemma run_mark l (tr : list (pev loc val)) (s : line_state val) :
  (mark s < length (opts s))%nat → (mark (line_run l tr s) < length (opts (line_run l tr s)))%nat.
Proof.
  unfold line_run. revert s. induction tr as [|e tr IH]; intros s Hs; simpl; [done|]. apply IH.
  destruct e as [l' v|l'|]; simpl.
  - case_decide; [simpl; rewrite length_app; simpl; lia|done].
  - case_decide; [simpl; lia|done].
  - rewrite length_drop. lia.
Qed.

Lemma run_last l (tr : list (pev loc val)) (s : line_state val) w :
  (mark s < length (opts s))%nat → last (opts s) = Some w → (∀ x, Store l x ∉ tr) →
  last (opts (line_run l tr s)) = Some w.
Proof.
  unfold line_run. revert s. induction tr as [|e tr IH]; intros s Hs Hl Hu; simpl; [done|].
  assert (∀ x, Store l x ∉ tr) as Hu' by (intros x Hx; apply (Hu x); by right).
  destruct e as [l' v|l'|]; simpl.
  - rewrite decide_False; [by apply IH|]. intros ->. apply (Hu v). by left.
  - case_decide; [|by apply IH]. apply IH; [simpl; lia|done|done].
  - apply IH; [simpl; rewrite length_drop; lia| |done]. simpl. rewrite last_lookup in *.
    rewrite lookup_drop, length_drop. by replace (_ + _)%nat with (pred (length (opts s))) by lia.
Qed.

(** A line whose last store is followed by its write-back and a fence. *)
Lemma settled_store l v0 (tr1 tr2 tr3 : list (pev loc val)) v :
  (∀ x, Store l x ∉ tr2) → (∀ x, Store l x ∉ tr3) →
  settled l v0 (tr1 ++ Store l v :: tr2 ++ Flush l :: tr3 ++ [Fence]) v.
Proof.
  intros Hu2 Hu3. replace (tr1 ++ Store l v :: tr2 ++ Flush l :: tr3 ++ [Fence])
    with ((tr1 ++ Store l v :: tr2) ++ Flush l :: tr3 ++ [Fence]) by (by rewrite <-app_assoc).
  apply settled_flush; [|done]. unfold crash_options.
  change (Store l v :: tr2) with ([Store l v] ++ tr2). rewrite !line_run_app.
  pose proof (run_mark l tr1 {| opts := [v0]; mark := 0 |} ltac:(simpl; lia)) as Hm.
  apply run_last; simpl; rewrite ?decide_True by done; simpl.
  - rewrite length_app. simpl. lia.
  - apply last_snoc.
  - done.
Qed.
End loc_val.

Section logs.
Context `{UtilSpec}.
Implicit Types (p : pmem) (fl ml : list Z).

Lemma logs_bind {A B} (m : M pst A) (k : A → M pst B) p Q :
  logs m p (λ a p' tr, logs (k a) p' (λ b p'' tr', Q b p'' (tr ++ tr'))) → logs (m ≫= k) p Q.
Proof.
  intros Hm lg. wp_step. eapply wp_mono; [apply Hm|]. intros a [p' lg'] (tr & Hlog & Hk).
  simpl in *. subst lg'. eapply wp_mono; [apply Hk|]. intros b [p'' lg''] (tr' & Hlog' & HQ).
  simpl in *. subst lg''. exists (tr ++ tr'). split; [by rewrite app_assoc|done].
Qed.

Lemma copy_meta_logs nid oid p :
  nid ≠ oid →
  logs (copy_meta nid oid) p (λ _ p' tr,
    p' = upd_meta nid (λ _, meta_at p oid) p ∧ ∃ vs, tr = Store (LMeta nid) ∘ VMeta <$> vs).
Proof.
  intros Hne lg. unfold copy_meta. pl_steps. eexists. split; [cbn [log]; by rewrite <-!app_assoc|].
  cbn [mem]. split; [|eexists [_; _; _; _]; reflexivity]. rewrite !upd_meta_upd_meta.
  apply upd_meta_ext. simpl. by destruct (meta_at p oid).
Qed.

Lemma allocate_meta_logs nid p :
  nid < 2 → nid ≠ mind_ (pm_head p) →
  let m := meta_at p nid in
  (med_free m ≠ nullptr → elem_index (med_free m) (med_meta_ (pm_head p)) < med_total_ (pm_head p)) →
  logs (allocate_meta nid) p (λ r p' tr,
    r = alloc_runs p m ∧ p' = upd_meta nid (λ _, alloc_meta p m) p ∧
    ∃ vs, tr = Store (LMeta nid) ∘ VMeta <$> vs).
Proof.
  intros Hn Hne m Hidx lg. unfold allocate_meta. pl_steps.
  { rewrite (proj2 (Z.ltb_lt _ _)), (proj2 (Z.eqb_neq _ _)) by done. done. }
  fold m. unfold alloc_runs, alloc_meta. destruct (Z.eqb_spec (med_free m) nullptr); simpl.
  - pl_steps. eexists. split; [reflexivity|]. split_and!; [done| |eexists [_]; reflexivity].
    apply upd_meta_ext. by fold m.
  - pl_steps; [apply Z.ltb_lt; auto|]. eexists. split; [reflexivity|].
    split_and!; [done| |eexists [_]; reflexivity]. apply upd_meta_ext. by fold m.
Qed.

Lemma elem_of_stores {A} (l : loc) (g : A → val) (vs : list A) l' x :
  (Store l' x : pev loc val) ∈ (Store l ∘ g <$> vs) → l' = l ∧ ∃ a, a ∈ vs ∧ x = g a.
Proof. intros (a & He & Ha)%list_elem_of_fmap. injection He as -> ->. split; [done|]. by exists a. Qed.

(** The log of the plain operations. *)
Lemma plain_log p fl i next d' vs f :
  let p1 := upd_meta (mind_ (pm_head p)) f (upd_desc (ext_addr p i) (λ _, d') p) in
  (i ∈ fl → next = ed_next (desc_of p i)) →
  Forall (λ v, ed_next v = ed_next (desc_of p i) ∨ ed_next v = next) vs → last vs = Some d' →
  acquire_log p p1 fl i (((Store (LDesc (ext_addr p i)) ∘ VDesc <$> vs) ++
      [Flush (LDesc (ext_addr p i))] ++ [Fence]) ++
    [Store (LMeta (mind_ (pm_head p))) (VMeta (f (cur_meta p)));
     Flush (LMeta (mind_ (pm_head p))); Fence]).
Proof.
  intros p1 Hn Hvs Hl. eexists _, (LMeta (mind_ (pm_head p))). split.
  { f_equal. f_equal. f_equal. subst p1. rewrite loc_val_meta, decide_True by done. done. }
  split; [by right|]. split.
  - intros l x Hx. rewrite !elem_of_app in Hx.
    destruct Hx as [Hx|[Hx|Hx]]; try (by apply list_elem_of_singleton in Hx).
    right. apply elem_of_stores in Hx as (-> & d & Hd & ->). exists d. split_and!; [done..|].
    intros Hi. rewrite Forall_forall in Hvs. destruct (Hvs d Hd) as [|Hd']; [done|].
    by rewrite Hd', Hn.
  - intros l Hne. subst p1. rewrite loc_val_meta, decide_False by done. rewrite loc_val_desc.
    case_decide as Hd.
    + subst l. destruct vs as [|v vs _] using rev_ind; [done|]. rewrite last_snoc in Hl.
      injection Hl as ->. rewrite fmap_app. simpl. rewrite <-app_assoc. simpl.
      apply (settled_store _ _ _ [] []); intros x Hx; by apply not_elem_of_nil in Hx.
    + apply settled_untouched. intros v Hv. rewrite !elem_of_app in Hv.
      destruct Hv as [Hv|[Hv|Hv]]; try (by apply list_elem_of_singleton in Hv).
      apply elem_of_stores in Hv as [-> _]. done.
Qed.

(** The log of the complex operations. *)
Lemma complex_log p fl i next d' vs1 vs2 vsd m1 nid f :
  nid = (mind_ (pm_head p) + 1) mod 2 →
  let p0 := upd_desc (ext_addr p i) (λ _, d')
              (upd_meta nid (λ _, m1) (upd_meta nid (λ _, cur_meta p) p)) in
  let p1 := upd_head (set_mind nid) (upd_meta nid f p0) in
  (i ∈ fl → next = ed_next (desc_of p i)) →
  Forall (λ v, ed_next v = ed_next (desc_of p i) ∨ ed_next v = next) vsd → last vsd = Some d' →
  acquire_log p p1 fl i
    (((Store (LMeta nid) ∘ VMeta <$> vs1) ++ (Store (LMeta nid) ∘ VMeta <$> vs2) ++
      (Store (LDesc (ext_addr p i)) ∘ VDesc <$> vsd) ++ [Flush (LDesc (ext_addr p i))] ++
      [Store (LMeta nid) (VMeta (f m1)); Flush (LMeta nid); Fence]) ++
     [Store LHead (VHead (set_mind nid (pm_head p))); Flush LHead; Fence]).
Proof.
  intros Hnid p0 p1 Hn Hvs Hl. eexists _, LHead. split; [done|]. split; [by left|].
  assert (∀ l x, Store l x ∈ ((Store (LMeta nid) ∘ VMeta <$> vs1) ++ (Store (LMeta nid) ∘ VMeta <$> vs2) ++
      (Store (LDesc (ext_addr p i)) ∘ VDesc <$> vsd) ++ [Flush (LDesc (ext_addr p i))] ++
      [Store (LMeta nid) (VMeta (f m1)); Flush (LMeta nid); Fence]) →
    l = LMeta nid ∨ ∃ d, d ∈ vsd ∧ l = LDesc (ext_addr p i) ∧ x = VDesc d) as Hst.
  { intros l x Hx. rewrite !elem_of_app in Hx.
    destruct Hx as [Hx|[Hx|[Hx|Hx]]].
    - apply elem_of_stores in Hx as [-> _]. by left.
    - apply elem_of_stores in Hx as [-> _]. by left.
    - apply elem_of_stores in Hx as (-> & d & Hd & ->). right. by exists d.
    - set_unfold in Hx. left. intuition congruence. }
  split.
  - intros l x Hx. destruct (Hst l x Hx) as [->|(d & Hd & -> & ->)]; [left; by rewrite Hnid|right].
    exists d. split_and!; [done..|]. intros Hi. rewrite Forall_forall in Hvs.
    destruct (Hvs d Hd) as [|Hd']; [done|]. by rewrite Hd', Hn.
  - intros l Hne. subst p1 p0. rewrite loc_val_head, decide_False by done.
    rewrite loc_val_meta. case_decide as Hm.
    { subst l. pm_frame. rewrite meta_at_upd_eq. rewrite !app_assoc.
      apply (settled_store _ _ _ [] []); intros x Hx; by apply not_elem_of_nil in Hx. }
    rewrite loc_val_desc. case_decide as Hd.
    { subst l. destruct vsd as [|v vsd _] using rev_ind; [done|]. rewrite last_snoc in Hl.
      injection Hl as ->. rewrite fmap_app. simpl. rewrite <-(app_assoc _ [_]). simpl.
      rewrite !app_assoc.
      apply (settled_store _ _ _ [] [Store (LMeta nid) (VMeta (f m1)); Flush (LMeta nid)]);
        intros x Hx; set_unfold in Hx; intuition congruence. }
    rewrite !loc_val_meta, !decide_False by done. apply settled_untouched. intros v Hv.
    destruct (Hst l v Hv) as [->|(d & _ & -> & _)]; done.
Qed.

(** The log of [plain_release]. *)
Lemma plain_release_log p i :
  let a := ext_addr p i in
  let mind := mind_ (pm_head p) in
  let d1 := set_ed_next (ext_free (cur_meta p)) (desc_at p a) in
  let p2 := upd_meta mind (set_ext_free a) (upd_desc a (set_ed_next (ext_free (cur_meta p))) p) in
  release_log p (upd_desc a (set_ed_type kInvalid) p2) i
    [Store (LDesc a) (VDesc d1); Flush (LDesc a); Fence;
     Store (LMeta mind) (VMeta (set_ext_free a (cur_meta p))); Flush (LMeta mind); Fence;
     Store (LDesc a) (VDesc (set_ed_type kInvalid d1)); Flush (LDesc a); Fence].
Proof.
  intros a mind d1 p2. exists [Store (LDesc a) (VDesc d1); Flush (LDesc a); Fence], (LMeta mind), p2.
  split_and!; [|by right|done|..].
  - subst p2. rewrite loc_val_meta, decide_True by done. pm_frame. rewrite desc_at_upd_eq. done.
  - intros l x Hx. set_unfold in Hx. destruct Hx as [Hx|Hx]; [|intuition congruence].
    injection Hx as -> ->. right. right. exists d1. done.
  - intros l Hne. subst p2. rewrite loc_val_meta, decide_False by done. rewrite loc_val_desc.
    case_decide as Hd.
    + subst l. apply (settled_store _ _ [] [] []); intros x Hx; by apply not_elem_of_nil in Hx.
    + apply settled_untouched. intros x Hx. set_unfold in Hx. intuition congruence.
Qed.

(** The log of [complex_release]. *)
Lemma complex_release_log p i vs1 nid :
  nid = (mind_ (pm_head p) + 1) mod 2 → is_medium p i = true →
  let a := ext_addr p i in
  let r := ed_runs (desc_of p i) in
  let m := cur_meta p in
  let p0 := upd_meta nid (λ _, m) p in
  let d1 := set_ed_next (ext_free m) (desc_at p a) in
  let p2 := upd_head (set_mind nid) (upd_meta nid (set_med_free r) (upd_meta nid (set_ext_free a)
              (upd_med r (set_mm_next (med_free m)) (upd_desc a (set_ed_next (ext_free m)) p0)))) in
  release_log p (upd_desc a (set_ed_type kInvalid) p2) i
    ((Store (LMeta nid) ∘ VMeta <$> vs1) ++
     [Store (LDesc a) (VDesc d1); Store (LMed r) (VMed (set_mm_next (med_free m) (med_at p r)));
      Store (LMeta nid) (VMeta (set_ext_free a m));
      Store (LMeta nid) (VMeta (set_med_free r (set_ext_free a m)));
      Flush (LDesc a); Flush (LMed r); Flush (LMeta nid); Fence;
      Store LHead (VHead (set_mind nid (pm_head p))); Flush LHead; Fence;
      Store (LDesc a) (VDesc (set_ed_type kInvalid d1)); Flush (LDesc a); Fence]).
Proof.
  intros Hnid Hmed a r m p0 d1 p2.
  set (tail := [Store (LDesc a) (VDesc d1); Store (LMed r) (VMed (set_mm_next (med_free m) (med_at p r)));
      Store (LMeta nid) (VMeta (set_ext_free a m));
      Store (LMeta nid) (VMeta (set_med_free r (set_ext_free a m)));
      Flush (LDesc a); Flush (LMed r); Flush (LMeta nid); Fence]).
  exists ((Store (LMeta nid) ∘ VMeta <$> vs1) ++ tail), LHead, p2.
  assert (desc_at p2 a = d1) as Hd1.
  { subst p2. pm_frame. rewrite desc_at_upd_eq. by subst p0. }
  split_and!; [|by left|done|..].
  - rewrite <-app_assoc. f_equal. fold a. by rewrite Hd1.
  - intros l x Hx. apply elem_of_app in Hx as [[-> _]%elem_of_stores|Hx]; [left; by rewrite Hnid|].
    subst tail. set_unfold in Hx.
    destruct Hx as [Hx|[Hx|[Hx|[Hx|Hx]]]]; [| | | |intuition congruence]; injection Hx as -> ->.
    + right. right. exists d1. done.
    + right. left. done.
    + left. by rewrite Hnid.
    + left. by rewrite Hnid.
  - intros l Hne. subst p2. rewrite loc_val_head, decide_False by done.
    rewrite loc_val_meta. case_decide as Hm.
    { subst l. pm_frame. rewrite meta_at_upd_eq. pm_frame. subst p0. rewrite meta_at_upd_eq.
      pose proof (settled_store (LMeta nid) (loc_val p (LMeta nid))
        ((Store (LMeta nid) ∘ VMeta <$> vs1) ++ [Store (LDesc a) (VDesc d1);
           Store (LMed r) (VMed (set_mm_next (med_free m) (med_at p r)));
           Store (LMeta nid) (VMeta (set_ext_free a m))]) [Flush (LDesc a); Flush (LMed r)] []
        (VMeta (set_med_free r (set_ext_free a m)))) as Hs.
      rewrite <-app_assoc in Hs. apply Hs; intros x Hx; set_unfold in Hx; intuition congruence. }
    rewrite loc_val_meta, decide_False by done. rewrite loc_val_med. case_decide as Hr.
    { subst l. pose proof (settled_store (LMed r) (loc_val p (LMed r))
        ((Store (LMeta nid) ∘ VMeta <$> vs1) ++ [Store (LDesc a) (VDesc d1)])
        [Store (LMeta nid) (VMeta (set_ext_free a m));
         Store (LMeta nid) (VMeta (set_med_free r (set_ext_free a m))); Flush (LDesc a)]
        [Flush (LMeta nid)] (VMed (set_mm_next (med_free m) (med_at p r)))) as Hs.
      rewrite <-app_assoc in Hs. apply Hs; intros x Hx; set_unfold in Hx; intuition congruence. }
    rewrite loc_val_desc. case_decide as Hd.
    { subst l. pose proof (settled_store (LDesc a) (loc_val p (LDesc a))
        (Store (LMeta nid) ∘ VMeta <$> vs1)
        [Store (LMed r) (VMed (set_mm_next (med_free m) (med_at p r)));
         Store (LMeta nid) (VMeta (set_ext_free a m));
         Store (LMeta nid) (VMeta (set_med_free r (set_ext_free a m)))]
        [Flush (LMed r); Flush (LMeta nid)] (VDesc d1)) as Hs.
      apply Hs; intros x Hx; set_unfold in Hx; intuition congruence. }
    subst p0. rewrite loc_val_meta, decide_False by done. apply settled_untouched.
    intros v [[-> _]%elem_of_stores|Hv]%elem_of_app; [done|]. subst tail. set_unfold in Hv.
    intuition congruence.
Qed.
End logs.
