(* ===== verification/MetaOps.v ===== *)
(** * Acquiring, releasing and reopening

    The operations of [MetaHead] on states that satisfy [ext_inv]. *)

From S2P Require Export MetaLog.
Import Pmem.

(** What [MetaHead_acquire] does when it hands out the extent [i]: the invariant
    holds, [i] was not live, its descriptor is initialised, nothing else has
    changed. *)
Record acquired (p p' : pmem) (fl fl' ml ml' : list Z) (i : Z)
    (type : RegionType) (run_case size : Z) : Prop := {
  acq_inv : ext_inv p' fl' ml';
  acq_taken : ext_taken p p' i fl fl';
  acq_head : same_head (pm_head p) (pm_head p');
  acq_desc : ∃ next runs, desc_of p' i = new_desc type run_case size next runs ∧
    (type = kMedium → ∃ j, 0 ≤ j < ext_total_ (pm_head p) ∧ runs = slot_addr p j);
  acq_frame : ∀ a, a ≠ ext_addr p i → desc_at p' a = desc_at p a;
  acq_med : pm_med p' = pm_med p;
  acq_small : pm_small p' = pm_small p;
  acq_root : pm_root p' = pm_root p;
}.

(** What [MetaHead_release] does to the extent [i]. *)
Record released (p p' : pmem) (fl ml ml' : list Z) (i : Z) : Prop := {
  rel_inv : ext_inv p' (i :: fl) ml';
  rel_used : ext_used (cur_meta p') = ext_used (cur_meta p);
  rel_head : same_head (pm_head p) (pm_head p');
  rel_frame : ∀ a, a ≠ ext_addr p i → desc_at p' a = desc_at p a;
  rel_med : ∀ a, is_medium p i = false ∨ a ≠ ed_runs (desc_of p i) → med_at p' a = med_at p a;
  rel_tokens : ∀ a, mm_tokens (med_at p' a) = mm_tokens (med_at p a);
  rel_small : pm_small p' = pm_small p;
  rel_root : pm_root p' = pm_root p;
}.


(** Run a program whose log is known. *)
Ltac logs_step H :=
  eapply wp_mono; [apply H|];
  let r := fresh "r" in let p' := fresh "p'" in let lg' := fresh "lg'" in
  let tr := fresh "tr" in let Hlog := fresh "Hlog" in
  intros r [p' lg'] (tr & Hlog & HQlog); cbn [mem log] in *; subst lg'; revert HQlog.

Section ops.
Context `{UtilSpec}.
Implicit Types (p : pmem) (fl ml : list Z).

Lemma other_mind h : mind_ h = 0 ∨ mind_ h = 1 →
  (mind_ h + 1) mod 2 < 2 ∧ (mind_ h + 1) mod 2 ≠ mind_ h ∧
  ((mind_ h + 1) mod 2 = 0 ∨ (mind_ h + 1) mod 2 = 1).
Proof. intros [->| ->]; vm_compute; intuition congruence. Qed.

(** The first free array is in the segment. *)
Lemma inv_med_free p fl ml :
  ext_inv p fl ml → med_free (cur_meta p) ≠ nullptr →
  elem_index (med_free (cur_meta p)) (med_meta_ (pm_head p)) < med_total_ (pm_head p).
Proof.
  intros Hinv Hne. pose proof (inv_med_chain _ _ _ Hinv) as Hc. pose proof (inv_used _ _ _ Hinv).
  destruct ml as [|j ml]; [done|]. destruct Hc as [-> _].
  apply slot_addr_wf; [apply (inv_head _ _ _ Hinv)|].
  pose proof (inv_free_slot p fl (j :: ml) j Hinv). set_unfold. lia.
Qed.

(** [allocate_meta] takes an array as [med_taken] says. *)
Lemma alloc_meta_taken p p' d' fl ml :
  ext_inv p fl ml → ed_type d' = kMedium → ed_runs d' = alloc_runs p (cur_meta p) →
  med_used (cur_meta p') = med_used (alloc_meta p (cur_meta p)) →
  med_free (cur_meta p') = med_free (alloc_meta p (cur_meta p)) →
  ∃ ml', med_taken p p' d' ml ml'.
Proof.
  intros Hinv Ht Hr Hmu Hmf. pose proof (inv_med_chain _ _ _ Hinv) as Hc.
  destruct (inv_med _ _ _ Hinv) as (k & Hk & Hku & _). pose proof (inv_used _ _ _ Hinv).
  pose proof (inv_head _ _ _ Hinv) as Hh. unfold wf_head in Hh.
  unfold alloc_runs in Hr. unfold alloc_meta in Hmu, Hmf. destruct ml as [|j ml].
  - simpl in Hc. rewrite Hc in *. simpl in *. exists []. right. right.
    split_and!; [done..| |congruence].
    rewrite Hmu. change kNBaseExtent with 32. unfold u64, wrap. apply Z.mod_small. lia.
  - destruct Hc as [Hc _]. exists ml. right. left. split; [done|]. exists j.
    assert (slot_addr p j ≠ nullptr) as Hnn.
    { apply slot_addr_wf; [done|]. pose proof (inv_free_slot p fl (j :: ml) j Hinv). set_unfold. lia. }
    rewrite (proj2 (Z.eqb_neq _ _)) in Hr, Hmu, Hmf by congruence. rewrite Hc in *. done.
Qed.

(** The array that was chosen is a slot. *)
Lemma med_taken_slot p p' d' i fl fl' ml ml' :
  ext_inv p fl ml → ext_taken p p' i fl fl' → med_taken p p' d' ml ml' → ed_type d' = kMedium →
  ∃ j, 0 ≤ j < ext_total_ (pm_head p) ∧ ed_runs d' = slot_addr p j.
Proof.
  intros Hinv Ht Hm Hty. destruct (inv_med _ _ _ Hinv) as (k & Hk & Hku & Hp).
  pose proof (inv_used _ _ _ Hinv) as Hu.
  destruct Hm as [(?&_)|[(_ & j & -> & Hr & _)|(_ & -> & -> & Hr & _)]]; [done|..].
  - exists j. split; [|done]. pose proof (inv_free_slot p fl (j :: ml') j Hinv). set_unfold. lia.
  - exists k. rewrite Hku in Hr. split; [|done].
    pose proof (inv_slots_bound p fl [] k Hinv ltac:(lia) Hp eq_refl) as Hb.
    destruct Ht as [(-> & _)|(_ & _ & ? & ? & _)]; [|lia].
    unfold lenZ in Hb. simpl in Hb. lia.
Qed.

(** All four ways of taking an extent: from what the code writes to the state
    to the post-condition. *)
Lemma acquired_intro p p' fl fl' ml i type run_case size next runs :
  ext_inv p fl ml → ok_request type run_case size → ext_taken p p' i fl fl' →
  same_head (pm_head p) (pm_head p') → mind_ (pm_head p') = 0 ∨ mind_ (pm_head p') = 1 →
  (∀ a, a ≠ ext_addr p i → desc_at p' a = desc_at p a) →
  desc_of p' i = new_desc type run_case size next runs →
  pm_med p' = pm_med p → pm_small p' = pm_small p → pm_root p' = pm_root p →
  (∃ ml', med_taken p p' (desc_of p' i) ml ml') →
  ∃ ml', acquired p p' fl fl' ml ml' i type run_case size.
Proof.
  intros Hinv (Hal & Hsz & Hmod & Hrc & Hsm & Hnsm) Ht Hh Hmi Hd Hnew Hmed Hsmall Hroot [ml' Hmt].
  exists ml'. destruct (new_desc_wf type run_case size next runs) as (Hwf & _); try done.
  constructor; try done.
  - apply (ext_inv_alloc p p' i fl fl' ml ml'); try done.
    + intros a. unfold med_at. by rewrite Hmed.
    + by rewrite Hnew.
  - exists next, runs. split; [done|]. intros ->.
    destruct (med_taken_slot p p' (desc_of p' i) i fl fl' ml ml') as (j & Hj & Hr); try done.
    { by rewrite Hnew. }
    exists j. by rewrite Hnew in Hr.
Qed.

Lemma alloc_runs_nonnull p fl ml : ext_inv p fl ml → alloc_runs p (cur_meta p) ≠ nullptr.
Proof.
  intros Hinv. pose proof (inv_head _ _ _ Hinv) as Hh. destruct (inv_med _ _ _ Hinv) as (k & Hk & Hku & _).
  unfold alloc_runs. destruct (Z.eqb_spec (med_free (cur_meta p)) nullptr); [|done].
  unfold wf_head, elem_addr, nullptr in *. change kCacheLineSize with 64. lia.
Qed.

Lemma ok_request_construct type run_case size :
  ok_request type run_case size →
  is_alloc_type type = true ∧ 0 < size ≤ kExtentSize ∧ kExtentSize mod size = 0.
Proof. unfold ok_request. tauto. Qed.

(** Close the goal [Q] of an acquiring operation: the conditions of
    [acquired_intro] that depend on the path, and the log, are left. *)
Ltac acquired_with p fl ml :=
  lazymatch goal with
  | HQ : context [acquired p _ ?fl0 fl ml _ ?i ?ty ?rc ?sz] |- ?Q _ {| mem := ?p' |} =>
      assert (∃ ml', acquired p p' fl0 fl ml ml' i ty rc sz) as [ml' Hacq];
      [eapply acquired_intro; [eassumption|eassumption| |eassumption| |
         eassumption|eassumption|eassumption|eassumption|eassumption|]
      |]
  end.

(** The log of an acquiring operation is the one that [H] describes. *)
Ltac log_is H :=
  lazymatch goal with
  | Hacq : acquired _ _ _ _ _ ?ml' _ _ _ _, HQ : context [acquire_log] |- _ =>
      pose proof H as Hlg; rewrite <-!app_assoc in *; eapply (HQ _ _ ml'); [exact Hacq|];
      simpl in *; rewrite <-?app_assoc in *; pm_frame; rewrite ?meta_at_upd_eq; exact Hlg
  end.

Lemma not_in_nil (i : Z) (P : Prop) : i ∈ [] → P.
Proof. intros Hi. by apply not_elem_of_nil in Hi. Qed.

(** The state after [complex_reclaim] and [complex_allocate]: the selected
    DescMeta is the updated copy. *)
Lemma complex_state p d' i fu runs nid (f : DescMeta → DescMeta) :
  nid = (mind_ (pm_head p) + 1) mod 2 → fu = alloc_meta p (cur_meta p) →
  runs = alloc_runs p (cur_meta p) →
  let p' := upd_head (set_mind nid) (upd_meta nid f (upd_desc (ext_addr p i) (λ _, d')
              (upd_meta nid (λ _, fu) (upd_meta nid (λ _, cur_meta p) p)))) in
  same_head (pm_head p) (pm_head p') ∧ mind_ (pm_head p') = nid ∧ cur_meta p' = f fu ∧
  desc_of p' i = d' ∧ (∀ a, a ≠ ext_addr p i → desc_at p' a = desc_at p a) ∧
  pm_med p' = pm_med p ∧ pm_small p' = pm_small p ∧ pm_root p' = pm_root p.
Proof.
  intros -> -> -> p'. split_and!; try done.
  - unfold cur_meta at 1. subst p'. pm_frame. cbn [mind_ set_mind]. rewrite meta_at_upd_eq.
    pm_frame. by rewrite meta_at_upd_eq.
  - unfold desc_of, ext_addr. subst p'. pm_frame. cbn [ext_desc_ set_mind].
    apply desc_at_upd_eq.
  - intros a Ha. subst p'. pm_frame. by rewrite desc_at_upd_ne.
Qed.

Lemma wp_complex_reclaim i fl ml run_case size Q p lg :
  ext_inv p (i :: fl) ml → ok_request kMedium run_case size →
  (∀ p' tr ml', acquired p p' (i :: fl) fl ml ml' i kMedium run_case size →
     acquire_log p p' (i :: fl) i tr → Q (ext_addr p i, i) {| mem := p'; log := lg ++ tr |}) →
  wp (complex_reclaim kMedium run_case size) Q {| mem := p; log := lg |}.
Proof.
  intros Hinv Hok HQ. destruct (inv_chain _ _ _ Hinv) as [Hf _].
  destruct (inv_free _ _ _ Hinv i) as [Hi Hty]; [set_solver|].
  pose proof (inv_used _ _ _ Hinv) as Hu. pose proof (inv_head _ _ _ Hinv) as Hh.
  destruct (ext_addr_wf p i Hh) as (Hnn & Hal & Hidx & _); [lia|].
  destruct (other_mind (pm_head p)) as (Hn2 & Hne & Hn01); [apply Hh|].
  destruct (ok_request_construct _ _ _ Hok) as (Hat & Hsz & Hmod).
  unfold complex_reclaim. pl_steps.
  { fold (cur_meta p). rewrite Hf. rewrite (proj2 (Z.eqb_neq _ _)) by done. done. }
  logs_step (copy_meta_logs ((mind_ (pm_head p) + 1) mod 2) (mind_ (pm_head p)) p Hne).
  intros (-> & vs1 & ->). fold (cur_meta p).
  set (nid := (mind_ (pm_head p) + 1) mod 2) in *. pl_step.
  logs_step (allocate_meta_logs nid (upd_meta nid (λ _, cur_meta p) p) Hn2 Hne
    ltac:(rewrite meta_at_upd_eq; intros; by apply (inv_med_free p (i :: fl) ml))).
  rewrite meta_at_upd_eq. change (alloc_meta (upd_meta _ _ p)) with (alloc_meta p).
  change (alloc_runs (upd_meta _ _ p)) with (alloc_runs p). intros (-> & -> & vs2 & ->).
  pl_steps; cbn [mem]; rewrite ?meta_at_upd_eq.
  { assert (ext_free (alloc_meta p (cur_meta p)) = ext_addr p i) as ->.
    { unfold alloc_meta. destruct (_ =? _); exact Hf. }
    rewrite Hidx. apply Z.ltb_lt. lia. }
  assert (ext_free (alloc_meta p (cur_meta p)) = ext_addr p i) as Hef.
  { unfold alloc_meta. destruct (_ =? _); exact Hf. }
  rewrite Hef, Hidx. pm_frame. set (nx := ed_next (desc_at p (ext_addr p i))).
  logs_step (construct_logs (ext_addr p i) kMedium run_case size nx (alloc_runs p (cur_meta p)) false
    (upd_meta nid (λ _, alloc_meta p (cur_meta p)) (upd_meta nid (λ _, cur_meta p) p)) Hat Hsz Hmod
    (λ _, alloc_runs_nonnull p (i :: fl) ml Hinv) Hal).
  intros (-> & vsd & -> & Hvs & Hlast). unfold switch_mind. pl_steps. rewrite app_nil_r.
  destruct (complex_state p (new_desc kMedium run_case size nx (alloc_runs p (cur_meta p))) i
    (alloc_meta p (cur_meta p)) (alloc_runs p (cur_meta p)) nid (set_ext_free nx))
    as (H1 & H2 & H3 & H4 & H5 & H6 & H7 & H8); [done..|].
  acquired_with p fl ml.
  - unfold ext_taken. rewrite H3. left. split; [done|]. unfold alloc_meta. by destruct (_ =? _).
  - by rewrite H2.
  - rewrite H4. apply (alloc_meta_taken p _ _ (i :: fl) ml Hinv); [done|done|by rewrite H3..].
  - log_is (complex_log p (i :: fl) i nx _ vs1 vs2 vsd (alloc_meta p (cur_meta p)) nid
      (set_ext_free nx) eq_refl (λ _, eq_refl) Hvs Hlast).
Qed.

Lemma wp_complex_allocate ml run_case size Q p lg :
  ext_inv p [] ml → ok_request kMedium run_case size →
  let i := ext_used (cur_meta p) in
  i < ext_total_ (pm_head p) →
  (∀ p' tr ml', acquired p p' [] [] ml ml' i kMedium run_case size → acquire_log p p' [] i tr →
     Q (ext_addr p i, i) {| mem := p'; log := lg ++ tr |}) →
  wp (complex_allocate kMedium run_case size) Q {| mem := p; log := lg |}.
Proof.
  intros Hinv Hok i Hlt HQ. pose proof (inv_chain _ _ _ Hinv) as Hf. simpl in Hf.
  pose proof (inv_used _ _ _ Hinv) as Hu. pose proof (inv_head _ _ _ Hinv) as Hh.
  destruct (inv_med _ _ _ Hinv) as (k & Hk & Hku & _).
  destruct (ext_addr_wf p i Hh) as (Hnn & Hal & _ & _); [lia|].
  destruct (other_mind (pm_head p)) as (Hn2 & Hne & Hn01); [apply Hh|].
  destruct (ok_request_construct _ _ _ Hok) as (Hat & Hsz & Hmod).
  unfold complex_allocate. rewrite (proj2 (Z.eqb_neq size 0)) by lia.
  pl_steps; [done|by rewrite Hmod|fold (cur_meta p); apply Z.leb_le; unfold wf_head in Hh; lia|].
  logs_step (copy_meta_logs ((mind_ (pm_head p) + 1) mod 2) (mind_ (pm_head p)) p Hne).
  intros (-> & vs1 & ->). fold (cur_meta p).
  set (nid := (mind_ (pm_head p) + 1) mod 2) in *. pl_step.
  logs_step (allocate_meta_logs nid (upd_meta nid (λ _, cur_meta p) p) Hn2 Hne
    ltac:(rewrite meta_at_upd_eq; intros; by apply (inv_med_free p [] ml))).
  rewrite meta_at_upd_eq. change (alloc_meta (upd_meta _ _ p)) with (alloc_meta p).
  change (alloc_runs (upd_meta _ _ p)) with (alloc_runs p). intros (-> & -> & vs2 & ->).
  pl_steps; cbn [mem]; rewrite ?meta_at_upd_eq.
    assert (ext_used (alloc_meta p (cur_meta p)) = i) as ->.
  { unfold alloc_meta. by destruct (_ =? _). }
  fold (ext_addr p i).
  logs_step (construct_logs (ext_addr p i) kMedium run_case size nullptr (alloc_runs p (cur_meta p))
    false (upd_meta nid (λ _, alloc_meta p (cur_meta p)) (upd_meta nid (λ _, cur_meta p) p))
    Hat Hsz Hmod (λ _, alloc_runs_nonnull p [] ml Hinv) Hal).
  intros (-> & vsd & -> & Hvs & Hlast). unfold switch_mind. pl_steps. rewrite app_nil_r.
  destruct (complex_state p (new_desc kMedium run_case size nullptr (alloc_runs p (cur_meta p)))
    i (alloc_meta p (cur_meta p)) (alloc_runs p (cur_meta p)) nid (set_ext_used (u64 (i + 1))))
    as (H1 & H2 & H3 & H4 & H5 & H6 & H7 & H8); [done..|].
  acquired_with p (@nil Z) ml.
  - unfold ext_taken. rewrite H3. right. split_and!; [done..| |].
    + simpl. unfold wf_head in Hh. apply Z.mod_small. lia.
    + simpl. unfold alloc_meta. by destruct (_ =? _).
  - by rewrite H2.
  - rewrite H4. apply (alloc_meta_taken p _ _ [] ml Hinv); [done|done|by rewrite H3..].
  - log_is (complex_log p [] i nullptr _ vs1 vs2 vsd (alloc_meta p (cur_meta p)) nid
      (set_ext_used (u64 (i + 1))) eq_refl (not_in_nil i _) Hvs Hlast).
Qed.

(** The state after the two plain operations. *)
Lemma plain_state p d' i (f : DescMeta → DescMeta) :
  let p' := upd_meta (mind_ (pm_head p)) f (upd_desc (ext_addr p i) (λ _, d') p) in
  same_head (pm_head p) (pm_head p') ∧ mind_ (pm_head p') = mind_ (pm_head p) ∧
  cur_meta p' = f (cur_meta p) ∧
  desc_of p' i = d' ∧ (∀ a, a ≠ ext_addr p i → desc_at p' a = desc_at p a) ∧
  pm_med p' = pm_med p ∧ pm_small p' = pm_small p ∧ pm_root p' = pm_root p.
Proof.
  intros p'. split_and!; try done.
  - unfold cur_meta at 1. subst p'. pm_frame. by rewrite meta_at_upd_eq.
  - unfold desc_of, ext_addr. subst p'. pm_frame. apply desc_at_upd_eq.
  - intros a Ha. subst p'. pm_frame. by rewrite desc_at_upd_ne.
Qed.

Lemma wp_plain_reclaim i fl ml type run_case size Q p lg :
  ext_inv p (i :: fl) ml → ok_request type run_case size → type ≠ kMedium →
  (∀ p' tr ml', acquired p p' (i :: fl) fl ml ml' i type run_case size →
     acquire_log p p' (i :: fl) i tr → Q (ext_addr p i, i) {| mem := p'; log := lg ++ tr |}) →
  wp (plain_reclaim type run_case size) Q {| mem := p; log := lg |}.
Proof.
  intros Hinv Hok Hnm HQ. destruct (inv_chain _ _ _ Hinv) as [Hf _].
  destruct (inv_free _ _ _ Hinv i) as [Hi Hty]; [set_solver|].
  pose proof (inv_used _ _ _ Hinv) as Hu. pose proof (inv_head _ _ _ Hinv) as Hh.
  destruct (ext_addr_wf p i Hh) as (Hnn & Hal & Hidx & _); [lia|].
  destruct (ok_request_construct _ _ _ Hok) as (Hat & Hsz & Hmod).
  unfold plain_reclaim. pl_steps; fold (cur_meta p); rewrite Hf.
  { rewrite (proj2 (Z.eqb_neq _ _)) by done. by destruct type. }
  { rewrite Hidx. apply Z.ltb_lt. lia. }
  set (nx := ed_next (desc_at p (ext_addr p i))).
  logs_step (construct_logs (ext_addr p i) type run_case size nx nullptr true p Hat Hsz Hmod
    (λ Ht, False_ind _ (Hnm Ht)) Hal).
  intros (-> & vsd & -> & Hvs & Hlast). pl_steps. rewrite Hidx.
  destruct (plain_state p (new_desc type run_case size nx nullptr) i (set_ext_free nx))
    as (H1 & H2 & H3 & H4 & H5 & H6 & H7 & H8).
  acquired_with p fl ml.
  - unfold ext_taken. rewrite H3. by left.
  - rewrite H2. apply Hh.
  - exists ml. left. rewrite H4, H3. done.
  - log_is (plain_log p (i :: fl) i nx _ vsd (set_ext_free nx) (λ _, eq_refl) Hvs Hlast).
Qed.

Lemma wp_plain_allocate ml type run_case size Q p lg :
  ext_inv p [] ml → ok_request type run_case size → type ≠ kMedium →
  let i := ext_used (cur_meta p) in
  i < ext_total_ (pm_head p) →
  (∀ p' tr ml', acquired p p' [] [] ml ml' i type run_case size → acquire_log p p' [] i tr →
     Q (ext_addr p i, i) {| mem := p'; log := lg ++ tr |}) →
  wp (plain_allocate type run_case size) Q {| mem := p; log := lg |}.
Proof.
  intros Hinv Hok Hnm i Hlt HQ. pose proof (inv_chain _ _ _ Hinv) as Hf. simpl in Hf.
  pose proof (inv_used _ _ _ Hinv) as Hu. pose proof (inv_head _ _ _ Hinv) as Hh.
  destruct (ext_addr_wf p i Hh) as (Hnn & Hal & _ & _); [lia|].
  destruct (ok_request_construct _ _ _ Hok) as (Hat & Hsz & Hmod).
  unfold plain_allocate. pl_steps; fold (cur_meta p).
  { by destruct type. }
  { rewrite Hf. simpl. by apply Z.ltb_lt. }
  fold i. fold (ext_addr p i).
  logs_step (construct_logs (ext_addr p i) type run_case size nullptr nullptr true p Hat Hsz Hmod
    (λ Ht, False_ind _ (Hnm Ht)) Hal).
  intros (-> & vsd & -> & Hvs & Hlast). pl_steps.
  destruct (plain_state p (new_desc type run_case size nullptr nullptr) i (set_ext_used (u64 (i + 1))))
    as (H1 & H2 & H3 & H4 & H5 & H6 & H7 & H8).
  acquired_with p (@nil Z) ml.
  - unfold ext_taken. rewrite H3. right. split_and!; [done..| |done].
    simpl. unfold wf_head in Hh. apply Z.mod_small. lia.
  - rewrite H2. apply Hh.
  - exists ml. left. rewrite H4, H3. done.
  - log_is (plain_log p [] i nullptr _ vsd (set_ext_used (u64 (i + 1))) (not_in_nil i _) Hvs Hlast).
Qed.

(** [MetaHead::acquire]: the outcomes. *)
Lemma wp_acquire fl ml type run_case size Q p lg :
  ext_inv p fl ml → ok_request type run_case size →
  (fl = [] → ext_used (cur_meta p) = ext_total_ (pm_head p) →
     Q no_extent {| mem := p; log := lg |}) →
  (∀ p' tr i fl' ml', acquired p p' fl fl' ml ml' i type run_case size →
     acquire_log p p' fl i tr → Q (ext_addr p i, i) {| mem := p'; log := lg ++ tr |}) →
  wp (MetaHead_acquire type run_case size) Q {| mem := p; log := lg |}.
Proof.
  intros Hinv Hok Hnone HQ. pose proof (inv_chain _ _ _ Hinv) as Hf.
  pose proof (inv_used _ _ _ Hinv) as Hu. pose proof (inv_head _ _ _ Hinv) as Hh.
  unfold MetaHead_acquire, reclaim. pl_steps. fold (cur_meta p).
  destruct fl as [|i fl].
  - simpl in Hf. rewrite Hf. simpl. pl_steps. simpl. unfold MetaHead_allocate.
    pl_steps. fold (cur_meta p).
    destruct (Z.leb_spec (ext_total_ (pm_head p)) (ext_used (cur_meta p))).
    + pl_steps. apply Hnone; [done|lia].
    + case_bool_decide as Ht.
      * subst type. apply (wp_complex_allocate ml); try done. intros; by eapply HQ.
      * apply (wp_plain_allocate ml); try done. intros; by eapply HQ.
  - destruct Hf as [Hf _]. rewrite Hf. destruct (inv_free _ _ _ Hinv i) as [Hi _]; [set_solver|].
    destruct (ext_addr_wf p i Hh) as (Hnn & _); [lia|]. rewrite (proj2 (Z.eqb_neq _ _)) by done.
    case_bool_decide as Ht.
    + subst type. apply (wp_complex_reclaim i fl ml); try done. intros p' tr ml' Ha Hlog. simpl.
      rewrite (proj2 (Z.eqb_neq _ _)) by done. simpl. pl_steps. by eapply HQ.
    + apply (wp_plain_reclaim i fl ml); try done. intros p' tr ml' Ha Hlog. simpl.
      rewrite (proj2 (Z.eqb_neq _ _)) by done. simpl. pl_steps. by eapply HQ.
Qed.

Lemma live_type p fl ml i :
  ext_inv p fl ml → live p fl i → is_alloc_type (ed_type (desc_of p i)) = true.
Proof.
  intros Hinv Hl. destruct (inv_live _ _ _ Hinv i Hl) as (_ & _ & _ & Hm).
  by destruct (ed_type (desc_of p i)).
Qed.

Lemma wp_complex_release i fl ml Q p lg :
  ext_inv p fl ml → live p fl i → is_medium p i = true →
  (∀ p' tr ml', released p p' fl ml ml' i → release_log p p' i tr →
     Q tt {| mem := p'; log := lg ++ tr |}) →
  wp (complex_release (ext_addr p i)) Q {| mem := p; log := lg |}.
Proof.
  intros Hinv Hl Hmed HQ. pose proof (inv_head _ _ _ Hinv) as Hh.
  destruct (other_mind (pm_head p)) as (Hn2 & Hne & Hn01); [apply Hh|].
  destruct (live_slot p fl ml i Hinv Hl Hmed) as (j & Hj & Hr & Hjm).
  unfold complex_release. pl_steps; [exact Hmed|].
  logs_step (copy_meta_logs ((mind_ (pm_head p) + 1) mod 2) (mind_ (pm_head p)) p Hne).
  intros (-> & vs1 & ->). fold (cur_meta p).
  set (nid := (mind_ (pm_head p) + 1) mod 2) in *. unfold switch_mind. pl_steps. cbn [mem].
  pm_frame. rewrite !meta_at_upd_eq. pm_frame. rewrite !meta_at_upd_eq, desc_at_upd_eq. pm_frame.
  pose proof (complex_release_log p i vs1 nid eq_refl Hmed) as Hlog. cbv zeta in Hlog.
  fold (desc_of p i). match goal with |- Q _ {| mem := ?p' |} => set (p1 := p') in * end.
  assert (pm_head p1 = set_mind nid (pm_head p)) as Hhead by done.
  assert (same_head (pm_head p) (pm_head p1)) as Hsame by (rewrite Hhead; done).
  assert (cur_meta p1 = set_med_free (slot_addr p j) (set_ext_free (ext_addr p i) (cur_meta p))) as Hcur.
  { unfold cur_meta at 1. rewrite Hhead. subst p1. pm_frame. cbn [mind_ set_mind].
    rewrite !meta_at_upd_eq. pm_frame. by rewrite meta_at_upd_eq, Hr. }
  assert (desc_of p1 i = set_ed_type kInvalid (set_ed_next (ext_free (cur_meta p)) (desc_of p i))) as Hdi.
  { unfold desc_of, ext_addr. rewrite Hhead. cbn [ext_desc_ set_mind]. fold (ext_addr p i). subst p1.
    rewrite desc_at_upd_eq. pm_frame. by rewrite desc_at_upd_eq. }
  assert (∀ a, a ≠ ext_addr p i → desc_at p1 a = desc_at p a) as Hd.
  { intros a Ha. subst p1. rewrite desc_at_upd_ne by done. pm_frame. by rewrite desc_at_upd_ne. }
  assert (∀ a, a ≠ slot_addr p j → med_at p1 a = med_at p a) as Hm.
  { intros a Ha. subst p1. pm_frame. rewrite med_at_upd_ne; [done|congruence]. }
  assert (mm_next (med_at p1 (slot_addr p j)) = med_free (cur_meta p)) as Hmn.
  { subst p1. pm_frame. by rewrite Hr, med_at_upd_eq. }
  assert (∀ a, mm_tokens (med_at p1 a) = mm_tokens (med_at p a)) as Hmt.
  { intros a. destruct (decide (a = slot_addr p j)) as [->|Hne']; [|by rewrite Hm].
    subst p1. pm_frame. by rewrite Hr, med_at_upd_eq. }
  assert (pm_small p1 = pm_small p ∧ pm_root p1 = pm_root p) as [Hsm Hrt] by done.
  assert (released p p1 fl ml (j :: ml) i) as Hrel.
  { clearbody p1. constructor; try done.
    - apply (ext_inv_release p p1 i fl ml); try done; rewrite ?Hcur, ?Hdi, ?Hhead; try done.
      split; rewrite Hcur; [done|]. rewrite Hmed. by exists j.
    - by rewrite Hcur.
    - intros a [Ha|Ha]; [congruence|]. apply Hm. by rewrite <-Hr. }
  rewrite <-!app_assoc. by apply (HQ p1 _ (j :: ml)).
Qed.

Lemma wp_plain_release i fl ml Q p lg :
  ext_inv p fl ml → live p fl i → is_medium p i = false →
  (∀ p' tr ml', released p p' fl ml ml' i → release_log p p' i tr →
     Q tt {| mem := p'; log := lg ++ tr |}) →
  wp (plain_release (ext_addr p i)) Q {| mem := p; log := lg |}.
Proof.
  intros Hinv Hl Hmed HQ. pose proof (inv_head _ _ _ Hinv) as Hh.
  pose proof (live_type p fl ml i Hinv Hl) as Hty. unfold is_medium in Hmed.
  unfold plain_release. pl_steps.
  { fold (desc_of p i). by destruct (ed_type (desc_of p i)). }
  fold (cur_meta p). pose proof (plain_release_log p i) as Hlog. cbv zeta in Hlog.
  cbn [mem]. pm_frame. rewrite !desc_at_upd_eq.
  match goal with |- Q _ {| mem := ?p' |} => set (p1 := p') in * end.
  assert (pm_head p1 = pm_head p) as Hhead by done.
  assert (cur_meta p1 = set_ext_free (ext_addr p i) (cur_meta p)) as Hcur.
  { unfold cur_meta at 1. rewrite Hhead. subst p1. pm_frame. rewrite meta_at_upd_eq. by pm_frame. }
  assert (desc_of p1 i = set_ed_type kInvalid (set_ed_next (ext_free (cur_meta p)) (desc_of p i))) as Hdi.
  { unfold desc_of, ext_addr. rewrite Hhead. fold (ext_addr p i). subst p1.
    rewrite desc_at_upd_eq. pm_frame. by rewrite desc_at_upd_eq. }
  assert (∀ a, a ≠ ext_addr p i → desc_at p1 a = desc_at p a) as Hd.
  { intros a Ha. subst p1. rewrite desc_at_upd_ne by done. pm_frame. by rewrite desc_at_upd_ne. }
  assert (∀ a, med_at p1 a = med_at p a) as Hm by done.
  assert (pm_small p1 = pm_small p ∧ pm_root p1 = pm_root p) as [Hsm Hrt] by done.
  assert (released p p1 fl ml ml i) as Hrel.
  { clearbody p1. constructor; try done.
    - apply (ext_inv_release p p1 i fl ml ml); try done; rewrite ?Hcur, ?Hdi, ?Hhead; try done.
      + apply Hh.
      + split; rewrite Hcur; [done|]. unfold is_medium. by rewrite Hmed.
    - by rewrite Hcur.
    - by rewrite Hhead.
    - intros a. by rewrite Hm. }
  rewrite <-!app_assoc. by apply (HQ p1 _ ml).
Qed.

Lemma wp_assert_desc p fl ml i Q lg :
  ext_inv p fl ml → 0 ≤ i < ext_used (cur_meta p) →
  Q tt {| mem := p; log := lg |} →
  wp (assert_desc (pm_head p) (ext_addr p i)) Q {| mem := p; log := lg |}.
Proof.
  intros Hinv Hi HQ. pose proof (inv_used _ _ _ Hinv).
  destruct (ext_addr_wf p i (inv_head _ _ _ Hinv)) as (_ & Hal & _ & Hr); [lia|].
  unfold assert_desc. pm_steps; [by apply Z.eqb_eq|apply Z.leb_le; lia|apply Z.ltb_lt; lia|done].
Qed.

Lemma wp_release i fl ml Q p lg :
  ext_inv p fl ml → live p fl i →
  (∀ p' tr ml', released p p' fl ml ml' i → release_log p p' i tr →
     Q tt {| mem := p'; log := lg ++ tr |}) →
  wp (MetaHead_release (ext_addr p i)) Q {| mem := p; log := lg |}.
Proof.
  intros Hinv Hl HQ. unfold MetaHead_release, ld_head. pm_steps. cbn [mem].
  apply (wp_assert_desc p fl ml); [done|apply Hl|]. pm_steps.
  destruct (is_medium p i) eqn:Em; pose proof Em as Em'; unfold is_medium, desc_of in Em';
    rewrite Em'; [by apply (wp_complex_release i fl ml)|by apply (wp_plain_release i fl ml)].
Qed.
End ops.
