(* ===== verification/MetaSpec.v ===== *)
(** * The contract of the extent allocator

    The list of half-used extents that [record] builds at shutdown and [reboot]
    and [resume] consume; the abstract allocator that [MetaHead] refines: a set
    of live extents, from which [acquire] leaves the choice of the new one open;
    and the properties of the meta file. *)

From S2P Require Export MetaOps.
Import Pmem.

(** ** Definitions *)

(** The half-used extents [ol] are linked from [occupied_]. *)
Definition occ_inv (p : pmem) (fl ol : list Z) : Prop :=
  NoDup ol ∧ (∀ i, i ∈ ol → live p fl i) ∧
  chain (λ a, ed_next (desc_at p a)) (ext_addr p) (occupied_ (pm_head p)) ol.

(** [p'] differs from [p] only in [stat_], [occupied_] and the links of the
    descriptors. *)
Definition kept (p p' : pmem) : Prop :=
  same_layout (pm_head p) (pm_head p') ∧ mind_ (pm_head p') = mind_ (pm_head p) ∧
  (∀ i, meta_at p' i = meta_at p i) ∧
  (∀ a, set_ed_next nullptr (desc_at p' a) = set_ed_next nullptr (desc_at p a)) ∧
  pm_med p' = pm_med p ∧ pm_small p' = pm_small p ∧ pm_root p' = pm_root p.

(** The abstract allocator. *)
Record ext_abs := { abs_total : Z; abs_live : gset Z }.

Inductive abs_acquire (a : ext_abs) : option Z → ext_abs → Prop :=
| acquire_none :
    (∀ i, 0 ≤ i < abs_total a → i ∈ abs_live a) → abs_acquire a None a
| acquire_some i :
    0 ≤ i < abs_total a → i ∉ abs_live a →
    abs_acquire a (Some i) {| abs_total := abs_total a; abs_live := {[ i ]} ∪ abs_live a |}.

Inductive abs_release (a : ext_abs) (i : Z) : ext_abs → Prop :=
| release_live :
    i ∈ abs_live a →
    abs_release a i {| abs_total := abs_total a; abs_live := abs_live a ∖ {[ i ]} |}.

Definition ext_rel (p : pmem) (a : ext_abs) : Prop :=
  ∃ fl ml, ext_inv p fl ml ∧ abs_total a = ext_total_ (pm_head p) ∧
    ∀ i, i ∈ abs_live a ↔ live p fl i.

Definition extent_result (p : pmem) (o : option Z) : extent_id :=
  match o with None => no_extent | Some i => (ext_addr p i, i) end.

(** ** Lemmas *)

Section lemmas.
Context `{UtilSpec}.
Implicit Types (p : pmem) (fl ml ol : list Z).

Lemma kept_refl p : kept p p.
Proof. done. Qed.

Lemma kept_trans p1 p2 p3 : kept p1 p2 → kept p2 p3 → kept p1 p3.
Proof.
  intros ((?&?&?&?&?) & Hm1 & Hmm1 & Hd1 & ? & ? & ?) ((?&?&?&?&?) & Hm2 & Hmm2 & Hd2 & ? & ? & ?).
  unfold kept, same_layout. split_and!; try congruence.
Qed.

Lemma kept_desc p p' a :
  kept p p' →
  ed_type (desc_at p' a) = ed_type (desc_at p a) ∧ ed_runs (desc_at p' a) = ed_runs (desc_at p a) ∧
  ed_size (desc_at p' a) = ed_size (desc_at p a) ∧ ed_count (desc_at p' a) = ed_count (desc_at p a) ∧
  ed_rcase (desc_at p' a) = ed_rcase (desc_at p a) ∧
  ed_union (desc_at p' a) = ed_union (desc_at p a).
Proof.
  intros (_ & _ & _ & Hd & _). specialize (Hd a). destruct (desc_at p' a), (desc_at p a).
  simpl in *. injection Hd. intros. by subst.
Qed.

Lemma kept_wf p p' a : kept p p' → wf_desc (desc_at p a) → wf_desc (desc_at p' a).
Proof.
  intros Hk. destruct (kept_desc p p' a Hk) as (Ht & _ & Hs & Hc & _ & Hu).
  unfold wf_desc. by rewrite Ht, Hs, Hc, Hu.
Qed.

Lemma kept_cur p p' : kept p p' → cur_meta p' = cur_meta p.
Proof. intros (_ & Hm & Hmm & _). unfold cur_meta. by rewrite Hm. Qed.

Lemma kept_addr p p' i : kept p p' → ext_addr p' i = ext_addr p i.
Proof. intros [Hl _]. by destruct (same_layout_addr p p' i 0 Hl). Qed.

(** The links of the free extents must be kept too. *)
Lemma kept_inv p p' fl ml :
  ext_inv p fl ml → kept p p' →
  (∀ i, i ∈ fl → ed_next (desc_of p' i) = ed_next (desc_of p i)) → ext_inv p' fl ml.
Proof.
  intros Hinv Hk Hn.
  assert (∀ i, desc_of p' i = desc_at p' (ext_addr p i)) as Hof.
  { intros i. unfold desc_of. by rewrite (kept_addr p p'). }
  apply (ext_inv_frame p p' fl ml Hinv); try apply Hk; try by apply kept_cur.
  - intros i Hi. split; [|by apply Hn]. rewrite Hof.
    destruct (kept_desc p p' (ext_addr p i) Hk) as [-> _]. by apply (inv_free _ _ _ Hinv).
  - intros i Hl. rewrite Hof. destruct (kept_desc p p' (ext_addr p i) Hk) as (-> & -> & _).
    split_and!; [|done|done]. apply (kept_wf p); [done|]. by apply (inv_live _ _ _ Hinv).
  - intros j _. unfold med_at. destruct Hk as (_ & _ & _ & _ & -> & _). done.
Qed.

Lemma kept_live p p' fl i : kept p p' → live p fl i → live p' fl i.
Proof. intros Hk. unfold live. by rewrite (kept_cur p p'). Qed.

(** Changing the link of one live descriptor. *)
Lemma kept_next p a next : kept p (upd_desc a (set_ed_next next) p).
Proof.
  unfold kept. split_and!; try done. intros b. destruct (decide (a = b)) as [->|Hne].
  - by rewrite desc_at_upd_eq.
  - by rewrite desc_at_upd_ne.
Qed.

Lemma kept_next_inv p fl ml i next :
  ext_inv p fl ml → live p fl i → ext_inv (upd_desc (ext_addr p i) (set_ed_next next) p) fl ml.
Proof.
  intros Hinv [_ Hni]. apply (kept_inv p); [done|apply kept_next|].
  intros j Hj. unfold desc_of. change (ext_addr (upd_desc _ _ p)) with (ext_addr p).
  rewrite desc_at_upd_ne; [done|]. intros He. apply ext_addr_inj in He as ->. done.
Qed.

(** Changing the status and the list head. *)
Lemma kept_head p (f : HeadLine → HeadLine) :
  same_layout (pm_head p) (f (pm_head p)) → mind_ (f (pm_head p)) = mind_ (pm_head p) →
  kept p (upd_head f p).
Proof. intros Hl Hm. unfold kept. split_and!; done. Qed.

Lemma wp_record fl ml ol i Q p lg :
  ext_inv p fl ml → occ_inv p fl ol → live p fl i → i ∉ ol →
  (∀ p' lg, kept p p' → ext_inv p' fl ml → occ_inv p' fl (i :: ol) →
     stat_ (pm_head p') = stat_ (pm_head p) → Q tt {| mem := p'; log := lg |}) →
  wp (MetaHead_record (ext_addr p i)) Q {| mem := p; log := lg |}.
Proof.
  intros Hinv (Hnd & Hol & Hc) Hl Hni HQ. unfold MetaHead_record, ld_head. pm_steps. cbn [mem].
  apply (wp_assert_desc p fl ml); [done|apply Hl|]. pm_steps.
  set (p1 := upd_desc _ _ p). assert (kept p p1) as Hk1 by apply kept_next.
  set (p2 := upd_head _ p1). assert (kept p1 p2) as Hk2 by (by apply kept_head).
  assert (kept p p2) as Hk by (by eapply kept_trans).
  apply HQ; [done| | |done].
  - apply (kept_inv p1); [|done|done]. by apply kept_next_inv.
  - split_and!.
    + by constructor.
    + intros j Hj. apply (kept_live p); [done|]. apply elem_of_cons in Hj as [->|Hj]; auto.
    + simpl. split; [by rewrite (kept_addr p p2)|]. rewrite (kept_addr p p2) by done.
      change (desc_at p2) with (desc_at p1). subst p1. rewrite desc_at_upd_eq. simpl.
      eapply chain_ext, Hc. intros j Hj. rewrite (kept_addr p p2) by done. split; [done|].
      change (desc_at p2) with (desc_at (upd_desc (ext_addr p i) (set_ed_next (occupied_ (pm_head p))) p)).
      rewrite desc_at_upd_ne; [done|]. intros He. apply ext_addr_inj in He as ->. done.
Qed.

(** The walk unlinks the half-used extents and lists them. *)
Lemma wp_unlink fuel ol acc (Q : list Z → pst → Prop) p lg q :
  (length ol < fuel)%nat → wf_head (pm_head p) → NoDup ol →
  (∀ i, i ∈ ol → 0 ≤ i < ext_total_ (pm_head p) ∧ ed_type (desc_of p i) ≠ kInvalid) →
  chain (λ a, ed_next (desc_at p a)) (ext_addr p) q ol →
  (∀ p' lg, kept p p' → pm_head p' = pm_head p →
     (∀ i, i ∉ ol → desc_of p' i = desc_of p i) →
     Q (acc ++ (ext_addr p <$> ol)) {| mem := p'; log := lg |}) →
  wp (unlink_occupied fuel q acc) Q {| mem := p; log := lg |}.
Proof.
  revert fuel acc p lg q Q. induction ol as [|i ol IH]; intros fuel acc p lg q Q Hf Hwf Hnd Hl Hc HQ;
    (destruct fuel as [|fuel]; [simpl in Hf; lia|]); simpl.
  { simpl in Hc. rewrite Hc. simpl. pm_steps. simpl in HQ. rewrite app_nil_r in HQ.
    by apply HQ. }
  destruct Hc as [-> Hc]. destruct (Hl i) as [Hi Hty]; [set_solver|].
  destruct (ext_addr_wf p i Hwf) as (Hnn & _); [lia|].
  rewrite (proj2 (Z.eqb_neq _ _)) by done. pm_steps.
  { by apply negb_true_iff, bool_decide_eq_false. }
  apply NoDup_cons in Hnd as [Hio Hnd].
  set (p1 := upd_desc _ _ p). assert (kept p p1) as Hk1 by apply kept_next.
  assert (∀ j, j ≠ i → desc_of p1 j = desc_of p j) as Hd1.
  { intros j Hne. unfold desc_of. rewrite (kept_addr p p1) by done. subst p1.
    rewrite desc_at_upd_ne; [done|]. intros He. by apply ext_addr_inj in He. }
  apply IH; [simpl in Hf; lia|done|done| | |].
  - intros j Hj. rewrite Hd1 by (intros ->; done). apply Hl. set_solver.
  - eapply chain_ext, Hc. intros j Hj. rewrite (kept_addr p p1) by done. split; [done|].
    specialize (Hd1 j ltac:(by intros ->)). unfold desc_of in Hd1.
    rewrite (kept_addr p p1) in Hd1 by done. by rewrite Hd1.
  - intros p' lg' Hk Hh Hd. rewrite <-app_assoc. simpl.
    assert (ext_addr p1 <$> ol = ext_addr p <$> ol) as ->.
    { apply list_fmap_ext. intros _ j _. by apply kept_addr. }
    apply HQ; [by eapply kept_trans|done|]. intros j Hj. set_unfold.
    rewrite Hd by tauto. apply Hd1. tauto.
Qed.

(** Enough fuel: the half-used extents are distinct. *)
Lemma walk_fuel ol n total :
  NoDup ol → 0 ≤ n ≤ total → (∀ i, i ∈ ol → 0 ≤ i < n) →
  (length ol < Datatypes.S (Z.to_nat total))%nat.
Proof.
  intros Hnd Hn Hl. assert (ol ⊆+ seqZ 0 n) as Hs.
  { apply NoDup_submseteq; [done|]. intros i Hi. apply elem_of_seqZ. specialize (Hl i Hi). lia. }
  apply submseteq_length in Hs. rewrite length_seqZ in Hs. lia.
Qed.

Lemma wp_walk fl ml ol (Q : list Z → pst → Prop) p lg :
  ext_inv p fl ml → occ_inv p fl ol →
  (∀ p' lg, kept p p' → ext_inv p' fl ml → pm_head p' = pm_head p →
     Q (ext_addr p <$> ol) {| mem := p'; log := lg |}) →
  wp walk_occupied Q {| mem := p; log := lg |}.
Proof.
  intros Hinv (Hnd & Hl & Hc) HQ. unfold walk_occupied, ld_head. pm_steps. cbn [mem].
  pose proof (inv_used _ _ _ Hinv) as Hu. apply (wp_unlink _ ol); try done.
  - apply (walk_fuel ol (ext_used (cur_meta p))); [done|lia|]. intros i Hi. by destruct (Hl i Hi).
  - apply (inv_head _ _ _ Hinv).
  - intros i Hi. destruct (Hl i Hi) as [Hr Hni]. split; [lia|]. intros Ht.
    pose proof (live_type p fl ml i Hinv (Hl i Hi)) as Hat. by rewrite Ht in Hat.
  - intros p' lg' Hk Hh Hd. apply HQ; [done| |done]. apply (kept_inv p); [done|done|].
    intros i Hi. rewrite Hd; [done|]. intros Hio. by destruct (Hl i Hio).
Qed.

Lemma wp_reboot_consistent fl ml ol extents (Q : bool * list Z → pst → Prop) p lg :
  ext_inv p fl ml → occ_inv p fl ol → stat_ (pm_head p) = kConsistent →
  (∀ p' lg, kept p p' → ext_inv p' fl ml → occupied_ (pm_head p') = nullptr →
     stat_ (pm_head p') = kVolatile →
     Q (true, extents ++ (ext_addr p <$> ol)) {| mem := p'; log := lg |}) →
  wp (MetaHead_reboot extents) Q {| mem := p; log := lg |}.
Proof.
  intros Hinv Hocc Hst HQ. unfold MetaHead_reboot, ld_head. pm_steps. cbn [mem]. rewrite Hst.
  pm_step. apply (wp_walk fl ml ol); try done. intros p1 lg1 Hk1 Hinv1 Hh1. pm_steps.
  match goal with |- Q _ {| mem := ?q |} => assert (kept p1 q) as Hk2 end.
  { eapply kept_trans; by apply kept_head. }
  apply HQ; [by eapply kept_trans| |done|done]. by apply (kept_inv p1).
Qed.

(** After a crash the first free extent may still have the type it had or was
    being given; [resume] invalidates it. *)
Definition fix_free (p : pmem) : pmem :=
  if ext_free (cur_meta p) =? nullptr then p
  else upd_desc (ext_free (cur_meta p)) (set_ed_type kInvalid) p.

Lemma fix_free_desc p fl ml i :
  ext_inv (fix_free p) fl ml → i ∉ fl → desc_of (fix_free p) i = desc_of p i.
Proof.
  intros Hinv Hi. unfold fix_free in *. destruct (Z.eqb_spec (ext_free (cur_meta p)) nullptr); [done|].
  pose proof (inv_chain _ _ _ Hinv) as Hc. destruct fl as [|j fl]; [done|]. destruct Hc as [Hc _].
  unfold desc_of. change (ext_addr (upd_desc _ _ p)) with (ext_addr p) in *.
  change (cur_meta (upd_desc _ _ p)) with (cur_meta p) in Hc. rewrite desc_at_upd_ne; [done|].
  rewrite Hc. intros He. apply ext_addr_inj in He as ->. set_solver.
Qed.

Lemma fix_free_kept p p' : kept p p' → kept (fix_free p) (fix_free p').
Proof.
  intros Hk. unfold fix_free. rewrite (kept_cur p p') by done.
  destruct (ext_free (cur_meta p) =? nullptr); [done|].
  set (a := ext_free (cur_meta p)). destruct Hk as (Hl & Hm & Hmm & Hd & Hrest).
  unfold kept. split_and!; try apply Hrest; try done. intros b. specialize (Hd b).
  destruct (decide (a = b)) as [->|Hne].
  - rewrite !desc_at_upd_eq. destruct (desc_at p' b), (desc_at p b). simpl in *. injection Hd. intros. by subst.
  - by rewrite !desc_at_upd_ne.
Qed.

Lemma wp_resume fl ml ol Q p lg :
  stat_ (pm_head p) = kVolatile → ext_inv (fix_free p) fl ml → occ_inv p fl ol →
  (∀ p' lg, kept (fix_free p) p' → ext_inv p' fl ml → occupied_ (pm_head p') = nullptr →
     stat_ (pm_head p') = kVolatile → Q tt {| mem := p'; log := lg |}) →
  wp MetaHead_resume Q {| mem := p; log := lg |}.
Proof.
  intros Hst Hinv (Hnd & Hl & Hc) HQ.
  assert (cur_meta (fix_free p) = cur_meta p ∧ pm_head (fix_free p) = pm_head p ∧
          ext_addr (fix_free p) = ext_addr p) as (Hcur & Hhd & Hea).
  { unfold fix_free. by destruct (_ =? _). }
  pose proof (inv_used _ _ _ Hinv) as Hu. rewrite Hcur, Hhd in Hu.
  pose proof (inv_head _ _ _ Hinv) as Hwf. rewrite Hhd in Hwf.
  unfold MetaHead_resume, ld_head, walk_occupied, ld_head. pm_steps; cbn [mem];
    [by rewrite Hst|].
  apply (wp_unlink _ ol); try done.
  - apply (walk_fuel ol (ext_used (cur_meta p))); [done|lia|]. intros i Hi. by destruct (Hl i Hi).
  - intros i Hi. destruct (Hl i Hi) as [Hr Hni]. split; [lia|].
    rewrite <-(fix_free_desc p fl ml) by done. intros Ht.
    assert (live (fix_free p) fl i) as Hlf by (split; [by rewrite Hcur|done]).
    pose proof (live_type _ fl ml i Hinv Hlf) as Hat. by rewrite Ht in Hat.
  - intros p1 lg1 Hk1 Hh1 Hd1.
    set (p2 := if occupied_ (pm_head p) =? nullptr then p1 else upd_head (set_occupied nullptr) p1).
    assert (kept p1 p2 ∧ occupied_ (pm_head p2) = nullptr ∧ stat_ (pm_head p2) = kVolatile ∧
            ∀ a, desc_at p2 a = desc_at p1 a) as (Hk2 & Ho2 & Hs2 & Hd2).
    { subst p2. destruct (Z.eqb_spec (occupied_ (pm_head p)) nullptr).
      - split_and!; [done|congruence|congruence|done].
      - split_and!; [by apply kept_head|done| |done]. simpl. congruence. }
    assert (∀ Q', (∀ lg, wp (m ← ld_meta (mind_ (pm_head p));
        mwhen (negb (ext_free m =? nullptr))
          (st_desc (ext_free m) (set_ed_type kInvalid) ;; persist_write_back (LDesc (ext_free m))) ;;
        persist_wait_finish) Q' {| mem := p2; log := lg |}) →
      wp (mwhen (negb (occupied_ (pm_head p) =? nullptr))
            (st_head (set_occupied nullptr) ;; persist_write_back LHead))
         (λ _ s, wp (m ← ld_meta (mind_ (pm_head p));
        mwhen (negb (ext_free m =? nullptr))
          (st_desc (ext_free m) (set_ed_type kInvalid) ;; persist_write_back (LDesc (ext_free m))) ;;
        persist_wait_finish) Q' s) {| mem := p1; log := lg1 |}) as Hwhen.
    { intros Q' HQ'. subst p2. destruct (occupied_ (pm_head p) =? nullptr); simpl; pm_steps; apply HQ'. }
    pm_step. apply Hwhen. clear Hwhen. intros lg2. unfold ld_meta. pm_steps. cbn [mem].
    assert (kept p p2) as Hk by (by eapply kept_trans).
    assert (meta_at p2 (mind_ (pm_head p)) = cur_meta p2) as ->.
    { unfold cur_meta. by destruct Hk as (_ & -> & _). }
    assert (∀ lg, Q tt {| mem := fix_free p2; log := lg |}) as HQ2.
    { intros lg3. apply HQ.
      - by apply fix_free_kept.
      - apply (kept_inv (fix_free p)); [done|by apply fix_free_kept|]. intros i Hi.
        assert (desc_of (fix_free p2) i = desc_of (fix_free p) i) as ->; [|done].
        assert (desc_of p2 i = desc_of p i) as Hdi.
        { unfold desc_of. rewrite (kept_addr p p2) by done. rewrite Hd2.
          specialize (Hd1 i ltac:(intros Hio; by destruct (Hl i Hio))).
          unfold desc_of in Hd1. by rewrite (kept_addr p p1) in Hd1. }
        revert Hdi. unfold desc_of, fix_free. rewrite (kept_cur p p2) by done.
        destruct (ext_free (cur_meta p) =? nullptr); [done|].
        change (ext_addr (upd_desc ?a ?f ?q)) with (ext_addr q).
        rewrite (kept_addr p p2) by done. intros Hdi.
        destruct (decide (ext_free (cur_meta p) = ext_addr p i)) as [->|Hne].
        + rewrite !desc_at_upd_eq. by rewrite Hdi.
        + by rewrite !desc_at_upd_ne.
      - unfold fix_free. destruct (ext_free (cur_meta p2) =? nullptr); exact Ho2.
      - unfold fix_free. destruct (ext_free (cur_meta p2) =? nullptr); exact Hs2. }
    unfold fix_free in HQ2. destruct (ext_free (cur_meta p2) =? nullptr); simpl; pm_steps; apply HQ2.
Qed.

(** *** Initialisation *)

(** The header written by [init]. *)
Definition init_head (size ext med : Z) : HeadLine := {|
  stat_ := kVolatile; size_ := size; mind_ := 0; occupied_ := nullptr; ext_desc_ := ext;
  ext_total_ := size / kExtentSize; med_meta_ := med; med_total_ := size / kMediumRunBase |}.

Lemma wp_init size ext med Q p lg :
  (∀ p' lg, pm_head p' = init_head size ext med → meta_at p' 0 = zero_meta →
     pm_desc p' = pm_desc p → pm_med p' = pm_med p → pm_small p' = pm_small p →
     pm_root p' = pm_root p → Q tt {| mem := p'; log := lg |}) →
  wp (MetaHead_init size ext med) Q {| mem := p; log := lg |}.
Proof.
  intros HQ. unfold MetaHead_init, write_back_head. pm_steps. apply HQ; try done.
  change (meta_at (upd_head ?f ?q)) with (meta_at q). by rewrite !meta_at_upd_eq.
Qed.

Lemma init_inv p size ext med :
  pm_head p = init_head size ext med → meta_at p 0 = zero_meta →
  0 ≤ size → size mod kExtentSize = 0 →
  0 < ext → ext mod 64 = 0 → ext + 64 * (size / kExtentSize) < 2 ^ 63 →
  0 < med → med mod 64 = 0 → med + 64 * (size / kMediumRunBase) < 2 ^ 63 → ext_inv p [] [].
Proof.
  intros Hh Hm Hs Hsm He He64 Heb Hmd Hm64 Hmb.
  assert (cur_meta p = zero_meta) as Hc by (unfold cur_meta; by rewrite Hh).
  assert (0 ≤ size / kExtentSize) by (apply Z.div_pos; [done|reflexivity]).
  constructor; rewrite ?Hc; try done.
  - rewrite Hh. unfold wf_head. simpl. split_and!; try done; try by left.
    change kMediumRunBase with 131072. change kExtentSize with 4194304 in *.
    Z.div_mod_to_equations. lia.
  - rewrite Hh. simpl. lia.
  - constructor.
  - intros i Hi. by apply not_elem_of_nil in Hi.
  - intros i [Hi _]. rewrite Hc in Hi. simpl in Hi. lia.
  - exists 0. simpl. split_and!; done.
Qed.

(** Creating the meta file of a pool of [n] GiB. *)
Lemma wp_create start n p lg Q :
  0 < n < 2 ^ 20 → 0 < start < 2 ^ 47 → start mod kPageSize = 0 →
  let size := n * kPoolSizeAlign in
  let ext := start + 4096 in let med := ext + 256 * n * 64 in
  (∀ p' lg', pm_head p' = init_head size ext med → meta_at p' 0 = zero_meta → ext_inv p' [] [] →
     pm_desc p' = pm_desc p → pm_med p' = pm_med p → pm_small p' = pm_small p →
     pm_root p' = pm_root p →
     Q (4096 + 256 * n * 64 + 8192 * n * 64) {| mem := p'; log := lg' |}) →
  wp (MetaFile_create start size) Q {| mem := p; log := lg |}.
Proof.
  intros Hn Hst Hal size ext med HQ.
  assert (size / kExtentSize = 256 * n) as He.
  { subst size. change kPoolSizeAlign with (256 * kExtentSize). rewrite Z.mul_assoc, Z.div_mul by done. lia. }
  assert (size / kMediumRunBase = 8192 * n) as Hm.
  { subst size. change kPoolSizeAlign with (8192 * kMediumRunBase).
    rewrite Z.mul_assoc, Z.div_mul by done. lia. }
  assert (size mod kExtentSize = 0) as Hsm.
  { subst size. change kPoolSizeAlign with (256 * kExtentSize). by rewrite Z.mul_assoc, Z.mod_mul. }
  change kPageSize with 4096 in *.
  unfold MetaFile_create. rewrite He, Hm. pm_steps.
  { change sizeof_ExtentDesc with 64. change sizeof_MediumMeta with 64. change kPageSize with 4096.
    apply andb_true_iff. rewrite !Z.eqb_eq. split; Z.div_mod_to_equations; lia. }
  change sizeof_ExtentDesc with 64. change sizeof_MediumMeta with 64.
  change kMetaHeadSize with 4096. fold ext. fold med.
  apply wp_init. intros p' lg' Hh Hmeta Hd Hmed Hsm' Hrt. pm_steps.
  apply HQ; try done. eapply init_inv; [done|done|..]; subst ext med; rewrite ?He, ?Hm; try done; try lia.
  - subst size. change kPoolSizeAlign with (2 ^ 30). lia.
  - Z.div_mod_to_equations; lia.
  - Z.div_mod_to_equations; lia.
Qed.

(** ** Properties *)

(** C40: creating a meta file for a pool of a whole number of GiB passes the
    alignment asserts and establishes the allocator with no live extent; the
    segments of descriptors and of MediumMeta are page aligned, disjoint and
    inside the file, and every descriptor the pool has fits its segment. *)
Theorem create_correct start n (s : pst) :
  0 < n < 2 ^ 20 → 0 < start < 2 ^ 47 → start mod kPageSize = 0 →
  let size := n * kPoolSizeAlign in
  wp (MetaFile_create start size) (λ file_size s',
    ext_rel (mem s') {| abs_total := size / kExtentSize; abs_live := ∅ |} ∧
    stat_ (pm_head (mem s')) = kVolatile ∧
    let h := pm_head (mem s') in
    start + kPageSize = ext_desc_ h ∧ ext_desc_ h mod kPageSize = 0 ∧ med_meta_ h mod kPageSize = 0 ∧
    elem_addr (ext_desc_ h) (ext_total_ h) = med_meta_ h ∧
    elem_addr (med_meta_ h) (med_total_ h) = start + file_size) s.
Proof.
  intros Hn Hst Hal size. destruct s as [p lg]. apply (wp_create start n); [done..|].
  intros p' lg' Hh Hmeta Hinv _ _ _ _. cbn [mem]. rewrite Hh. cbn.
  assert (size / kExtentSize = 256 * n) as He.
  { subst size. change kPoolSizeAlign with (256 * kExtentSize). rewrite Z.mul_assoc, Z.div_mul by done. lia. }
  assert (size / kMediumRunBase = 8192 * n) as Hm.
  { subst size. change kPoolSizeAlign with (8192 * kMediumRunBase).
    rewrite Z.mul_assoc, Z.div_mul by done. lia. }
  unfold elem_addr. fold size. rewrite ?He, ?Hm. change kCacheLineSize with 64.
  change kPageSize with 4096 in *.
  split_and!; try lia; try (Z.div_mod_to_equations; lia); [|done].
  exists [], []. split; [done|]. split; [by rewrite Hh, <-He|].
  intros i. unfold live, cur_meta. rewrite Hh. simpl. rewrite Hmeta. simpl. split; [set_solver|lia].
Qed.

(** C27: [MetaHead::acquire] refines the abstract allocator: on every state of
    the allocator and for every request of the run cases it terminates, passes
    its asserts, and either reports that every extent is live, or hands out an
    extent that was not live, with its descriptor initialised and all other
    descriptors, and all MediumMeta, unchanged. *)
Theorem acquire_refines p a type run_case size lg :
  ext_rel p a → ok_request type run_case size →
  wp (MetaHead_acquire type run_case size) (λ r s', ∃ o a',
    abs_acquire a o a' ∧ ext_rel (mem s') a' ∧ r = extent_result p o ∧
    pm_med (mem s') = pm_med p ∧
    match o with
    | None => mem s' = p
    | Some i =>
        (∃ next runs, desc_of (mem s') i = new_desc type run_case size next runs) ∧
        ∀ b, b ≠ ext_addr p i → desc_at (mem s') b = desc_at p b
    end) {| mem := p; log := lg |}.
Proof.
  intros (fl & ml & Hinv & Ht & Hl) Hok. apply (wp_acquire fl ml); try done.
  - intros -> Hu. exists None, a. split_and!; try done; [|by exists [], ml]. constructor.
    intros i Hi. apply Hl. split; [lia|]. apply not_elem_of_nil.
  - intros p' tr i fl' ml' Ha _. cbn [mem].
    destruct (ext_taken_facts _ _ _ _ _ _ Hinv (acq_taken _ _ _ _ _ _ _ _ _ _ Ha))
      as (Hi & Hle & Hnn & Hcase & Hmf & Hnd & Hni & Hsub & Hlive).
    assert (¬ live p fl i) as Hnl.
    { intros [Hr Hnf]. destruct (acq_taken _ _ _ _ _ _ _ _ _ _ Ha) as [(-> & _)|(-> & _ & -> & _)].
      - set_solver.
      - lia. }
    exists (Some i), {| abs_total := abs_total a; abs_live := {[ i ]} ∪ abs_live a |}.
    split_and!.
    + constructor; [rewrite Ht; lia|]. by rewrite Hl.
    + exists fl', ml'. split; [apply Ha|]. split.
      { destruct (acq_head _ _ _ _ _ _ _ _ _ _ Ha) as [(_ & _ & -> & _) _]. apply Ht. }
      intros j. simpl. rewrite elem_of_union, elem_of_singleton, Hl. split.
      * intros [->|[Hr Hnf]]; [split; [lia|done]|]. split; [lia|]. intros Hin. by apply Hnf, Hsub.
      * intros [Hr Hnf]. destruct (decide (j = i)) as [->|Hne]; [by left|]. right.
        by apply Hlive.
    + done.
    + apply Ha.
    + destruct (acq_desc _ _ _ _ _ _ _ _ _ _ Ha) as (next & runs & Hd & _). by exists next, runs.
    + apply Ha.
Qed.

(** C28: [MetaHead::release] refines the abstract allocator: releasing a live
    extent terminates, passes its asserts, makes exactly that extent free and
    leaves all other descriptors unchanged. *)
Theorem release_refines p a i lg :
  ext_rel p a → i ∈ abs_live a →
  wp (MetaHead_release (ext_addr p i)) (λ _ s', ∃ a',
    abs_release a i a' ∧ ext_rel (mem s') a' ∧
    ∀ b, b ≠ ext_addr p i → desc_at (mem s') b = desc_at p b) {| mem := p; log := lg |}.
Proof.
  intros (fl & ml & Hinv & Ht & Hl) Hi. apply (wp_release i fl ml); [done|by apply Hl|].
  intros p' tr ml' Hr _. cbn [mem].
  exists {| abs_total := abs_total a; abs_live := abs_live a ∖ {[ i ]} |}. split_and!.
  - by constructor.
  - exists (i :: fl), ml'. split; [apply Hr|]. split.
    { destruct (rel_head _ _ _ _ _ _ Hr) as [(_ & _ & -> & _) _]. apply Ht. }
    intros j. simpl. rewrite elem_of_difference, elem_of_singleton, Hl. unfold live.
    rewrite (rel_used _ _ _ _ _ _ Hr), not_elem_of_cons. tauto.
  - apply Hr.
Qed.

(** C34: closing and reopening: after the half-used extents [descs], any distinct
    live ones, have been recorded and the pool shut down, [reboot] finds the
    pool consistent, returns exactly the recorded descriptors, the last recorded
    first, and the allocator is as before. *)
Theorem close_reopen p a descs lg :
  ext_rel p a → NoDup descs → (∀ i, i ∈ descs → i ∈ abs_live a) →
  stat_ (pm_head p) = kVolatile → occupied_ (pm_head p) = nullptr →
  wp (mforeach (ext_addr p <$> descs) MetaHead_record ;; MetaHead_shutdown ;; MetaHead_reboot [])
    (λ r s', r = (true, ext_addr p <$> reverse descs) ∧ ext_rel (mem s') a ∧
       stat_ (pm_head (mem s')) = kVolatile ∧ occupied_ (pm_head (mem s')) = nullptr)
    {| mem := p; log := lg |}.
Proof.
  intros (fl & ml & Hinv & Ht & Hl) Hnd Hdl Hst Hocc.
  assert (∀ p0 ol lg, kept p p0 → ext_inv p0 fl ml → occ_inv p0 fl ol →
    NoDup (reverse ol ++ descs) → (∀ i, i ∈ descs → live p fl i) →
    wp (mforeach (ext_addr p <$> descs) MetaHead_record ;; MetaHead_shutdown ;; MetaHead_reboot [])
      (λ r s', r = (true, ext_addr p <$> (reverse descs ++ ol)) ∧ ext_rel (mem s') a ∧
       stat_ (pm_head (mem s')) = kVolatile ∧ occupied_ (pm_head (mem s')) = nullptr)
      {| mem := p0; log := lg |}) as Hgen.
  { clear Hnd Hdl. induction descs as [|i descs IH]; intros p0 ol lg0 Hk Hinv0 Hocc0 Hnd Hd; simpl.
    - unfold MetaHead_shutdown, write_back_head. pm_steps.
      apply (wp_reboot_consistent fl ml ol); try done.
      { by apply (kept_inv p0). }
      intros p' lg' Hk' Hinv' Ho' Hs'. cbn [mem].
      assert (kept p p') as Hkp by (eapply kept_trans; [exact Hk|]; eapply kept_trans; [|exact Hk']; by apply kept_head).
      split_and!; try done.
      + simpl. f_equal. apply list_fmap_ext. intros _ j _. change (ext_addr (upd_head ?f ?q)) with (ext_addr q).
        by apply kept_addr.
      + exists fl, ml. split_and!; [done| |].
        * destruct Hkp as ((_ & _ & -> & _) & _). done.
        * intros j. rewrite Hl. unfold live. by rewrite (kept_cur p p').
    - rewrite <-(kept_addr p p0 i) by done. pm_step. pm_step.
      assert (live p fl i) as Hli by (apply Hd; set_solver).
      assert (i ∉ ol) as Hio.
      { intros Hin. apply NoDup_app in Hnd as (_ & Hx & _). apply (Hx i); set_solver. }
      apply (wp_record fl ml ol); [done|done|by apply (kept_live p)|done|].
      intros p1 lg1 Hk1 Hinv1 Hocc1 Hs1.
      assert (kept p p1) as Hkp1 by (by eapply kept_trans).
      specialize (IH p1 (i :: ol) lg1 Hkp1 Hinv1 Hocc1).
      rewrite !reverse_cons, <-!app_assoc in *. simpl in IH.
      apply wp_bind_inv in IH; [exact IH|done|].
      intros j Hj. apply Hd. set_solver. }
  rewrite <-(app_nil_r (reverse descs)). apply Hgen; try done.
  - split_and!; [constructor|set_solver|done].
  - intros i Hi. by apply Hl, Hdl.
Qed.
End lemmas.

(** ** Witnesses: a pool of 1 GiB, and the same pool with one small extent *)

Definition example_pool : pmem :=
  upd_head (λ _, init_head (2 ^ 30) 8192 24576) zero_pmem.
Definition example_free : ext_abs := {| abs_total := 256; abs_live := ∅ |}.
Definition example_pool1 : pmem :=
  match MetaHead_acquire kSmall 0 16384 {| mem := example_pool; log := [] |} with
  | Ok _ s => mem s
  | Err _ => zero_pmem
  end.
Definition example_one : ext_abs := {| abs_total := 256; abs_live := {[ 0 ]} |}.

Lemma example_pool_rel : ext_rel example_pool example_free.
Proof.
  exists [], []. split; [|split].
  - apply (init_inv example_pool (2 ^ 30) 8192 24576); vm_compute; intuition congruence.
  - reflexivity.
  - intros i. unfold live. change (ext_used (cur_meta example_pool)) with 0. simpl.
    split; [set_solver|lia].
Qed.

Lemma small_request : ok_request kSmall 0 16384.
Proof. unfold ok_request. vm_compute. intuition congruence. Qed.

Lemma example_pool1_rel : ext_rel example_pool1 example_one.
Proof.
  destruct example_pool_rel as (fl & ml & Hinv & Ht & Hl).
  pose proof (wp_acquire fl ml kSmall 0 16384 (λ r s', r = (8192, 0) → ext_rel (mem s') example_one)
    example_pool [] Hinv small_request) as Hwp.
  assert (fl = []) as ->.
  { destruct fl as [|i fl]; [done|]. destruct (inv_free _ _ _ Hinv i) as [Hi _]; [set_solver|].
    change (ext_used (cur_meta example_pool)) with 0 in Hi. lia. }
  unfold wp in Hwp. unfold example_pool1.
  assert (∃ s', MetaHead_acquire kSmall 0 16384 {| mem := example_pool; log := [] |} = Ok (8192, 0) s')
    as [s' Hrun] by (eexists; vm_compute; reflexivity).
  rewrite Hrun in Hwp |- *. apply Hwp; [done| |done]. clear Hwp Hrun s'.
  intros p' tr i fl' ml' Ha _ He. injection He as _ ->.
  destruct (ext_taken_facts _ _ _ _ _ _ Hinv (acq_taken _ _ _ _ _ _ _ _ _ _ Ha))
    as (Hi & _ & _ & Hcase & _ & _ & Hni & Hsub & _).
  exists fl', ml'. split; [apply Ha|]. split.
  { cbn [mem]. destruct (acq_head _ _ _ _ _ _ _ _ _ _ Ha) as [(_ & _ & -> & _) _]. reflexivity. }
  change (ext_used (cur_meta example_pool)) with 0 in Hcase.
  intros j. simpl. unfold live. rewrite elem_of_singleton. split.
  - intros ->. done.
  - intros [Hj _]. lia.
Qed.

Lemma create_correct_witness :
  wp (MetaFile_create 4096 (1 * kPoolSizeAlign)) (λ _ s',
    ext_rel (mem s') {| abs_total := 1 * kPoolSizeAlign / kExtentSize; abs_live := ∅ |})
    {| mem := zero_pmem; log := [] |}.
Proof.
  eapply wp_mono; [apply (create_correct 4096 1); [lia|lia|reflexivity]|].
  intros a s' Hq. exact (proj1 Hq).
Defined.

Lemma acquire_refines_witness :
  wp (MetaHead_acquire kSmall 0 16384) (λ r s', ∃ o a',
    abs_acquire example_free o a' ∧ ext_rel (mem s') a' ∧ r = extent_result example_pool o)
    {| mem := example_pool; log := [] |}.
Proof.
  eapply wp_mono; [apply (acquire_refines example_pool example_free);
    [apply example_pool_rel|apply small_request]|].
  intros r s' (o & a' & H1 & H2 & H3 & _). exists o, a'. split; [exact H1|split; [exact H2|exact H3]].
Defined.

Lemma release_refines_witness :
  wp (MetaHead_release 8192) (λ _ s', ∃ a', abs_release example_one 0 a' ∧ ext_rel (mem s') a')
    {| mem := example_pool1; log := [] |}.
Proof.
  eapply wp_mono; [apply (release_refines example_pool1 example_one 0);
    [apply example_pool1_rel|vm_compute; reflexivity]|].
  intros r s' (a' & H1 & H2 & _). exists a'. split; [exact H1|exact H2].
Defined.

Lemma close_reopen_witness :
  wp (mforeach [8192] MetaHead_record ;; MetaHead_shutdown ;; MetaHead_reboot [])
    (λ r s', r = (true, [8192]) ∧ ext_rel (mem s') example_one)
    {| mem := example_pool1; log := [] |}.
Proof.
  eapply wp_mono; [apply (close_reopen example_pool1 example_one [0])|].
  - apply example_pool1_rel.
  - apply NoDup_singleton.
  - intros i Hi. apply list_elem_of_singleton in Hi as ->. vm_compute. reflexivity.
  - vm_compute. reflexivity.
  - vm_compute. reflexivity.
  - intros r s' (H1 & H2 & _). split; [exact H1|exact H2].
Defined.
