(* ===== verification/MetaCrash.v ===== *)
(** * Crash atomicity of the extent allocator

    The operations of [MetaHead] commit with the store of one word: [mind_] for
    the complex ones, a field of the current DescMeta for the plain ones.  The
    machine may stop after any event, and each line that was not settled may
    then have any of the contents it had: [resume] turns every such memory into
    the state of the allocator before the operation or after it, with all live
    descriptors intact. *)

From S2P Require Export MetaSpec.
Import Pmem.

(** ** Definitions *)

(** The machine stopped while [tr] was executing from the durable memory [p]. *)
Definition crashed (p : pmem) (tr : list (pev loc val)) (p' : pmem) : Prop :=
  crash_image (loc_val p) tr (loc_val p').

(** [p'] agrees with [p] on what the allocator needs of the lists [fl] and
    [ml]: the first free extent may have any type. *)
Definition crash_like (p p' : pmem) (fl ml : list Z) : Prop :=
  pm_head p' = pm_head p ∧ cur_meta p' = cur_meta p ∧
  (∀ i, i ∈ fl → ed_next (desc_of p' i) = ed_next (desc_of p i) ∧
                 (desc_of p' i = desc_of p i ∨ head fl = Some i)) ∧
  (∀ i, live p fl i → set_ed_next nullptr (desc_of p' i) = set_ed_next nullptr (desc_of p i)) ∧
  (∀ j, j ∈ ml → med_at p' (slot_addr p j) = med_at p (slot_addr p j)).

(** The descriptors of the live extents are intact, up to their links. *)
Definition live_intact (p : pmem) (a : ext_abs) (p' : pmem) : Prop :=
  ∀ i, i ∈ abs_live a →
    set_ed_next nullptr (desc_of p' i) = set_ed_next nullptr (desc_of p i).

(** ** Lemmas *)

Section lemmas.
Context `{UtilSpec}.
Implicit Types (p : pmem) (fl ml : list Z).

Lemma next_eq d d' :
  set_ed_next nullptr d' = set_ed_next nullptr d →
  ed_type d' = ed_type d ∧ ed_runs d' = ed_runs d ∧ (wf_desc d → wf_desc d').
Proof.
  destruct d, d'. intros He. injection He. intros. subst. done.
Qed.

Lemma fix_free_facts p :
  pm_head (fix_free p) = pm_head p ∧ cur_meta (fix_free p) = cur_meta p ∧
  ext_addr (fix_free p) = ext_addr p ∧ pm_med (fix_free p) = pm_med p.
Proof. unfold fix_free. by destruct (_ =? _). Qed.

Lemma crash_like_inv p p' fl ml :
  ext_inv p fl ml → crash_like p p' fl ml → ext_inv (fix_free p') fl ml.
Proof.
  intros Hinv (Hh & Hc & Hf & Hl & Hm). destruct (fix_free_facts p') as (Hh' & Hc' & Ha' & Hm').
  pose proof (inv_used _ _ _ Hinv) as Hu.
  assert (ext_addr p' = ext_addr p) as Ha by (unfold ext_addr; by rewrite Hh).
  assert (∀ i, head fl ≠ Some i → desc_of (fix_free p') i = desc_of p' i) as Hother.
  { intros i Hne. unfold desc_of. rewrite Ha'. unfold fix_free. rewrite Hc.
    destruct (Z.eqb_spec (ext_free (cur_meta p)) nullptr); [done|].
    rewrite desc_at_upd_ne; [done|]. pose proof (inv_chain _ _ _ Hinv) as Hch.
    destruct fl as [|j fl]; [done|]. destruct Hch as [-> _]. rewrite Ha.
    intros He. apply ext_addr_inj in He as ->. done. }
  assert (∀ i, live p fl i → desc_of (fix_free p') i = desc_of p' i) as Hlive.
  { intros i [_ Hni]. apply Hother. intros Hhd. apply Hni. destruct fl; [done|]. injection Hhd as ->.
    by left. }
  apply (ext_inv_frame p _ fl ml Hinv).
  - rewrite Hh', Hh. done.
  - by rewrite Hh', Hh.
  - by rewrite Hc', Hc.
  - intros i Hi. destruct (Hf i Hi) as [Hn Hcase]. destruct fl as [|j fl]; [by apply not_elem_of_nil in Hi|].
    destruct (decide (i = j)) as [->|Hne].
    + pose proof (inv_chain _ _ _ Hinv) as [Hch _]. destruct (inv_free _ _ _ Hinv j) as [Hr _]; [by left|].
      destruct (ext_addr_wf p j (inv_head _ _ _ Hinv)) as (Hnn & _); [lia|].
      unfold desc_of in *. rewrite Ha' in *. unfold fix_free. rewrite Hc, Hch.
      rewrite (proj2 (Z.eqb_neq _ _)) by done. rewrite Ha in *. by rewrite desc_at_upd_eq.
    + rewrite Hother by (simpl; congruence). split; [|done].
      destruct Hcase as [->|Hhd]; [|simpl in Hhd; congruence]. by apply (inv_free _ _ _ Hinv).
  - intros i Hi. rewrite Hlive by done. destruct (next_eq _ _ (Hl i Hi)) as (Ht & Hr & Hw).
    split_and!; [|done|done]. apply Hw. by apply (inv_live _ _ _ Hinv).
  - intros j Hj. unfold med_at. rewrite Hm'. fold (med_at p' (slot_addr p j)). by rewrite Hm.
Qed.

(** [resume] after a crash that left a memory like [p]. *)
Lemma wp_resume_like p p' fl ml (Q : unit → pst → Prop) lg :
  ext_inv p fl ml → stat_ (pm_head p) = kVolatile → occupied_ (pm_head p) = nullptr →
  crash_like p p' fl ml →
  (∀ p2 lg, ext_inv p2 fl ml → cur_meta p2 = cur_meta p → ext_total_ (pm_head p2) = ext_total_ (pm_head p) →
     (∀ i, live p fl i → set_ed_next nullptr (desc_of p2 i) = set_ed_next nullptr (desc_of p i)) →
     Q tt {| mem := p2; log := lg |}) →
  wp MetaHead_resume Q {| mem := p'; log := lg |}.
Proof.
  intros Hinv Hst Hocc Hlike HQ. pose proof (crash_like_inv p p' fl ml Hinv Hlike) as Hfix.
  destruct Hlike as (Hh & Hc & Hf & Hl & Hm). destruct (fix_free_facts p') as (Hh' & Hc' & Ha' & Hm').
  assert (ext_addr p' = ext_addr p) as Ha by (unfold ext_addr; by rewrite Hh).
  apply (wp_resume fl ml []); [by rewrite Hh|done| |].
  { split_and!; [constructor|set_solver|]. simpl. by rewrite Hh. }
  intros p2 lg2 Hk Hinv2 _ _. apply HQ.
  - done.
  - rewrite (kept_cur _ _ Hk). by rewrite Hc', Hc.
  - destruct Hk as ((_ & _ & -> & _) & _). by rewrite Hh', Hh.
  - intros i Hi. rewrite <-(Hl i Hi). rewrite <-(fix_free_desc p' fl ml i) by (done || apply Hi).
    unfold desc_of. rewrite (kept_addr _ _ i Hk). apply Hk.
Qed.

(** From the contents of the lines to the structures. *)
Lemma same_desc p p' a : loc_val p' (LDesc a) = loc_val p (LDesc a) → desc_at p' a = desc_at p a.
Proof. by intros [=]. Qed.

Lemma acquire_crash p p1 p' fl fl1 ml ml1 i type run_case size tr :
  ext_inv p fl ml → acquired p p1 fl fl1 ml ml1 i type run_case size → acquire_log p p1 fl i tr →
  crashed p tr p' → crash_like p p' fl ml ∨ crash_like p1 p' fl1 ml1.
Proof.
  intros Hinv Hacq (tr1 & C & -> & HC & Hst & Hset) Hcr.
  destruct (other_mind (pm_head p)) as (_ & Hne & _); [apply (inv_head _ _ _ Hinv)|].
  assert (∀ x, Store C x ∉ tr1) as HC1.
  { intros x Hx. destruct (Hst C x Hx) as [->|(d & -> & _)]; [|by destruct HC].
    destruct HC as [|HC]; [done|]. injection HC. done. }
  destruct (commit_image (loc_val p) (loc_val p1) C (loc_val p1 C) tr1 [] (loc_val p')) as
    [[HvC Hv]|[HvC Hv]]; try done; [intros x Hx; by apply not_elem_of_nil in Hx| |].
  - left.
    assert (∀ l, (l = LDesc (ext_addr p i) → False) → l ≠ LMeta ((mind_ (pm_head p) + 1) mod 2) →
                 loc_val p' l = loc_val p l) as Hsame.
    { intros l Hd Hm. destruct (decide (l = C)) as [->|HlC]; [done|].
      destruct (Hv l HlC) as [|Hx]; [done|]. destruct (Hst _ _ Hx) as [->|(d & -> & _)]; [done|].
      by destruct Hd. }
    assert (pm_head p' = pm_head p) as Hh.
    { specialize (Hsame LHead ltac:(done) ltac:(done)). by injection Hsame. }
    assert (ext_addr p' = ext_addr p) as Ha by (unfold ext_addr; by rewrite Hh).
    assert (∀ j, j ≠ i → desc_of p' j = desc_of p j) as Hd.
    { intros j Hj. unfold desc_of. rewrite Ha. apply same_desc, Hsame; [|done].
      intros He. injection He. by intros ->%ext_addr_inj. }
    destruct (ext_taken_facts _ _ _ _ _ _ Hinv (acq_taken _ _ _ _ _ _ _ _ _ _ Hacq))
      as (Hi & _ & _ & Hcase & _ & _ & _ & _ & _).
    split_and!.
    + done.
    + unfold cur_meta. rewrite Hh.
      specialize (Hsame (LMeta (mind_ (pm_head p))) ltac:(done) ltac:(congruence)). by injection Hsame.
    + intros j Hj. destruct (decide (j = i)) as [->|Hji].
      * split; [|right; destruct (acq_taken _ _ _ _ _ _ _ _ _ _ Hacq) as [(-> & _)|(-> & _)];
                   [done|by apply not_elem_of_nil in Hj]].
        destruct (Hv (LDesc (ext_addr p i))) as [Hx|Hx].
        { by destruct HC as [->| ->]. }
        { unfold desc_of. rewrite Ha. by rewrite (same_desc p p'). }
        destruct (Hst _ _ Hx) as [|(d & _ & Hxd & Hnx)]; [done|]. unfold desc_of. rewrite Ha.
        injection Hxd as ->. by apply Hnx.
      * rewrite Hd by done. split; [done|by left].
    + intros j [Hj Hnj]. rewrite Hd; [done|]. intros ->.
      destruct (acq_taken _ _ _ _ _ _ _ _ _ _ Hacq) as [(-> & _)|(_ & _ & -> & _)]; [|lia].
      apply Hnj. by left.
    + intros j Hj. specialize (Hsame (LMed (slot_addr p j)) ltac:(done) ltac:(done)). by injection Hsame.
  - right. assert (∀ l, loc_val p' l = loc_val p1 l) as Hsame.
    { intros l. destruct (decide (l = C)) as [->|HlC]; [done|].
      destruct (Hv l HlC) as [|Hx]; [done|]. by apply not_elem_of_nil in Hx. }
    assert (pm_head p' = pm_head p1) as Hh by (specialize (Hsame LHead); by injection Hsame).
    assert (∀ j, desc_of p' j = desc_of p1 j) as Hd.
    { intros j. unfold desc_of, ext_addr. rewrite Hh. apply same_desc, Hsame. }
    split_and!.
    + done.
    + unfold cur_meta. rewrite Hh. specialize (Hsame (LMeta (mind_ (pm_head p1)))). by injection Hsame.
    + intros j Hj. rewrite Hd. split; [done|by left].
    + intros j Hj. by rewrite Hd.
    + intros j Hj. specialize (Hsame (LMed (slot_addr p1 j))). by injection Hsame.
Qed.

Lemma release_crash p p1 p' fl ml ml1 i tr :
  ext_inv p fl ml → live p fl i → released p p1 fl ml ml1 i → release_log p p1 i tr →
  crashed p tr p' → crash_like p p' fl ml ∨ crash_like p1 p' (i :: fl) ml1.
Proof.
  intros Hinv Hl Hrel (tr1 & C & p2 & -> & HC & Hp1 & Hst & Hset) Hcr.
  destruct (other_mind (pm_head p)) as (_ & Hne & _); [apply (inv_head _ _ _ Hinv)|].
  assert (∀ x, Store C x ∉ tr1) as HC1.
  { intros x Hx. destruct (Hst C x Hx) as [->|[(-> & _)|(d & -> & _)]]; [|by destruct HC..].
    destruct HC as [|HC]; [done|]. injection HC. done. }
  destruct (commit_image (loc_val p) (loc_val p2) C (loc_val p2 C) tr1
    [Store (LDesc (ext_addr p i)) (VDesc (set_ed_type kInvalid (desc_at p2 (ext_addr p i))));
     Flush (LDesc (ext_addr p i)); Fence] (loc_val p')) as [[HvC Hv]|[HvC Hv]]; try done.
  { intros x Hx. set_unfold in Hx. destruct HC as [->| ->]; intuition congruence. }
  - left.
    assert (∀ l, l ≠ LDesc (ext_addr p i) → l ≠ LMeta ((mind_ (pm_head p) + 1) mod 2) →
      (is_medium p i = true → l ≠ LMed (ed_runs (desc_of p i))) → loc_val p' l = loc_val p l) as Hsame.
    { intros l Hd Hm Hmd. destruct (decide (l = C)) as [->|HlC]; [done|].
      destruct (Hv l HlC) as [|Hx]; [done|].
      destruct (Hst _ _ Hx) as [->|[(-> & Hmed)|(d & -> & _)]]; [done| |done]. by destruct Hmd. }
    assert (pm_head p' = pm_head p) as Hh.
    { specialize (Hsame LHead ltac:(done) ltac:(done) ltac:(done)). by injection Hsame. }
    assert (ext_addr p' = ext_addr p) as Ha by (unfold ext_addr; by rewrite Hh).
    assert (∀ j, j ≠ i → desc_of p' j = desc_of p j) as Hd.
    { intros j Hj. unfold desc_of. rewrite Ha. apply same_desc, Hsame; [|done|done].
      intros He. injection He. by intros ->%ext_addr_inj. }
    split_and!.
    + done.
    + unfold cur_meta. rewrite Hh.
      specialize (Hsame (LMeta (mind_ (pm_head p))) ltac:(done) ltac:(congruence) ltac:(done)).
      by injection Hsame.
    + intros j Hj. rewrite Hd; [split; [done|by left]|]. intros ->. by destruct Hl.
    + intros j Hj. destruct (decide (j = i)) as [->|Hji]; [|by rewrite Hd].
      destruct (Hv (LDesc (ext_addr p i))) as [Hx|Hx].
      { by destruct HC as [->| ->]. }
      { unfold desc_of. rewrite Ha. by rewrite (same_desc p p'). }
      destruct (Hst _ _ Hx) as [|[(Hx' & _)|(d & _ & Hxd & Hnx)]]; [done|done|].
      unfold desc_of. rewrite Ha. injection Hxd as ->. by apply Hnx.
    + intros j Hj.
      assert (is_medium p i = true → LMed (slot_addr p j) ≠ LMed (ed_runs (desc_of p i))) as Hmd.
      { intros Hmed He. destruct (live_slot p fl ml i Hinv Hl Hmed) as (j' & _ & Hr & Hni).
        rewrite Hr in He. injection He. intros ->%slot_addr_inj. done. }
      specialize (Hsame (LMed (slot_addr p j)) ltac:(done) ltac:(done) Hmd). by injection Hsame.
  - right.
    assert (∀ l, l ≠ LDesc (ext_addr p i) → loc_val p' l = loc_val p1 l) as Hsame.
    { intros l Hld. rewrite Hp1, loc_val_desc, decide_False by done.
      destruct (decide (l = C)) as [->|HlC]; [done|]. destruct (Hv l HlC) as [|Hx]; [done|].
      set_unfold in Hx. intuition congruence. }
    assert (pm_head p' = pm_head p1) as Hh by (specialize (Hsame LHead ltac:(done)); by injection Hsame).
    assert (∀ j, ext_addr p1 j = ext_addr p j) as Ha1.
    { intros j. by destruct (same_head_addr p p1 j 0 (rel_head _ _ _ _ _ _ Hrel)). }
    assert (∀ j, j ≠ i → desc_of p' j = desc_of p1 j) as Hd.
    { intros j Hj. unfold desc_of, ext_addr. rewrite Hh. apply same_desc, Hsame.
      intros He. injection He as He. fold (ext_addr p1 j) in He. rewrite Ha1 in He.
      by apply ext_addr_inj in He. }
    assert (ed_next (desc_of p' i) = ed_next (desc_of p1 i)) as Hdn.
    { unfold desc_of, ext_addr. rewrite Hh. fold (ext_addr p1 i). rewrite Ha1.
      rewrite Hp1, desc_at_upd_eq. simpl.
      destruct (Hv (LDesc (ext_addr p i))) as [Hx|Hx].
      { by destruct HC as [->| ->]. }
      { by rewrite (same_desc p2 p'). }
      set_unfold in Hx. destruct Hx as [Hx|Hx]; [|intuition congruence]. by injection Hx as ->. }
    split_and!.
    + done.
    + unfold cur_meta. rewrite Hh. specialize (Hsame (LMeta (mind_ (pm_head p1))) ltac:(done)).
      by injection Hsame.
    + intros j Hj. destruct (decide (j = i)) as [->|Hji]; [split; [done|by right]|].
      rewrite Hd by done. split; [done|by left].
    + intros j [_ Hnj]. rewrite Hd; [done|]. intros ->. apply Hnj. by left.
    + intros j Hj. specialize (Hsame (LMed (slot_addr p1 j)) ltac:(done)). by injection Hsame.
Qed.

(** A crash when nothing has been stored. *)
Lemma crash_nothing p p' fl ml : crashed p [] p' → crash_like p p' fl ml.
Proof.
  intros [k Hk]. assert (∀ l, loc_val p' l = loc_val p l) as Hsame.
  { intros l. specialize (Hk l). rewrite take_nil in Hk. by apply list_elem_of_singleton in Hk. }
  assert (pm_head p' = pm_head p) as Hh by (specialize (Hsame LHead); by injection Hsame).
  assert (∀ j, desc_of p' j = desc_of p j) as Hd.
  { intros j. unfold desc_of, ext_addr. rewrite Hh. apply same_desc, Hsame. }
  split_and!.
  - done.
  - unfold cur_meta. rewrite Hh. specialize (Hsame (LMeta (mind_ (pm_head p)))). by injection Hsame.
  - intros j Hj. rewrite Hd. split; [done|by left].
  - intros j Hj. by rewrite Hd.
  - intros j Hj. specialize (Hsame (LMed (slot_addr p j))). by injection Hsame.
Qed.

Lemma acquired_status p p1 fl fl1 ml ml1 i type run_case size :
  acquired p p1 fl fl1 ml ml1 i type run_case size →
  stat_ (pm_head p1) = stat_ (pm_head p) ∧ occupied_ (pm_head p1) = occupied_ (pm_head p) ∧
  ext_total_ (pm_head p1) = ext_total_ (pm_head p) ∧ ∀ j, ext_addr p1 j = ext_addr p j.
Proof.
  intros Ha. destruct (acq_head _ _ _ _ _ _ _ _ _ _ Ha) as ((_ & _ & Ht & _) & Hs & Ho).
  split_and!; try done. intros j. by destruct (same_head_addr p p1 j 0 (acq_head _ _ _ _ _ _ _ _ _ _ Ha)).
Qed.

(** The live extents after a successful [acquire]. *)
Lemma acquired_live p p1 fl fl1 ml ml1 i type run_case size :
  ext_inv p fl ml → acquired p p1 fl fl1 ml ml1 i type run_case size →
  ¬ live p fl i ∧ 0 ≤ i < ext_total_ (pm_head p) ∧ ∀ j, live p1 fl1 j ↔ j = i ∨ live p fl j.
Proof.
  intros Hinv Ha.
  destruct (ext_taken_facts _ _ _ _ _ _ Hinv (acq_taken _ _ _ _ _ _ _ _ _ _ Ha))
    as (Hi & Hle & Hnn & Hcase & Hmf & Hnd & Hni & Hsub & Hlive).
  split_and!; [|lia|lia|].
  - intros [Hr Hnf]. destruct (acq_taken _ _ _ _ _ _ _ _ _ _ Ha) as [(-> & _)|(-> & _ & -> & _)].
    + apply Hnf. by left.
    + lia.
  - intros j. split.
    + intros [Hr Hnf]. destruct (decide (j = i)) as [->|Hne]; [by left|]. right. by apply Hlive.
    + intros [->|[Hr Hnf]]; [done|]. split; [lia|]. intros Hin. by apply Hnf, Hsub.
Qed.

(** The outcomes of [acquire], with its log. *)
Lemma acquire_outcome p fl ml type run_case size r s1 :
  ext_inv p fl ml → ok_request type run_case size →
  MetaHead_acquire type run_case size {| mem := p; log := [] |} = Ok r s1 →
  (r = no_extent ∧ s1 = {| mem := p; log := [] |} ∧ fl = [] ∧
   ext_used (cur_meta p) = ext_total_ (pm_head p)) ∨
  ∃ i fl1 ml1, r = (ext_addr p i, i) ∧ acquired p (mem s1) fl fl1 ml ml1 i type run_case size ∧
               acquire_log p (mem s1) fl i (log s1).
Proof.
  intros Hinv Hok Hrun.
  pose proof (wp_acquire fl ml type run_case size (λ r s1,
    (r = no_extent ∧ s1 = {| mem := p; log := [] |} ∧ fl = [] ∧
     ext_used (cur_meta p) = ext_total_ (pm_head p)) ∨
    ∃ i fl1 ml1, r = (ext_addr p i, i) ∧ acquired p (mem s1) fl fl1 ml ml1 i type run_case size ∧
                 acquire_log p (mem s1) fl i (log s1)) p [] Hinv Hok) as Hwp.
  unfold wp in Hwp. rewrite Hrun in Hwp. apply Hwp; [by left|]. intros. right. eauto 10.
Qed.

(** ** Properties *)

(** C16: acquiring is failure atomic.  Let the machine stop at any moment while
    [MetaHead::acquire] runs from a durable state, and let every line hold any
    content the hardware may have left there.  Then [resume] passes its asserts
    and restores the allocator: either as it was before, or as after the
    operation, with the descriptors of all live extents intact. *)
Theorem acquire_crash_atomic p a type run_case size r s1 p' :
  ext_rel p a → stat_ (pm_head p) = kVolatile → occupied_ (pm_head p) = nullptr →
  ok_request type run_case size →
  MetaHead_acquire type run_case size {| mem := p; log := [] |} = Ok r s1 →
  crashed p (log s1) p' →
  wp MetaHead_resume (λ _ s2, ∃ o a', abs_acquire a o a' ∧ r = extent_result p o ∧
    (ext_rel (mem s2) a ∨ ext_rel (mem s2) a') ∧ live_intact p a (mem s2))
    {| mem := p'; log := [] |}.
Proof.
  intros (fl & ml & Hinv & Ht & Hl) Hst Hocc Hok Hrun Hcr.
  destruct (acquire_outcome p fl ml type run_case size r s1 Hinv Hok Hrun)
    as [(-> & -> & -> & Hu)|(i & fl1 & ml1 & -> & Hacq & Hlog)].
  - apply (wp_resume_like p p' [] ml); try done; [by apply crash_nothing|].
    intros p2 lg Hinv2 Hc2 Ht2 Hd2. exists None, a. cbn [mem]. split_and!; [|done| |].
    + constructor. intros j Hj. apply Hl. split; [lia|]. apply not_elem_of_nil.
    + left. exists [], ml. split_and!; [done|by rewrite Ht2|]. intros j. rewrite Hl. unfold live.
      by rewrite Hc2.
    + intros j Hj. by apply Hd2, Hl.
  - destruct s1 as [p1 tr]. cbn [mem log] in *.
    destruct (acquired_live _ _ _ _ _ _ _ _ _ _ Hinv Hacq) as (Hnl & Hi & Hlive).
    destruct (acquired_status _ _ _ _ _ _ _ _ _ _ Hacq) as (Hs1 & Ho1 & Ht1 & Ha1).
    assert (abs_acquire a (Some i) {| abs_total := abs_total a; abs_live := {[ i ]} ∪ abs_live a |}) as Habs.
    { constructor; [by rewrite Ht|]. by rewrite Hl. }
    destruct (acquire_crash p p1 p' fl fl1 ml ml1 i type run_case size tr) as [Hlike|Hlike]; try done.
    + apply (wp_resume_like p p' fl ml); try done. intros p2 lg Hinv2 Hc2 Ht2 Hd2.
      eexists (Some i), _. cbn [mem]. split_and!; [exact Habs|done| |].
      * left. exists fl, ml. split_and!; [done|by rewrite Ht2|]. intros j. rewrite Hl. unfold live.
        by rewrite Hc2.
      * intros j Hj. by apply Hd2, Hl.
    + apply (wp_resume_like p1 p' fl1 ml1); try done; [apply Hacq|congruence|congruence|].
      intros p2 lg Hinv2 Hc2 Ht2 Hd2. eexists (Some i), _. cbn [mem]. split_and!; [exact Habs|done| |].
      * right. exists fl1, ml1. split_and!; [done|simpl; congruence|]. intros j. simpl.
        rewrite elem_of_union, elem_of_singleton, Hl, <-Hlive. unfold live. by rewrite Hc2.
      * intros j Hj%Hl. rewrite Hd2 by (apply Hlive; by right). f_equal. unfold desc_of. rewrite Ha1.
        apply Hacq. intros He. apply ext_addr_inj in He as ->. done.
Qed.

(** C17: releasing is failure atomic, in the same sense. *)
Theorem release_crash_atomic p a i s1 p' :
  ext_rel p a → stat_ (pm_head p) = kVolatile → occupied_ (pm_head p) = nullptr →
  i ∈ abs_live a →
  MetaHead_release (ext_addr p i) {| mem := p; log := [] |} = Ok tt s1 →
  crashed p (log s1) p' →
  wp MetaHead_resume (λ _ s2, ∃ a', abs_release a i a' ∧
    (ext_rel (mem s2) a ∧ live_intact p a (mem s2) ∨
     ext_rel (mem s2) a' ∧ live_intact p a' (mem s2))) {| mem := p'; log := [] |}.
Proof.
  intros (fl & ml & Hinv & Ht & Hl) Hst Hocc Hi%Hl Hrun Hcr.
  assert (∃ ml1, released p (mem s1) fl ml ml1 i ∧ release_log p (mem s1) i (log s1))
    as (ml1 & Hrel & Hlog).
  { pose proof (wp_release i fl ml (λ _ s1, ∃ ml1, released p (mem s1) fl ml ml1 i ∧
      release_log p (mem s1) i (log s1)) p [] Hinv Hi) as Hwp.
    unfold wp in Hwp. rewrite Hrun in Hwp. apply Hwp. eauto. }
  destruct s1 as [p1 tr]. cbn [mem log] in *.
  assert (abs_release a i {| abs_total := abs_total a; abs_live := abs_live a ∖ {[ i ]} |}) as Habs.
  { constructor. by rewrite Hl. }
  destruct (release_crash p p1 p' fl ml ml1 i tr) as [Hlike|Hlike]; try done.
  - apply (wp_resume_like p p' fl ml); try done. intros p2 lg Hinv2 Hc2 Ht2 Hd2.
    eexists. cbn [mem]. split; [exact Habs|]. left. split.
    + exists fl, ml. split_and!; [done|by rewrite Ht2|]. intros j. rewrite Hl. unfold live.
      by rewrite Hc2.
    + intros j Hj. by apply Hd2, Hl.
  - destruct (rel_head _ _ _ _ _ _ Hrel) as ((_ & _ & Htot & _) & Hs1 & Ho1).
    assert (∀ j, live p1 (i :: fl) j ↔ live p fl j ∧ j ≠ i) as Hlive.
    { intros j. unfold live. rewrite (rel_used _ _ _ _ _ _ Hrel), not_elem_of_cons. tauto. }
    apply (wp_resume_like p1 p' (i :: fl) ml1); try done; [apply Hrel|congruence|congruence|].
    intros p2 lg Hinv2 Hc2 Ht2 Hd2. eexists. cbn [mem]. split; [exact Habs|]. right. split.
    + exists (i :: fl), ml1. split_and!; [done|simpl; congruence|]. intros j. simpl.
      rewrite elem_of_difference, elem_of_singleton, Hl, <-Hlive. unfold live. by rewrite Hc2.
    + intros j Hj. simpl in Hj. rewrite elem_of_difference, elem_of_singleton, Hl in Hj.
      rewrite Hd2 by (by apply Hlive). f_equal. unfold desc_of.
      destruct (same_head_addr p p1 j 0 (rel_head _ _ _ _ _ _ Hrel)) as [-> _].
      apply Hrel. intros He. apply ext_addr_inj in He as ->. by destruct Hj.
Qed.
End lemmas.

(** ** Witnesses *)

(** The machine may stop before the first event. *)
Lemma crashed_before p tr : crashed p tr p.
Proof. exists O. intros l. by left. Qed.

Lemma acquire_crash_atomic_witness :
  ∃ s1, MetaHead_acquire kMedium 0 131072 {| mem := example_pool; log := [] |} = Ok (8192, 0) s1 ∧
  wp MetaHead_resume (λ _ s2, ∃ o a', abs_acquire example_free o a' ∧
    (ext_rel (mem s2) example_free ∨ ext_rel (mem s2) a')) {| mem := example_pool; log := [] |}.
Proof.
  eexists. split; [vm_compute; reflexivity|].
  eapply wp_mono; [eapply (acquire_crash_atomic example_pool example_free kMedium 0 131072)|].
  - apply example_pool_rel.
  - reflexivity.
  - reflexivity.
  - unfold ok_request. vm_compute. intuition congruence.
  - vm_compute. reflexivity.
  - apply crashed_before.
  - intros _ s2 (o & a' & H1 & _ & H2 & _). exists o, a'. split; [exact H1|exact H2].
Defined.

Lemma release_crash_atomic_witness :
  ∃ s1, MetaHead_release 8192 {| mem := example_pool1; log := [] |} = Ok tt s1 ∧
  wp MetaHead_resume (λ _ s2, ∃ a', abs_release example_one 0 a' ∧
    (ext_rel (mem s2) example_one ∨ ext_rel (mem s2) a')) {| mem := example_pool1; log := [] |}.
Proof.
  eexists. split; [vm_compute; reflexivity|].
  eapply wp_mono; [eapply (release_crash_atomic example_pool1 example_one 0)|].
  - apply example_pool1_rel.
  - vm_compute. reflexivity.
  - vm_compute. reflexivity.
  - vm_compute. reflexivity.
  - vm_compute. reflexivity.
  - apply crashed_before.
  - intros _ s2 (a' & H1 & H2). exists a'. split; [exact H1|].
    destruct H2 as [[H2 _]|[H2 _]]; [left; exact H2|right; exact H2].
Defined.

(** ** A crash while closing

    [record] stores the link of the descriptor and [occupied_] and waits for
    neither; the comment says that the status guarantees atomicity.  But an
    extent taken from the free list keeps its link into that list while it is
    live, so if only the line of [occupied_] reaches persistent memory,
    [resume] walks from the recorded extent into the free list. *)

Definition history : M pst unit :=
  MetaHead_acquire kSmall 0 16384 ;;
  b ← MetaHead_acquire kSmall 0 16384;
  c ← MetaHead_acquire kSmall 0 16384;
  MetaHead_release b.1 ;;
  MetaHead_release c.1 ;;
  MetaHead_acquire kSmall 0 16384 ;;
  mret tt.

(** The memory after [history]: extents 0 and 2 live, extent 1 free. *)
Definition closing_pool : pmem :=
  match history {| mem := example_pool; log := [] |} with Ok _ s => mem s | Err _ => zero_pmem end.
Definition closing_crash : pmem := upd_head (set_occupied (ext_addr closing_pool 2)) closing_pool.

Lemma options_no_fence {L V : Type} `{EqDecision L} (l : L) (v0 : V) (tr : list (pev L V)) :
  Fence ∉ tr → v0 ∈ crash_options l v0 tr.
Proof.
  unfold crash_options, line_run. intros Hf.
  cut (∀ s : line_state V, v0 ∈ opts s → v0 ∈ opts (fold_left (λ s e, line_step l e s) tr s)).
  { intros Hc. apply Hc. by left. }
  induction tr as [|e tr IH]; intros s Hs; simpl; [done|]. apply IH.
  - intros Hx. apply Hf. by right.
  - destruct e as [l' v|l'|]; simpl.
    + case_decide; [simpl; apply elem_of_app; by left|done].
    + by case_decide.
    + exfalso. apply Hf. by left.
Qed.

(** C37: closing is not failure atomic.  On a pool with two live extents and a
    free one, reached by the allocator's own operations, there is a memory that
    a crash during [record] of a live extent may leave on which [resume] fails
    its assert: it reaches a free extent through the stale link of the recorded
    one. *)
Theorem record_crash_stale_link :
  history {| mem := example_pool; log := [] |} =
    Ok tt {| mem := closing_pool; log := log (match history {| mem := example_pool; log := [] |} with
                                             | Ok _ s => s | Err _ => {| mem := zero_pmem; log := [] |} end) |} ∧
  ∃ s1, MetaHead_record (ext_addr closing_pool 2) {| mem := closing_pool; log := [] |} = Ok tt s1 ∧
    crashed closing_pool (log s1) closing_crash ∧
    MetaHead_resume {| mem := closing_crash; log := [] |} = Err EAssert.
Proof.
  split; [vm_compute; reflexivity|].
  eexists. split; [unfold MetaHead_record; vm_compute; reflexivity|]. split; [|vm_compute; reflexivity].
  exists 2%nat. intros l. destruct (decide (l = LHead)) as [->|Hl].
  - vm_compute. right. left.
  - unfold closing_crash. rewrite loc_val_head, decide_False by done.
    apply options_no_fence. simpl. set_unfold. intuition congruence.
Qed.
