(* ===== verification/ExtFile.v ===== *)
(** * The extent file and the extent case (slab/ext-file.h, slab/extent.h)

    [ExtentFile] maps the file of the extents and translates between addresses
    and extent indices; [ExtentCase] puts it together with the meta file.  The
    file-system calls (fs-util.h wraps system calls) are parameters. *)

From S2P Require Export MetaCrash.
Import Pmem.

(** ** Definitions *)

Definition sizeof_PersistRoot : Z := kRootCount * 8.
Definition kRootSegSize : Z := sizeof_PersistRoot.
Definition kMaxAttempts : Z := 2.

(** [ExtentFile], with the fields the operations read. *)
Record ExtentFile := { ef_start : Z; ef_size : Z }.

Definition extents (f : ExtentFile) : Z := ef_start f + kRootSegSize.
Definition file_end (f : ExtentFile) : Z := ef_start f + ef_size f.
Definition pool_size (f : ExtentFile) : Z := u64 (ef_size f - kRootSegSize).

Section mapping.
Context `{Util}.
(** The addresses that the kernel chooses for [mmap] without and with a hint,
    at each attempt. *)
Variable fs_mmap_hint : Z → Z → Z.
Variable fs_file_mmap : Z → Z → Z → Z.

Fixpoint mmap_loop (fuel : nat) (attempt size : Z) : res unit Z :=
  match fuel with
  | O => Err EFuel
  | S fuel =>
      let hint := fs_mmap_hint attempt (size + kExtentSize) in
      let hint := roundup (hint + kRootSegSize) kExtentSize in
      let hint := hint - kRootSegSize in
      let addr := fs_file_mmap attempt size hint in
      if addr =? hint then Ok addr tt
      else if kMaxAttempts <=? attempt + 1 then Err EExit
      else mmap_loop fuel (attempt + 1) size
  end.

(** [ExtentFile::mmap_vspace]: at most [kMaxAttempts] iterations. *)
Definition mmap_vspace (size : Z) : res unit Z := mmap_loop (Z.to_nat kMaxAttempts) 0 size.
End mapping.

(** [PersistRoot] *)
Definition PersistRoot_init : M pst unit :=
  mfor (Z.to_nat kRootCount) 0 (λ i, st_store (LRoot i) (λ p, set_pm_root (<[i := nullptr]> (pm_root p)) p)) ;;
  mfor (Z.to_nat kRootCount) 0 (λ i, persist_write_back (LRoot i)) ;;
  persist_wait_finish.

(** [PersistRoot::operator[]]: the root that may be read or assigned. *)
Definition PersistRoot_get (idx : Z) : M pst Z :=
  massert (idx <? kRootCount) ;; mgets (λ s, root_at (mem s) idx).
Definition PersistRoot_set (idx ptr : Z) : M pst unit :=
  massert (idx <? kRootCount) ;;
  st_store (LRoot idx) (λ p, set_pm_root (<[idx := ptr]> (pm_root p)) p).

(** [locate] of an index, and [locate] of a pointer. *)
Definition locate_index {S} (f : ExtentFile) (index : Z) : M S Z :=
  massert (index <? pool_size f / kExtentSize) ;;
  mret (extents f + index * kExtentSize).
Definition locate_pointer {S} (f : ExtentFile) (ptr : Z) : M S Z :=
  massert (extents f <=? ptr) ;;
  massert (ptr <? file_end f) ;;
  mret ((ptr - extents f) / kExtentSize).

(** The asserts of [physical_space_alloc] and [physical_space_reclaim]; the
    result is the range of the file passed to [fallocate]. *)
Definition physical_range {S} (f : ExtentFile) (ptr len : Z) : M S (Z * Z) :=
  massert ((ptr mod kPageSize =? 0) && (len mod kPageSize =? 0)) ;;
  massert (extents f <=? ptr) ;;
  massert (ptr + len <=? file_end f) ;;
  mret (ptr - ef_start f, len).

(** ** ExtentCase *)

(** The state: persistent memory, the mapping of the extent file, and [recs_]. *)
Record ext_st := {
  es_pst : pst;
  es_file : ExtentFile;
  es_recs : gset Z;
}.
Definition eta_es s := {| es_pst := es_pst s; es_file := es_file s; es_recs := es_recs s |}.
Definition set_es_pst := ltac:(setter eta_es es_pst).
Definition set_es_file := ltac:(setter eta_es es_file).
Definition set_es_recs := ltac:(setter eta_es es_recs).

(** Running an operation on persistent memory. *)
Definition pm {A} (m : M pst A) : M ext_st A := mzoom es_pst set_es_pst m.

(** [extent_t], [srun_t], [mrun_t], [lrun_t]: pairs of a meta and an address. *)
Definition extent_t : Type := Z * Z.

Section extent_case.
Context `{Util}.

(** [create_impl]: the size of a new pool. *)
Definition create_size (device_capacity size : Z) : Z :=
  let kDefaultSize := 2 ^ 64 - 1 in
  let size := if size =? kDefaultSize then device_capacity else size in
  let size := rounddown size kPoolSizeAlign in
  if size <? kPoolSizeAlign then kPoolSizeAlign else size.

(** [open_impl]: the checks on an existing pool. *)
Definition open_checks : M ext_st unit :=
  f ← mgets es_file;
  let size := pool_size f in
  (if negb (size mod kExtentSize =? 0) || negb (size mod kPoolSizeAlign =? 0)
   then merr EExit else mret tt) ;;
  hsize ← pm MetaHead_size;
  if negb (size =? hsize) then merr EExit else mret tt.

(** *** Creating and opening a pool

    What the file system answers: the addresses of [fs_mmap_hint] and
    [fs_file_mmap] for the extent file, those of [fs_file_mmap] for the meta
    file ([None] is [MAP_FAILED]), the capacity of the device. *)
Record FileSystem := {
  fs_hint : Z → Z → Z;
  fs_mmap : Z → Z → Z → Z;
  fs_meta_mmap : Z → Z → option Z;
  fs_device_capacity : Z;
}.

(** [MetaFile::mmap_vspace] *)
Fixpoint meta_mmap_loop (fs : FileSystem) (fuel : nat) (attempt size : Z) : res unit Z :=
  match fuel with
  | O => Err EFuel
  | S fuel =>
      match fs_meta_mmap fs attempt size with
      | Some start => Ok start tt
      | None =>
          if kMaxAttempts <=? attempt + 1 then Err EExit
          else meta_mmap_loop fs fuel (attempt + 1) size
      end
  end.
Definition meta_mmap_vspace (fs : FileSystem) (size : Z) : res unit Z :=
  meta_mmap_loop fs (Z.to_nat kMaxAttempts) 0 size.

Definition lift_res {S A} (r : res unit A) : M S A :=
  match r with Ok a _ => mret a | Err e => merr e end.

(** [ExtentFile::create]; a file that was just created reads as zeros, so
    writing a zero to every page to populate it changes nothing. *)
Definition ExtentFile_create (fs : FileSystem) (size : Z) : M ext_st unit :=
  massert ((0 <? size) && (size mod kExtentSize =? 0)) ;;
  let fsize := size + kRootSegSize in
  start ← lift_res (mmap_vspace (fs_hint fs) (fs_mmap fs) fsize);
  mmodify (set_es_file {| ef_start := start; ef_size := fsize |}) ;;
  pm PersistRoot_init.

Definition ExtentFile_open (fs : FileSystem) (length : Z) : M ext_st unit :=
  start ← lift_res (mmap_vspace (fs_hint fs) (fs_mmap fs) length);
  mmodify (set_es_file {| ef_start := start; ef_size := length |}).

(** [MetaFile::create]: the address of the mapping, then [init]. *)
Definition MetaFile_create_fs (fs : FileSystem) (size : Z) : M ext_st Z :=
  let ext_desc := size / kExtentSize * sizeof_ExtentDesc in
  let med_meta := size / kMediumRunBase * sizeof_MediumMeta in
  start ← lift_res (meta_mmap_vspace fs (kMetaHeadSize + ext_desc + med_meta));
  pm (MetaFile_create start size).

Definition create_impl (fs : FileSystem) (size : Z) : M ext_st Z :=
  let size := create_size (fs_device_capacity fs) size in
  massert (size mod kExtentSize =? 0) ;;
  ExtentFile_create fs size ;;
  MetaFile_create_fs fs size ;;
  mret size.

(** [open_impl] and [open] of [ExtentCase] on a pool whose files have the given
    lengths; [None] when there is no such pool. *)
Definition open_impl (fs : FileSystem) (extent_length meta_length : Z) : M ext_st Z :=
  ExtentFile_open fs extent_length ;;
  lift_res (meta_mmap_vspace fs meta_length) ;;
  open_checks ;;
  mgets (λ s, pool_size (es_file s)).

Definition ExtentCase_open (fs : FileSystem) (existing : option (Z * Z)) (size : Z)
    : M ext_st bool :=
  match existing with
  | Some (el, ml) => open_impl fs el ml ;; mret true
  | None => create_impl fs size ;; mret false
  end.

Definition finish_recover_ext : M ext_st unit := mmodify (set_es_recs ∅).

Definition ExtentCase_reboot (l : list Z) : M ext_st (bool * list Z) := pm (MetaHead_reboot l).

(** [resume]: the container starts at index 0. *)
Definition ExtentCase_resume : M ext_st Z := pm MetaHead_resume ;; mret 0.

Definition physical_space_alloc (ptr len : Z) : M ext_st unit :=
  f ← mgets es_file; physical_range f ptr len ;; mret tt.
Definition physical_space_reclaim (ptr len : Z) : M ext_st unit :=
  f ← mgets es_file; physical_range f ptr len ;; mret tt.

Definition descriptor (ptr : Z) : M ext_st Z :=
  f ← mgets es_file;
  ind ← locate_pointer f ptr;
  pm (MetaHead_descriptor ind).

Definition extent (desc : Z) : M ext_st Z :=
  ind ← pm (MetaHead_index desc);
  f ← mgets es_file;
  locate_index f ind.

Definition recover_extent (desc : Z) : M ext_st bool :=
  mgets (λ s, bool_decide (desc ∈ es_recs s)).

Definition ExtentCase_acquire (type : RegionType) (run_case size : Z) (recover : bool)
    : M ext_st extent_t :=
  '(desc, index) ← pm (MetaHead_acquire type run_case size);
  ext ← (if negb (desc =? nullptr) then f ← mgets es_file; locate_index f index
         else mret nullptr);
  mwhen recover (mmodify (λ s, set_es_recs (({[ desc ]} : gset Z) ∪ es_recs s) s)) ;;
  mret (desc, ext).

Definition ExtentCase_release (desc ext : Z) : M ext_st unit :=
  massert (ext mod kExtentSize =? 0) ;;
  d ← descriptor ext;
  massert (d =? desc) ;;
  mwhen kPhyReclaim (physical_space_reclaim ext kExtentSize) ;;
  pm (MetaHead_release desc).

Definition ExtentCase_record (desc : Z) : M ext_st unit := pm (MetaHead_record desc).
Definition used_size : M ext_st Z := c ← pm MetaHead_count; mret (c * kExtentSize).

(** [RecoverContainer::next]: [index] is the atomic counter, which every call
    advances. *)
Fixpoint recover_loop (fuel : nat) (count index : Z) : M ext_st (Z * Z) :=
  match fuel with
  | O => merr EFuel
  | S fuel =>
      if count <=? index then mret (nullptr, index + 1)
      else
        desc ← pm (MetaHead_descriptor index);
        d ← pm (ld_desc desc);
        massert (negb (bool_decide (ed_type d = kTypeCount))) ;;
        if bool_decide (ed_type d = kInvalid) then recover_loop fuel count (index + 1)
        else
          r ← recover_extent desc;
          if (r : bool) then recover_loop fuel count (index + 1) else mret (desc, index + 1)
  end.

Definition RecoverContainer_next (index : Z) : M ext_st (Z * Z) :=
  count ← pm MetaHead_count;
  recover_loop (Datatypes.S (Z.to_nat (count - index))) count index.
End extent_case.

(** ** Lemmas *)

(** The file is mapped with the extents aligned and its size matches the
    number of extents of the meta file. *)
Definition wf_file (f : ExtentFile) (total : Z) : Prop :=
  0 < ef_start f ∧ extents f mod kExtentSize = 0 ∧ 0 ≤ total ∧
  ef_size f = total * kExtentSize + kRootSegSize ∧ file_end f < 2 ^ 63.

Definition ext_base (f : ExtentFile) (i : Z) : Z := extents f + i * kExtentSize.

Section lemmas.
Context `{UtilSpec}.

Lemma pool_size_ok f total : wf_file f total → pool_size f = total * kExtentSize.
Proof.
  intros (Hs & Ha & Ht & Hsz & He). unfold pool_size. rewrite Hsz.
  unfold file_end in He. unfold u64, wrap. change kRootSegSize with 8192 in *.
  change kExtentSize with 4194304 in *. rewrite Z.mod_small by lia. lia.
Qed.

Lemma locate_index_ok {S} f total i (s : S) :
  wf_file f total → 0 ≤ i < total → locate_index f i s = Ok (ext_base f i) s.
Proof.
  intros Hf Hi. unfold locate_index, massert, mbind, M_bind.
  rewrite (pool_size_ok f total) by done. rewrite Z.div_mul by done.
  by rewrite (proj2 (Z.ltb_lt _ _)) by lia.
Qed.

(** Every address inside the extent [i] is translated to [i]. *)
Lemma locate_pointer_ok {S} f total i off (s : S) :
  wf_file f total → 0 ≤ i < total → 0 ≤ off < kExtentSize →
  locate_pointer f (ext_base f i + off) s = Ok i s.
Proof.
  intros (Hs & Ha & Ht & Hsz & He) Hi Ho. unfold locate_pointer, massert, mbind, M_bind.
  unfold ext_base, file_end in *. rewrite Hsz. change kExtentSize with 4194304 in *.
  rewrite (proj2 (Z.leb_le _ _)) by lia.
  rewrite (proj2 (Z.ltb_lt _ _)) by (unfold extents; lia).
  unfold mret, M_ret. f_equal. Z.div_mod_to_equations. lia.
Qed.

Lemma ext_base_aligned f total i : wf_file f total → ext_base f i mod kExtentSize = 0.
Proof.
  intros (_ & Ha & _). unfold ext_base. change kExtentSize with 4194304 in *.
  Z.div_mod_to_equations. lia.
Qed.

(** [rounddown(ptr, kExtentSize)] finds the extent of an address. *)
Lemma rounddown_ext f total i off :
  wf_file f total → 0 ≤ i → 0 ≤ off < kExtentSize →
  rounddown (ext_base f i + off) kExtentSize = ext_base f i.
Proof.
  intros Hf Hi Ho. pose proof (ext_base_aligned f total i Hf). destruct Hf as (Hs & _).
  assert (0 ≤ ext_base f i) by (unfold ext_base, extents; change kRootSegSize with 8192;
    change kExtentSize with 4194304; lia).
  rewrite rounddown_spec by (change kExtentSize with 4194304 in *; lia).
  change kExtentSize with 4194304 in *. Z.div_mod_to_equations. lia.
Qed.

Lemma ext_base_inj f i j : ext_base f i = ext_base f j → i = j.
Proof. unfold ext_base. change kExtentSize with 4194304. lia. Qed.

Lemma physical_range_ok {S} f total i off len (s : S) :
  wf_file f total → 0 ≤ i < total → 0 ≤ off → 0 ≤ len → off + len ≤ kExtentSize →
  off mod kPageSize = 0 → len mod kPageSize = 0 →
  physical_range f (ext_base f i + off) len s =
    Ok (kRootSegSize + i * kExtentSize + off, len) s.
Proof.
  intros (Hs & Ha & Ht & Hsz & He) Hi Ho Hl Hol Hom Hlm.
  unfold physical_range, massert, mbind, M_bind, ext_base, file_end in *. rewrite Hsz.
  unfold extents in *. change kRootSegSize with 8192 in *.
  change kExtentSize with 4194304 in *. change kPageSize with 4096 in *.
  rewrite (proj2 (Z.eqb_eq (_ mod 4096) 0)) by (Z.div_mod_to_equations; lia).
  rewrite Hlm, (proj2 (Z.leb_le _ _)) by lia. rewrite (proj2 (Z.leb_le _ _)) by lia.
  simpl. unfold mret, M_ret. f_equal. f_equal. lia.
Qed.

(** [mmap_vspace] either gives up or maps the extents aligned. *)
Lemma mmap_loop_ok hint_fn mmap_fn fuel attempt size :
  (0 < fuel)%nat → 0 ≤ attempt → attempt + Z.of_nat fuel = kMaxAttempts →
  (∀ a, 0 ≤ hint_fn a (size + kExtentSize) < 2 ^ 47) →
  (∃ addr, mmap_loop hint_fn mmap_fn fuel attempt size = Ok addr tt ∧
           (addr + kRootSegSize) mod kExtentSize = 0 ∧ 0 < addr < 2 ^ 48) ∨
  mmap_loop hint_fn mmap_fn fuel attempt size = Err EExit.
Proof.
  revert attempt. induction fuel as [|fuel IH]; intros attempt Hf Ha Hfu Hh; [lia|]. simpl.
  pose proof (Hh attempt) as Hha. set (h := hint_fn attempt (size + kExtentSize)) in *.
  destruct (roundup_spec (h + kRootSegSize) 22) as [Hm Hr];
    [change kRootSegSize with 8192; lia|done
    |change kRootSegSize with 8192; change (2 ^ 22) with 4194304; change kExtentSize with 4194304 in *; lia|].
  change (2 ^ 22) with kExtentSize in Hm, Hr.
  case_match eqn:E.
  - left. apply Z.eqb_eq in E. eexists. split; [done|]. rewrite E. split; [by rewrite Z.sub_add|].
    change kRootSegSize with 8192 in *. change kExtentSize with 4194304 in *. Z.div_mod_to_equations. lia.
  - destruct (Z.leb_spec kMaxAttempts (attempt + 1)); [by right|]. apply IH; [lia|lia|lia|done].
Qed.

(** ** Properties *)

(** [locate] of an index and [locate] of a pointer are inverse: the extent
    [i] starts at an address aligned to the size of an extent, every address
    inside the extent is translated back to [i], and [rounddown], which the other
    components use, finds the same start. *)
Lemma locate_roundtrip f total i {S} (s : S) :
  wf_file f total → 0 ≤ i < total →
  ∃ a, locate_index f i s = Ok a s ∧ a mod kExtentSize = 0 ∧
    ∀ off, 0 ≤ off < kExtentSize →
      locate_pointer f (a + off) s = Ok i s ∧ rounddown (a + off) kExtentSize = a.
Proof.
  intros Hf Hi. exists (ext_base f i). split; [by eapply locate_index_ok|].
  split; [by eapply ext_base_aligned|]. intros off Ho.
  split; [by eapply locate_pointer_ok|by eapply rounddown_ext; [|lia|]].
Qed.

(** [mmap_vspace] terminates after at most two attempts: it gives up with
    [exit], or the segment of the extents is aligned to the size of an extent. *)
Lemma mmap_vspace_aligned hint_fn mmap_fn size :
  (∀ a, 0 ≤ hint_fn a (size + kExtentSize) < 2 ^ 47) →
  mmap_vspace hint_fn mmap_fn size = Err EExit ∨
  ∃ addr, mmap_vspace hint_fn mmap_fn size = Ok addr tt ∧
          (addr + kRootSegSize) mod kExtentSize = 0.
Proof.
  intros Hh. destruct (mmap_loop_ok hint_fn mmap_fn (Z.to_nat kMaxAttempts) 0 size) as [(a & Ha & Hm & _)|He];
    [vm_compute; lia|done|done|done| |by left].
  right. by exists a.
Qed.
End lemmas.

(** ** Witnesses *)

Definition example_file : ExtentFile := {| ef_start := 2 ^ 40 - 8192; ef_size := 2 ^ 30 + 8192 |}.

Lemma locate_roundtrip_witness :
  ∃ a, locate_index example_file 3 tt = Ok a tt ∧ locate_pointer example_file (a + 100) tt = Ok 3 tt.
Proof.
  destruct (locate_roundtrip example_file 256 3 tt) as (a & Ha & _ & Hp).
  - vm_compute. intuition congruence.
  - lia.
  - exists a. split; [exact Ha|]. apply Hp. vm_compute. intuition congruence.
Defined.

Lemma mmap_vspace_aligned_witness :
  ∃ addr, mmap_vspace (λ _ _, 2 ^ 40) (λ _ _ hint, hint) (2 ^ 30) = Ok addr tt ∧
          (addr + kRootSegSize) mod kExtentSize = 0.
Proof.
  destruct (mmap_vspace_aligned (λ _ _, 2 ^ 40) (λ _ _ hint, hint) (2 ^ 30)) as [He|Ha].
  - intros a. vm_compute. intuition congruence.
  - vm_compute in He. discriminate.
  - exact Ha.
Defined.
