(* ===== verification/Run.v ===== *)
(** * Runs and large regions (slab/run.h)

    [RunBin] cuts the extents of one run size into runs, [LargeBin] the extents
    of one region size into large regions, [RunCase] has a bin for every size.
    A bin has two maps, one for normal operation and one for allocation during
    recovery, from the address of an extent that has a free run to its
    descriptor (or its bitmap).  The maps are unordered: which extent comes
    first is a parameter. *)

From S2P Require Export ExtFile Size.
Import Pmem.

(** ** Definitions *)

(** The iteration order of [std::unordered_map]: any order of the keys. *)
Class UnorderedMap := um_order : gset Z → list Z.
Class UnorderedMapSpec `{UnorderedMap} : Prop :=
  um_order_spec X : um_order X ≡ₚ elements X.
#[export] Instance RefUnorderedMap : UnorderedMap := λ X, elements X.
#[export] Instance RefUnorderedMapSpec : UnorderedMapSpec.
Proof. intros X. done. Qed.

(** [begin()]: [None] is [end()]. *)
Definition um_begin `{UnorderedMap} {A} (m : gmap Z A) : option Z := head (um_order (dom m)).

Definition mapsize {A} (m : gmap Z A) : Z := Z.of_nat (size m).

Record RunBin := {
  rbin_rcase : Z;
  rbin_type : RegionType;
  rbin_rsize : Z;
  rbin_0 : gmap Z Z;
  rbin_1 : gmap Z Z;
}.
Definition eta_rbin b := {|
  rbin_rcase := rbin_rcase b; rbin_type := rbin_type b; rbin_rsize := rbin_rsize b;
  rbin_0 := rbin_0 b; rbin_1 := rbin_1 b |}.
Definition set_rbin_0 := ltac:(setter eta_rbin rbin_0).
Definition set_rbin_1 := ltac:(setter eta_rbin rbin_1).

(** [bins_[recover ? 1 : 0]] *)
Definition rbin (b : RunBin) (recover : bool) : gmap Z Z :=
  if recover then rbin_1 b else rbin_0 b.
Definition set_rbin (recover : bool) (m : gmap Z Z) (b : RunBin) : RunBin :=
  if recover then set_rbin_1 m b else set_rbin_0 m b.

Record LargeBin := {
  lbin_rcase : Z;
  lbin_size : Z;
  lbin_0 : gmap Z RunBits;
  lbin_1 : gmap Z RunBits;
}.
Definition eta_lbin b := {|
  lbin_rcase := lbin_rcase b; lbin_size := lbin_size b; lbin_0 := lbin_0 b; lbin_1 := lbin_1 b |}.
Definition set_lbin_0 := ltac:(setter eta_lbin lbin_0).
Definition set_lbin_1 := ltac:(setter eta_lbin lbin_1).
Definition lbin (b : LargeBin) (recover : bool) : gmap Z RunBits :=
  if recover then lbin_1 b else lbin_0 b.
Definition set_lbin (recover : bool) (m : gmap Z RunBits) (b : LargeBin) : LargeBin :=
  if recover then set_lbin_1 m b else set_lbin_0 m b.

Record RunCase := {
  rc_index : Z;
  rc_desc2rbid : list ((RegionType * Z) * Z);
  rc_rbins : list RunBin;
  rc_lbins : list LargeBin;
}.
Definition eta_rc c := {|
  rc_index := rc_index c; rc_desc2rbid := rc_desc2rbid c; rc_rbins := rc_rbins c;
  rc_lbins := rc_lbins c |}.
Definition set_rc_rbins := ltac:(setter eta_rc rc_rbins).
Definition set_rc_lbins := ltac:(setter eta_rc rc_lbins).

Section run_bin.
Context `{Util} `{UnorderedMap}.

(** The result: the iterator (the key, [None] for [end()]) and [alloc]. *)
Definition select_ext (b : RunBin) (recover : bool) : M ext_st (RunBin * (option Z * bool)) :=
  if bool_decide (rbin b recover = ∅) then
    '(desc, ext) ← ExtentCase_acquire (rbin_type b) (rbin_rcase b) (rbin_rsize b) recover;
    let b' := if negb (ext =? nullptr) then set_rbin recover (<[ext := desc]> (rbin b recover)) b
              else b in
    mret (b', (um_begin (rbin b' recover), negb (ext =? nullptr)))
  else mret (b, (um_begin (rbin b recover), false)).

Definition meta_size (count : Z) : Z := sizeof_SmallMeta + count * sizeof_token.

(** The loop of [small_region_count]. *)
Fixpoint small_count_loop (fuel : nat) (rsize size count : Z) : option Z :=
  match fuel with
  | O => None
  | S fuel =>
      let total := count * size + meta_size count in
      if (total <=? rsize) && (u64 (rsize - total) <=? size) then Some count
      else small_count_loop fuel rsize size (u64 (rsize - meta_size count) / size)
  end.
(** Fuel: [small_region_counts] shows that 8 iterations suffice for every size. *)
Definition small_region_count {S} (b : RunBin) (size : Z) : M S Z :=
  massert (bool_decide (rbin_type b = kSmall)) ;;
  match small_count_loop 8 (rbin_rsize b) size (rbin_rsize b / size) with
  | Some c => mret c
  | None => merr EFuel
  end.

(** The loop of [medium_region_count]: it stops at 0 at the latest. *)
Fixpoint medium_count_loop (fuel : nat) (size count : Z) : option Z :=
  match fuel with
  | O => None
  | S fuel =>
      if negb (count * size mod kPageSize =? 0) then medium_count_loop fuel size (count - 1)
      else Some count
  end.
Definition medium_region_count {S} (b : RunBin) (size : Z) : M S Z :=
  massert (bool_decide (rbin_type b = kMedium)) ;;
  match medium_count_loop (Datatypes.S (Z.to_nat (rbin_rsize b / size))) size (rbin_rsize b / size) with
  | Some c => mret c
  | None => merr EFuel
  end.

Definition RunBin_init (rcase : Z) (type : RegionType) (size : Z) : RunBin := {|
  rbin_rcase := u32 rcase; rbin_type := type; rbin_rsize := u32 size; rbin_0 := ∅; rbin_1 := ∅ |}.

(** [merge] moves the entries whose key is new. *)
Definition RunBin_finish_recover {S} (b : RunBin) : M S RunBin :=
  let b' := set_rbin_1 (filter (λ kv, kv.1 ∈ dom (rbin_0 b)) (rbin_1 b))
              (set_rbin_0 (rbin_0 b ∪ rbin_1 b) b) in
  massert (bool_decide (rbin_1 b' = ∅)) ;; mret b'.

(** The destructor: [record] or [release] every extent of the normal map. *)
Definition RunBin_close (b : RunBin) : M ext_st unit :=
  massert (bool_decide (rbin_type b = kSmall) || bool_decide (rbin_type b = kMedium)) ;;
  massert (bool_decide (rbin_1 b = ∅)) ;;
  mforeach (um_order (dom (rbin_0 b))) (λ ext,
    desc ← mderef (rbin_0 b !! ext);
    d ← pm (ld_desc desc);
    massert (bool_decide (rbin_type b = ed_type d)) ;;
    record ← (if bool_decide (rbin_type b = kSmall) then srun_busy d else mrun_busy d);
    if (record : bool) then ExtentCase_record desc else ExtentCase_release desc ext).

Definition small_reload (b : RunBin) (desc : Z) : M ext_st RunBin :=
  d ← pm (ld_desc desc);
  massert (bool_decide (rbin_type b = kSmall) && (ed_size d =? rbin_rsize b)) ;;
  r ← locate_fsrun d 0;
  if negb (r =? ed_count d) then
    ext ← extent desc;
    mret (if decide (ext ∈ dom (rbin_0 b)) then b else set_rbin_0 (<[ext := desc]> (rbin_0 b)) b)
  else mret b.

Definition medium_reload (b : RunBin) (desc : Z) : M ext_st RunBin :=
  d ← pm (ld_desc desc);
  massert (bool_decide (rbin_type b = kMedium) && (ed_size d =? rbin_rsize b)) ;;
  r ← locate_fmrun d 0;
  if negb (r =? ed_count d) then
    ext ← extent desc;
    mret (if decide (ext ∈ dom (rbin_0 b)) then b else set_rbin_0 (<[ext := desc]> (rbin_0 b)) b)
  else mret b.

(** The results are pairs (meta of the run, start address of the run). *)
Definition srun_acquire (b : RunBin) (arena size : Z) (recover : bool)
    : M ext_st (RunBin * (Z * Z)) :=
  massert (bool_decide (rbin_type b = kSmall) && (size <=? kMaxSmallSize)) ;;
  '(b, (it, alloc)) ← select_ext b recover;
  match it with
  | None => mret (b, (nullptr, nullptr))
  | Some ext =>
      desc ← mderef (rbin b recover !! ext);
      d ← pm (ld_desc desc);
      massert (bool_decide (ed_type d = kSmall)) ;;
      rid ← locate_fsrun d 0;
      massert (rid <? ed_count d) ;;
      let run := ext + rid * rbin_rsize b in
      count ← small_region_count b size;
      pm (SmallMeta_construct run arena size count) ;;
      pm (palloc_srun desc rid) ;;
      d ← pm (ld_desc desc);
      rid' ← locate_fsrun d rid;
      let b := if rid' =? ed_count d then set_rbin recover (delete ext (rbin b recover)) b else b in
      mwhen alloc (physical_space_alloc ext kExtentSize) ;;
      mret (b, (run, run))
  end.

Definition mrun_acquire (b : RunBin) (arena size : Z) (recover : bool)
    : M ext_st (RunBin * (Z * Z)) :=
  massert (bool_decide (rbin_type b = kMedium)) ;;
  massert ((kMaxSmallSize <? size) && (size <=? kMaxMediumSize)) ;;
  '(b, (it, alloc)) ← select_ext b recover;
  match it with
  | None => mret (b, (nullptr, nullptr))
  | Some ext =>
      desc ← mderef (rbin b recover !! ext);
      d ← pm (ld_desc desc);
      massert (bool_decide (ed_type d = kMedium)) ;;
      rid ← locate_fmrun d 0;
      massert (rid <? ed_count d) ;;
      let meta := ed_runs d + rid * sizeof_MediumMeta in
      let run := ext + rid * rbin_rsize b in
      count ← medium_region_count b size;
      pm (MediumMeta_construct meta arena size count) ;;
      pm (palloc_mrun desc rid) ;;
      d ← pm (ld_desc desc);
      rid' ← locate_fmrun d rid;
      let b := if rid' =? ed_count d then set_rbin recover (delete ext (rbin b recover)) b else b in
      physical_space_alloc run (rbin_rsize b) ;;
      mret (b, (meta, run))
  end.

(** The common part of [srun_release] and [mrun_release], which differ in the
    two operations on the descriptor. *)
Definition run_release (busy : ExtentDesc → M ext_st bool) (pdealloc : Z → Z → M pst unit)
    (b : RunBin) (run : Z) (release recover : bool) : M ext_st RunBin :=
  massert (negb (negb release && recover)) ;;
  desc ← descriptor run;
  d ← pm (ld_desc desc);
  (if rbin_rsize b =? 0 then merr EUB
   else massert ((ed_size d =? rbin_rsize b) && (run mod rbin_rsize b =? 0))) ;;
  massert (bool_decide (ed_type d = rbin_type b) && (ed_rcase d =? rbin_rcase b)) ;;
  let ext := rounddown run kExtentSize in
  let it := if decide (ext ∈ dom (rbin b recover)) then Some ext else None in
  let b := match it with None => set_rbin recover (<[ext := desc]> (rbin b recover)) b
                       | Some _ => b end in
  let rid := (run - ext) / rbin_rsize b in
  mwhen release (pm (pdealloc desc rid)) ;;
  d ← pm (ld_desc desc);
  bs ← busy d;
  if negb bs && (kExtentHoldCount <? mapsize (rbin b recover)) then
    key ← mderef it;
    massert ((key =? ext) && release) ;;
    let b := set_rbin recover (delete key (rbin b recover)) b in
    ExtentCase_release desc ext ;;
    mret b
  else mret b.

Definition srun_release (b : RunBin) (run : Z) (release recover : bool) : M ext_st RunBin :=
  massert (bool_decide (rbin_type b = kSmall)) ;;
  run_release srun_busy pdealloc_srun b run release recover.
Definition mrun_release (b : RunBin) (run : Z) (release recover : bool) : M ext_st RunBin :=
  massert (bool_decide (rbin_type b = kMedium)) ;;
  run_release mrun_busy pdealloc_mrun b run release recover.

(** ** LargeBin *)

Definition LargeBin_init {S} (rcase size : Z) : M S LargeBin :=
  massert ((popcount size =? 1) && (kMaxMediumSize <? size)) ;;
  massert (size <=? kMaxLargeSize) ;;
  mret {| lbin_rcase := u32 rcase; lbin_size := u32 size; lbin_0 := ∅; lbin_1 := ∅ |}.

Definition LargeBin_finish_recover {S} (b : LargeBin) : M S LargeBin :=
  let b' := set_lbin_1 (filter (λ kv, kv.1 ∈ dom (lbin_0 b)) (lbin_1 b))
              (set_lbin_0 (lbin_0 b ∪ lbin_1 b) b) in
  massert (bool_decide (dom (lbin_1 b') = ∅)) ;; mret b'.

Definition LargeBin_close (b : LargeBin) : M ext_st unit :=
  massert (bool_decide (dom (lbin_1 b) = ∅)) ;;
  mforeach (um_order (dom (lbin_0 b))) (λ ext,
    bits ← mderef (lbin_0 b !! ext);
    massert (ext mod kExtentSize =? 0) ;;
    desc ← descriptor ext;
    d ← pm (ld_desc desc);
    massert ((ed_size d =? lbin_size b) && bool_decide (ed_type d = kLarge)) ;;
    if negb (RunBits_full bits) then ExtentCase_record desc else ExtentCase_release desc ext).

Definition LargeBin_reload (b : LargeBin) (desc : Z) : M ext_st LargeBin :=
  d ← pm (ld_desc desc);
  massert ((ed_size d =? lbin_size b) && bool_decide (ed_type d = kLarge)) ;;
  ext ← extent desc;
  massert (negb (bool_decide (ext ∈ dom (lbin_0 b)))) ;;
  bits ← pm (RunBits_reload_large (RunBits_new (ed_size d) (ed_count d) desc ext false) desc);
  mret (set_lbin_0 (<[ext := bits]> (lbin_0 b)) b).

Definition LargeBin_acquire (b : LargeBin) (recover : bool) : M ext_st (LargeBin * region_t) :=
  '(b, ok) ← (if bool_decide (dom (lbin b recover) = ∅) then
    '(desc, ext) ← ExtentCase_acquire kLarge (lbin_rcase b) (lbin_size b) recover;
    if ext =? nullptr then mret (b, false)
    else
      d ← pm (ld_desc desc);
      massert ((lbin_size b =? ed_size d) && (ed_rcase d =? lbin_rcase b)) ;;
      mret (set_lbin recover (<[ext := RunBits_new (ed_size d) (ed_count d) desc ext false]>
                                (lbin b recover)) b, true)
  else mret (b, true));
  if (ok : bool) then
    massert (negb (bool_decide (dom (lbin b recover) = ∅))) ;;
    ext ← mderef (um_begin (lbin b recover));
    rbits ← mderef (lbin b recover !! ext);
    '(rbits, reg) ← pm (RunBits_alloc_large rbits);
    let m := <[ext := rbits]> (lbin b recover) in
    let m := if RunBits_empty rbits then delete ext m else m in
    mret (set_lbin recover m b, reg)
  else mret (b, null_region).

Definition LargeBin_release (b : LargeBin) (desc ptr : Z) (recover : bool) : M ext_st LargeBin :=
  d ← pm (ld_desc desc);
  massert ((ed_size d =? lbin_size b) && (ed_rcase d =? lbin_rcase b)) ;;
  let ext := rounddown ptr kExtentSize in
  let ind := (ptr - ext) / ed_size d in
  massert (ind <? ed_count d) ;;
  token ← pm (ExtentDesc_token desc d ind);
  pm (token_fire token true) ;;
  let m := if decide (ext ∈ dom (lbin b recover)) then lbin b recover
           else <[ext := RunBits_new (ed_size d) (ed_count d) desc ext true]> (lbin b recover) in
  rbits ← mderef (m !! ext);
  rbits ← RunBits_dealloc_large rbits ind;
  let m := <[ext := rbits]> m in
  let free_ext := RunBits_full rbits && (kExtentHoldCount <? mapsize m) in
  let m := if free_ext then delete ext m else m in
  mwhen free_ext (ExtentCase_release desc ext) ;;
  mret (set_lbin recover m b).

(** ** RunCase *)

Definition kMaxSmallIndex : Z := size2index_compute kMaxSmallSize.
Definition cbin2rbin (index : Z) : option Z := nthZ kCBin2RBin (index / kNSlabsPerGrp).
Definition kLargeTypeCount : Z := popcount (kMaxLargeSize - kMaxMediumSize).

Definition RunCase_new {S} (index : Z) : M S RunCase :=
  bound ← mderef (cbin2rbin kMaxSmallIndex);
  let types := (λ rbid, (if bound <? rbid then kMedium else kSmall,
                         default 0 (nthZ kRunSizeTab rbid))) <$> seqZ 0 kRunTypeCount in
  lbins ← mfold (Z.to_nat kLargeTypeCount) 0 (λ lbin l,
    b ← LargeBin_init index (Z.shiftl kMaxMediumSize (lbin + 1)); mret (l ++ [b])) [];
  mret {| rc_index := u32 index;
          rc_desc2rbid := zip types (seqZ 0 kRunTypeCount);
          rc_rbins := (λ ts, RunBin_init index ts.1 ts.2) <$> types;
          rc_lbins := lbins |}.

(** [desc2rbid_[{type, size}]]: a key that is not there is mapped to 0. *)
Definition find_rbid (c : RunCase) (type : RegionType) (size : Z) : Z :=
  match list_find (λ e : (RegionType * Z) * Z, e.1 = (type, size)) (rc_desc2rbid c) with
  | Some (_, e) => e.2
  | None => 0
  end.

(** Running an operation of one bin. *)
Definition with_rbin {A} (c : RunCase) (i : Z) (f : RunBin → M ext_st (RunBin * A))
    : M ext_st (RunCase * A) :=
  b ← mderef (nthZ (rc_rbins c) i);
  '(b, a) ← f b;
  mret (set_rc_rbins (updZ (rc_rbins c) i b) c, a).
Definition with_lbin {A} (c : RunCase) (i : Z) (f : LargeBin → M ext_st (LargeBin * A))
    : M ext_st (RunCase * A) :=
  b ← mderef (nthZ (rc_lbins c) i);
  '(b, a) ← f b;
  mret (set_rc_lbins (updZ (rc_lbins c) i b) c, a).
Definition no_result {A S} (m : M S A) : M S (A * unit) := a ← m; mret (a, tt).

Definition RunCase_small_reload (c : RunCase) (desc : Z) : M ext_st RunCase :=
  d ← pm (ld_desc desc);
  massert ((ed_rcase d =? rc_index c) && bool_decide (ed_type d = kSmall)) ;;
  '(c, _) ← with_rbin c (find_rbid c (ed_type d) (ed_size d)) (λ b, no_result (small_reload b desc));
  mret c.

Definition RunCase_medium_reload (c : RunCase) (desc : Z) : M ext_st RunCase :=
  d ← pm (ld_desc desc);
  massert ((ed_rcase d =? rc_index c) && bool_decide (ed_type d = kMedium)) ;;
  '(c, _) ← with_rbin c (find_rbid c (ed_type d) (ed_size d)) (λ b, no_result (medium_reload b desc));
  mret c.

(** The bin of a large size. *)
Definition large_bid (size : Z) : Z := index_most1 (u64 (size - 1) / kMaxMediumSize).

Definition RunCase_large_reload (c : RunCase) (desc : Z) : M ext_st RunCase :=
  d ← pm (ld_desc desc);
  massert (bool_decide (ed_type d = kLarge) && (ed_rcase d =? rc_index c)) ;;
  let bid := large_bid (ed_size d) in
  massert (bid <? kLargeTypeCount) ;;
  '(c, _) ← with_lbin c bid (λ b, no_result (LargeBin_reload b desc));
  mret c.

Definition RunCase_srun_acquire (c : RunCase) (sc : SizeClass) (arena index : Z) (recover : bool)
    : M ext_st (RunCase * (Z * Z)) :=
  massert (index <=? kMaxSmallIndex) ;;
  rbid ← mderef (cbin2rbin index);
  size ← index2size sc index;
  massert ((rbid <? kRunTypeCount) && (size <=? kMaxSmallSize)) ;;
  with_rbin c rbid (λ b, srun_acquire b arena size recover).

(** [ext_case_->descriptor(run)->rcase() == index_] *)
Definition assert_rcase (c : RunCase) (run : Z) : M ext_st unit :=
  desc ← descriptor run;
  d ← pm (ld_desc desc);
  massert (ed_rcase d =? rc_index c).

Definition RunCase_srun_release (c : RunCase) (run index : Z) (release recover : bool)
    : M ext_st RunCase :=
  massert (index <=? kMaxSmallIndex) ;;
  assert_rcase c run ;;
  rbid ← mderef (cbin2rbin index);
  massert (rbid <? kRunTypeCount) ;;
  '(c, _) ← with_rbin c rbid (λ b, no_result (srun_release b run release recover));
  mret c.

Definition RunCase_mrun_acquire (c : RunCase) (sc : SizeClass) (arena index : Z) (recover : bool)
    : M ext_st (RunCase * (Z * Z)) :=
  massert ((kMaxSmallIndex <? index) && (index <? kNSlabsCached)) ;;
  rbid ← mderef (cbin2rbin index);
  massert (rbid <? kRunTypeCount) ;;
  size ← index2size sc index;
  massert ((kMaxSmallSize <? size) && (size <=? kMaxMediumSize)) ;;
  with_rbin c rbid (λ b, mrun_acquire b arena size recover).

Definition RunCase_mrun_release (c : RunCase) (run index : Z) (release recover : bool)
    : M ext_st RunCase :=
  massert ((kMaxSmallIndex <? index) && (index <? kNSlabsCached)) ;;
  assert_rcase c run ;;
  rbid ← mderef (cbin2rbin index);
  massert (rbid <? kRunTypeCount) ;;
  '(c, _) ← with_rbin c rbid (λ b, no_result (mrun_release b run release recover));
  mret c.

Definition large_acquire (c : RunCase) (size : Z) (recover : bool) : M ext_st (RunCase * region_t) :=
  massert ((kMaxMediumSize <? size) && (size <=? kMaxLargeSize)) ;;
  let bid := large_bid size in
  massert (bid <? kLargeTypeCount) ;;
  '(c, res) ← with_lbin c bid (λ b, LargeBin_acquire b recover);
  let physical_size := roundup kPageSize size in
  physical_space_alloc (reg_pointer res) physical_size ;;
  mret (c, res).

Definition large_release (c : RunCase) (desc ptr : Z) (recover : bool) : M ext_st RunCase :=
  d ← pm (ld_desc desc);
  massert (bool_decide (ed_type d = kLarge) && (ed_rcase d =? rc_index c)) ;;
  massert ((kMaxMediumSize <? ed_size d) && (ed_size d <=? kMaxLargeSize)) ;;
  let bid := large_bid (ed_size d) in
  massert (bid <? kLargeTypeCount) ;;
  '(c, _) ← with_lbin c bid (λ b, no_result (LargeBin_release b desc ptr recover));
  mret c.

Definition RunCase_finish_recover {S} (c : RunCase) : M S RunCase :=
  rs ← mfold (length (rc_rbins c)) 0 (λ i l,
    b ← mderef (nthZ (rc_rbins c) i); b ← RunBin_finish_recover b; mret (l ++ [b])) [];
  ls ← mfold (length (rc_lbins c)) 0 (λ i l,
    b ← mderef (nthZ (rc_lbins c) i); b ← LargeBin_finish_recover b; mret (l ++ [b])) [];
  mret (set_rc_rbins rs (set_rc_lbins ls c)).

(** The destructor: members are destroyed in reverse order of declaration. *)
Definition RunCase_close (c : RunCase) : M ext_st unit :=
  mforeach (reverse (rc_lbins c)) LargeBin_close ;;
  mforeach (reverse (rc_rbins c)) RunBin_close.
End run_bin.
