(* ===== verification/ExtSpec.v ===== *)
(** * The extent case on a well-formed pool

    The invariant [pool_inv] of a pool in use: the meta file satisfies
    [ext_inv], the extent file is mapped, and the MediumMeta have their 51
    tokens.  Rules for the operations of [ExtentCase] that the run bins call,
    and the properties of the mapping of the extent file. *)

From S2P Require Export MetaSpec ExtFile.
Import Pmem.

(** ** Definitions *)

Definition pm_of (s : ext_st) : pmem := mem (es_pst s).

Record pool_inv (s : ext_st) (fl ml : list Z) : Prop := {
  pi_ext : ext_inv (pm_of s) fl ml;
  pi_file : wf_file (es_file s) (ext_total_ (pm_head (pm_of s)));
  pi_tokens : ∀ a, lenZ (mm_tokens (med_at (pm_of s) a)) = 51;
}.

(** The address of the extent [i]. *)
Definition ext_at (s : ext_st) (i : Z) : Z := ext_base (es_file s) i.

(** Two states of the same pool: same file, same place of the segments. *)
Definition same_pool (s s' : ext_st) : Prop :=
  es_file s' = es_file s ∧ same_layout (pm_head (pm_of s)) (pm_head (pm_of s')).

(** What [ExtentCase::acquire] does when it hands out the extent [i]. *)
Record ext_acquired (s s' : ext_st) (fl fl' ml ml' : list Z) (i : Z)
    (type : RegionType) (run_case size : Z) (recover : bool) : Prop := {
  ea_pool : pool_inv s' fl' ml';
  ea_same : same_pool s s';
  ea_live : ∀ j, live (pm_of s') fl' j ↔ j = i ∨ live (pm_of s) fl j;
  ea_fresh : ¬ live (pm_of s) fl i;
  ea_desc : ∃ next runs, desc_of (pm_of s') i = new_desc type run_case size next runs ∧
    (type = kMedium → ∃ j, 0 ≤ j < ext_total_ (pm_head (pm_of s)) ∧ runs = slot_addr (pm_of s) j);
  ea_frame : ∀ a, a ≠ ext_addr (pm_of s) i → desc_at (pm_of s') a = desc_at (pm_of s) a;
  ea_med : pm_med (pm_of s') = pm_med (pm_of s);
  ea_small : pm_small (pm_of s') = pm_small (pm_of s);
  ea_recs : es_recs s' = if recover then {[ ext_addr (pm_of s) i ]} ∪ es_recs s else es_recs s;
}.

(** What [ExtentCase::release] does to the extent [i]. *)
Record ext_released (s s' : ext_st) (fl ml ml' : list Z) (i : Z) : Prop := {
  er_pool : pool_inv s' (i :: fl) ml';
  er_same : same_pool s s';
  er_live : ∀ j, live (pm_of s') (i :: fl) j ↔ j ≠ i ∧ live (pm_of s) fl j;
  er_frame : ∀ a, a ≠ ext_addr (pm_of s) i → desc_at (pm_of s') a = desc_at (pm_of s) a;
  er_med : ∀ a, is_medium (pm_of s) i = false ∨ a ≠ ed_runs (desc_of (pm_of s) i) →
    med_at (pm_of s') a = med_at (pm_of s) a;
  er_small : pm_small (pm_of s') = pm_small (pm_of s);
  er_recs : es_recs s' = es_recs s;
}.

(** The program ends with a call of [exit], or the postcondition holds. *)
Definition wp_exit {S A} (m : M S A) (Q : A → S → Prop) (s : S) : Prop :=
  wp_e m (λ e, e = EExit) Q s.

(** What the kernel promises: addresses of mappings are page aligned and in the
    lower half of the address space. *)
Record fs_ok (fs : FileSystem) : Prop := {
  fs_hint_range : ∀ a n, 0 ≤ fs_hint fs a n < 2 ^ 47;
  fs_meta_range : ∀ a n start, fs_meta_mmap fs a n = Some start →
    0 < start < 2 ^ 47 ∧ start mod kPageSize = 0;
  fs_capacity_range : 0 ≤ fs_device_capacity fs < 2 ^ 50;
}.

(** ** Lemmas *)

Section lemmas.
Context `{UtilSpec}.
Implicit Types (s : ext_st) (fl ml : list Z).

Lemma wp_pm {A} (m : M pst A) Q s :
  wp m (λ a x, Q a (set_es_pst x s)) (es_pst s) → wp (pm m) Q s.
Proof. apply wp_zoom. Qed.

Lemma set_es_pst_id s : set_es_pst (es_pst s) s = s.
Proof. by destruct s. Qed.

Lemma wp_pm_ld_desc a Q s : Q (desc_at (pm_of s) a) s → wp (pm (ld_desc a)) Q s.
Proof. intros HQ. apply wp_pm. unfold ld_desc. apply wp_gets. by rewrite set_es_pst_id. Qed.

Lemma same_pool_addr s s' i j :
  same_pool s s' → ext_addr (pm_of s') i = ext_addr (pm_of s) i ∧
  slot_addr (pm_of s') j = slot_addr (pm_of s) j ∧ ext_at s' i = ext_at s i.
Proof.
  intros [Hf Hl]. destruct (same_layout_addr (pm_of s) (pm_of s') i j Hl) as [-> ->].
  unfold ext_at. by rewrite Hf.
Qed.

Lemma same_pool_refl s : same_pool s s.
Proof. done. Qed.
Lemma same_pool_trans s1 s2 s3 : same_pool s1 s2 → same_pool s2 s3 → same_pool s1 s3.
Proof.
  intros [Hf1 (? & ? & ? & ? & ?)] [Hf2 (? & ? & ? & ? & ?)].
  split; [congruence|]. unfold same_layout. split_and!; congruence.
Qed.

Lemma live_range s fl ml i :
  pool_inv s fl ml → live (pm_of s) fl i → 0 ≤ i < ext_total_ (pm_head (pm_of s)).
Proof. intros Hp [Hi _]. pose proof (inv_used _ _ _ (pi_ext _ _ _ Hp)). lia. Qed.

(** [descriptor] of an address inside the extent [i]. *)
Lemma wp_descriptor s fl ml i off Q :
  pool_inv s fl ml → 0 ≤ i < ext_total_ (pm_head (pm_of s)) → 0 ≤ off < kExtentSize →
  Q (ext_addr (pm_of s) i) s → wp (descriptor (ext_at s i + off)) Q s.
Proof.
  intros Hp Hi Ho HQ. unfold descriptor. wp_step. wp_step. wp_step.
  eapply wp_pure; [exact (locate_pointer_ok _ _ i off s (pi_file _ _ _ Hp) Hi Ho)|].
  apply wp_pm. unfold MetaHead_descriptor, ld_head.
  wp_step. wp_step. wp_step. wp_step; [exact (proj2 (Z.ltb_lt _ _) (proj2 Hi))|]. wp_step.
  rewrite set_es_pst_id. done.
Qed.

Lemma wp_extent s fl ml i Q :
  pool_inv s fl ml → 0 ≤ i < ext_used (cur_meta (pm_of s)) →
  Q (ext_at s i) s → wp (extent (ext_addr (pm_of s) i)) Q s.
Proof.
  intros Hp Hi HQ. pose proof (pi_ext _ _ _ Hp) as Hinv. pose proof (inv_used _ _ _ Hinv) as Hu.
  destruct (ext_addr_wf (pm_of s) i (inv_head _ _ _ Hinv)) as (_ & _ & He & _); [lia|].
  unfold extent. wp_step. apply wp_pm. unfold MetaHead_index, ld_head. wp_step. wp_step.
  fold (pm_of s). wp_step. destruct s as [[p lg] f recs]. cbn in *.
  apply (wp_assert_desc p fl ml i); [done|done|].
  rewrite He. wp_step. wp_step; [apply Z.ltb_lt; lia|]. wp_step.
  wp_step. wp_step. eapply wp_pure; [|exact HQ].
  eapply locate_index_ok; [apply (pi_file _ _ _ Hp)|cbn; lia].
Qed.

Lemma acquired_live_iff p p' fl fl' ml ml' i type run_case size :
  ext_inv p fl ml → acquired p p' fl fl' ml ml' i type run_case size →
  ¬ live p fl i ∧ ∀ j, live p' fl' j ↔ j = i ∨ live p fl j.
Proof.
  intros Hinv Ha. pose proof (acq_taken _ _ _ _ _ _ _ _ _ _ Ha) as Ht.
  destruct (ext_taken_facts _ _ _ _ _ _ Hinv Ht) as
    (Hi & Hle & Hnn & Hcase & Hmf & Hnd & Hni & Hsub & Hlive).
  split.
  - intros [Hr Hnf]. destruct Ht as [(-> & _)|(-> & _ & -> & _)]; [set_solver|lia].
  - intros j. split.
    + intros [Hr Hnf]. destruct (decide (j = i)) as [->|Hne]; [by left|]. right. by apply Hlive.
    + intros [->|[Hr Hnf]]; [split; [lia|done]|]. split; [lia|]. intros Hin. by apply Hnf, Hsub.
Qed.

Lemma wp_ext_acquire s fl ml type run_case size (recover : bool) Q :
  pool_inv s fl ml → ok_request type run_case size →
  (fl = [] → ext_used (cur_meta (pm_of s)) = ext_total_ (pm_head (pm_of s)) →
     Q (nullptr, nullptr)
       (if recover then set_es_recs (({[ nullptr ]} : gset Z) ∪ es_recs s) s else s)) →
  (∀ s' i fl' ml', ext_acquired s s' fl fl' ml ml' i type run_case size recover →
     Q (ext_addr (pm_of s) i, ext_at s i) s') →
  wp (ExtentCase_acquire type run_case size recover) Q s.
Proof.
  intros Hp Hok Hnone HQ. unfold ExtentCase_acquire. wp_step. apply wp_pm.
  destruct s as [[p lg] f recs]. unfold pm_of in *. cbn [es_pst mem es_file es_recs] in *.
  destruct Hp as [Hinv Hf Htok]. cbn in Hinv, Hf, Htok.
  apply (wp_acquire fl ml); [done|done|..].
  - intros Hfl Hu. cbn. wp_step. wp_step. destruct recover; cbn; by apply Hnone.
  - intros p' tr i fl' ml' Ha _. destruct (acquired_live_iff _ _ _ _ _ _ _ _ _ _ Hinv Ha) as [Hnl Hl].
    destruct Ha as [Hinv' Ht Hh Hd Hfr Hmed Hsm Hrt].
    destruct (ext_taken_facts _ _ _ _ _ _ Hinv Ht) as (Hi & Hle & _).
    destruct (ext_addr_wf p i (inv_head _ _ _ Hinv)) as (Hnn & _); [lia|].
    set (s' := {| es_pst := {| mem := p'; log := lg ++ tr |}; es_file := f;
                  es_recs := if recover then {[ ext_addr p i ]} ∪ recs else recs |}).
    assert (Q (ext_addr p i, ext_base f i) s') as HQ'.
    { apply (HQ s' i fl' ml'). destruct Hh as [Hl' _]. constructor; try done.
      - constructor; [done| |].
        + destruct Hl' as (_ & _ & Ht' & _). cbn. by rewrite Ht'.
        + intros a. cbn. unfold med_at. rewrite Hmed. apply Htok. }
    rewrite (proj2 (Z.eqb_neq _ _)) by done. cbn. wp_step. wp_step. wp_step.
    eapply wp_pure; [apply (locate_index_ok f _ i _ Hf); lia|].
    destruct recover; exact HQ'.
Qed.

Lemma wp_ext_release s fl ml i Q :
  pool_inv s fl ml → live (pm_of s) fl i →
  (∀ s' ml', ext_released s s' fl ml ml' i → Q tt s') →
  wp (ExtentCase_release (ext_addr (pm_of s) i) (ext_at s i)) Q s.
Proof.
  intros Hp Hl HQ. pose proof (live_range s fl ml i Hp Hl) as Hi. unfold ExtentCase_release.
  wp_step. wp_step; [apply Z.eqb_eq; by eapply ext_base_aligned, Hp|].
  wp_step. rewrite <-(Z.add_0_r (ext_at s i)).
  apply (wp_descriptor s fl ml); [done|done|done|].
  wp_step. wp_step; [by rewrite Z.eqb_refl|]. wp_step. cbn. apply wp_pm.
  destruct s as [[p lg] f recs]. unfold pm_of in *. cbn [es_pst mem es_file es_recs] in *.
  destruct Hp as [Hinv Hf Htok]. cbn in Hinv, Hf, Htok.
  apply (wp_release i fl ml); [done|done|]. intros p' tr ml' Hr _.
  apply (HQ _ ml'). destruct Hr as [Hinv' Hu Hh Hfr Hmed Htk Hsm Hrt].
  destruct Hh as [Hl' _]. constructor; try done; cbn.
  - constructor; [done| |].
    + destruct Hl' as (_ & _ & Ht' & _). cbn. by rewrite Ht'.
    + intros a. cbn. rewrite Htk. apply Htok.
  - intros j. unfold live. rewrite Hu, not_elem_of_cons. tauto.
Qed.

Lemma wp_root_init p lg Q :
  (∀ p' lg', pm_head p' = pm_head p → pm_meta p' = pm_meta p → pm_desc p' = pm_desc p →
     pm_med p' = pm_med p → pm_small p' = pm_small p →
     (∀ i, 0 ≤ i < kRootCount → root_at p' i = nullptr) →
     Q tt {| mem := p'; log := lg' |}) →
  wp PersistRoot_init Q {| mem := p; log := lg |}.
Proof.
  intros HQ. unfold PersistRoot_init. apply wp_bind.
  apply (wp_mfor (λ i x, pm_head (mem x) = pm_head p ∧ pm_meta (mem x) = pm_meta p ∧
    pm_desc (mem x) = pm_desc p ∧ pm_med (mem x) = pm_med p ∧ pm_small (mem x) = pm_small p ∧
    ∀ j, 0 ≤ j < i → root_at (mem x) j = nullptr)); [split_and!; done || lia| |].
  - intros i [p1 lg1] Hi (E1 & E2 & E3 & E4 & E5 & Hr). apply wp_store. intros lg2.
    cbn [mem pm_head pm_meta pm_desc pm_med pm_small set_pm_root] in *.
    split_and!; try done. intros j Hj. unfold root_at in *. cbn.
    destruct (decide (j = i)) as [->|Hne]; [by rewrite lookup_insert_eq|].
    rewrite lookup_insert_ne by done. apply Hr. lia.
  - intros [p1 lg1] (E1 & E2 & E3 & E4 & E5 & Hr). cbn [mem] in *. apply wp_bind.
    apply (wp_mfor (λ _ x, mem x = p1)); [done| |].
    + intros i [p2 lg2] _ E. by apply wp_flush; intros lg3.
    + intros [p2 lg2] E. cbn in E. subst p2. apply wp_fence. intros lg3. by apply HQ.
Qed.

Lemma wp_exit_bind {S A B} (m : M S A) (f : A → M S B) Q (x : S) :
  wp_exit m (λ a, wp_exit (f a) Q) x → wp_exit (m ≫= f) Q x.
Proof. apply wp_e_bind. Qed.
Lemma wp_exit_mono {S A} (m : M S A) (P Q : A → S → Prop) (x : S) :
  wp_exit m P x → (∀ a y, P a y → Q a y) → wp_exit m Q x.
Proof. intros HP HPQ. by eapply wp_e_mono. Qed.
Lemma wp_exit_wp {S A} (m : M S A) Q (x : S) : wp m Q x → wp_exit m Q x.
Proof. apply wp_e_wp. Qed.
Lemma wp_exit_lift {S A} (r : res unit A) Q (x : S) :
  r = Err EExit ∨ (∃ a, r = Ok a tt ∧ Q a x) → wp_exit (lift_res r) Q x.
Proof. by intros [->|(a & -> & HQ)]. Qed.

Lemma meta_mmap_ok fs size fuel attempt :
  fs_ok fs → (0 < fuel)%nat → attempt + Z.of_nat fuel = kMaxAttempts →
  meta_mmap_loop fs fuel attempt size = Err EExit ∨
  ∃ start, meta_mmap_loop fs fuel attempt size = Ok start tt ∧
           0 < start < 2 ^ 47 ∧ start mod kPageSize = 0.
Proof.
  intros Hfs. revert attempt. induction fuel as [|fuel IH]; intros attempt Hf Ha; [lia|]. simpl.
  destruct (fs_meta_mmap fs attempt size) as [start|] eqn:E.
  - right. exists start. split; [done|by eapply fs_meta_range].
  - destruct (Z.leb_spec kMaxAttempts (attempt + 1)); [by left|]. apply IH; lia.
Qed.

Lemma create_size_ok fs size :
  fs_ok fs → 0 ≤ size < 2 ^ 50 ∨ size = 2 ^ 64 - 1 →
  ∃ n, 0 < n < 2 ^ 20 ∧ create_size (fs_device_capacity fs) size = n * kPoolSizeAlign.
Proof.
  intros Hfs Hs. pose proof (fs_capacity_range fs Hfs) as Hc. unfold create_size.
  set (sz := if size =? 2 ^ 64 - 1 then fs_device_capacity fs else size).
  assert (0 ≤ sz < 2 ^ 50) as Hsz.
  { subst sz. destruct (Z.eqb_spec size (2 ^ 64 - 1)); [done|]. by destruct Hs. }
  rewrite rounddown_spec by (change kPoolSizeAlign with (2 ^ 30); lia).
  change kPoolSizeAlign with (2 ^ 30).
  destruct (Z.ltb_spec (sz - sz mod 2 ^ 30) (2 ^ 30)); [by exists 1|].
  exists (sz / 2 ^ 30). Z.div_mod_to_equations. lia.
Qed.

(** ** Properties *)

(** C33: opening an allocator without a pool creates one: the operation ends with
    [exit] when a mapping fails, and otherwise, for every size, also the default
    one, it passes its asserts and establishes the invariant of the pool: the
    size is a whole number of GiB and matches the size in the meta file, no extent
    is in use, and all roots are null. *)
Theorem open_new_pool fs size s :
  fs_ok fs → 0 ≤ size < 2 ^ 50 ∨ size = 2 ^ 64 - 1 →
  wp_exit (ExtentCase_open fs None size) (λ r s',
    r = false ∧
    ((∀ a, lenZ (mm_tokens (med_at (pm_of s) a)) = 51) → pool_inv s' [] []) ∧
    (∀ i, ¬ live (pm_of s') [] i) ∧
    (∀ i, 0 ≤ i < kRootCount → root_at (pm_of s') i = nullptr) ∧
    pool_size (es_file s') = size_ (pm_head (pm_of s')) ∧
    size_ (pm_head (pm_of s')) = create_size (fs_device_capacity fs) size) s.
Proof.
  intros Hfs Hs. unfold ExtentCase_open, create_impl.
  destruct (create_size_ok fs size Hfs Hs) as (n & Hn & ->). set (sz := n * kPoolSizeAlign).
  assert (sz mod kExtentSize = 0) as Hmod.
  { subst sz. change kPoolSizeAlign with (256 * kExtentSize). by rewrite Z.mul_assoc, Z.mod_mul. }
  assert (0 < sz < 2 ^ 50) as Hsz by (subst sz; change kPoolSizeAlign with (2 ^ 30); lia).
  assert (sz / kExtentSize = 256 * n) as Hdiv.
  { subst sz. change kPoolSizeAlign with (256 * kExtentSize). rewrite Z.mul_assoc, Z.div_mul by done. lia. }
  apply wp_exit_bind, wp_exit_bind, wp_exit_wp. wp_step; [by apply Z.eqb_eq|].
  unfold ExtentFile_create. apply wp_exit_bind, wp_exit_bind, wp_exit_wp.
  wp_step; [apply andb_true_iff; split; [by apply Z.ltb_lt, Hsz|by apply Z.eqb_eq]|].
  apply wp_exit_bind, wp_exit_lift.
  destruct (mmap_loop_ok (fs_hint fs) (fs_mmap fs) (Z.to_nat kMaxAttempts) 0 (sz + kRootSegSize))
    as [(addr & Ha & Hal & Hrange)|He];
    [vm_compute; lia|done|done|intros a; apply (fs_hint_range fs Hfs)| |by left].
  right. exists addr. split; [exact Ha|]. apply wp_exit_wp. wp_step. wp_step.
  apply wp_pm. destruct s as [[p lg] f recs]. apply wp_root_init.
  intros p1 lg1 _ _ _ Hmed1 _ Hroot. unfold MetaFile_create_fs.
  apply wp_exit_bind, wp_exit_bind, wp_exit_lift.
  destruct (meta_mmap_ok fs (kMetaHeadSize + sz / kExtentSize * sizeof_ExtentDesc +
    sz / kMediumRunBase * sizeof_MediumMeta) (Z.to_nat kMaxAttempts) 0 Hfs)
    as [He|(start & He & Hst & Hsta)]; [vm_compute; lia|done|by left|].
  right. exists start. split; [exact He|]. apply wp_exit_wp, wp_pm. apply (wp_create start n); [done..|].
  intros p2 lg2 Hh Hm Hinv _ Hmed2 _ Hr2. unfold wp_exit, mret, M_ret. unfold pm_of. cbn.
  assert (wf_file {| ef_start := addr; ef_size := sz + kRootSegSize |} (ext_total_ (pm_head p2))) as Hf.
  { rewrite Hh. cbn. fold sz. rewrite Hdiv. unfold wf_file, file_end, extents. cbn.
    subst sz. change kPoolSizeAlign with (256 * 4194304) in *. change kRootSegSize with 8192 in *.
    change kExtentSize with 4194304 in *. split_and!; try lia. }
  split; [done|]. split.
  { intros Htok. constructor; [exact Hinv|exact Hf|].
    intros a. unfold pm_of. cbn. unfold med_at. rewrite Hmed2, Hmed1. apply Htok. }
  split; [|split; [|split]].
  - intros i [Hi _]. unfold cur_meta in Hi. rewrite Hh in Hi. cbn in Hi. rewrite Hm in Hi. cbn in Hi. lia.
  - intros i Hi. unfold root_at. rewrite Hr2. by apply Hroot.
  - rewrite (pool_size_ok _ _ Hf), Hh. cbn. fold sz. rewrite Hdiv. subst sz.
    change kPoolSizeAlign with (256 * kExtentSize). lia.
  - by rewrite Hh.
Qed.
End lemmas.

(** ** Witnesses *)

Definition example_fs : FileSystem := {|
  fs_hint := λ _ _, 2 ^ 40; fs_mmap := λ _ _ hint, hint; fs_meta_mmap := λ _ _, Some 4096;
  fs_device_capacity := 2 ^ 33 + 5000 |}.

Lemma open_new_pool_witness :
  wp_exit (ExtentCase_open example_fs None (2 ^ 64 - 1)) (λ r s',
    pool_inv s' [] [] ∧ size_ (pm_head (pm_of s')) = 2 ^ 33)
    {| es_pst := {| mem := zero_pmem; log := [] |}; es_file := {| ef_start := 0; ef_size := 0 |};
       es_recs := ∅ |}.
Proof.
  eapply wp_exit_mono.
  - apply (open_new_pool example_fs (2 ^ 64 - 1)).
    + constructor.
      * intros a n. vm_compute. intuition congruence.
      * intros a n start [= <-]. vm_compute. intuition congruence.
      * vm_compute. intuition congruence.
    + by right.
  - intros r s' (_ & Hp & _ & _ & _ & Hs). split.
    + apply Hp. intros a. reflexivity.
    + rewrite Hs. vm_compute. reflexivity.
Defined.
