(* ===== verification/RunSpec.v ===== *)
(** * Runs

    The contract of [RunBin]: [srun_acquire] and [mrun_acquire] hand out a run
    that was not in use, whatever extent it lies in, [srun_release] and
    [mrun_release] give back exactly one run.  The invariant [rbin_inv] says
    that the maps of a bin hold exactly the extents of the bin that have a free
    run; the other bins and the large regions are not affected. *)

From S2P Require Export ExtSpec Run.
Import Pmem.

(** ** Definitions *)

(** The run [rid] of the extent [i] is in use. *)
Definition busy (p : pmem) (fl : list Z) (i rid : Z) : Prop :=
  live p fl i ∧ 0 ≤ rid < ed_count (desc_of p i) ∧ run_used (desc_of p i) rid = true.

(** The extent [i] has the type, run case and run size of the bin. *)
Definition in_bin (p : pmem) (b : RunBin) (i : Z) : Prop :=
  ed_type (desc_of p i) = rbin_type b ∧ ed_rcase (desc_of p i) = rbin_rcase b ∧
  ed_size (desc_of p i) = rbin_rsize b.

Definition half_free (p : pmem) (i : Z) : Prop :=
  ∃ rid, 0 ≤ rid < ed_count (desc_of p i) ∧ run_used (desc_of p i) rid = false.

Definition map_ok (s : ext_st) (fl : list Z) (b : RunBin) (m : gmap Z Z) : Prop :=
  ∀ ext desc, m !! ext = Some desc → ∃ i,
    live (pm_of s) fl i ∧ in_bin (pm_of s) b i ∧ half_free (pm_of s) i ∧
    ext = ext_at s i ∧ desc = ext_addr (pm_of s) i.

(** Every extent of the bin with a free run is in one of the two maps. *)
Record rbin_inv (s : ext_st) (fl : list Z) (b : RunBin) : Prop := {
  ri_req : ok_request (rbin_type b) (rbin_rcase b) (rbin_rsize b);
  ri_type : rbin_type b = kSmall ∨ rbin_type b = kMedium;
  ri_half : 2 * rbin_rsize b ≤ kExtentSize;
  ri_map : ∀ r, map_ok s fl b (rbin b r);
  ri_disj : ∀ e, rbin b true !! e = None ∨ rbin b false !! e = None;
  ri_all : ∀ i, live (pm_of s) fl i → in_bin (pm_of s) b i → half_free (pm_of s) i →
    is_Some (rbin b true !! ext_at s i) ∨ is_Some (rbin b false !! ext_at s i);
}.

Definition same_bin (b b' : RunBin) : Prop :=
  rbin_rcase b' = rbin_rcase b ∧ rbin_type b' = rbin_type b ∧ rbin_rsize b' = rbin_rsize b.

(** The step from [s] to [s'] concerns the extent [i] of the bin [b] only. *)
Record bin_step (s s' : ext_st) (fl fl' : list Z) (b : RunBin) (i : Z) : Prop := {
  bs_same : same_pool s s';
  bs_before : live (pm_of s) fl i → in_bin (pm_of s) b i;
  bs_after : live (pm_of s') fl' i → in_bin (pm_of s') b i;
  bs_live : ∀ j, j ≠ i → live (pm_of s') fl' j ↔ live (pm_of s) fl j;
  bs_desc : ∀ j, j ≠ i → desc_of (pm_of s') j = desc_of (pm_of s) j;
}.

(** The extent that is selected has a free run; no run changes. *)
Record selected (s s' : ext_st) (fl fl' : list Z) (b b' : RunBin) (i : Z) (recover : bool)
    : Prop := {
  sel_step : bin_step s s' fl fl' b i;
  sel_inv : rbin_inv s' fl' b';
  sel_bin : same_bin b b';
  sel_live : live (pm_of s') fl' i;
  sel_free : half_free (pm_of s') i;
  sel_entry : rbin b' recover !! ext_at s i = Some (ext_addr (pm_of s) i);
  sel_busy : ∀ j r, busy (pm_of s') fl' j r ↔ busy (pm_of s) fl j r;
  sel_med : pm_med (pm_of s') = pm_med (pm_of s);
  sel_small : pm_small (pm_of s') = pm_small (pm_of s);
  sel_desc : live (pm_of s) fl i → desc_of (pm_of s') i = desc_of (pm_of s) i;
  sel_other : rbin b' (negb recover) = rbin b (negb recover);
}.

(** [s'] is [s] after the run [rid] of the extent [i] has been marked, and its
    metadata possibly written. *)
Record marked (s s' : ext_st) (ml : list Z) (i rid : Z) (v : bool) : Prop := {
  mk_file : es_file s' = es_file s;
  mk_head : pm_head (pm_of s') = pm_head (pm_of s);
  mk_meta : pm_meta (pm_of s') = pm_meta (pm_of s);
  mk_desc : ∀ a, desc_at (pm_of s') a =
    desc_at (upd_desc (ext_addr (pm_of s) i) (mark_run rid v) (pm_of s)) a;
  mk_next : ∀ j, j ∈ ml →
    mm_next (med_at (pm_of s') (slot_addr (pm_of s) j)) = mm_next (med_at (pm_of s) (slot_addr (pm_of s) j));
  mk_tokens : ∀ a, lenZ (mm_tokens (med_at (pm_of s') a)) = 51;
}.

(** The fields of a descriptor that do not change while the extent is in use. *)
Definition same_static (d d' : ExtentDesc) : Prop :=
  ed_type d' = ed_type d ∧ ed_rcase d' = ed_rcase d ∧ ed_size d' = ed_size d ∧
  ed_count d' = ed_count d ∧ ed_runs d' = ed_runs d.

(** The run [rid] of the extent [i] has been taken, and nothing else. *)
Record run_taken (s s' : ext_st) (fl fl' : list Z) (b b' : RunBin) (run i rid : Z) : Prop := {
  rt_step : bin_step s s' fl fl' b i;
  rt_inv : rbin_inv s' fl' b';
  rt_bin : same_bin b b';
  rt_addr : run = ext_at s i + rid * rbin_rsize b;
  rt_range : 0 ≤ rid < kExtentSize / rbin_rsize b;
  rt_live : live (pm_of s') fl' i;
  rt_free : ¬ busy (pm_of s) fl i rid;
  rt_busy : ∀ j r, busy (pm_of s') fl' j r ↔ j = i ∧ r = rid ∨ busy (pm_of s) fl j r;
  rt_static : live (pm_of s) fl i → same_static (desc_of (pm_of s) i) (desc_of (pm_of s') i);
}.

(** The number of regions of a small run: they fit behind the metadata and less
    than one region is left over. *)
Definition small_fits (rsize size c : Z) : Prop :=
  0 ≤ c < 2 ^ 16 ∧ c * size + meta_size c ≤ rsize ∧ rsize - (c * size + meta_size c) ≤ size.
Definition small_rsize (rsize : Z) : Prop := rsize ∈ take 3 kRunSizeTab.

(** A run that has just been constructed: its regions are all free. *)
Definition fresh_small (m : SmallMeta) (rsize arena size : Z) : Prop :=
  sm_size m = size ∧ sm_arena m = arena ∧ small_fits rsize size (sm_count m) ∧ sm_cond m = kPure ∧
  ∀ k, 0 ≤ k < sm_count m → small_token m k = kFreeCode.

(** The number of regions of a medium run: as many as fit, such that they fill
    whole pages. *)
Definition medium_fits (rsize size c : Z) : Prop :=
  0 ≤ c ≤ rsize / size ∧ c * size mod kPageSize = 0 ∧
  ∀ c', c < c' ≤ rsize / size → c' * size mod kPageSize ≠ 0.
(** The run sizes of the medium bins, and the region sizes they serve: the
    MediumMeta has 51 tokens. *)
Definition medium_rsize (rsize : Z) : Prop := rsize ∈ drop 3 kRunSizeTab.
Definition medium_class (rsize size : Z) : Prop :=
  kMaxSmallSize < size ≤ kMaxMediumSize ∧ rsize / size ≤ 51.

Definition fresh_medium (m : MediumMeta) (rsize arena size : Z) : Prop :=
  mm_size m = size ∧ mm_arena m = arena ∧ medium_fits rsize size (mm_count m) ∧ mm_cond m = kPure ∧
  ∀ k, 0 ≤ k < mm_count m → nthZ (mm_tokens m) k = Some kFreeCode.

(** The run [rid] of the extent [i] has been returned, and nothing else. *)
Record run_returned (s s' : ext_st) (fl fl' : list Z) (b b' : RunBin) (i rid : Z) : Prop := {
  rr_step : bin_step s s' fl fl' b i;
  rr_inv : rbin_inv s' fl' b';
  rr_bin : same_bin b b';
  rr_busy : ∀ j r, busy (pm_of s') fl' j r ↔ busy (pm_of s) fl j r ∧ ¬ (j = i ∧ r = rid);
  rr_small : pm_small (pm_of s') = pm_small (pm_of s);
  rr_static : live (pm_of s') fl' i → same_static (desc_of (pm_of s) i) (desc_of (pm_of s') i);
  rr_med : ∀ a, med_at (pm_of s') a = med_at (pm_of s) a ∨
    is_medium (pm_of s) i = true ∧ a = ed_runs (desc_of (pm_of s) i) ∧ ¬ live (pm_of s') fl' i;
}.

(** The bins with another type, run case or run size keep their invariant. *)
Definition other_bins (s s' : ext_st) (fl fl' : list Z) (b : RunBin) : Prop :=
  ∀ b', (rbin_type b, rbin_rcase b, rbin_rsize b) ≠ (rbin_type b', rbin_rcase b', rbin_rsize b') →
    rbin_inv s fl b' → rbin_inv s' fl' b'.

(** The check of one pair of a run size and a region size. *)
Definition small_count_check (rsize size : Z) : bool :=
  match small_count_loop 8 rsize size (rsize / size) with
  | Some c => (0 <=? c) && (c <? 2 ^ 16) && (c * size + meta_size c <=? rsize) &&
              (rsize - (c * size + meta_size c) <=? size)
  | None => false
  end.

(** No space is left: no run for the bin and no free extent. *)
Definition no_space (s : ext_st) (fl : list Z) (b : RunBin) (recover : bool) : Prop :=
  rbin b recover = ∅ ∧ ∀ i, 0 ≤ i < ext_total_ (pm_head (pm_of s)) → live (pm_of s) fl i.

(** ** Lemmas *)

Section lemmas.
Context `{UtilSpec} `{UnorderedMapSpec}.
Implicit Types (s : ext_st) (fl ml : list Z) (b : RunBin).

Lemma um_begin_empty {A} : um_begin (∅ : gmap Z A) = None.
Proof.
  unfold um_begin. rewrite dom_empty_L. pose proof (um_order_spec ∅) as Hp.
  change (elements ∅) with (@nil Z) in Hp. apply Permutation_nil_r in Hp. by rewrite Hp.
Qed.

Lemma um_begin_in {A} (m : gmap Z A) : m ≠ ∅ → ∃ k a, um_begin m = Some k ∧ m !! k = Some a.
Proof.
  intros Hne. unfold um_begin. destruct (um_order (dom m)) as [|k l] eqn:E.
  - exfalso. pose proof (um_order_spec (dom m)) as Hp. rewrite E in Hp.
    symmetry in Hp. apply Permutation_nil_r, elements_empty_iff, dom_empty_iff in Hp. done.
  - assert (k ∈ dom m) as [a Ha]%elem_of_dom; [|by exists k, a].
    apply elem_of_elements. rewrite <-um_order_spec, E. set_solver.
Qed.

Lemma rbin_set b r r' m :
  rbin (set_rbin r m b) r' = if decide (r = r') then m else rbin b r'.
Proof. by destruct r, r'. Qed.
Lemma set_rbin_other b r m : rbin (set_rbin r m b) (negb r) = rbin b (negb r).
Proof. by destruct r. Qed.
Lemma same_bin_set b r m : same_bin b (set_rbin r m b).
Proof. by destruct r. Qed.
Lemma same_bin_trans b1 b2 b3 : same_bin b1 b2 → same_bin b2 b3 → same_bin b1 b3.
Proof. intros (?&?&?) (?&?&?). unfold same_bin. split_and!; congruence. Qed.

Lemma in_bin_same p b b' i : same_bin b b' → in_bin p b i ↔ in_bin p b' i.
Proof. unfold same_bin, in_bin. intros (-> & -> & ->). done. Qed.

(** The entry of one extent in a map. *)
Lemma map_entry s fl ml b r i :
  pool_inv s fl ml → map_ok s fl b (rbin b r) → is_Some (rbin b r !! ext_at s i) →
  rbin b r !! ext_at s i = Some (ext_addr (pm_of s) i) ∧ live (pm_of s) fl i ∧
  in_bin (pm_of s) b i ∧ half_free (pm_of s) i.
Proof.
  intros Hp Hm [d Hd]. destruct (Hm _ _ Hd) as (j & Hl & Hb & Hf & He & ->).
  apply ext_base_inj in He as <-. done.
Qed.

(** Other bins are not affected by a step on an extent that is not theirs. *)
Lemma bin_step_other s s' fl fl' b b' i :
  bin_step s s' fl fl' b i → (rbin_type b, rbin_rcase b, rbin_rsize b) ≠
    (rbin_type b', rbin_rcase b', rbin_rsize b') →
  rbin_inv s fl b' → rbin_inv s' fl' b'.
Proof.
  intros [Hs Hb1 Hb2 Hl Hd] Hne [i1 i2 i3 i4 i5 i6].
  assert (∀ j, live (pm_of s) fl j → in_bin (pm_of s) b' j → j ≠ i) as Hn1.
  { intros j Hlj (E1 & E2 & E3) ->. destruct (Hb1 Hlj) as (F1 & F2 & F3). congruence. }
  assert (∀ j, live (pm_of s') fl' j → in_bin (pm_of s') b' j → j ≠ i) as Hn2.
  { intros j Hlj (E1 & E2 & E3) ->. destruct (Hb2 Hlj) as (F1 & F2 & F3). congruence. }
  constructor; try done.
  - intros r ext desc He. destruct (i4 r ext desc He) as (j & Hlj & Hbj & Hf & -> & ->).
    pose proof (Hn1 j Hlj Hbj) as Hj. exists j. destruct (same_pool_addr s s' j 0 Hs) as (-> & _ & ->).
    unfold in_bin, half_free. rewrite (Hd j Hj). split; [by apply (Hl j Hj)|]. split; [exact Hbj|]. by split; [exact Hf|].
  - intros j Hlj Hbj Hf. pose proof (Hn2 j Hlj Hbj) as Hj.
    destruct (same_pool_addr s s' j 0 Hs) as (_ & _ & ->).
    unfold in_bin, half_free in *. rewrite (Hd j Hj) in *. apply i6; [by apply (Hl j Hj)|done|done].
Qed.

(** The bin after a step on one of its extents: the entries of the others are
    as before, and the extent is in one map exactly if it has a free run. *)
Lemma rbin_inv_step s s' fl fl' b b' i :
  bin_step s s' fl fl' b i → rbin_inv s fl b → same_bin b b' →
  (∀ r e, e ≠ ext_at s i → rbin b' r !! e = rbin b r !! e) →
  (∃ r, live (pm_of s') fl' i ∧ half_free (pm_of s') i ∧
     rbin b' r !! ext_at s i = Some (ext_addr (pm_of s) i) ∧
     rbin b' (negb r) !! ext_at s i = None) ∨
  ((∀ r, rbin b' r !! ext_at s i = None) ∧
     (live (pm_of s') fl' i → half_free (pm_of s') i → False)) →
  rbin_inv s' fl' b'.
Proof.
  intros [Hs Hb1 Hb2 Hl Hd] [i1 i2 i3 i4 i5 i6] Hsb He Hi.
  assert (∀ j, in_bin (pm_of s') b' j ↔ in_bin (pm_of s') b j) as Hib.
  { intros j. symmetry. by apply in_bin_same. }
  assert (∀ j, j ≠ i → ext_at s j ≠ ext_at s i) as Hne.
  { intros j Hj Heq. by apply ext_base_inj in Heq. }
  constructor.
  - by destruct Hsb as (-> & -> & ->).
  - by destruct Hsb as (_ & -> & _).
  - by destruct Hsb as (_ & _ & ->).
  - intros r ext desc Hm. destruct (decide (ext = ext_at s i)) as [->|Hx].
    + exists i. destruct (same_pool_addr s s' i 0 Hs) as (-> & _ & ->).
      destruct Hi as [(r0 & Hli & Hf & Hr & Hr')|[Hi _]]; [|by rewrite Hi in Hm].
      assert (r = r0) as -> by (destruct r, r0; simpl in *; congruence).
      rewrite Hr in Hm. injection Hm as <-. split; [done|]. split; [by apply Hib, Hb2|done].
    + rewrite He in Hm by done. destruct (i4 r ext desc Hm) as (j & Hlj & Hbj & Hf & -> & ->).
      assert (j ≠ i) as Hj by (intros ->; done). exists j.
      destruct (same_pool_addr s s' j 0 Hs) as (-> & _ & ->).
      split; [by apply (Hl j Hj)|]. split; [apply Hib|]; unfold in_bin, half_free;
        rewrite (Hd j Hj); done.
  - intros e. destruct (decide (e = ext_at s i)) as [->|Hx].
    + destruct Hi as [(r0 & _ & _ & _ & Hr')|[Hi _]]; [destruct r0; auto|by left].
    + rewrite !He by done. apply i5.
  - intros j Hlj Hbj Hf. destruct (same_pool_addr s s' j 0 Hs) as (_ & _ & ->).
    destruct (decide (j = i)) as [->|Hj].
    + destruct Hi as [(r0 & _ & _ & Hr & _)|[_ Hi]]; [destruct r0; eauto|destruct (Hi Hlj Hf)].
    + rewrite !He by auto. apply Hib in Hbj. unfold in_bin, half_free in *.
      rewrite (Hd j Hj) in *. apply i6; [by apply (Hl j Hj)|done|done].
Qed.

(** *** [select_ext] *)

Lemma new_extent s s' fl fl' ml ml' b i recover :
  ok_request (rbin_type b) (rbin_rcase b) (rbin_rsize b) →
  ext_acquired s s' fl fl' ml ml' i (rbin_type b) (rbin_rcase b) (rbin_rsize b) recover →
  bin_step s s' fl fl' b i ∧ half_free (pm_of s') i ∧
  ∀ j r, busy (pm_of s') fl' j r ↔ busy (pm_of s) fl j r.
Proof.
  intros Hreq [Hp' Hs Hl Hfresh (next & runs & Hd & _) Hfr _ _ _].
  destruct Hreq as (Ht & Hsz & Hm & Hrc & Hsm & Hlg).
  destruct (new_desc_wf _ (rbin_rcase b) _ next runs Ht Hsz Hm Hsm Hlg) as (Hwf & Hes & Hct & Hfree).
  assert (∀ j, j ≠ i → desc_of (pm_of s') j = desc_of (pm_of s) j) as Hdj.
  { intros j Hj. unfold desc_of. destruct (same_pool_addr s s' j 0 Hs) as (-> & _).
    apply Hfr. intros He. by apply ext_addr_inj in He. }
  split_and!.
  - constructor; [done|done| | |done].
    + intros _. unfold in_bin. rewrite Hd, Hes. simpl. by rewrite u32_small.
    + intros j Hj. rewrite Hl. naive_solver.
  - exists 0. rewrite Hd. destruct Hwf as (_ & _ & Hc & _). split; [lia|]. apply Hfree. lia.
  - intros j r. unfold busy. rewrite Hl. destruct (decide (j = i)) as [->|Hj].
    + rewrite Hd. split; [|tauto]. intros (_ & Hr & Hu). rewrite Hfree in Hu by done. done.
    + rewrite Hdj by done. naive_solver.
Qed.

Lemma wp_select_ext s fl ml b recover Q :
  pool_inv s fl ml → rbin_inv s fl b →
  (fl = [] → ext_used (cur_meta (pm_of s)) = ext_total_ (pm_head (pm_of s)) →
   rbin b recover = ∅ →
     Q (b, (None, false)) (if recover then set_es_recs (({[ nullptr ]} : gset Z) ∪ es_recs s) s else s)) →
  (∀ s' fl' ml' b' i alloc, pool_inv s' fl' ml' → selected s s' fl fl' b b' i recover →
     Q (b', (Some (ext_at s i), alloc)) s') →
  wp (select_ext b recover) Q s.
Proof.
  intros Hp Hb Hnone HQ. unfold select_ext. case_bool_decide as He.
  - wp_step. apply (wp_ext_acquire s fl ml); [done|apply Hb|..].
    + intros Hfl Hu. cbv beta iota. rewrite Z.eqb_refl. cbn [negb]. wp_step.
      rewrite He, um_begin_empty. by apply Hnone.
    + intros s' i fl' ml' Ha. destruct (new_extent _ _ _ _ _ _ _ _ _ (ri_req _ _ _ Hb) Ha) as (Hst & Hf & Hbusy).
      destruct Ha as [Hp' Hs Hl Hfresh Hd Hfr Hmed Hsm _].
      assert (live (pm_of s') fl' i) as Hli by (apply Hl; by left).
      assert (ext_at s i ≠ nullptr) as Hnn.
      { unfold ext_at, ext_base, extents, nullptr. pose proof (pi_file _ _ _ Hp) as (Hst0 & _).
        pose proof (live_range s' fl' ml' i Hp' Hli). change kRootSegSize with 8192.
        change kExtentSize with 4194304. lia. }
      cbv beta iota. rewrite (proj2 (Z.eqb_neq _ _)) by done. cbn [negb].
      rewrite rbin_set, decide_True, He, insert_empty by done.
      destruct (um_begin_in ({[ext_at s i := ext_addr (pm_of s) i]} : gmap Z Z)) as (k & a & Hk & Hka);
        [apply map_non_empty_singleton|].
      apply lookup_singleton_Some in Hka as [<- _]. wp_step. rewrite Hk.
      apply (HQ _ fl' ml'); [done|]. constructor; try done.
      * eapply rbin_inv_step; [exact Hst|exact Hb|apply same_bin_set|..].
        -- intros r e Hne. rewrite rbin_set. case_decide as Hr; [|done]. subst r.
           by rewrite He, lookup_empty, lookup_singleton_ne.
        -- left. exists recover. rewrite !rbin_set, decide_True, decide_False by (by destruct recover).
           split; [done|]. split; [done|]. split; [apply lookup_singleton_eq|].
           destruct (rbin b (negb recover) !! ext_at s i) eqn:E; [exfalso|done].
           destruct (map_entry s fl ml b (negb recover) i Hp (ri_map _ _ _ Hb _)) as (_ & Hlv & _); [by eexists|done].
      * apply same_bin_set.
      * rewrite rbin_set, decide_True by done. apply lookup_singleton_eq.
      * apply set_rbin_other.
  - wp_step. destruct (um_begin_in _ He) as (k & d & Hk & Hd). rewrite Hk.
    destruct (ri_map _ _ _ Hb recover _ _ Hd) as (i & Hl & Hin & Hf & -> & ->).
    apply (HQ _ fl ml); [done|]. constructor; done.
Qed.

(** *** Marking a run *)

Lemma mark_run_static d rid v : same_static d (mark_run rid v d).
Proof. destruct (mark_run_fields d rid v) as (? & ? & ? & ? & ? & ?). by repeat split. Qed.

Lemma marked_ok s s' fl ml b i rid v :
  pool_inv s fl ml → rbin_inv s fl b → live (pm_of s) fl i → in_bin (pm_of s) b i →
  0 ≤ rid < ed_count (desc_of (pm_of s) i) → marked s s' ml i rid v →
  pool_inv s' fl ml ∧ bin_step s s' fl fl b i ∧
  desc_of (pm_of s') i = mark_run rid v (desc_of (pm_of s) i) ∧
  ∀ j r, busy (pm_of s') fl j r ↔
    if decide (j = i ∧ r = rid) then v = true else busy (pm_of s) fl j r.
Proof.
  intros Hp Hb Hl Hin Hr [Hf Hh Hm Hd Hn Ht]. pose proof (pi_ext _ _ _ Hp) as Hinv.
  assert (ed_type (desc_of (pm_of s) i) = kSmall ∨ ed_type (desc_of (pm_of s) i) = kMedium) as Hty.
  { destruct Hin as (-> & _). apply (ri_type _ _ _ Hb). }
  pose proof (inv_live _ _ _ Hinv i Hl) as Hwf.
  assert (∀ j, ext_addr (pm_of s') j = ext_addr (pm_of s) j) as Ha.
  { intros j. unfold ext_addr. by rewrite Hh. }
  assert (cur_meta (pm_of s') = cur_meta (pm_of s)) as Hc.
  { unfold cur_meta, meta_at. by rewrite Hh, Hm. }
  assert (desc_of (pm_of s') i = mark_run rid v (desc_of (pm_of s) i)) as Hdi.
  { unfold desc_of at 1. by rewrite Ha, Hd, desc_at_upd_eq. }
  assert (∀ j, j ≠ i → desc_of (pm_of s') j = desc_of (pm_of s) j) as Hdj.
  { intros j Hj. unfold desc_of at 1. rewrite Ha, Hd, desc_at_upd_ne; [done|].
    intros He. apply ext_addr_inj in He. congruence. }
  assert (∀ j, live (pm_of s') fl j ↔ live (pm_of s) fl j) as Hlj.
  { intros j. unfold live. by rewrite Hc. }
  destruct (mark_run_fields (desc_of (pm_of s) i) rid v) as (F1 & F2 & F3 & F4 & F5 & F6).
  split_and!; [| |done|].
  - constructor; [|by rewrite Hf, Hh; apply Hp|done].
    apply (ext_inv_frame (pm_of s)); rewrite ?Hh; try done.
    + intros j Hj. rewrite Hdj; [|by intros ->; apply Hl]. by split; [apply (inv_free _ _ _ Hinv)|].
    + intros j Hj. destruct (decide (j = i)) as [->|Hne].
      * rewrite Hdi. split; [by apply mark_run_wf|]. done.
      * rewrite Hdj by done. split; [by apply (inv_live _ _ _ Hinv)|done].
  - constructor; [|done| |by intros; apply Hlj|done].
    + split; [done|]. unfold same_layout. by rewrite Hh.
    + intros _. unfold in_bin. rewrite Hdi, F1, F2, F3. exact Hin.
  - intros j r. unfold busy. rewrite Hlj. destruct (decide (j = i)) as [->|Hj].
    + rewrite Hdi, F4. case_decide as Hjr; [destruct Hjr as [_ ->]|].
      * rewrite mark_run_used by done. rewrite decide_True by done. tauto.
      * split; intros (? & Hr' & Hu); (split; [done|]); (split; [done|]); revert Hu;
          rewrite mark_run_used by done; rewrite decide_False by (intros ->; tauto); done.
    + rewrite Hdj by done. by rewrite decide_False by tauto.
Qed.
Lemma bin_step_trans s1 s2 s3 fl1 fl2 fl3 b b' i :
  same_bin b b' → live (pm_of s2) fl2 i →
  bin_step s1 s2 fl1 fl2 b i → bin_step s2 s3 fl2 fl3 b' i → bin_step s1 s3 fl1 fl3 b i.
Proof.
  intros Hsb Hl [Hs Hb1 Hb2 Hl1 Hd1] [Hs' Hb1' Hb2' Hl2 Hd2]. constructor; try done.
  - by eapply same_pool_trans.
  - intros Hl3. eapply in_bin_same; [exact Hsb|]. by apply Hb2'.
  - intros j Hj. by rewrite Hl2, Hl1.
  - intros j Hj. by rewrite Hd2, Hd1.
Qed.

Lemma set_rbin_delete b r i e : rbin (set_rbin r (delete i (rbin b r)) b) r !! e =
  if decide (i = e) then None else rbin b r !! e.
Proof.
  rewrite rbin_set, decide_True by done. case_decide as Hd.
  - subst. apply lookup_delete_eq.
  - by apply lookup_delete_ne.
Qed.

(** The end of [srun_acquire] and [mrun_acquire]: a run of the selected extent
    has been marked, and the extent leaves the map if it was the last. *)
Lemma take_run s s1 s2 fl fl1 ml1 b b1 i rid recover (full : bool) :
  pool_inv s1 fl1 ml1 → selected s s1 fl fl1 b b1 i recover →
  0 ≤ rid < ed_count (desc_of (pm_of s1) i) → run_used (desc_of (pm_of s1) i) rid = false →
  marked s1 s2 ml1 i rid true → (if full then ¬ half_free (pm_of s2) i else half_free (pm_of s2) i) →
  pool_inv s2 fl1 ml1 ∧
  run_taken s s2 fl fl1 b
    (if full then set_rbin recover (delete (ext_at s i) (rbin b1 recover)) b1 else b1)
    (ext_at s i + rid * rbin_rsize b) i rid.
Proof.
  intros Hp [Hst Hb1 Hsb Hl Hf He Hbusy _ _ Hsd _] Hr Hu Hmk Hfull.
  assert (in_bin (pm_of s1) b i) as Hin by (by apply (bs_after _ _ _ _ _ _ Hst)).
  assert (in_bin (pm_of s1) b1 i) as Hin1 by (by apply (in_bin_same _ b)).
  destruct (marked_ok s1 s2 fl1 ml1 b1 i rid true Hp Hb1 Hl Hin1 Hr Hmk) as (Hp2 & Hst2 & Hd2 & Hbusy2).
  destruct (same_pool_addr s s1 i 0 (bs_same _ _ _ _ _ _ Hst)) as (Ea & _ & Ee).
  assert (live (pm_of s2) fl1 i) as Hl2.
  { destruct Hmk as [_ Hh Hm _ _ _]. unfold live, cur_meta, meta_at. by rewrite Hh, Hm. }
  pose proof (inv_live _ _ _ (pi_ext _ _ _ Hp) i Hl) as (_ & Hct & _).
  assert (¬ busy (pm_of s1) fl1 i rid) as Hnb by (intros (_ & _ & Hb); congruence).
  split; [done|]. constructor; try done.
  - exact (bin_step_trans s s1 s2 fl fl1 fl1 b b1 i Hsb Hl Hst Hst2).
  - rewrite <-Ee. eapply rbin_inv_step; [exact Hst2|exact Hb1|by destruct full, recover|..].
    + intros r e Hne. destruct full; [|done]. destruct (decide (r = recover)) as [->|Hrr].
      * rewrite set_rbin_delete. by rewrite decide_False by done.
      * by rewrite rbin_set, decide_False by done.
    + assert (rbin b1 (negb recover) !! ext_at s1 i = None) as Hn.
      { rewrite Ee. destruct (ri_disj _ _ _ Hb1 (ext_at s i)); destruct recover; simpl in *; congruence. }
      destruct full.
      * right. split; [|done]. intros r.
        destruct (decide (r = recover)) as [->|Hrr].
        -- rewrite set_rbin_delete. by rewrite decide_True.
        -- rewrite rbin_set, decide_False by done. by destruct r, recover.
      * left. exists recover. split; [done|]. split; [done|]. split; [by rewrite Ee, Ea|done].
  - destruct full; [|done]. eapply same_bin_trans; [exact Hsb|apply same_bin_set].
  - destruct Hin as (_ & _ & <-). by rewrite <-Hct.
  - by rewrite <-Hbusy.
  - intros j r. rewrite Hbusy2. case_decide as Hjr; [tauto|]. rewrite Hbusy. tauto.
  - intros Hli. rewrite Hd2, <-(Hsd Hli). apply mark_run_static.
Qed.

Lemma take_run_other s s1 fl fl1 b b1 i recover (full : bool) :
  selected s s1 fl fl1 b b1 i recover →
  rbin (if full then set_rbin recover (delete (ext_at s i) (rbin b1 recover)) b1 else b1) (negb recover) =
    rbin b (negb recover).
Proof. intros Hsel. rewrite <-(sel_other _ _ _ _ _ _ _ _ Hsel). destruct full; [apply set_rbin_other|done]. Qed.

(** *** The number of regions in a run *)

Lemma small_counts_checked :
  forallb (λ rsize, forallb (small_count_check rsize) (seqZ 4 (kMaxSmallSize - 3)))
    (take 3 kRunSizeTab) = true.
Proof. vm_compute. reflexivity. Qed.

(** Eight iterations suffice for every region size the small runs serve. *)
Lemma small_region_counts rsize size :
  small_rsize rsize → 4 ≤ size ≤ kMaxSmallSize →
  ∃ c, small_count_loop 8 rsize size (rsize / size) = Some c ∧ small_fits rsize size c.
Proof.
  intros Hr Hs. pose proof small_counts_checked as Hall. rewrite forallb_forall in Hall.
  apply list_elem_of_In in Hr. specialize (Hall _ Hr). rewrite forallb_forall in Hall.
  assert (In size (seqZ 4 (kMaxSmallSize - 3))) as Hin.
  { apply list_elem_of_In, elem_of_seqZ. lia. }
  specialize (Hall _ Hin). unfold small_count_check in Hall.
  destruct (small_count_loop 8 rsize size (rsize / size)) as [c|]; [|done].
  exists c. split; [done|]. bool_split. unfold small_fits. lia.
Qed.

(** After the first free run [rid] has been taken, the search from [n <= rid] on
    tells whether another one is left. *)
Lemma still_free d rid n r' :
  (∀ j, 0 ≤ j < rid → run_used d j = true) → wf_desc d → ed_type d = kSmall ∨ ed_type d = kMedium →
  0 ≤ rid < ed_count d → 0 ≤ n ≤ rid → n ≤ r' ≤ ed_count d →
  let d' := mark_run rid true d in
  (∀ j, n ≤ j < r' → run_used d' j = true) → (r' < ed_count d' → run_used d' r' = false) →
  if r' =? ed_count d' then ¬ ∃ j, 0 ≤ j < ed_count d' ∧ run_used d' j = false
  else ∃ j, 0 ≤ j < ed_count d' ∧ run_used d' j = false.
Proof.
  intros Hb Hwf Ht Hr Hn Hr' d' Ha Hf. destruct (mark_run_fields d rid true) as (_ & _ & _ & F4 & _).
  subst d'. rewrite F4 in *. destruct (Z.eqb_spec r' (ed_count d)) as [->|Hne].
  - intros (j & Hj & Hu). destruct (Z.lt_ge_cases j n) as [Hlt|Hge].
    + rewrite mark_run_used in Hu by done. case_decide; [done|]. rewrite Hb in Hu by lia. done.
    + rewrite Ha in Hu by lia. done.
  - exists r'. split; [lia|]. apply Hf. lia.
Qed.

(** *** [srun_acquire] *)

Lemma selected_desc s s' fl fl' ml' b b' i recover :
  pool_inv s' fl' ml' → selected s s' fl fl' b b' i recover →
  let d := desc_at (pm_of s') (ext_addr (pm_of s) i) in
  d = desc_of (pm_of s') i ∧ wf_desc d ∧ ed_type d = rbin_type b ∧ ed_size d = rbin_rsize b ∧
  half_free (pm_of s') i ∧ 0 ≤ i < ext_total_ (pm_head (pm_of s')) ∧
  ext_addr (pm_of s) i mod 64 = 0.
Proof.
  intros Hp [Hst Hb Hsb Hl Hf He _ _ _ _ _] d. pose proof (pi_ext _ _ _ Hp) as Hinv.
  destruct (same_pool_addr s s' i 0 (bs_same _ _ _ _ _ _ Hst)) as (Ea & _).
  assert (d = desc_of (pm_of s') i) as -> by (subst d; unfold desc_of; by rewrite Ea).
  destruct (bs_after _ _ _ _ _ _ Hst Hl) as (Ht & Hrc & Hsz).
  pose proof (inv_live _ _ _ Hinv i Hl) as Hwf. pose proof (live_range s' fl' ml' i Hp Hl).
  destruct (ext_addr_wf (pm_of s') i (inv_head _ _ _ Hinv)) as (_ & Ha & _); [done|].
  rewrite <-Ea. split; [done|]. split; [exact Hwf|]. split; [done|]. split; [done|]. by split.
Qed.

(** The first free run of the selected extent. *)
Lemma first_free p i d rid :
  d = desc_of p i → half_free p i → rid ≤ ed_count d →
  (∀ j, 0 ≤ j < rid → run_used d j = true) → rid < ed_count d.
Proof.
  intros -> (j & Hj & Hf) Hr Hb. destruct (Z.lt_ge_cases rid (ed_count (desc_of p i))); [done|].
  rewrite Hb in Hf by lia. done.
Qed.

(** The states of [srun_acquire] and [mrun_acquire]: the metadata [g] of the run
    is written, then the run is marked. *)
Lemma take_run' s p1 lg1 f r fl fl1 ml1 b b1 i rid recover (g : pmem → pmem) lg2 n r' :
  let s1 := {| es_pst := {| mem := p1; log := lg1 |}; es_file := f; es_recs := r |} in
  let a := ext_addr (pm_of s) i in
  let d := desc_at p1 a in
  let s2 := {| es_pst := {| mem := upd_desc a (mark_run rid true) (g p1); log := lg2 |};
               es_file := f; es_recs := r |} in
  pool_inv s1 fl1 ml1 → selected s s1 fl fl1 b b1 i recover →
  0 ≤ rid < ed_count d → (∀ j, 0 ≤ j < rid → run_used d j = true) → run_used d rid = false →
  pm_head (g p1) = pm_head p1 → pm_meta (g p1) = pm_meta p1 → pm_desc (g p1) = pm_desc p1 →
  (∀ j, j ∈ ml1 → mm_next (med_at (g p1) (slot_addr p1 j)) = mm_next (med_at p1 (slot_addr p1 j))) →
  (∀ a, lenZ (mm_tokens (med_at (g p1) a)) = 51) →
  0 ≤ n ≤ rid → n ≤ r' ≤ ed_count d →
  (∀ j, n ≤ j < r' → run_used (mark_run rid true d) j = true) →
  (r' < ed_count (mark_run rid true d) → run_used (mark_run rid true d) r' = false) →
  pool_inv s2 fl1 ml1 ∧ ext_at s2 i = ext_at s i ∧
  run_taken s s2 fl fl1 b
    (if r' =? ed_count (mark_run rid true d)
     then set_rbin recover (delete (ext_at s i) (rbin b1 recover)) b1 else b1)
    (ext_at s i + rid * rbin_rsize b) i rid.
Proof.
  intros s1 a d s2 Hp1 Hsel Hr Hb Hf Gh Gm Gd Gn Gt Hn Hr' Ha' Hf'.
  destruct (selected_desc _ _ _ _ _ _ _ _ _ Hp1 Hsel) as (Ed & Hwf & Edt & _).
  change (desc_at (pm_of s1) (ext_addr (pm_of s) i)) with d in Ed, Hwf, Edt.
  destruct (same_pool_addr _ _ i 0 (bs_same _ _ _ _ _ _ (sel_step _ _ _ _ _ _ _ _ Hsel))) as (Ea & _ & Ee).
  assert (ed_type d = kSmall ∨ ed_type d = kMedium) as Hty.
  { rewrite Edt. destruct (sel_bin _ _ _ _ _ _ _ _ Hsel) as (_ & <- & _).
    apply (ri_type _ _ _ (sel_inv _ _ _ _ _ _ _ _ Hsel)). }
  assert (∀ x, desc_at (g p1) x = desc_at p1 x) as Gd' by (intros x; unfold desc_at; by rewrite Gd).
  assert (marked s1 s2 ml1 i rid true) as Hmk.
  { constructor; try done. intros x. change (pm_of s1) with p1 in *. rewrite Ea. fold a.
    change (pm_of s2) with (upd_desc a (mark_run rid true) (g p1)).
    destruct (decide (x = a)) as [->|Hne]; [by rewrite !desc_at_upd_eq, Gd'|].
    by rewrite !desc_at_upd_ne, Gd'. }
  destruct (take_run s s1 s2 fl fl1 ml1 b b1 i rid recover (r' =? ed_count (mark_run rid true d)) Hp1 Hsel)
    as (Hp2 & Htk); [by rewrite <-Ed|by rewrite <-Ed|done| |].
  - pose proof (still_free d rid n r' Hb Hwf Hty Hr Hn Hr' Ha' Hf') as Hs. cbv zeta in Hs.
    assert (desc_of (pm_of s2) i = mark_run rid true d) as Edo.
    { destruct Hmk as [_ Mh _ Md _ _]. assert (ext_addr (pm_of s2) i = a) as Ea2.
      { unfold a. rewrite <-Ea. unfold ext_addr. by rewrite Mh. }
      unfold desc_of. rewrite Ea2, Md, Ea. fold a. by rewrite desc_at_upd_eq. }
    unfold half_free. by rewrite Edo.
  - split; [done|]. by split.
Qed.

Lemma wp_prealloc s fl ml i off len Q :
  pool_inv s fl ml → 0 ≤ i < ext_total_ (pm_head (pm_of s)) → 0 ≤ off → 0 ≤ len →
  off + len ≤ kExtentSize → off mod kPageSize = 0 → len mod kPageSize = 0 →
  Q tt s → wp (physical_space_alloc (ext_at s i + off) len) Q s.
Proof.
  intros Hp Hi Ho Hl Hol Hom Hlm HQ. unfold physical_space_alloc. wp_step. wp_step. wp_step.
  eapply wp_pure; [by apply (physical_range_ok _ _ i off len s (pi_file _ _ _ Hp))|]. by wp_step.
Qed.

Lemma wp_srun_acquire s fl ml b arena size (recover : bool) Q :
  pool_inv s fl ml → rbin_inv s fl b → rbin_type b = kSmall → small_rsize (rbin_rsize b) →
  4 ≤ size ≤ kMaxSmallSize → 0 ≤ arena < 2 ^ 16 →
  (fl = [] → ext_used (cur_meta (pm_of s)) = ext_total_ (pm_head (pm_of s)) →
   rbin b recover = ∅ →
     Q (b, (nullptr, nullptr))
       (if recover then set_es_recs (({[ nullptr ]} : gset Z) ∪ es_recs s) s else s)) →
  (∀ s' fl' ml' b' run i rid, pool_inv s' fl' ml' → run_taken s s' fl fl' b b' run i rid →
     fresh_small (small_at (pm_of s') run) (rbin_rsize b) arena size →
     (∀ a, a ≠ run → small_at (pm_of s') a = small_at (pm_of s) a) →
     pm_med (pm_of s') = pm_med (pm_of s) → rbin b' (negb recover) = rbin b (negb recover) →
     Q (b', (run, run)) s') →
  wp (srun_acquire b arena size recover) Q s.
Proof.
  intros Hp Hb Ht Hrs Hsz Har Hnone HQ. unfold srun_acquire. wp_step.
  wp_step; [rewrite bool_decide_true by done; apply Z.leb_le; lia|]. wp_step.
  apply (wp_select_ext s fl ml); [done|done|..].
  { intros Hfl Hu He. cbv beta iota. wp_step. by apply Hnone. }
  intros [[p1 lg1] f1 r1] fl1 ml1 b1 i alloc Hp1 Hsel. cbv beta iota.
  destruct (selected_desc _ _ _ _ _ _ _ _ _ Hp1 Hsel) as (Ed & Hwf & Edt & Eds & Hf & Hi & Hal).
  set (s1 := {| es_pst := {| mem := p1; log := lg1 |}; es_file := f1; es_recs := r1 |}) in *.
  change (pm_of s1) with p1 in *. set (a := ext_addr (pm_of s) i) in *. set (d := desc_at p1 a) in *. rewrite Ht in Edt.
  assert (0 < ed_count d) as Hct by apply Hwf.
  wp_step. wp_step; [by apply (sel_entry _ _ _ _ _ _ _ _ Hsel)|]. wp_step. apply wp_pm_ld_desc. fold a.
  change (desc_at (pm_of _) a) with d. wp_step. wp_step; [by apply bool_decide_true|].
  edestruct (locate_fsrun_ok d 0 s1) as (rid & Hrid & Hr & Hrb & Hrf); [done|done|lia|].
  change (0 / 64 * 64) with 0 in *. pose proof (first_free _ _ _ _ Ed Hf (proj2 Hr) Hrb) as Hlt.
  wp_step. eapply wp_pure; [exact Hrid|]. wp_step. wp_step; [by apply Z.ltb_lt|].
  destruct (small_region_counts (rbin_rsize b) size Hrs Hsz) as (c & Hc & Hfit).
  destruct (sel_bin _ _ _ _ _ _ _ _ Hsel) as (_ & Eb2 & Eb3). unfold small_region_count. rewrite Eb2, Eb3, Hc.
  wp_step. wp_step. wp_step; [by apply bool_decide_true|]. wp_step.
  wp_step. apply wp_pm, wp_SmallMeta_construct; [by apply Hfit|].
  intros m lg2 M1 M2 M3 _ M5 M6. set (run := ext_at s i + rid * rbin_rsize b) in *.
  wp_step. apply wp_pm, wp_palloc_srun; rewrite ?desc_at_upd_small; try done; [fold d; lia|fold d; by apply Hrf|].
  intros lg3. wp_step.
  destruct (mark_run_fields d rid true) as (F1 & F2 & F3 & F4 & F5 & F6).
  match goal with |- wp _ _ ?x => set (s2 := x) in * end. apply wp_pm_ld_desc.
  assert (desc_at (pm_of s2) a = mark_run rid true d) as ->.
  { change (pm_of s2) with (upd_desc a (mark_run rid true) (upd_small run (λ _, m) p1)).
    by rewrite desc_at_upd_eq, desc_at_upd_small. }
  edestruct (locate_fsrun_ok (mark_run rid true d) rid s2) as (r' & Hr' & Hr1' & Hrb' & Hrf');
    [apply mark_run_wf; [done|by left|lia]|congruence|rewrite F4; lia|].
  rewrite F4 in Hr1'. wp_step. eapply wp_pure; [exact Hr'|].
  edestruct (take_run' s p1 lg1 f1 r1 fl fl1 ml1 b b1 i rid recover (upd_small run (λ _, m)) lg3
    (rid / 64 * 64) r' Hp1 Hsel) as (Hp2 & Ee & Htk); try done; [fold a d; lia|by apply Hrf
    |by apply (pi_tokens _ _ _ Hp1)|Z.div_mod_to_equations; lia|].
  fold a d s2 run in Htk, Hp2, Ee. pose proof (HQ s2 fl1 ml1 _ run i rid Hp2 Htk) as HQ2.
  assert (small_at (pm_of s2) run = m) as Hm by (apply small_at_upd_eq).
  rewrite Hm in HQ2. assert (Q (if r' =? ed_count (mark_run rid true d)
    then set_rbin recover (delete (ext_at s i) (rbin b1 recover)) b1 else b1, (run, run)) s2) as HQ3.
  { apply HQ2.
    - assert (0 ≤ c < 2 ^ 16) by apply Hfit. change kMaxSmallSize with 2048 in *.
      unfold fresh_small. rewrite M1, M2, M3, M5, u32_small, !u16_small by lia. by split_and!; try apply Hfit.
    - intros x Hx. change (pm_of s2) with (upd_desc a (mark_run rid true) (upd_small run (λ _, m) p1)).
      rewrite small_at_upd_desc, small_at_upd_ne by done. unfold small_at.
      by rewrite <-(sel_small _ _ _ _ _ _ _ _ Hsel).
    - exact (sel_med _ _ _ _ _ _ _ _ Hsel).
    - exact (take_run_other _ _ _ _ _ _ _ _ _ Hsel). }
  wp_step. apply wp_when; [intros _|by intros _; wp_step].
  pose proof (wp_prealloc s2 fl1 ml1 i 0 kExtentSize) as Hpre.
  change (ext_at s2 i = ext_at s i) in Ee. rewrite Ee, Z.add_0_r in Hpre.
  apply Hpre; done.
Qed.
(** *** [mrun_acquire] *)

Lemma medium_count_ok size n fuel :
  (Z.to_nat n < fuel)%nat → 0 ≤ n →
  ∃ c, medium_count_loop fuel size n = Some c ∧ 0 ≤ c ≤ n ∧ c * size mod kPageSize = 0 ∧
    ∀ c', c < c' ≤ n → c' * size mod kPageSize ≠ 0.
Proof.
  revert n. induction fuel as [|fuel IH]; intros n Hf Hn; [lia|]. simpl.
  destruct (Z.eqb_spec (n * size mod kPageSize) 0) as [He|He]; simpl.
  - exists n. split; [done|]. split; [lia|]. split; [done|]. lia.
  - assert (n ≠ 0) by (intros ->; done).
    destruct (IH (n - 1)) as (c & Hc & Hr & Hm & Hx); [lia|lia|]. exists c.
    split; [done|]. split; [lia|]. split; [done|]. intros c' Hc'.
    destruct (decide (c' = n)) as [->|]; [done|]. apply Hx. lia.
Qed.

Lemma medium_region_counts rsize size :
  0 < rsize → medium_class rsize size →
  ∃ c, medium_count_loop (S (Z.to_nat (rsize / size))) size (rsize / size) = Some c ∧
    medium_fits rsize size c ∧ c ≤ 51.
Proof.
  intros Hr [Hs Hc]. change kMaxSmallSize with 2048 in Hs.
  assert (0 ≤ rsize / size) by (apply Z.div_pos; lia).
  destruct (medium_count_ok size (rsize / size) (S (Z.to_nat (rsize / size)))) as (c & E & Hx & Hm & Hn);
    [lia|lia|]. exists c. split; [done|]. split; [by split|]. lia.
Qed.

(** The MediumMeta of a run lies in the array of its extent, which is not free. *)
Lemma medium_meta_slot p fl ml i rid j :
  ext_inv p fl ml → live p fl i → ed_type (desc_of p i) = kMedium → 0 ≤ rid < 32 → j ∈ ml →
  slot_addr p j ≠ ed_runs (desc_of p i) + rid * sizeof_MediumMeta.
Proof.
  intros Hinv Hl Ht Hr Hj. destruct (live_slot p fl ml i Hinv Hl) as (k & _ & -> & Hk).
  { unfold is_medium. by apply bool_decide_true. }
  unfold slot_addr, elem_addr. change kCacheLineSize with 64. change sizeof_MediumMeta with 64.
  intros He. apply Hk. by replace k with j by lia.
Qed.

Lemma wp_mrun_acquire s fl ml b arena size (recover : bool) Q :
  pool_inv s fl ml → rbin_inv s fl b → rbin_type b = kMedium → medium_rsize (rbin_rsize b) →
  medium_class (rbin_rsize b) size → 0 ≤ arena < 2 ^ 16 →
  (fl = [] → ext_used (cur_meta (pm_of s)) = ext_total_ (pm_head (pm_of s)) →
   rbin b recover = ∅ →
     Q (b, (nullptr, nullptr))
       (if recover then set_es_recs (({[ nullptr ]} : gset Z) ∪ es_recs s) s else s)) →
  (∀ s' fl' ml' b' run i rid, pool_inv s' fl' ml' → run_taken s s' fl fl' b b' run i rid →
     let meta := ed_runs (desc_of (pm_of s') i) + rid * sizeof_MediumMeta in
     fresh_medium (med_at (pm_of s') meta) (rbin_rsize b) arena size →
     (∀ a, a ≠ meta → med_at (pm_of s') a = med_at (pm_of s) a) →
     pm_small (pm_of s') = pm_small (pm_of s) → rbin b' (negb recover) = rbin b (negb recover) →
     Q (b', (meta, run)) s') →
  wp (mrun_acquire b arena size recover) Q s.
Proof.
  intros Hp Hb Ht Hrs Hsz Har Hnone HQ. unfold mrun_acquire. wp_step.
  wp_step; [by apply bool_decide_true|]. wp_step.
  wp_step; [apply andb_true_iff; split; [apply Z.ltb_lt|apply Z.leb_le]; apply Hsz|]. wp_step.
  apply (wp_select_ext s fl ml); [done|done|..].
  { intros Hfl Hu He. cbv beta iota. wp_step. by apply Hnone. }
  intros [[p1 lg1] f1 r1] fl1 ml1 b1 i alloc Hp1 Hsel. cbv beta iota.
  destruct (selected_desc _ _ _ _ _ _ _ _ _ Hp1 Hsel) as (Ed & Hwf & Edt & Eds & Hf & Hi & Hal).
  set (s1 := {| es_pst := {| mem := p1; log := lg1 |}; es_file := f1; es_recs := r1 |}) in *.
  change (pm_of s1) with p1 in *. set (a := ext_addr (pm_of s) i) in *. set (d := desc_at p1 a) in *.
  rewrite Ht in Edt. assert (0 < ed_count d) as Hct by apply Hwf.
  wp_step. wp_step; [by apply (sel_entry _ _ _ _ _ _ _ _ Hsel)|]. wp_step. apply wp_pm_ld_desc. fold a.
  change (desc_at (pm_of _) a) with d. wp_step. wp_step; [by apply bool_decide_true|].
  edestruct (locate_fmrun_ok d 0 s1) as (rid & Hrid & Hr & Hrb & Hrf); [done|done|lia|].
  pose proof (first_free _ _ _ _ Ed Hf (proj2 Hr) Hrb) as Hlt.
  wp_step. eapply wp_pure; [exact Hrid|]. wp_step. wp_step; [by apply Z.ltb_lt|].
  destruct (medium_region_counts (rbin_rsize b) size) as (c & Hc & Hfit & Hc51);
    [by rewrite <-Eds; apply Hwf|done|].
  destruct (sel_bin _ _ _ _ _ _ _ _ Hsel) as (_ & Eb2 & Eb3). unfold medium_region_count. rewrite Eb2, Eb3, Hc.
  wp_step. wp_step. wp_step; [by apply bool_decide_true|]. wp_step.
  set (meta := ed_runs d + rid * sizeof_MediumMeta). set (run := ext_at s i + rid * rbin_rsize b).
  wp_step. apply wp_pm, wp_MediumMeta_construct; [split; [apply Hfit|done]|apply (pi_tokens _ _ _ Hp1)|].
  intros m lg2 M1 M2 M3 _ M5 M6 M7.
  wp_step. apply wp_pm, wp_palloc_mrun; rewrite ?desc_at_upd_med; try done; [fold d; lia|fold d; by apply Hrf|].
  intros lg3. wp_step.
  destruct (mark_run_fields d rid true) as (F1 & F2 & F3 & F4 & F5 & F6).
  match goal with |- wp _ _ ?x => set (s2 := x) in * end. apply wp_pm_ld_desc.
  change (pm_of s2) with (upd_desc a (mark_run rid true) (upd_med meta (λ _, m) p1)).
  rewrite desc_at_upd_eq, desc_at_upd_med. fold d.
  edestruct (locate_fmrun_ok (mark_run rid true d) rid s2) as (r' & Hr' & Hr1' & Hrb' & Hrf');
    [apply mark_run_wf; [done|by right|lia]|congruence|rewrite F4; lia|].
  rewrite F4 in Hr1'. wp_step. eapply wp_pure; [exact Hr'|].
  assert (∀ j, j ∈ ml1 → slot_addr p1 j ≠ meta) as Hslot.
  { intros j Hj. subst meta. rewrite Ed. destruct (wf_medium d Hwf Edt) as (_ & _ & _ & _ & Hc32).
    apply (medium_meta_slot p1 fl1 ml1); [exact (pi_ext _ _ _ Hp1)|exact (sel_live _ _ _ _ _ _ _ _ Hsel)|by rewrite <-Ed|lia|done]. }
  edestruct (take_run' s p1 lg1 f1 r1 fl fl1 ml1 b b1 i rid recover (upd_med meta (λ _, m)) lg3
    rid r' Hp1 Hsel) as (Hp2 & Ee & Htk); try done; [fold a d; lia|by apply Hrf
    |intros j Hj; by rewrite med_at_upd_ne by (intros He; by apply (Hslot j))
    |intros x; destruct (decide (meta = x)) as [<-|]; [by rewrite med_at_upd_eq|];
     rewrite med_at_upd_ne by done; by apply (pi_tokens _ _ _ Hp1)|lia|].
  fold a d s2 run in Htk, Hp2, Ee. pose proof (HQ s2 fl1 ml1 _ run i rid Hp2 Htk) as HQ2. cbv zeta in HQ2.
  destruct (same_pool_addr _ _ i 0 (bs_same _ _ _ _ _ _ (sel_step _ _ _ _ _ _ _ _ Hsel))) as (Ea & _).
  assert (desc_of (pm_of s2) i = mark_run rid true d) as Ed2.
  { unfold desc_of. change (ext_addr (pm_of s2) i) with (ext_addr (pm_of s1) i). rewrite Ea. fold a.
    change (pm_of s2) with (upd_desc a (mark_run rid true) (upd_med meta (λ _, m) p1)).
    by rewrite desc_at_upd_eq, desc_at_upd_med. }
  rewrite Ed2, F6 in HQ2. fold meta in HQ2.
  assert (med_at (pm_of s2) meta = m) as Hm by (apply med_at_upd_eq). rewrite Hm in HQ2.
  assert (Q (if r' =? ed_count (mark_run rid true d)
    then set_rbin recover (delete (ext_at s i) (rbin b1 recover)) b1 else b1, (meta, run)) s2) as HQ3.
  { apply HQ2.
    - destruct Hsz as [Hsz _]. change kMaxSmallSize with 2048 in *. change kMaxMediumSize with 65536 in *.
      assert (0 ≤ c) by apply Hfit. unfold fresh_medium.
      rewrite M1, M2, M3, M5, u32_small, !u16_small by lia.
      split; [done|]. split; [done|]. split; [exact Hfit|]. by split.
    - intros x Hx. change (pm_of s2) with (upd_desc a (mark_run rid true) (upd_med meta (λ _, m) p1)).
      rewrite med_at_upd_desc, med_at_upd_ne by done. unfold med_at.
      by rewrite <-(sel_med _ _ _ _ _ _ _ _ Hsel).
    - exact (sel_small _ _ _ _ _ _ _ _ Hsel).
    - exact (take_run_other _ _ _ _ _ _ _ _ _ Hsel). }
  wp_step. subst run. change (ext_at s2 i = ext_at s i) in Ee.
  pose proof (wp_prealloc s2 fl1 ml1 i (rid * rbin_rsize b) (rbin_rsize b)) as Hpre. rewrite Ee in Hpre.
  destruct (rt_bin _ _ _ _ _ _ _ _ _ Htk) as (_ & _ & ->). pose proof (rt_range _ _ _ _ _ _ _ _ _ Htk) as Hrg.
  assert (rbin_rsize b = 131072 ∨ rbin_rsize b = 262144 ∨ rbin_rsize b = 524288) as Hcase.
  { unfold medium_rsize in Hrs. cbn in Hrs. set_solver. }
  change kExtentSize with 4194304 in *. change kPageSize with 4096 in *.
  apply Hpre; try done; destruct Hcase as [Ec|[Ec|Ec]]; rewrite Ec in *;
    Z.div_mod_to_equations; lia.
Qed.

(** *** [srun_release], [mrun_release] *)

(** A free extent is given back to the extent case. *)
Lemma give_extent s s2 s3 fl ml ml' b b1 i rid recover :
  run_returned s s2 fl fl b b1 i rid → live (pm_of s2) fl i → in_bin (pm_of s2) b i →
  rbin b1 (negb recover) !! ext_at s i = None →
  (∀ r, ¬ busy (pm_of s2) fl i r) → ext_released s2 s3 fl ml ml' i →
  run_returned s s3 fl (i :: fl) b (set_rbin recover (delete (ext_at s i) (rbin b1 recover)) b1) i rid.
Proof.
  intros [Hst Hb1 Hsb Hbusy Hsm Hstat Hmd] Hl2 Hin2 Hn Hnb [Hp3 Hs Hlv Hfr Hmed Hsm3 Hre].
  destruct (same_pool_addr s s2 i 0 (bs_same _ _ _ _ _ _ Hst)) as (_ & _ & Ee).
  assert (∀ j, j ≠ i → desc_of (pm_of s3) j = desc_of (pm_of s2) j) as Hdj.
  { intros j Hj. unfold desc_of. destruct (same_pool_addr s2 s3 j 0 Hs) as (-> & _).
    apply Hfr. intros He. by apply ext_addr_inj in He. }
  assert (bin_step s2 s3 fl (i :: fl) b1 i) as Hst3.
  { constructor; [done| | |by intros j Hj; rewrite Hlv; tauto|done].
    - intros _. by apply (in_bin_same _ b).
    - intros Hl3. by apply Hlv in Hl3 as [? _]. }
  constructor.
  - exact (bin_step_trans s s2 s3 fl fl (i :: fl) b b1 i Hsb Hl2 Hst Hst3).
  - rewrite <-Ee in *. eapply rbin_inv_step; [exact Hst3|done|apply same_bin_set|..].
    + intros r e Hne. destruct (decide (r = recover)) as [->|Hr].
      * rewrite set_rbin_delete. by rewrite decide_False by done.
      * by rewrite rbin_set, decide_False by done.
    + right. split.
      * intros r. destruct (decide (r = recover)) as [->|Hr].
        -- rewrite set_rbin_delete. by rewrite decide_True by done.
        -- rewrite rbin_set, decide_False by done. by destruct r, recover.
      * intros Hl3. by apply Hlv in Hl3 as [? _].
  - eapply same_bin_trans; [exact Hsb|apply same_bin_set].
  - intros j r. rewrite <-Hbusy. unfold busy. rewrite Hlv. destruct (decide (j = i)) as [->|Hj].
    + split; [tauto|]. intros Hb. by destruct (Hnb r).
    + rewrite Hdj by done. tauto.
  - by rewrite Hsm3.
  - intros Hl3. by apply Hlv in Hl3 as [? _].
  - destruct (Hstat Hl2) as (Et & _ & _ & _ & Er).
    assert (is_medium (pm_of s2) i = is_medium (pm_of s) i) as Em by (unfold is_medium; by rewrite Et).
    assert (¬ live (pm_of s3) (i :: fl) i) as Hn3 by (intros Hl3; by apply Hlv in Hl3 as [? _]).
    intros a. destruct (Hmd a) as [<-|(? & ? & ?)]; [|done].
    destruct (is_medium (pm_of s) i) eqn:E; [|left; apply Hmed; by left].
    destruct (decide (a = ed_runs (desc_of (pm_of s) i))) as [->|Ha]; [by right|].
    left. apply Hmed. right. by rewrite Er.
Qed.

(** An extent that was fully used and has lost one run still has another one. *)
Lemma other_run s fl ml b i rid :
  pool_inv s fl ml → rbin_inv s fl b → live (pm_of s) fl i → in_bin (pm_of s) b i →
  ¬ half_free (pm_of s) i →
  ∃ r, r ≠ rid ∧ 0 ≤ r < ed_count (desc_of (pm_of s) i) ∧ run_used (desc_of (pm_of s) i) r = true.
Proof.
  intros Hp Hb Hl Hin Hnf. destruct (inv_live _ _ _ (pi_ext _ _ _ Hp) i Hl) as (Hs & Hc & _).
  pose proof (ri_half _ _ _ Hb) as Hh. destruct Hin as (_ & _ & Hsz). rewrite <-Hsz in Hh.
  assert (2 ≤ ed_count (desc_of (pm_of s) i)) by (rewrite Hc; apply Z.div_le_lower_bound; lia).
  assert (∀ r, 0 ≤ r < ed_count (desc_of (pm_of s) i) → run_used (desc_of (pm_of s) i) r = true) as Ha.
  { intros r Hr. destruct (run_used (desc_of (pm_of s) i) r) eqn:E; [done|]. destruct Hnf. by exists r. }
  destruct (decide (rid = 0)) as [->|].
  - exists 1. split; [done|]. split; [lia|]. apply Ha. lia.
  - exists 0. split; [done|]. split; [lia|]. apply Ha. lia.
Qed.

(** The run address and what the code computes from it. *)
Lemma run_address s fl ml b i rid :
  pool_inv s fl ml → rbin_inv s fl b → live (pm_of s) fl i → in_bin (pm_of s) b i →
  0 ≤ rid < ed_count (desc_of (pm_of s) i) →
  0 < rbin_rsize b ∧ 0 ≤ rid * rbin_rsize b < kExtentSize ∧
  (ext_at s i + rid * rbin_rsize b) mod rbin_rsize b = 0 ∧
  (ext_at s i + rid * rbin_rsize b - ext_at s i) / rbin_rsize b = rid ∧
  rounddown (ext_at s i + rid * rbin_rsize b) kExtentSize = ext_at s i.
Proof.
  intros Hp Hb Hl (_ & _ & Esz) Hr. pose proof (live_range s fl ml i Hp Hl) as Hi.
  destruct (inv_live _ _ _ (pi_ext _ _ _ Hp) i Hl) as (Hs0 & Hct & _). rewrite Esz in Hs0, Hct.
  pose proof (ri_req _ _ _ Hb) as (_ & Hrs & Hmod & _).
  assert (0 ≤ rid * rbin_rsize b < kExtentSize) as Hoff.
  { pose proof (Z.mul_div_le kExtentSize (rbin_rsize b) Hs0). split; [nia|].
    apply Z.lt_le_trans with (ed_count (desc_of (pm_of s) i) * rbin_rsize b); nia. }
  split_and!; [lia|lia|lia| | |].
  - rewrite Z.mod_add by lia. pose proof (ext_base_aligned _ _ i (pi_file _ _ _ Hp)) as Ha.
    apply Z.mod_divide; [lia|]. apply Z.divide_trans with kExtentSize; apply Z.mod_divide; done || lia.
  - rewrite Z.add_simpl_l. apply Z.div_mul. lia.
  - apply (rounddown_ext _ _ i _ (pi_file _ _ _ Hp)); [lia|done].
Qed.

(** The bin after the run has been returned, before a free extent is given back. *)
Lemma return_run s s2 fl ml b i rid recover :
  pool_inv s fl ml → rbin_inv s fl b → in_bin (pm_of s) b i → busy (pm_of s) fl i rid →
  rbin b (negb recover) !! ext_at s i = None → marked s s2 ml i rid false →
  pm_small (pm_of s2) = pm_small (pm_of s) → pm_med (pm_of s2) = pm_med (pm_of s) →
  let b1 := if decide (ext_at s i ∈ dom (rbin b recover)) then b
            else set_rbin recover (<[ext_at s i := ext_addr (pm_of s) i]> (rbin b recover)) b in
  pool_inv s2 fl ml ∧ run_returned s s2 fl fl b b1 i rid ∧
  rbin b1 recover !! ext_at s i = Some (ext_addr (pm_of s) i) ∧
  rbin b1 (negb recover) !! ext_at s i = None.
Proof.
  intros Hp Hb Hin (Hl & Hr & Hu) Hother Hmk Hsm Hmed b1.
  destruct (marked_ok s s2 fl ml b i rid false Hp Hb Hl Hin Hr Hmk) as (Hp2 & Hst & Hd2 & Hbusy).
  pose proof (inv_live _ _ _ (pi_ext _ _ _ Hp) i Hl) as Hwf.
  destruct (mark_run_fields (desc_of (pm_of s) i) rid false) as (_ & _ & _ & F4 & _).
  assert (half_free (pm_of s2) i) as Hf2.
  { exists rid. rewrite Hd2, F4. split; [done|]. rewrite mark_run_used; [by rewrite decide_True|done| |done|done].
    destruct Hin as (-> & _). apply (ri_type _ _ _ Hb). }
  assert (rbin b1 recover !! ext_at s i = Some (ext_addr (pm_of s) i)) as He.
  { subst b1. case_decide as Hd.
    - apply (map_entry s fl ml b recover i Hp (ri_map _ _ _ Hb _)). by apply elem_of_dom.
    - rewrite rbin_set, decide_True by done. apply lookup_insert_eq. }
  assert (rbin b1 (negb recover) !! ext_at s i = None) as Hn.
  { subst b1. case_decide; [done|]. rewrite rbin_set, decide_False by (by destruct recover). done. }
  split; [done|]. split; [|done]. constructor; [done| | | |done| |].
  - eapply rbin_inv_step; [exact Hst|done|subst b1; by case_decide; [|apply same_bin_set]| |].
    + intros r e Hne. subst b1. case_decide; [done|]. rewrite rbin_set. case_decide; [|done]. subst r.
      by apply lookup_insert_ne.
    + left. exists recover. split; [|done]. destruct Hmk as [_ Hh Hm _ _ _]. unfold live, cur_meta, meta_at.
      by rewrite Hh, Hm.
  - subst b1. case_decide; [done|]. apply same_bin_set.
  - intros j r. rewrite Hbusy. case_decide; naive_solver.
  - intros _. rewrite Hd2. apply mark_run_static.
  - intros a. left. unfold med_at. by rewrite Hmed.
Qed.

Lemma wp_run_release busyf pdealloc s fl ml b i rid recover Q :
  (∀ d (s : ext_st), wf_desc d → ed_type d = rbin_type b → ∃ v, busyf d s = Ok v s ∧
     (v = true ↔ ∃ rid, 0 ≤ rid < ed_count d ∧ run_used d rid = true)) →
  (∀ this rid (Q : unit → pst → Prop) p lg, let d := desc_at p this in
     wf_desc d → ed_type d = rbin_type b → 0 ≤ rid < ed_count d → run_used d rid = true →
     (∀ lg, Q tt {| mem := upd_desc this (mark_run rid false) p; log := lg |}) →
     wp (pdealloc this rid) Q {| mem := p; log := lg |}) →
  pool_inv s fl ml → rbin_inv s fl b → in_bin (pm_of s) b i → busy (pm_of s) fl i rid →
  rbin b (negb recover) !! ext_at s i = None →
  (∀ s' fl' ml' b', pool_inv s' fl' ml' → run_returned s s' fl fl' b b' i rid →
     rbin b' (negb recover) = rbin b (negb recover) → Q b' s') →
  wp (run_release busyf pdealloc b (ext_at s i + rid * rbin_rsize b) true recover) Q s.
Proof.
  intros Hbf Hpd Hp Hb Hin Hbs Hother HQ. pose proof Hbs as (Hl & Hr & Hu). unfold run_release.
  pose proof (inv_live _ _ _ (pi_ext _ _ _ Hp) i Hl) as Hwf.
  pose proof (live_range s fl ml i Hp Hl) as Hi. pose proof Hin as (Et & Erc & Esz).
  destruct (run_address s fl ml b i rid Hp Hb Hl Hin Hr) as (Hs0 & Hoff & Hmod & Hdiv & Hrd).
  wp_step. wp_step; [done|]. wp_step. apply (wp_descriptor s fl ml); [done|done|done|].
  wp_step. apply wp_pm_ld_desc. fold (desc_of (pm_of s) i).
  rewrite (proj2 (Z.eqb_neq (rbin_rsize b) 0)) by lia.
  wp_step. wp_step; [by rewrite Hmod, Esz, Z.eqb_refl|].
  wp_step. wp_step; [by rewrite Et, Erc, bool_decide_true, Z.eqb_refl|].
  cbv zeta. rewrite !Hrd.
  set (b1 := match (if decide (ext_at s i ∈ dom (rbin b recover)) then Some (ext_at s i) else None) with
             | Some _ => b | None => _ end).
  assert (b1 = if decide (ext_at s i ∈ dom (rbin b recover)) then b
    else set_rbin recover (<[ext_at s i := ext_addr (pm_of s) i]> (rbin b recover)) b) as Eb1
    by (subst b1; by case_decide).
  assert (rbin_rsize b1 = rbin_rsize b) as -> by (rewrite Eb1; case_decide; [|destruct recover]; done).
  assert (rbin b1 (negb recover) = rbin b (negb recover)) as Hob
    by (rewrite Eb1; case_decide; [done|apply set_rbin_other]).
  clearbody b1. rewrite Hdiv. cbn [mwhen]. wp_step. apply wp_pm. destruct s as [[p lg] f recs].
  set (s := {| es_pst := {| mem := p; log := lg |}; es_file := f; es_recs := recs |}) in *.
  change (es_pst s) with {| mem := p; log := lg |}. change (pm_of s) with p in *.
  apply Hpd; [done|done|done|done|]. intros lg2.
  match goal with |- wp _ _ ?x => set (s2 := x) in * end.
  assert (marked s s2 ml i rid false) as Hmk by (constructor; try done; apply (pi_tokens _ _ _ Hp)).
  destruct (return_run s s2 fl ml b i rid recover Hp Hb Hin Hbs Hother Hmk eq_refl eq_refl)
    as (Hp2 & Hrr & He1 & Hn1). change (pm_of s) with p in *. rewrite <-Eb1 in *.
  assert (desc_at (pm_of s2) (ext_addr p i) = mark_run rid false (desc_of p i)) as Hd2.
  { change (pm_of s2) with (upd_desc (ext_addr p i) (mark_run rid false) p). apply desc_at_upd_eq. }
  destruct (mark_run_fields (desc_of p i) rid false) as (F1 & _ & _ & F4 & _).
  assert (ed_type (desc_of p i) = kSmall ∨ ed_type (desc_of p i) = kMedium) as Hty
    by (rewrite Et; apply (ri_type _ _ _ Hb)).
  wp_step. apply wp_pm_ld_desc. rewrite Hd2.
  destruct (Hbf (mark_run rid false (desc_of p i)) s2) as (v & Hv & Hvt);
    [by apply mark_run_wf|by rewrite F1|].
  wp_step. eapply wp_pure; [exact Hv|].
  destruct (negb v && _) eqn:E.
  - apply andb_true_iff in E as [Hvf%negb_true_iff _]. subst v.
    case_decide as Hdom.
    + wp_step. wp_step; [done|]. wp_step. wp_step; [by rewrite Z.eqb_refl|].
      wp_step. assert (live (pm_of s2) fl i) as Hl2 by done.
      apply (wp_ext_release s2 fl ml i); [done|done|]. intros s3 ml' Her. wp_step.
      assert (∀ r, ¬ busy (pm_of s2) fl i r) as Hnb.
      { intros r (_ & Hr2 & Hu2). assert (false = true) as [=]. apply Hvt. exists r. by rewrite <-Hd2. }
      apply (HQ s3 (i :: fl) ml'); [apply Her| |by rewrite set_rbin_other].
      apply (give_extent s s2 s3 fl ml ml' b b1 i rid recover); try done.
      by apply (bs_after _ _ _ _ _ _ (rr_step _ _ _ _ _ _ _ _ Hrr)).
    + exfalso. destruct (other_run s fl ml b i rid Hp Hb Hl Hin) as (r & Hne & Hr' & Hu').
      { intros Hf. destruct (ri_all _ _ _ Hb i Hl Hin Hf) as [Ha|Ha];
          apply elem_of_dom in Ha; destruct recover; simpl in *;
          [done|apply elem_of_dom in Ha as [? Ha]; congruence|apply elem_of_dom in Ha as [? Ha]; congruence|done]. }
      assert (false = true) as [=]. apply Hvt. exists r. rewrite F4. split; [done|].
      rewrite mark_run_used by done. by rewrite decide_False.
  - wp_step. by apply (HQ s2 fl ml).
Qed.

(** ** Properties *)

(** C18: [RunBin::srun_acquire] terminates and passes its asserts on every bin that
    satisfies the invariant.  Either no run and no extent is left and it returns
    null, or it hands out exactly one run that was not in use: that run becomes
    busy, every other run keeps its state, the metadata of the run is initialised
    with all regions free and the metadata of the other runs is unchanged, and
    all bins keep their invariant. *)
Theorem srun_acquire_correct s fl ml b arena size (recover : bool) :
  pool_inv s fl ml → rbin_inv s fl b → rbin_type b = kSmall → small_rsize (rbin_rsize b) →
  4 ≤ size ≤ kMaxSmallSize → 0 ≤ arena < 2 ^ 16 →
  wp (srun_acquire b arena size recover) (λ r s',
    (r = (b, (nullptr, nullptr)) ∧ no_space s fl b recover) ∨
    ∃ fl' ml' b' run i rid, r = (b', (run, run)) ∧ pool_inv s' fl' ml' ∧
      run_taken s s' fl fl' b b' run i rid ∧ other_bins s s' fl fl' b ∧
      fresh_small (small_at (pm_of s') run) (rbin_rsize b) arena size ∧
      (∀ a, a ≠ run → small_at (pm_of s') a = small_at (pm_of s) a) ∧
      pm_med (pm_of s') = pm_med (pm_of s)) s.
Proof.
  intros Hp Hb Ht Hrs Hsz Har. apply (wp_srun_acquire s fl ml); try done.
  - intros -> Hu He. left. split; [done|]. split; [done|]. intros i Hi. split; [lia|apply not_elem_of_nil].
  - intros s' fl' ml' b' run i rid Hp' Htk Hm Ho Hmed _. right. exists fl', ml', b', run, i, rid.
    split; [done|]. split; [done|]. split; [done|]. split; [|done].
    intros b2 Hne. apply (bin_step_other s s' fl fl' b b2 i); [apply Htk|done].
Qed.

(** C20: [RunBin::mrun_acquire], likewise; the metadata is the MediumMeta with the
    number of the run in the array of the extent. *)
Theorem mrun_acquire_correct s fl ml b arena size (recover : bool) :
  pool_inv s fl ml → rbin_inv s fl b → rbin_type b = kMedium → medium_rsize (rbin_rsize b) →
  medium_class (rbin_rsize b) size → 0 ≤ arena < 2 ^ 16 →
  wp (mrun_acquire b arena size recover) (λ r s',
    (r = (b, (nullptr, nullptr)) ∧ no_space s fl b recover) ∨
    ∃ fl' ml' b' run i rid, let meta := ed_runs (desc_of (pm_of s') i) + rid * sizeof_MediumMeta in
      r = (b', (meta, run)) ∧ pool_inv s' fl' ml' ∧
      run_taken s s' fl fl' b b' run i rid ∧ other_bins s s' fl fl' b ∧
      fresh_medium (med_at (pm_of s') meta) (rbin_rsize b) arena size ∧
      (∀ a, a ≠ meta → med_at (pm_of s') a = med_at (pm_of s) a) ∧
      pm_small (pm_of s') = pm_small (pm_of s)) s.
Proof.
  intros Hp Hb Ht Hrs Hsz Har. apply (wp_mrun_acquire s fl ml); try done.
  - intros -> Hu He. left. split; [done|]. split; [done|]. intros i Hi. split; [lia|apply not_elem_of_nil].
  - intros s' fl' ml' b' run i rid Hp' Htk meta Hm Ho Hsml _. right. exists fl', ml', b', run, i, rid.
    split; [done|]. split; [done|]. split; [done|]. split; [|done].
    intros b2 Hne. apply (bin_step_other s s' fl fl' b b2 i); [apply Htk|done].
Qed.

(** C19: [RunBin::srun_release] of a busy run terminates and passes its asserts,
    also when the extent was fully used and so not in the map: exactly that run
    becomes free, and an extent without busy runs is given back when the bin
    holds another one.  All bins keep their invariant. *)
Theorem srun_release_correct s fl ml b i rid recover :
  pool_inv s fl ml → rbin_inv s fl b → rbin_type b = kSmall → in_bin (pm_of s) b i →
  busy (pm_of s) fl i rid → rbin b (negb recover) !! ext_at s i = None →
  wp (srun_release b (ext_at s i + rid * rbin_rsize b) true recover) (λ b' s',
    ∃ fl' ml', pool_inv s' fl' ml' ∧ run_returned s s' fl fl' b b' i rid ∧
      other_bins s s' fl fl' b) s.
Proof.
  intros Hp Hb Ht Hin Hbs Ho. unfold srun_release. wp_step. wp_step; [by apply bool_decide_true|].
  apply (wp_run_release _ _ s fl ml); try done.
  - intros d s0 Hwf Htd. apply srun_busy_ok; congruence.
  - intros this r Q p lg d Hwf Htd. apply wp_pdealloc_srun; [done|by rewrite <-Ht].
  - intros s' fl' ml' b' Hp' Hr _. exists fl', ml'. split; [done|]. split; [done|].
    intros b2 Hne. apply (bin_step_other s s' fl fl' b b2 i); [apply Hr|done].
Qed.

(** C21: [RunBin::mrun_release], likewise. *)
Theorem mrun_release_correct s fl ml b i rid recover :
  pool_inv s fl ml → rbin_inv s fl b → rbin_type b = kMedium → in_bin (pm_of s) b i →
  busy (pm_of s) fl i rid → rbin b (negb recover) !! ext_at s i = None →
  wp (mrun_release b (ext_at s i + rid * rbin_rsize b) true recover) (λ b' s',
    ∃ fl' ml', pool_inv s' fl' ml' ∧ run_returned s s' fl fl' b b' i rid ∧
      other_bins s s' fl fl' b) s.
Proof.
  intros Hp Hb Ht Hin Hbs Ho. unfold mrun_release. wp_step. wp_step; [by apply bool_decide_true|].
  apply (wp_run_release _ _ s fl ml); try done.
  - intros d s0 Hwf Htd. apply mrun_busy_ok; congruence.
  - intros this r Q p lg d Hwf Htd. apply wp_pdealloc_mrun; [done|by rewrite <-Ht].
  - intros s' fl' ml' b' Hp' Hr _. exists fl', ml'. split; [done|]. split; [done|].
    intros b2 Hne. apply (bin_step_other s s' fl fl' b b2 i); [apply Hr|done].
Qed.

(** The loop of [small_region_count] terminates, after at most eight
    iterations, for every run size of the small bins and every region size from 4
    bytes on, and the number of regions is right: they fit into the run behind the
    metadata and their tokens, and at most the size of one region is left over. *)
Lemma small_region_count_terminates b size {S} (s : S) :
  rbin_type b = kSmall → small_rsize (rbin_rsize b) → 4 ≤ size ≤ kMaxSmallSize →
  ∃ c, small_region_count b size s = Ok c s ∧ small_fits (rbin_rsize b) size c.
Proof.
  intros Ht Hr Hs. destruct (small_region_counts _ _ Hr Hs) as (c & Hc & Hf). exists c.
  split; [|done]. unfold small_region_count. rewrite Hc, bool_decide_true by done. done.
Qed.
End lemmas.

(** ** Witnesses: a new pool of 1 GiB, an empty bin, and the same after one
    acquire *)

Definition example_ext : ext_st := {|
  es_pst := {| mem := example_pool; log := [] |};
  es_file := {| ef_start := 2 ^ 40 - 8192; ef_size := 2 ^ 30 + 8192 |}; es_recs := ∅ |}.
Definition small_bin : RunBin := RunBin_init 0 kSmall 16384.
Definition medium_bin : RunBin := RunBin_init 0 kMedium 131072.
Definition run_of {A} (m : M ext_st (RunBin * A)) : RunBin * ext_st :=
  match m example_ext with Ok (b, _) s => (b, s) | Err _ => (small_bin, example_ext) end.
Definition small_bin1 : RunBin * ext_st := run_of (srun_acquire small_bin 0 64 false).
Definition medium_bin1 : RunBin * ext_st := run_of (mrun_acquire medium_bin 0 4096 false).

Lemma example_pool_inv : pool_inv example_ext [] [].
Proof.
  constructor.
  - apply (init_inv example_pool (2 ^ 30) 8192 24576); vm_compute; intuition congruence.
  - vm_compute. intuition congruence.
  - intros a. reflexivity.
Qed.

Lemma example_bin_inv b :
  ok_request (rbin_type b) (rbin_rcase b) (rbin_rsize b) →
  rbin_type b = kSmall ∨ rbin_type b = kMedium → 2 * rbin_rsize b ≤ kExtentSize →
  rbin_0 b = ∅ → rbin_1 b = ∅ → rbin_inv example_ext [] b.
Proof.
  intros H1 H2 H3 H4 H5. constructor; try done.
  - intros [] ext desc; simpl; rewrite ?H4, ?H5; by rewrite lookup_empty.
  - intros e. simpl. rewrite H4. by right.
  - intros i [Hi _]. change (ext_used (cur_meta (pm_of example_ext))) with 0 in Hi. lia.
Qed.

Lemma small_bin_inv : rbin_inv example_ext [] small_bin.
Proof. apply example_bin_inv; vm_compute; intuition congruence. Qed.
Lemma medium_bin_inv : rbin_inv example_ext [] medium_bin.
Proof. apply example_bin_inv; vm_compute; intuition congruence. Qed.

Lemma first_run s' fl' b b' i rid :
  run_taken example_ext s' [] fl' b b' (2 ^ 40) i rid →
  i = 0 ∧ rid = 0 ∧ in_bin (pm_of s') b' 0 ∧ busy (pm_of s') fl' 0 0 ∧ rbin_inv s' fl' b' ∧
  ext_at s' 0 = 2 ^ 40.
Proof.
  intros [Hst Hinv Hsb Ha Hr Hl Hf Hbs].
  assert (0 < rbin_rsize b).
  { destruct (ri_req _ _ _ Hinv) as (_ & Hs & _). destruct Hsb as (_ & _ & <-). lia. }
  assert (0 ≤ i) by apply Hl.
  unfold ext_at, ext_base, extents in Ha. cbn [es_file example_ext ef_start] in Ha.
  change kRootSegSize with 8192 in Ha. change kExtentSize with 4194304 in Ha.
  assert (i = 0 ∧ rid = 0) as [-> ->] by nia.
  split; [done|]. split; [done|]. split; [by apply (in_bin_same _ b), (bs_after _ _ _ _ _ _ Hst)|].
  split; [apply Hbs; by left|]. split; [done|].
  destruct (same_pool_addr _ _ 0 0 (bs_same _ _ _ _ _ _ Hst)) as (_ & _ & ->). reflexivity.
Qed.

Lemma small_region_count_terminates_witness :
  ∃ c, small_region_count small_bin 64 tt = Ok c tt ∧ small_fits 16384 64 c.
Proof.
  apply (small_region_count_terminates small_bin 64 tt); [reflexivity| |done].
  change (16384 ∈ take 3 kRunSizeTab). set_solver.
Defined.

(** The first run of a new pool starts where the extents do. *)
Definition first_at {A} (m : M ext_st (RunBin * (A * Z))) : bool :=
  match m example_ext with Ok (_, (_, run)) _ => run =? 2 ^ 40 | Err _ => false end.

Lemma first_small : first_at (srun_acquire small_bin 0 64 false) = true.
Proof. vm_compute. reflexivity. Qed.
Lemma first_medium : first_at (mrun_acquire medium_bin 0 4096 false) = true.
Proof. vm_compute. reflexivity. Qed.

Definition one_run (x : RunBin * ext_st) : Prop :=
  ∃ fl ml, pool_inv x.2 fl ml ∧ rbin_inv x.2 fl x.1 ∧ in_bin (pm_of x.2) x.1 0 ∧
    busy (pm_of x.2) fl 0 0 ∧ ext_at x.2 0 = 2 ^ 40.

Lemma small_bin1_ok : one_run small_bin1.
Proof.
  pose proof (wp_srun_acquire example_ext [] [] small_bin 0 64 false (λ r s', r.2.2 = 2 ^ 40 →
    one_run (r.1, s')) example_pool_inv small_bin_inv eq_refl) as Hwp.
  pose proof first_small as Hf. unfold small_bin1, run_of. unfold first_at in Hf. unfold wp in Hwp.
  destruct (srun_acquire small_bin 0 64 false example_ext) as [[b1 [m r]] s1|]; [|done].
  apply Z.eqb_eq in Hf as ->. apply Hwp; clear; [|done|done|done| |done].
  - change (16384 ∈ take 3 kRunSizeTab). set_solver.
  - intros s1 fl' ml' b' run i rid Hp Htk _ _ _ _ Hrun. cbn in Hrun |- *. subst run.
    destruct (first_run _ _ _ _ _ _ Htk) as (_ & _ & ? & ? & ? & ?). by exists fl', ml'.
Qed.

Lemma medium_bin1_ok : one_run medium_bin1.
Proof.
  pose proof (wp_mrun_acquire example_ext [] [] medium_bin 0 4096 false (λ r s', r.2.2 = 2 ^ 40 →
    one_run (r.1, s')) example_pool_inv medium_bin_inv eq_refl) as Hwp.
  pose proof first_medium as Hf. unfold medium_bin1, run_of. unfold first_at in Hf. unfold wp in Hwp.
  destruct (mrun_acquire medium_bin 0 4096 false example_ext) as [[b1 [m r]] s1|]; [|done].
  apply Z.eqb_eq in Hf as ->. apply Hwp; clear; [|done|done|done| |done].
  - change (131072 ∈ drop 3 kRunSizeTab). set_solver.
  - intros s1 fl' ml' b' run i rid Hp Htk _ _ _ _ Hrun. cbn in Hrun |- *. subst run.
    destruct (first_run _ _ _ _ _ _ Htk) as (_ & _ & ? & ? & ? & ?). by exists fl', ml'.
Qed.

Lemma srun_acquire_correct_witness :
  wp (srun_acquire small_bin 7 64 false) (λ r s',
    (r = (small_bin, (nullptr, nullptr)) ∧ no_space example_ext [] small_bin false) ∨
    ∃ fl' b' run i rid, r = (b', (run, run)) ∧ busy (pm_of s') fl' i rid) example_ext.
Proof.
  eapply wp_mono; [apply (srun_acquire_correct example_ext [] [] small_bin 7 64 false)|].
  - exact example_pool_inv.
  - exact small_bin_inv.
  - reflexivity.
  - unfold small_rsize. change (16384 ∈ take 3 kRunSizeTab). set_solver.
  - vm_compute. intuition congruence.
  - lia.
  - intros r s' [Hn|(fl' & ml' & b' & run & i & rid & Hr & _ & Ht & _)]; [by left|right].
    exists fl', b', run, i, rid. split; [exact Hr|]. apply Ht. by left.
Defined.

Lemma mrun_acquire_correct_witness :
  wp (mrun_acquire medium_bin 7 4096 false) (λ r s',
    (r = (medium_bin, (nullptr, nullptr)) ∧ no_space example_ext [] medium_bin false) ∨
    ∃ fl' b' meta run i rid, r = (b', (meta, run)) ∧ busy (pm_of s') fl' i rid) example_ext.
Proof.
  eapply wp_mono; [apply (mrun_acquire_correct example_ext [] [] medium_bin 7 4096 false)|].
  - exact example_pool_inv.
  - exact medium_bin_inv.
  - reflexivity.
  - unfold medium_rsize. change (131072 ∈ drop 3 kRunSizeTab). set_solver.
  - vm_compute. intuition congruence.
  - lia.
  - intros r s' [Hn|(fl' & ml' & b' & run & i & rid & Hr & _ & Ht & _)]; [by left|right].
    eexists fl', b', _, run, i, rid. split; [exact Hr|]. apply Ht. by left.
Defined.

Lemma srun_release_correct_witness :
  ∃ fl, busy (pm_of small_bin1.2) fl 0 0 ∧
  wp (srun_release small_bin1.1 (ext_at small_bin1.2 0 + 0 * rbin_rsize small_bin1.1) true false)
    (λ b' s', ∃ fl', ¬ busy (pm_of s') fl' 0 0) small_bin1.2.
Proof.
  destruct small_bin1_ok as (fl & ml & Hp & Hb & Hin & Hbs & Ha). exists fl. split; [exact Hbs|].
  eapply wp_mono; [apply (srun_release_correct small_bin1.2 fl ml small_bin1.1 0 0 false Hp Hb)|].
  - vm_compute. reflexivity.
  - exact Hin.
  - exact Hbs.
  - rewrite Ha. vm_compute. reflexivity.
  - intros b' s' (fl' & ml' & _ & Hr & _). exists fl'. rewrite (rr_busy _ _ _ _ _ _ _ _ Hr). tauto.
Defined.

Lemma mrun_release_correct_witness :
  ∃ fl, busy (pm_of medium_bin1.2) fl 0 0 ∧
  wp (mrun_release medium_bin1.1 (ext_at medium_bin1.2 0 + 0 * rbin_rsize medium_bin1.1) true false)
    (λ b' s', ∃ fl', ¬ busy (pm_of s') fl' 0 0) medium_bin1.2.
Proof.
  destruct medium_bin1_ok as (fl & ml & Hp & Hb & Hin & Hbs & Ha). exists fl. split; [exact Hbs|].
  eapply wp_mono; [apply (mrun_release_correct medium_bin1.2 fl ml medium_bin1.1 0 0 false Hp Hb)|].
  - vm_compute. reflexivity.
  - exact Hin.
  - exact Hbs.
  - rewrite Ha. vm_compute. reflexivity.
  - intros b' s' (fl' & ml' & _ & Hr & _). exists fl'. rewrite (rr_busy _ _ _ _ _ _ _ _ Hr). tauto.
Defined.
