(* ===== verification/LargeSpec.v ===== *)
(** * Large regions

    The contract of [LargeBin]: [acquire] hands out a region that was not in use,
    whose token is free, and [release] gives back exactly one region.  The
    invariant [lbin_inv] relates the bitmaps of a bin to the descriptors and the
    tokens.  The steps of a bin do not affect the other bins, neither those of
    large regions nor those of runs. *)

From S2P Require Export RunSpec.
Import Pmem.

(** ** Definitions *)

(** A bin of large regions, seen as the owner of its extents. *)
Definition as_rbin (b : LargeBin) : RunBin := {|
  rbin_rcase := lbin_rcase b; rbin_type := kLarge; rbin_rsize := lbin_size b;
  rbin_0 := ∅; rbin_1 := ∅ |}.
Definition in_lbin (p : pmem) (b : LargeBin) (i : Z) : Prop := in_bin p (as_rbin b) i.
Definition lcount (b : LargeBin) : Z := kExtentSize / lbin_size b.

(** The bitmap [bits] of the extent [i]: regions that it calls free have a free
    token. *)
Record lbits_ok (s : ext_st) (b : LargeBin) (i : Z) (bits : RunBits) : Prop := {
  lb_wf : wf_rb bits;
  lb_meta : rb_meta bits = ext_addr (pm_of s) i;
  lb_objs : rb_objs bits = ext_at s i;
  lb_size : rb_size bits = lbin_size b;
  lb_count : rb_count bits = lcount b;
  lb_token : ∀ k, 0 ≤ k < lcount b → rb_used bits k = false →
    token_byte (pm_of s) (TLarge (ext_addr (pm_of s) i) k) = Some kFreeCode;
}.

(** The maps hold extents of the bin, and only extents with a free region. *)
Record lbin_inv (s : ext_st) (fl : list Z) (b : LargeBin) : Prop := {
  li_req : ok_request kLarge (lbin_rcase b) (lbin_size b);
  li_map : ∀ r e bits, lbin b r !! e = Some bits → ∃ i,
    live (pm_of s) fl i ∧ in_lbin (pm_of s) b i ∧ e = ext_at s i ∧ lbits_ok s b i bits ∧
    rb_alloc bits < lcount b;
  li_disj : ∀ e, lbin b true !! e = None ∨ lbin b false !! e = None;
}.

(** The region [k] of the extent [i] has been handed out: its bit is set, or the
    extent is in no map. *)
Definition lused (s : ext_st) (fl : list Z) (b : LargeBin) (i k : Z) : Prop :=
  live (pm_of s) fl i ∧ in_lbin (pm_of s) b i ∧ 0 ≤ k < lcount b ∧
  ∀ r bits, lbin b r !! ext_at s i = Some bits → rb_used bits k = true.

Definition same_lbin (b b' : LargeBin) : Prop :=
  lbin_rcase b' = lbin_rcase b ∧ lbin_size b' = lbin_size b.

(** The bins of runs, and the other bins of large regions, are not affected. *)
Definition others_kept (s s' : ext_st) (fl fl' : list Z) (b : LargeBin) : Prop :=
  (∀ rb, rbin_type rb ≠ kLarge → rbin_inv s fl rb → rbin_inv s' fl' rb) ∧
  ∀ b', (lbin_rcase b, lbin_size b) ≠ (lbin_rcase b', lbin_size b') →
    lbin_inv s fl b' → lbin_inv s' fl' b' ∧
    ∀ j k, lused s' fl' b' j k ↔ lused s fl b' j k.

Definition large_no_space (s : ext_st) (fl : list Z) (b : LargeBin) (recover : bool) : Prop :=
  lbin b recover = ∅ ∧ ∀ i, 0 ≤ i < ext_total_ (pm_head (pm_of s)) → live (pm_of s) fl i.

(** The region [k] of the extent [i] has been taken, and nothing else; its token
    is free. *)
Record large_taken (s s' : ext_st) (fl fl' : list Z) (b b' : LargeBin) (i k : Z) : Prop := {
  lt_step : bin_step s s' fl fl' (as_rbin b) i;
  lt_inv : lbin_inv s' fl' b';
  lt_bin : same_lbin b b';
  lt_range : 0 ≤ k < lcount b;
  lt_free : ¬ lused s fl b i k;
  lt_used : ∀ j m, lused s' fl' b' j m ↔ j = i ∧ m = k ∨ lused s fl b j m;
  lt_token : token_byte (pm_of s') (TLarge (ext_addr (pm_of s) i) k) = Some kFreeCode;
  lt_live : live (pm_of s') fl' i;
  lt_keep : live (pm_of s) fl i → desc_of (pm_of s') i = desc_of (pm_of s) i;
  lt_small : pm_small (pm_of s') = pm_small (pm_of s);
  lt_med : pm_med (pm_of s') = pm_med (pm_of s);
}.

(** The region [k] of the extent [i] has been returned, and nothing else. *)
Record large_returned (s s' : ext_st) (fl fl' : list Z) (b b' : LargeBin) (i k : Z) : Prop := {
  lr_step : bin_step s s' fl fl' (as_rbin b) i;
  lr_inv : lbin_inv s' fl' b';
  lr_bin : same_lbin b b';
  lr_used : ∀ j m, lused s' fl' b' j m ↔ lused s fl b j m ∧ ¬ (j = i ∧ m = k);
  lr_tokens : live (pm_of s') fl' i → ∀ m, m ≠ k → let a := ext_addr (pm_of s) i in
    token_byte (pm_of s') (TLarge a m) = token_byte (pm_of s) (TLarge a m);
  lr_small : pm_small (pm_of s') = pm_small (pm_of s);
  lr_med : ∀ a, med_at (pm_of s') a = med_at (pm_of s) a;
}.

(** ** Lemmas *)

Section lemmas.
Context `{UtilSpec} `{UnorderedMapSpec}.
Implicit Types (s : ext_st) (fl ml : list Z) (b : LargeBin).

Lemma lbin_set b r r' m : lbin (set_lbin r m b) r' = if decide (r = r') then m else lbin b r'.
Proof. by destruct r, r'. Qed.
Lemma set_lbin_other b r m : lbin (set_lbin r m b) (negb r) = lbin b (negb r).
Proof. by destruct r. Qed.
Lemma same_lbin_set b r m : same_lbin b (set_lbin r m b).
Proof. by destruct r. Qed.
Lemma lcount_same b b' : same_lbin b b' → lcount b' = lcount b.
Proof. intros [_ E]. unfold lcount. by rewrite E. Qed.
Lemma in_lbin_same p b b' i : same_lbin b b' → in_lbin p b' i ↔ in_lbin p b i.
Proof. intros [E1 E2]. unfold in_lbin, in_bin. simpl. by rewrite E1, E2. Qed.

Lemma lcount_range s fl b : lbin_inv s fl b → 0 < lcount b ≤ 32 ∧ 0 < lbin_size b ≤ kExtentSize ∧
  kExtentSize = lcount b * lbin_size b.
Proof.
  intros Hb. destruct (li_req _ _ _ Hb) as (_ & Hs & Hm & _ & _ & Hc). specialize (Hc ltac:(done)).
  unfold lcount. change kExtentSize with 4194304 in *.
  pose proof (Z.div_str_pos 4194304 (lbin_size b)). split_and!; try lia. Z.div_mod_to_equations. nia.
Qed.

(** What a step on the extent [i] of some bin means for the other extents. *)
Lemma lbits_step s s' fl fl' c b b' i j bits :
  bin_step s s' fl fl' c i → same_lbin b b' → j ≠ i → lbits_ok s b j bits → lbits_ok s' b' j bits.
Proof.
  intros Hst Hsb Hj [Hw Hm Ho Hs Hct Htk].
  destruct (same_pool_addr s s' j 0 (bs_same _ _ _ _ _ _ Hst)) as (Ea & _ & Ee).
  pose proof (lcount_same _ _ Hsb) as Hc. destruct Hsb as [_ Hsz].
  constructor; rewrite ?Ea, ?Ee, ?Hc, ?Hsz; try done. intros k Hk Hu. specialize (Htk k Hk Hu).
  unfold token_byte in *. pose proof (bs_desc _ _ _ _ _ _ Hst j Hj) as Hd. unfold desc_of in Hd.
  rewrite Ea in Hd. by rewrite Hd.
Qed.

Lemma lused_step s s' fl fl' c b b' i j k :
  bin_step s s' fl fl' c i → same_lbin b b' → j ≠ i →
  (∀ r, lbin b' r !! ext_at s j = lbin b r !! ext_at s j) →
  lused s' fl' b' j k ↔ lused s fl b j k.
Proof.
  intros Hst Hsb Hj Hl. unfold lused. rewrite (lcount_same _ _ Hsb), (in_lbin_same _ _ _ _ Hsb).
  destruct (same_pool_addr s s' j 0 (bs_same _ _ _ _ _ _ Hst)) as (_ & _ & ->).
  rewrite (bs_live _ _ _ _ _ _ Hst j Hj). unfold in_lbin, in_bin.
  rewrite (bs_desc _ _ _ _ _ _ Hst j Hj). by setoid_rewrite Hl.
Qed.

(** A step on an extent of another bin. *)
Lemma lbin_step_other s s' fl fl' c b i :
  bin_step s s' fl fl' c i → (rbin_type c, rbin_rcase c, rbin_rsize c) ≠ (kLarge, lbin_rcase b, lbin_size b) →
  lbin_inv s fl b → lbin_inv s' fl' b ∧ ∀ j k, lused s' fl' b j k ↔ lused s fl b j k.
Proof.
  intros Hst Hne Hb.
  assert (∀ j, live (pm_of s) fl j → in_lbin (pm_of s) b j → j ≠ i) as Hn1.
  { intros j Hlj (E1 & E2 & E3) ->. destruct (bs_before _ _ _ _ _ _ Hst Hlj) as (F1 & F2 & F3).
    simpl in *. congruence. }
  assert (∀ j, live (pm_of s') fl' j → in_lbin (pm_of s') b j → j ≠ i) as Hn2.
  { intros j Hlj (E1 & E2 & E3) ->. destruct (bs_after _ _ _ _ _ _ Hst Hlj) as (F1 & F2 & F3).
    simpl in *. congruence. }
  split.
  - destruct Hb as [Hr Hm Hd]. constructor; [done| |done]. intros r e bits He.
    destruct (Hm r e bits He) as (j & Hlj & Hbj & -> & Hok & Ha). pose proof (Hn1 j Hlj Hbj) as Hj.
    exists j. destruct (same_pool_addr s s' j 0 (bs_same _ _ _ _ _ _ Hst)) as (_ & _ & ->).
    split; [by apply (bs_live _ _ _ _ _ _ Hst j Hj)|]. split.
    { unfold in_lbin, in_bin. rewrite (bs_desc _ _ _ _ _ _ Hst j Hj). exact Hbj. }
    split; [done|]. split; [|done]. by eapply lbits_step.
  - intros j k. destruct (decide (j = i)) as [->|Hj].
    + split; intros (Hlj & Hbj & _); [by destruct (Hn2 i Hlj Hbj)|by destruct (Hn1 i Hlj Hbj)].
    + by apply (lused_step _ _ _ _ c b b i).
Qed.

(** The bin after a step on one of its extents. *)
Lemma lbin_inv_step s s' fl fl' b b' i :
  bin_step s s' fl fl' (as_rbin b) i → lbin_inv s fl b → same_lbin b b' →
  (∀ r e, e ≠ ext_at s i → lbin b' r !! e = lbin b r !! e) →
  (∃ r bits, live (pm_of s') fl' i ∧ lbits_ok s' b' i bits ∧ rb_alloc bits < lcount b ∧
     lbin b' r !! ext_at s i = Some bits ∧ lbin b' (negb r) !! ext_at s i = None) ∨
  (∀ r, lbin b' r !! ext_at s i = None) →
  lbin_inv s' fl' b'.
Proof.
  intros Hst [Hr Hm Hd] Hsb He Hi. pose proof (lcount_same _ _ Hsb) as Hc.
  pose proof Hsb as [E1 E2]. constructor.
  - by rewrite E1, E2.
  - intros r e bits Hin. destruct (decide (e = ext_at s i)) as [->|Hne].
    + destruct Hi as [(r0 & bits0 & Hl & Hok & Ha & Hin0 & Hno)|Hno]; [|by rewrite Hno in Hin].
      assert (r = r0) as -> by (destruct r, r0; simpl in *; congruence).
      rewrite Hin0 in Hin. injection Hin as <-. exists i. split; [done|].
      destruct (same_pool_addr s s' i 0 (bs_same _ _ _ _ _ _ Hst)) as (_ & _ & ->).
      split; [by apply (in_lbin_same _ b), (bs_after _ _ _ _ _ _ Hst)|]. by rewrite Hc.
    + rewrite He in Hin by done. destruct (Hm r e bits Hin) as (j & Hlj & Hbj & -> & Hok & Ha).
      assert (j ≠ i) as Hj by (intros ->; done). exists j.
      destruct (same_pool_addr s s' j 0 (bs_same _ _ _ _ _ _ Hst)) as (_ & _ & ->).
      split; [by apply (bs_live _ _ _ _ _ _ Hst j Hj)|]. split.
      { apply (in_lbin_same _ b); [done|]. unfold in_lbin, in_bin.
        rewrite (bs_desc _ _ _ _ _ _ Hst j Hj). exact Hbj. }
      split; [done|]. rewrite Hc. split; [|done]. by eapply lbits_step.
  - intros e. destruct (decide (e = ext_at s i)) as [->|Hne]; [|by rewrite !He].
    destruct Hi as [(r0 & bits0 & _ & _ & _ & _ & Hno)|Hno]; [destruct r0; auto|by left].
Qed.

Lemma others_step s s' fl fl' b i :
  bin_step s s' fl fl' (as_rbin b) i → others_kept s s' fl fl' b.
Proof.
  intros Hst. split.
  - intros rb Ht. apply (bin_step_other s s' fl fl' (as_rbin b) rb i Hst). simpl. congruence.
  - intros b' Hne. apply (lbin_step_other s s' fl fl' (as_rbin b) b' i Hst). simpl. congruence.
Qed.

Lemma bin_step_refl s fl c i : (live (pm_of s) fl i → in_bin (pm_of s) c i) → bin_step s s fl fl c i.
Proof. intros Hi. by constructor. Qed.

(** An extent of the bin, and its bitmap, if it is in a map. *)
Lemma lmap_entry s fl ml b r i bits :
  pool_inv s fl ml → lbin_inv s fl b → lbin b r !! ext_at s i = Some bits →
  live (pm_of s) fl i ∧ in_lbin (pm_of s) b i ∧ lbits_ok s b i bits ∧ rb_alloc bits < lcount b ∧
  lbin b (negb r) !! ext_at s i = None.
Proof.
  intros Hp Hb Hin. destruct (li_map _ _ _ Hb _ _ _ Hin) as (j & Hl & Hbj & He & Hok & Ha).
  apply ext_base_inj in He as <-. split_and!; try done.
  destruct (li_disj _ _ _ Hb (ext_at s i)) as [Hn|Hn]; destruct r; simpl in *; congruence.
Qed.

Lemma in_lbin_meta s fl ml b i bits :
  pool_inv s fl ml → lbin_inv s fl b → live (pm_of s) fl i → in_lbin (pm_of s) b i →
  lbits_ok s b i bits → meta_matches (pm_of s) kLarge bits.
Proof.
  intros Hp Hb Hl (Ht & _ & Hsz) Hok. pose proof (inv_live _ _ _ (pi_ext _ _ _ Hp) i Hl) as Hwf.
  destruct Hwf as (_ & Hc & _). simpl in *. rewrite (lb_meta _ _ _ _ Hok), (lb_size _ _ _ _ Hok),
    (lb_count _ _ _ _ Hok). unfold desc_of in *. unfold lcount. rewrite Hsz in Hc. done.
Qed.

(** The effect of a new bitmap of the extent [i] on what is in use. *)
Lemma lused_update s fl ml b b' i r bits bits' :
  pool_inv s fl ml → lbin_inv s fl b → same_lbin b b' → lbin b r !! ext_at s i = Some bits →
  (∀ r e, e ≠ ext_at s i → lbin b' r !! e = lbin b r !! e) →
  (lbin b' r !! ext_at s i = Some bits' ∨
   lbin b' r !! ext_at s i = None ∧ ∀ k, 0 ≤ k < lcount b → rb_used bits' k = true) →
  lbin b' (negb r) !! ext_at s i = None →
  ∀ j k, lused s fl b' j k ↔
    j = i ∧ 0 ≤ k < lcount b ∧ rb_used bits' k = true ∨ j ≠ i ∧ lused s fl b j k.
Proof.
  intros Hp Hb Hsb Hin He Hi Hn j k. destruct (lmap_entry _ _ _ _ _ _ _ Hp Hb Hin) as (Hl & Hbi & _).
  destruct (decide (j = i)) as [->|Hj].
  - unfold lused. rewrite (lcount_same _ _ Hsb), (in_lbin_same _ _ _ _ Hsb). split.
    + intros (_ & _ & Hk & Hu). left. split; [done|]. split; [done|]. destruct Hi as [Hi|[_ Hi]]; eauto.
    + intros [(_ & Hk & Hu)|[Hne _]]; [|done]. split; [done|]. split; [done|]. split; [done|]. intros r0 bits0 Hr0.
      destruct (decide (r0 = r)) as [->|Hr]; [destruct Hi as [Hi|[Hi _]]; congruence|].
      destruct r, r0; simpl in *; congruence.
  - assert (ext_at s j ≠ ext_at s i) as Hne by (intros E; by apply Hj, (ext_base_inj (es_file s))).
    split.
    + intros Hu. right. split; [done|]. unfold lused in *.
      rewrite (lcount_same _ _ Hsb), (in_lbin_same _ _ _ _ Hsb) in Hu.
      destruct Hu as (? & ? & ? & Hu). split; [done|]. split; [done|]. split; [done|]. intros r0 bits0. rewrite <-He by done. apply Hu.
    + intros [(-> & _)|[_ Hu]]; [done|]. unfold lused in *.
      rewrite (lcount_same _ _ Hsb), (in_lbin_same _ _ _ _ Hsb).
      destruct Hu as (? & ? & ? & Hu). split; [done|]. split; [done|]. split; [done|]. intros r0 bits0. rewrite He by done. apply Hu.
Qed.

(** A change of the tokens of the extent [i]. *)
Lemma tokens_changed s s' fl ml c i ts :
  pool_inv s fl ml → live (pm_of s) fl i → es_file s' = es_file s →
  pm_head (pm_of s') = pm_head (pm_of s) → pm_meta (pm_of s') = pm_meta (pm_of s) →
  pm_med (pm_of s') = pm_med (pm_of s) →
  (∀ a, a ≠ ext_addr (pm_of s) i → desc_at (pm_of s') a = desc_at (pm_of s) a) →
  desc_of (pm_of s') i = set_ed_union (large_ ts) (desc_of (pm_of s) i) →
  wf_desc (desc_of (pm_of s') i) → in_bin (pm_of s) c i →
  pool_inv s' fl ml ∧ bin_step s s' fl fl c i.
Proof.
  intros Hp Hl Hf Hh Hm Hmed Hd Hdi Hwf Hin. pose proof (pi_ext _ _ _ Hp) as Hinv.
  assert (∀ j, ext_addr (pm_of s') j = ext_addr (pm_of s) j) as Ha.
  { intros j. unfold ext_addr. by rewrite Hh. }
  assert (cur_meta (pm_of s') = cur_meta (pm_of s)) as Hc.
  { unfold cur_meta, meta_at. by rewrite Hh, Hm. }
  assert (∀ j, j ≠ i → desc_of (pm_of s') j = desc_of (pm_of s) j) as Hdj.
  { intros j Hj. unfold desc_of at 1. rewrite Ha, Hd; [done|].
    intros He. apply ext_addr_inj in He. congruence. }
  assert (∀ a, med_at (pm_of s') a = med_at (pm_of s) a) as Hma.
  { intros a. unfold med_at. by rewrite Hmed. }
  assert (∀ j, live (pm_of s') fl j ↔ live (pm_of s) fl j) as Hlj.
  { intros j. unfold live. by rewrite Hc. }
  split.
  - constructor; [|by rewrite Hf, Hh; apply Hp|by intros a; rewrite Hma; apply Hp].
    apply (ext_inv_frame (pm_of s)); rewrite ?Hh; try done.
    + intros j Hj. rewrite Hdj; [|by intros ->; apply Hl]. by split; [apply (inv_free _ _ _ Hinv)|].
    + intros j Hj. destruct (decide (j = i)) as [->|Hne]; [by rewrite Hdi in *|].
      rewrite Hdj by done. split; [by apply (inv_live _ _ _ Hinv)|done].
    + intros j _. by rewrite Hma.
  - constructor; [|done| |by intros; apply Hlj|done].
    + split; [done|]. unfold same_layout. by rewrite Hh.
    + intros _. unfold in_bin. by rewrite Hdi.
Qed.

(** *** Acquire *)

Lemma lfree_head bits k rest :
  wf_rb bits → free_list bits = k :: rest → 0 ≤ k < rb_count bits ∧ rb_used bits k = false.
Proof.
  intros Hwf Hf. assert (k ∈ free_list bits) as Hk by (rewrite Hf; left).
  unfold free_list, free_from in Hk. apply list_elem_of_filter in Hk as [Hu Hk].
  apply elem_of_seqZ in Hk. split; [lia|]. by destruct (rb_used bits k).
Qed.

(** Taking a region of the first extent in the map. *)
Lemma lalloc_ok s fl ml b i recover bits :
  pool_inv s fl ml → lbin_inv s fl b → lbin b recover !! ext_at s i = Some bits →
  ∃ bits' k, let a := ext_addr (pm_of s) i in
    let m := <[ext_at s i := bits']> (lbin b recover) in
    let b' := set_lbin recover (if RunBits_empty bits' then delete (ext_at s i) m else m) b in
    RunBits_alloc_large bits (es_pst s) =
      Ok (bits', region (Some (TLarge a k)) (ext_at s i + k * lbin_size b)) (es_pst s) ∧
    0 ≤ k < lcount b ∧ ¬ lused s fl b i k ∧ lbin_inv s fl b' ∧
    (∀ j m, lused s fl b' j m ↔ j = i ∧ m = k ∨ lused s fl b j m) ∧
    token_byte (pm_of s) (TLarge a k) = Some kFreeCode.
Proof.
  intros Hp Hb Hin. destruct (lmap_entry _ _ _ _ _ _ _ Hp Hb Hin) as (Hl & Hbi & Hok & Ha & Hno).
  pose proof (lcount_range _ _ _ Hb) as (Hc & _). pose proof (lb_count _ _ _ _ Hok) as Hct.
  destruct (alloc_large_run bits (es_pst s)) as (bits' & k & rest & Hf & Hrun & Htk);
    [apply Hok|lia|by eapply in_lbin_meta|].
  destruct (lfree_head bits k rest (lb_wf _ _ _ _ Hok) Hf) as [Hk Hu].
  destruct Htk as (Hwf' & (Es & Ec & Em & Eo) & Ea & Eu). change (lenZ [k]) with 1 in Ea.
  exists bits', k. intros a m b'.
  assert (lbits_ok s b' i bits') as Hok'.
  { pose proof (same_lbin_set b recover (if RunBits_empty bits' then delete (ext_at s i) m else m)) as Hsb.
    fold b' in Hsb. pose proof (lcount_same _ _ Hsb) as Hcs. destruct Hsb as [_ Hsz].
    destruct Hok as [H1' H2' H3' H4' H5' H6']. constructor; rewrite ?Hsz, ?Hcs; try congruence.
    intros x Hx Hux. apply H6'; [done|]. rewrite Eu in Hux. by apply orb_false_iff in Hux as [? _]. }
  assert (∀ r e, e ≠ ext_at s i → lbin b' r !! e = lbin b r !! e) as Hoth.
  { intros r e Hne. subst b'. rewrite lbin_set. case_decide as Hr; [|done]. subst r m.
    destruct (RunBits_empty bits'); by rewrite ?lookup_delete_ne, lookup_insert_ne by done. }
  assert (lbin b' (negb recover) !! ext_at s i = None) as Hno'.
  { subst b'. rewrite lbin_set, decide_False by (by destruct recover). done. }
  assert (0 ≤ rb_alloc bits' ≤ rb_count bits') as Hab.
  { destruct Hwf' as (Hrc & _ & _ & ->). apply used_count_bounds. lia. }
  assert (lbin b' recover !! ext_at s i = Some bits' ∧ rb_alloc bits' < lcount b ∨
    lbin b' recover !! ext_at s i = None ∧ ∀ x, 0 ≤ x < lcount b → rb_used bits' x = true) as Hi.
  { subst b'. rewrite lbin_set, decide_True by done. unfold RunBits_empty.
    destruct (Z.eqb_spec (rb_alloc bits') (rb_count bits')) as [He|He].
    - right. rewrite lookup_delete_eq. split; [done|]. intros x Hx. apply (alloc_full_used bits'); [done|done|lia].
    - left. subst m. rewrite lookup_insert_eq. split; [done|]. lia. }
  assert (same_lbin b b') as Hsb by apply same_lbin_set.
  split; [|split; [lia|split; [|split; [|split]]]].
  - rewrite Hrun. unfold region_of, token_of. by rewrite (lb_meta _ _ _ _ Hok), (lb_objs _ _ _ _ Hok),
      (lb_size _ _ _ _ Hok).
  - intros (_ & _ & _ & Hux). rewrite (Hux _ _ Hin) in Hu. done.
  - apply (lbin_inv_step s s fl fl b b' i); [by apply bin_step_refl|done|done|done|].
    destruct Hi as [[Hi Hlt]|[Hi _]]; [left; by exists recover, bits'|right].
    intros r. destruct (decide (r = recover)) as [->|Hr]; [done|]. destruct r, recover; done.
  - intros j x. rewrite (lused_update s fl ml b b' i recover bits bits'); try done;
      [|destruct Hi as [[Hi _]|Hi]; [by left|by right]].
    rewrite Eu. split.
    + intros [(-> & Hx & Hux)|[_ Hux]]; [|by right].
      apply orb_true_iff in Hux as [Hux|Hux%bool_decide_eq_true]; [right|left; set_solver].
      split; [done|]. split; [done|]. split; [done|]. intros r bits0 Hr0.
      destruct (decide (r = recover)) as [->|Hr]; [congruence|]. destruct r, recover; simpl in *; congruence.
    + intros [[-> ->]|Hux].
      * left. split; [done|]. split; [lia|]. rewrite bool_decide_true by set_solver. apply orb_true_r.
      * destruct (decide (j = i)) as [->|Hj]; [left|by right]. destruct Hux as (_ & _ & Hx & Hux).
        split; [done|]. split; [done|]. by rewrite (Hux _ _ Hin).
  - apply (lb_token _ _ _ _ Hok); [lia|done].
Qed.

(** An extent that has just been acquired for the bin. *)
Lemma new_large_extent s s' fl fl' ml ml' b i recover :
  pool_inv s fl ml → lbin_inv s fl b →
  ext_acquired s s' fl fl' ml ml' i kLarge (lbin_rcase b) (lbin_size b) recover →
  lbin b recover = ∅ →
  let bits := RunBits_new (lbin_size b) (lcount b) (ext_addr (pm_of s) i) (ext_at s i) false in
  let b' := set_lbin recover {[ext_at s i := bits]} b in
  bin_step s s' fl fl' (as_rbin b) i ∧ lbin_inv s' fl' b' ∧
  (∀ j m, lused s' fl' b' j m ↔ lused s fl b j m).
Proof.
  intros Hp Hb Ha He bits b'. pose proof (lcount_range _ _ _ Hb) as (Hc & Hs & _).
  destruct (new_extent s s' fl fl' ml ml' (as_rbin b) i recover (li_req _ _ _ Hb) Ha) as (Hst & _).
  destruct (same_pool_addr s s' i 0 (bs_same _ _ _ _ _ _ Hst)) as (Ea & _ & Ee).
  destruct (RunBits_new_ok (lbin_size b) (lcount b) (ext_addr (pm_of s) i) (ext_at s i) false)
    as (Hwf & Esz & Ect & Em & Eo & Eal & Hu); [lia|]. fold bits in Hwf, Esz, Ect, Em, Eo, Eal, Hu.
  assert (same_lbin b b') as Hsb by apply same_lbin_set.
  assert (live (pm_of s') fl' i) as Hl by (apply (ea_live _ _ _ _ _ _ _ _ _ _ _ Ha); by left).
  assert (lbin b (negb recover) !! ext_at s i = None) as Hno.
  { destruct (lbin b (negb recover) !! ext_at s i) as [x|] eqn:E; [|done].
    destruct (lmap_entry _ _ _ _ _ _ _ Hp Hb E) as (Hli & _). by destruct (ea_fresh _ _ _ _ _ _ _ _ _ _ _ Ha). }
  assert (∀ r e, e ≠ ext_at s i → lbin b' r !! e = lbin b r !! e) as Hoth.
  { intros r e Hne. subst b'. rewrite lbin_set. case_decide as Hr; [|done]. subst r.
    by rewrite He, lookup_singleton_ne, lookup_empty. }
  assert (lbin b' recover !! ext_at s i = Some bits) as Hin.
  { subst b'. by rewrite lbin_set, decide_True, lookup_singleton_eq. }
  assert (lbits_ok s' b' i bits) as Hok.
  { pose proof (lcount_same _ _ Hsb) as Hcs. destruct Hsb as [_ Hsz].
    constructor; rewrite ?Ea, ?Ee, ?Hcs, ?Hsz; try done; [rewrite Esz; apply u32_small;
      change kExtentSize with 4194304 in *; lia|]. intros k Hk _.
    destruct (ea_desc _ _ _ _ _ _ _ _ _ _ _ Ha) as (next & runs & Hd & _). unfold desc_of in Hd.
    rewrite Ea in Hd. unfold token_byte. rewrite Hd. apply (nthZ_replicate 32 kFreeCode). lia. }
  split; [done|]. split.
  - eapply lbin_inv_step; [exact Hst|done|done|done|]. left. exists recover, bits.
    split_and!; try done; [lia|]. subst b'. rewrite lbin_set, decide_False by (by destruct recover). done.
  - intros j m. destruct (decide (j = i)) as [->|Hj].
    + split; [|intros (Hli & _); by destruct (ea_fresh _ _ _ _ _ _ _ _ _ _ _ Ha)].
      intros (_ & _ & Hm & Hux). rewrite Ee in Hux. specialize (Hux _ _ Hin).
      rewrite (lcount_same _ _ Hsb) in Hm. rewrite Hu in Hux by done. done.
    + apply (lused_step _ _ _ _ (as_rbin b) b b' i); try done. intros r. apply Hoth.
      intros E. by apply Hj, (ext_base_inj (es_file s)).
Qed.

(** The nullptr that a failed acquire inserts into [recs_]. *)
Definition null_recs (recover : bool) (s : ext_st) : ext_st :=
  if recover then set_es_recs (({[ nullptr ]} : gset Z) ∪ es_recs s) s else s.

Lemma wp_large_acquire s fl ml b recover Q :
  pool_inv s fl ml → lbin_inv s fl b →
  (large_no_space s fl b recover → Q (b, null_region) (null_recs recover s)) →
  (∀ s' fl' ml' b' i k, pool_inv s' fl' ml' → large_taken s s' fl fl' b b' i k →
     lbin b' (negb recover) = lbin b (negb recover) →
     Q (b', region (Some (TLarge (ext_addr (pm_of s) i) k)) (ext_at s i + k * lbin_size b)) s') →
  wp (LargeBin_acquire b recover) Q s.
Proof.
  intros Hp Hb Hnone HQ. unfold LargeBin_acquire.
  assert (∀ s1 fl1 ml1 b1 i bits, pool_inv s1 fl1 ml1 → lbin_inv s1 fl1 b1 → same_lbin b b1 →
    lbin b1 recover !! ext_at s1 i = Some bits → um_begin (lbin b1 recover) = Some (ext_at s1 i) →
    bin_step s s1 fl fl1 (as_rbin b) i → (∀ j m, lused s1 fl1 b1 j m ↔ lused s fl b j m) →
    pm_small (pm_of s1) = pm_small (pm_of s) → pm_med (pm_of s1) = pm_med (pm_of s) →
    lbin b1 (negb recover) = lbin b (negb recover) →
    (live (pm_of s) fl i → desc_of (pm_of s1) i = desc_of (pm_of s) i) →
    wp (massert (negb (bool_decide (dom (lbin b1 recover) = ∅))) ;;
        ext ← mderef (um_begin (lbin b1 recover));
        rbits ← mderef (lbin b1 recover !! ext);
        '(rbits, reg) ← pm (RunBits_alloc_large rbits);
        let m := <[ext := rbits]> (lbin b1 recover) in
        let m := if RunBits_empty rbits then delete ext m else m in
        mret (set_lbin recover m b1, reg)) Q s1) as Htail.
  { intros s1 fl1 ml1 b1 i bits Hp1 Hb1 Hsb Hin Hbeg Hst Hu Hsm Hmd Hob Hkp.
    destruct (lalloc_ok s1 fl1 ml1 b1 i recover bits Hp1 Hb1 Hin) as (bits' & k & Hrun & Hk & Hf & Hb2 & Hu2 & Ht).
    destruct (same_pool_addr s s1 i 0 (bs_same _ _ _ _ _ _ Hst)) as (Ea & _ & Ee).
    pose proof (lcount_same _ _ Hsb) as Hcs. pose proof Hsb as [Hrc Hsz].
    wp_step. wp_step.
    { apply negb_true_iff, bool_decide_false. intros Hd. apply dom_empty_iff_L in Hd.
      by rewrite Hd, lookup_empty in Hin. }
    rewrite Hbeg. wp_step. wp_step; [done|]. wp_step. wp_step; [exact Hin|]. wp_step. apply wp_pm.
    eapply wp_pure; [exact Hrun|]. cbv beta iota zeta. rewrite set_es_pst_id.
    wp_step. rewrite Ee in Hb2. rewrite Hsz, Ea, Ee.
    destruct (lmap_entry _ _ _ _ _ _ _ Hp1 Hb1 Hin) as (Hl1 & _).
    apply (HQ s1 fl1 ml1); [done| |by rewrite set_lbin_other]. constructor; try done.
    - destruct recover; exact Hsb.
    - by rewrite <-Hcs.
    - by rewrite <-Hu.
    - intros j m. specialize (Hu2 j m). rewrite Ee in Hu2. by rewrite Hu2, Hu.
    - by rewrite <-Ea. }
  wp_step. case_bool_decide as He.
  - apply dom_empty_iff_L in He. wp_step. apply (wp_ext_acquire s fl ml); [done|apply Hb|..].
    + intros -> Hu. cbv beta iota. rewrite Z.eqb_refl. wp_step. wp_step. apply Hnone.
      split; [done|]. intros i Hi. split; [lia|apply not_elem_of_nil].
    + intros s1 i fl1 ml1 Ha.
      destruct (new_large_extent _ _ _ _ _ _ _ _ _ Hp Hb Ha He) as (Hst & Hb1 & Hu).
      destruct (lcount_range _ _ _ Hb) as (Hc & Hs & _).
      destruct (ea_desc _ _ _ _ _ _ _ _ _ _ _ Ha) as (next & runs & Hd & _).
      destruct (same_pool_addr s s1 i 0 (bs_same _ _ _ _ _ _ Hst)) as (Ea & _ & Ee).
      assert (ext_at s i ≠ nullptr) as Hnn.
      { unfold ext_at, ext_base, extents, nullptr. pose proof (pi_file _ _ _ Hp) as (Hst0 & _).
        assert (live (pm_of s1) fl1 i) as Hli by (apply (ea_live _ _ _ _ _ _ _ _ _ _ _ Ha); by left).
        destruct Hli as [Hi _]. change kRootSegSize with 8192. change kExtentSize with 4194304. lia. }
      cbv beta iota. rewrite (proj2 (Z.eqb_neq _ _)) by done. wp_step. apply wp_pm_ld_desc.
      unfold desc_of in Hd. rewrite Ea in Hd. rewrite Hd. cbn [ed_size ed_rcase ed_count new_desc].
      destruct (li_req _ _ _ Hb) as (_ & _ & _ & Hrc & _ & Hc32).
      rewrite !u32_small by (change kExtentSize with 4194304 in *; unfold lcount in Hc;
        change kExtentSize with 4194304 in Hc; lia).
      wp_step. wp_step; [by rewrite !Z.eqb_refl|]. wp_step. rewrite He, insert_empty.
      eapply (Htail s1 fl1 ml1); [apply Ha|exact Hb1|apply same_lbin_set| | |exact Hst|exact Hu
        |apply Ha|apply Ha|apply set_lbin_other|intros Hli; by destruct (ea_fresh _ _ _ _ _ _ _ _ _ _ _ Ha)].
      * rewrite lbin_set, decide_True, Ee by done. apply lookup_singleton_eq.
      * rewrite lbin_set, decide_True, Ee by done.
        destruct (um_begin_in ({[ext_at s i := RunBits_new (lbin_size b) (lcount b) (ext_addr (pm_of s) i)
          (ext_at s i) false]} : gmap Z RunBits)) as (k & a & Hk & Hka); [apply map_non_empty_singleton|].
        apply lookup_singleton_Some in Hka as [<- _]. exact Hk.
  - assert (lbin b recover ≠ ∅) as Hne by (intros E; apply He; by rewrite E, dom_empty_L).
    destruct (um_begin_in _ Hne) as (e & bits & Hbeg & Hin).
    destruct (li_map _ _ _ Hb _ _ _ Hin) as (i & Hl & Hbi & -> & _).
    wp_step. by apply (Htail s fl ml b i bits).
Qed.

(** *** Release *)

(** The map in which the extent [i] has a bitmap: that of the bin, or one with a
    full bitmap when all regions of the extent were in use. *)
Definition with_extent (s : ext_st) (b : LargeBin) (recover : bool) (i : Z) : gmap Z RunBits :=
  if decide (ext_at s i ∈ dom (lbin b recover)) then lbin b recover
  else <[ext_at s i := RunBits_new (lbin_size b) (lcount b) (ext_addr (pm_of s) i) (ext_at s i) true]>
         (lbin b recover).

Lemma with_extent_bits s fl ml b i k recover :
  pool_inv s fl ml → lbin_inv s fl b → lused s fl b i k → lbin b (negb recover) !! ext_at s i = None →
  ∃ bits, with_extent s b recover i !! ext_at s i = Some bits ∧ wf_rb bits ∧
    rb_meta bits = ext_addr (pm_of s) i ∧ rb_objs bits = ext_at s i ∧ rb_size bits = lbin_size b ∧
    rb_count bits = lcount b ∧
    (∀ x, 0 ≤ x < lcount b → rb_used bits x = true ↔ lused s fl b i x) ∧
    (∀ x, 0 ≤ x < lcount b → rb_used bits x = false →
       token_byte (pm_of s) (TLarge (ext_addr (pm_of s) i) x) = Some kFreeCode).
Proof.
  intros Hp Hb Hu Hno. pose proof (lcount_range _ _ _ Hb) as (Hc & Hs & _). unfold with_extent.
  pose proof Hu as (Hl & Hbi & Hk & Hux). case_decide as Hd.
  - apply elem_of_dom in Hd as [bits Hin]. exists bits.
    destruct (lmap_entry _ _ _ _ _ _ _ Hp Hb Hin) as (_ & _ & [H1' H2' H3' H4' H5' H6'] & _).
    split; [done|]. split; [done|]. split; [done|]. split; [done|]. split; [done|]. split; [done|].
    split; [|done]. intros x Hx. split.
    + intros Hux'. split; [done|]. split; [done|]. split; [done|]. intros r bits0 Hr0.
      destruct (decide (r = recover)) as [->|Hr]; [congruence|]. destruct r, recover; simpl in *; congruence.
    + intros (_ & _ & _ & Hux'). by apply (Hux' recover).
  - destruct (RunBits_new_ok (lbin_size b) (lcount b) (ext_addr (pm_of s) i) (ext_at s i) true)
      as (Hwf & Esz & Ect & Em & Eo & _ & Hau); [lia|].
    eexists. split; [apply lookup_insert_eq|]. split; [done|]. split; [done|]. split; [done|].
    split; [rewrite Esz; apply u32_small; change kExtentSize with 4194304 in *; lia|]. split; [done|].
    split; [|intros x Hx; by rewrite Hau]. intros x Hx. rewrite Hau by done. split; [|done].
    intros _. split; [done|]. split; [done|]. split; [done|]. intros r bits0 Hr0.
    destruct (decide (r = recover)) as [->|Hr]; [by apply elem_of_dom_2 in Hr0|].
    destruct r, recover; simpl in *; congruence.
Qed.

Lemma with_extent_ne s b recover i e :
  e ≠ ext_at s i → with_extent s b recover i !! e = lbin b recover !! e.
Proof. intros Hne. unfold with_extent. case_decide; [done|]. by apply lookup_insert_ne. Qed.

(** The descriptor of an extent of the bin. *)
Lemma large_desc s fl ml b i :
  pool_inv s fl ml → live (pm_of s) fl i → in_lbin (pm_of s) b i →
  let d := desc_of (pm_of s) i in
  ed_type d = kLarge ∧ ed_rcase d = lbin_rcase b ∧ ed_size d = lbin_size b ∧ ed_count d = lcount b ∧
  ∃ ts, ed_union d = large_ ts ∧ lenZ ts = 32 ∧ Forall (λ t, 0 ≤ t < 256) ts.
Proof.
  intros Hp Hl (Et & Er & Es) d. simpl in *.
  pose proof (inv_live _ _ _ (pi_ext _ _ _ Hp) i Hl) as (_ & Hc & _ & Hun). fold d in Et, Er, Es, Hc, Hun.
  rewrite Et in Hun. destruct (ed_union d) as [| |ts] eqn:E; [done|done|].
  split; [done|]. split; [done|]. split; [done|]. split; [unfold lcount; by rewrite Hc, Es|].
  exists ts. split; [done|]. tauto.
Qed.

Lemma large_address s fl ml b i k :
  pool_inv s fl ml → lbin_inv s fl b → live (pm_of s) fl i → 0 ≤ k < lcount b →
  let ptr := ext_at s i + k * lbin_size b in
  rounddown ptr kExtentSize = ext_at s i ∧ (ptr - ext_at s i) / lbin_size b = k.
Proof.
  intros Hp Hb Hl Hk ptr. destruct (lcount_range _ _ _ Hb) as (Hc & Hs & Hcs).
  pose proof (live_range _ _ _ _ Hp Hl). subst ptr. split.
  - eapply rounddown_ext; [apply (pi_file _ _ _ Hp)|lia|nia].
  - rewrite Z.add_simpl_l. apply Z.div_mul. lia.
Qed.

(** The bin after the bitmap has changed. *)
Lemma large_dealloc s s1 fl ml b i k recover bits' ts :
  pool_inv s fl ml → lbin_inv s fl b → lused s fl b i k → lbin b (negb recover) !! ext_at s i = None →
  bin_step s s1 fl fl (as_rbin b) i → live (pm_of s1) fl i →
  ed_union (desc_of (pm_of s) i) = large_ ts → lenZ ts = 32 →
  desc_of (pm_of s1) i = set_ed_union (large_ (updZ ts k kFreeCode)) (desc_of (pm_of s) i) →
  pm_small (pm_of s1) = pm_small (pm_of s) → pm_med (pm_of s1) = pm_med (pm_of s) →
  (∃ bits, with_extent s b recover i !! ext_at s i = Some bits ∧ given_back bits bits' k) →
  let m := <[ext_at s i := bits']> (with_extent s b recover i) in
  large_returned s s1 fl fl b (set_lbin recover m b) i k.
Proof.
  intros Hp Hb Hu Hno Hst Hl1 Hts Hlen Hd1 Hsm Hmd (bits0 & Hin0 & Hwf' & (Es & Ec & Em & Eo) & Ea & Eu) m.
  destruct (with_extent_bits s fl ml b i k recover Hp Hb Hu Hno)
    as (bits & Hin & Hwf & Hm & Ho & Hsz & Hct & Hus & Htk).
  assert (bits0 = bits) as -> by congruence. pose proof (lcount_range _ _ _ Hb) as (Hc & _).
  destruct (same_pool_addr s s1 i 0 (bs_same _ _ _ _ _ _ Hst)) as (Eaddr & _ & Eext).
  set (b1 := set_lbin recover m b). assert (same_lbin b b1) as Hsb by apply same_lbin_set.
  pose proof (lcount_same _ _ Hsb) as Hcs.
  assert (∀ r e, e ≠ ext_at s i → lbin b1 r !! e = lbin b r !! e) as Hoth.
  { intros r e Hne. subst b1. rewrite lbin_set. case_decide as Hr; [|done]. subst r m.
    rewrite lookup_insert_ne by done. by apply with_extent_ne. }
  assert (lbin b1 recover !! ext_at s i = Some bits') as Hin1.
  { subst b1 m. rewrite lbin_set, decide_True by done. apply lookup_insert_eq. }
  assert (lbin b1 (negb recover) !! ext_at s i = None) as Hno1.
  { subst b1. rewrite lbin_set, decide_False by (by destruct recover). done. }
  assert (∀ x, 0 ≤ x < lcount b → rb_used bits' x = true ↔ lused s fl b i x ∧ x ≠ k) as Hux.
  { intros x Hx. rewrite Eu, andb_true_iff, (Hus x Hx), negb_true_iff, bool_decide_eq_false. done. }
  assert (rb_alloc bits' < lcount b) as Hal.
  { rewrite Ea. destruct Hwf as (Hrc & _ & _ & ->). pose proof (used_count_bounds bits). lia. }
  assert (lbits_ok s1 b1 i bits') as Hok1.
  { pose proof Hsb as [_ Hsz1]. constructor; rewrite ?Eaddr, ?Eext, ?Hcs, ?Hsz1; try congruence.
    intros x Hx Hxu. unfold token_byte. unfold desc_of in Hd1. rewrite Eaddr in Hd1. rewrite Hd1. simpl.
    destruct (decide (x = k)) as [->|Hne]; [apply nthZ_updZ_eq; lia|rewrite nthZ_updZ_ne by done].
    assert (rb_used bits x = false) as Hxf.
    { rewrite Eu in Hxu. rewrite bool_decide_false in Hxu by done. simpl in Hxu. by rewrite andb_true_r in Hxu. }
    specialize (Htk x Hx Hxf). unfold token_byte in Htk. unfold desc_of in Hts. by rewrite Hts in Htk. }
  constructor; [done| |done| | |done|by intros x; unfold med_at; rewrite Hmd].
  - eapply lbin_inv_step; [exact Hst|done|done|done|]. left. by exists recover, bits'.
  - intros j x. destruct (decide (j = i)) as [->|Hj].
    + unfold lused at 1. rewrite Hcs, Eext. split.
      * intros (_ & _ & Hx & Hall). specialize (Hall _ _ Hin1). apply Hux in Hall as [? ?]; [|done].
        split; [done|]. tauto.
      * intros [Hlu Hne]. pose proof Hlu as (_ & _ & Hx & _). split; [done|].
        split; [by apply (in_lbin_same _ b), (bs_after _ _ _ _ _ _ Hst)|]. split; [done|].
        intros r bits1 Hr1. destruct (decide (r = recover)) as [->|Hr].
        -- assert (bits1 = bits') as -> by congruence. apply Hux; [done|]. split; [done|]. intros ->. tauto.
        -- destruct r, recover; simpl in *; congruence.
    + rewrite (lused_step s s1 fl fl (as_rbin b) b b1 i); [tauto|done|done|done|].
      intros r. apply Hoth. intros E. by apply Hj, (ext_base_inj (es_file s)).
  - intros _ x Hx a. unfold token_byte, desc_of in *. rewrite Eaddr in Hd1. subst a.
    rewrite Hd1, Hts. simpl. by apply nthZ_updZ_ne.
Qed.

(** Then the extent is given back. *)
Lemma large_give s s1 s2 fl ml ml' b b1 b2 i k :
  large_returned s s1 fl fl b b1 i k → live (pm_of s1) fl i → ext_released s1 s2 fl ml ml' i →
  (∀ m, ¬ lused s1 fl b1 i m) → same_lbin b b2 → (∀ r, lbin b2 r !! ext_at s i = None) →
  (∀ r e, e ≠ ext_at s i → lbin b2 r !! e = lbin b1 r !! e) →
  large_returned s s2 fl (i :: fl) b b2 i k.
Proof.
  intros [Hst Hb1 Hsb1 Hu _ Hsm Hmd] Hl1 Her Hnu Hsb2 Hno Hoth.
  destruct (same_pool_addr s s1 i 0 (bs_same _ _ _ _ _ _ Hst)) as (_ & _ & Ee).
  assert (same_lbin b1 b2) as Hsb12.
  { destruct Hsb1 as [E1 E2], Hsb2 as [E3 E4]. split; congruence. }
  assert (∀ j, j ≠ i → desc_of (pm_of s2) j = desc_of (pm_of s1) j) as Hdj.
  { intros j Hj. unfold desc_of. destruct (same_pool_addr s1 s2 j 0 (er_same _ _ _ _ _ _ Her)) as (-> & _).
    apply (er_frame _ _ _ _ _ _ Her). intros He. by apply ext_addr_inj in He. }
  assert (bin_step s1 s2 fl (i :: fl) (as_rbin b1) i) as Hst2.
  { constructor; [apply Her| | | |done].
    - intros _. apply (in_lbin_same _ b); [done|]. by apply (bs_after _ _ _ _ _ _ Hst).
    - intros Hl2. by apply (er_live _ _ _ _ _ _ Her) in Hl2 as [? _].
    - intros j Hj. rewrite (er_live _ _ _ _ _ _ Her). tauto. }
  constructor.
  - eapply (bin_step_trans s s1 s2 fl fl (i :: fl) (as_rbin b) (as_rbin b1) i); [|done|done|done].
    destruct Hsb1 as [E1 E2]. split; [exact E1|]. by split.
  - eapply lbin_inv_step; [exact Hst2|done|done| |]; rewrite Ee; [done|by right].
  - done.
  - intros j x. destruct (decide (j = i)) as [->|Hj].
    + split; [intros (Hl2 & _); by apply (er_live _ _ _ _ _ _ Her) in Hl2 as [? _]|].
      intros Hx. by destruct (Hnu x (proj2 (Hu i x) Hx)).
    + rewrite (lused_step s1 s2 fl (i :: fl) (as_rbin b1) b1 b2 i); [apply Hu|done|done|done|].
      intros r. destruct (same_pool_addr s s1 j 0 (bs_same _ _ _ _ _ _ Hst)) as (_ & _ & ->). apply Hoth.
      intros E. by apply Hj, (ext_base_inj (es_file s)).
  - intros Hl2. by apply (er_live _ _ _ _ _ _ Her) in Hl2 as [? _].
  - by rewrite (er_small _ _ _ _ _ _ Her).
  - intros a. rewrite (er_med _ _ _ _ _ _ Her); [done|]. left. unfold is_medium.
    apply bool_decide_false. destruct (bs_after _ _ _ _ _ _ Hst Hl1) as (-> & _). done.
Qed.

Lemma wp_large_release s fl ml b i k recover Q :
  pool_inv s fl ml → lbin_inv s fl b → lused s fl b i k → lbin b (negb recover) !! ext_at s i = None →
  (∀ s' fl' ml' b', pool_inv s' fl' ml' → large_returned s s' fl fl' b b' i k →
     lbin b' (negb recover) = lbin b (negb recover) → Q b' s') →
  wp (LargeBin_release b (ext_addr (pm_of s) i) (ext_at s i + k * lbin_size b) recover) Q s.
Proof.
  intros Hp Hb Hu Hno HQ. pose proof Hu as (Hl & Hbi & Hk & _).
  destruct (large_desc s fl ml b i Hp Hl Hbi) as (Et & Erc & Esz & Ect & ts & Hts & Hlen & Hrng).
  destruct (large_address s fl ml b i k Hp Hb Hl Hk) as (Hrd & Hdiv).
  pose proof (lcount_range _ _ _ Hb) as (Hc & _).
  unfold LargeBin_release. wp_step. apply wp_pm_ld_desc. fold (desc_of (pm_of s) i).
  set (d := desc_of (pm_of s) i) in *.
  wp_step. wp_step; [by rewrite Esz, Erc, !Z.eqb_refl|]. cbv zeta. rewrite Hrd, Esz, Hdiv, Ect.
  wp_step. wp_step; [apply Z.ltb_lt; lia|]. wp_step. apply wp_pm. unfold ExtentDesc_token.
  wp_step. wp_step; [by rewrite Ect, (proj2 (Z.ltb_lt _ _)), bool_decide_true by (done || lia)|].
  wp_step. rewrite set_es_pst_id. wp_step. apply wp_pm. destruct s as [[p lg] f recs].
  set (s := {| es_pst := {| mem := p; log := lg |}; es_file := f; es_recs := recs |}) in *.
  change (es_pst s) with {| mem := p; log := lg |}.
  apply (wp_fire_large _ _ ts); [exact Hts|lia|]. intros p1 lg1 Hh Hm Hmed Hsm Hfr Hd1.
  set (s1 := set_es_pst {| mem := p1; log := lg1 |} s).
  assert (ext_addr p1 i = ext_addr p i) as Ea1 by (unfold ext_addr; by rewrite Hh).
  assert (desc_of (pm_of s1) i = set_ed_union (large_ (updZ ts k kFreeCode)) d) as Hdo.
  { unfold desc_of. change (pm_of s1) with p1. rewrite Ea1. exact Hd1. }
  destruct (tokens_changed s s1 fl ml (as_rbin b) i (updZ ts k kFreeCode)) as [Hp1 Hst]; try done.
  { pose proof (inv_live _ _ _ (pi_ext _ _ _ Hp) i Hl) as Hwf. fold d in Hwf. rewrite Hdo.
    unfold wf_desc in *. simpl. rewrite Hts, Et in *. destruct Hwf as (? & ? & ? & ? & ? & ?).
    split_and!; try done. - by rewrite lenZ_updZ. - by apply Forall_updZ. }
  assert (live (pm_of s1) fl i) as Hl1.
  { unfold live, cur_meta, meta_at in *. change (pm_of s1) with p1. by rewrite Hh, Hm. }
  change (if decide (ext_at s i ∈ dom (lbin b recover)) then lbin b recover else _)
    with (with_extent s b recover i).
  destruct (with_extent_bits s fl ml b i k recover Hp Hb Hu Hno)
    as (bits & Hin & Hwf & Em & Eo & Es & Ec & Hus & _).
  destruct (dealloc_large_run bits k s1) as (bits' & Hrun & Hgb); [done|lia|lia|by apply Hus|].
  wp_step. wp_step; [exact Hin|]. wp_step. eapply wp_pure; [exact Hrun|]. cbv beta iota zeta.
  set (m := <[ext_at s i := bits']> (with_extent s b recover i)).
  assert (large_returned s s1 fl fl b (set_lbin recover m b) i k) as Hret.
  { eapply (large_dealloc s s1 fl ml b i k recover bits' ts); eauto. }
  destruct (RunBits_full bits' && (kExtentHoldCount <? mapsize m)) eqn:Efree.
  - apply andb_true_iff in Efree as [Hfull%Z.eqb_eq _].
    assert (∀ x, ¬ lused s1 fl (set_lbin recover m b) i x) as Hnu.
    { intros x (_ & _ & _ & Hall).
      destruct (same_pool_addr s s1 i 0 (bs_same _ _ _ _ _ _ Hst)) as (_ & _ & Ee).
      assert (rb_used bits' x = true) as Hx.
      { apply (Hall recover). rewrite lbin_set, decide_True, Ee by done. apply lookup_insert_eq. }
      by rewrite (alloc_zero_free bits' (proj1 Hgb) Hfull) in Hx. }
    cbn [mwhen]. wp_step.
    change (ext_addr p i) with (ext_addr (pm_of s) i). change (ext_at s i) with (ext_at s1 i) at 1.
    assert (ext_addr (pm_of s) i = ext_addr (pm_of s1) i) as -> by done.
    apply (wp_ext_release s1 fl ml i); [done|done|]. intros s2 ml' Her. wp_step.
    apply (HQ s2 (i :: fl) ml'); [apply Her| |by rewrite set_lbin_other].
    eapply (large_give s s1 s2 fl ml ml' b (set_lbin recover m b)); try done; [apply same_lbin_set| |].
    + intros r. rewrite lbin_set. case_decide as Hr; [apply lookup_delete_eq|].
      by destruct r, recover.
    + intros r e Hne. rewrite !lbin_set. case_decide as Hr; [|done]. by rewrite lookup_delete_ne.
  - cbn [mwhen]. wp_step. wp_step. wp_step. apply (HQ s1 fl ml); [done|done|by rewrite set_lbin_other].
Qed.

(** ** Properties *)

(** C22: [LargeBin::acquire] terminates and passes its asserts.  Either no region
    and no extent is left and it returns null, or it hands out exactly one region
    that was not in use, inside its extent and aligned to its size, whose token is
    free, so that [publish] succeeds.  The invariants of the pool and of all
    bins, of runs and of large regions, are kept. *)
Theorem large_bin_acquire_correct s fl ml b recover :
  pool_inv s fl ml → lbin_inv s fl b →
  wp (LargeBin_acquire b recover) (λ r s',
    (r = (b, null_region) ∧ large_no_space s fl b recover) ∨
    ∃ fl' ml' b' i k, let tok := TLarge (ext_addr (pm_of s) i) k in
      r = (b', region (Some tok) (ext_at s i + k * lbin_size b)) ∧
      k * lbin_size b + lbin_size b ≤ kExtentSize ∧
      pool_inv s' fl' ml' ∧ large_taken s s' fl fl' b b' i k ∧ others_kept s s' fl fl' b) s.
Proof.
  intros Hp Hb. apply (wp_large_acquire s fl ml); [done|done|by left|].
  intros s' fl' ml' b' i k Hp' Ht _. right. exists fl', ml', b', i, k. cbv zeta.
  split; [done|]. split; [|split; [done|split; [done|by eapply others_step, lt_step]]].
  destruct (lcount_range _ _ _ Hb) as (Hc & Hs & Hcs). pose proof (lt_range _ _ _ _ _ _ _ _ Ht). nia.
Qed.

(** C23: [LargeBin::release] of a region in use terminates and passes its asserts,
    also when the extent was full and so not in the map: exactly that region
    becomes free, its token included, and an extent without regions in use is
    given back when the bin holds another one.  The invariants of the pool and of
    all bins are kept. *)
Theorem large_bin_release_correct s fl ml b i k recover :
  pool_inv s fl ml → lbin_inv s fl b → lused s fl b i k → lbin b (negb recover) !! ext_at s i = None →
  wp (LargeBin_release b (ext_addr (pm_of s) i) (ext_at s i + k * lbin_size b) recover) (λ b' s',
    ∃ fl' ml', pool_inv s' fl' ml' ∧ large_returned s s' fl fl' b b' i k ∧
      others_kept s s' fl fl' b) s.
Proof.
  intros Hp Hb Hu Hno. apply (wp_large_release s fl ml); [done..|].
  intros s' fl' ml' b' Hp' Hr _. exists fl', ml'. split; [done|]. split; [done|].
  by eapply others_step, lr_step.
Qed.
End lemmas.

(** ** Witnesses: the bin of 128 KiB on a new pool, and after one acquire *)

Definition large_bin : LargeBin := {|
  lbin_rcase := 0; lbin_size := 131072; lbin_0 := ∅; lbin_1 := ∅ |}.

Lemma large_bin_inv : lbin_inv example_ext [] large_bin.
Proof.
  constructor.
  - vm_compute. intuition congruence.
  - intros [] e bits; simpl; by rewrite lookup_empty.
  - intros e. by left.
Qed.

Definition large_bin1 : LargeBin * ext_st :=
  match LargeBin_acquire large_bin false example_ext with
  | Ok (b, _) s => (b, s)
  | Err _ => (large_bin, example_ext)
  end.
Definition one_region (x : LargeBin * ext_st) : Prop :=
  ∃ fl ml i k, pool_inv x.2 fl ml ∧ lbin_inv x.2 fl x.1 ∧ lused x.2 fl x.1 i k ∧
    lbin x.1 true !! ext_at x.2 i = None.

Lemma large_bin1_ok : one_region large_bin1.
Proof.
  pose proof (wp_large_acquire example_ext [] [] large_bin false (λ r s', lbin r.1 true = ∅ →
    reg_pointer r.2 ≠ 0 → one_region (r.1, s')) example_pool_inv large_bin_inv) as Hwp.
  assert (match LargeBin_acquire large_bin false example_ext with
          | Ok (b, r) _ => negb (reg_pointer r =? 0) && bool_decide (lbin b true = ∅)
          | Err _ => false end = true) as Hnn by (vm_compute; reflexivity).
  unfold large_bin1. unfold wp in Hwp.
  destruct (LargeBin_acquire large_bin false example_ext) as [[b1 r] s1|]; [|done].
  apply andb_true_iff in Hnn as [Hr He%bool_decide_eq_true].
  apply Hwp; [by intros _ _ Hn|clear|exact He|by apply Z.eqb_neq, negb_true_iff].
  intros s' fl' ml' b' i k Hp Ht _ He _. cbn in He. exists fl', ml', i, k.
  split; [exact Hp|]. split; [apply Ht|]. split; [apply Ht; by left|]. cbn. by rewrite He.
Qed.

Lemma large_bin_acquire_correct_witness :
  wp (LargeBin_acquire large_bin false) (λ r s', r.2 = null_region ∨
    ∃ fl' ml' i k, pool_inv s' fl' ml' ∧ lused s' fl' r.1 i k) example_ext.
Proof.
  eapply wp_mono.
  - apply (large_bin_acquire_correct example_ext [] [] large_bin false).
    + exact example_pool_inv.
    + exact large_bin_inv.
  - intros r s' [[-> _]|(fl' & ml' & b' & i & k & -> & _ & Hp & Ht & _)]; [by left|right].
    exists fl', ml', i, k. split; [exact Hp|]. apply (lt_used _ _ _ _ _ _ _ _ Ht). by left.
Defined.

Lemma large_bin_release_correct_witness :
  ∃ i k, wp (LargeBin_release large_bin1.1 (ext_addr (pm_of large_bin1.2) i)
               (ext_at large_bin1.2 i + k * lbin_size large_bin1.1) false)
    (λ b' s', ∃ fl' ml', pool_inv s' fl' ml' ∧ ¬ lused s' fl' b' i k) large_bin1.2.
Proof.
  destruct large_bin1_ok as (fl & ml & i & k & Hp & Hb & Hu & Hn). exists i, k.
  eapply wp_mono.
  - apply (large_bin_release_correct large_bin1.2 fl ml large_bin1.1 i k false).
    + exact Hp.
    + exact Hb.
    + exact Hu.
    + exact Hn.
  - intros b' s' (fl' & ml' & Hp' & Hr & _). exists fl', ml'. split; [exact Hp'|].
    intros Hx. exact (proj2 (proj1 (lr_used _ _ _ _ _ _ _ _ Hr i k) Hx) (conj eq_refl eq_refl)).
Defined.
