(* ===== verification/RunCaseSpec.v ===== *)
(** * Run cases

    The contract of [RunCase] in normal operation: the bins of all run cases
    keep their invariants ([cases_inv]), a run or a large region that is handed
    out was not in use, and no other run or large region is affected.  The
    relations [got_run], [gave_run], [got_large] and [gave_large] state what an
    operation does to the runs and large regions of the pool, without the bins. *)

From S2P Require Export LargeSpec.
Import Pmem.

(** ** Definitions *)

Definition case_type (j : Z) : RegionType := if j <=? 2 then kSmall else kMedium.
Definition case_rsize (j : Z) : Z := default 0 (nthZ kRunSizeTab j).
Definition case_lsize (j : Z) : Z := Z.shiftl kMaxMediumSize (j + 1).

(** The number of bins of large regions, 128 KiB to 4 MiB. *)
Definition lbin_count : Z := 6.

(** A run case in normal operation: the maps of the recovery mode are empty. *)
Record case_inv (s : ext_st) (fl : list Z) (c : RunCase) : Prop := {
  ci_nr : lenZ (rc_rbins c) = kRunTypeCount;
  ci_rbin : ∀ j b, nthZ (rc_rbins c) j = Some b →
    rbin_inv s fl b ∧ rbin_rcase b = rc_index c ∧ rbin_type b = case_type j ∧
    rbin_rsize b = case_rsize j ∧ rbin_1 b = ∅;
  ci_nl : lenZ (rc_lbins c) = lbin_count;
  ci_lbin : ∀ j b, nthZ (rc_lbins c) j = Some b →
    lbin_inv s fl b ∧ lbin_rcase b = rc_index c ∧ lbin_size b = case_lsize j ∧ lbin_1 b = ∅;
  ci_ids : ∀ j, 0 ≤ j < kRunTypeCount → find_rbid c (case_type j) (case_rsize j) = j;
}.
Definition cases_inv (s : ext_st) (fl : list Z) (cs : list RunCase) : Prop :=
  ∀ x c, nthZ cs x = Some c → case_inv s fl c ∧ rc_index c = x.

(** The large regions that have been handed out. *)
Definition glused (s : ext_st) (fl : list Z) (cs : list RunCase) (i k : Z) : Prop :=
  ∃ x c j b, nthZ cs x = Some c ∧ nthZ (rc_lbins c) j = Some b ∧ lused s fl b i k.

(** The extent [j] is cut into runs; the address of its run [r] and of the
    metadata of that run, and the metadata. *)
Definition has_runs (p : pmem) (j : Z) : Prop :=
  ed_type (desc_of p j) = kSmall ∨ ed_type (desc_of p j) = kMedium.
Definition run_at (s : ext_st) (j r : Z) : Z := ext_at s j + r * ed_size (desc_of (pm_of s) j).
Definition meta_addr (s : ext_st) (j r : Z) : Z :=
  if is_medium (pm_of s) j then ed_runs (desc_of (pm_of s) j) + r * sizeof_MediumMeta
  else run_at s j r.
Definition run_meta (s : ext_st) (j r : Z) : SmallMeta + MediumMeta :=
  if is_medium (pm_of s) j then inr (med_at (pm_of s) (meta_addr s j r))
  else inl (small_at (pm_of s) (meta_addr s j r)).

(** The run [r] of the extent [j] is in use in [s'], with the same metadata. *)
Record run_same (s s' : ext_st) (fl' : list Z) (j r : Z) : Prop := {
  rs_busy : busy (pm_of s') fl' j r;
  rs_static : same_static (desc_of (pm_of s) j) (desc_of (pm_of s') j);
  rs_meta : run_meta s' j r = run_meta s j r;
}.

(** What an operation that hands out the run [rid] of the extent [i], of the
    given type and size, does to the pool. *)
Record got_run (s s' : ext_st) (fl fl' : list Z) (cs cs' : list RunCase) (x : Z)
    (type : RegionType) (rsize i rid : Z) : Prop := {
  gr_pool : same_pool s s';
  gr_cases : cases_inv s' fl' cs';
  gr_free : ¬ busy (pm_of s) fl i rid;
  gr_busy : ∀ j r, busy (pm_of s') fl' j r ↔ j = i ∧ r = rid ∨ busy (pm_of s) fl j r;
  gr_desc : ed_type (desc_of (pm_of s') i) = type ∧ ed_rcase (desc_of (pm_of s') i) = x ∧
    ed_size (desc_of (pm_of s') i) = rsize;
  gr_same : ∀ j r, has_runs (pm_of s) j → busy (pm_of s) fl j r → run_same s s' fl' j r;
  gr_large : ∀ j k, glused s' fl' cs' j k ↔ glused s fl cs j k;
  gr_ldesc : ∀ j, live (pm_of s) fl j → ed_type (desc_of (pm_of s) j) = kLarge →
    live (pm_of s') fl' j ∧ desc_of (pm_of s') j = desc_of (pm_of s) j;
  gr_live : ∀ j, j ≠ i → live (pm_of s') fl' j ↔ live (pm_of s) fl j;
}.

Record gave_run (s s' : ext_st) (fl fl' : list Z) (cs cs' : list RunCase) (i rid : Z) : Prop := {
  gv_pool : same_pool s s';
  gv_cases : cases_inv s' fl' cs';
  gv_busy : ∀ j r, busy (pm_of s') fl' j r ↔ busy (pm_of s) fl j r ∧ ¬ (j = i ∧ r = rid);
  gv_same : ∀ j r, has_runs (pm_of s) j → busy (pm_of s) fl j r → ¬ (j = i ∧ r = rid) →
    run_same s s' fl' j r;
  gv_large : ∀ j k, glused s' fl' cs' j k ↔ glused s fl cs j k;
  gv_ldesc : ∀ j, live (pm_of s) fl j → ed_type (desc_of (pm_of s) j) = kLarge →
    live (pm_of s') fl' j ∧ desc_of (pm_of s') j = desc_of (pm_of s) j;
}.

(** The effect on the runs of handing out or taking back a large region of [i]. *)
Record large_frame (s s' : ext_st) (fl fl' : list Z) (cs' : list RunCase) (i : Z) : Prop := {
  lf_pool : same_pool s s';
  lf_cases : cases_inv s' fl' cs';
  lf_busy : ∀ j r, has_runs (pm_of s') j → busy (pm_of s') fl' j r →
    has_runs (pm_of s) j ∧ busy (pm_of s) fl j r;
  lf_same : ∀ j r, has_runs (pm_of s) j → busy (pm_of s) fl j r → run_same s s' fl' j r;
  lf_ldesc : ∀ j, j ≠ i → live (pm_of s) fl j →
    live (pm_of s') fl' j ∧ desc_of (pm_of s') j = desc_of (pm_of s) j;
}.

(** The region [k] of the extent [i] is handed out: it was not in use, its token
    is free, and it comes from the bin [j0]. *)
Record got_large (s s' : ext_st) (fl fl' : list Z) (cs cs' : list RunCase) (x j0 i k : Z) : Prop := {
  gl_frame : large_frame s s' fl fl' cs' i;
  gl_live : live (pm_of s') fl' i;
  gl_desc : ed_type (desc_of (pm_of s') i) = kLarge ∧ ed_rcase (desc_of (pm_of s') i) = x ∧
    ed_size (desc_of (pm_of s') i) = case_lsize j0;
  gl_range : 0 ≤ k < ed_count (desc_of (pm_of s') i);
  gl_free : ¬ glused s fl cs i k;
  gl_used : ∀ j m, glused s' fl' cs' j m ↔ j = i ∧ m = k ∨ glused s fl cs j m;
  gl_token : token_byte (pm_of s') (TLarge (ext_addr (pm_of s') i) k) = Some kFreeCode;
  gl_keep : live (pm_of s) fl i → desc_of (pm_of s') i = desc_of (pm_of s) i;
}.

(** The region [k] of the extent [i] is taken back. *)
Record gave_large (s s' : ext_st) (fl fl' : list Z) (cs cs' : list RunCase) (i k : Z) : Prop := {
  vl_frame : large_frame s s' fl fl' cs' i;
  vl_used : ∀ j m, glused s' fl' cs' j m ↔ glused s fl cs j m ∧ ¬ (j = i ∧ m = k);
  vl_token : live (pm_of s') fl' i → ∀ m, m ≠ k → let a := ext_addr (pm_of s) i in
    token_byte (pm_of s') (TLarge a m) = token_byte (pm_of s) (TLarge a m);
  vl_size : live (pm_of s') fl' i → ed_type (desc_of (pm_of s') i) = ed_type (desc_of (pm_of s) i) ∧
    ed_size (desc_of (pm_of s') i) = ed_size (desc_of (pm_of s) i);
}.

(** The bin, the run size and the type of run of a size class. *)
Definition index_bin (index : Z) : Z := default 0 (cbin2rbin index).
Definition index_rsize (index : Z) : Z := case_rsize (index_bin index).
Definition index_type (index : Z) : RegionType := if index <=? 19 then kSmall else kMedium.

(** No run or large region is left for the bin, and no extent. *)
Definition case_no_space (s : ext_st) (fl : list Z) (c : RunCase) (j : Z) : Prop :=
  ∀ b, nthZ (rc_rbins c) j = Some b → no_space s fl b false.
Definition case_no_large (s : ext_st) (fl : list Z) (c : RunCase) (j : Z) : Prop :=
  ∀ b, nthZ (rc_lbins c) j = Some b → large_no_space s fl b false.

(** The busy run [rid] of the extent [i] belongs to the bin of the case [x] that
    serves the class [index]. *)
Definition run_of_bin (s : ext_st) (fl : list Z) (x index i rid : Z) : Prop :=
  busy (pm_of s) fl i rid ∧ ed_type (desc_of (pm_of s) i) = index_type index ∧
  ed_rcase (desc_of (pm_of s) i) = x ∧ ed_size (desc_of (pm_of s) i) = index_rsize index.

(** The regions of the other bins than the bin [j0] of the case [x]. *)
Definition other_lused (s : ext_st) (fl : list Z) (cs : list RunCase) (x j0 i k : Z) : Prop :=
  ∃ y c j b, nthZ cs y = Some c ∧ nthZ (rc_lbins c) j = Some b ∧ ¬ (y = x ∧ j = j0) ∧ lused s fl b i k.

(** A run case that has just been constructed. *)
Definition new_case (index : Z) : RunCase :=
  let types := (λ j, (case_type j, case_rsize j)) <$> seqZ 0 kRunTypeCount in {|
  rc_index := index; rc_desc2rbid := zip types (seqZ 0 kRunTypeCount);
  rc_rbins := (λ ts, RunBin_init index ts.1 ts.2) <$> types;
  rc_lbins := (λ j, {| lbin_rcase := index; lbin_size := case_lsize j; lbin_0 := ∅; lbin_1 := ∅ |})
                <$> seqZ 0 lbin_count |}.

(** ** Lemmas *)

Section lemmas.
Context `{UtilSpec} `{UnorderedMapSpec}.
Implicit Types (s : ext_st) (fl ml : list Z) (c : RunCase) (cs : list RunCase).

(** *** The tables *)

Lemma kLargeTypeCount_ok : kLargeTypeCount = lbin_count.
Proof. unfold kLargeTypeCount. rewrite popcount_spec; [reflexivity|by vm_compute]. Qed.

Lemma kMaxSmallIndex_ok : kMaxSmallIndex = 19.
Proof.
  unfold kMaxSmallIndex. rewrite (size2index_big _ 10); [reflexivity|by vm_compute..].
Qed.

(** The bin of every size class. *)
Definition class_bin_check (index : Z) : bool :=
  match cbin2rbin index with
  | Some j =>
      (0 <=? j) && (j <? kRunTypeCount) && Bool.eqb (index <=? 19) (j <=? 2) &&
      if index <=? 19 then (4 <=? index2size_compute index) && (index2size_compute index <=? kMaxSmallSize)
      else (kMaxSmallSize <? index2size_compute index) && (index2size_compute index <=? kMaxMediumSize) &&
           (case_rsize j / index2size_compute index <=? 51)
  | None => false
  end.
Lemma class_bins_checked : forallb class_bin_check (seqZ 0 40) = true.
Proof. vm_compute. reflexivity. Qed.

Lemma class_bin index :
  0 ≤ index < 40 → ∃ j, cbin2rbin index = Some j ∧ 0 ≤ j < kRunTypeCount ∧
    (index ≤ 19 → case_type j = kSmall ∧ small_rsize (case_rsize j) ∧
       4 ≤ index2size_compute index ≤ kMaxSmallSize) ∧
    (19 < index → case_type j = kMedium ∧ medium_rsize (case_rsize j) ∧
       medium_class (case_rsize j) (index2size_compute index)).
Proof.
  intros Hi. pose proof class_bins_checked as Hall. rewrite forallb_forall in Hall.
  specialize (Hall index). rewrite <-list_elem_of_In, elem_of_seqZ in Hall.
  specialize (Hall ltac:(lia)). unfold class_bin_check in Hall.
  destruct (cbin2rbin index) as [j|]; [|done]. exists j. split; [done|].
  apply andb_true_iff in Hall as [Hall Hsz]. apply andb_true_iff in Hall as [Hall Ht%eqb_prop].
  apply andb_true_iff in Hall as [Hj0%Z.leb_le Hj6%Z.ltb_lt]. split; [done|].
  change kRunTypeCount with 6 in Hj6. unfold case_type.
  assert (j = 0 ∨ j = 1 ∨ j = 2 ∨ j = 3 ∨ j = 4 ∨ j = 5) as Hj by lia.
  split; intros Hx.
  - rewrite (proj2 (Z.leb_le index 19)) in Ht, Hsz by lia. rewrite <-Ht. bool_split.
    split; [done|]. split; [|lia]. symmetry in Ht. apply Z.leb_le in Ht.
    assert (j = 0 ∨ j = 1 ∨ j = 2) as Hj' by lia. unfold small_rsize.
    destruct Hj' as [->|[->| ->]]; cbn; rewrite !elem_of_cons; tauto.
  - rewrite (proj2 (Z.leb_gt index 19)) in Ht, Hsz by lia. rewrite <-Ht. bool_split.
    split; [done|]. split; [|split; lia]. symmetry in Ht. apply Z.leb_gt in Ht.
    assert (j = 3 ∨ j = 4 ∨ j = 5) as Hj' by lia. unfold medium_rsize.
    destruct Hj' as [->|[->| ->]]; cbn; rewrite !elem_of_cons; tauto.
Qed.

(** *** Addresses of runs and of their metadata *)

Lemma is_medium_run p j : has_runs p j → is_medium p j = false → ed_type (desc_of p j) = kSmall.
Proof. unfold is_medium. intros [Ht|Ht] Hm; [done|]. by rewrite bool_decide_true in Hm. Qed.

Lemma busy_offset s fl ml j r :
  pool_inv s fl ml → busy (pm_of s) fl j r →
  0 < ed_size (desc_of (pm_of s) j) ∧ 0 ≤ r * ed_size (desc_of (pm_of s) j) ∧
  r * ed_size (desc_of (pm_of s) j) + ed_size (desc_of (pm_of s) j) ≤ kExtentSize ∧
  0 ≤ j < ext_total_ (pm_head (pm_of s)).
Proof.
  intros Hp (Hl & Hr & _). destruct (inv_live _ _ _ (pi_ext _ _ _ Hp) j Hl) as (Hs & Hc & _).
  pose proof (live_range s fl ml j Hp Hl). pose proof (Z.mul_div_le kExtentSize _ Hs).
  split; [done|]. split; [nia|]. split; [|done]. nia.
Qed.

Lemma ext_at_inj s i j x y :
  0 ≤ x < kExtentSize → 0 ≤ y < kExtentSize → ext_at s i + x = ext_at s j + y → i = j ∧ x = y.
Proof.
  unfold ext_at, ext_base. change kExtentSize with 4194304. intros. lia.
Qed.

Lemma NoDup_fmap_inj {A B} (f : A → B) (l : list A) x y :
  NoDup (f <$> l) → x ∈ l → y ∈ l → f x = f y → x = y.
Proof.
  intros Hnd [i Hi]%list_elem_of_lookup [j Hj]%list_elem_of_lookup He.
  assert (i = j) as ->; [|congruence].
  apply (NoDup_lookup (f <$> l) i j (f x)); [done| |]; rewrite list_lookup_fmap, ?Hi, ?Hj; simpl; congruence.
Qed.

(** Busy runs have different addresses. *)
Lemma run_at_inj s fl ml i j r q :
  pool_inv s fl ml → busy (pm_of s) fl i r → busy (pm_of s) fl j q → run_at s i r = run_at s j q →
  i = j ∧ r = q.
Proof.
  intros Hp Hi Hj He. destruct (busy_offset _ _ _ _ _ Hp Hi) as (Hs & Ho & Hm & _).
  destruct (busy_offset _ _ _ _ _ Hp Hj) as (Hs' & Ho' & Hm' & _).
  apply ext_at_inj in He as [-> He]; [|lia..]. split; [done|]. nia.
Qed.

(** The MediumMeta of the extents in use do not overlap. *)
Lemma medium_meta_inj p fl ml i j r q :
  ext_inv p fl ml → live p fl i → live p fl j → is_medium p i = true → is_medium p j = true →
  0 ≤ r < 32 → 0 ≤ q < 32 →
  ed_runs (desc_of p i) + r * sizeof_MediumMeta = ed_runs (desc_of p j) + q * sizeof_MediumMeta →
  i = j ∧ r = q.
Proof.
  intros Hinv Hi Hj Hmi Hmj Hr Hq He. pose proof (inv_used _ _ _ Hinv).
  destruct (inv_med _ _ _ Hinv) as (k & _ & _ & Hp).
  assert (NoDup (med_slots p (ext_used (cur_meta p)))) as Hnd.
  { assert (NoDup (slot_addr p <$> seqZ 0 k)) as Hnd.
    { apply NoDup_fmap_2; [intros a b; apply slot_addr_inj|apply NoDup_seqZ]. }
    rewrite <-Hp in Hnd. by apply NoDup_app in Hnd as (Hnd & _). }
  destruct (live_slot p fl ml i Hinv Hi Hmi) as (a & _ & Ea & _).
  destruct (live_slot p fl ml j Hinv Hj Hmj) as (b & _ & Eb & _).
  rewrite Ea, Eb in He. unfold slot_addr, elem_addr in He.
  change kCacheLineSize with 64 in He. change sizeof_MediumMeta with 64 in He.
  assert (a = b ∧ r = q) as [-> ->] by lia. split; [|done].
  apply (NoDup_fmap_inj (λ i, ed_runs (desc_of p i)) _ i j Hnd); [| |congruence];
    apply list_elem_of_filter; (split; [done|]); apply elem_of_seqZ; destruct Hi, Hj; lia.
Qed.

Lemma medium_busy_range s fl ml j r :
  pool_inv s fl ml → busy (pm_of s) fl j r → is_medium (pm_of s) j = true → 0 ≤ r < 32.
Proof.
  intros Hp (Hl & Hr & _) Hm. pose proof (inv_live _ _ _ (pi_ext _ _ _ Hp) j Hl) as Hwf.
  unfold is_medium in Hm. apply bool_decide_eq_true in Hm.
  destruct (wf_medium _ Hwf Hm) as (_ & _ & _ & _ & ?). lia.
Qed.

Lemma has_runs_static p p' j : same_static (desc_of p j) (desc_of p' j) →
  is_medium p' j = is_medium p j ∧ (has_runs p' j ↔ has_runs p j).
Proof. intros (Et & _). unfold is_medium, has_runs. by rewrite Et. Qed.

Lemma meta_addr_same s s' j r :
  same_pool s s' → same_static (desc_of (pm_of s) j) (desc_of (pm_of s') j) →
  run_at s' j r = run_at s j r ∧ meta_addr s' j r = meta_addr s j r.
Proof.
  intros Hs Hst. destruct (has_runs_static _ _ _ Hst) as [Em _]. destruct Hst as (_ & _ & Es & _ & Er).
  destruct (same_pool_addr s s' j 0 Hs) as (_ & _ & Ee). unfold meta_addr, run_at.
  by rewrite Em, Es, Er, Ee.
Qed.

(** A run keeps its state if the metadata at its address is kept. *)
Lemma run_same_intro s s' fl' j r :
  same_pool s s' → busy (pm_of s') fl' j r →
  same_static (desc_of (pm_of s) j) (desc_of (pm_of s') j) →
  (is_medium (pm_of s) j = false → small_at (pm_of s') (run_at s j r) = small_at (pm_of s) (run_at s j r)) →
  (is_medium (pm_of s) j = true → let a := ed_runs (desc_of (pm_of s) j) + r * sizeof_MediumMeta in
     med_at (pm_of s') a = med_at (pm_of s) a) →
  run_same s s' fl' j r.
Proof.
  intros Hs Hb Hst Hsm Hmd. constructor; [done|done|]. unfold run_meta.
  destruct (meta_addr_same s s' j r Hs Hst) as [_ ->]. destruct (has_runs_static _ _ _ Hst) as [-> _].
  unfold meta_addr. destruct (is_medium (pm_of s) j); [by rewrite Hmd|by rewrite Hsm].
Qed.

Lemma same_static_refl d : same_static d d.
Proof. done. Qed.

(** *** Steps of one bin *)

Lemma nthZ_updZ_inv {A} (l : list A) i x y j z :
  nthZ l i = Some x → nthZ (updZ l i y) j = Some z → (j = i ∧ z = y) ∨ (j ≠ i ∧ nthZ l j = Some z).
Proof.
  intros Hi%nthZ_Some Hz. rewrite nthZ_updZ in Hz by done. case_decide; [left|right; by split].
  split; congruence.
Qed.

(** The other cases, and the other bins of the case, are not concerned. *)
Lemma case_other s s' fl fl' b c i :
  bin_step s s' fl fl' b i → rbin_rcase b ≠ rc_index c → case_inv s fl c → case_inv s' fl' c.
Proof.
  intros Hst Hne [h1 h2 h3 h4 h5]. constructor; try done.
  - intros j b' Hb. destruct (h2 j b' Hb) as (Hi & Hr & Hrest). split; [|done].
    eapply bin_step_other; [exact Hst|congruence|done].
  - intros j b' Hb. destruct (h4 j b' Hb) as (Hi & Hr & Hrest). split; [|done].
    eapply lbin_step_other; [exact Hst|congruence|done].
Qed.

Lemma case_rsize_inj i j :
  0 ≤ i < kRunTypeCount → 0 ≤ j < kRunTypeCount → case_rsize i = case_rsize j → i = j.
Proof.
  change kRunTypeCount with 6. intros Hi Hj.
  assert (i = 0 ∨ i = 1 ∨ i = 2 ∨ i = 3 ∨ i = 4 ∨ i = 5) as Hi' by lia.
  assert (j = 0 ∨ j = 1 ∨ j = 2 ∨ j = 3 ∨ j = 4 ∨ j = 5) as Hj' by lia.
  repeat destruct Hi' as [->|Hi']; try subst i; repeat destruct Hj' as [->|Hj']; try subst j; done.
Qed.

Lemma case_lsize_inj i j : 0 ≤ i → 0 ≤ j → case_lsize i = case_lsize j → i = j.
Proof.
  intros Hi Hj. unfold case_lsize. rewrite !Z.shiftl_mul_pow2 by lia. intros He.
  assert (2 ^ (i + 1) = 2 ^ (j + 1)) as Hp by (change kMaxMediumSize with 65536 in He; lia).
  apply Z.pow_inj_r in Hp; lia.
Qed.

Lemma case_rbin_step s s' fl fl' c j b b' i :
  case_inv s fl c → nthZ (rc_rbins c) j = Some b → bin_step s s' fl fl' b i →
  rbin_inv s' fl' b' → same_bin b b' → rbin_1 b' = rbin_1 b →
  case_inv s' fl' (set_rc_rbins (updZ (rc_rbins c) j b') c).
Proof.
  intros [h1 h2 h3 h4 h5] Hj Hst Hb' (E1 & E2 & E3) Hm1. destruct (h2 j b Hj) as (Hb & Hr & Ht & Hs & Hm0).
  constructor; try done.
  - cbn. by rewrite lenZ_updZ.
  - intros k b2 Hk. cbn in Hk. apply (nthZ_updZ_inv _ _ _ _ _ _ Hj) in Hk as [[-> ->]|[Hne Hk]].
    + split; [done|]. rewrite E1, E2, E3, Hm1. done.
    + destruct (h2 k b2 Hk) as (Hb2 & Hr2 & Ht2 & Hs2 & Hm2). split; [|done].
      eapply bin_step_other; [exact Hst| |done]. rewrite Hs, Hs2. intros He. apply Hne.
      apply nthZ_Some in Hj, Hk. rewrite h1 in Hj, Hk. apply case_rsize_inj; [done|done|]. congruence.
  - intros k b2 Hk. destruct (h4 k b2 Hk) as (Hb2 & Hrest). split; [|done].
    eapply lbin_step_other; [exact Hst| |done]. intros He.
    destruct (ri_type _ _ _ Hb) as [Et|Et]; rewrite Et in He; done.
Qed.

Lemma case_lbin_step s s' fl fl' c j b b' i :
  case_inv s fl c → nthZ (rc_lbins c) j = Some b → bin_step s s' fl fl' (as_rbin b) i →
  lbin_inv s' fl' b' → same_lbin b b' → lbin_1 b' = lbin_1 b →
  case_inv s' fl' (set_rc_lbins (updZ (rc_lbins c) j b') c).
Proof.
  intros [h1 h2 h3 h4 h5] Hj Hst Hb' (E1 & E2) Hm1. destruct (h4 j b Hj) as (Hb & Hr & Hs & Hm0).
  destruct (others_step _ _ _ _ _ _ Hst) as [Ho1 Ho2]. constructor; try done.
  - intros k b2 Hk. destruct (h2 k b2 Hk) as (Hb2 & Hrest). split; [|done].
    apply Ho1; [|done]. destruct (ri_type _ _ _ Hb2) as [->| ->]; done.
  - cbn. by rewrite lenZ_updZ.
  - intros k b2 Hk. cbn in Hk. apply (nthZ_updZ_inv _ _ _ _ _ _ Hj) in Hk as [[-> ->]|[Hne Hk]].
    + split; [done|]. rewrite E1, E2, Hm1. done.
    + destruct (h4 k b2 Hk) as (Hb2 & Hr2 & Hs2 & Hm2). split; [|done]. apply Ho2; [|done].
      rewrite Hs, Hs2. intros He. apply Hne. apply nthZ_Some in Hj, Hk.
      apply case_lsize_inj; [lia|lia|]. congruence.
Qed.

Lemma cases_update s s' fl fl' cs x c c' b i :
  cases_inv s fl cs → nthZ cs x = Some c → bin_step s s' fl fl' b i → rbin_rcase b = x →
  case_inv s' fl' c' → rc_index c' = rc_index c → cases_inv s' fl' (updZ cs x c').
Proof.
  intros Hcs Hx Hst Hb Hc' Hi y d Hy. apply (nthZ_updZ_inv _ _ _ _ _ _ Hx) in Hy as [[-> ->]|[Hne Hy]].
  - split; [done|]. rewrite Hi. by apply (Hcs x c).
  - destruct (Hcs y d Hy) as [Hd Hdx]. split; [|done].
    eapply case_other; [exact Hst|congruence|done].
Qed.

(** *** The large regions in use *)

Lemma glused_split s fl cs x c j0 b i k :
  nthZ cs x = Some c → nthZ (rc_lbins c) j0 = Some b →
  glused s fl cs i k ↔ lused s fl b i k ∨ other_lused s fl cs x j0 i k.
Proof.
  intros Hx Hj0. split.
  - intros (y & d & j & lb & Hy & Hj & Hu). destruct (decide (y = x ∧ j = j0)) as [[-> ->]|Hne].
    + left. congruence.
    + right. by exists y, d, j, lb.
  - intros [Hu|(y & d & j & lb & Hy & Hj & _ & Hu)]; [by exists x, c, j0, b|by exists y, d, j, lb].
Qed.

(** Two bins that hold the same extent are the same bin. *)
Lemma other_lused_bin s fl cs x c j0 b i k :
  cases_inv s fl cs → nthZ cs x = Some c → nthZ (rc_lbins c) j0 = Some b →
  in_lbin (pm_of s) b i → ¬ other_lused s fl cs x j0 i k.
Proof.
  intros Hcs Hx Hj0 (_ & Er & Es) (y & d & j & lb & Hy & Hj & Hne & _ & (_ & Er' & Es') & _).
  destruct (Hcs x c Hx) as [Hc Ec], (Hcs y d Hy) as [Hd Ed]. simpl in *.
  destruct (ci_lbin _ _ _ Hc j0 b Hj0) as (_ & Hr & Hs & _).
  destruct (ci_lbin _ _ _ Hd j lb Hj) as (_ & Hr' & Hs' & _). apply Hne. split; [congruence|].
  apply nthZ_Some in Hj, Hj0. apply case_lsize_inj; [lia|lia|congruence].
Qed.

Lemma glused_other s s' fl fl' cs b i :
  cases_inv s fl cs → bin_step s s' fl fl' b i → rbin_type b ≠ kLarge →
  ∀ x c m j k, nthZ cs x = Some c →
  glused s' fl' (updZ cs x (set_rc_rbins m c)) j k ↔ glused s fl cs j k.
Proof.
  intros Hcs Hst Ht x c m j k Hx.
  assert (∀ y d n lb, nthZ cs y = Some d → nthZ (rc_lbins d) n = Some lb →
    lused s' fl' lb j k ↔ lused s fl lb j k) as Hall.
  { intros y d n lb Hy Hn. destruct (Hcs y d Hy) as [Hd _].
    destruct (ci_lbin _ _ _ Hd n lb Hn) as (Hlb & _).
    eapply lbin_step_other; [exact Hst|congruence|done]. }
  split.
  - intros (y & d & n & lb & Hy & Hn & Hu). apply (nthZ_updZ_inv _ _ _ _ _ _ Hx) in Hy as [[-> ->]|[Hne Hy]].
    + exists x, c, n, lb. split; [done|]. split; [done|]. by eapply Hall.
    + exists y, d, n, lb. split; [done|]. split; [done|]. by eapply Hall.
  - intros (y & d & n & lb & Hy & Hn & Hu). pose proof (Hall y d n lb Hy Hn) as Hlb.
    pose proof (nthZ_Some _ _ _ Hx) as Hxr. destruct (decide (x = y)) as [->|Hne].
    + exists y, (set_rc_rbins m c), n, lb. rewrite nthZ_updZ_eq by done.
      assert (d = c) as -> by congruence. split; [done|]. split; [done|]. by apply Hlb.
    + exists y, d, n, lb. rewrite nthZ_updZ_ne by done. split; [done|]. split; [done|]. by apply Hlb.
Qed.

Lemma glused_bin s s' fl fl' cs x c j0 b b' i :
  cases_inv s fl cs → nthZ cs x = Some c → nthZ (rc_lbins c) j0 = Some b →
  bin_step s s' fl fl' (as_rbin b) i →
  ∀ j k, other_lused s' fl' (updZ cs x (set_rc_lbins (updZ (rc_lbins c) j0 b') c)) x j0 j k ↔
    other_lused s fl cs x j0 j k.
Proof.
  intros Hcs Hx Hj0 Hst j k. destruct (Hcs x c Hx) as [Hc Ec].
  destruct (ci_lbin _ _ _ Hc j0 b Hj0) as (_ & Hr & Hs & _).
  assert (∀ y d n lb, nthZ cs y = Some d → nthZ (rc_lbins d) n = Some lb → ¬ (y = x ∧ n = j0) →
    lused s' fl' lb j k ↔ lused s fl lb j k) as Hall.
  { intros y d n lb Hy Hn Hne. destruct (Hcs y d Hy) as [Hd Ed].
    destruct (ci_lbin _ _ _ Hd n lb Hn) as (Hlb & Hr' & Hs' & _).
    eapply lbin_step_other; [exact Hst| |done]. simpl. intros He. apply Hne. split; [congruence|].
    apply nthZ_Some in Hn, Hj0. apply case_lsize_inj; [lia|lia|congruence]. }
  pose proof (nthZ_Some _ _ _ Hx) as Hxr. split.
  - intros (y & d & n & lb & Hy & Hn & Hne & Hu).
    apply (nthZ_updZ_inv _ _ _ _ _ _ Hx) in Hy as [[-> ->]|[Hnx Hy]].
    + cbn in Hn. rewrite nthZ_updZ_ne in Hn by (intros ->; by apply Hne).
      exists x, c, n, lb. split; [done|]. split; [done|]. split; [done|]. by eapply Hall.
    + exists y, d, n, lb. split; [done|]. split; [done|]. split; [done|]. by eapply Hall.
  - intros (y & d & n & lb & Hy & Hn & Hne & Hu). pose proof (Hall y d n lb Hy Hn Hne) as Hlb.
    destruct (decide (x = y)) as [->|Hnx].
    + assert (d = c) as -> by congruence.
      eexists y, _, n, lb. rewrite nthZ_updZ_eq by done. split; [done|]. cbn.
      rewrite nthZ_updZ_ne by (intros ->; by apply Hne). split; [done|]. split; [done|]. by apply Hlb.
    + exists y, d, n, lb. rewrite nthZ_updZ_ne by done. split; [done|]. split; [done|]. split; [done|]. by apply Hlb.
Qed.

(** *** From the bins to the pool *)

(** The extents of other types than that of a bin of runs. *)
Lemma large_kept s s' fl fl' b i j :
  bin_step s s' fl fl' b i → rbin_type b ≠ kLarge → live (pm_of s) fl j →
  ed_type (desc_of (pm_of s) j) = kLarge → live (pm_of s') fl' j ∧ desc_of (pm_of s') j = desc_of (pm_of s) j.
Proof.
  intros Hst Ht Hl Hj. assert (j ≠ i) as Hne.
  { intros ->. destruct (bs_before _ _ _ _ _ _ Hst Hl) as (Et & _). congruence. }
  split; [by apply (bs_live _ _ _ _ _ _ Hst j Hne)|by apply (bs_desc _ _ _ _ _ _ Hst)].
Qed.

Lemma taken_got s s' fl fl' cs x c j b b' run i rid :
  cases_inv s fl cs → nthZ cs x = Some c → nthZ (rc_rbins c) j = Some b →
  run_taken s s' fl fl' b b' run i rid → rbin b' true = rbin b true →
  (∀ q r, busy (pm_of s) fl q r → is_medium (pm_of s) q = false →
     small_at (pm_of s') (run_at s q r) = small_at (pm_of s) (run_at s q r)) →
  (∀ q r, busy (pm_of s) fl q r → is_medium (pm_of s) q = true →
     let a := ed_runs (desc_of (pm_of s) q) + r * sizeof_MediumMeta in
     med_at (pm_of s') a = med_at (pm_of s) a) →
  got_run s s' fl fl' cs (updZ cs x (set_rc_rbins (updZ (rc_rbins c) j b') c)) x
    (case_type j) (case_rsize j) i rid.
Proof.
  intros Hcs Hx Hj [Hst Hinv Hsb Ha Hr Hl Hf Hbusy Hstat] Hob Hsm Hmd.
  destruct (Hcs x c Hx) as [Hc Ec]. destruct (ci_rbin _ _ _ Hc j b Hj) as (Hb & Erc & Et & Es & Em).
  assert (rbin_type b ≠ kLarge) as Hnl by (destruct (ri_type _ _ _ Hb) as [->| ->]; done).
  constructor; [apply Hst| |done|done| | |by intros; eapply glused_other| |exact (bs_live _ _ _ _ _ _ Hst)].
  - eapply cases_update; [exact Hcs|exact Hx|exact Hst|congruence| |done].
    by apply (case_rbin_step s s' fl fl' c j b b' i).
  - destruct (bs_after _ _ _ _ _ _ Hst Hl) as (-> & -> & ->). split; [done|]. split; [congruence|done].
  - intros q r Hq Hqr. apply run_same_intro; [apply Hst|apply Hbusy; by right| |by apply Hsm|by apply Hmd].
    destruct (decide (q = i)) as [->|Hne]; [apply Hstat, Hqr|].
    rewrite (bs_desc _ _ _ _ _ _ Hst q Hne). apply same_static_refl.
  - intros q. by apply (large_kept s s' fl fl' b i q).
Qed.

Lemma returned_gave s s' fl fl' ml cs x c j b b' i rid :
  pool_inv s fl ml → cases_inv s fl cs → nthZ cs x = Some c → nthZ (rc_rbins c) j = Some b →
  run_returned s s' fl fl' b b' i rid → rbin b' true = rbin b true → live (pm_of s) fl i →
  gave_run s s' fl fl' cs (updZ cs x (set_rc_rbins (updZ (rc_rbins c) j b') c)) i rid.
Proof.
  intros Hp Hcs Hx Hj [Hst Hinv Hsb Hbusy Hsm Hstat Hmd] Hob Hli.
  destruct (Hcs x c Hx) as [Hc Ec]. destruct (ci_rbin _ _ _ Hc j b Hj) as (Hb & Erc & Et & Es & Em).
  assert (rbin_type b ≠ kLarge) as Hnl by (destruct (ri_type _ _ _ Hb) as [->| ->]; done).
  constructor; [apply Hst| |done| |by intros; eapply glused_other|].
  - eapply cases_update; [exact Hcs|exact Hx|exact Hst|congruence| |done].
    by apply (case_rbin_step s s' fl fl' c j b b' i).
  - intros q r Hq Hqr Hne. assert (busy (pm_of s') fl' q r) as Hqr' by (by apply Hbusy).
    apply run_same_intro; [apply Hst|done| |by unfold small_at; rewrite Hsm|].
    + destruct (decide (q = i)) as [->|Hqi]; [apply Hstat, Hqr'|].
      rewrite (bs_desc _ _ _ _ _ _ Hst q Hqi). apply same_static_refl.
    + intros Hmq a. destruct (Hmd a) as [->|(Hmi & Hai & Hnl')]; [done|]. exfalso.
      destruct (decide (q = i)) as [->|Hqi]; [by apply Hnl', Hqr'|].
      destruct (medium_meta_inj (pm_of s) fl ml q i r 0 (pi_ext _ _ _ Hp)) as [? _]; try done; [apply Hqr| |].
      * apply (medium_busy_range s fl ml q r Hp Hqr Hmq).
      * fold a. lia.
  - intros q. by apply (large_kept s s' fl fl' b i q).
Qed.

(** *** The operations *)

Lemma set_rc_rbins_id c j b : nthZ (rc_rbins c) j = Some b → set_rc_rbins (updZ (rc_rbins c) j b) c = c.
Proof. intros Hj. rewrite updZ_id by done. by destruct c. Qed.
Lemma set_rc_lbins_id c j b : nthZ (rc_lbins c) j = Some b → set_rc_lbins (updZ (rc_lbins c) j b) c = c.
Proof. intros Hj. rewrite updZ_id by done. by destruct c. Qed.

(** The bin that serves a size class. *)
Lemma case_bin s fl cs x c index :
  cases_inv s fl cs → nthZ cs x = Some c → 0 ≤ index < 40 →
  ∃ b, cbin2rbin index = Some (index_bin index) ∧ index_bin index < kRunTypeCount ∧
    nthZ (rc_rbins c) (index_bin index) = Some b ∧
    rbin_inv s fl b ∧ rbin_rcase b = x ∧ rbin_type b = index_type index ∧
    rbin_type b = case_type (index_bin index) ∧
    rbin_rsize b = index_rsize index ∧ rbin_1 b = ∅ ∧
    (index ≤ 19 → small_rsize (index_rsize index) ∧ 4 ≤ index2size_compute index ≤ kMaxSmallSize) ∧
    (19 < index → medium_rsize (index_rsize index) ∧
       medium_class (index_rsize index) (index2size_compute index)).
Proof.
  intros Hcs Hx Hi. destruct (Hcs x c Hx) as [Hc Ec].
  destruct (class_bin index Hi) as (j & Hj & Hr & Hsm & Hmd). unfold index_bin, index_rsize, index_type.
  unfold index_bin. rewrite Hj. simpl. destruct (nthZ_is_Some (rc_rbins c) j) as [b Hb];
    [by rewrite (ci_nr _ _ _ Hc)|]. exists b.
  destruct (ci_rbin _ _ _ Hc j b Hb) as (Hinv & Erc & Et & Es & Em).
  split; [done|]. split; [lia|]. split; [done|]. split; [done|]. split; [congruence|].
  split; [|split; [done|split; [done|split; [done|split; [intros; apply Hsm; lia|intros; apply Hmd; lia]]]]].
  rewrite Et. destruct (Z.leb_spec index 19); [by apply Hsm|apply Hmd; lia].
Qed.

Lemma taken_static s s' fl fl' b b' run i rid q r :
  run_taken s s' fl fl' b b' run i rid → busy (pm_of s) fl q r →
  same_static (desc_of (pm_of s) q) (desc_of (pm_of s') q).
Proof.
  intros Ht Hqr. destruct (decide (q = i)) as [->|Hne]; [apply (rt_static _ _ _ _ _ _ _ _ _ Ht), Hqr|].
  rewrite (bs_desc _ _ _ _ _ _ (rt_step _ _ _ _ _ _ _ _ _ Ht) q Hne). apply same_static_refl.
Qed.

(** The address of the run that is taken, and that no other run has it. *)
Lemma taken_addr s s' fl fl' ml' b b' run i rid :
  pool_inv s' fl' ml' → run_taken s s' fl fl' b b' run i rid →
  run = run_at s' i rid ∧ is_medium (pm_of s') i = bool_decide (rbin_type b = kMedium) ∧
  (∀ q r, busy (pm_of s) fl q r → run_at s q r ≠ run) ∧
  (∀ q r, busy (pm_of s) fl q r → is_medium (pm_of s) q = true → rbin_type b = kMedium →
     ed_runs (desc_of (pm_of s) q) + r * sizeof_MediumMeta ≠
     ed_runs (desc_of (pm_of s') i) + rid * sizeof_MediumMeta).
Proof.
  intros Hp' Ht. pose proof (rt_step _ _ _ _ _ _ _ _ _ Ht) as Hst.
  destruct (bs_after _ _ _ _ _ _ Hst (rt_live _ _ _ _ _ _ _ _ _ Ht)) as (Et & _ & Es).
  assert (run = run_at s' i rid) as Erun.
  { rewrite (rt_addr _ _ _ _ _ _ _ _ _ Ht). unfold run_at. rewrite Es.
    by destruct (same_pool_addr s s' i 0 (bs_same _ _ _ _ _ _ Hst)) as (_ & _ & ->). }
  assert (is_medium (pm_of s') i = bool_decide (rbin_type b = kMedium)) as Em by (unfold is_medium; by rewrite Et).
  assert (busy (pm_of s') fl' i rid) as Hb by (apply (rt_busy _ _ _ _ _ _ _ _ _ Ht); by left).
  assert (∀ q r, busy (pm_of s) fl q r → busy (pm_of s') fl' q r ∧ ¬ (q = i ∧ r = rid)) as Hoth.
  { intros q r Hqr. split; [apply (rt_busy _ _ _ _ _ _ _ _ _ Ht); by right|].
    intros [-> ->]. by apply (rt_free _ _ _ _ _ _ _ _ _ Ht). }
  split; [done|]. split; [done|]. split.
  - intros q r Hqr He. destruct (Hoth q r Hqr) as [Hqr' Hne]. apply Hne.
    destruct (meta_addr_same s s' q r (bs_same _ _ _ _ _ _ Hst) (taken_static _ _ _ _ _ _ _ _ _ _ _ Ht Hqr)) as [Er _].
    apply (run_at_inj s' fl' ml'); [done|done|done|congruence].
  - intros q r Hqr Hm Hbt He. destruct (Hoth q r Hqr) as [Hqr' Hne]. apply Hne.
    pose proof (taken_static _ _ _ _ _ _ _ _ _ _ _ Ht Hqr) as Hss.
    destruct (has_runs_static _ _ _ Hss) as [Em' _]. destruct Hss as (_ & _ & _ & _ & Er).
    rewrite <-Er in He. rewrite bool_decide_true in Em by done.
    apply (medium_meta_inj (pm_of s') fl' ml'); try done; [apply Hp'|apply Hqr'|apply Hb|congruence| |].
    + apply (medium_busy_range s' fl' ml' q r); [done|done|congruence].
    + by apply (medium_busy_range s' fl' ml' i rid).
Qed.

Lemma wp_case_srun_acquire s fl ml cs x c arena index Q :
  pool_inv s fl ml → cases_inv s fl cs → nthZ cs x = Some c → 0 ≤ index ≤ 19 → 0 ≤ arena < 2 ^ 16 →
  (case_no_space s fl c (index_bin index) → Q (c, (nullptr, nullptr)) s) →
  (∀ s' fl' ml' c' i rid m, pool_inv s' fl' ml' →
     got_run s s' fl fl' cs (updZ cs x c') x kSmall (index_rsize index) i rid →
     run_meta s' i rid = inl m → fresh_small m (index_rsize index) arena (index2size_compute index) →
     Q (c', (run_at s' i rid, run_at s' i rid)) s') →
  wp (RunCase_srun_acquire c SizeClass_new arena index false) Q s.
Proof.
  intros Hp Hcs Hx Hi Har Hnone HQ.
  destruct (case_bin s fl cs x c index Hcs Hx) as (b & Hj & Hjr & Hb & Hinv & Erc & Et & Etj & Es & Em & Hsm & _); [lia|].
  destruct (Hsm ltac:(lia)) as [Hrs Hsz]. clear Hsm.
  assert (rbin_type b = kSmall) as Ets by (rewrite Et; unfold index_type; by rewrite (proj2 (Z.leb_le _ _)) by lia).
  unfold RunCase_srun_acquire. rewrite kMaxSmallIndex_ok, Hj.
  wp_step. wp_step; [apply Z.leb_le; lia|]. wp_step. wp_step; [done|].
  wp_step. eapply wp_pure; [apply index2size_ok; lia|].
  wp_step. wp_step; [apply andb_true_iff; split; [by apply Z.ltb_lt|apply Z.leb_le; lia]|].
  unfold with_rbin. wp_step. wp_step; [exact Hb|]. wp_step.
  apply (wp_srun_acquire s fl ml); [done|done|done|by rewrite Es|done|done|..].
  - intros Hfl Hu He. cbv beta iota. wp_step. rewrite set_rc_rbins_id by done. apply Hnone.
    intros b0 Hb0. assert (b0 = b) as -> by congruence. split; [done|].
    intros k Hk. rewrite Hfl. split; [lia|apply not_elem_of_nil].
  - intros s' fl' ml' b' run i rid Hp' Htk Hm Ho Hmed Hob. cbv beta iota. wp_step.
    destruct (taken_addr _ _ _ _ _ _ _ _ _ _ Hp' Htk) as (Erun & Emi & Hne & _).
    pose proof (taken_got s s' fl fl' cs x c _ b b' run i rid Hcs Hx Hb Htk Hob) as Hgot.
    rewrite Ets, bool_decide_false in Emi by done. rewrite <-Etj, Ets in Hgot. rewrite Erun.
    rewrite Es in Hm. apply (HQ s' fl' ml' _ i rid (small_at (pm_of s') run)); [done| | |done].
    + apply Hgot.
      * intros q r Hqr _. by apply Ho, Hne.
      * intros q r _ _ a. unfold med_at. by rewrite Hmed.
    + unfold run_meta, meta_addr. by rewrite Emi, <-Erun.
Qed.

Lemma wp_case_mrun_acquire s fl ml cs x c arena index Q :
  pool_inv s fl ml → cases_inv s fl cs → nthZ cs x = Some c → 19 < index < 40 → 0 ≤ arena < 2 ^ 16 →
  (case_no_space s fl c (index_bin index) → Q (c, (nullptr, nullptr)) s) →
  (∀ s' fl' ml' c' i rid m, pool_inv s' fl' ml' →
     got_run s s' fl fl' cs (updZ cs x c') x kMedium (index_rsize index) i rid →
     run_meta s' i rid = inr m → fresh_medium m (index_rsize index) arena (index2size_compute index) →
     Q (c', (meta_addr s' i rid, run_at s' i rid)) s') →
  wp (RunCase_mrun_acquire c SizeClass_new arena index false) Q s.
Proof.
  intros Hp Hcs Hx Hi Har Hnone HQ.
  destruct (case_bin s fl cs x c index Hcs Hx) as (b & Hj & Hjr & Hb & Hinv & Erc & Et & Etj & Es & Em & _ & Hmd); [lia|].
  destruct (Hmd ltac:(lia)) as [Hrs Hsz]. clear Hmd.
  assert (rbin_type b = kMedium) as Ets by (rewrite Et; unfold index_type; by rewrite (proj2 (Z.leb_gt _ _)) by lia).
  unfold RunCase_mrun_acquire. rewrite kMaxSmallIndex_ok, Hj.
  wp_step. wp_step; [apply andb_true_iff; split; apply Z.ltb_lt; change kNSlabsCached with 40; lia|].
  wp_step. wp_step; [done|]. wp_step. wp_step; [by apply Z.ltb_lt|].
  wp_step. eapply wp_pure; [apply index2size_ok; lia|].
  wp_step. wp_step; [destruct Hsz; apply andb_true_iff; split; [apply Z.ltb_lt; lia|apply Z.leb_le; lia]|].
  unfold with_rbin. wp_step. wp_step; [exact Hb|]. wp_step.
  apply (wp_mrun_acquire s fl ml); [done|done|done|by rewrite Es|by rewrite Es|done|..].
  - intros Hfl Hu He. cbv beta iota. wp_step. rewrite set_rc_rbins_id by done. apply Hnone.
    intros b0 Hb0. assert (b0 = b) as -> by congruence. split; [done|].
    intros k Hk. rewrite Hfl. split; [lia|apply not_elem_of_nil].
  - intros s' fl' ml' b' run i rid Hp' Htk meta Hm Ho Hsml Hob. cbv beta iota. wp_step.
    destruct (taken_addr _ _ _ _ _ _ _ _ _ _ Hp' Htk) as (Erun & Emi & _ & Hne).
    pose proof (taken_got s s' fl fl' cs x c _ b b' run i rid Hcs Hx Hb Htk Hob) as Hgot.
    rewrite Ets, bool_decide_true in Emi by done. rewrite <-Etj, Ets in Hgot. rewrite Erun.
    assert (meta = meta_addr s' i rid) as Emeta by (unfold meta_addr; by rewrite Emi).
    rewrite Es in Hm. rewrite Emeta. apply (HQ s' fl' ml' _ i rid (med_at (pm_of s') meta)); [done| | |done].
    + apply Hgot.
      * intros q r _ _. unfold small_at. by rewrite Hsml.
      * intros q r Hqr Hmq. by apply Ho, Hne.
    + unfold run_meta. by rewrite Emi, <-Emeta.
Qed.

Lemma wp_assert_rcase s fl ml c i off Q :
  pool_inv s fl ml → live (pm_of s) fl i → 0 ≤ off < kExtentSize →
  ed_rcase (desc_of (pm_of s) i) = rc_index c → Q tt s → wp (assert_rcase c (ext_at s i + off)) Q s.
Proof.
  intros Hp Hl Ho Hr HQ. unfold assert_rcase. wp_step.
  apply (wp_descriptor s fl ml); [done|by eapply live_range|done|]. wp_step. apply wp_pm_ld_desc.
  wp_step; [|done]. fold (desc_of (pm_of s) i). by apply Z.eqb_eq.
Qed.

Lemma wp_case_release s fl ml cs x c index i rid Q :
  pool_inv s fl ml → cases_inv s fl cs → nthZ cs x = Some c → 0 ≤ index < 40 →
  run_of_bin s fl x index i rid →
  (∀ s' fl' ml' c', pool_inv s' fl' ml' → gave_run s s' fl fl' cs (updZ cs x c') i rid → Q c' s') →
  wp (if bool_decide (index_type index = kSmall)
      then RunCase_srun_release c (run_at s i rid) index true false
      else RunCase_mrun_release c (run_at s i rid) index true false) Q s.
Proof.
  intros Hp Hcs Hx Hi (Hbs & Edt & Edr & Eds) HQ.
  destruct (case_bin s fl cs x c index Hcs Hx Hi) as (b & Hj & Hjr & Hb & Hinv & Erc & Et & Etj & Es & Em & _).
  assert (in_bin (pm_of s) b i) as Hin by (split; [congruence|]; split; congruence).
  assert (run_at s i rid = ext_at s i + rid * rbin_rsize b) as Erun by (unfold run_at; congruence).
  assert (rbin b (negb false) !! ext_at s i = None) as Hn by (simpl; by rewrite Em, lookup_empty).
  assert (∀ s' fl' ml' b', pool_inv s' fl' ml' → run_returned s s' fl fl' b b' i rid →
     rbin b' (negb false) = rbin b (negb false) →
     Q (set_rc_rbins (updZ (rc_rbins c) (index_bin index) b') c) s') as HQ'.
  { intros s' fl' ml' b' Hp' Hr Hob. apply (HQ s' fl' ml'); [done|].
    apply (returned_gave s s' fl fl' ml cs x c _ b b'); try done. apply Hbs. }
  clear HQ. pose proof (busy_offset s fl ml i rid Hp Hbs) as (_ & Ho & Ho' & _). rewrite Eds, <-Es in Ho, Ho'.
  assert (0 < rbin_rsize b) by (destruct (ri_req _ _ _ Hinv) as (_ & ? & _); lia).
  assert (∀ (P : unit → ext_st → Prop), P tt s → wp (assert_rcase c (run_at s i rid)) P s) as Har.
  { intros P HP. rewrite Erun. apply (wp_assert_rcase s fl ml); [done|apply Hbs|lia| |done].
    rewrite Edr. symmetry. by apply (Hcs x c). }
  unfold index_type in *. destruct (Z.leb_spec index 19).
  - rewrite bool_decide_true by done. unfold RunCase_srun_release. rewrite kMaxSmallIndex_ok, Hj.
    wp_step. wp_step; [apply Z.leb_le; lia|]. wp_step. apply Har. wp_step. wp_step; [done|].
    wp_step. wp_step; [by apply Z.ltb_lt|]. unfold with_rbin, no_result. wp_step. wp_step. wp_step; [exact Hb|].
    wp_step. wp_step. rewrite Erun. unfold srun_release. wp_step. wp_step; [by apply bool_decide_true|].
    apply (wp_run_release _ _ s fl ml); [| |done|done|done|done|done|exact HQ'].
    + intros d s0 Hwf Htd. apply srun_busy_ok; congruence.
    + intros this r Q0 p lg d Hwf Htd. apply wp_pdealloc_srun; [done|by rewrite <-Et].
  - rewrite bool_decide_false by done. unfold RunCase_mrun_release. rewrite kMaxSmallIndex_ok, Hj.
    wp_step. wp_step; [apply andb_true_iff; split; apply Z.ltb_lt; change kNSlabsCached with 40; lia|].
    wp_step. apply Har. wp_step. wp_step; [done|].
    wp_step. wp_step; [by apply Z.ltb_lt|]. unfold with_rbin, no_result. wp_step. wp_step. wp_step; [exact Hb|].
    wp_step. wp_step. rewrite Erun. unfold mrun_release. wp_step. wp_step; [by apply bool_decide_true|].
    apply (wp_run_release _ _ s fl ml); [| |done|done|done|done|done|exact HQ'].
    + intros d s0 Hwf Htd. apply mrun_busy_ok; congruence.
    + intros this r Q0 p lg d Hwf Htd. apply wp_pdealloc_mrun; [done|by rewrite <-Et].
Qed.

(** *** Large regions *)

Lemma large_bid_ok size :
  kMaxMediumSize < size ≤ kMaxLargeSize →
  0 ≤ large_bid size < lbin_count ∧ size ≤ case_lsize (large_bid size) ∧
  case_lsize (large_bid size) < 2 * size.
Proof.
  change kMaxMediumSize with 65536. change kMaxLargeSize with 4194304. change lbin_count with 6. intros Hs.
  unfold large_bid, case_lsize. change kMaxMediumSize with 65536. unfold u64, wrap.
  rewrite Z.mod_small by lia.
  assert (1 ≤ (size - 1) / 65536 < 2 ^ 6) as Hq by (Z.div_mod_to_equations; lia).
  rewrite index_most1_spec by lia. pose proof (Z.log2_spec ((size - 1) / 65536)) as [Hl Hu]; [lia|].
  assert (0 ≤ Z.log2 ((size - 1) / 65536)) by apply Z.log2_nonneg.
  assert (Z.log2 ((size - 1) / 65536) < 6) by (apply Z.log2_lt_pow2; lia).
  rewrite Z.shiftl_mul_pow2 by lia. rewrite Z.pow_succ_r in Hu by lia. rewrite Z.pow_add_r by lia.
  change (2 ^ 1) with 2. revert Hl Hu. generalize (2 ^ Z.log2 ((size - 1) / 65536)) as b.
  intros b Hl Hu. Z.div_mod_to_equations. lia.
Qed.

Lemma large_bid_lsize j : 0 ≤ j < lbin_count → large_bid (case_lsize j) = j ∧
  kMaxMediumSize < case_lsize j ≤ kMaxLargeSize ∧ case_lsize j mod kPageSize = 0.
Proof.
  change lbin_count with 6. intros Hj. assert (kMaxMediumSize < case_lsize j ≤ kMaxLargeSize ∧
    case_lsize j mod kPageSize = 0) as [Hs Hm].
  { unfold case_lsize. assert (j = 0 ∨ j = 1 ∨ j = 2 ∨ j = 3 ∨ j = 4 ∨ j = 5) as Hj' by lia.
    repeat destruct Hj' as [->|Hj']; try subst j; vm_compute; intuition congruence. }
  split; [|done]. destruct (large_bid_ok (case_lsize j) Hs) as (Hb & Hle & Hlt).
  revert Hb Hle Hlt. generalize dependent (large_bid (case_lsize j)). intros k Hk Hle Hlt. unfold case_lsize in Hle, Hlt.
  rewrite !Z.shiftl_mul_pow2 in Hle, Hlt by lia. change kMaxMediumSize with 65536 in Hle, Hlt.
  assert (2 ^ (j + 1) ≤ 2 ^ (k + 1)) as Hle' by lia.
  assert (2 ^ (k + 1) < 2 ^ (j + 1 + 1)) as Hlt' by (rewrite (Z.pow_add_r 2 (j + 1) 1) by lia; lia).
  apply Z.pow_le_mono_r_iff in Hle'; [|lia..]. apply Z.pow_lt_mono_r_iff in Hlt'; lia.
Qed.

(** The physical size of a region is a whole number of pages of it. *)
Lemma physical_size size :
  kMaxMediumSize < size ≤ kMaxLargeSize →
  roundup kPageSize size mod kPageSize = 0 ∧ 0 < roundup kPageSize size ≤ case_lsize (large_bid size).
Proof.
  intros Hs. destruct (roundup_page size) as (Hm & Hr); [exact Hs|]. split; [exact Hm|].
  change (roundup kPageSize size) with (roundup 4096 size). destruct (large_bid_ok size Hs) as (Hj & Hle & _).
  split; [apply Hr|]. etransitivity; [apply Hr|]. unfold case_lsize in *. rewrite Z.shiftl_mul_pow2 in * by lia.
  change kMaxMediumSize with (2 ^ 16) in *. rewrite <-Z.pow_add_r in * by lia. apply Z.pow_le_mono_r; [lia|].
  apply Z.log2_up_le_pow2; [|exact Hle]. change (2 ^ 16) with 65536 in Hs. lia.
Qed.

(** The bin of large regions of a size. *)
Lemma case_lbin s fl cs x c j :
  cases_inv s fl cs → nthZ cs x = Some c → 0 ≤ j < lbin_count →
  ∃ b, nthZ (rc_lbins c) j = Some b ∧ lbin_inv s fl b ∧ lbin_rcase b = x ∧
    lbin_size b = case_lsize j ∧ lbin_1 b = ∅.
Proof.
  intros Hcs Hx Hj. destruct (Hcs x c Hx) as [Hc Ec].
  destruct (nthZ_is_Some (rc_lbins c) j) as [b Hb]; [by rewrite (ci_nl _ _ _ Hc)|]. exists b.
  destruct (ci_lbin _ _ _ Hc j b Hb) as (Hi & Er & Es & Em). split_and!; try done. congruence.
Qed.

(** The effect on the runs of a step on an extent of a bin of large regions. *)
Lemma large_frame_intro s s' fl fl' cs x c j b b' i :
  cases_inv s fl cs → nthZ cs x = Some c → nthZ (rc_lbins c) j = Some b →
  bin_step s s' fl fl' (as_rbin b) i → lbin_inv s' fl' b' → same_lbin b b' → lbin_1 b' = lbin_1 b →
  (∀ a, small_at (pm_of s') a = small_at (pm_of s) a) →
  (∀ a, med_at (pm_of s') a = med_at (pm_of s) a) →
  large_frame s s' fl fl' (updZ cs x (set_rc_lbins (updZ (rc_lbins c) j b') c)) i.
Proof.
  intros Hcs Hx Hj Hst Hb' Hsb Hm1 Hsm Hmd. destruct (Hcs x c Hx) as [Hc Ec].
  destruct (ci_lbin _ _ _ Hc j b Hj) as (Hb & Er & Es & Em).
  assert (∀ q r, has_runs (pm_of s) q → busy (pm_of s) fl q r → q ≠ i) as Hn1.
  { intros q r Hq (Hl & _) ->. destruct (bs_before _ _ _ _ _ _ Hst Hl) as (Et & _).
    unfold has_runs in Hq. rewrite Et in Hq. by destruct Hq. }
  assert (∀ q r, has_runs (pm_of s') q → busy (pm_of s') fl' q r → q ≠ i) as Hn2.
  { intros q r Hq (Hl & _) ->. destruct (bs_after _ _ _ _ _ _ Hst Hl) as (Et & _).
    unfold has_runs in Hq. rewrite Et in Hq. by destruct Hq. }
  constructor; [apply Hst| | | |].
  - eapply cases_update; [exact Hcs|exact Hx|exact Hst|simpl; congruence| |done].
    by apply (case_lbin_step s s' fl fl' c j b b' i).
  - intros q r Hq Hqr. pose proof (Hn2 q r Hq Hqr) as Hne. unfold has_runs, busy in *.
    rewrite (bs_desc _ _ _ _ _ _ Hst q Hne) in *. split; [done|].
    split; [apply (bs_live _ _ _ _ _ _ Hst q Hne), Hqr|apply Hqr].
  - intros q r Hq Hqr. pose proof (Hn1 q r Hq Hqr) as Hne. apply run_same_intro; [apply Hst| | |done|done].
    + unfold busy in *. rewrite (bs_desc _ _ _ _ _ _ Hst q Hne).
      split; [apply (bs_live _ _ _ _ _ _ Hst q Hne), Hqr|apply Hqr].
    + rewrite (bs_desc _ _ _ _ _ _ Hst q Hne). apply same_static_refl.
  - intros q Hne Hl. split; [by apply (bs_live _ _ _ _ _ _ Hst q Hne)|by apply (bs_desc _ _ _ _ _ _ Hst)].
Qed.

Lemma wp_case_lbin_acquire s fl ml cs x c size Q :
  pool_inv s fl ml → cases_inv s fl cs → nthZ cs x = Some c → kMaxMediumSize < size ≤ kMaxLargeSize →
  (case_no_large s fl c (large_bid size) → Q (c, null_region) s) →
  (∀ s' fl' ml' c' i k, pool_inv s' fl' ml' → got_large s s' fl fl' cs (updZ cs x c') x (large_bid size) i k →
     Q (c', region (Some (TLarge (ext_addr (pm_of s') i) k)) (run_at s' i k)) s') →
  wp (with_lbin c (large_bid size) (λ b, LargeBin_acquire b false)) Q s.
Proof.
  intros Hp Hcs Hx Hsz Hnone HQ. destruct (large_bid_ok size Hsz) as (Hj & _).
  destruct (case_lbin s fl cs x c (large_bid size) Hcs Hx Hj) as (b & Hb & Hinv & Er & Es & Em).
  unfold with_lbin. wp_step. wp_step; [exact Hb|]. wp_step. apply (wp_large_acquire s fl ml); [done|done|..].
  - intros Hn. cbv beta iota. wp_step. rewrite set_rc_lbins_id by done. apply Hnone.
    intros b0 Hb0. by assert (b0 = b) as -> by congruence.
  - intros s' fl' ml' b' i k Hp' [Hst Hinv' Hsb Hr Hf Hu Htok Hl Hkeep Hsm Hmd] Hob. cbv beta iota. wp_step.
    destruct (same_pool_addr s s' i 0 (bs_same _ _ _ _ _ _ Hst)) as (Ea & _ & Ee).
    destruct (bs_after _ _ _ _ _ _ Hst Hl) as (Edt & Edr & Eds). simpl in Edt, Edr, Eds.
    assert (run_at s' i k = ext_at s i + k * lbin_size b) as <- by (unfold run_at; by rewrite Eds, Ee).
    rewrite <-Ea. apply (HQ s' fl' ml'); [done|].
    assert (∀ j m, glused s' fl' (updZ cs x (set_rc_lbins (updZ (rc_lbins c) (large_bid size) b') c)) j m ↔
      j = i ∧ m = k ∨ glused s fl cs j m) as Hg.
    { intros j m. rewrite (glused_split s fl cs x c (large_bid size) b), glused_split;
        [|by apply nthZ_updZ_eq, (nthZ_Some _ _ _ Hx)|cbn; by apply nthZ_updZ_eq, (nthZ_Some _ _ _ Hb)|done|done].
      rewrite (glused_bin s s' fl fl' cs x c (large_bid size) b b' i) by done. rewrite Hu. tauto. }
    constructor; [|done| | | |exact Hg|by rewrite Ea|done].
    + apply (large_frame_intro s s' fl fl' cs x c (large_bid size) b b' i); try done.
      * intros a. unfold small_at. by rewrite Hsm.
      * intros a. unfold med_at. by rewrite Hmd.
    + split; [done|]. split; congruence.
    + destruct (inv_live _ _ _ (pi_ext _ _ _ Hp') i Hl) as (_ & -> & _). by rewrite Eds.
    + rewrite (glused_split s fl cs x c (large_bid size) b) by done. intros [?|Ho]; [done|].
      destruct (decide (live (pm_of s) fl i)) as [Hli|Hli].
      * by apply (other_lused_bin s fl cs x c (large_bid size) b i k Hcs Hx Hb (bs_before _ _ _ _ _ _ Hst Hli)).
      * destruct Ho as (? & ? & ? & ? & _ & _ & _ & Hl' & _). done.
Qed.

(** When nothing is left, the asserts of [physical_space_alloc] reject the null
    pointer. *)
Lemma wp_e_case_large_acquire s fl ml cs x c size (E : error → Prop) Q :
  pool_inv s fl ml → cases_inv s fl cs → nthZ cs x = Some c → kMaxMediumSize < size ≤ kMaxLargeSize →
  (case_no_large s fl c (large_bid size) → E EAssert) →
  (∀ s' fl' ml' c' i k, pool_inv s' fl' ml' → got_large s s' fl fl' cs (updZ cs x c') x (large_bid size) i k →
     Q (c', region (Some (TLarge (ext_addr (pm_of s') i) k)) (run_at s' i k)) s') →
  wp_e (large_acquire c size false) E Q s.
Proof.
  intros Hp Hcs Hx Hsz Hn HQ. destruct (large_bid_ok size Hsz) as (Hj & Hle & _).
  destruct (physical_size size Hsz) as (Hpm & Hpr). unfold large_acquire.
  apply wp_e_bind, wp_e_wp, wp_assert; [apply andb_true_iff; split; [apply Z.ltb_lt|apply Z.leb_le]; lia|].
  apply wp_e_bind, wp_e_wp, wp_assert; [rewrite kLargeTypeCount_ok; apply Z.ltb_lt; lia|].
  apply wp_e_bind, wp_e_wp, (wp_case_lbin_acquire s fl ml cs x c); [done..| |].
  - intros Hnl. cbv beta iota. unfold physical_space_alloc, physical_range.
    cbn [reg_pointer null_region]. unfold wp_e, mbind, M_bind, mgets, massert. cbv beta iota zeta.
    destruct ((nullptr mod kPageSize =? 0) && (roundup kPageSize size mod kPageSize =? 0)); [|by apply Hn].
    destruct (pi_file _ _ _ Hp) as (Hst & _). unfold extents. change kRootSegSize with 8192. change nullptr with 0.
    rewrite (proj2 (Z.leb_gt _ _)) by lia. by apply Hn.
  - intros s' fl' ml' c' i k Hp' Hg. cbv beta iota zeta. cbn [reg_pointer].
    apply wp_e_wp. wp_step. unfold run_at. pose proof (gl_live _ _ _ _ _ _ _ _ _ _ Hg) as Hl.
    destruct (gl_desc _ _ _ _ _ _ _ _ _ _ Hg) as (_ & _ & Es). rewrite Es.
    destruct (large_bid_lsize (large_bid size) Hj) as (_ & Hls & Hlm).
    destruct (inv_live _ _ _ (pi_ext _ _ _ Hp') i Hl) as (_ & Hct & _).
    pose proof (gl_range _ _ _ _ _ _ _ _ _ _ Hg) as Hk. rewrite Hct, Es in Hk.
    change kMaxMediumSize with 65536 in *.
    assert (k * case_lsize (large_bid size) + case_lsize (large_bid size) ≤ kExtentSize).
    { pose proof (Z.mul_div_le kExtentSize (case_lsize (large_bid size))). nia. }
    apply (wp_prealloc s' fl' ml'); [done|by eapply live_range|lia|lia|lia| |done|].
    + apply Z.mod_divide in Hlm as [q Hq]; [|done]. rewrite Hq, Z.mul_assoc. by apply Z.mod_mul.
    + wp_step. specialize (HQ s' fl' ml' c' i k Hp' Hg). unfold run_at in HQ. by rewrite Es in HQ.
Qed.

Lemma wp_case_large_acquire s fl ml cs x c size Q :
  pool_inv s fl ml → cases_inv s fl cs → nthZ cs x = Some c → kMaxMediumSize < size ≤ kMaxLargeSize →
  ¬ case_no_large s fl c (large_bid size) →
  (∀ s' fl' ml' c' i k, pool_inv s' fl' ml' → got_large s s' fl fl' cs (updZ cs x c') x (large_bid size) i k →
     Q (c', region (Some (TLarge (ext_addr (pm_of s') i) k)) (run_at s' i k)) s') →
  wp (large_acquire c size false) Q s.
Proof.
  intros Hp Hcs Hx Hsz Hn HQ.
  by apply (wp_e_case_large_acquire s fl ml cs x c size (λ _, False) Q).
Qed.

(** With no region left, none can have been found. *)
Lemma no_large_got s s' fl fl' ml cs cs' x c j i k :
  cases_inv s fl cs → nthZ cs x = Some c → 0 ≤ j < lbin_count → case_no_large s fl c j →
  0 ≤ i < ext_total_ (pm_head (pm_of s)) → pool_inv s fl ml → ¬ got_large s s' fl fl' cs cs' x j i k.
Proof.
  intros Hcs Hx Hj Hn Hi Hp Hg. destruct (case_lbin s fl cs x c j Hcs Hx Hj) as (b & Hb & Hinv & Er & Es & Em).
  destruct (Hn b Hb) as [He Hall]. pose proof (Hall i Hi) as Hl. apply (gl_free _ _ _ _ _ _ _ _ _ _ Hg).
  pose proof (gl_keep _ _ _ _ _ _ _ _ _ _ Hg Hl) as Ed. destruct (gl_desc _ _ _ _ _ _ _ _ _ _ Hg) as (D1 & D2 & D3).
  pose proof (gl_range _ _ _ _ _ _ _ _ _ _ Hg) as Hk. rewrite Ed in *. exists x, c, j, b. split; [done|]. split; [done|].
  split; [done|]. split; [split; [done|split; cbn; congruence]|]. split.
  { destruct (inv_live _ _ _ (pi_ext _ _ _ Hp) i Hl) as (_ & Hct & _). unfold lcount. rewrite Es, <-D3, <-Hct. exact Hk. }
  intros r bits Hbits. destruct r; cbn [lbin] in *; [rewrite Em in Hbits|rewrite He in Hbits]; by apply (lookup_empty_Some (M := gmap Z)) in Hbits.
Qed.

Lemma large_acquire_fails s fl ml cs x c size :
  pool_inv s fl ml → cases_inv s fl cs → nthZ cs x = Some c → kMaxMediumSize < size ≤ kMaxLargeSize →
  case_no_large s fl c (large_bid size) → large_acquire c size false s = Err EAssert.
Proof.
  intros Hp Hcs Hx Hsz Hn. destruct (large_bid_ok size Hsz) as (Hj & _).
  assert (wp_e (large_acquire c size false) (λ e, e = EAssert) (λ _ _, False) s) as Hwp.
  { apply (wp_e_case_large_acquire s fl ml cs x c); [done..|]. intros s' fl' ml' c' i k Hp' Hg.
    apply (no_large_got s s' fl fl' ml cs (updZ cs x c') x c _ i k Hcs Hx Hj Hn); [|exact Hp|exact Hg].
    pose proof (live_range _ _ _ _ Hp' (gl_live _ _ _ _ _ _ _ _ _ _ Hg)) as Hi.
    destruct (lf_pool _ _ _ _ _ _ (gl_frame _ _ _ _ _ _ _ _ _ _ Hg)) as (_ & _ & _ & Et & _). by rewrite Et in Hi. }
  unfold wp_e in Hwp. destruct (large_acquire c size false s); [done|congruence].
Qed.

Lemma wp_case_large_release s fl ml cs x c i k Q :
  pool_inv s fl ml → cases_inv s fl cs → nthZ cs x = Some c → glused s fl cs i k →
  ed_rcase (desc_of (pm_of s) i) = x →
  (∀ s' fl' ml' c', pool_inv s' fl' ml' → gave_large s s' fl fl' cs (updZ cs x c') i k → Q c' s') →
  wp (large_release c (ext_addr (pm_of s) i) (run_at s i k) false) Q s.
Proof.
  intros Hp Hcs Hx (y & d & j & b & Hy & Hb & Hu) Erx HQ. pose proof Hu as (Hl & Hbi & Hk & _).
  destruct (Hcs y d Hy) as [Hd Ed]. destruct (ci_lbin _ _ _ Hd j b Hb) as (Hinv & Er & Es & Em).
  pose proof Hbi as (Et' & Er' & Es'). simpl in Et', Er', Es'.
  assert (y = x) as -> by congruence. assert (d = c) as -> by congruence.
  assert (0 ≤ j < lbin_count) as Hj by (rewrite <-(ci_nl _ _ _ Hd); by eapply nthZ_Some).
  destruct (large_bid_lsize j Hj) as (Hbid & Hsz & _).
  unfold large_release. wp_step. apply wp_pm_ld_desc. fold (desc_of (pm_of s) i). rewrite Et', Er', Es', Es, Hbid.
  wp_step. wp_step; [rewrite bool_decide_true by done; apply Z.eqb_eq; congruence|].
  wp_step. wp_step; [apply andb_true_iff; split; [apply Z.ltb_lt|apply Z.leb_le]; lia|].
  wp_step. wp_step; [rewrite kLargeTypeCount_ok; apply Z.ltb_lt; lia|].
  unfold with_lbin, no_result. wp_step. wp_step. wp_step; [exact Hb|]. wp_step. wp_step.
  assert (run_at s i k = ext_at s i + k * lbin_size b) as -> by (unfold run_at; by rewrite Es').
  apply (wp_large_release s fl ml); [done|done|done|simpl; by rewrite Em, lookup_empty|].
  intros s' fl' ml' b' Hp' [Hst Hinv' Hsb Hu' Htok Hsm Hmd] Hob. wp_step. cbv beta iota. wp_step. wp_step.
  apply (HQ s' fl' ml'); [done|]. constructor; [|intros q m|exact Htok|].
  - apply (large_frame_intro s s' fl fl' cs x c j b b' i); try done. intros a. unfold small_at. by rewrite Hsm.
  - rewrite (glused_split s fl cs x c j b), glused_split;
      [|by apply nthZ_updZ_eq, (nthZ_Some _ _ _ Hx)|cbn; by apply nthZ_updZ_eq, (nthZ_Some _ _ _ Hb)|done|done].
    rewrite (glused_bin s s' fl fl' cs x c j b b' i) by done. rewrite Hu'. split; [|tauto].
    intros [[? ?]|Ho]; [tauto|]. split; [by right|]. intros [-> _].
    by apply (other_lused_bin s fl cs x c j b i m Hcs Hx Hb Hbi).
  - intros Hl'. destruct (bs_after _ _ _ _ _ _ Hst Hl') as (-> & _ & ->). by rewrite Et', Es'.
Qed.

(** *** The constructor *)

Lemma LargeBin_init_ok {S} index j (x : S) :
  0 ≤ index < 2 ^ 32 → 0 ≤ j < lbin_count →
  LargeBin_init index (case_lsize j) x =
    Ok {| lbin_rcase := index; lbin_size := case_lsize j; lbin_0 := ∅; lbin_1 := ∅ |} x.
Proof.
  intros Hi Hj. destruct (large_bid_lsize j Hj) as (_ & Hs & _). unfold LargeBin_init.
  change kMaxLargeSize with 4194304 in *. change kMaxMediumSize with 65536 in *.
  rewrite popcount_spec, !u32_small by lia.
  assert (lenZ (bits_of (case_lsize j)) = 1) as ->.
  { change lbin_count with 6 in Hj. assert (j = 0 ∨ j = 1 ∨ j = 2 ∨ j = 3 ∨ j = 4 ∨ j = 5) as Hj' by lia.
    repeat destruct Hj' as [->|Hj']; try subst j; reflexivity. }
  change kMaxLargeSize with 4194304. change kMaxMediumSize with 65536.
  unfold mbind, M_bind, massert. by rewrite (proj2 (Z.ltb_lt _ _)), (proj2 (Z.leb_le _ _)) by lia.
Qed.

Lemma RunCase_new_ok {S} index (x : S) :
  0 ≤ index < 2 ^ 32 → RunCase_new index x = Ok (new_case index) x.
Proof.
  intros Hi. unfold RunCase_new. rewrite kMaxSmallIndex_ok, kLargeTypeCount_ok.
  change (cbin2rbin 19) with (Some 2). unfold mbind at 1, M_bind at 1, mderef, mret at 1, M_ret at 1.
  cbv beta iota. unfold mbind at 1, M_bind at 1. change (Z.to_nat lbin_count) with 6%nat.
  rewrite (mfold_build (λ j, LargeBin_init index (Z.shiftl kMaxMediumSize (j + 1)))
    (λ j, {| lbin_rcase := index; lbin_size := case_lsize j; lbin_0 := ∅; lbin_1 := ∅ |}) 6 0 [] x).
  - cbv beta iota. unfold mret, M_ret. rewrite u32_small by lia. reflexivity.
  - intros j Hj. apply LargeBin_init_ok; [done|]. change lbin_count with 6. lia.
Qed.

Lemma case_request index j :
  0 ≤ index < 2 ^ 32 → 0 ≤ j < 6 →
  ok_request (case_type j) index (case_rsize j) ∧ 2 * case_rsize j ≤ kExtentSize ∧
  (case_type j = kSmall ∨ case_type j = kMedium) ∧ ok_request kLarge index (case_lsize j) ∧
  u32 (case_rsize j) = case_rsize j.
Proof.
  intros Hi Hj. unfold ok_request.
  assert (j = 0 ∨ j = 1 ∨ j = 2 ∨ j = 3 ∨ j = 4 ∨ j = 5) as Hj' by lia.
  repeat destruct Hj' as [->|Hj']; try subst j; (split; [|split; [|split; [|split]]]);
    try (split_and!; try exact (proj1 Hi); try exact (proj2 Hi); by vm_compute);
    try (left; reflexivity); try (right; reflexivity); try reflexivity; by vm_compute.
Qed.

Lemma new_case_inv s fl index :
  (∀ i, ¬ live (pm_of s) fl i) → 0 ≤ index < 2 ^ 32 → case_inv s fl (new_case index).
Proof.
  intros Hl Hi. constructor.
  - reflexivity.
  - intros j b Hb. unfold new_case in Hb. cbn [rc_rbins] in Hb.
    pose proof (nthZ_Some _ _ _ Hb) as Hj. change (0 ≤ j < 6) in Hj.
    destruct (case_request index j Hi Hj) as (Hr & Hh & Ht & _ & Hu).
    rewrite <-list_fmap_compose, nthZ_seqZ_fmap in Hb by (change kRunTypeCount with 6; lia).
    injection Hb as <-. simpl. rewrite Hu, u32_small by done.
    split; [|done]. constructor; cbn; rewrite ?Hu, ?u32_small by done; try done.
    + intros [] e d He; by apply (lookup_empty_Some (M := gmap Z) e d) in He.
    + intros e. by left.
    + intros i Hli. by destruct (Hl i).
  - reflexivity.
  - intros j b Hb. unfold new_case in Hb. cbn [rc_lbins] in Hb.
    pose proof (nthZ_Some _ _ _ Hb) as Hj. change (0 ≤ j < 6) in Hj.
    destruct (case_request index j Hi Hj) as (_ & _ & _ & Hr & _).
    rewrite nthZ_seqZ_fmap in Hb by (change lbin_count with 6; lia). injection Hb as <-.
    split; [|done]. constructor; [done| |by left].
    intros [] e bits He; by apply (lookup_empty_Some (M := gmap Z) e bits) in He.
  - change kRunTypeCount with 6. intros j Hj.
    assert (j = 0 ∨ j = 1 ∨ j = 2 ∨ j = 3 ∨ j = 4 ∨ j = 5) as Hj' by lia.
    repeat destruct Hj' as [->|Hj']; try subst j; vm_compute; reflexivity.
Qed.

(** ** Properties *)

(** The constructor of [RunCase] terminates and passes the asserts of all its
    bins, for every index, and on a pool of which no extent is in use the run case
    it returns satisfies the invariant: the bins are empty, every size class has
    the bin of its run size, and [desc2rbid_] maps the descriptors of each bin to
    it. *)
Lemma RunCase_new_correct s fl index :
  (∀ i, ¬ live (pm_of s) fl i) → 0 ≤ index < 2 ^ 32 →
  ∃ c, RunCase_new index s = Ok c s ∧ case_inv s fl c ∧ rc_index c = index ∧
    ∀ i k, ¬ glused s fl [c] i k.
Proof.
  intros Hl Hi. exists (new_case index). split; [by apply RunCase_new_ok|].
  split; [by apply new_case_inv|]. split; [done|]. intros i k (x & c & j & b & _ & _ & Hu & _). by destruct (Hl i).
Qed.

(** C26: [RunCase::large_acquire] in normal operation, for every size of more than
    64 KiB up to 4 MiB, a whole number of pages or not.  If a region or an extent
    is left, it terminates and hands out a region that holds the size and was not
    in use, in its extent, with a free token; every run and every other large
    region keeps its state, and the invariants are kept.  If none is left, the null
    pointer fails an assert of [physical_space_alloc]. *)
Theorem large_acquire_correct s fl ml cs x c size :
  pool_inv s fl ml → cases_inv s fl cs → nthZ cs x = Some c → kMaxMediumSize < size ≤ kMaxLargeSize →
  (case_no_large s fl c (large_bid size) → large_acquire c size false s = Err EAssert) ∧
  (¬ case_no_large s fl c (large_bid size) →
   wp (large_acquire c size false) (λ r s', ∃ fl' ml' c' i k,
     r = (c', region (Some (TLarge (ext_addr (pm_of s') i) k)) (run_at s' i k)) ∧
     size ≤ ed_size (desc_of (pm_of s') i) ∧ pool_inv s' fl' ml' ∧
     got_large s s' fl fl' cs (updZ cs x c') x (large_bid size) i k) s).
Proof.
  intros Hp Hcs Hx Hsz. split; [by intros Hn; eapply large_acquire_fails|]. intros Hsp.
  apply (wp_case_large_acquire s fl ml cs x c); try done. intros s' fl' ml' c' i k Hp' Hg.
  exists fl', ml', c', i, k. split; [done|]. split; [|done].
  destruct (gl_desc _ _ _ _ _ _ _ _ _ _ Hg) as (_ & _ & ->). by apply large_bid_ok.
Qed.
End lemmas.

(** ** Witnesses: the first run case of a new pool *)

Definition case0 : RunCase := new_case 0.

Lemma example_not_live i : ¬ live (pm_of example_ext) [] i.
Proof. intros [Hi _]. change (ext_used (cur_meta (pm_of example_ext))) with 0 in Hi. lia. Qed.

Lemma case0_inv : cases_inv example_ext [] [case0].
Proof.
  intros x c Hx. pose proof (nthZ_Some _ _ _ Hx) as Hr. change (lenZ [case0]) with 1 in Hr.
  assert (x = 0) as -> by lia. injection Hx as <-. split; [|done].
  apply new_case_inv; [exact example_not_live|lia].
Qed.

Lemma RunCase_new_correct_witness :
  ∃ c, RunCase_new 3 example_ext = Ok c example_ext ∧ case_inv example_ext [] c.
Proof.
  destruct (RunCase_new_correct example_ext [] 3) as (c & Hc & Hi & _).
  - exact example_not_live.
  - lia.
  - by exists c.
Defined.

Lemma large_acquire_correct_witness :
  wp (large_acquire case0 70000 false) (λ r s', ∃ i, 70000 ≤ ed_size (desc_of (pm_of s') i)) example_ext.
Proof.
  eapply wp_mono.
  - apply (large_acquire_correct example_ext [] [] [case0] 0 case0 70000 example_pool_inv case0_inv eq_refl).
    + vm_compute. intuition congruence.
    + intros Hn. assert (∃ b, nthZ (rc_lbins case0) (large_bid 70000) = Some b) as [b Hb] by (by eexists).
      destruct (Hn b Hb) as [_ Hall]. destruct (Hall 0) as [Hi _].
      * vm_compute. intuition congruence.
      * change (ext_used (cur_meta (pm_of example_ext))) with 0 in Hi. lia.
  - intros r s' (fl' & ml' & c' & i & k & _ & Hle & _). exists i. exact Hle.
Defined.
