(* ===== verification/Arena.v ===== *)
(** * Arenas (slab/arena.h)

    An [ArenaBin] hands out the regions of one size class.  It keeps a map from
    the address of a run that has a free region to the bitmap of the run, one
    map for normal operation and one for allocation during recovery.  An
    [Arena] has a bin for each size class of small and medium regions. *)

From S2P Require Export Run.
Import Pmem.

(** ** Definitions *)

Record ArenaBin := {
  ab_arena : Z;
  ab_index : Z;
  ab_type : RegionType;
  ab_rcase : Z;             (* run_case_: index in the array of run cases *)
  ab_0 : gmap Z RunBits;
  ab_1 : gmap Z RunBits;
}.
Definition eta_ab b := {|
  ab_arena := ab_arena b; ab_index := ab_index b; ab_type := ab_type b; ab_rcase := ab_rcase b;
  ab_0 := ab_0 b; ab_1 := ab_1 b |}.
Definition set_ab_0 := ltac:(setter eta_ab ab_0).
Definition set_ab_1 := ltac:(setter eta_ab ab_1).
Definition abin (b : ArenaBin) (recover : bool) : gmap Z RunBits :=
  if recover then ab_1 b else ab_0 b.
Definition set_abin (recover : bool) (m : gmap Z RunBits) (b : ArenaBin) : ArenaBin :=
  if recover then set_ab_1 m b else set_ab_0 m b.

Record Arena := {
  ar_nbinds : Z;
  ar_index : Z;
  ar_rcase : Z;
  ar_bins : list ArenaBin;
}.
Definition eta_ar a := {|
  ar_nbinds := ar_nbinds a; ar_index := ar_index a; ar_rcase := ar_rcase a; ar_bins := ar_bins a |}.
Definition set_ar_nbinds := ltac:(setter eta_ar ar_nbinds).
Definition set_ar_bins := ltac:(setter eta_ar ar_bins).

(** The state below the arenas: the extents, the run cases, the size classes. *)
Record run_st := {
  rn_ext : ext_st;
  rn_cases : list RunCase;
  rn_sc : SizeClass;
}.
Definition eta_rn s := {| rn_ext := rn_ext s; rn_cases := rn_cases s; rn_sc := rn_sc s |}.
Definition set_rn_ext := ltac:(setter eta_rn rn_ext).
Definition set_rn_cases := ltac:(setter eta_rn rn_cases).

Definition exm {A} (m : M ext_st A) : M run_st A := mzoom rn_ext set_rn_ext m.

(** Calling a method of the run case [i]. *)
Definition on_case {A} (i : Z) (f : RunCase → M ext_st (RunCase * A)) : M run_st A :=
  cs ← mgets rn_cases;
  c ← mderef (nthZ cs i);
  '(c, a) ← exm (f c);
  mmodify (λ s, set_rn_cases (updZ (rn_cases s) i c) s) ;;
  mret a.

(** Loads through a [SmallMeta*] or a [MediumMeta*] that may be null. *)
Definition deref_small (a : Z) : M run_st SmallMeta :=
  if a =? nullptr then merr EUB else exm (pm (ld_small a)).
Definition deref_med (a : Z) : M run_st MediumMeta :=
  if a =? nullptr then merr EUB else exm (pm (ld_med a)).

Section arena.
Context `{Util} `{UnorderedMap}.

(** [SlabConst::kRunSizeTab[SlabConst::kCBin2RBin[index / kNSlabsPerGrp]]] *)
Definition class_rsize (index : Z) : option Z :=
  i ← cbin2rbin index; nthZ kRunSizeTab i.

(** The start of the regions of a small run, whose metadata comes first. *)
Definition small_objs (run rsize : Z) (m : SmallMeta) : Z :=
  u64 (run + rsize - sm_count m * sm_size m).

Definition select_run (b : ArenaBin) (recover : bool) : M run_st (ArenaBin * option Z) :=
  massert (bool_decide (ab_type b = kSmall) || bool_decide (ab_type b = kMedium)) ;;
  b ← (if bool_decide (dom (abin b recover) = ∅) then
    sc ← mgets rn_sc;
    if bool_decide (ab_type b = kSmall) then
      '(meta, run) ← on_case (ab_rcase b)
                       (λ c, RunCase_srun_acquire c sc (ab_arena b) (ab_index b) recover);
      massert (meta =? run) ;;
      rsize ← mderef (class_rsize (ab_index b));
      m ← deref_small meta;
      let objs := small_objs run rsize m in
      mret (if negb (run =? nullptr) then
              set_abin recover (<[run := RunBits_new (sm_size m) (sm_count m) meta objs false]>
                                  (abin b recover)) b
            else b)
    else
      '(meta, run) ← on_case (ab_rcase b)
                       (λ c, RunCase_mrun_acquire c sc (ab_arena b) (ab_index b) recover);
      if negb (run =? nullptr) then
        m ← deref_med meta;
        mret (set_abin recover (<[run := RunBits_new (mm_size m) (mm_count m) meta run false]>
                                  (abin b recover)) b)
      else mret b
  else mret b);
  mret (b, um_begin (abin b recover)).

Definition ArenaBin_init {S} (arena index rcase : Z) : M S ArenaBin :=
  massert (index <? kNSlabsCached) ;;
  mret {| ab_arena := u32 arena; ab_index := u32 index;
          ab_type := if index <=? kMaxSmallIndex then kSmall else kMedium;
          ab_rcase := rcase; ab_0 := ∅; ab_1 := ∅ |}.

Definition ArenaBin_finish_recover {S} (b : ArenaBin) : M S ArenaBin :=
  let b' := set_ab_1 (filter (λ kv, kv.1 ∈ dom (ab_0 b)) (ab_1 b)) (set_ab_0 (ab_0 b ∪ ab_1 b) b) in
  massert (bool_decide (dom (ab_1 b') = ∅)) ;; mret b'.

(** The destructor. *)
Definition ArenaBin_close (b : ArenaBin) : M run_st unit :=
  massert (bool_decide (ab_type b = kSmall) || bool_decide (ab_type b = kMedium)) ;;
  massert (bool_decide (dom (ab_1 b) = ∅)) ;;
  mforeach (um_order (dom (ab_0 b))) (λ run,
    bits ← mderef (ab_0 b !! run);
    let release := RunBits_full bits in
    on_case (ab_rcase b) (λ c, no_result
      (if bool_decide (ab_type b = kSmall) then RunCase_srun_release c run (ab_index b) release false
       else RunCase_mrun_release c run (ab_index b) release false)) ;;
    mwhen (negb release) (exm (pm (RunBits_mark_polluted bits (ab_type b))))).

Definition ArenaBin_reload_small (b : ArenaBin) (meta run : Z) : M run_st ArenaBin :=
  massert (bool_decide (ab_type b = kSmall) && (meta =? run)) ;;
  m ← deref_small meta;
  sc ← mgets rn_sc;
  size ← index2size sc (ab_index b);
  massert (sm_size m =? size) ;;
  rsize ← mderef (class_rsize (ab_index b));
  massert (negb (bool_decide (run ∈ dom (ab_0 b)))) ;;
  bits ← exm (pm (RunBits_reload_small
                    (RunBits_new (sm_size m) (sm_count m) meta (small_objs run rsize m) false) meta));
  mret (set_ab_0 (<[run := bits]> (ab_0 b)) b).

Definition ArenaBin_reload_medium (b : ArenaBin) (meta run : Z) : M run_st ArenaBin :=
  massert (bool_decide (ab_type b = kMedium)) ;;
  m ← deref_med meta;
  sc ← mgets rn_sc;
  size ← index2size sc (ab_index b);
  massert (mm_size m =? size) ;;
  massert (negb (bool_decide (run ∈ dom (ab_0 b)))) ;;
  bits ← exm (pm (RunBits_reload_medium (RunBits_new (mm_size m) (mm_count m) meta run false) meta));
  mret (set_ab_0 (<[run := bits]> (ab_0 b)) b).

(** The loop of [fill_cache_bin]; every iteration but the last adds a region. *)
Fixpoint fill_loop (fuel : nat) (b : ArenaBin) (regions : list region_t) (restock : Z)
    (recover : bool) : M run_st (ArenaBin * list region_t) :=
  match fuel with
  | O => merr EFuel
  | S fuel =>
      if lenZ regions <? restock then
        '(b, rit) ← select_run b recover;
        match rit with
        | None => mret (b, regions)
        | Some run =>
            rbits ← mderef (abin b recover !! run);
            '(rbits, regions) ← exm (pm (RunBits_fill_regions rbits regions restock (ab_type b)));
            let m := <[run := rbits]> (abin b recover) in
            let m := if RunBits_empty rbits then delete run m else m in
            fill_loop fuel (set_abin recover m b) regions restock recover
        end
      else mret (b, regions)
  end.
Definition ArenaBin_fill_cache_bin (b : ArenaBin) (regions : list region_t) (restock : Z)
    (recover : bool) : M run_st (ArenaBin * list region_t) :=
  fill_loop (Datatypes.S (Z.to_nat (restock - lenZ regions))) b regions restock recover.

(** The end of both [release] functions: [bits] is the bitmap that [find]
    returns, or the one inserted when there is none. *)
Definition bin_dealloc (srelease : RunCase → M ext_st RunCase) (b : ArenaBin) (run index : Z)
    (fresh : RunBits) (recover : bool) : M run_st ArenaBin :=
  let m := if decide (run ∈ dom (abin b recover)) then abin b recover
           else <[run := fresh]> (abin b recover) in
  rbits ← mderef (m !! run);
  rbits ← RunBits_dealloc_region rbits index;
  let m := <[run := rbits]> m in
  if RunBits_full rbits && (kRunHoldCount <? mapsize m) then
    on_case (ab_rcase b) (λ c, no_result (srelease c)) ;;
    mret (set_abin recover (delete run m) b)
  else mret (set_abin recover m b).

Definition ArenaBin_release_small (b : ArenaBin) (meta run index : Z) (recover : bool)
    : M run_st ArenaBin :=
  m ← deref_small meta;
  sc ← mgets rn_sc;
  size ← index2size sc (ab_index b);
  massert (bool_decide (ab_type b = kSmall) && (sm_size m =? size)) ;;
  rsize ← mderef (class_rsize (ab_index b));
  bin_dealloc (λ c, RunCase_srun_release c run (ab_index b) true recover) b run index
    (RunBits_new (sm_size m) (sm_count m) meta (small_objs run rsize m) true) recover.

Definition ArenaBin_release_medium (b : ArenaBin) (meta run index : Z) (recover : bool)
    : M run_st ArenaBin :=
  m ← deref_med meta;
  sc ← mgets rn_sc;
  size ← index2size sc (ab_index b);
  massert (bool_decide (ab_type b = kMedium) && (mm_size m =? size)) ;;
  bin_dealloc (λ c, RunCase_mrun_release c run (ab_index b) true recover) b run index
    (RunBits_new (mm_size m) (mm_count m) meta run true) recover.

(** ** Arena *)

Definition Arena_new {S} (index rcase : Z) : M S Arena :=
  bins ← mfold (Z.to_nat kNSlabsCached) 0 (λ bid l,
    b ← ArenaBin_init index bid rcase; mret (l ++ [b])) [];
  mret {| ar_nbinds := 0; ar_index := u32 index; ar_rcase := rcase; ar_bins := bins |}.

(** The destructor; the bins are destroyed in reverse order. *)
Definition Arena_close (a : Arena) : M run_st unit :=
  massert (ar_nbinds a =? 0) ;;
  mforeach (reverse (ar_bins a)) ArenaBin_close.

Definition with_abin {A} (a : Arena) (i : Z) (f : ArenaBin → M run_st (ArenaBin * A))
    : M run_st (Arena * A) :=
  b ← mderef (nthZ (ar_bins a) i);
  '(b, r) ← f b;
  mret (set_ar_bins (updZ (ar_bins a) i b) a, r).

Definition Arena_finish_recover {S} (a : Arena) : M S Arena :=
  bs ← mfold (length (ar_bins a)) 0 (λ i l,
    b ← mderef (nthZ (ar_bins a) i); b ← ArenaBin_finish_recover b; mret (l ++ [b])) [];
  mret (set_ar_bins bs a).

Definition Arena_reload_small (a : Arena) (meta run : Z) : M run_st (Arena * unit) :=
  m ← deref_small meta;
  massert (sm_arena m =? ar_index a) ;;
  sc ← mgets rn_sc;
  bid ← size2index sc (sm_size m);
  with_abin a bid (λ b, no_result (ArenaBin_reload_small b meta run)).

Definition Arena_reload_medium (a : Arena) (meta run : Z) : M run_st (Arena * unit) :=
  m ← deref_med meta;
  massert (mm_arena m =? ar_index a) ;;
  sc ← mgets rn_sc;
  bid ← size2index sc (mm_size m);
  with_abin a bid (λ b, no_result (ArenaBin_reload_medium b meta run)).

Definition Arena_fill_cache_bin (a : Arena) (regions : list region_t) (restock index : Z)
    : M run_st (Arena * list region_t) :=
  massert (index <? kNSlabsCached) ;;
  with_abin a index (λ b, ArenaBin_fill_cache_bin b regions restock false).

(** The result of the large branch is dropped: there is no [return]. *)
Definition recover_acquire (a : Arena) (size : Z) : M run_st (Arena * region_t) :=
  if size <=? kMaxMediumSize then
    sc ← mgets rn_sc;
    bid ← size2index sc size;
    massert (bid <? kNSlabsCached) ;;
    '(a, regions) ← with_abin a bid (λ b, ArenaBin_fill_cache_bin b [] 1 true);
    mret (a, default null_region (head regions))
  else if size <=? kMaxLargeSize then
    on_case (ar_rcase a) (λ c, large_acquire c size true) ;;
    mret (a, null_region)
  else mret (a, null_region).

Definition Arena_release_small (a : Arena) (meta run index : Z) (recover : bool)
    : M run_st (Arena * unit) :=
  m ← deref_small meta;
  massert ((meta =? run) && (sm_arena m =? ar_index a)) ;;
  sc ← mgets rn_sc;
  bin_idx ← size2index sc (sm_size m);
  with_abin a bin_idx (λ b, no_result (ArenaBin_release_small b meta run index recover)).

Definition Arena_release_medium (a : Arena) (meta run index : Z) (recover : bool)
    : M run_st (Arena * unit) :=
  m ← deref_med meta;
  massert (negb (meta =? run) && (mm_arena m =? ar_index a)) ;;
  sc ← mgets rn_sc;
  bin_idx ← size2index sc (mm_size m);
  with_abin a bin_idx (λ b, no_result (ArenaBin_release_medium b meta run index recover)).

Definition Arena_large_acquire (a : Arena) (size : Z) : M run_st region_t :=
  massert (kMaxMediumSize <? size) ;;
  massert (size <=? kMaxLargeSize) ;;
  on_case (ar_rcase a) (λ c, large_acquire c size false).
End arena.
