(* ===== verification/ArenaSpec.v ===== *)
(** * Arena bins

    The contract of [ArenaBin] in normal operation.  A busy run belongs to the
    bin whose arena and size class stand in the metadata of the run
    ([run_owned]); the invariant [ab_inv] relates the bitmaps of a bin to the
    metadata and to the tokens, and [aused] are the regions that the bin has
    handed out.  [fill_cache_bin] hands out regions that were not in use, the
    two releases give back exactly one region, and the other bins are not
    affected. *)

From S2P Require Export Arena RunCaseSpec.
Import Pmem.

(** ** Definitions *)

(** The content of the metadata of a run. *)
Definition md_size (m : SmallMeta + MediumMeta) : Z :=
  match m with inl m => sm_size m | inr m => mm_size m end.
Definition md_count (m : SmallMeta + MediumMeta) : Z :=
  match m with inl m => sm_count m | inr m => mm_count m end.
Definition md_arena (m : SmallMeta + MediumMeta) : Z :=
  match m with inl m => sm_arena m | inr m => mm_arena m end.
Definition md_token (m : SmallMeta + MediumMeta) (k : Z) : option Z :=
  match m with inl m => Some (small_token m k) | inr m => nthZ (mm_tokens m) k end.

(** The region number [idx] of the run [run] of the extent [ext]. *)
Inductive cell := Cell (ext run idx : Z).
#[export] Instance cell_eq_dec : EqDecision cell.
Proof. solve_decision. Defined.

(** The start of the regions of a run, and its region [k]. *)
Definition objs_at (s : ext_st) (i rid : Z) : Z :=
  if is_medium (pm_of s) i then run_at s i rid
  else run_at s i rid + ed_size (desc_of (pm_of s) i) -
       md_count (run_meta s i rid) * md_size (run_meta s i rid).
Definition run_token (s : ext_st) (i rid k : Z) : token_ref :=
  if is_medium (pm_of s) i then TMedium (meta_addr s i rid) k else TSmall (meta_addr s i rid) k.
Definition region_at (s : ext_st) (i rid k : Z) : region_t :=
  region (Some (run_token s i rid k)) (objs_at s i rid + k * md_size (run_meta s i rid)).
Definition cell_region (s : ext_st) (t : cell) : region_t :=
  match t with Cell i rid k => region_at s i rid k end.

(** The number of regions of a run of a size class. *)
Definition class_count (index c : Z) : Prop :=
  0 < c ∧ if index <=? 19 then small_fits (index_rsize index) (index2size_compute index) c
          else medium_fits (index_rsize index) (index2size_compute index) c.

(** The run [rid] of the extent [i] belongs to the arena bin [b]. *)
Record run_owned (s : ext_st) (fl : list Z) (b : ArenaBin) (i rid : Z) : Prop := {
  ro_bin : run_of_bin s fl (ab_rcase b) (ab_index b) i rid;
  ro_arena : md_arena (run_meta s i rid) = ab_arena b;
  ro_size : md_size (run_meta s i rid) = index2size_compute (ab_index b);
  ro_count : class_count (ab_index b) (md_count (run_meta s i rid));
}.

(** The bitmap of a run: regions that it calls free have a free token. *)
Record bits_ok (s : ext_st) (i rid : Z) (bits : RunBits) : Prop := {
  bo_wf : wf_rb bits;
  bo_meta : rb_meta bits = meta_addr s i rid;
  bo_objs : rb_objs bits = objs_at s i rid;
  bo_size : rb_size bits = md_size (run_meta s i rid);
  bo_count : rb_count bits = md_count (run_meta s i rid);
  bo_token : ∀ k, 0 ≤ k < md_count (run_meta s i rid) → rb_used bits k = false →
    md_token (run_meta s i rid) k = Some kFreeCode;
}.

(** The map holds runs of the bin, and only runs with a free region. *)
Record ab_inv (s : ext_st) (fl : list Z) (b : ArenaBin) : Prop := {
  ai_index : 0 ≤ ab_index b < 40;
  ai_type : ab_type b = index_type (ab_index b);
  ai_arena : 0 ≤ ab_arena b < 2 ^ 16;
  ai_map : ∀ a bits, ab_0 b !! a = Some bits → ∃ i rid,
    a = run_at s i rid ∧ run_owned s fl b i rid ∧ bits_ok s i rid bits ∧ rb_alloc bits < rb_count bits;
  ai_recover : ab_1 b = ∅;
}.

(** The region [k] of a run has been handed out: its bit is set, or the run is
    not in the map. *)
Definition aused (s : ext_st) (fl : list Z) (b : ArenaBin) (i rid k : Z) : Prop :=
  run_owned s fl b i rid ∧ 0 ≤ k < md_count (run_meta s i rid) ∧
  ∀ bits, ab_0 b !! run_at s i rid = Some bits → rb_used bits k = true.

Definition same_abin (b b' : ArenaBin) : Prop :=
  ab_arena b' = ab_arena b ∧ ab_index b' = ab_index b ∧ ab_type b' = ab_type b ∧
  ab_rcase b' = ab_rcase b.

(** The pool, the run cases and the size classes below the arenas. *)
Record runs_inv `{Util} (x : run_st) (fl ml : list Z) : Prop := {
  rv_pool : pool_inv (rn_ext x) fl ml;
  rv_cases : cases_inv (rn_ext x) fl (rn_cases x);
  rv_sc : rn_sc x = SizeClass_new;
}.

(** What a step of the bin [b] means for everything else: the runs of the other
    bins and the large regions keep their state. *)
Record abin_frame (x x' : run_st) (fl fl' : list Z) (b : ArenaBin) : Prop := {
  fr_pool : same_pool (rn_ext x) (rn_ext x');
  fr_cases : lenZ (rn_cases x') = lenZ (rn_cases x);
  fr_kept : ∀ i r, has_runs (pm_of (rn_ext x)) i → busy (pm_of (rn_ext x)) fl i r →
    ¬ run_owned (rn_ext x) fl b i r → run_same (rn_ext x) (rn_ext x') fl' i r;
  fr_own : ∀ i r, run_owned (rn_ext x) fl b i r → busy (pm_of (rn_ext x')) fl' i r →
    run_owned (rn_ext x') fl' b i r;
  fr_new : ∀ i r, has_runs (pm_of (rn_ext x')) i → busy (pm_of (rn_ext x')) fl' i r →
    ¬ run_owned (rn_ext x') fl' b i r → has_runs (pm_of (rn_ext x)) i ∧ busy (pm_of (rn_ext x)) fl i r;
  fr_large : ∀ j k, glused (rn_ext x') fl' (rn_cases x') j k ↔ glused (rn_ext x) fl (rn_cases x) j k;
  fr_ldesc : ∀ j, live (pm_of (rn_ext x)) fl j → ed_type (desc_of (pm_of (rn_ext x)) j) = kLarge →
    live (pm_of (rn_ext x')) fl' j ∧ desc_of (pm_of (rn_ext x')) j = desc_of (pm_of (rn_ext x)) j;
}.

(** The regions [L] have been handed out, and nothing else; they are distinct,
    were not in use, and their tokens are free. *)
Record filled (x x' : run_st) (fl fl' : list Z) (b b' : ArenaBin) (L : list cell) : Prop := {
  fi_frame : abin_frame x x' fl fl' b;
  fi_bin : same_abin b b';
  fi_inv : ab_inv (rn_ext x') fl' b';
  fi_kept : ∀ i r, run_owned (rn_ext x) fl b i r → run_same (rn_ext x) (rn_ext x') fl' i r;
  fi_nodup : NoDup L;
  fi_fresh : ∀ i r k, Cell i r k ∈ L → ¬ aused (rn_ext x) fl b i r k;
  fi_used : ∀ i r k, aused (rn_ext x') fl' b' i r k ↔ Cell i r k ∈ L ∨ aused (rn_ext x) fl b i r k;
  fi_token : ∀ i r k, Cell i r k ∈ L → md_token (run_meta (rn_ext x') i r) k = Some kFreeCode;
}.

(** The region [k] of the run has been taken back, and nothing else. *)
Record spilled (x x' : run_st) (fl fl' : list Z) (b b' : ArenaBin) (i rid k : Z) : Prop := {
  sp_frame : abin_frame x x' fl fl' b;
  sp_bin : same_abin b b';
  sp_inv : ab_inv (rn_ext x') fl' b';
  sp_kept : ∀ j r, run_owned (rn_ext x) fl b j r → busy (pm_of (rn_ext x')) fl' j r →
    run_same (rn_ext x) (rn_ext x') fl' j r;
  sp_used : ∀ j r m, aused (rn_ext x') fl' b' j r m ↔
    aused (rn_ext x) fl b j r m ∧ ¬ (j = i ∧ r = rid ∧ m = k);
}.

(** No run with a free region is left for the bin, in its map or in the run case,
    and no extent. *)
Definition no_runs (x : run_st) (fl : list Z) (b : ArenaBin) : Prop :=
  ab_0 b = ∅ ∧ ∀ c, nthZ (rn_cases x) (ab_rcase b) = Some c →
    case_no_space (rn_ext x) fl c (index_bin (ab_index b)).

(** The extents and the runs that have come into use are those of the regions [L]. *)
Definition grown (s s' : ext_st) (fl fl' : list Z) (L : list cell) : Prop :=
  (∀ i, live (pm_of s') fl' i → live (pm_of s) fl i ∨ ∃ r k, Cell i r k ∈ L) ∧
  ∀ i r, busy (pm_of s') fl' i r → busy (pm_of s) fl i r ∨ ∃ k, Cell i r k ∈ L.
(** The same, but for the run [r] of the extent [i]. *)
Definition grown_but (s s' : ext_st) (fl fl' : list Z) (i r : Z) : Prop :=
  (∀ j, j ≠ i → live (pm_of s') fl' j → live (pm_of s) fl j) ∧
  ∀ j q, ¬ (j = i ∧ q = r) → busy (pm_of s') fl' j q → busy (pm_of s) fl j q.

(** ** Lemmas *)

Section lemmas.
Context `{UtilSpec} `{UnorderedMapSpec}.
Implicit Types (s : ext_st) (x y : run_st) (fl ml : list Z) (b : ArenaBin).

(** *** Runs and their owners *)

Lemma run_owned_runs s fl b i r : run_owned s fl b i r → has_runs (pm_of s) i.
Proof.
  intros [(_ & Et & _) _ _ _]. unfold has_runs. rewrite Et. unfold index_type.
  destruct (_ <=? 19); auto.
Qed.

Lemma run_owned_medium s fl b i r :
  run_owned s fl b i r → is_medium (pm_of s) i = negb (ab_index b <=? 19).
Proof.
  intros [(_ & Et & _) _ _ _]. unfold is_medium. rewrite Et. unfold index_type.
  by destruct (_ <=? 19).
Qed.

Lemma run_same_owned s s' fl fl' b i r :
  run_same s s' fl' i r → busy (pm_of s) fl i r → run_owned s' fl' b i r ↔ run_owned s fl b i r.
Proof.
  intros [Hb (Et & Er & Es & _) Hm] Hbs. split; intros [(Hb' & E1 & E2 & E3) E4 E5 E6].
  - rewrite Hm in *. constructor; [|done..]. split; [done|]. split; [congruence|]. split; congruence.
  - constructor; rewrite ?Hm; [|done..]. split; [done|]. split; [congruence|]. split; congruence.
Qed.

Lemma run_owned_busy s fl b i r : run_owned s fl b i r → busy (pm_of s) fl i r.
Proof. intros [(Hb & _) _ _ _]. exact Hb. Qed.

Lemma same_abin_owned s fl b b' i r : same_abin b b' → run_owned s fl b' i r ↔ run_owned s fl b i r.
Proof.
  intros (E1 & E2 & E3 & E4). split; intros [h1 h2 h3 h4]; constructor; congruence.
Qed.

(** A class size determines the class, so two bins do not own the same run. *)
Lemma class_size_inj i j :
  0 ≤ i < 40 → 0 ≤ j < 40 → index2size_compute i = index2size_compute j → i = j.
Proof. intros Hi Hj He. rewrite <-(class_of_class i), <-(class_of_class j) by done. congruence. Qed.

Lemma run_owned_unique s fl b b' i r :
  0 ≤ ab_index b < 40 → 0 ≤ ab_index b' < 40 → run_owned s fl b i r → run_owned s fl b' i r →
  ab_arena b = ab_arena b' ∧ ab_index b = ab_index b'.
Proof.
  intros Hb Hb' [_ Ea Es _] [_ Ea' Es' _]. split; [congruence|]. apply class_size_inj; congruence.
Qed.

(** The addresses of a run that keeps its state. *)
Lemma run_same_addr s s' fl' i r :
  same_pool s s' → run_same s s' fl' i r →
  run_at s' i r = run_at s i r ∧ meta_addr s' i r = meta_addr s i r ∧ objs_at s' i r = objs_at s i r ∧
  ∀ k, region_at s' i r k = region_at s i r k.
Proof.
  intros Hs [Hb Hst Hm]. destruct (meta_addr_same s s' i r Hs Hst) as [Er Ea].
  destruct (has_runs_static _ _ _ Hst) as [Em _]. destruct Hst as (_ & _ & Es & _).
  assert (objs_at s' i r = objs_at s i r) as Eo by (unfold objs_at; by rewrite Em, Er, Es, Hm).
  split; [done|]. split; [done|]. split; [done|]. intros k. unfold region_at, run_token.
  by rewrite Em, Ea, Eo, Hm.
Qed.

Lemma bits_ok_same s s' fl' i r bits :
  same_pool s s' → run_same s s' fl' i r → bits_ok s i r bits → bits_ok s' i r bits.
Proof.
  intros Hs Hr [h1 h2 h3 h4 h5 h6]. destruct (run_same_addr s s' fl' i r Hs Hr) as (_ & Ea & Eo & _).
  pose proof (rs_meta _ _ _ _ _ Hr) as Hm. constructor; rewrite ?Hm; congruence || done.
Qed.

(** *** A bin all of whose runs keep their state *)

Lemma ab_inv_kept s s' fl fl' b :
  same_pool s s' → (∀ i r, run_owned s fl b i r → run_same s s' fl' i r) →
  ab_inv s fl b → ab_inv s' fl' b.
Proof.
  intros Hs Hk [h1 h2 h3 h4 h5]. constructor; try done. intros a bits Ha.
  destruct (h4 a bits Ha) as (i & r & -> & Ho & Hb & Hlt). pose proof (Hk i r Ho) as Hr.
  exists i, r. destruct (run_same_addr s s' fl' i r Hs Hr) as (-> & _).
  split; [done|]. split; [by apply (run_same_owned s s' fl fl' b i r Hr), Ho; eapply run_owned_busy|].
  split; [|done]. by eapply bits_ok_same.
Qed.

Lemma aused_kept s s' fl fl' b i r k :
  same_pool s s' → (∀ i r, run_owned s fl b i r → run_same s s' fl' i r) →
  run_owned s fl b i r → aused s' fl' b i r k ↔ aused s fl b i r k.
Proof.
  intros Hs Hk Ho. pose proof (Hk i r Ho) as Hr. unfold aused.
  destruct (run_same_addr s s' fl' i r Hs Hr) as (-> & _).
  rewrite (rs_meta _ _ _ _ _ Hr), (run_same_owned s s' fl fl' b i r Hr) by (by eapply run_owned_busy). done.
Qed.

(** The other bins are not affected. *)
Lemma abin_other x x' fl fl' b b2 :
  abin_frame x x' fl fl' b → 0 ≤ ab_index b < 40 →
  (ab_arena b, ab_index b) ≠ (ab_arena b2, ab_index b2) → ab_inv (rn_ext x) fl b2 →
  ab_inv (rn_ext x') fl' b2 ∧
  (∀ i r, run_owned (rn_ext x) fl b2 i r → run_same (rn_ext x) (rn_ext x') fl' i r) ∧
  ∀ i r k, aused (rn_ext x') fl' b2 i r k ↔ aused (rn_ext x) fl b2 i r k.
Proof.
  intros [Hs _ Hk Hown Hn _ _] Hi Hne Hb2. pose proof (ai_index _ _ _ Hb2) as Hi2.
  assert (∀ s fl i r, run_owned s fl b2 i r → ¬ run_owned s fl b i r) as Hdisj.
  { intros s0 fl0 i r H2' Hb. destruct (run_owned_unique s0 fl0 b b2 i r Hi Hi2 Hb H2'). congruence. }
  assert (∀ i r, run_owned (rn_ext x) fl b2 i r → run_same (rn_ext x) (rn_ext x') fl' i r) as Hk2.
  { intros i r Ho. apply Hk; [by eapply run_owned_runs|by eapply run_owned_busy|by apply Hdisj]. }
  split; [by eapply ab_inv_kept|]. split; [done|]. intros i r k. split.
  - intros Ha. assert (run_owned (rn_ext x) fl b2 i r) as Ho.
    { destruct Ha as [Ho' _]. destruct (Hn i r) as [Hr Hb]; [by eapply run_owned_runs|by eapply run_owned_busy
        |by apply Hdisj|].
      apply (run_same_owned (rn_ext x) (rn_ext x') fl fl' b2 i r); [|done|done].
      apply Hk; [done|done|]. intros Ho. apply (Hdisj (rn_ext x') fl' i r Ho').
      apply Hown; [done|by eapply run_owned_busy]. }
    by apply (aused_kept (rn_ext x) (rn_ext x') fl fl' b2).
  - intros Ha. by apply (aused_kept (rn_ext x) (rn_ext x') fl fl' b2); [| |apply Ha|].
Qed.

(** *** A new bitmap for one run *)

Lemma ab_set_eq b m : ab_0 (set_abin false m b) = m.
Proof. done. Qed.

Lemma ab_inv_update s fl ml b i rid m :
  pool_inv s fl ml → ab_inv s fl b → run_owned s fl b i rid →
  (∀ a, a ≠ run_at s i rid → m !! a = ab_0 b !! a) →
  (∀ bits, m !! run_at s i rid = Some bits → bits_ok s i rid bits ∧ rb_alloc bits < rb_count bits) →
  ab_inv s fl (set_abin false m b).
Proof.
  intros Hp [h1 h2 h3 h4 h5] Ho Hne Heq. constructor; try done. intros a bits Ha. cbn in Ha.
  destruct (decide (a = run_at s i rid)) as [->|Hd].
  - exists i, rid. split; [done|]. split; [by apply (same_abin_owned s fl b)|]. by apply Heq.
  - rewrite Hne in Ha by done. destruct (h4 a bits Ha) as (j & r & -> & Hoj & Hrest). exists j, r.
    split; [done|]. split; [by apply (same_abin_owned s fl b)|done].
Qed.

(** The bitmap of an owned run: it is in the map, or all its regions are taken. *)
Definition bin_used (s : ext_st) (b : ArenaBin) (i rid k : Z) : Prop :=
  ∀ bits, ab_0 b !! run_at s i rid = Some bits → rb_used bits k = true.

Lemma aused_update s fl ml b i rid m :
  pool_inv s fl ml → run_owned s fl b i rid →
  (∀ a, a ≠ run_at s i rid → m !! a = ab_0 b !! a) →
  ∀ j r k, aused s fl (set_abin false m b) j r k ↔
    if decide (j = i ∧ r = rid)
    then 0 ≤ k < md_count (run_meta s i rid) ∧ ∀ bits, m !! run_at s i rid = Some bits → rb_used bits k = true
    else aused s fl b j r k.
Proof.
  intros Hp Ho Hne j r k. unfold aused. rewrite (same_abin_owned s fl b) by done. cbn [ab_0 set_abin set_ab_0].
  case_decide as Hd; [destruct Hd as [-> ->]; tauto|].
  split; intros (Hoj & Hk & Hu); (split; [done|]); (split; [done|]); intros bits; specialize (Hu bits);
    (assert (run_at s j r ≠ run_at s i rid) as Hn by
      (intros He; apply Hd; eapply run_at_inj; [exact Hp| | |exact He]; by eapply run_owned_busy)).
  - by rewrite <-Hne.
  - cbn. by rewrite Hne.
Qed.

(** *** Sequences of steps *)

Lemma run_same_refl s fl i r : busy (pm_of s) fl i r → run_same s s fl i r.
Proof. by constructor. Qed.

Lemma abin_frame_refl x fl b : abin_frame x x fl fl b.
Proof. by constructor. Qed.

Lemma run_same_trans s1 s2 s3 fl2 fl3 i r :
  run_same s1 s2 fl2 i r → run_same s2 s3 fl3 i r → run_same s1 s3 fl3 i r.
Proof.
  intros [H1' (?&?&?&?&?) H3'] [H4' (?&?&?&?&?) H6']. constructor; [done| |congruence].
  unfold same_static. split_and!; congruence.
Qed.

Lemma has_runs_same s s' fl' i r : run_same s s' fl' i r → has_runs (pm_of s') i ↔ has_runs (pm_of s) i.
Proof. intros [_ Hs _]. by apply has_runs_static. Qed.

Lemma abin_frame_same x x' fl fl' b b' : same_abin b b' → abin_frame x x' fl fl' b → abin_frame x x' fl fl' b'.
Proof.
  intros Hb [h1 h2 h3 h4 h5 h6 h7]. constructor; try done.
  - intros i r. rewrite (same_abin_owned _ _ b b') by done. apply h3.
  - intros i r. rewrite !(same_abin_owned _ _ b b') by done. apply h4.
  - intros i r. rewrite (same_abin_owned _ _ b b') by done. apply h5.
Qed.

(** Two steps, if the runs of the bin stay its own in the first. *)
Lemma abin_frame_trans x1 x2 x3 fl1 fl2 fl3 b :
  abin_frame x1 x2 fl1 fl2 b → abin_frame x2 x3 fl2 fl3 b →
  (∀ i r, run_owned (rn_ext x1) fl1 b i r → run_owned (rn_ext x2) fl2 b i r) →
  abin_frame x1 x3 fl1 fl3 b.
Proof.
  intros [h1 h2 h3 h4 h5 h6 h7] [k1 k2 k3 k4 k5 k6 k7] Ho. constructor.
  - by eapply same_pool_trans.
  - congruence.
  - intros i r Hr Hb Hn. pose proof (h3 i r Hr Hb Hn) as Hs. eapply run_same_trans; [exact Hs|].
    apply k3; [by eapply has_runs_same|apply Hs|]. by rewrite (run_same_owned _ _ fl1 fl2 b i r Hs Hb).
  - intros i r Hi Hb. by apply k4; [apply Ho|].
  - intros i r Hr Hb Hn. destruct (k5 i r Hr Hb Hn) as [Hr2 Hb2]. apply h5; [done|done|].
    intros Ho2. by apply Hn, k4.
  - intros j k. by rewrite k6, h6.
  - intros j Hl Ht. destruct (h7 j Hl Ht) as [Hl2 Hd2]. destruct (k7 j Hl2) as [Hl3 Hd3]; [congruence|].
    split; [done|congruence].
Qed.

Lemma filled_trans x1 x2 x3 fl1 fl2 fl3 b1 b2 b3 L1 L2 :
  filled x1 x2 fl1 fl2 b1 b2 L1 → filled x2 x3 fl2 fl3 b2 b3 L2 → filled x1 x3 fl1 fl3 b1 b3 (L1 ++ L2).
Proof.
  intros [Hf Hb Hi Hk Hnd Hfr Hu Ht] [Gf Gb Gi Gk Gnd Gfr Gu Gt].
  assert (∀ i r, run_owned (rn_ext x1) fl1 b1 i r → run_owned (rn_ext x2) fl2 b1 i r) as Ho.
  { intros i r Ho. apply (run_same_owned _ _ fl1 fl2 b1 i r (Hk i r Ho)); [by eapply run_owned_busy|done]. }
  constructor; try done.
  - eapply abin_frame_trans; [exact Hf| |exact Ho]. eapply abin_frame_same; [|exact Gf].
    destruct Hb as (?&?&?&?). by repeat split.
  - destruct Hb as (?&?&?&?), Gb as (?&?&?&?). unfold same_abin. split_and!; congruence.
  - intros i r Hor. eapply run_same_trans; [by apply Hk|]. apply Gk.
    by apply (same_abin_owned _ _ b1), Ho.
  - apply NoDup_app. split; [done|]. split; [|done]. intros [i r k] H1' H2'.
    apply (Gfr i r k H2'), Hu. by left.
  - intros i r k [H1'|H2']%elem_of_app; [by apply Hfr|]. intros Ha. apply (Gfr i r k H2'), Hu. by right.
  - intros i r k. rewrite Gu, Hu, elem_of_app. tauto.
  - intros i r k [H1'|H2']%elem_of_app; [|by apply Gt].
    assert (aused (rn_ext x2) fl2 b2 i r k) as [Hor _] by (apply Hu; by left).
    rewrite (rs_meta _ _ _ _ _ (Gk i r Hor)). by apply Ht.
Qed.

Lemma filled_refl x fl b : ab_inv (rn_ext x) fl b → filled x x fl fl b b [].
Proof.
  intros Hb. constructor; [by apply abin_frame_refl|done|done| | | | |].
  - intros i r Ho. apply run_same_refl. by eapply run_owned_busy.
  - apply NoDup_nil_2.
  - intros i r k Hin. by apply not_elem_of_nil in Hin.
  - intros i r k. rewrite elem_of_nil. tauto.
  - intros i r k Hin. by apply not_elem_of_nil in Hin.
Qed.

(** *** Handing out regions of one run *)

Lemma amap_entry s fl ml b i rid bits :
  pool_inv s fl ml → ab_inv s fl b → busy (pm_of s) fl i rid → ab_0 b !! run_at s i rid = Some bits →
  run_owned s fl b i rid ∧ bits_ok s i rid bits ∧ rb_alloc bits < rb_count bits.
Proof.
  intros Hp Hb Hbs Hin. destruct (ai_map _ _ _ Hb _ _ Hin) as (j & r & He & Ho & Hrest).
  destruct (run_at_inj s fl ml i j rid r Hp Hbs (run_owned_busy _ _ _ _ _ Ho) He) as [<- <-]. done.
Qed.

Lemma free_list_facts bits : NoDup (free_list bits) ∧
  ∀ k, k ∈ free_list bits ↔ 0 ≤ k < rb_count bits ∧ rb_used bits k = false.
Proof.
  unfold free_list, free_from. split; [apply NoDup_filter, NoDup_seqZ|].
  intros k. rewrite list_elem_of_filter, elem_of_seqZ, negb_true_iff. split; intros [? ?]; split; done || lia.
Qed.

Lemma fill_step x fl ml b i rid bits bits' idxs :
  runs_inv x fl ml → ab_inv (rn_ext x) fl b → busy (pm_of (rn_ext x)) fl i rid →
  ab_0 b !! run_at (rn_ext x) i rid = Some bits → taken bits bits' idxs →
  NoDup idxs → (∀ k, k ∈ idxs → 0 ≤ k < rb_count bits ∧ rb_used bits k = false) →
  let m := <[run_at (rn_ext x) i rid := bits']> (ab_0 b) in
  let m := if RunBits_empty bits' then delete (run_at (rn_ext x) i rid) m else m in
  filled x x fl fl b (set_abin false m b) (Cell i rid <$> idxs).
Proof.
  intros Hx Hb Hbs Hin (Hwf' & (Es & Ec & Em & Eo) & Ea & Eu) Hnd Hidx m m'.
  pose proof (rv_pool _ _ _ Hx) as Hp. set (s := rn_ext x) in *.
  destruct (amap_entry s fl ml b i rid bits Hp Hb Hbs Hin) as (Ho & [k1 k2 k3 k4 k5 k6] & Hlt).
  assert (∀ a, a ≠ run_at s i rid → m' !! a = ab_0 b !! a) as Hne.
  { intros a Hd. subst m' m. destruct (RunBits_empty bits'); by rewrite ?lookup_delete_ne, lookup_insert_ne by done. }
  assert (m' !! run_at s i rid = if RunBits_empty bits' then None else Some bits') as Heq.
  { subst m' m. destruct (RunBits_empty bits'); [apply lookup_delete_eq|apply lookup_insert_eq]. }
  assert (0 ≤ rb_alloc bits' ≤ rb_count bits') as Hab.
  { destruct Hwf' as (Hrc & _ & _ & ->). apply used_count_bounds. lia. }
  assert (∀ k, 0 ≤ k < md_count (run_meta s i rid) →
    (∀ z, m' !! run_at s i rid = Some z → rb_used z k = true) ↔ rb_used bits' k = true) as Hfull.
  { intros k Hk. rewrite Heq. unfold RunBits_empty. destruct (Z.eqb_spec (rb_alloc bits') (rb_count bits')) as [He|He].
    - split; [|done]. intros _. apply (alloc_full_used bits'); [done|done|]. rewrite Ec, k5. done.
    - split; [intros Hz; by apply Hz|by intros Hz z [= <-]]. }
  assert (∀ k, aused s fl b i rid k ↔ 0 ≤ k < md_count (run_meta s i rid) ∧ rb_used bits k = true) as Hold.
  { intros k. unfold aused. split; [intros (_ & Hk & Hu); split; [done|by apply Hu]|].
    intros [Hk Hu]. split; [done|]. split; [done|]. intros z Hz. congruence. }
  constructor; [by apply abin_frame_refl|done| | | | | |].
  - apply (ab_inv_update s fl ml b i rid); [done|done|done|done|]. intros z. rewrite Heq. unfold RunBits_empty.
    destruct (Z.eqb_spec (rb_alloc bits') (rb_count bits')) as [He|He]; [done|]. intros [= <-].
    split; [|lia]. constructor; try congruence. intros k Hk Hu. apply k6; [done|].
    rewrite Eu in Hu. by apply orb_false_iff in Hu as [? _].
  - intros j r Hor. apply run_same_refl. by eapply run_owned_busy.
  - apply NoDup_fmap_2; [by intros a c [= ->]|done].
  - intros j r k Hk. apply list_elem_of_fmap in Hk as (z & [= -> -> ->] & Hz).
    fold s. rewrite Hold. intros [_ Hu]. destruct (Hidx z Hz) as [_ Hf]. congruence.
  - intros j r k. fold s. rewrite (aused_update s fl ml b i rid m') by done. rewrite list_elem_of_fmap.
    case_decide as Hd; [destruct Hd as [-> ->]|].
    + rewrite Hold. split.
      * intros [Hk Hu]. apply Hfull in Hu; [|done]. rewrite Eu in Hu.
        apply orb_true_iff in Hu as [Hu|Hu%bool_decide_eq_true]; [by right|left; by exists k].
      * intros [(z & [= <-] & Hz)|[Hk Hu]].
        -- destruct (Hidx k Hz) as [Hk _]. rewrite k5 in Hk. split; [done|]. apply Hfull; [done|].
           rewrite Eu, bool_decide_true by done. apply orb_true_r.
        -- split; [done|]. apply Hfull; [done|]. by rewrite Eu, Hu.
    + split; [by right|]. intros [(z & [= -> -> <-] & _)|?]; [by destruct Hd|done].
  - intros j r k Hk. apply list_elem_of_fmap in Hk as (z & [= -> -> ->] & Hz).
    destruct (Hidx z Hz) as [Hk Hu]. rewrite k5 in Hk. by apply k6.
Qed.

(** *** A new run *)

Lemma live_types s fl ml j :
  pool_inv s fl ml → live (pm_of s) fl j → has_runs (pm_of s) j ∨ ed_type (desc_of (pm_of s) j) = kLarge.
Proof.
  intros Hp Hl. pose proof (inv_live _ _ _ (pi_ext _ _ _ Hp) j Hl) as (_ & _ & _ & Hu). unfold has_runs.
  destruct (ed_type (desc_of (pm_of s) j)); auto; done.
Qed.

Lemma got_old_run s s' fl fl' ml cs cs' n t rsize i rid j r :
  pool_inv s fl ml → got_run s s' fl fl' cs cs' n t rsize i rid →
  has_runs (pm_of s') j → busy (pm_of s') fl' j r → ¬ (j = i ∧ r = rid) →
  has_runs (pm_of s) j ∧ busy (pm_of s) fl j r.
Proof.
  intros Hp Hg Hr Hb Hne. apply (gr_busy _ _ _ _ _ _ _ _ _ _ _ Hg) in Hb as [?|Hb]; [done|].
  split; [|done]. destruct (live_types s fl ml j Hp (proj1 Hb)) as [?|Hl]; [done|].
  destruct (gr_ldesc _ _ _ _ _ _ _ _ _ _ _ Hg j (proj1 Hb) Hl) as [_ Hd].
  unfold has_runs in Hr. rewrite Hd, Hl in Hr. by destruct Hr.
Qed.

Lemma new_run_filled x fl ml s' fl' ml' cs' b t rsize i rid bits :
  runs_inv x fl ml → pool_inv s' fl' ml' → ab_inv (rn_ext x) fl b →
  got_run (rn_ext x) s' fl fl' (rn_cases x) cs' (ab_rcase b) t rsize i rid →
  lenZ cs' = lenZ (rn_cases x) →
  run_owned s' fl' b i rid → bits_ok s' i rid bits → rb_alloc bits = 0 →
  filled x {| rn_ext := s'; rn_cases := cs'; rn_sc := rn_sc x |} fl fl' b
    (set_abin false (<[run_at s' i rid := bits]> (ab_0 b)) b) [].
Proof.
  intros Hx Hp' Hb Hg Hlen Ho Hok Ha. pose proof (rv_pool _ _ _ Hx) as Hp. set (s := rn_ext x) in *.
  assert (∀ j r, run_owned s fl b j r → run_same s s' fl' j r) as Hk.
  { intros j r Hoj. apply (gr_same _ _ _ _ _ _ _ _ _ _ _ Hg); [by eapply run_owned_runs|by eapply run_owned_busy]. }
  assert (ab_inv s' fl' b) as Hb' by (apply (ab_inv_kept s s' fl fl' b); [apply Hg|done|done]).
  assert (∀ k, rb_used bits k = false) as Hfree by (apply alloc_zero_free; [apply Hok|done]).
  constructor; [|done| |done|apply NoDup_nil_2| | |].
  - constructor; cbn; fold s; [apply Hg|done| | | |apply Hg|apply Hg].
    + intros j r Hr Hbs _. by apply (gr_same _ _ _ _ _ _ _ _ _ _ _ Hg).
    + intros j r Hoj _. apply (run_same_owned s s' fl fl' b j r (Hk j r Hoj)); [by eapply run_owned_busy|done].
    + intros j r Hr Hbs Hn. eapply got_old_run; [done|exact Hg|done|done|]. by intros [-> ->].
  - cbn. apply (ab_inv_update s' fl' ml' b i rid); [done|done|done| |].
    + intros a Hne. by rewrite lookup_insert_ne.
    + intros z. rewrite lookup_insert_eq. intros [= <-]. split; [done|]. rewrite Ha. apply Hok.
  - intros j r k Hin. by apply not_elem_of_nil in Hin.
  - intros j r k. cbn. fold s. rewrite (aused_update s' fl' ml' b i rid) by
      (done || (intros a Hne; by rewrite lookup_insert_ne)).
    rewrite elem_of_nil. case_decide as Hd.
    + destruct Hd as [-> ->]. split.
      * intros [_ Hu]. specialize (Hu bits (lookup_insert_eq _ _ _)). congruence.
      * intros [[]|[Hos _]]. destruct (gr_free _ _ _ _ _ _ _ _ _ _ _ Hg). by eapply run_owned_busy.
    + split.
      * intros Hu. right. apply (aused_kept s s' fl fl' b); [apply Hg|done| |done].
        destruct Hu as [Hos _]. destruct (got_old_run _ _ _ _ _ _ _ _ _ _ _ _ j r Hp Hg) as [Hr Hbs];
          [by eapply run_owned_runs|by eapply run_owned_busy|done|].
        apply (run_same_owned s s' fl fl' b j r); [|done|done]. by apply (gr_same _ _ _ _ _ _ _ _ _ _ _ Hg).
      * intros [[]|Hu]. apply (aused_kept s s' fl fl' b); [apply Hg|done|apply Hu|done].
  - intros j r k Hin. by apply not_elem_of_nil in Hin.
Qed.

(** *** The regions of a run *)

Definition class_count_check (index : Z) : bool :=
  if index <=? 19 then 16384 <=? index_rsize index
  else match medium_count_loop (Datatypes.S (Z.to_nat (index_rsize index / index2size_compute index)))
               (index2size_compute index) (index_rsize index / index2size_compute index) with
       | Some c => 0 <? c
       | None => false
       end.
Lemma class_counts_checked : forallb class_count_check (seqZ 0 40) = true.
Proof. vm_compute. reflexivity. Qed.

Lemma class_checked index : 0 ≤ index < 40 → class_count_check index = true.
Proof.
  intros Hi. pose proof class_counts_checked as Hall. rewrite forallb_forall in Hall. apply Hall.
  apply list_elem_of_In, elem_of_seqZ. lia.
Qed.

(** A run of every class has a region. *)
Lemma small_class_count index c :
  0 ≤ index ≤ 19 → small_fits (index_rsize index) (index2size_compute index) c → class_count index c.
Proof.
  intros Hi Hf. unfold class_count. rewrite (proj2 (Z.leb_le index 19)) by lia. split; [|done].
  pose proof (class_checked index) as Hc. unfold class_count_check in Hc.
  rewrite (proj2 (Z.leb_le index 19)) in Hc by lia. specialize (Hc ltac:(lia)). apply Z.leb_le in Hc.
  destruct (class_bin index) as (j & _ & _ & Hs & _); [lia|]. destruct (Hs ltac:(lia)) as (_ & _ & Hsz).
  change kMaxSmallSize with 2048 in Hsz. destruct Hf as (Hr & Hm & Hl). unfold meta_size in *.
  change sizeof_SmallMeta with 24 in *. change sizeof_token with 1 in *.
  destruct (decide (c = 0)) as [->|]; lia.
Qed.

Lemma medium_class_count index c :
  19 < index < 40 → medium_fits (index_rsize index) (index2size_compute index) c → class_count index c.
Proof.
  intros Hi Hf. unfold class_count. rewrite (proj2 (Z.leb_gt index 19)) by lia. split; [|done].
  pose proof (class_checked index) as Hc. unfold class_count_check in Hc.
  rewrite (proj2 (Z.leb_gt index 19)) in Hc by lia. specialize (Hc ltac:(lia)).
  set (n := index_rsize index / index2size_compute index) in *. destruct Hf as (Hr & Hm & Hmax). fold n in Hr, Hmax.
  destruct (medium_count_ok (index2size_compute index) n (Datatypes.S (Z.to_nat n)))
    as (c' & Hc' & Hr' & Hm' & _); [lia|lia|]. rewrite Hc' in Hc. apply Z.ltb_lt in Hc.
  destruct (decide (c' ≤ c)); [lia|]. by destruct (Hmax c' ltac:(lia)).
Qed.

(** The regions lie inside the run, behind its metadata if that is in the run. *)
Lemma class_count_bounds index c :
  0 ≤ index < 40 → class_count index c →
  0 < c < 2 ^ 16 ∧ 0 < index2size_compute index < 2 ^ 32 ∧ c * index2size_compute index ≤ index_rsize index ∧
  (index ≤ 19 → c * index2size_compute index + meta_size c ≤ index_rsize index).
Proof.
  intros Hi [Hc Hf]. destruct (index2size_facts index Hi) as (_ & Hs & _).
  destruct (class_bin index Hi) as (j & Ej & _ & Hsm & Hmd).
  assert (case_rsize j = index_rsize index) as Er by (unfold index_rsize, index_bin; by rewrite Ej).
  destruct (Z.leb_spec index 19).
  - destruct Hf as (Hr & Hm & _). assert (0 ≤ meta_size c).
    { unfold meta_size. change sizeof_SmallMeta with 24. change sizeof_token with 1. lia. }
    split_and!; try lia.
  - destruct (Hmd ltac:(lia)) as (_ & _ & _ & H51). rewrite Er in H51. destruct Hf as (Hr & _).
    pose proof (Z.mul_div_le (index_rsize index) (index2size_compute index)). split_and!; try lia. nia.
Qed.

Lemma run_at_bounds s fl ml i r :
  pool_inv s fl ml → busy (pm_of s) fl i r →
  0 < run_at s i r ∧ run_at s i r + ed_size (desc_of (pm_of s) i) < 2 ^ 63.
Proof.
  intros Hp Hb. destruct (busy_offset s fl ml i r Hp Hb) as (Hs & Ho & Hm & Hi).
  destruct (pi_file _ _ _ Hp) as (Hst & _ & _ & Hsz & He). unfold run_at, ext_at, ext_base, file_end, extents in *.
  change kRootSegSize with 8192 in *. change kExtentSize with 4194304 in *. nia.
Qed.

Lemma owned_counts s fl b i r :
  0 ≤ ab_index b < 40 → run_owned s fl b i r →
  0 < md_count (run_meta s i r) < 2 ^ 16 ∧ 0 < md_size (run_meta s i r) < 2 ^ 32 ∧
  md_count (run_meta s i r) * md_size (run_meta s i r) ≤ ed_size (desc_of (pm_of s) i).
Proof.
  intros Hi [(_ & _ & _ & Es) _ Esz Hc]. rewrite Esz, Es. apply class_count_bounds in Hc; [|done]. tauto.
Qed.

(** The bitmap of a run, as the code constructs it. *)
Lemma owned_bits s fl b i r e :
  0 ≤ ab_index b < 40 → run_owned s fl b i r →
  let bits := RunBits_new (md_size (run_meta s i r)) (md_count (run_meta s i r))
                (meta_addr s i r) (objs_at s i r) e in
  (e = false → ∀ k, 0 ≤ k < md_count (run_meta s i r) → md_token (run_meta s i r) k = Some kFreeCode) →
  bits_ok s i r bits ∧ rb_alloc bits = (if e then md_count (run_meta s i r) else 0) ∧
  ∀ k, 0 ≤ k < md_count (run_meta s i r) → rb_used bits k = e.
Proof.
  intros Hi Ho bits Ht. destruct (owned_counts s fl b i r Hi Ho) as (Hc & Hs & _).
  destruct (RunBits_new_ok (md_size (run_meta s i r)) (md_count (run_meta s i r)) (meta_addr s i r)
    (objs_at s i r) e Hc) as (Hwf & Es & Ec & Em & Eo & Ea & Hu). fold bits in Hwf, Es, Ec, Em, Eo, Ea, Hu.
  rewrite u32_small in Es by lia. split; [|done]. constructor; try done.
  intros k Hk Hf. apply Ht; [|done]. rewrite Hu in Hf by done. done.
Qed.

(** *** What has come into use *)

Lemma grown_refl s fl : grown s s fl fl [].
Proof. split; intros; by left. Qed.

Lemma grown_but_refl s fl i r : grown_but s s fl fl i r.
Proof. done. Qed.

Lemma grown_trans s1 s2 s3 fl1 fl2 fl3 L1 L2 :
  grown s1 s2 fl1 fl2 L1 → grown s2 s3 fl2 fl3 L2 → grown s1 s3 fl1 fl3 (L1 ++ L2).
Proof.
  intros [a1 a2] [b1 b2]. split.
  - intros i Hi. destruct (b1 i Hi) as [Hi2|(r & k & Hin)]; [|right; exists r, k; apply elem_of_app; by right].
    destruct (a1 i Hi2) as [?|(r & k & Hin)]; [by left|right; exists r, k; apply elem_of_app; by left].
  - intros i r Hi. destruct (b2 i r Hi) as [Hi2|(k & Hin)]; [|right; exists k; apply elem_of_app; by right].
    destruct (a2 i r Hi2) as [?|(k & Hin)]; [by left|right; exists k; apply elem_of_app; by left].
Qed.

Lemma grown_close s s' fl fl' i r k L : grown_but s s' fl fl' i r → Cell i r k ∈ L → grown s s' fl fl' L.
Proof.
  intros [h1 h2] Hin. split.
  - intros j Hj. destruct (decide (j = i)) as [->|Hne]; [right; by exists r, k|left; by apply h1].
  - intros j q Hj. destruct (decide (j = i ∧ q = r)) as [[-> ->]|Hne]; [right; by exists k|left; by apply h2].
Qed.

Lemma got_grown_but s s' fl fl' cs cs' n t rsize i rid :
  got_run s s' fl fl' cs cs' n t rsize i rid → grown_but s s' fl fl' i rid.
Proof.
  intros Hg. split.
  - intros j Hne. by apply (gr_live _ _ _ _ _ _ _ _ _ _ _ Hg).
  - intros j q Hne Hb. by apply (gr_busy _ _ _ _ _ _ _ _ _ _ _ Hg) in Hb as [?|?].
Qed.

(** *** [select_run] *)

Lemma wp_exm {A} (m : M ext_st A) Q x :
  wp m (λ a s, Q a (set_rn_ext s x)) (rn_ext x) → wp (exm m) Q x.
Proof. apply wp_zoom. Qed.

Lemma wp_on_case {A} j (f : RunCase → M ext_st (RunCase * A)) c Q x :
  nthZ (rn_cases x) j = Some c →
  wp (f c) (λ r s, Q r.2 {| rn_ext := s; rn_cases := updZ (rn_cases x) j r.1; rn_sc := rn_sc x |}) (rn_ext x) →
  wp (on_case j f) Q x.
Proof.
  intros Hj Hf. unfold on_case. wp_step. wp_step. wp_step. wp_step; [exact Hj|]. wp_step. apply wp_exm.
  eapply wp_mono; [exact Hf|]. intros [c' a] s HQ. cbv beta iota. wp_step. wp_step. wp_step. exact HQ.
Qed.

Lemma set_rn_ext_id x : set_rn_ext (rn_ext x) x = x.
Proof. by destruct x. Qed.

Lemma deref_small_run s fl ml i r Q x :
  rn_ext x = s → pool_inv s fl ml → busy (pm_of s) fl i r →
  Q (small_at (pm_of s) (run_at s i r)) x → wp (deref_small (run_at s i r)) Q x.
Proof.
  intros <- Hp Hb HQ. destruct (run_at_bounds _ _ _ _ _ Hp Hb) as [Hpos _]. unfold deref_small.
  change nullptr with 0. rewrite (proj2 (Z.eqb_neq _ _)) by lia. apply wp_exm, wp_pm. unfold ld_small.
  apply wp_gets. rewrite set_es_pst_id, set_rn_ext_id. exact HQ.
Qed.

Lemma deref_med_run s fl ml i r Q x :
  rn_ext x = s → pool_inv s fl ml → busy (pm_of s) fl i r → is_medium (pm_of s) i = true →
  Q (med_at (pm_of s) (meta_addr s i r)) x → wp (deref_med (meta_addr s i r)) Q x.
Proof.
  intros <- Hp Hb Hm HQ. destruct (live_slot _ _ _ i (pi_ext _ _ _ Hp) (proj1 Hb) Hm) as (j & Hj & Er & _).
  pose proof (medium_busy_range _ _ _ _ _ Hp Hb Hm). pose proof (inv_head _ _ _ (pi_ext _ _ _ Hp)) as Hh.
  assert (meta_addr (rn_ext x) i r ≠ nullptr).
  { unfold meta_addr. rewrite Hm, Er. unfold slot_addr, elem_addr, nullptr, wf_head in *.
    change kCacheLineSize with 64. change sizeof_MediumMeta with 64. intuition lia. }
  unfold deref_med. rewrite (proj2 (Z.eqb_neq _ _)) by done. apply wp_exm, wp_pm. unfold ld_med.
  apply wp_gets. rewrite set_es_pst_id, set_rn_ext_id. exact HQ.
Qed.

Lemma class_rsize_ok index : 0 ≤ index < 40 → class_rsize index = Some (index_rsize index).
Proof.
  intros Hi. destruct (class_bin index Hi) as (j & Hj & Hr & _). unfold class_rsize, index_rsize, index_bin, case_rsize.
  rewrite Hj. simpl. destruct (nthZ_is_Some kRunSizeTab j) as [z Hz]; [exact Hr|]. by rewrite Hz.
Qed.

(** The start of the regions of a small run does not wrap around. *)
Lemma small_objs_ok s fl ml b i r :
  pool_inv s fl ml → 0 ≤ ab_index b < 40 → run_owned s fl b i r → ab_index b ≤ 19 →
  small_objs (run_at s i r) (index_rsize (ab_index b)) (small_at (pm_of s) (run_at s i r)) = objs_at s i r ∧
  run_meta s i r = inl (small_at (pm_of s) (run_at s i r)) ∧ meta_addr s i r = run_at s i r.
Proof.
  intros Hp Hi Ho Hsm. pose proof (run_owned_medium _ _ _ _ _ Ho) as Hm.
  rewrite (proj2 (Z.leb_le _ _)) in Hm by done. simpl in Hm.
  assert (meta_addr s i r = run_at s i r) as Ea by (unfold meta_addr; by rewrite Hm).
  assert (run_meta s i r = inl (small_at (pm_of s) (run_at s i r))) as Emd by (unfold run_meta; by rewrite Hm, Ea).
  split; [|done]. destruct (run_at_bounds s fl ml i r Hp (run_owned_busy _ _ _ _ _ Ho)) as [Hlo Hhi].
  destruct (owned_counts s fl b i r Hi Ho) as (Hc & Hs & Hle). unfold small_objs, objs_at. rewrite Hm.
  pose proof (ro_bin _ _ _ _ _ Ho) as (_ & _ & _ & Es). rewrite Es in *. rewrite Emd in *. simpl in *.
  apply Z.mod_small. nia.
Qed.

Lemma run_st_eta x : {| rn_ext := rn_ext x; rn_cases := rn_cases x; rn_sc := rn_sc x |} = x.
Proof. by destruct x. Qed.

Lemma bin_case x fl ml b c :
  runs_inv x fl ml → nthZ (rn_cases x) (ab_rcase b) = Some c →
  cases_inv (rn_ext x) fl (rn_cases x) ∧ rc_index c = ab_rcase b ∧
  ∀ c', lenZ (updZ (rn_cases x) (ab_rcase b) c') = lenZ (rn_cases x).
Proof.
  intros Hx Hc. split; [apply Hx|]. split; [by apply (rv_cases _ _ _ Hx)|]. intros c'. apply lenZ_updZ.
Qed.

(** A run has been acquired for the bin and is entered into its map. *)
Lemma select_new x fl ml s' fl' ml' c' b t i rid :
  runs_inv x fl ml → pool_inv s' fl' ml' → ab_inv (rn_ext x) fl b →
  got_run (rn_ext x) s' fl fl' (rn_cases x) (updZ (rn_cases x) (ab_rcase b) c') (ab_rcase b) t
    (index_rsize (ab_index b)) i rid → t = index_type (ab_index b) →
  md_arena (run_meta s' i rid) = ab_arena b →
  md_size (run_meta s' i rid) = index2size_compute (ab_index b) →
  class_count (ab_index b) (md_count (run_meta s' i rid)) →
  (∀ k, 0 ≤ k < md_count (run_meta s' i rid) → md_token (run_meta s' i rid) k = Some kFreeCode) →
  let x' := {| rn_ext := s'; rn_cases := updZ (rn_cases x) (ab_rcase b) c'; rn_sc := rn_sc x |} in
  let bits := RunBits_new (md_size (run_meta s' i rid)) (md_count (run_meta s' i rid))
                (meta_addr s' i rid) (objs_at s' i rid) false in
  runs_inv x' fl' ml' ∧ run_owned s' fl' b i rid ∧
  filled x x' fl fl' b (set_abin false (<[run_at s' i rid := bits]> (ab_0 b)) b) [].
Proof.
  intros Hx Hp' Hb Hg Ht Ha Hs Hc Hfree x' bits.
  assert (run_owned s' fl' b i rid) as Ho.
  { constructor; try done. destruct (gr_desc _ _ _ _ _ _ _ _ _ _ _ Hg) as (Et & Er & Es).
    split; [|split; [congruence|by split]]. apply (gr_busy _ _ _ _ _ _ _ _ _ _ _ Hg). by left. }
  destruct (owned_bits s' fl' b i rid false (ai_index _ _ _ Hb) Ho (λ _, Hfree)) as (Hok & Hal & _).
  split; [|split; [done|]].
  - constructor; [done|apply Hg|apply Hx].
  - apply (new_run_filled x fl ml s' fl' ml' _ b t (index_rsize (ab_index b))); try done. apply lenZ_updZ.
Qed.

(** After the new run has been entered, it is the one that is selected. *)
Lemma select_entered x' fl fl' ml' x b i rid bits Q :
  runs_inv x' fl' ml' → ab_0 b = ∅ →
  filled x x' fl fl' b (set_abin false (<[run_at (rn_ext x') i rid := bits]> (ab_0 b)) b) [] →
  run_owned (rn_ext x') fl' b i rid → grown_but (rn_ext x) (rn_ext x') fl fl' i rid →
  (∀ x' fl' ml' b' i rid bits, runs_inv x' fl' ml' → filled x x' fl fl' b b' [] →
     grown_but (rn_ext x) (rn_ext x') fl fl' i rid →
     busy (pm_of (rn_ext x')) fl' i rid → ab_0 b' !! run_at (rn_ext x') i rid = Some bits →
     Q (b', Some (run_at (rn_ext x') i rid)) x') →
  let b' := set_abin false (<[run_at (rn_ext x') i rid := bits]> (ab_0 b)) b in
  Q (b', um_begin (ab_0 b')) x'.
Proof.
  intros Hx He Hf Ho Hgr HQ b'. cbn [b' set_abin set_ab_0 ab_0].
  assert (um_begin (<[run_at (rn_ext x') i rid := bits]> (ab_0 b)) = Some (run_at (rn_ext x') i rid)) as ->.
  { rewrite He, insert_empty.
    destruct (um_begin_in ({[run_at (rn_ext x') i rid := bits]} : gmap Z RunBits)) as (z & v & Hz & Hv);
      [apply map_non_empty_singleton|]. by apply lookup_singleton_Some in Hv as [<- _]. }
  apply (HQ x' fl' ml' b' i rid bits); [done|done|done|by eapply run_owned_busy|apply lookup_insert_eq].
Qed.

Lemma wp_select_run x fl ml b c (E : error → Prop) Q :
  runs_inv x fl ml → ab_inv (rn_ext x) fl b → nthZ (rn_cases x) (ab_rcase b) = Some c →
  (no_runs x fl b → if ab_index b <=? 19 then E EUB else Q (b, None) x) →
  (∀ x' fl' ml' b' i rid bits, runs_inv x' fl' ml' → filled x x' fl fl' b b' [] →
     grown_but (rn_ext x) (rn_ext x') fl fl' i rid →
     busy (pm_of (rn_ext x')) fl' i rid → ab_0 b' !! run_at (rn_ext x') i rid = Some bits →
     Q (b', Some (run_at (rn_ext x') i rid)) x') →
  wp_e (select_run b false) E Q x.
Proof.
  intros Hx Hb Hc Hnone HQ. pose proof (ai_index _ _ _ Hb) as Hi. pose proof (ai_type _ _ _ Hb) as Ht.
  pose proof (rv_pool _ _ _ Hx) as Hp. destruct (bin_case x fl ml b c Hx Hc) as (Hcs & Eci & _).
  assert (ab_0 b = ∅ → case_no_space (rn_ext x) fl c (index_bin (ab_index b)) → no_runs x fl b) as Hno.
  { intros He Hn. split; [exact He|]. intros c0 Hc0. by assert (c0 = c) as -> by congruence. }
  unfold select_run. apply wp_e_bind, wp_e_wp, wp_assert.
  { rewrite Ht. unfold index_type. by destruct (_ <=? 19). }
  apply wp_e_bind. cbn [abin]. case_bool_decide as He.
  - apply dom_empty_iff_L in He. rewrite Ht. unfold index_type.
    apply wp_e_bind, wp_e_wp, wp_gets. rewrite (rv_sc _ _ _ Hx).
    destruct (Z.leb_spec (ab_index b) 19) as [Hsm|Hmd].
    + rewrite bool_decide_true by done. apply wp_e_bind, wp_e_wp, (wp_on_case _ _ c); [done|].
      apply (wp_case_srun_acquire _ fl ml (rn_cases x) (ab_rcase b));
        [done|done|done|lia|by eapply ai_arena|..].
      * intros Hn. cbn [fst snd]. rewrite updZ_id, run_st_eta by done. apply wp_e_bind, wp_e_wp, wp_assert; [done|].
        apply wp_e_bind, wp_e_wp. eapply wp_deref; [by apply class_rsize_ok|].
        apply wp_e_bind. apply wp_e_err, Hnone, Hno, Hn. exact He.
      * intros s' fl' ml' c' i rid m Hp' Hg Hmeta (M1 & M2 & M3 & _ & M5). cbn [fst snd].
        destruct (select_new x fl ml s' fl' ml' c' b kSmall i rid Hx Hp' Hb Hg) as (Hx' & Ho & Hf);
          rewrite ?Hmeta; try done.
        { unfold index_type. by rewrite (proj2 (Z.leb_le _ _)). }
        { apply small_class_count; [lia|done]. }
        { intros k Hk. simpl. f_equal. by apply M5. }
        destruct (small_objs_ok s' fl' ml' b i rid Hp' Hi Ho Hsm) as (Eobj & Emd & Eaddr).
        apply wp_e_bind, wp_e_wp, wp_assert; [apply Z.eqb_refl|].
        apply wp_e_bind, wp_e_wp. eapply wp_deref; [by apply class_rsize_ok|].
        apply wp_e_bind, wp_e_wp, (deref_small_run s' fl' ml'); [done|done|by eapply run_owned_busy|].
        apply wp_e_wp, wp_ret. apply wp_e_wp, wp_ret.
        destruct (run_at_bounds s' fl' ml' i rid Hp' (run_owned_busy _ _ _ _ _ Ho)) as [Hpos _].
        change nullptr with 0. rewrite (proj2 (Z.eqb_neq _ _)) by lia. cbn [negb]. rewrite Eobj.
        rewrite Eaddr, Emd in Hf. by apply (select_entered _ fl fl' ml' x b i rid _ Q Hx' He Hf Ho (got_grown_but _ _ _ _ _ _ _ _ _ _ _ Hg)).
    + rewrite bool_decide_false by done. apply wp_e_bind, wp_e_wp, (wp_on_case _ _ c); [done|].
      apply (wp_case_mrun_acquire _ fl ml (rn_cases x) (ab_rcase b));
        [done|done|done|lia|by eapply ai_arena|..].
      * intros Hn. cbn [fst snd]. rewrite updZ_id, run_st_eta by done. rewrite Z.eqb_refl. cbn [negb].
        apply wp_e_wp, wp_ret. apply wp_e_wp, wp_ret. cbn [abin].
        rewrite He, um_begin_empty. by apply Hnone, Hno.
      * intros s' fl' ml' c' i rid m Hp' Hg Hmeta (M1 & M2 & M3 & _ & M5). cbn [fst snd].
        destruct (select_new x fl ml s' fl' ml' c' b kMedium i rid Hx Hp' Hb Hg) as (Hx' & Ho & Hf);
          rewrite ?Hmeta; try done.
        { unfold index_type. by rewrite (proj2 (Z.leb_gt _ _)). }
        { apply medium_class_count; [lia|done]. }
        assert (is_medium (pm_of s') i = true) as Em.
        { rewrite (run_owned_medium _ _ _ _ _ Ho), (proj2 (Z.leb_gt _ _)) by done. done. }
        assert (run_meta s' i rid = inr (med_at (pm_of s') (meta_addr s' i rid))) as Emd
          by (unfold run_meta; by rewrite Em).
        assert (objs_at s' i rid = run_at s' i rid) as Eobj by (unfold objs_at; by rewrite Em).
        destruct (run_at_bounds s' fl' ml' i rid Hp' (run_owned_busy _ _ _ _ _ Ho)) as [Hpos _].
        change nullptr with 0. rewrite (proj2 (Z.eqb_neq _ _)) by lia. cbn [negb].
        apply wp_e_bind, wp_e_wp, (deref_med_run s' fl' ml'); [done|done|by eapply run_owned_busy|done|].
        apply wp_e_wp, wp_ret. apply wp_e_wp, wp_ret. rewrite Emd, Eobj in Hf.
        by apply (select_entered _ fl fl' ml' x b i rid _ Q Hx' He Hf Ho (got_grown_but _ _ _ _ _ _ _ _ _ _ _ Hg)).
  - assert (ab_0 b ≠ ∅) as Hne by (intros E0; apply He; by rewrite E0, dom_empty_L).
    destruct (um_begin_in _ Hne) as (a & bits & Hbeg & Hin).
    destruct (ai_map _ _ _ Hb _ _ Hin) as (i & rid & -> & Ho & _).
    apply wp_e_wp, wp_ret. apply wp_e_wp, wp_ret. cbn [abin]. rewrite Hbeg.
    apply (HQ x fl ml b i rid bits); [done|by apply filled_refl|apply grown_but_refl|by eapply run_owned_busy|done].
Qed.

(** *** [fill_cache_bin] *)

Lemma owned_matches s fl b i r bits :
  run_owned s fl b i r → bits_ok s i r bits → meta_matches (pm_of s) (index_type (ab_index b)) bits.
Proof.
  intros Ho [_ Em _ Es Ec _]. pose proof (run_owned_medium _ _ _ _ _ Ho) as Hm.
  unfold meta_matches, index_type. rewrite Em, Es, Ec. unfold run_meta. rewrite Hm.
  by destruct (ab_index b <=? 19).
Qed.

Lemma region_of_at s fl b i r bits k :
  run_owned s fl b i r → bits_ok s i r bits →
  region_of (index_type (ab_index b)) bits k = cell_region s (Cell i r k).
Proof.
  intros Ho [_ Em Eo Es _ _]. pose proof (run_owned_medium _ _ _ _ _ Ho) as Hm.
  unfold region_of. simpl. unfold region_at, run_token. rewrite Em, Eo, Es, Hm. f_equal. f_equal.
  unfold index_type. by destruct (ab_index b <=? 19).
Qed.

Lemma cell_region_kept x x' fl fl' b b' L (L0 : list cell) :
  filled x x' fl fl' b b' L → (∀ i r k, Cell i r k ∈ L0 → run_owned (rn_ext x) fl b i r) →
  cell_region (rn_ext x') <$> L0 = cell_region (rn_ext x) <$> L0.
Proof.
  intros Hf Ho. apply list_fmap_ext. intros n [i r k] Hn. simpl.
  destruct (run_same_addr (rn_ext x) (rn_ext x') fl' i r) as (_ & _ & _ & Hr); [apply Hf| |apply Hr].
  apply (fi_kept _ _ _ _ _ _ _ Hf), (Ho i r k). by eapply list_elem_of_lookup_2.
Qed.

Lemma filled_owned x x' fl fl' b b' L i r k :
  filled x x' fl fl' b b' L → Cell i r k ∈ L → run_owned (rn_ext x') fl' b' i r.
Proof. intros Hf Hin. eapply (fi_used _ _ _ _ _ _ _ Hf). by left. Qed.

(** The regions that the fill of one run adds. *)
Lemma fill_run x fl ml b i rid bits regions restock Q :
  runs_inv x fl ml → ab_inv (rn_ext x) fl b → busy (pm_of (rn_ext x)) fl i rid →
  ab_0 b !! run_at (rn_ext x) i rid = Some bits → lenZ regions < restock →
  (∀ L bits' b', filled x x fl fl b b' L → (∃ k, Cell i rid k ∈ L) → (0 < lenZ L ≤ restock - lenZ regions) →
     (let m := <[run_at (rn_ext x) i rid := bits']> (ab_0 b) in
      b' = set_abin false (if RunBits_empty bits' then delete (run_at (rn_ext x) i rid) m else m) b) →
     Q (bits', regions ++ (cell_region (rn_ext x) <$> L)) x) →
  wp (exm (pm (RunBits_fill_regions bits regions restock (ab_type b)))) Q x.
Proof.
  intros Hx Hb Hbs Hin Hlen HQ.
  destruct (amap_entry _ _ _ _ _ _ _ (rv_pool _ _ _ Hx) Hb Hbs Hin) as (Ho & Hok & Hlt).
  destruct (free_list_facts bits) as [Hnd Hfl].
  destruct (fill_regions_run bits regions restock (ab_type b) (es_pst (rn_ext x))) as (bits' & Hrun & Htk);
    [apply Hok|done|rewrite (ai_type _ _ _ Hb); unfold index_type; destruct (_ <=? 19); auto
    |rewrite (ai_type _ _ _ Hb); by eapply owned_matches|].
  set (idxs := take (Z.to_nat (restock - lenZ regions)) (free_list bits)) in *.
  apply wp_exm, wp_pm. eapply wp_pure; [exact Hrun|]. rewrite set_es_pst_id, set_rn_ext_id.
  assert (region_of (ab_type b) bits <$> idxs = cell_region (rn_ext x) <$> (Cell i rid <$> idxs)) as ->.
  { rewrite <-list_fmap_compose. apply list_fmap_ext. intros n k _. rewrite (ai_type _ _ _ Hb).
    by apply (region_of_at (rn_ext x) fl b). }
  assert (0 < lenZ idxs) as Hpos.
  { subst idxs. unfold lenZ. rewrite length_take. pose proof (free_used_count bits) as Hfu.
    destruct Hok as [(Hc & _ & _ & Ha) _ _ _ _ _]. unfold lenZ in *. lia. }
  eapply HQ; [| |split; [|]|reflexivity].
  - apply (fill_step x fl ml b i rid bits bits' idxs); try done.
    + apply (sublist_NoDup _ (free_list bits)); [done|apply sublist_take].
    + intros k Hk. apply Hfl. eapply elem_of_take in Hk as (n & Hn & _). by eapply list_elem_of_lookup_2.
  - destruct idxs as [|k idxs']; [done|]. exists k. by left.
  - unfold lenZ in *. by rewrite length_fmap.
  - unfold lenZ in *. rewrite length_fmap. subst idxs. rewrite length_take. lia.
Qed.

Definition small_bin_class b : bool := ab_index b <=? 19.

Lemma wp_fill_loop fuel x fl ml b regions restock (E : error → Prop) Q :
  (Z.to_nat (restock - lenZ regions) < fuel)%nat → runs_inv x fl ml → ab_inv (rn_ext x) fl b →
  0 ≤ ab_rcase b < lenZ (rn_cases x) →
  (∀ x' fl' ml' b' L, runs_inv x' fl' ml' → filled x x' fl fl' b b' L → grown (rn_ext x) (rn_ext x') fl fl' L →
     (lenZ L < restock - lenZ regions → no_runs x' fl' b' ∧ small_bin_class b = false) →
     lenZ L ≤ Z.max 0 (restock - lenZ regions) →
     Q (b', regions ++ (cell_region (rn_ext x') <$> L)) x') →
  (∀ x' fl' ml' b' L, runs_inv x' fl' ml' → filled x x' fl fl' b b' L → grown (rn_ext x) (rn_ext x') fl fl' L →
     lenZ L < restock - lenZ regions → no_runs x' fl' b' → small_bin_class b = true → E EUB) →
  wp_e (fill_loop fuel b regions restock false) E Q x.
Proof.
  revert x fl ml b regions. induction fuel as [|fuel IH]; intros x fl ml b regions Hfuel Hx Hb Hrc HQ HE; [lia|].
  simpl. destruct (Z.ltb_spec (lenZ regions) restock) as [Hlt|Hge].
  - destruct (nthZ_is_Some (rn_cases x) (ab_rcase b) Hrc) as [c Hc].
    apply wp_e_bind, (wp_select_run x fl ml b c); [done|done|done|..].
    + intros Hn. pose proof (filled_refl x fl b Hb) as Hf. destruct (ab_index b <=? 19) eqn:Es.
      * apply (HE x fl ml b []); [done|done|apply grown_refl|change (lenZ (@nil cell)) with 0; lia|done|done].
      * cbv beta iota. apply wp_e_wp, wp_ret. specialize (HQ x fl ml b [] Hx Hf (grown_refl _ _)). simpl in HQ.
        rewrite app_nil_r in HQ. apply HQ; [intros _; by split|]. unfold lenZ at 1. simpl. lia.
    + intros x1 fl1 ml1 b1 i rid bits Hx1 Hf1 Hgr Hbs Hin. cbv beta iota. cbn [abin].
      pose proof (fi_inv _ _ _ _ _ _ _ Hf1) as Hb1.
      apply wp_e_bind, wp_e_wp. eapply wp_deref; [exact Hin|].
      apply wp_e_bind, wp_e_wp, (fill_run x1 fl1 ml1 b1 i rid); [done|done|done|done|done|].
      intros L bits' b2 Hf2 [k0 Hk0] HL Eb2. pose proof (grown_close _ _ _ _ i rid k0 L Hgr Hk0) as Hgr1. cbv beta iota zeta in Eb2 |- *. cbn [abin]. cbn [set_abin] in Eb2. rewrite <-Eb2. clear Eb2.
      pose proof (filled_trans _ _ _ _ _ _ _ _ _ _ _ Hf1 Hf2) as Hf12. simpl in Hf12.
      assert (lenZ (regions ++ (cell_region (rn_ext x1) <$> L)) = lenZ regions + lenZ L) as Hlen.
      { rewrite lenZ_app. unfold lenZ. by rewrite length_fmap. }
      destruct (fi_bin _ _ _ _ _ _ _ Hf12) as (B1 & B2 & B3 & B4).
      apply (IH x1 fl1 ml1); [lia|done|by apply (fi_inv _ _ _ _ _ _ _ Hf2)| |..].
      * rewrite B4, (fr_cases _ _ _ _ _ (fi_frame _ _ _ _ _ _ _ Hf12)). done.
      * intros x3 fl3 ml3 b3 L3 Hx3 Hf3 Hgr3 Hn Hl3. rewrite <-app_assoc.
        rewrite <-(cell_region_kept _ _ _ _ _ _ _ L Hf3), <-fmap_app by
          (intros j r k Hin'; by eapply filled_owned).
        apply (HQ x3 fl3 ml3 b3 (L ++ L3)); [done|by eapply (filled_trans _ _ _ _ _ _ _ _ _ L L3)|by eapply grown_trans| |].
        -- rewrite lenZ_app. intros Hl. destruct Hn as [Hn1 Hn2]; [lia|]. split; [done|].
           unfold small_bin_class in *. by rewrite B2 in Hn2.
        -- rewrite lenZ_app. lia.
      * intros x3 fl3 ml3 b3 L3 Hx3 Hf3 Hgr3 Hl3 Hn Hs.
        eapply (HE x3 fl3 ml3 b3 (L ++ L3)); [done| |by eapply grown_trans| |done|].
        -- by eapply (filled_trans _ _ _ _ _ _ _ _ _ L L3).
        -- rewrite lenZ_app. lia.
        -- unfold small_bin_class in *. by rewrite B2 in Hs.
  - apply wp_e_wp, wp_ret. specialize (HQ x fl ml b [] Hx (filled_refl x fl b Hb) (grown_refl _ _)). simpl in HQ.
    rewrite app_nil_r in HQ. apply HQ; [intros Hl|]; unfold lenZ in *; simpl in *; lia.
Qed.

(** *** The releases *)

(** The map in which the run has a bitmap: that of the bin, or one with a full
    bitmap when all regions of the run were in use. *)
Definition with_run (b : ArenaBin) (a : Z) (fresh : RunBits) : gmap Z RunBits :=
  if decide (a ∈ dom (ab_0 b)) then ab_0 b else <[a := fresh]> (ab_0 b).

Lemma with_run_ne b a fresh z : z ≠ a → with_run b a fresh !! z = ab_0 b !! z.
Proof. intros Hne. unfold with_run. case_decide; [done|]. by apply lookup_insert_ne. Qed.

Lemma with_run_bits s fl ml b i rid k fresh :
  pool_inv s fl ml → ab_inv s fl b → aused s fl b i rid k →
  fresh = RunBits_new (md_size (run_meta s i rid)) (md_count (run_meta s i rid))
            (meta_addr s i rid) (objs_at s i rid) true →
  ∃ bits, with_run b (run_at s i rid) fresh !! run_at s i rid = Some bits ∧ bits_ok s i rid bits ∧
    ∀ m, 0 ≤ m < md_count (run_meta s i rid) → rb_used bits m = true ↔ aused s fl b i rid m.
Proof.
  intros Hp Hb (Ho & Hk & Hu) ->. unfold with_run. case_decide as Hd.
  - apply elem_of_dom in Hd as [bits Hin]. exists bits. split; [done|].
    destruct (amap_entry s fl ml b i rid bits Hp Hb (run_owned_busy _ _ _ _ _ Ho) Hin) as (_ & Hok & _).
    split; [done|]. intros m Hm. split; [|intros (_ & _ & Hx); by apply Hx].
    intros Hx. split; [done|]. split; [done|]. intros z Hz. congruence.
  - destruct (owned_bits s fl b i rid true (ai_index _ _ _ Hb) Ho) as (Hok & _ & Hall); [done|].
    eexists. split; [apply lookup_insert_eq|]. split; [exact Hok|]. intros m Hm. rewrite Hall by done.
    split; [|done]. intros _. split; [done|]. split; [done|]. intros z Hz. by apply elem_of_dom_2 in Hz.
Qed.

Lemma dealloc_step x fl ml b i rid k fresh bits bits' :
  runs_inv x fl ml → ab_inv (rn_ext x) fl b → aused (rn_ext x) fl b i rid k →
  md_token (run_meta (rn_ext x) i rid) k = Some kFreeCode →
  let a := run_at (rn_ext x) i rid in
  with_run b a fresh !! a = Some bits → bits_ok (rn_ext x) i rid bits →
  (∀ m, 0 ≤ m < md_count (run_meta (rn_ext x) i rid) → rb_used bits m = true ↔ aused (rn_ext x) fl b i rid m) →
  given_back bits bits' k →
  let m := <[a := bits']> (with_run b a fresh) in
  spilled x x fl fl b (set_abin false m b) i rid k.
Proof.
  intros Hx Hb Ha Ht a Hin [k1 k2 k3 k4 k5 k6] Hus (Hwf' & (Es & Ec & Em & Eo) & Eal & Eu) m.
  pose proof (rv_pool _ _ _ Hx) as Hp. pose proof Ha as (Ho & Hk & _).
  assert (∀ z, z ≠ a → m !! z = ab_0 b !! z) as Hne.
  { intros z Hz. subst m. rewrite lookup_insert_ne by done. by apply with_run_ne. }
  assert (m !! a = Some bits') as Heq by apply lookup_insert_eq.
  constructor; [apply abin_frame_refl|done| | |].
  - apply (ab_inv_update (rn_ext x) fl ml b i rid); [done|done|done|exact Hne|].
    intros z Hz. assert (z = bits') as -> by (unfold a in *; congruence). split.
    + constructor; try congruence. intros j Hj Huj. rewrite Eu in Huj. destruct (decide (j = k)) as [->|Hjk]; [done|].
      rewrite bool_decide_false in Huj by done. apply k6; [done|].
      destruct (rb_used bits j); done.
    + destruct k1 as (Hc & _ & _ & Hal). pose proof (used_count_bounds bits). lia.
  - intros j r Hoj _. apply run_same_refl. by eapply run_owned_busy.
  - intros j r n. rewrite (aused_update (rn_ext x) fl ml b i rid m) by done. case_decide as Hd.
    + destruct Hd as [-> ->]. split.
      * intros [Hn Hz]. specialize (Hz bits' Heq). rewrite Eu in Hz. apply andb_true_iff in Hz as [Hz Hnk].
        apply negb_true_iff, bool_decide_eq_false in Hnk. split; [by apply Hus|]. tauto.
      * intros [Han Hnk]. pose proof Han as (_ & Hn & _). split; [done|]. intros z Hz.
        assert (z = bits') as -> by (unfold a in *; congruence). rewrite Eu.
        rewrite (proj2 (Hus n Hn) Han), bool_decide_false by (intros ->; by apply Hnk). done.
    + split; [|tauto]. intros Hu. split; [done|]. intros (-> & -> & _). by apply Hd.
Qed.

(** A run without regions in use leaves the map and is given back. *)
Lemma spill_give x fl ml s' fl' ml' cs' b b1 i rid k :
  runs_inv x fl ml → pool_inv s' fl' ml' → spilled x x fl fl b b1 i rid k → run_owned (rn_ext x) fl b i rid →
  (∀ m, ¬ aused (rn_ext x) fl b1 i rid m) →
  gave_run (rn_ext x) s' fl fl' (rn_cases x) cs' i rid → lenZ cs' = lenZ (rn_cases x) →
  let x' := {| rn_ext := s'; rn_cases := cs'; rn_sc := rn_sc x |} in
  runs_inv x' fl' ml' ∧
  spilled x x' fl fl' b (set_abin false (delete (run_at (rn_ext x) i rid) (ab_0 b1)) b1) i rid k.
Proof.
  intros Hx Hp' [Hf Hsb Hb1 _ Hu] Ho Hno Hg Hlen x'. pose proof (rv_pool _ _ _ Hx) as Hp.
  split; [constructor; [done|apply Hg|apply Hx]|]. set (s := rn_ext x) in *.
  set (b2 := set_abin false (delete (run_at s i rid) (ab_0 b1)) b1).
  assert (run_owned s fl b1 i rid) as Ho1 by (by apply (same_abin_owned s fl b)).
  assert (∀ j r, run_owned s fl b j r → ¬ (j = i ∧ r = rid) → run_same s s' fl' j r) as Hk.
  { intros j r Hoj Hne. apply (gv_same _ _ _ _ _ _ _ _ Hg); [by eapply run_owned_runs|by eapply run_owned_busy|done]. }
  assert (same_abin b b2) as Hsb2 by (destruct Hsb as (?&?&?&?); by repeat split).
  assert (∀ j r, has_runs (pm_of s') j → busy (pm_of s') fl' j r → has_runs (pm_of s) j ∧ busy (pm_of s) fl j r ∧
    ¬ (j = i ∧ r = rid)) as Hold.
  { intros j r Hr Hb. apply (gv_busy _ _ _ _ _ _ _ _ Hg) in Hb as [Hb Hne]. split; [|done].
    destruct (live_types s fl ml j Hp (proj1 Hb)) as [?|Hl]; [done|].
    destruct (gv_ldesc _ _ _ _ _ _ _ _ Hg j (proj1 Hb) Hl) as [_ Hd].
    unfold has_runs in Hr. rewrite Hd, Hl in Hr. by destruct Hr. }
  constructor; [|done| | |].
  - constructor; cbn; fold s; [apply Hg|done| | | |apply Hg|apply Hg].
    + intros j r Hr Hb Hn. apply (gv_same _ _ _ _ _ _ _ _ Hg); [done|done|]. by intros [-> ->].
    + intros j r Hoj Hb. apply (gv_busy _ _ _ _ _ _ _ _ Hg) in Hb as [_ Hne].
      apply (run_same_owned s s' fl fl' b j r (Hk j r Hoj Hne)); [by eapply run_owned_busy|done].
    + intros j r Hr Hb _. by destruct (Hold j r Hr Hb) as (? & ? & _).
  - destruct Hb1 as [h1 h2 h3 h4 h5]. constructor; try done. intros a bits Ha. cbn in Ha.
    apply lookup_delete_Some in Ha as [Hne Ha]. destruct (h4 a bits Ha) as (j & r & -> & Hoj & Hok & Hlt).
    fold s in Hoj, Hok, Hne. assert (run_same s s' fl' j r) as Hr.
    { apply Hk; [by apply (same_abin_owned s fl b b1)|]. by intros [-> ->]. }
    exists j, r. destruct (run_same_addr s s' fl' j r (gv_pool _ _ _ _ _ _ _ _ Hg) Hr) as (Ea & _).
    split; [symmetry; exact Ea|]. split; [|split; [eapply bits_ok_same; [apply Hg|exact Hr|done]|done]].
    apply (run_same_owned s s' fl fl' b2 j r Hr); [by eapply run_owned_busy|]. by apply (same_abin_owned s fl b1 b2).
  - intros j r Hoj Hb. cbn in Hb. apply (gv_busy _ _ _ _ _ _ _ _ Hg) in Hb as [_ Hne]. by apply Hk.
  - intros j r m. fold s. rewrite <-Hu. fold s. destruct (decide (j = i ∧ r = rid)) as [[-> ->]|Hne].
    + split; [|intros Ha; by destruct (Hno m)]. intros [Ho' _]. apply run_owned_busy in Ho'. cbn in Ho'.
      apply (gv_busy _ _ _ _ _ _ _ _ Hg) in Ho' as [_ []]. done.
    + assert (run_owned s fl b1 j r → aused s' fl' b2 j r m ↔ aused s fl b1 j r m) as Hiff.
      { intros Hoj. assert (run_same s s' fl' j r) as Hr by (apply Hk; [by apply (same_abin_owned s fl b b1)|done]).
        destruct (run_same_addr s s' fl' j r (gv_pool _ _ _ _ _ _ _ _ Hg) Hr) as (Ea & _).
        unfold aused. rewrite (run_same_owned s s' fl fl' b2 j r Hr), (rs_meta _ _ _ _ _ Hr), Ea by
          (by eapply run_owned_busy).
        assert (ab_0 b2 !! run_at s j r = ab_0 b1 !! run_at s j r) as ->; [|by rewrite (same_abin_owned s fl b1 b2)].
        cbn. apply lookup_delete_ne. intros He. apply Hne.
        destruct (run_at_inj s fl ml i j rid r Hp) as [-> ->]; try done; by eapply run_owned_busy. }
      split; intros Ha; [|by apply Hiff; [apply Ha|]]. apply Hiff; [|done]. destruct Ha as [Ho' _].
      destruct (Hold j r) as (Hr & Hb & _); [by eapply run_owned_runs|by eapply run_owned_busy|].
      apply (run_same_owned s s' fl fl' b1 j r); [|done|by apply (same_abin_owned s' fl' b1 b2)]. by apply (gv_same _ _ _ _ _ _ _ _ Hg).
Qed.

Lemma wp_bin_dealloc srel x fl ml b i rid k fresh Q :
  runs_inv x fl ml → ab_inv (rn_ext x) fl b → 0 ≤ ab_rcase b < lenZ (rn_cases x) →
  aused (rn_ext x) fl b i rid k → md_token (run_meta (rn_ext x) i rid) k = Some kFreeCode →
  fresh = RunBits_new (md_size (run_meta (rn_ext x) i rid)) (md_count (run_meta (rn_ext x) i rid))
            (meta_addr (rn_ext x) i rid) (objs_at (rn_ext x) i rid) true →
  (∀ c, srel c = if bool_decide (index_type (ab_index b) = kSmall)
                 then RunCase_srun_release c (run_at (rn_ext x) i rid) (ab_index b) true false
                 else RunCase_mrun_release c (run_at (rn_ext x) i rid) (ab_index b) true false) →
  (∀ x' fl' ml' b', runs_inv x' fl' ml' → spilled x x' fl fl' b b' i rid k → Q b' x') →
  wp (bin_dealloc srel b (run_at (rn_ext x) i rid) k fresh false) Q x.
Proof.
  intros Hx Hb Hrc Ha Ht Hfr Hsrel HQ. pose proof (rv_pool _ _ _ Hx) as Hp. pose proof Ha as (Ho & Hk & _).
  destruct (with_run_bits (rn_ext x) fl ml b i rid k fresh Hp Hb Ha Hfr) as (bits & Hin & Hok & Hus).
  unfold bin_dealloc. cbn [abin]. fold (with_run b (run_at (rn_ext x) i rid) fresh).
  wp_step. wp_step; [exact Hin|]. wp_step.
  destruct (dealloc_region_run bits k x) as (bits' & Hrun & Hgb);
    [apply Hok|by rewrite (bo_count _ _ _ _ Hok)|by apply Hus|].
  eapply wp_pure; [exact Hrun|]. cbv zeta.
  set (m := <[run_at (rn_ext x) i rid := bits']> (with_run b (run_at (rn_ext x) i rid) fresh)).
  pose proof (dealloc_step x fl ml b i rid k fresh bits bits' Hx Hb Ha Ht Hin Hok Hus Hgb) as Hsp.
  cbv zeta in Hsp. fold m in Hsp.
  destruct (RunBits_full bits' && (kRunHoldCount <? mapsize m)) eqn:E.
  - apply andb_true_iff in E as [Hfull%Z.eqb_eq _].
    destruct (nthZ_is_Some (rn_cases x) (ab_rcase b) Hrc) as [c Hc].
    wp_step. apply (wp_on_case _ _ c); [done|]. unfold no_result. wp_step. rewrite Hsrel.
    apply (wp_case_release _ fl ml (rn_cases x) (ab_rcase b)); [done|apply Hx|done|by eapply ai_index|apply Ho|].
    intros s' fl' ml' c' Hp' Hg. wp_step. cbn [fst snd]. wp_step.
    destruct (spill_give x fl ml s' fl' ml' (updZ (rn_cases x) (ab_rcase b) c') b (set_abin false m b) i rid k Hx Hp' Hsp Ho) as [Hx' Hsp'];
      [|exact Hg|apply lenZ_updZ|].
    + intros n (_ & _ & Hu).
      assert (ab_0 (set_abin false m b) !! run_at (rn_ext x) i rid = Some bits') as Hm by apply lookup_insert_eq.
      specialize (Hu bits' Hm).
      by rewrite (alloc_zero_free bits' (proj1 Hgb) Hfull) in Hu.
    + by apply (HQ _ fl' ml').
  - wp_step. by apply (HQ x fl ml).
Qed.

Lemma wp_release_small x fl ml b i rid k Q :
  runs_inv x fl ml → ab_inv (rn_ext x) fl b → 0 ≤ ab_rcase b < lenZ (rn_cases x) → ab_index b ≤ 19 →
  aused (rn_ext x) fl b i rid k → md_token (run_meta (rn_ext x) i rid) k = Some kFreeCode →
  (∀ x' fl' ml' b', runs_inv x' fl' ml' → spilled x x' fl fl' b b' i rid k → Q b' x') →
  wp (ArenaBin_release_small b (run_at (rn_ext x) i rid) (run_at (rn_ext x) i rid) k false) Q x.
Proof.
  intros Hx Hb Hrc Hsm Ha Ht HQ. pose proof (rv_pool _ _ _ Hx) as Hp. pose proof Ha as (Ho & _).
  pose proof (ai_index _ _ _ Hb) as Hi.
  destruct (small_objs_ok _ _ _ _ _ _ Hp Hi Ho Hsm) as (Eobj & Emd & Eaddr).
  assert (index_type (ab_index b) = kSmall) as Et by (unfold index_type; by rewrite (proj2 (Z.leb_le _ _))).
  unfold ArenaBin_release_small. wp_step. apply (deref_small_run (rn_ext x) fl ml); [done|done|by eapply run_owned_busy|].
  wp_step. wp_step. rewrite (rv_sc _ _ _ Hx). wp_step. eapply wp_pure; [by apply index2size_ok|].
  pose proof (ro_size _ _ _ _ _ Ho) as Es. rewrite Emd in Es. simpl in Es.
  wp_step. wp_step; [by rewrite (ai_type _ _ _ Hb), bool_decide_true, Es, Z.eqb_refl|].
  wp_step. eapply wp_deref; [by apply class_rsize_ok|]. rewrite Eobj.
  apply (wp_bin_dealloc _ x fl ml); [done|done|done|done|done| | |done].
  - by rewrite Emd, Eaddr.
  - intros c. by rewrite bool_decide_true.
Qed.

Lemma wp_release_medium x fl ml b i rid k Q :
  runs_inv x fl ml → ab_inv (rn_ext x) fl b → 0 ≤ ab_rcase b < lenZ (rn_cases x) → 19 < ab_index b →
  aused (rn_ext x) fl b i rid k → md_token (run_meta (rn_ext x) i rid) k = Some kFreeCode →
  (∀ x' fl' ml' b', runs_inv x' fl' ml' → spilled x x' fl fl' b b' i rid k → Q b' x') →
  wp (ArenaBin_release_medium b (meta_addr (rn_ext x) i rid) (run_at (rn_ext x) i rid) k false) Q x.
Proof.
  intros Hx Hb Hrc Hmd Ha Ht HQ. pose proof (rv_pool _ _ _ Hx) as Hp. pose proof Ha as (Ho & _).
  pose proof (ai_index _ _ _ Hb) as Hi. pose proof (run_owned_medium _ _ _ _ _ Ho) as Hm.
  rewrite (proj2 (Z.leb_gt _ _)) in Hm by done. simpl in Hm.
  assert (index_type (ab_index b) = kMedium) as Et by (unfold index_type; by rewrite (proj2 (Z.leb_gt _ _))).
  assert (run_meta (rn_ext x) i rid = inr (med_at (pm_of (rn_ext x)) (meta_addr (rn_ext x) i rid))) as Emd
    by (unfold run_meta; by rewrite Hm).
  unfold ArenaBin_release_medium. wp_step.
  apply (deref_med_run (rn_ext x) fl ml); [done|done|by eapply run_owned_busy|done|].
  wp_step. wp_step. rewrite (rv_sc _ _ _ Hx). wp_step. eapply wp_pure; [by apply index2size_ok|].
  pose proof (ro_size _ _ _ _ _ Ho) as Es. rewrite Emd in Es. simpl in Es.
  wp_step. wp_step; [by rewrite (ai_type _ _ _ Hb), bool_decide_true, Es, Z.eqb_refl|].
  apply (wp_bin_dealloc _ x fl ml); [done|done|done|done|done| | |done].
  - rewrite Emd. unfold objs_at. by rewrite Hm.
  - intros c. rewrite bool_decide_false; [done|]. by rewrite Et.
Qed.

(** *** Where the regions lie *)

(** The bytes of a region lie inside its run, behind the metadata if that is
    part of the run. *)
Lemma cell_bounds s fl b i r k :
  0 ≤ ab_index b < 40 → run_owned s fl b i r → 0 ≤ k < md_count (run_meta s i r) →
  let p := reg_pointer (region_at s i r k) in let sz := md_size (run_meta s i r) in
  0 < sz ∧ run_at s i r ≤ p ∧ p + sz ≤ run_at s i r + ed_size (desc_of (pm_of s) i) ∧
  (is_medium (pm_of s) i = false → run_at s i r + meta_size (md_count (run_meta s i r)) ≤ p).
Proof.
  intros Hi Ho Hk p sz. destruct (owned_counts s fl b i r Hi Ho) as (Hc & Hs & Hle).
  pose proof (run_owned_medium _ _ _ _ _ Ho) as Hm. destruct Ho as [(_ & _ & _ & Esz) _ Es Hct].
  destruct (class_count_bounds _ _ Hi Hct) as (_ & _ & _ & Hmeta). subst p sz. cbn [reg_pointer region_at].
  unfold objs_at. destruct (is_medium (pm_of s) i) eqn:E.
  - split; [lia|]. split; [nia|]. split; [nia|done].
  - assert (ab_index b ≤ 19) as Hsm by (apply Z.leb_le; by destruct (ab_index b <=? 19)).
    specialize (Hmeta Hsm). rewrite <-Es, <-Esz in Hmeta. split; [lia|]. split; [nia|]. split; [nia|]. intros _. nia.
Qed.

(** The bytes of different runs do not overlap. *)
Lemma runs_disjoint s fl ml i j r q :
  pool_inv s fl ml → busy (pm_of s) fl i r → busy (pm_of s) fl j q → ¬ (i = j ∧ r = q) →
  run_at s i r + ed_size (desc_of (pm_of s) i) ≤ run_at s j q ∨
  run_at s j q + ed_size (desc_of (pm_of s) j) ≤ run_at s i r.
Proof.
  intros Hp Hi Hj Hne. destruct (busy_offset _ _ _ _ _ Hp Hi) as (Hs & Ho & Hm & _).
  destruct (busy_offset _ _ _ _ _ Hp Hj) as (Hs' & Ho' & Hm' & _). unfold run_at.
  destruct (decide (i = j)) as [->|Hij].
  - assert (r ≠ q) as Hrq by (intros ->; by apply Hne).
    destruct (Z.lt_total r q) as [Hlt|[?|Hlt]]; [left|done|right]; nia.
  - unfold ext_at, ext_base. change kExtentSize with 4194304 in *.
    destruct (Z.lt_total i j) as [Hlt|[?|Hlt]]; [left|done|right]; nia.
Qed.

Lemma cells_disjoint s fl ml b b' i r k i' r' k' :
  pool_inv s fl ml → 0 ≤ ab_index b < 40 → 0 ≤ ab_index b' < 40 →
  run_owned s fl b i r → 0 ≤ k < md_count (run_meta s i r) →
  run_owned s fl b' i' r' → 0 ≤ k' < md_count (run_meta s i' r') → Cell i r k ≠ Cell i' r' k' →
  reg_pointer (region_at s i r k) + md_size (run_meta s i r) ≤ reg_pointer (region_at s i' r' k') ∨
  reg_pointer (region_at s i' r' k') + md_size (run_meta s i' r') ≤ reg_pointer (region_at s i r k).
Proof.
  intros Hp Hi Hi' Ho Hk Ho' Hk' Hne. destruct (cell_bounds s fl b i r k Hi Ho Hk) as (B1 & B2 & B3 & B4).
  destruct (cell_bounds s fl b' i' r' k' Hi' Ho' Hk') as (B1' & B2' & B3' & _).
  destruct (decide (i = i' ∧ r = r')) as [[<- <-]|Hd].
  - assert (k ≠ k') as Hkk by congruence. cbn [reg_pointer region_at] in *.
    destruct (Z.lt_total k k') as [Hlt|[?|Hlt]]; [left|done|right]; nia.
  - destruct (runs_disjoint s fl ml i i' r r' Hp (run_owned_busy _ _ _ _ _ Ho) (run_owned_busy _ _ _ _ _ Ho') Hd);
      [left|right]; lia.
Qed.

(** ** Properties *)

(** C14: [ArenaBin::fill_cache_bin] terminates.  It hands out distinct regions that
    were not in use, whose tokens are free, in bitmaps old or new, and marks
    exactly these as used: as many as the cache bin lacks, or fewer when no run and
    no extent is left.  Then a medium bin returns what it has; a small bin reads
    through the null pointer that [srun_acquire] returned, after it has taken fewer
    regions than it was asked for, and runs and extents for these only.  The pool, the run
    cases, this bin and all other arena bins keep their invariants, and neither
    the regions in use of the other bins nor the large regions change. *)
Theorem fill_cache_bin_correct x fl ml b regions restock :
  runs_inv x fl ml → ab_inv (rn_ext x) fl b → 0 ≤ ab_rcase b < lenZ (rn_cases x) →
  wp_e (ArenaBin_fill_cache_bin b regions restock false)
    (λ e, e = EUB ∧ ab_type b = kSmall ∧ ∃ x' fl' ml' b' L, runs_inv x' fl' ml' ∧ filled x x' fl fl' b b' L ∧
       grown (rn_ext x) (rn_ext x') fl fl' L ∧ lenZ L < restock - lenZ regions ∧ no_runs x' fl' b')
    (λ res x', ∃ fl' ml' b' L, res = (b', regions ++ (cell_region (rn_ext x') <$> L)) ∧
       runs_inv x' fl' ml' ∧ filled x x' fl fl' b b' L ∧ lenZ L ≤ Z.max 0 (restock - lenZ regions) ∧
       (lenZ L < restock - lenZ regions → no_runs x' fl' b' ∧ ab_type b = kMedium) ∧
       ∀ b2, (ab_arena b, ab_index b) ≠ (ab_arena b2, ab_index b2) → ab_inv (rn_ext x) fl b2 →
         ab_inv (rn_ext x') fl' b2 ∧
         ∀ i r k, aused (rn_ext x') fl' b2 i r k ↔ aused (rn_ext x) fl b2 i r k) x.
Proof.
  intros Hx Hb Hrc. unfold ArenaBin_fill_cache_bin.
  assert (ab_type b = if small_bin_class b then kSmall else kMedium) as Ht by (by rewrite (ai_type _ _ _ Hb)).
  apply (wp_fill_loop _ x fl ml); [lia|done|done|done|..].
  - intros x' fl' ml' b' L Hx' Hf _ Hn Hl. exists fl', ml', b', L. split; [done|]. split; [done|]. split; [done|].
    split; [done|]. split; [intros Hlt; destruct (Hn Hlt) as [? Hs]; by rewrite Ht, Hs|].
    intros b2 Hne Hb2. destruct (abin_other x x' fl fl' b b2) as (? & _ & ?); [apply Hf|by eapply ai_index|done..].
  - intros x' fl' ml' b' L Hx' Hf Hgr Hl Hn Hs. split; [done|]. split; [by rewrite Ht, Hs|]. by exists x', fl', ml', b', L.
Qed.

(** C15: [ArenaBin::release] of a region in use whose token is free terminates and
    passes its asserts, also when all regions of the run were in use and the run
    not in the map: exactly that region becomes free, and a run without regions in
    use is given back to the run case when the bin holds another one.  All
    invariants are kept, and nothing else in use changes. *)
Theorem release_region_correct x fl ml b i rid k :
  runs_inv x fl ml → ab_inv (rn_ext x) fl b → 0 ≤ ab_rcase b < lenZ (rn_cases x) →
  aused (rn_ext x) fl b i rid k → md_token (run_meta (rn_ext x) i rid) k = Some kFreeCode →
  wp (let run := run_at (rn_ext x) i rid in
      if bool_decide (ab_type b = kSmall) then ArenaBin_release_small b run run k false
      else ArenaBin_release_medium b (meta_addr (rn_ext x) i rid) run k false)
    (λ b' x', ∃ fl' ml', runs_inv x' fl' ml' ∧ spilled x x' fl fl' b b' i rid k ∧
       ∀ b2, (ab_arena b, ab_index b) ≠ (ab_arena b2, ab_index b2) → ab_inv (rn_ext x) fl b2 →
         ab_inv (rn_ext x') fl' b2 ∧
         ∀ i r k, aused (rn_ext x') fl' b2 i r k ↔ aused (rn_ext x) fl b2 i r k) x.
Proof.
  intros Hx Hb Hrc Ha Ht. rewrite (ai_type _ _ _ Hb). unfold index_type.
  assert (∀ x' fl' ml' b', runs_inv x' fl' ml' → spilled x x' fl fl' b b' i rid k →
    ∃ fl' ml', runs_inv x' fl' ml' ∧ spilled x x' fl fl' b b' i rid k ∧
       ∀ b2, (ab_arena b, ab_index b) ≠ (ab_arena b2, ab_index b2) → ab_inv (rn_ext x) fl b2 →
         ab_inv (rn_ext x') fl' b2 ∧
         ∀ i r k, aused (rn_ext x') fl' b2 i r k ↔ aused (rn_ext x) fl b2 i r k) as HQ.
  { intros x' fl' ml' b' Hx' Hs. exists fl', ml'. split; [done|]. split; [done|]. intros b2 Hne Hb2.
    destruct (abin_other x x' fl fl' b b2) as (? & _ & ?); [apply Hs|by eapply ai_index|done..]. }
  destruct (Z.leb_spec (ab_index b) 19).
  - rewrite bool_decide_true by done. by apply (wp_release_small x fl ml).
  - rewrite bool_decide_false by done. by apply (wp_release_medium x fl ml).
Qed.

(** C29: the regions of the arena bins do not overlap: the bytes of two different
    regions, of the same or of different runs, bins and size classes, are
    disjoint, they lie in the extents of the pool file, and the regions of a small
    run lie behind the metadata at its start. *)
Theorem regions_disjoint s fl ml b b' i r k i' r' k' :
  pool_inv s fl ml → ab_inv s fl b → ab_inv s fl b' →
  run_owned s fl b i r → 0 ≤ k < md_count (run_meta s i r) →
  run_owned s fl b' i' r' → 0 ≤ k' < md_count (run_meta s i' r') → Cell i r k ≠ Cell i' r' k' →
  let p := reg_pointer (region_at s i r k) in let sz := md_size (run_meta s i r) in
  let p' := reg_pointer (region_at s i' r' k') in let sz' := md_size (run_meta s i' r') in
  sz = index2size_compute (ab_index b) ∧ (p + sz ≤ p' ∨ p' + sz' ≤ p) ∧
  extents (es_file s) ≤ p ∧ p + sz ≤ file_end (es_file s) ∧
  (ab_type b = kSmall → run_at s i r + meta_size (md_count (run_meta s i r)) ≤ p).
Proof.
  intros Hp Hb Hb' Ho Hk Ho' Hk' Hne p sz p' sz'.
  destruct (cell_bounds s fl b i r k (ai_index _ _ _ Hb) Ho Hk) as (B1 & B2 & B3 & B4). fold p sz in B1, B2, B3, B4.
  destruct (busy_offset s fl ml i r Hp (run_owned_busy _ _ _ _ _ Ho)) as (O1 & O2 & O3 & O4).
  split; [apply Ho|]. split; [|split; [|split]].
  - by apply (cells_disjoint s fl ml b b'); [|eapply ai_index|eapply ai_index|..].
  - unfold run_at, ext_at, ext_base in *. change kExtentSize with 4194304 in *. lia.
  - destruct (pi_file _ _ _ Hp) as (_ & _ & _ & Hsz & _). unfold run_at, ext_at, ext_base, file_end, extents in *.
    rewrite Hsz. change kRootSegSize with 8192 in *. change kExtentSize with 4194304 in *. lia.
  - intros Ht. apply B4. rewrite (run_owned_medium _ _ _ _ _ Ho). rewrite (ai_type _ _ _ Hb) in Ht.
    unfold index_type in Ht. by destruct (ab_index b <=? 19).
Qed.
End lemmas.

(** ** Witnesses: the bin of 64-byte regions on a new pool, and after a fill *)

Definition example_run_st : run_st := {|
  rn_ext := example_ext; rn_cases := [case0]; rn_sc := SizeClass_new |}.
Definition abin0 : ArenaBin := {|
  ab_arena := 3; ab_index := 1; ab_type := kSmall; ab_rcase := 0; ab_0 := ∅; ab_1 := ∅ |}.

Lemma example_runs_inv : runs_inv example_run_st [] [].
Proof. constructor; [exact example_pool_inv|exact case0_inv|reflexivity]. Qed.

Lemma abin0_inv : ab_inv (rn_ext example_run_st) [] abin0.
Proof.
  constructor; [done|reflexivity|done| |done].
  intros a bits Ha. by apply (lookup_empty_Some (M := gmap Z) a bits) in Ha.
Qed.

Definition filled2 : res run_st (ArenaBin * list region_t) :=
  ArenaBin_fill_cache_bin abin0 [] 2 false example_run_st.
Definition abin1 : ArenaBin * run_st :=
  match filled2 with Ok (b, _) x => (b, x) | Err _ => (abin0, example_run_st) end.

(** Two regions are in use, and their tokens are free. *)
Definition two_cells (z : ArenaBin * run_st) : Prop :=
  ∃ fl ml i r k i' r' k', runs_inv z.2 fl ml ∧ ab_inv (rn_ext z.2) fl z.1 ∧
    0 ≤ ab_rcase z.1 < lenZ (rn_cases z.2) ∧
    aused (rn_ext z.2) fl z.1 i r k ∧ md_token (run_meta (rn_ext z.2) i r) k = Some kFreeCode ∧
    aused (rn_ext z.2) fl z.1 i' r' k' ∧ Cell i r k ≠ Cell i' r' k'.

Lemma filled2_ok : match filled2 with Ok (_, regs) _ => lenZ regs =? 2 | Err _ => false end = true.
Proof. vm_compute. reflexivity. Qed.

Lemma abin1_cells : two_cells abin1.
Proof.
  pose proof filled2_ok as Hok. unfold abin1.
  assert (wp_e (ArenaBin_fill_cache_bin abin0 [] 2 false) (λ _, True) (λ res x', lenZ res.2 = 2 →
    two_cells (res.1, x')) example_run_st) as Hwp.
  { unfold ArenaBin_fill_cache_bin. apply (wp_fill_loop _ example_run_st [] []);
      [simpl; lia|exact example_runs_inv|exact abin0_inv|change (0 ≤ 0 < 1); lia| |by intros; exact I].
    intros x' fl' ml' b' L Hx' Hf _ _ _ HL. simpl in HL. unfold lenZ in HL. rewrite length_fmap in HL.
    destruct L as [|[i r k] [|[i' r' k'] L]]; simpl in HL; [lia|lia|].
    pose proof (fi_nodup _ _ _ _ _ _ _ Hf) as Hnd. apply NoDup_cons in Hnd as [Hni _].
    exists fl', ml', i, r, k, i', r', k'. simpl.
    split; [exact Hx'|]. split; [exact (fi_inv _ _ _ _ _ _ _ Hf)|].
    destruct (fi_bin _ _ _ _ _ _ _ Hf) as (_ & _ & _ & ->).
    rewrite (fr_cases _ _ _ _ _ (fi_frame _ _ _ _ _ _ _ Hf)).
    split; [change (0 ≤ 0 < 1); lia|]. split; [apply (fi_used _ _ _ _ _ _ _ Hf); left; by left|].
    split; [apply (fi_token _ _ _ _ _ _ _ Hf); by left|].
    split; [apply (fi_used _ _ _ _ _ _ _ Hf); left; right; by left|]. intros He. apply Hni. rewrite He. by left. }
  unfold wp_e in Hwp. fold filled2 in Hwp. destruct filled2 as [[b1 regs] x1|]; [|done].
  apply Hwp. by apply Z.eqb_eq.
Qed.

Lemma fill_cache_bin_correct_witness :
  wp_e (ArenaBin_fill_cache_bin abin0 [] 2 false) (λ e, e = EUB)
    (λ res x', ∃ L, res.2 = cell_region (rn_ext x') <$> L ∧ NoDup L) example_run_st.
Proof.
  eapply wp_e_mono.
  - apply (fill_cache_bin_correct example_run_st [] [] abin0 [] 2).
    + exact example_runs_inv.
    + exact abin0_inv.
    + change (0 ≤ 0 < 1). lia.
  - intros e He. apply He.
  - intros res x' (fl' & ml' & b' & L & -> & _ & Hf & _). exists L. split; [reflexivity|]. apply Hf.
Defined.

Lemma release_region_correct_witness :
  ∃ fl i r k, aused (rn_ext abin1.2) fl abin1.1 i r k ∧
  wp (let run := run_at (rn_ext abin1.2) i r in
      if bool_decide (ab_type abin1.1 = kSmall) then ArenaBin_release_small abin1.1 run run k false
      else ArenaBin_release_medium abin1.1 (meta_addr (rn_ext abin1.2) i r) run k false)
    (λ b' x', ∃ fl', ¬ aused (rn_ext x') fl' b' i r k) abin1.2.
Proof.
  destruct abin1_cells as (fl & ml & i & r & k & i' & r' & k' & Hx & Hb & Hrc & Ha & Ht & _).
  exists fl, i, r, k. split; [exact Ha|]. eapply wp_mono.
  - apply (release_region_correct abin1.2 fl ml abin1.1 i r k).
    + exact Hx.
    + exact Hb.
    + exact Hrc.
    + exact Ha.
    + exact Ht.
  - intros b' x' (fl' & ml' & _ & Hs & _). exists fl'. intros Hu.
    exact (proj2 (proj1 (sp_used _ _ _ _ _ _ _ _ _ Hs i r k) Hu) (conj eq_refl (conj eq_refl eq_refl))).
Defined.

Lemma regions_disjoint_witness :
  ∃ i r k i' r' k', let s := rn_ext abin1.2 in
    reg_pointer (region_at s i r k) + md_size (run_meta s i r) ≤ reg_pointer (region_at s i' r' k') ∨
    reg_pointer (region_at s i' r' k') + md_size (run_meta s i' r') ≤ reg_pointer (region_at s i r k).
Proof.
  destruct abin1_cells as (fl & ml & i & r & k & i' & r' & k' & Hx & Hb & _ & Ha & _ & Ha' & Hne).
  exists i, r, k, i', r', k'.
  apply (regions_disjoint (rn_ext abin1.2) fl ml abin1.1 abin1.1 i r k i' r' k').
  - apply Hx.
  - exact Hb.
  - exact Hb.
  - apply Ha.
  - apply Ha.
  - apply Ha'.
  - apply Ha'.
  - exact Hne.
Defined.
