(* ===== verification/TCache.v ===== *)
(** * Thread caches (slab/tcache.h)

    A [CacheBin] is a deque of free regions of one size class, restocked from
    the arena of the thread and spilled to the arenas that own the regions.
    [ThreadCache] dispatches every allocation and release on the size. *)

From S2P Require Export Arena.
Import Pmem.

(** ** Definitions *)

Record CacheBin := {
  cb_arena : Z;             (* arena_: index in the array of arenas *)
  cb_index : Z;
  cb_capacity : Z;
  cb_stock : Z;
  cb_regions : list region_t;
}.
Definition eta_cb b := {|
  cb_arena := cb_arena b; cb_index := cb_index b; cb_capacity := cb_capacity b;
  cb_stock := cb_stock b; cb_regions := cb_regions b |}.
Definition set_cb_regions := ltac:(setter eta_cb cb_regions).

Record ThreadCache := {
  th_arena : Z;
  th_bins : list CacheBin;
}.
Definition eta_th t := {| th_arena := th_arena t; th_bins := th_bins t |}.
Definition set_th_bins := ltac:(setter eta_th th_bins).

(** The state shared by the thread caches. *)
Record arena_st := {
  as_run : run_st;
  as_arenas : list Arena;
}.
Definition eta_as s := {| as_run := as_run s; as_arenas := as_arenas s |}.
Definition set_as_run := ltac:(setter eta_as as_run).
Definition set_as_arenas := ltac:(setter eta_as as_arenas).

Definition rnm {A} (m : M run_st A) : M arena_st A := mzoom as_run set_as_run m.

(** Calling a method of the arena [i]. *)
Definition on_arena {A} (i : Z) (f : Arena → M run_st (Arena * A)) : M arena_st A :=
  l ← mgets as_arenas;
  a ← mderef (nthZ l i);
  '(a, r) ← rnm (f a);
  mmodify (λ s, set_as_arenas (updZ (as_arenas s) i a) s) ;;
  mret r.

Section tcache.
Context `{Util} `{UnorderedMap}.

(** Where a small or medium region lies: the meta of its run, the start of the
    regions of the run, the size of the regions, and its index. *)
Record location := { lo_meta : Z; lo_start : Z; lo_size : Z; lo_index : Z; lo_arena : Z }.

Definition div_nonzero {S} (a b : Z) : M S Z := if b =? 0 then merr EUB else mret (a / b).

Definition small_location (d : ExtentDesc) (ptr : Z) : M run_st location :=
  let ext := rounddown ptr kExtentSize in
  let rsize := ed_size d in
  rid ← div_nonzero (ptr - ext) rsize;
  let meta := ext + rsize * rid in
  m ← deref_small meta;
  let count := sm_count m in
  let size := sm_size m in
  massert (size <=? kMaxSmallSize) ;;
  let start := u64 (meta + rsize - count * size) in
  index ← div_nonzero (u64 (ptr - start)) size;
  massert (u64 (index * size + start) =? ptr) ;;
  mret {| lo_meta := meta; lo_start := start; lo_size := size; lo_index := index;
          lo_arena := sm_arena m |}.

Definition medium_location (d : ExtentDesc) (ptr : Z) : M run_st location :=
  let ext := rounddown ptr kExtentSize in
  let rsize := ed_size d in
  rid ← div_nonzero (ptr - ext) rsize;
  let meta := ed_runs d + rid * sizeof_MediumMeta in
  m ← deref_med meta;
  let size := mm_size m in
  massert ((kMaxSmallSize <? size) && (size <=? kMaxMediumSize)) ;;
  let start := ext + rsize * rid in
  index ← div_nonzero (u64 (ptr - start)) size;
  massert (u64 (index * size + start) =? ptr) ;;
  mret {| lo_meta := meta; lo_start := start; lo_size := size; lo_index := index;
          lo_arena := mm_arena m |}.

Definition spill_front (b : CacheBin) : M arena_st CacheBin :=
  match cb_regions b with
  | [] => merr EUB
  | reg :: regions =>
      let ptr := reg_pointer reg in
      let b := set_cb_regions regions b in
      desc ← rnm (exm (descriptor ptr));
      d ← rnm (exm (pm (ld_desc desc)));
      massert (bool_decide (ed_type d = kSmall) || bool_decide (ed_type d = kMedium)) ;;
      (if bool_decide (ed_type d = kSmall) then
         l ← rnm (small_location d ptr);
         on_arena (lo_arena l) (λ a, Arena_release_small a (lo_meta l) (lo_meta l) (lo_index l) false)
       else
         l ← rnm (medium_location d ptr);
         on_arena (lo_arena l)
           (λ a, Arena_release_medium a (lo_meta l) (lo_start l) (lo_index l) false)) ;;
      mret b
  end.

(** [while(regions_.size() >= stock_) spill_front()]: every iteration removes a
    region, so the fuel is the length; with [stock_ = 0] the loop runs into the
    empty deque. *)
Fixpoint spill_loop (fuel : nat) (b : CacheBin) : M arena_st CacheBin :=
  match fuel with
  | O => merr EFuel
  | S fuel =>
      if cb_stock b <=? lenZ (cb_regions b) then b ← spill_front b; spill_loop fuel b
      else mret b
  end.
Definition spill_cache_bin (b : CacheBin) : M arena_st CacheBin :=
  if cb_capacity b <=? lenZ (cb_regions b) then
    spill_loop (Datatypes.S (length (cb_regions b))) b
  else mret b.

Fixpoint spill_all (fuel : nat) (b : CacheBin) : M arena_st unit :=
  match fuel with
  | O => merr EFuel
  | S fuel =>
      match cb_regions b with [] => mret tt | _ => b ← spill_front b; spill_all fuel b end
  end.
(** The destructor. *)
Definition CacheBin_close (b : CacheBin) : M arena_st unit :=
  spill_all (Datatypes.S (length (cb_regions b))) b.

Definition CacheBin_init {S} (arena index capacity stock : Z) : M S CacheBin :=
  massert ((index <? kNSlabsCached) && (stock <=? capacity)) ;;
  mret {| cb_arena := arena; cb_index := u32 index; cb_capacity := u32 capacity;
          cb_stock := u32 stock; cb_regions := [] |}.

Definition CacheBin_acquire (b : CacheBin) : M arena_st (CacheBin * region_t) :=
  b ← (match cb_regions b with
       | [] =>
           regions ← on_arena (cb_arena b)
                       (λ a, Arena_fill_cache_bin a (cb_regions b) (cb_stock b) (cb_index b));
           mret (set_cb_regions regions b)
       | _ => mret b
       end);
  match cb_regions b with
  | [] => mret (b, null_region)
  | ret :: regions => mret (set_cb_regions regions b, ret)
  end.

Definition CacheBin_release (b : CacheBin) (obj : region_t) : M arena_st CacheBin :=
  busy ← rnm (exm (pm (region_busy obj)));
  massert (negb busy) ;;
  spill_cache_bin (set_cb_regions (cb_regions b ++ [obj]) b).

(** ** ThreadCache *)

Definition with_cbin {A} (t : ThreadCache) (i : Z) (f : CacheBin → M arena_st (CacheBin * A))
    : M arena_st (ThreadCache * A) :=
  b ← mderef (nthZ (th_bins t) i);
  '(b, r) ← f b;
  mret (set_th_bins (updZ (th_bins t) i b) t, r).

(** [assert(... ptr % desc->size() == 0)], then the run case of the extent. *)
Definition th_large_release (desc : Z) (d : ExtentDesc) (ptr : Z) (recover : bool)
    : M arena_st unit :=
  (if ed_size d =? 0 then merr EUB
   else massert (bool_decide (ed_type d = kLarge) && (ptr mod ed_size d =? 0))) ;;
  rnm (on_case (ed_rcase d) (λ c, no_result (large_release c desc ptr recover))).

Definition th_medium_release (t : ThreadCache) (d : ExtentDesc) (ptr : Z) (recover : bool)
    : M arena_st ThreadCache :=
  massert (bool_decide (ed_type d = kMedium)) ;;
  l ← rnm (medium_location d ptr);
  m ← rnm (deref_med (lo_meta l));
  token ← rnm (exm (pm (MediumMeta_token (lo_meta l) m (lo_index l))));
  rnm (exm (pm (token_fire token true))) ;;
  if (recover : bool) then
    on_arena (lo_arena l) (λ a, Arena_release_medium a (lo_meta l) (lo_start l) (lo_index l) true) ;;
    mret t
  else
    sc ← mgets (λ s, rn_sc (as_run s));
    bin_idx ← size2index sc (lo_size l);
    '(t, _) ← with_cbin t bin_idx (λ b, no_result (CacheBin_release b (region (Some token) ptr)));
    mret t.

Definition th_small_release (t : ThreadCache) (d : ExtentDesc) (ptr : Z) (recover : bool)
    : M arena_st ThreadCache :=
  massert (bool_decide (ed_type d = kSmall)) ;;
  l ← rnm (small_location d ptr);
  m ← rnm (deref_small (lo_meta l));
  token ← rnm (exm (pm (SmallMeta_token (lo_meta l) m (lo_index l))));
  rnm (exm (pm (token_fire token true))) ;;
  if (recover : bool) then
    on_arena (lo_arena l) (λ a, Arena_release_small a (lo_meta l) (lo_meta l) (lo_index l) true) ;;
    mret t
  else
    sc ← mgets (λ s, rn_sc (as_run s));
    bin_idx ← size2index sc (lo_size l);
    '(t, _) ← with_cbin t bin_idx (λ b, no_result (CacheBin_release b (region (Some token) ptr)));
    mret t.

Definition add_nbinds (i n : Z) : M arena_st unit :=
  on_arena i (λ a, mret (set_ar_nbinds (ar_nbinds a + n) a, tt)).

Definition ThreadCache_new (arena : Z) : M arena_st ThreadCache :=
  add_nbinds arena 1 ;;
  bins ← mfold (Z.to_nat kNSlabsCached) 0 (λ bid l,
    capacity ← mderef (nthZ kCacheBinCapTab (bid / kNSlabsPerGrp));
    stock ← mderef (nthZ kCacheBinStockTab (bid / kNSlabsPerGrp));
    b ← CacheBin_init arena bid capacity stock; mret (l ++ [b])) [];
  mret {| th_arena := arena; th_bins := bins |}.

(** The destructor: first its body, then the bins in reverse order. *)
Definition ThreadCache_close (t : ThreadCache) : M arena_st unit :=
  add_nbinds (th_arena t) (-1) ;;
  mforeach (reverse (th_bins t)) CacheBin_close.

Definition ThreadCache_acquire (t : ThreadCache) (size : Z) (recover : bool)
    : M arena_st (ThreadCache * region_t) :=
  if (recover : bool) then
    r ← on_arena (th_arena t) (λ a, recover_acquire a size); mret (t, r)
  else if size <=? kMaxMediumSize then
    if size =? 0 then mret (t, null_region)
    else
      sc ← mgets (λ s, rn_sc (as_run s));
      bin_idx ← size2index sc size;
      massert (bin_idx <? kNSlabsCached) ;;
      with_cbin t bin_idx CacheBin_acquire
  else if size <=? kMaxLargeSize then
    r ← on_arena (th_arena t) (λ a, r ← Arena_large_acquire a size; mret (a, r)); mret (t, r)
  else mret (t, null_region).

Definition ThreadCache_release (t : ThreadCache) (ptr : Z) (recover : bool)
    : M arena_st ThreadCache :=
  if ptr =? nullptr then mret t
  else
    desc ← rnm (exm (descriptor ptr));
    recover ← (if (recover : bool) then rnm (exm (recover_extent desc)) else mret recover);
    d ← rnm (exm (pm (ld_desc desc)));
    match ed_type d with
    | kSmall => th_small_release t d ptr recover
    | kMedium => th_medium_release t d ptr recover
    | kLarge => th_large_release desc d ptr recover ;; mret t
    | _ => merr EExit
    end.

Definition ThreadCache_region_size (ptr : Z) : M arena_st Z :=
  if ptr =? nullptr then mret 0
  else
    desc ← rnm (exm (descriptor ptr));
    let ext := rounddown ptr kExtentSize in
    d ← rnm (exm (pm (ld_desc desc)));
    match ed_type d with
    | kSmall =>
        rid ← div_nonzero (ptr - ext) (ed_size d);
        m ← rnm (deref_small (ext + ed_size d * rid));
        mret (sm_size m)
    | kMedium =>
        rid ← div_nonzero (ptr - ext) (ed_size d);
        m ← rnm (deref_med (ed_runs d + rid * sizeof_MediumMeta));
        mret (mm_size m)
    | kLarge => mret (ed_size d)
    | _ => merr EExit
    end.
End tcache.
