(* ===== verification/ArenasSpec.v ===== *)
(** * The arenas

    All arenas together: [gaused] are the regions that any arena bin has handed
    out.  An operation of one bin of one arena keeps the invariant [arenas_inv]
    and the regions of all other bins.  A region is found by its address
    ([small_location], [medium_location] compute its run, its index, its size
    and its arena exactly). *)

From S2P Require Export TCache ArenaSpec.
Import Pmem.

(** ** Definitions *)

Definition ext_of (y : arena_st) : ext_st := rn_ext (as_run y).

(** The bin of the size class [idx] of the arena [n]. *)
Definition bin_of (y : arena_st) (n idx : Z) (b : ArenaBin) : Prop :=
  ∃ a, nthZ (as_arenas y) n = Some a ∧ nthZ (ar_bins a) idx = Some b.

(** The mappings of the meta file and of the extent file do not overlap. *)
Definition segs_apart (s : ext_st) : Prop :=
  let h := pm_head (pm_of s) in
  med_meta_ h + 64 * med_total_ h ≤ extents (es_file s) ∨ file_end (es_file s) ≤ med_meta_ h.

Record arenas_inv `{Util} (y : arena_st) (fl ml : list Z) : Prop := {
  av_runs : runs_inv (as_run y) fl ml;
  av_apart : segs_apart (ext_of y);
  av_arena : ∀ n a, nthZ (as_arenas y) n = Some a →
    ar_index a = n ∧ n < 2 ^ 16 ∧ lenZ (ar_bins a) = 40 ∧
    0 ≤ ar_rcase a < lenZ (rn_cases (as_run y)) ∧ 0 ≤ ar_nbinds a;
  av_bin : ∀ n a idx b, nthZ (as_arenas y) n = Some a → nthZ (ar_bins a) idx = Some b →
    ab_inv (ext_of y) fl b ∧ ab_arena b = n ∧ ab_index b = idx ∧ ab_rcase b = ar_rcase a;
}.

(** The region has been handed out by some arena bin. *)
Definition aused_cell (s : ext_st) (fl : list Z) (b : ArenaBin) (t : cell) : Prop :=
  match t with Cell i r k => aused s fl b i r k end.
Definition gaused (y : arena_st) (fl : list Z) (t : cell) : Prop :=
  ∃ n idx b, bin_of y n idx b ∧ aused_cell (ext_of y) fl b t.

(** The same, except for the bin of the class [idx] of the arena [n]. *)
Definition other_aused (y : arena_st) (fl : list Z) (n idx : Z) (t : cell) : Prop :=
  ∃ n' idx' b, bin_of y n' idx' b ∧ ¬ (n' = n ∧ idx' = idx) ∧ aused_cell (ext_of y) fl b t.

Definition cell_size (s : ext_st) (t : cell) : Z :=
  match t with Cell i r k => md_size (run_meta s i r) end.
Definition cell_token (s : ext_st) (t : cell) : option Z :=
  match t with Cell i r k => md_token (run_meta s i r) k end.

(** The region keeps its address, its size and its token. *)
Definition cell_same (s s' : ext_st) (t : cell) : Prop :=
  cell_region s' t = cell_region s t ∧ cell_size s' t = cell_size s t ∧ cell_token s' t = cell_token s t.

(** The state after the bin [idx] of the arena [n] has become [b']. *)
Definition upd_bin (y : arena_st) (x' : run_st) (n : Z) (a : Arena) (idx : Z) (b' : ArenaBin) : arena_st := {|
  as_run := x';
  as_arenas := updZ (as_arenas y) n (set_ar_bins (updZ (ar_bins a) idx b') a) |}.

(** The large regions and their descriptors. *)
Definition large_kept (x x' : run_st) (fl fl' : list Z) : Prop :=
  (∀ j k, glused (rn_ext x') fl' (rn_cases x') j k ↔ glused (rn_ext x) fl (rn_cases x) j k) ∧
  ∀ j, live (pm_of (rn_ext x)) fl j → ed_type (desc_of (pm_of (rn_ext x)) j) = kLarge →
    live (pm_of (rn_ext x')) fl' j ∧ desc_of (pm_of (rn_ext x')) j = desc_of (pm_of (rn_ext x)) j.

(** The numbers of arenas and run cases do not change, nor does the pool file. *)
Definition same_arenas (y y' : arena_st) : Prop :=
  lenZ (as_arenas y') = lenZ (as_arenas y) ∧
  lenZ (rn_cases (as_run y')) = lenZ (rn_cases (as_run y)) ∧
  es_file (ext_of y') = es_file (ext_of y).

(** The regions [L] have been handed out by the arenas. *)
Record arenas_filled (y y' : arena_st) (fl fl' : list Z) (L : list cell) : Prop := {
  af_pool : same_pool (ext_of y) (ext_of y');
  af_arenas : same_arenas y y';
  af_nodup : NoDup L;
  af_fresh : ∀ t, t ∈ L → ¬ gaused y fl t;
  af_used : ∀ t, gaused y' fl' t ↔ t ∈ L ∨ gaused y fl t;
  af_same : ∀ t, gaused y fl t → cell_same (ext_of y) (ext_of y') t;
  af_token : ∀ t, t ∈ L → cell_token (ext_of y') t = Some kFreeCode;
  af_large : large_kept (as_run y) (as_run y') fl fl';
}.

(** The regions [L] have been taken back by the arenas. *)
Record arenas_spilled (y y' : arena_st) (fl fl' : list Z) (L : list cell) : Prop := {
  as_pool : same_pool (ext_of y) (ext_of y');
  as_same_arenas : same_arenas y y';
  as_used : ∀ u, gaused y' fl' u ↔ gaused y fl u ∧ u ∉ L;
  as_same : ∀ u, gaused y fl u → u ∉ L → cell_same (ext_of y) (ext_of y') u;
  as_large : large_kept (as_run y) (as_run y') fl fl';
}.

(** No run is left for the class [idx] of the arena [n], and no extent. *)
Definition no_class_runs (y : arena_st) (fl : list Z) (n idx : Z) : Prop :=
  ∀ b, bin_of y n idx b → no_runs (as_run y) fl b.

(** The arena [n] can get fewer than [k] regions of the class [idx]: after its bin of
    this class has handed out [M], taking runs and extents only for these regions, the
    bin has no run with a free region, its run case has no run, and no extent of the
    pool is left. *)
Definition ran_out `{Util} (y : arena_st) (fl : list Z) (n idx k : Z) : Prop :=
  ∃ y' fl' ml' M, arenas_inv y' fl' ml' ∧ arenas_filled y y' fl fl' M ∧ grown (ext_of y) (ext_of y') fl fl' M ∧
    lenZ M < k ∧ no_class_runs y' fl' n idx ∧
    ∃ b, bin_of y' n idx b ∧ ∀ t, t ∈ M → aused_cell (ext_of y') fl' b t.

(** ** Lemmas *)

Section lemmas.
Context `{UtilSpec} `{UnorderedMapSpec}.
Implicit Types (s : ext_st) (x : run_st) (y : arena_st) (fl ml : list Z) (b : ArenaBin) (t u : cell).

Lemma segs_apart_same s s' : same_pool s s' → segs_apart s → segs_apart s'.
Proof. intros [Hf (_ & _ & _ & Hm & Ht)]. unfold segs_apart. by rewrite Hf, Hm, Ht. Qed.

(** The metadata of a medium run are not at the address of the run. *)
Lemma meta_not_run s fl ml i r :
  pool_inv s fl ml → segs_apart s → busy (pm_of s) fl i r → is_medium (pm_of s) i = true →
  meta_addr s i r ≠ run_at s i r.
Proof.
  intros Hp Ha Hb Hm He. destruct (live_slot _ _ _ i (pi_ext _ _ _ Hp) (proj1 Hb) Hm) as (j & Hj & Er & _).
  pose proof (medium_busy_range _ _ _ _ _ Hp Hb Hm) as Hr.
  destruct (busy_offset s fl ml i r Hp Hb) as (Hs & Ho & Ho' & Hi).
  destruct (inv_head _ _ _ (pi_ext _ _ _ Hp)) as (_ & _ & _ & _ & _ & _ & _ & _ & Ht).
  destruct (pi_file _ _ _ Hp) as (_ & _ & _ & Hsz & _).
  unfold meta_addr, run_at, ext_at, ext_base, segs_apart, file_end, extents in *. rewrite Hm, Er in He.
  unfold slot_addr, elem_addr in He. change kCacheLineSize with 64 in *. change sizeof_MediumMeta with 64 in *.
  change kExtentSize with 4194304 in *. change kRootSegSize with 8192 in *. lia.
Qed.

(** *** Updating one bin *)

Lemma bin_of_unique y n idx b b' : bin_of y n idx b → bin_of y n idx b' → b = b'.
Proof. intros (a & Ha & Hb) (a' & Ha' & Hb'). congruence. Qed.

Lemma bin_of_upd y x' n a idx b b' n' idx' b2 :
  nthZ (as_arenas y) n = Some a → nthZ (ar_bins a) idx = Some b →
  bin_of (upd_bin y x' n a idx b') n' idx' b2 ↔
    n' = n ∧ idx' = idx ∧ b2 = b' ∨ ¬ (n' = n ∧ idx' = idx) ∧ bin_of y n' idx' b2.
Proof.
  intros Ha Hb. unfold bin_of. cbn [as_arenas upd_bin].
  pose proof (nthZ_Some _ _ _ Ha) as Hn. pose proof (nthZ_Some _ _ _ Hb) as Hi. split.
  - intros (a2 & Ha2 & Hb2). apply (nthZ_updZ_inv _ _ _ _ _ _ Ha) in Ha2 as [[-> ->]|[Hne Ha2]].
    + cbn in Hb2. apply (nthZ_updZ_inv _ _ _ _ _ _ Hb) in Hb2 as [[-> ->]|[Hne Hb2]]; [by left|].
      right. split; [tauto|]. by exists a.
    + right. split; [tauto|]. by exists a2.
  - intros [(-> & -> & ->)|(Hne & a2 & Ha2 & Hb2)].
    + eexists. rewrite nthZ_updZ_eq by done. split; [done|]. cbn. by apply nthZ_updZ_eq.
    + destruct (decide (n = n')) as [<-|Hn'].
      * assert (a2 = a) as -> by congruence. eexists. rewrite nthZ_updZ_eq by done. split; [done|]. cbn.
        rewrite nthZ_updZ_ne; [done|]. intros <-. by apply Hne.
      * exists a2. by rewrite nthZ_updZ_ne.
Qed.

Lemma gaused_split y fl n idx b t :
  bin_of y n idx b → gaused y fl t ↔ aused_cell (ext_of y) fl b t ∨ other_aused y fl n idx t.
Proof.
  intros Hb. split.
  - intros (n' & idx' & b2 & Hb2 & Hu). destruct (decide (n' = n ∧ idx' = idx)) as [[-> ->]|Hne].
    + left. by rewrite (bin_of_unique _ _ _ _ _ Hb Hb2).
    + right. by exists n', idx', b2.
  - intros [Hu|(n' & idx' & b2 & Hb2 & _ & Hu)]; [by exists n, idx, b|by exists n', idx', b2].
Qed.

(** The facts about a bin. *)
Lemma bin_facts y fl ml n idx b :
  arenas_inv y fl ml → bin_of y n idx b →
  ab_inv (ext_of y) fl b ∧ ab_arena b = n ∧ ab_index b = idx ∧ 0 ≤ ab_rcase b < lenZ (rn_cases (as_run y)).
Proof.
  intros Hy (a & Ha & Hb). destruct (av_bin _ _ _ Hy n a idx b Ha Hb) as (Hi & En & Ei & Er).
  destruct (av_arena _ _ _ Hy n a Ha) as (_ & _ & _ & Hr & _). by rewrite Er.
Qed.

Lemma run_same_cell s s' fl' i r k :
  same_pool s s' → run_same s s' fl' i r → cell_same s s' (Cell i r k).
Proof.
  intros Hs Hr. destruct (run_same_addr s s' fl' i r Hs Hr) as (_ & _ & _ & Hc).
  unfold cell_same, cell_size, cell_token. simpl. by rewrite Hc, (rs_meta _ _ _ _ _ Hr).
Qed.

Lemma other_aused_step y fl ml x' fl' n a idx b b' t :
  arenas_inv y fl ml → nthZ (as_arenas y) n = Some a → nthZ (ar_bins a) idx = Some b →
  abin_frame (as_run y) x' fl fl' b →
  (other_aused (upd_bin y x' n a idx b') fl' n idx t ↔ other_aused y fl n idx t) ∧
  (other_aused y fl n idx t → cell_same (ext_of y) (rn_ext x') t).
Proof.
  intros Hy Ha Hb Hf. assert (bin_of y n idx b) as Hbin by (by exists a).
  destruct (bin_facts _ _ _ _ _ _ Hy Hbin) as (Hbi & En & Ei & _).
  assert (∀ n' idx' b2, bin_of y n' idx' b2 → ¬ (n' = n ∧ idx' = idx) →
    (∀ i r, run_owned (ext_of y) fl b2 i r → run_same (ext_of y) (rn_ext x') fl' i r) ∧
    (aused_cell (rn_ext x') fl' b2 t ↔ aused_cell (ext_of y) fl b2 t)) as Hall.
  { intros n' idx' b2 Hb2 Hne. destruct (bin_facts _ _ _ _ _ _ Hy Hb2) as (Hbi2 & En2 & Ei2 & _).
    destruct (abin_other (as_run y) x' fl fl' b b2) as (_ & Hk & Hu);
      [done|by eapply ai_index|intros [=]; apply Hne; split; congruence|done|].
    split; [done|]. destruct t as [i r k]. apply Hu. }
  split; [split|].
  - intros (n' & idx' & b2 & Hb2 & Hne & Hu). apply (bin_of_upd y x' n a idx b b') in Hb2 as [(-> & -> & _)|[_ Hb2]];
      [by destruct Hne| |done|done].
    exists n', idx', b2. split; [done|]. split; [done|]. by apply (Hall n' idx' b2).
  - intros (n' & idx' & b2 & Hb2 & Hne & Hu). exists n', idx', b2. split; [|split; [done|by apply (Hall n' idx' b2)]].
    apply (bin_of_upd y x' n a idx b b'); [done|done|]. by right.
  - intros (n' & idx' & b2 & Hb2 & Hne & Hu). destruct t as [i r k]. destruct (Hall n' idx' b2 Hb2 Hne) as [Hk _].
    apply (run_same_cell _ _ fl'); [apply Hf|apply Hk, Hu].
Qed.

Lemma upd_bin_inv y fl ml x' fl' ml' n a idx b b' :
  arenas_inv y fl ml → nthZ (as_arenas y) n = Some a → nthZ (ar_bins a) idx = Some b →
  runs_inv x' fl' ml' → abin_frame (as_run y) x' fl fl' b → same_abin b b' → ab_inv (rn_ext x') fl' b' →
  arenas_inv (upd_bin y x' n a idx b') fl' ml' ∧ same_arenas y (upd_bin y x' n a idx b').
Proof.
  intros Hy Ha Hb Hx' Hf Hsb Hb'. assert (bin_of y n idx b) as Hbin by (by exists a).
  destruct (bin_facts _ _ _ _ _ _ Hy Hbin) as (Hbi & En & Ei & _).
  destruct (av_bin _ _ _ Hy n a idx b Ha Hb) as (_ & _ & _ & Er).
  split; [|split; [apply lenZ_updZ|split; [apply Hf|apply (fr_pool _ _ _ _ _ Hf)]]]. constructor; [exact Hx'| | |]; cbn [as_run as_arenas upd_bin].
  - eapply segs_apart_same; [apply Hf|apply (av_apart _ _ _ Hy)].
  - intros m c Hc. rewrite (fr_cases _ _ _ _ _ Hf).
    apply (nthZ_updZ_inv _ _ _ _ _ _ Ha) in Hc as [[-> ->]|[_ Hc]]; [|by apply (av_arena _ _ _ Hy)].
    cbn. rewrite lenZ_updZ. by apply (av_arena _ _ _ Hy).
  - intros m c j b2 Hc Hj. destruct (decide (m = n ∧ j = idx)) as [[-> ->]|Hne].
    + rewrite nthZ_updZ_eq in Hc by (by eapply nthZ_Some). injection Hc as <-. cbn in Hj.
      rewrite nthZ_updZ_eq in Hj by (by eapply nthZ_Some). injection Hj as <-. cbn.
      destruct Hsb as (E1 & E2 & _ & E4). split; [exact Hb'|]. split_and!; congruence.
    + assert (∃ d, nthZ (as_arenas y) m = Some d ∧ nthZ (ar_bins d) j = Some b2 ∧ ar_rcase c = ar_rcase d)
        as (d & Hd & Hj' & Erd).
      { apply (nthZ_updZ_inv _ _ _ _ _ _ Ha) in Hc as [[-> ->]|[_ Hc]]; [|by exists c]. exists a. cbn in Hj.
        rewrite nthZ_updZ_ne in Hj; [done|]. intros <-. by apply Hne. }
      rewrite Erd. destruct (av_bin _ _ _ Hy m d j b2 Hd Hj') as (Hi2 & En2 & Ei2 & Er2).
      split; [|done]. apply (abin_other (as_run y) x' fl fl' b b2); [done|by eapply ai_index| |done].
      intros [=]. apply Hne. split; congruence.
Qed.

Lemma filled_arenas y fl ml x' fl' ml' n a idx b b' L :
  arenas_inv y fl ml → nthZ (as_arenas y) n = Some a → nthZ (ar_bins a) idx = Some b →
  runs_inv x' fl' ml' → filled (as_run y) x' fl fl' b b' L →
  arenas_inv (upd_bin y x' n a idx b') fl' ml' ∧ arenas_filled y (upd_bin y x' n a idx b') fl fl' L.
Proof.
  intros Hy Ha Hb Hx' Hf. pose proof (fi_frame _ _ _ _ _ _ _ Hf) as Hfr.
  destruct (upd_bin_inv y fl ml x' fl' ml' n a idx b b' Hy Ha Hb Hx' Hfr (fi_bin _ _ _ _ _ _ _ Hf)
    (fi_inv _ _ _ _ _ _ _ Hf)) as [Hinv Hsame].
  split; [done|]. assert (bin_of y n idx b) as Hbin by (by exists a).
  assert (bin_of (upd_bin y x' n a idx b') n idx b') as Hbin' by (apply (bin_of_upd y x' n a idx b b'); auto).
  assert (∀ t, gaused (upd_bin y x' n a idx b') fl' t ↔ t ∈ L ∨ gaused y fl t) as Hu.
  { intros t. rewrite (gaused_split _ _ n idx b') by done. rewrite (gaused_split y fl n idx b) by done.
    destruct (other_aused_step y fl ml x' fl' n a idx b b' t Hy Ha Hb Hfr) as [-> _]. destruct t as [i r k].
    cbn [aused_cell]. unfold ext_of. cbn [as_run upd_bin]. rewrite (fi_used _ _ _ _ _ _ _ Hf). tauto. }
  constructor; [apply Hfr|done|apply Hf| |done| | |].
  - intros t Ht. rewrite (gaused_split y fl n idx b) by done. intros [Hn|Ho].
    + destruct t as [i r k]. by apply (fi_fresh _ _ _ _ _ _ _ Hf i r k).
    + destruct t as [i r k]. destruct Ho as (n' & idx' & b2 & Hb2 & Hne & Hu2).
      destruct (bin_facts _ _ _ _ _ _ Hy Hbin) as (Hbi & En & Ei & _).
      destruct (bin_facts _ _ _ _ _ _ Hy Hb2) as (Hbi2 & En2 & Ei2 & _).
      assert (run_owned (rn_ext x') fl' b' i r) as Ho' by (eapply (fi_used _ _ _ _ _ _ _ Hf i r k); by left).
      assert (run_owned (rn_ext x') fl' b2 i r) as Ho2.
      { apply (run_same_owned (ext_of y) (rn_ext x') fl fl' b2 i r); [|by eapply run_owned_busy; apply Hu2|apply Hu2].
        destruct (abin_other (as_run y) x' fl fl' b b2) as (_ & Hk & _);
          [done|by eapply ai_index|intros [=]; apply Hne; split; congruence|done|]. apply Hk, Hu2. }
      destruct (fi_bin _ _ _ _ _ _ _ Hf) as (E1 & E2 & _).
      destruct (run_owned_unique (rn_ext x') fl' b' b2 i r); [rewrite E2; by eapply ai_index|by eapply ai_index|done|done|].
      apply Hne. split; congruence.
  - intros t. rewrite (gaused_split y fl n idx b) by done. intros [Hn|Ho].
    + destruct t as [i r k]. apply (run_same_cell _ _ fl'); [apply Hfr|]. apply (fi_kept _ _ _ _ _ _ _ Hf), Hn.
    + by apply (other_aused_step y fl ml x' fl' n a idx b b' t).
  - intros [i r k] Ht. by apply (fi_token _ _ _ _ _ _ _ Hf).
  - split; [apply Hfr|apply Hfr].
Qed.

(** A region belongs to one bin. *)
Lemma other_aused_bin y fl ml n idx b t :
  arenas_inv y fl ml → bin_of y n idx b → aused_cell (ext_of y) fl b t → ¬ other_aused y fl n idx t.
Proof.
  intros Hy Hb Hu (n' & idx' & b2 & Hb2 & Hne & Hu2). destruct t as [i r k].
  destruct (bin_facts _ _ _ _ _ _ Hy Hb) as (Hbi & En & Ei & _).
  destruct (bin_facts _ _ _ _ _ _ Hy Hb2) as (Hbi2 & En2 & Ei2 & _).
  destruct (run_owned_unique (ext_of y) fl b b2 i r) as [E1 E2];
    [by eapply ai_index|by eapply ai_index|apply Hu|apply Hu2|]. apply Hne. split; congruence.
Qed.

Lemma spilled_arenas y fl ml x' fl' ml' n a idx b b' i rid k :
  arenas_inv y fl ml → nthZ (as_arenas y) n = Some a → nthZ (ar_bins a) idx = Some b →
  runs_inv x' fl' ml' → aused (ext_of y) fl b i rid k → spilled (as_run y) x' fl fl' b b' i rid k →
  arenas_inv (upd_bin y x' n a idx b') fl' ml' ∧
  arenas_spilled y (upd_bin y x' n a idx b') fl fl' [Cell i rid k].
Proof.
  intros Hy Ha Hb Hx' Hin Hf. pose proof (sp_frame _ _ _ _ _ _ _ _ _ Hf) as Hfr.
  destruct (upd_bin_inv y fl ml x' fl' ml' n a idx b b' Hy Ha Hb Hx' Hfr (sp_bin _ _ _ _ _ _ _ _ _ Hf)
    (sp_inv _ _ _ _ _ _ _ _ _ Hf)) as [Hinv Hsame].
  split; [done|]. assert (bin_of y n idx b) as Hbin by (by exists a).
  assert (bin_of (upd_bin y x' n a idx b') n idx b') as Hbin' by (apply (bin_of_upd y x' n a idx b b'); auto).
  assert (∀ u, other_aused y fl n idx u → u ≠ Cell i rid k) as Hno.
  { intros u Hu ->. by apply (other_aused_bin y fl ml n idx b (Cell i rid k)). }
  constructor; [apply Hfr|done| | |split; [apply Hfr|apply Hfr]].
  - intros u. rewrite list_elem_of_singleton.
    rewrite (gaused_split _ _ n idx b') by done. rewrite (gaused_split y fl n idx b) by done.
    destruct (other_aused_step y fl ml x' fl' n a idx b b' u Hy Ha Hb Hfr) as [-> _].
    specialize (Hno u). destruct u as [j r m]. cbn [aused_cell]. unfold ext_of. cbn [as_run upd_bin].
    rewrite (sp_used _ _ _ _ _ _ _ _ _ Hf).
    assert (Cell j r m ≠ Cell i rid k ↔ ¬ (j = i ∧ r = rid ∧ m = k)) as Hc.
    { split; [intros Hne (-> & -> & ->); by apply Hne|intros Hne [= -> -> ->]; by apply Hne]. }
    tauto.
  - intros u. rewrite list_elem_of_singleton, (gaused_split y fl n idx b) by done. intros [Hn|Ho] Hne.
    + destruct u as [j r m]. apply (run_same_cell _ _ fl'); [apply Hfr|].
      apply (sp_kept _ _ _ _ _ _ _ _ _ Hf); [apply Hn|]. eapply run_owned_busy.
      apply (sp_used _ _ _ _ _ _ _ _ _ Hf j r m). split; [done|]. intros (-> & -> & ->). by apply Hne.
    + by apply (other_aused_step y fl ml x' fl' n a idx b b' u).
Qed.

(** *** Composing steps *)

Lemma cell_same_refl s t : cell_same s s t.
Proof. done. Qed.
Lemma cell_same_trans s1 s2 s3 t : cell_same s1 s2 t → cell_same s2 s3 t → cell_same s1 s3 t.
Proof. intros (?&?&?) (?&?&?). unfold cell_same. split_and!; congruence. Qed.

Lemma large_kept_refl x fl : large_kept x x fl fl.
Proof. done. Qed.
Lemma large_kept_trans x1 x2 x3 fl1 fl2 fl3 :
  large_kept x1 x2 fl1 fl2 → large_kept x2 x3 fl2 fl3 → large_kept x1 x3 fl1 fl3.
Proof.
  intros [Hg Hd] [Hg' Hd']. split; [intros j k; by rewrite Hg', Hg|]. intros j Hl Ht.
  destruct (Hd j Hl Ht) as [Hl2 E2]. destruct (Hd' j Hl2) as [Hl3 E3]; [congruence|]. split; [done|congruence].
Qed.

Lemma arenas_filled_refl y fl : arenas_filled y y fl fl [].
Proof.
  constructor; try done.
  - apply NoDup_nil_2.
  - intros t Ht. by apply not_elem_of_nil in Ht.
  - intros t. rewrite elem_of_nil. tauto.
  - intros t Ht. by apply not_elem_of_nil in Ht.
Qed.

Lemma same_arenas_trans y1 y2 y3 : same_arenas y1 y2 → same_arenas y2 y3 → same_arenas y1 y3.
Proof. intros (?&?&?) (?&?&?). unfold same_arenas. split_and!; congruence. Qed.

Lemma arenas_spilled_refl y fl : arenas_spilled y y fl fl [].
Proof. constructor; try done. intros u. split; [|tauto]. intros Hu. split; [done|apply not_elem_of_nil]. Qed.

Lemma arenas_spilled_trans y1 y2 y3 fl1 fl2 fl3 L1 L2 :
  arenas_spilled y1 y2 fl1 fl2 L1 → arenas_spilled y2 y3 fl2 fl3 L2 →
  arenas_spilled y1 y3 fl1 fl3 (L1 ++ L2).
Proof.
  intros [h1 h2 h3 h4 h5] [k1 k2 k3 k4 k5]. constructor.
  - by eapply same_pool_trans.
  - by eapply same_arenas_trans.
  - intros u. rewrite k3, h3, not_elem_of_app. tauto.
  - intros u Hu [Hn1 Hn2]%not_elem_of_app. eapply cell_same_trans; [by apply h4|]. apply k4; [|done].
    by apply h3.
  - by eapply large_kept_trans.
Qed.

(** *** The bins of a state *)

Lemma bin_exists y fl ml n a idx :
  arenas_inv y fl ml → nthZ (as_arenas y) n = Some a → 0 ≤ idx < 40 →
  ∃ b, nthZ (ar_bins a) idx = Some b.
Proof.
  intros Hy Ha Hi. destruct (av_arena _ _ _ Hy n a Ha) as (_ & _ & Hl & _ & _).
  destruct (nthZ_is_Some (ar_bins a) idx) as [b Hb]; [lia|]. by exists b.
Qed.

Lemma gaused_cell y fl ml t :
  arenas_inv y fl ml → gaused y fl t →
  ∃ n a idx b, nthZ (as_arenas y) n = Some a ∧ nthZ (ar_bins a) idx = Some b ∧
    aused_cell (ext_of y) fl b t ∧ ab_inv (ext_of y) fl b ∧ ab_arena b = n ∧ ab_index b = idx ∧
    ab_rcase b = ar_rcase a ∧ 0 ≤ ab_rcase b < lenZ (rn_cases (as_run y)) ∧ ar_index a = n ∧
    cell_size (ext_of y) t = index2size_compute idx.
Proof.
  intros Hy (n & idx & b & (a & Ha & Hb) & Hu). exists n, a, idx, b.
  destruct (av_bin _ _ _ Hy n a idx b Ha Hb) as (Hi & En & Ei & Er).
  destruct (av_arena _ _ _ Hy n a Ha) as (En' & _ & _ & Hr & _).
  split; [done|]. split; [done|]. split; [done|]. split; [done|]. split; [done|]. split; [done|].
  split; [done|]. split; [by rewrite Er|]. split; [done|]. destruct t as [i r k]. destruct Hu as (Ho & _).
  rewrite <-Ei. apply (ro_size _ _ _ _ _ Ho).
Qed.

Lemma wp_on_arena {A} n a (f : Arena → M run_st (Arena * A)) Q y :
  nthZ (as_arenas y) n = Some a →
  wp (f a) (λ r x, Q r.2 {| as_run := x; as_arenas := updZ (as_arenas y) n r.1 |}) (as_run y) →
  wp (on_arena n f) Q y.
Proof.
  intros Ha Hf. unfold on_arena, rnm. wp_step. wp_step. wp_step. wp_step; [exact Ha|]. wp_step. wp_step.
  eapply wp_mono; [exact Hf|]. intros [a' r] x HQ. cbv beta iota. wp_step. wp_step. wp_step. exact HQ.
Qed.

Lemma wp_e_on_arena {A} n a (f : Arena → M run_st (Arena * A)) (E : error → Prop) Q y :
  nthZ (as_arenas y) n = Some a →
  wp_e (f a) E (λ r x, Q r.2 {| as_run := x; as_arenas := updZ (as_arenas y) n r.1 |}) (as_run y) →
  wp_e (on_arena n f) E Q y.
Proof.
  intros Ha Hf. unfold on_arena, rnm. apply wp_e_bind, wp_e_wp, wp_gets.
  apply wp_e_bind, wp_e_wp. eapply wp_deref; [exact Ha|].
  apply wp_e_bind, wp_e_zoom. eapply wp_e_mono; [exact Hf|done|]. intros [a' r] x HQ. cbv beta iota.
  apply wp_e_wp. wp_step. wp_step. wp_step. exact HQ.
Qed.

Lemma wp_with_abin {A} a idx b (f : ArenaBin → M run_st (ArenaBin * A)) Q x :
  nthZ (ar_bins a) idx = Some b →
  wp (f b) (λ r x, Q (set_ar_bins (updZ (ar_bins a) idx r.1) a, r.2) x) x → wp (with_abin a idx f) Q x.
Proof.
  intros Hb Hf. unfold with_abin. wp_step. wp_step; [exact Hb|]. wp_step.
  eapply wp_mono; [exact Hf|]. intros [b' r] x' HQ. cbv beta iota. wp_step. exact HQ.
Qed.

(** *** The operations *)

Lemma wp_arenas_fill y fl ml n a idx regions restock (E : error → Prop) Q :
  arenas_inv y fl ml → nthZ (as_arenas y) n = Some a → 0 ≤ idx < 40 →
  (∀ y' fl' ml' L, arenas_inv y' fl' ml' → arenas_filled y y' fl fl' L →
     (∀ t, t ∈ L → cell_size (ext_of y') t = index2size_compute idx) →
     lenZ L ≤ Z.max 0 (restock - lenZ regions) →
     (lenZ L < restock - lenZ regions → ran_out y fl n idx (lenZ L + 1) ∧ 19 < idx) →
     Q (regions ++ (cell_region (ext_of y') <$> L)) y') →
  (ran_out y fl n idx (restock - lenZ regions) → idx ≤ 19 → E EUB) →
  wp_e (on_arena n (λ a, Arena_fill_cache_bin a regions restock idx)) E Q y.
Proof.
  intros Hy Ha Hi HQ HE. destruct (bin_exists y fl ml n a idx Hy Ha Hi) as [b Hb].
  assert (bin_of y n idx b) as Hbin by (by exists a).
  destruct (bin_facts y fl ml n idx b Hy Hbin) as (Hbi & En & Ei & Hr).
  apply (wp_e_on_arena n a); [done|]. unfold Arena_fill_cache_bin.
  apply wp_e_bind, wp_e_wp, wp_assert; [apply Z.ltb_lt; change kNSlabsCached with 40; lia|].
  unfold with_abin. apply wp_e_bind, wp_e_wp. eapply wp_deref; [exact Hb|]. apply wp_e_bind.
  assert (∀ x' fl' ml' b' L k, runs_inv x' fl' ml' → filled (as_run y) x' fl fl' b b' L →
    grown (ext_of y) (rn_ext x') fl fl' L → lenZ L < k → no_runs x' fl' b' → ran_out y fl n idx k) as Hno.
  { intros x' fl' ml' b' L k Hx' Hf Hgr Hk Hn.
    destruct (filled_arenas y fl ml x' fl' ml' n a idx b b' L Hy Ha Hb Hx' Hf) as [Hy' Hf'].
    exists (upd_bin y x' n a idx b'), fl', ml', L. split; [exact Hy'|]. split; [exact Hf'|]. split; [exact Hgr|]. split; [exact Hk|]. split.
    - intros b2 Hb2. assert (b2 = b') as ->; [|done].
      apply (bin_of_upd y x' n a idx b b') in Hb2 as [(_ & _ & ?)|[[] _]]; done.
    - exists b'. split; [apply (bin_of_upd y x' n a idx b b'); [done|done|by left]|].
      intros [i r m] Hin. apply (fi_used _ _ _ _ _ _ _ Hf). by left. }
  apply (wp_fill_loop _ (as_run y) fl ml); [lia|apply Hy|done|done|..].
  - intros x' fl' ml' b' L Hx' Hf Hgr Hn Hl. apply wp_e_wp. cbv beta iota. wp_step. cbn [fst snd].
    destruct (filled_arenas y fl ml x' fl' ml' n a idx b b' L Hy Ha Hb Hx' Hf) as [Hy' Hf'].
    apply (HQ (upd_bin y x' n a idx b') fl' ml' L); [done|done| |done|].
    + intros [i r k] Ht. rewrite <-Ei. destruct (fi_bin _ _ _ _ _ _ _ Hf) as (_ & <- & _).
      apply (filled_owned _ _ _ _ _ _ _ _ _ _ Hf Ht).
    + intros Hlt. destruct (Hn Hlt) as [Hn1 Hn2]. split; [apply (Hno x' fl' ml' b' L); [done..|lia|done]|].
      unfold small_bin_class in Hn2. rewrite Ei in Hn2. by apply Z.leb_gt.
  - intros x' fl' ml' b' L Hx' Hf Hgr Hl Hn Hs. apply HE; [by apply (Hno x' fl' ml' b' L)|].
    unfold small_bin_class in Hs. rewrite Ei in Hs. by apply Z.leb_le.
Qed.

(** The release of a region by its arena; the arguments are those that the
    address of the region determines. *)
Definition arena_release (idx meta run k : Z) (a : Arena) : M run_st (Arena * unit) :=
  if idx <=? 19 then Arena_release_small a meta meta k false
  else Arena_release_medium a meta run k false.

Lemma wp_arenas_release y fl ml n idx b i r k Q :
  arenas_inv y fl ml → bin_of y n idx b → aused_cell (ext_of y) fl b (Cell i r k) →
  cell_token (ext_of y) (Cell i r k) = Some kFreeCode →
  (∀ y' fl' ml', arenas_inv y' fl' ml' → arenas_spilled y y' fl fl' [Cell i r k] → Q tt y') →
  wp (on_arena n (arena_release idx (meta_addr (ext_of y) i r) (run_at (ext_of y) i r) k)) Q y.
Proof.
  intros Hy Hbin Hu Ht HQ. pose proof Hbin as (a & Ha & Hb). pose proof (av_runs _ _ _ Hy) as Hx.
  destruct (bin_facts y fl ml n idx b Hy Hbin) as (Hbi & En & Ei & Hr).
  destruct (av_arena _ _ _ Hy n a Ha) as (Ea & _). pose proof (ai_index _ _ _ Hbi) as Hi. rewrite Ei in Hi.
  pose proof Hu as (Ho & _). unfold ext_of in *. pose proof (run_owned_busy _ _ _ _ _ Ho) as Hbs.
  pose proof (ro_size _ _ _ _ _ Ho) as Es. pose proof (ro_arena _ _ _ _ _ Ho) as Ear. rewrite Ei in Es.
  destruct (index2size_facts idx Hi) as (_ & Hsz & _).
  assert (∀ x' fl' ml' b', runs_inv x' fl' ml' → spilled (as_run y) x' fl fl' b b' i r k →
    Q tt (upd_bin y x' n a idx b')) as HQ'.
  { intros x' fl' ml' b' Hx' Hs.
    destruct (spilled_arenas y fl ml x' fl' ml' n a idx b b' i r k Hy Ha Hb Hx' Hu Hs) as [Hy' Hs']. by eapply HQ. }
  apply (wp_on_arena n a); [done|]. unfold arena_release.
  pose proof (run_owned_medium _ _ _ _ _ Ho) as Hm. rewrite Ei in Hm. destruct (Z.leb_spec idx 19) as [Hsm|Hmd].
  - destruct (small_objs_ok _ fl ml b i r (rv_pool _ _ _ Hx)) as (_ & Emd & Eaddr);
      [by rewrite Ei|done|by rewrite Ei|]. rewrite Emd in Es, Ear. simpl in Es, Ear.
    rewrite Eaddr. unfold Arena_release_small. wp_step.
    apply (deref_small_run (rn_ext (as_run y)) fl ml); [done|apply Hx|done|]. wp_step.
    wp_step; [rewrite Z.eqb_refl; apply Z.eqb_eq; congruence|]. wp_step. wp_step. rewrite (rv_sc _ _ _ Hx).
    wp_step. rewrite Es. eapply wp_pure; [by apply size2index_ok|]. rewrite class_of_class by done.
    apply (wp_with_abin a idx b); [done|]. unfold no_result. wp_step.
    apply (wp_release_small _ fl ml); [done|done|done|by rewrite Ei|done|done|].
    intros x' fl' ml' b' Hx' Hs. wp_step. by eapply HQ'.
  - assert (run_meta (rn_ext (as_run y)) i r =
      inr (med_at (pm_of (rn_ext (as_run y))) (meta_addr (rn_ext (as_run y)) i r))) as Emd
      by (unfold run_meta; by rewrite Hm).
    rewrite Emd in Es, Ear. simpl in Es, Ear. unfold Arena_release_medium. wp_step.
    apply (deref_med_run (rn_ext (as_run y)) fl ml); [done|apply Hx|done|done|]. wp_step.
    wp_step.
    { apply andb_true_iff. split; [|apply Z.eqb_eq; congruence]. apply negb_true_iff, Z.eqb_neq.
      apply (meta_not_run _ fl ml); [apply Hx|apply (av_apart _ _ _ Hy)|done|done]. }
    wp_step. wp_step. rewrite (rv_sc _ _ _ Hx).
    wp_step. rewrite Es. eapply wp_pure; [by apply size2index_ok|]. rewrite class_of_class by done.
    apply (wp_with_abin a idx b); [done|]. unfold no_result. wp_step.
    apply (wp_release_medium _ fl ml); [done|done|done|by rewrite Ei|done|done|].
    intros x' fl' ml' b' Hx' Hs. wp_step. by eapply HQ'.
Qed.

(** *** Finding a region by its address *)

Lemma cell_rounddown s fl ml b i r k :
  pool_inv s fl ml → 0 ≤ ab_index b < 40 → run_owned s fl b i r → 0 ≤ k < md_count (run_meta s i r) →
  let ptr := reg_pointer (region_at s i r k) in
  0 < ptr < 2 ^ 63 ∧ rounddown ptr kExtentSize = ext_at s i ∧
  (ptr - ext_at s i) / ed_size (desc_of (pm_of s) i) = r ∧ 0 ≤ ptr - ext_at s i < kExtentSize.
Proof.
  intros Hp Hi Ho Hk ptr. destruct (cell_bounds s fl b i r k Hi Ho Hk) as (B1 & B2 & B3 & _).
  fold ptr in B2, B3. pose proof (run_owned_busy _ _ _ _ _ Ho) as Hb.
  destruct (busy_offset s fl ml i r Hp Hb) as (O1 & O2 & O3 & O4).
  destruct (run_at_bounds s fl ml i r Hp Hb) as [P1 P2]. unfold run_at in *.
  split; [lia|]. split; [|split; [|lia]].
  - replace ptr with (ext_at s i + (ptr - ext_at s i)) by lia.
    apply (rounddown_ext _ _ i _ (pi_file _ _ _ Hp)); lia.
  - symmetry. apply (Z.div_unique_pos _ _ r (ptr - ext_at s i - r * ed_size (desc_of (pm_of s) i))); lia.
Qed.

Lemma wp_div_nonzero {S} a c Q (s : S) : c ≠ 0 → Q (a / c) s → wp (div_nonzero a c) Q s.
Proof. intros Hc HQ. unfold div_nonzero. rewrite (proj2 (Z.eqb_neq _ _)) by done. by apply wp_ret. Qed.

(** The location of a region, as both functions compute it. *)
Definition location_of (s : ext_st) (b : ArenaBin) (i r k : Z) : location := {|
  lo_meta := meta_addr s i r; lo_start := objs_at s i r; lo_size := index2size_compute (ab_index b);
  lo_index := k; lo_arena := ab_arena b |}.

(** The index of a region in its run. *)
Lemma cell_index s fl ml b i r k :
  pool_inv s fl ml → 0 ≤ ab_index b < 40 → run_owned s fl b i r → 0 ≤ k < md_count (run_meta s i r) →
  let sz := index2size_compute (ab_index b) in
  let ptr := reg_pointer (region_at s i r k) in
  sz ≠ 0 ∧ u64 (ptr - objs_at s i r) / sz = k ∧ u64 (k * sz + objs_at s i r) = ptr.
Proof.
  intros Hp Hi Ho Hk sz ptr. destruct (cell_rounddown s fl ml b i r k Hp Hi Ho Hk) as (Hptr & _).
  fold ptr in Hptr. pose proof (ro_size _ _ _ _ _ Ho) as Es. destruct (index2size_facts _ Hi) as (_ & Hsz & _).
  fold sz in Es, Hsz. assert (ptr = objs_at s i r + k * sz) as Ep by (unfold ptr, region_at; simpl; by rewrite Es).
  destruct (owned_counts s fl b i r Hi Ho) as (Hc & _). unfold u64, wrap.
  replace (ptr - objs_at s i r) with (k * sz) by lia. split; [lia|].
  rewrite (Z.mod_small (k * sz)) by nia. rewrite Z.div_mul by lia. split; [done|].
  rewrite Z.mod_small; lia.
Qed.

Lemma wp_small_location s fl ml b i r k Q x :
  rn_ext x = s → pool_inv s fl ml → ab_inv s fl b → ab_index b ≤ 19 →
  run_owned s fl b i r → 0 ≤ k < md_count (run_meta s i r) →
  Q (location_of s b i r k) x →
  wp (small_location (desc_of (pm_of s) i) (reg_pointer (region_at s i r k))) Q x.
Proof.
  intros Hxs Hp Hbi Hsm Ho Hk HQ. pose proof (ai_index _ _ _ Hbi) as Hi.
  destruct (cell_rounddown s fl ml b i r k Hp Hi Ho Hk) as (Hptr & Erd & Ediv & _).
  destruct (small_objs_ok s fl ml b i r Hp Hi Ho Hsm) as (Eobj & Emd & Eaddr).
  pose proof (run_owned_busy _ _ _ _ _ Ho) as Hb. destruct (busy_offset s fl ml i r Hp Hb) as (O1 & _).
  destruct (cell_index s fl ml b i r k Hp Hi Ho Hk) as (Hnz & Eidx & Eback).
  pose proof (ro_size _ _ _ _ _ Ho) as Es. pose proof (ro_arena _ _ _ _ _ Ho) as Ea.
  pose proof (ro_bin _ _ _ _ _ Ho) as (_ & _ & _ & Ers). rewrite Emd in Es, Ea. simpl in Es, Ea.
  unfold small_objs in Eobj. rewrite <-Ers in Eobj.
  destruct (class_bin _ Hi) as (j & _ & _ & Hc & _). destruct (Hc Hsm) as (_ & _ & Hmax).
  set (ptr := reg_pointer (region_at s i r k)) in *.
  unfold small_location. cbv zeta. rewrite Erd. wp_step.
  apply wp_div_nonzero; [lia|]. rewrite Ediv.
  replace (ext_at s i + ed_size (desc_of (pm_of s) i) * r) with (run_at s i r) by (unfold run_at; lia).
  wp_step. apply (deref_small_run s fl ml); [done|done|done|]. rewrite Es.
  wp_step. wp_step; [apply Z.leb_le; lia|]. rewrite Es in Eobj. rewrite Eobj.
  wp_step. apply wp_div_nonzero; [done|]. rewrite Eidx. wp_step. wp_step; [by rewrite Eback, Z.eqb_refl|].
  wp_step. unfold location_of in HQ. by rewrite Eaddr, <-Ea in HQ.
Qed.

Lemma wp_medium_location s fl ml b i r k Q x :
  rn_ext x = s → pool_inv s fl ml → ab_inv s fl b → 19 < ab_index b →
  run_owned s fl b i r → 0 ≤ k < md_count (run_meta s i r) →
  Q (location_of s b i r k) x →
  wp (medium_location (desc_of (pm_of s) i) (reg_pointer (region_at s i r k))) Q x.
Proof.
  intros Hxs Hp Hbi Hmd Ho Hk HQ. pose proof (ai_index _ _ _ Hbi) as Hi.
  destruct (cell_rounddown s fl ml b i r k Hp Hi Ho Hk) as (Hptr & Erd & Ediv & _).
  pose proof (run_owned_medium _ _ _ _ _ Ho) as Hm. rewrite (proj2 (Z.leb_gt _ _)) in Hm by done. simpl in Hm.
  assert (run_meta s i r = inr (med_at (pm_of s) (meta_addr s i r))) as Emd by (unfold run_meta; by rewrite Hm).
  assert (objs_at s i r = run_at s i r) as Eobj by (unfold objs_at; by rewrite Hm).
  pose proof (run_owned_busy _ _ _ _ _ Ho) as Hb. destruct (busy_offset s fl ml i r Hp Hb) as (O1 & _).
  destruct (cell_index s fl ml b i r k Hp Hi Ho Hk) as (Hnz & Eidx & Eback).
  pose proof (ro_size _ _ _ _ _ Ho) as Es. pose proof (ro_arena _ _ _ _ _ Ho) as Ea.
  rewrite Emd in Es, Ea. simpl in Es, Ea.
  destruct (class_bin _ Hi) as (j & _ & _ & _ & Hc). destruct (Hc Hmd) as (_ & _ & [Hmin Hmax] & _).
  set (ptr := reg_pointer (region_at s i r k)) in *.
  unfold medium_location. cbv zeta. rewrite Erd. wp_step. apply wp_div_nonzero; [lia|]. rewrite Ediv.
  replace (ed_runs (desc_of (pm_of s) i) + r * sizeof_MediumMeta) with (meta_addr s i r)
    by (unfold meta_addr; by rewrite Hm).
  wp_step. apply (deref_med_run s fl ml); [done|done|done|done|]. rewrite Es.
  wp_step. wp_step; [apply andb_true_iff; split; [by apply Z.ltb_lt|by apply Z.leb_le]|].
  rewrite (Z.mul_comm (ed_size _)). fold (run_at s i r). rewrite <-Eobj.
  wp_step. apply wp_div_nonzero; [done|]. rewrite Eidx. wp_step. wp_step; [by rewrite Eback, Z.eqb_refl|].
  wp_step. unfold location_of in HQ. by rewrite <-Ea in HQ.
Qed.
End lemmas.
