(* ===== verification/TokenSpec.v ===== *)
(** * Tokens of the regions in use

    Setting the token of a region that has been handed out ([hire], [fire]) keeps
    all invariants of the arenas and changes nothing else: the bitmaps only relate
    the regions that are not in use to free tokens. *)

From S2P Require Export ArenasSpec.
Import Pmem.

(** ** Definitions *)

(** The token of the region [k] of the run [r] of the extent [i] has been set to
    [v]. *)
Record retoken (s s' : ext_st) (fl : list Z) (i r k v : Z) : Prop := {
  rk_file : es_file s' = es_file s;
  rk_head : pm_head (pm_of s') = pm_head (pm_of s);
  rk_meta : pm_meta (pm_of s') = pm_meta (pm_of s);
  rk_desc : pm_desc (pm_of s') = pm_desc (pm_of s);
  rk_next : ∀ a, mm_next (med_at (pm_of s') a) = mm_next (med_at (pm_of s) a);
  rk_len : ∀ a, lenZ (mm_tokens (med_at (pm_of s') a)) = 51;
  rk_other : ∀ j q, busy (pm_of s) fl j q → has_runs (pm_of s) j → ¬ (j = i ∧ q = r) →
    run_meta s' j q = run_meta s j q;
  rk_static : md_size (run_meta s' i r) = md_size (run_meta s i r) ∧
    md_count (run_meta s' i r) = md_count (run_meta s i r) ∧
    md_arena (run_meta s' i r) = md_arena (run_meta s i r);
  rk_token : ∀ m, md_token (run_meta s' i r) m =
    if decide (m = k) then Some v else md_token (run_meta s i r) m;
}.

(** The same for the arenas. *)
Record arenas_retoken (y y' : arena_st) (fl : list Z) (t : cell) (v : Z) : Prop := {
  at_pool : same_pool (ext_of y) (ext_of y');
  at_arenas : same_arenas y y';
  at_used : ∀ u, gaused y' fl u ↔ gaused y fl u;
  at_same : ∀ u, gaused y fl u → u ≠ t → cell_same (ext_of y) (ext_of y') u;
  at_region : cell_region (ext_of y') t = cell_region (ext_of y) t ∧
    cell_size (ext_of y') t = cell_size (ext_of y) t;
  at_token : cell_token (ext_of y') t = Some v;
  at_large : large_kept (as_run y) (as_run y') fl fl;
}.

(** ** Lemmas *)

Section lemmas.
Context `{UtilSpec} `{UnorderedMapSpec}.
Implicit Types (s : ext_st) (x : run_st) (y : arena_st) (fl ml : list Z) (b : ArenaBin) (t u : cell).

(** *** What does not change *)

Lemma retoken_same s s' fl i r k v :
  retoken s s' fl i r k v →
  same_pool s s' ∧ (∀ j, desc_of (pm_of s') j = desc_of (pm_of s) j) ∧
  (∀ j, live (pm_of s') fl j ↔ live (pm_of s) fl j) ∧
  (∀ j q, busy (pm_of s') fl j q ↔ busy (pm_of s) fl j q).
Proof.
  intros Hr. assert (∀ j, desc_of (pm_of s') j = desc_of (pm_of s) j) as Hd.
  { intros j. unfold desc_of, desc_at, ext_addr. by rewrite (rk_head _ _ _ _ _ _ _ Hr), (rk_desc _ _ _ _ _ _ _ Hr). }
  assert (∀ j, live (pm_of s') fl j ↔ live (pm_of s) fl j) as Hl.
  { intros j. unfold live, cur_meta, meta_at. by rewrite (rk_head _ _ _ _ _ _ _ Hr), (rk_meta _ _ _ _ _ _ _ Hr). }
  split; [|split; [done|split; [done|]]].
  - split; [apply Hr|]. rewrite (rk_head _ _ _ _ _ _ _ Hr). done.
  - intros j q. unfold busy. by rewrite Hl, Hd.
Qed.

Lemma retoken_pool s s' fl ml i r k v :
  pool_inv s fl ml → retoken s s' fl i r k v → pool_inv s' fl ml.
Proof.
  intros Hp Hr. destruct (retoken_same _ _ _ _ _ _ _ Hr) as (Hs & Hd & Hl & _).
  pose proof (pi_ext _ _ _ Hp) as Hinv. constructor; [|rewrite (rk_file _ _ _ _ _ _ _ Hr)|apply Hr].
  - apply (ext_inv_frame (pm_of s)); [done|apply Hs|by rewrite (rk_head _ _ _ _ _ _ _ Hr)| | | |].
    + unfold cur_meta, meta_at. by rewrite (rk_head _ _ _ _ _ _ _ Hr), (rk_meta _ _ _ _ _ _ _ Hr).
    + intros j Hj. rewrite Hd. split; [|done]. by apply (inv_free _ _ _ Hinv).
    + intros j Hj. rewrite Hd. split; [|done]. by apply (inv_live _ _ _ Hinv).
    + intros j _. apply Hr.
  - rewrite (rk_head _ _ _ _ _ _ _ Hr). apply Hp.
Qed.

(** The run cases are not concerned: it is no step of any bin. *)
Lemma retoken_cases s s' fl i r k v cs :
  retoken s s' fl i r k v → cases_inv s fl cs →
  cases_inv s' fl cs ∧ ∀ j m, glused s' fl cs j m ↔ glused s fl cs j m.
Proof.
  intros Hr Hcs. destruct (retoken_same _ _ _ _ _ _ _ Hr) as (Hs & Hd & Hl & _).
  assert (∀ c, bin_step s s' fl fl (RunBin_init (rc_index c) kInvalid 0) (-1)) as Hst.
  { intros c. constructor; [done|intros [??]; lia|intros [??]; lia|by intros; apply Hl|by intros; apply Hd]. }
  assert (∀ c, case_inv s fl c → case_inv s' fl c) as Hcase.
  { intros c Hc. constructor; [apply Hc| |apply Hc| |apply Hc].
    - intros j b' Hb. destruct (ci_rbin _ _ _ Hc j b' Hb) as (Hi & Hrest). split; [|done].
      apply (bin_step_other s s' fl fl _ b' (-1) (Hst c)); [|done]. simpl.
      destruct (ri_type _ _ _ Hi) as [Et|Et]; rewrite Et; done.
    - intros j b' Hb. destruct (ci_lbin _ _ _ Hc j b' Hb) as (Hi & Hrest). split; [|done].
      by apply (lbin_step_other s s' fl fl _ b' (-1) (Hst c)). }
  split.
  - intros z c Hz. destruct (Hcs z c Hz) as [Hc Ec]. split; [by apply Hcase|done].
  - intros j m. unfold glused. split; intros (z & c & n & lb & Hz & Hn & Hu); exists z, c, n, lb;
      (split; [done|]); (split; [done|]); destruct (Hcs z c Hz) as [Hc _];
      destruct (ci_lbin _ _ _ Hc n lb Hn) as (Hlb & _);
      (by apply (lbin_step_other s s' fl fl _ lb (-1) (Hst c))).
Qed.

(** *** The runs and the bins *)

Lemma retoken_run s s' fl i r k v j q :
  retoken s s' fl i r k v → busy (pm_of s) fl j q → has_runs (pm_of s) j →
  run_at s' j q = run_at s j q ∧ meta_addr s' j q = meta_addr s j q ∧ objs_at s' j q = objs_at s j q ∧
  is_medium (pm_of s') j = is_medium (pm_of s) j ∧
  md_size (run_meta s' j q) = md_size (run_meta s j q) ∧
  md_count (run_meta s' j q) = md_count (run_meta s j q) ∧
  md_arena (run_meta s' j q) = md_arena (run_meta s j q) ∧
  (∀ m, region_at s' j q m = region_at s j q m) ∧
  ∀ m, ¬ (j = i ∧ q = r ∧ m = k) → md_token (run_meta s' j q) m = md_token (run_meta s j q) m.
Proof.
  intros Hr Hb Hh. destruct (retoken_same _ _ _ _ _ _ _ Hr) as (Hs & Hd & _).
  assert (same_static (desc_of (pm_of s) j) (desc_of (pm_of s') j)) as Hst by (rewrite Hd; apply same_static_refl).
  destruct (meta_addr_same s s' j q Hs Hst) as [Er Ea]. destruct (has_runs_static _ _ _ Hst) as [Em _].
  assert (md_size (run_meta s' j q) = md_size (run_meta s j q) ∧
    md_count (run_meta s' j q) = md_count (run_meta s j q) ∧
    md_arena (run_meta s' j q) = md_arena (run_meta s j q) ∧
    ∀ m, ¬ (j = i ∧ q = r ∧ m = k) → md_token (run_meta s' j q) m = md_token (run_meta s j q) m)
    as (Es & Ec & Ear & Et).
  { destruct (decide (j = i ∧ q = r)) as [[-> ->]|Hne].
    - destruct (rk_static _ _ _ _ _ _ _ Hr) as (-> & -> & ->). do 3 (split; [done|]). intros m Hm.
      rewrite (rk_token _ _ _ _ _ _ _ Hr), decide_False; [done|]. intros ->. by apply Hm.
    - by rewrite (rk_other _ _ _ _ _ _ _ Hr) by done. }
  assert (objs_at s' j q = objs_at s j q) as Eo by (unfold objs_at; by rewrite Em, Er, Hd, Es, Ec).
  do 7 (split; [done|]). split; [|done]. intros m. unfold region_at, run_token. by rewrite Em, Ea, Eo, Es.
Qed.

Lemma retoken_owned s s' fl i r k v b j q :
  retoken s s' fl i r k v → run_owned s' fl b j q ↔ run_owned s fl b j q.
Proof.
  intros Hr. destruct (retoken_same _ _ _ _ _ _ _ Hr) as (Hs & Hd & Hl & Hb).
  assert (∀ z idx, run_of_bin s' fl z idx j q ↔ run_of_bin s fl z idx j q) as Hrb.
  { intros z idx. unfold run_of_bin. by rewrite Hb, Hd. }
  assert (run_of_bin s fl (ab_rcase b) (ab_index b) j q →
    md_size (run_meta s' j q) = md_size (run_meta s j q) ∧
    md_count (run_meta s' j q) = md_count (run_meta s j q) ∧
    md_arena (run_meta s' j q) = md_arena (run_meta s j q)) as Hmd.
  { intros (Hbs & Ht & _). destruct (retoken_run s s' fl i r k v j q Hr Hbs) as (_ & _ & _ & _ & Es & Ec & Ea & _);
      [|done]. unfold has_runs. rewrite Ht. unfold index_type. destruct (_ <=? 19); auto. }
  split; intros [h1 h2 h3 h4].
  - apply Hrb in h1. destruct (Hmd h1) as (Es & Ec & Ea). rewrite Es, Ec, Ea in *. by constructor.
  - destruct (Hmd h1) as (Es & Ec & Ea). apply Hrb in h1. rewrite <-Es, <-Ec, <-Ea in *. by constructor.
Qed.

Lemma retoken_aused s s' fl ml i r k v b j q m :
  retoken s s' fl i r k v → aused s' fl b j q m ↔ aused s fl b j q m.
Proof.
  intros Hr. unfold aused. rewrite (retoken_owned s s' fl i r k v b j q Hr).
  split; intros (Ho & Hm & Hu);
    destruct (retoken_run s s' fl i r k v j q Hr (run_owned_busy _ _ _ _ _ Ho) (run_owned_runs _ _ _ _ _ Ho))
      as (Ea & _ & _ & _ & _ & Ec & _); [rewrite Ea, Ec in *|rewrite Ea, Ec]; done.
Qed.

(** The token of a region that is in use is not constrained. *)
Lemma retoken_ab s s' fl ml i r k v b b0 :
  pool_inv s fl ml → retoken s s' fl i r k v → aused s fl b0 i r k → 0 ≤ ab_index b0 < 40 →
  (ab_arena b0 = ab_arena b ∧ ab_index b0 = ab_index b → b0 = b) →
  ab_inv s fl b → ab_inv s' fl b.
Proof.
  intros Hp Hr Hu Hi0 Hbb [h1 h2 h3 h4 h5]. constructor; try done. intros a bits Ha.
  destruct (h4 a bits Ha) as (j & q & -> & Ho & [k1 k2 k3 k4 k5 k6] & Hlt). exists j, q.
  destruct (retoken_run s s' fl i r k v j q Hr (run_owned_busy _ _ _ _ _ Ho) (run_owned_runs _ _ _ _ _ Ho))
    as (Era & Ema & Eo & _ & Es & Ec & _ & _ & Et).
  split; [done|]. split; [by apply (retoken_owned s s' fl i r k v b j q Hr)|]. split; [|done].
  constructor; [done|congruence|congruence|congruence|congruence|]. intros m Hm Hf. rewrite Ec in Hm.
  rewrite Et; [by apply k6|]. intros (-> & -> & ->). destruct Hu as (Ho0 & _ & Hu).
  destruct (run_owned_unique s fl b0 b i r Hi0 h1 Ho0 Ho) as [E1 E2].
  rewrite (Hbb (conj E1 E2)) in Hu. rewrite (Hu bits Ha) in Hf. done.
Qed.

(** *** The arenas *)

Definition with_ext (y : arena_st) (s : ext_st) : arena_st := set_as_run (set_rn_ext s (as_run y)) y.

Lemma retoken_arenas y fl ml s' i r k v :
  arenas_inv y fl ml → gaused y fl (Cell i r k) → retoken (ext_of y) s' fl i r k v →
  arenas_inv (with_ext y s') fl ml ∧ arenas_retoken y (with_ext y s') fl (Cell i r k) v.
Proof.
  intros Hy Hg Hr. destruct (retoken_same _ _ _ _ _ _ _ Hr) as (Hs & Hd & Hl & Hb).
  destruct Hg as (n0 & idx0 & b0 & Hb0 & Hu0). cbn in Hu0.
  destruct (bin_facts y fl ml n0 idx0 b0 Hy Hb0) as (Hi0 & En0 & Ei0 & _).
  pose proof (av_runs _ _ _ Hy) as Hx.
  destruct (retoken_cases _ _ _ _ _ _ _ (rn_cases (as_run y)) Hr (rv_cases _ _ _ Hx)) as [Hcs Hgl].
  assert (∀ u, gaused (with_ext y s') fl u ↔ gaused y fl u) as Hgu.
  { intros [j q m]. unfold gaused. split; intros (n & idx & b & Hbn & Hu); exists n, idx, b; (split; [exact Hbn|]);
      by apply (retoken_aused (ext_of y) s' fl ml i r k v b j q m Hr). }
  assert (∀ j q m, gaused y fl (Cell j q m) → busy (pm_of (ext_of y)) fl j q ∧ has_runs (pm_of (ext_of y)) j) as Hbs.
  { intros j q m (n & idx & b & _ & (Ho & _)). split; [by eapply run_owned_busy|by eapply run_owned_runs]. }
  split; constructor; try done.
  - constructor; [by eapply retoken_pool; [apply Hx|]|exact Hcs|apply Hx].
  - eapply segs_apart_same; [exact Hs|apply (av_apart _ _ _ Hy)].
  - apply (av_arena _ _ _ Hy).
  - intros n a idx b Ha Hbn. destruct (av_bin _ _ _ Hy n a idx b Ha Hbn) as (Hi & En & Ei & Er).
    split; [|done]. apply (retoken_ab (ext_of y) s' fl ml i r k v b b0);
      [apply Hx|done|done|by eapply ai_index| |done].
    intros [E1 E2]. apply (bin_of_unique y n0 idx0); [done|]. exists a.
    assert (n0 = n) as -> by congruence. assert (idx0 = idx) as -> by congruence. done.
  - split; [done|]. split; [done|apply Hs].
  - intros [j q m] Hu Hne. destruct (Hbs j q m Hu) as [Hbj Hhj].
    destruct (retoken_run _ s' fl i r k v j q Hr Hbj Hhj) as (_ & _ & _ & _ & Es & _ & _ & Ereg & Et).
    split; [apply Ereg|]. split; [exact Es|]. apply Et. intros (-> & -> & ->). by apply Hne.
  - destruct (retoken_run _ s' fl i r k v i r Hr (run_owned_busy _ _ _ _ _ (proj1 Hu0))
      (run_owned_runs _ _ _ _ _ (proj1 Hu0))) as (_ & _ & _ & _ & Es & _ & _ & Ereg & _).
    split; [apply Ereg|exact Es].
  - cbn. unfold ext_of. cbn. rewrite (rk_token _ _ _ _ _ _ _ Hr). by rewrite decide_True.
  - split; [exact Hgl|]. intros j Hlj _. split; [by apply Hl|apply Hd].
Qed.

(** *** Reading and writing a token *)

Lemma token_byte_run s fl b i r k :
  run_owned s fl b i r → token_byte (pm_of s) (run_token s i r k) = md_token (run_meta s i r) k.
Proof. intros Ho. unfold run_token, run_meta. by destruct (is_medium (pm_of s) i). Qed.

(** Every region of a medium run has a token. *)
Lemma medium_token_range s fl b i r k :
  0 ≤ ab_index b < 40 → run_owned s fl b i r → 0 ≤ k < md_count (run_meta s i r) →
  is_medium (pm_of s) i = true → 0 ≤ k < 51.
Proof.
  intros Hi Ho Hk Hm. rewrite (run_owned_medium _ _ _ _ _ Ho) in Hm. apply negb_true_iff, Z.leb_gt in Hm.
  pose proof (ro_count _ _ _ _ _ Ho) as (_ & Hf). rewrite (proj2 (Z.leb_gt _ _)) in Hf by done.
  destruct (class_bin _ Hi) as (j & Ej & _ & _ & Hc). destruct (Hc Hm) as (_ & _ & _ & H51).
  destruct Hf as (Hf & _). unfold index_rsize, index_bin in Hf. rewrite Ej in Hf. simpl in Hf. lia.
Qed.

Lemma retoken_intro s lg p' fl ml b i r k v :
  pool_inv s fl ml → 0 ≤ ab_index b < 40 → run_owned s fl b i r → 0 ≤ k < md_count (run_meta s i r) →
  p' = (if is_medium (pm_of s) i
        then upd_med (meta_addr s i r) (λ m, set_mm_tokens (updZ (mm_tokens m) k v) m) (pm_of s)
        else upd_small (meta_addr s i r) (λ m, set_sm_tokens (<[k := v]> (sm_tokens m)) m) (pm_of s)) →
  retoken s (set_es_pst {| mem := p'; log := lg |} s) fl i r k v.
Proof.
  intros Hp Hi Ho Hk Ep. set (s' := set_es_pst {| mem := p'; log := lg |} s).
  pose proof (run_owned_busy _ _ _ _ _ Ho) as Hb.
  assert (pm_head p' = pm_head (pm_of s) ∧ pm_meta p' = pm_meta (pm_of s) ∧ pm_desc p' = pm_desc (pm_of s))
    as (Eh & Em & Ed) by (rewrite Ep; by destruct (is_medium (pm_of s) i)).
  assert (∀ j, desc_of (pm_of s') j = desc_of (pm_of s) j) as Hdj.
  { intros j. unfold desc_of, desc_at, ext_addr. change (pm_of s') with p'. by rewrite Eh, Ed. }
  assert (∀ j q, is_medium (pm_of s') j = is_medium (pm_of s) j ∧ meta_addr s' j q = meta_addr s j q) as Hma.
  { intros j q. unfold meta_addr, is_medium, run_at, ext_at. by rewrite !Hdj. }
  destruct (is_medium (pm_of s) i) eqn:Emi.
  - pose proof (medium_token_range s fl b i r k Hi Ho Hk Emi) as Hk51.
    constructor; try done; change (pm_of s') with p'.
    + intros a. rewrite Ep. destruct (decide (meta_addr s i r = a)) as [<-|Hne];
        [by rewrite med_at_upd_eq|by rewrite med_at_upd_ne].
    + intros a. rewrite Ep. destruct (decide (meta_addr s i r = a)) as [<-|Hne];
        [rewrite med_at_upd_eq; simpl; rewrite lenZ_updZ|rewrite med_at_upd_ne by done]; apply Hp.
    + intros j q Hbj Hhj Hne. unfold run_meta. destruct (Hma j q) as [-> ->]. change (pm_of s') with p'.
      rewrite Ep. destruct (is_medium (pm_of s) j) eqn:Emj; [|done]. f_equal. apply med_at_upd_ne. intros He. apply Hne.
      unfold meta_addr in He. rewrite Emi, Emj in He. symmetry in He.
      apply (medium_meta_inj (pm_of s) fl ml j i q r (pi_ext _ _ _ Hp)); try done; [apply Hbj|apply Hb| |];
        by eapply medium_busy_range.
    + unfold run_meta. destruct (Hma i r) as [-> ->]. rewrite Emi. change (pm_of s') with p'. rewrite Ep.
      simpl. by rewrite med_at_upd_eq.
    + intros m. unfold run_meta. destruct (Hma i r) as [-> ->]. rewrite Emi. change (pm_of s') with p'. rewrite Ep.
      simpl. rewrite med_at_upd_eq. simpl. rewrite nthZ_updZ by (rewrite (pi_tokens _ _ _ Hp); lia).
      repeat case_decide; congruence.
  - constructor; try done; change (pm_of s') with p'.
    + intros a. by rewrite Ep.
    + intros a. rewrite Ep. apply Hp.
    + intros j q Hbj Hhj Hne. unfold run_meta. destruct (Hma j q) as [-> ->]. change (pm_of s') with p'.
      rewrite Ep. destruct (is_medium (pm_of s) j) eqn:Emj; [done|]. f_equal. apply small_at_upd_ne. intros He. apply Hne.
      unfold meta_addr in He. rewrite Emi, Emj in He. symmetry in He. by apply (run_at_inj s fl ml j i q r).
    + unfold run_meta. destruct (Hma i r) as [-> ->]. rewrite Emi. change (pm_of s') with p'. rewrite Ep.
      simpl. by rewrite small_at_upd_eq.
    + intros m. unfold run_meta. destruct (Hma i r) as [-> ->]. rewrite Emi. change (pm_of s') with p'. rewrite Ep.
      simpl. rewrite small_at_upd_eq. unfold small_token. simpl. case_decide as Hd.
      * subst m. by rewrite lookup_insert_eq.
      * by rewrite lookup_insert_ne.
Qed.

(** An operation on the persistent memory. *)
Definition apm {A} (m : M pst A) : M arena_st A := rnm (exm (pm m)).
Definition with_pst (y : arena_st) (p : pmem) (lg : list (pev loc val)) : arena_st :=
  with_ext y (set_es_pst {| mem := p; log := lg |} (ext_of y)).

Lemma wp_apm {A} (m : M pst A) Q y :
  wp m (λ a z, Q a (with_pst y (mem z) (log z))) (es_pst (ext_of y)) → wp (apm m) Q y.
Proof.
  intros Hm. unfold apm, rnm. apply wp_zoom, wp_exm, wp_pm. eapply wp_mono; [exact Hm|].
  intros a [p lg] HQ. exact HQ.
Qed.

Lemma with_pst_id y : with_pst y (mem (es_pst (ext_of y))) (log (es_pst (ext_of y))) = y.
Proof. by destruct y as [[[[? ?] ? ?] ? ?] ?]. Qed.

Lemma cell_token_some y fl ml i r k :
  arenas_inv y fl ml → gaused y fl (Cell i r k) →
  ∃ v, cell_token (ext_of y) (Cell i r k) = Some v ∧
    token_byte (pm_of (ext_of y)) (run_token (ext_of y) i r k) = Some v.
Proof.
  intros Hy (n & idx & b & Hb & Ho & Hk & _). destruct (bin_facts y fl ml n idx b Hy Hb) as (Hi & _).
  pose proof (ai_index _ _ _ Hi) as Hidx. rewrite (token_byte_run _ fl b i r k Ho). cbn [cell_token].
  assert (is_Some (md_token (run_meta (ext_of y) i r) k)) as [v Hv]; [|by exists v].
  pose proof (medium_token_range _ fl b i r k Hidx Ho Hk) as H51. unfold run_meta in *.
  destruct (is_medium (pm_of (ext_of y)) i); simpl; [|by eexists].
  apply nthZ_is_Some. rewrite (pi_tokens _ _ _ (rv_pool _ _ _ (av_runs _ _ _ Hy))). by apply H51.
Qed.

Lemma arenas_retoken_refl y fl t v : cell_token (ext_of y) t = Some v → arenas_retoken y y fl t v.
Proof. intros Ht. by constructor. Qed.

(** The store of a token; the log does not matter. *)
Lemma wp_st_token y fl ml i r k v Q :
  arenas_inv y fl ml → gaused y fl (Cell i r k) →
  (∀ p lg, (∀ lg', arenas_inv (with_pst y p lg') fl ml ∧
     arenas_retoken y (with_pst y p lg') fl (Cell i r k) v) → Q tt {| mem := p; log := lg |}) →
  wp (st_token (run_token (ext_of y) i r k) v) Q (es_pst (ext_of y)).
Proof.
  intros Hy Hg HQ. pose proof Hg as (n & idx & b & Hb & Ho & Hk & _).
  destruct (bin_facts y fl ml n idx b Hy Hb) as (Hi & _). pose proof (ai_index _ _ _ Hi) as Hidx.
  destruct (es_pst (ext_of y)) as [p0 lg0] eqn:E. assert (pm_of (ext_of y) = p0) as Ep0 by (unfold pm_of; by rewrite E).
  unfold run_token, st_token. destruct (is_medium (pm_of (ext_of y)) i) eqn:Em; [unfold st_med|]; apply wp_store;
    intros lg; apply HQ; intros lg'; eapply retoken_arenas; try done;
    (eapply retoken_intro; [apply Hy|exact Hidx|exact Ho|exact Hk|]); rewrite Em, Ep0; reflexivity.
Qed.

Lemma wp_token_end r persist (Q : unit → pst → Prop) z :
  (∀ lg, Q tt {| mem := mem z; log := lg |}) →
  wp (if kEnhancedADR then persist_wait_finish else mwhen persist (wait_write_back (token_line r))) Q z.
Proof.
  intros HQ. change kEnhancedADR with false. cbv iota. destruct persist; cbn [mwhen].
  - unfold wait_write_back, persist_write_back, persist_wait_finish. wp_step. wp_step. wp_step. apply HQ.
  - wp_step. destruct z. apply HQ.
Qed.

Lemma wp_ld_token r v (Q : Z → pst → Prop) z : token_byte (mem z) r = Some v → Q v z → wp (ld_token r) Q z.
Proof. intros Hv HQ. unfold ld_token. wp_step. wp_step. wp_step; [exact Hv|done]. Qed.

Lemma wp_arenas_fire y fl ml i r k persist Q :
  arenas_inv y fl ml → gaused y fl (Cell i r k) →
  (∀ y', arenas_inv y' fl ml → arenas_retoken y y' fl (Cell i r k) kFreeCode → Q tt y') →
  wp (apm (token_fire (run_token (ext_of y) i r k) persist)) Q y.
Proof.
  intros Hy Hg HQ. destruct (cell_token_some y fl ml i r k Hy Hg) as (v & Hv & Hb).
  apply wp_apm. unfold token_fire. wp_step. apply (wp_ld_token _ v); [exact Hb|].
  destruct (Z.eqb_spec v kFreeCode) as [->|Hne].
  - wp_step. rewrite with_pst_id. apply HQ; [done|by apply arenas_retoken_refl].
  - wp_step. apply (wp_st_token y fl ml); [done|done|]. intros p lg Hend. apply wp_token_end. intros lg'.
    by apply HQ; apply Hend.
Qed.

Lemma wp_arenas_hire y fl ml i r k mode tag persist Q :
  arenas_inv y fl ml → gaused y fl (Cell i r k) → cell_token (ext_of y) (Cell i r k) = Some kFreeCode →
  tag ≤ kMarkBits →
  (∀ y', arenas_inv y' fl ml → arenas_retoken y y' fl (Cell i r k) (hire_code mode tag) → Q tt y') →
  wp (apm (token_hire (run_token (ext_of y) i r k) mode tag persist)) Q y.
Proof.
  intros Hy Hg Hf Htag HQ. destruct (cell_token_some y fl ml i r k Hy Hg) as (v & Hv & Hb).
  assert (v = kFreeCode) as -> by congruence.
  apply wp_apm. unfold token_hire. wp_step. apply (wp_ld_token _ kFreeCode); [exact Hb|].
  wp_step. wp_step; [rewrite Z.eqb_refl; by apply Z.leb_le|].
  wp_step. apply (wp_st_token y fl ml); [done|done|]. intros p lg Hend. apply wp_token_end. intros lg'.
  by apply HQ; apply Hend.
Qed.

(** [region_t::busy] reads the token. *)
Lemma wp_region_busy y fl ml i r k Q :
  arenas_inv y fl ml → gaused y fl (Cell i r k) →
  (∀ v, cell_token (ext_of y) (Cell i r k) = Some v → Q (token_busy v) y) →
  wp (apm (region_busy (cell_region (ext_of y) (Cell i r k)))) Q y.
Proof.
  intros Hy Hg HQ. destruct (cell_token_some y fl ml i r k Hy Hg) as (v & Hv & Hb).
  apply wp_apm. unfold region_busy. wp_step. wp_step; [reflexivity|]. wp_step.
  apply (wp_ld_token _ v); [exact Hb|]. wp_step. rewrite with_pst_id. by apply HQ.
Qed.
End lemmas.
