(* ===== verification/ObjSpec.v ===== *)
(** * Objects

    An object is a region that the arenas have handed out, small or medium, or a
    large region that a run case has handed out.  [objs_step] says what an
    operation does to all objects: which are new, which are gone, and that the
    others keep their address, their size and their token. *)

From S2P Require Export TokenSpec.
Import Pmem.

(** ** Definitions *)

Inductive obj := OCell (t : cell) | OLarge (i k : Z).
#[export] Instance obj_eq_dec : EqDecision obj.
Proof. solve_decision. Defined.

(** The region that the caller gets, the size of the object, its token. *)
Definition obj_region (s : ext_st) (o : obj) : region_t :=
  match o with
  | OCell t => cell_region s t
  | OLarge i k => region (Some (TLarge (ext_addr (pm_of s) i) k)) (run_at s i k)
  end.
Definition obj_size (s : ext_st) (o : obj) : Z :=
  match o with OCell t => cell_size s t | OLarge i _ => ed_size (desc_of (pm_of s) i) end.
Definition obj_token (s : ext_st) (o : obj) : option Z :=
  match o with
  | OCell t => cell_token s t
  | OLarge i k => token_byte (pm_of s) (TLarge (ext_addr (pm_of s) i) k)
  end.

(** The object has been handed out by an arena or by a run case. *)
Definition oused (y : arena_st) (fl : list Z) (o : obj) : Prop :=
  match o with
  | OCell t => gaused y fl t
  | OLarge i k => glused (ext_of y) fl (rn_cases (as_run y)) i k
  end.

(** The extent of an object. *)
Definition obj_ext (o : obj) : Z := match o with OCell (Cell i _ _) => i | OLarge i _ => i end.

Definition obj_same (s s' : ext_st) (o : obj) : Prop :=
  obj_region s' o = obj_region s o ∧ obj_size s' o = obj_size s o ∧ obj_token s' o = obj_token s o.

(** The objects [N] are new, the objects [D] are gone. *)
Record objs_step (y y' : arena_st) (fl fl' : list Z) (N D : list obj) : Prop := {
  os_pool : same_pool (ext_of y) (ext_of y');
  os_arenas : same_arenas y y';
  os_fresh : ∀ o, o ∈ N → ¬ oused y fl o;
  os_used : ∀ o, oused y' fl' o ↔ o ∈ N ∨ oused y fl o ∧ o ∉ D;
  os_same : ∀ o, oused y fl o → o ∉ D → obj_same (ext_of y) (ext_of y') o;
}.

(** ** Lemmas *)

Section lemmas.
Context `{UtilSpec} `{UnorderedMapSpec}.
Implicit Types (s : ext_st) (x : run_st) (y : arena_st) (fl ml : list Z) (b : ArenaBin) (t u : cell) (o : obj).

Lemma obj_same_refl s o : obj_same s s o.
Proof. done. Qed.
Lemma obj_same_trans s1 s2 s3 o : obj_same s1 s2 o → obj_same s2 s3 o → obj_same s1 s3 o.
Proof. intros (?&?&?) (?&?&?). unfold obj_same. split_and!; congruence. Qed.

Lemma objs_step_refl y fl : objs_step y y fl fl [] [].
Proof.
  constructor; try done.
  - intros o Ho. by apply not_elem_of_nil in Ho.
  - intros o. rewrite elem_of_nil. tauto.
Qed.

(** *** Small and medium regions *)

Lemma large_obj_kept y y' fl fl' i k :
  same_pool (ext_of y) (ext_of y') → large_kept (as_run y) (as_run y') fl fl' → oused y fl (OLarge i k) →
  obj_same (ext_of y) (ext_of y') (OLarge i k).
Proof.
  intros Hs [_ Hl] (z & c & j & b & _ & _ & Hli & (Ht & _) & _). destruct (Hl i Hli Ht) as [_ Hd].
  change (rn_ext (as_run y')) with (ext_of y') in Hd. change (rn_ext (as_run y)) with (ext_of y) in Hd.
  destruct (same_pool_addr _ _ i 0 Hs) as (Ea & _ & Ee). unfold obj_same. cbn [obj_region obj_size obj_token].
  unfold run_at, token_byte. rewrite Ea, Ee, Hd. split; [done|]. split; [done|].
  unfold desc_of in Hd. rewrite Ea in Hd. by rewrite Hd.
Qed.

Lemma OCell_elem t (L : list cell) : OCell t ∈ OCell <$> L ↔ t ∈ L.
Proof. rewrite list_elem_of_fmap. split; [by intros (? & [= ->] & ?)|by exists t]. Qed.
Lemma OLarge_elem i k (L : list cell) : OLarge i k ∉ OCell <$> L.
Proof. rewrite list_elem_of_fmap. by intros (? & ? & _). Qed.

Lemma filled_objs y y' fl fl' L : arenas_filled y y' fl fl' L → objs_step y y' fl fl' (OCell <$> L) [].
Proof.
  intros [h1 h2 h3 h4 h5 h6 h7 h8]. constructor; [done|done| | |].
  - intros o (t & -> & Ht)%list_elem_of_fmap. by apply h4.
  - intros [t|i k]; simpl.
    + rewrite h5, OCell_elem, elem_of_nil. tauto.
    + destruct h8 as [Hg _]. rewrite Hg, elem_of_nil. pose proof (OLarge_elem i k L). tauto.
  - intros [t|i k] Hu _; [by apply h6|by apply (large_obj_kept y y' fl fl')].
Qed.

Lemma spilled_objs y y' fl fl' L : arenas_spilled y y' fl fl' L → objs_step y y' fl fl' [] (OCell <$> L).
Proof.
  intros [h1 h2 h3 h4 h5]. constructor; [done|done| | |].
  - intros o Ho. by apply not_elem_of_nil in Ho.
  - intros [t|i k]; simpl.
    + rewrite h3, OCell_elem, elem_of_nil. tauto.
    + destruct h5 as [Hg _]. rewrite Hg, elem_of_nil. pose proof (OLarge_elem i k L). tauto.
  - intros [t|i k] Hu Hn; [apply h4; [done|by rewrite <-OCell_elem]|by apply (large_obj_kept y y' fl fl')].
Qed.

(** *** Large regions *)

(** A step on the large regions of the extent [i] and the runs. *)
Lemma large_arenas y fl ml s' fl' ml' cs' i :
  arenas_inv y fl ml → pool_inv s' fl' ml' → large_frame (ext_of y) s' fl fl' cs' i →
  lenZ cs' = lenZ (rn_cases (as_run y)) →
  let y' := set_as_run {| rn_ext := s'; rn_cases := cs'; rn_sc := rn_sc (as_run y) |} y in
  arenas_inv y' fl' ml' ∧ same_arenas y y' ∧ (∀ t, gaused y' fl' t ↔ gaused y fl t) ∧
  ∀ t, gaused y fl t → cell_same (ext_of y) (ext_of y') t.
Proof.
  intros Hy Hp' [Hs Hcs Hb Hk Hl] Hlen y'.
  assert (∀ b j r, run_owned (ext_of y) fl b j r → run_same (ext_of y) s' fl' j r) as Hkb.
  { intros b j r Ho. apply Hk; [by eapply run_owned_runs|by eapply run_owned_busy]. }
  assert (∀ b j r, run_owned s' fl' b j r → run_owned (ext_of y) fl b j r) as Hbk.
  { intros b j r Ho. destruct (Hb j r) as [Hr Hbs]; [by eapply run_owned_runs|by eapply run_owned_busy|].
    apply (run_same_owned (ext_of y) s' fl fl' b j r); [by apply Hk|done|done]. }
  split; [|split; [split; [done|split; [done|apply Hs]]|split]].
  - constructor.
    + constructor; [done|done|apply (av_runs _ _ _ Hy)].
    + eapply segs_apart_same; [exact Hs|apply (av_apart _ _ _ Hy)].
    + cbn. rewrite Hlen. apply (av_arena _ _ _ Hy).
    + intros n a idx b Ha Hbn. destruct (av_bin _ _ _ Hy n a idx b Ha Hbn) as (Hi & Hrest).
      split; [|done]. by apply (ab_inv_kept (ext_of y) s' fl fl' b); [|apply Hkb|].
  - intros [j r k]. split; intros (n & idx & b & Hbn & Hu); exists n, idx, b; (split; [exact Hbn|]); simpl in *.
    + apply (aused_kept (ext_of y) s' fl fl' b); [done|apply Hkb|apply Hbk, Hu|done].
    + apply (aused_kept (ext_of y) s' fl fl' b); [done|apply Hkb|apply Hu|done].
  - intros [j r k] (n & idx & b & Hbn & (Ho & _)). apply (run_same_cell _ _ fl'); [done|by apply (Hkb b)].
Qed.

Lemma large_objs y y' fl fl' (N D : list obj) :
  same_pool (ext_of y) (ext_of y') → same_arenas y y' → (∀ t, gaused y' fl' t ↔ gaused y fl t) →
  (∀ t, gaused y fl t → cell_same (ext_of y) (ext_of y') t) →
  (∀ t, OCell t ∉ N ∧ OCell t ∉ D) → (∀ j m, OLarge j m ∈ N → ¬ oused y fl (OLarge j m)) →
  (∀ j m, oused y' fl' (OLarge j m) ↔ OLarge j m ∈ N ∨ oused y fl (OLarge j m) ∧ OLarge j m ∉ D) →
  (∀ j m, oused y fl (OLarge j m) → OLarge j m ∉ D →
     obj_same (ext_of y) (ext_of y') (OLarge j m)) →
  objs_step y y' fl fl' N D.
Proof.
  intros Hs Ha Hg Hc Hno Hf Hu Hl. constructor; [done|done| | |].
  - intros [t|j m] Ho; [by destruct (Hno t)|by apply Hf].
  - intros [t|j m]; [|apply Hu]. simpl. rewrite Hg. destruct (Hno t). tauto.
  - intros [t|j m] Hx Hd; [by apply Hc|by apply Hl].
Qed.

Lemma large_obj_live y fl i k :
  oused y fl (OLarge i k) → live (pm_of (ext_of y)) fl i ∧ ed_type (desc_of (pm_of (ext_of y)) i) = kLarge.
Proof. intros (z & c & j & b & _ & _ & Hl & (Ht & _) & _). done. Qed.

Lemma wp_arenas_large_acquire y fl ml n a size (E : error → Prop) Q :
  arenas_inv y fl ml → nthZ (as_arenas y) n = Some a → kMaxMediumSize < size ≤ kMaxLargeSize →
  (∀ c, nthZ (rn_cases (as_run y)) (ar_rcase a) = Some c →
     case_no_large (ext_of y) fl c (large_bid size) → E EAssert) →
  (∀ y' fl' ml' i k, let o := OLarge i k in arenas_inv y' fl' ml' → objs_step y y' fl fl' [o] [] →
     as_arenas y' = as_arenas y →
     size ≤ obj_size (ext_of y') o → obj_token (ext_of y') o = Some kFreeCode →
     Q (obj_region (ext_of y') o) y') →
  wp_e (on_arena n (λ a, r ← Arena_large_acquire a size; mret (a, r))) E Q y.
Proof.
  intros Hy Ha Hsz Hno HQ. pose proof (av_runs _ _ _ Hy) as Hx.
  destruct (av_arena _ _ _ Hy n a Ha) as (_ & _ & _ & Hr & _).
  destruct (nthZ_is_Some (rn_cases (as_run y)) (ar_rcase a) Hr) as [c Hc].
  apply (wp_e_on_arena n a); [done|]. unfold Arena_large_acquire. apply wp_e_bind.
  apply wp_e_bind, wp_e_wp, wp_assert; [apply Z.ltb_lt; lia|].
  apply wp_e_bind, wp_e_wp, wp_assert; [apply Z.leb_le; lia|].
  unfold on_case. apply wp_e_bind, wp_e_wp, wp_gets. apply wp_e_bind, wp_e_wp. eapply wp_deref; [exact Hc|].
  apply wp_e_bind, wp_e_zoom.
  apply (wp_e_case_large_acquire _ fl ml (rn_cases (as_run y)) (ar_rcase a)); [apply Hx|apply Hx|done|done|by apply Hno|].
  intros s' fl' ml' c' i k Hp' Hg. cbv beta iota. apply wp_e_wp. wp_step. wp_step. wp_step. apply wp_e_wp. wp_step.
  cbn [fst snd]. rewrite (updZ_id (as_arenas y)) by done.
  destruct (large_arenas y fl ml s' fl' ml' _ i Hy Hp' (gl_frame _ _ _ _ _ _ _ _ _ _ Hg) (lenZ_updZ _ _ _))
    as (Hy' & Hsa & Hgu & Hcs). set (y' := set_as_run _ y) in *.
  destruct (gl_desc _ _ _ _ _ _ _ _ _ _ Hg) as (_ & _ & Es).
  apply (HQ y' fl' ml' i k); [done| |reflexivity| |apply (gl_token _ _ _ _ _ _ _ _ _ _ Hg)].
  - apply (large_objs y y' fl fl'); try done.
    + apply Hg.
    + intros t. split; [by intros ?%list_elem_of_singleton|apply not_elem_of_nil].
    + intros j m [= -> ->]%list_elem_of_singleton. apply (gl_free _ _ _ _ _ _ _ _ _ _ Hg).
    + intros j m. etransitivity; [apply (gl_used _ _ _ _ _ _ _ _ _ _ Hg j m)|].
      rewrite list_elem_of_singleton, elem_of_nil. 
      split; [intros [[-> ->]|Hu]; [by left|right; split; [exact Hu|tauto]]|].
      intros [[= -> ->]|[Hu _]]; [by left|right; exact Hu].
    + intros j m Hu _. destruct (large_obj_live y fl j m Hu) as [Hl Ht].
      assert (desc_of (pm_of s') j = desc_of (pm_of (ext_of y)) j) as Hd.
      { destruct (decide (j = i)) as [->|Hne]; [by apply (gl_keep _ _ _ _ _ _ _ _ _ _ Hg)|].
        by apply (lf_ldesc _ _ _ _ _ _ (gl_frame _ _ _ _ _ _ _ _ _ _ Hg)). }
      destruct (same_pool_addr _ _ j 0 (lf_pool _ _ _ _ _ _ (gl_frame _ _ _ _ _ _ _ _ _ _ Hg))) as (Ea & _ & Ee).
      unfold obj_same. cbn. unfold run_at, token_byte, ext_of in *. cbn in *. rewrite Ea, Ee, Hd. split; [done|].
      split; [done|]. unfold desc_of in Hd. rewrite Ea in Hd. by rewrite Hd.
  - cbn. unfold ext_of. cbn. rewrite Es. by apply large_bid_ok.
Qed.

(** The address of a large region. *)
Lemma large_obj_addr y fl ml i k :
  arenas_inv y fl ml → oused y fl (OLarge i k) →
  let s := ext_of y in let sz := ed_size (desc_of (pm_of s) i) in
  kMaxMediumSize < sz ≤ kMaxLargeSize ∧ 0 ≤ k * sz ∧ k * sz + sz ≤ kExtentSize ∧ run_at s i k mod sz = 0 ∧
  0 ≤ i < ext_total_ (pm_head (pm_of s)) ∧ 0 < run_at s i k ∧
  0 ≤ ed_rcase (desc_of (pm_of s) i) < lenZ (rn_cases (as_run y)).
Proof.
  intros Hy Hu s sz. pose proof (av_runs _ _ _ Hy) as Hx. pose proof (rv_pool _ _ _ Hx) as Hp.
  destruct Hu as (z & c & j & b & Hz & Hj & Hl & (Et & Er & Es) & Hk & _).
  destruct (rv_cases _ _ _ Hx z c Hz) as [Hc Ez]. destruct (ci_lbin _ _ _ Hc j b Hj) as (Hb & Erc & Esz & _).
  pose proof (lcount_range _ _ _ Hb) as (Hct & Hbs & Hmul).
  pose proof (nthZ_Some _ _ _ Hz) as Hzr. pose proof (nthZ_Some _ _ _ Hj) as Hjr.
  rewrite (ci_nl _ _ _ Hc) in Hjr. destruct (large_bid_lsize j Hjr) as (_ & Hls & _).
  simpl in Et, Er, Es. subst sz s. unfold ext_of in *. set (s := rn_ext (as_run y)) in *. rewrite Es, Er, Erc, Ez.
  split; [by rewrite Esz|]. split; [nia|]. split; [nia|].
  destruct (pi_file _ _ _ Hp) as (Hst & Hal & _). pose proof (live_range _ fl ml i Hp Hl) as Hi.
  unfold run_at, ext_at, ext_base. rewrite Es. split; [|split; [done|split; [|done]]].
  - apply Z.mod_divide in Hal as [q Hq]; [|done]. rewrite Hq, Hmul.
    replace (q * (lcount b * lbin_size b) + i * (lcount b * lbin_size b) + k * lbin_size b)
      with ((q * lcount b + i * lcount b + k) * lbin_size b) by lia. apply Z.mod_mul. lia.
  - unfold extents. change kRootSegSize with 8192. change kExtentSize with 4194304. nia.
Qed.

Lemma wp_arenas_large_release y fl ml i k Q :
  arenas_inv y fl ml → oused y fl (OLarge i k) →
  (∀ y' fl' ml', arenas_inv y' fl' ml' → objs_step y y' fl fl' [] [OLarge i k] →
     as_arenas y' = as_arenas y → Q tt y') →
  let s := ext_of y in
  wp (th_large_release (ext_addr (pm_of s) i) (desc_of (pm_of s) i) (run_at s i k) false) Q y.
Proof.
  intros Hy Hu HQ s. pose proof (av_runs _ _ _ Hy) as Hx.
  destruct (large_obj_addr y fl ml i k Hy Hu) as (Hsz & Ho & Hoe & Hmod & Hi & Hpos & Hr). fold s in Hsz, Ho, Hoe, Hmod, Hi, Hpos, Hr.
  destruct (large_obj_live y fl i k Hu) as [Hl Ht]. fold s in Hl, Ht. change kMaxMediumSize with 65536 in Hsz.
  destruct (nthZ_is_Some _ _ Hr) as [c Hc]. unfold th_large_release.
  rewrite (proj2 (Z.eqb_neq (ed_size (desc_of (pm_of s) i)) 0)) by lia. wp_step.
  wp_step; [by rewrite Ht, Hmod|]. unfold rnm. wp_step. apply (wp_on_case _ _ c); [done|].
  unfold no_result. wp_step.
  apply (wp_case_large_release _ fl ml (rn_cases (as_run y)) (ed_rcase (desc_of (pm_of s) i)));
    [apply Hx|apply Hx|done|exact Hu|done|].
  intros s' fl' ml' c' Hp' Hg. wp_step. cbn [fst snd].
  destruct (large_arenas y fl ml s' fl' ml' _ i Hy Hp' (vl_frame _ _ _ _ _ _ _ _ Hg) (lenZ_updZ _ _ _))
    as (Hy' & Hsa & Hgu & Hcs). set (y' := set_as_run _ y) in *.
  assert (∀ j m, oused y' fl' (OLarge j m) ↔ oused y fl (OLarge j m) ∧ ¬ (j = i ∧ m = k)) as Hus
    by exact (vl_used _ _ _ _ _ _ _ _ Hg).
  apply (HQ y' fl' ml'); [done| |done]. pose proof (lf_pool _ _ _ _ _ _ (vl_frame _ _ _ _ _ _ _ _ Hg)) as Hsp.
  apply (large_objs y y' fl fl'); try done.
  - intros t. split; [apply not_elem_of_nil|by intros ?%list_elem_of_singleton].
  - intros j m Hn. by apply not_elem_of_nil in Hn.
  - intros j m. rewrite Hus, list_elem_of_singleton, elem_of_nil. split.
    + intros [Hj Hne]. right. split; [done|]. intros [= -> ->]. by apply Hne.
    + intros [[]|[Hj Hne]]. split; [done|]. intros [-> ->]. by apply Hne.
  - intros j m Hj Hne. rewrite list_elem_of_singleton in Hne. destruct (large_obj_live y fl j m Hj) as [Hlj Htj].
    destruct (same_pool_addr _ _ j 0 Hsp) as (Ea & _ & Ee). fold s in Ea, Ee, Hsp.
    unfold obj_same. cbn [obj_region obj_size obj_token]. unfold run_at. change (ext_of y') with s'. fold s.
    rewrite Ea, Ee. destruct (decide (j = i)) as [->|Hji].
    + assert (live (pm_of s') fl' i) as Hl'.
      { destruct (large_obj_live y' fl' i m) as [Hl' _]; [|exact Hl']. apply Hus. split; [done|].
        intros [_ ->]. by apply Hne. }
      destruct (vl_size _ _ _ _ _ _ _ _ Hg Hl') as [_ Es]. change (rn_ext (as_run y)) with s in Es. rewrite Es.
      split; [done|]. split; [done|]. apply (vl_token _ _ _ _ _ _ _ _ Hg Hl'). intros ->. by apply Hne.
    + destruct (lf_ldesc _ _ _ _ _ _ (vl_frame _ _ _ _ _ _ _ _ Hg) j Hji Hlj) as [_ Hd].
      change (rn_ext (as_run y)) with s in Hd. rewrite Hd. split; [done|]. split; [done|].
      unfold token_byte. unfold desc_of in Hd. rewrite Ea in Hd. by rewrite Hd.
Qed.

(** *** The descriptor of an object *)

Lemma gaused_owned y fl ml i r k :
  arenas_inv y fl ml → gaused y fl (Cell i r k) →
  ∃ n idx b, bin_of y n idx b ∧ ab_inv (ext_of y) fl b ∧ ab_arena b = n ∧ ab_index b = idx ∧
    run_owned (ext_of y) fl b i r ∧ 0 ≤ k < md_count (run_meta (ext_of y) i r) ∧
    cell_size (ext_of y) (Cell i r k) = index2size_compute idx.
Proof.
  intros Hy (n & idx & b & Hb & Ho & Hk & _). destruct (bin_facts y fl ml n idx b Hy Hb) as (Hi & En & Ei & _).
  exists n, idx, b. split; [done|]. split; [done|]. split; [done|]. split; [done|]. split; [done|]. split; [done|].
  rewrite <-Ei. apply (ro_size _ _ _ _ _ Ho).
Qed.

Lemma obj_pointer y fl ml o :
  arenas_inv y fl ml → oused y fl o →
  let p := reg_pointer (obj_region (ext_of y) o) in
  0 < p ∧ 0 ≤ p - ext_at (ext_of y) (obj_ext o) < kExtentSize ∧
  0 ≤ obj_ext o < ext_total_ (pm_head (pm_of (ext_of y))).
Proof.
  intros Hy Hu p. pose proof (rv_pool _ _ _ (av_runs _ _ _ Hy)) as Hp. destruct o as [[i r k]|i k].
  - destruct (gaused_owned y fl ml i r k Hy Hu) as (n & idx & b & _ & Hb & _ & _ & Ho & Hk & _).
    destruct (cell_rounddown _ fl ml b i r k Hp (ai_index _ _ _ Hb) Ho Hk) as (Hptr & _ & _ & Hoff).
    split; [apply Hptr|]. split; [exact Hoff|]. apply (live_range _ fl ml i Hp).
    apply (run_owned_busy _ _ _ _ _ Ho).
  - destruct (large_obj_addr y fl ml i k Hy Hu) as (Hsz & Ho & Hoe & _ & Hi & Hpos & _).
    split; [exact Hpos|]. split; [|exact Hi]. subst p. cbn [obj_region reg_pointer obj_ext]. unfold run_at.
    change kMaxMediumSize with 65536 in Hsz. lia.
Qed.

Lemma wp_obj_descriptor y fl ml o Q :
  arenas_inv y fl ml → oused y fl o → Q (ext_addr (pm_of (ext_of y)) (obj_ext o)) y →
  wp (rnm (exm (descriptor (reg_pointer (obj_region (ext_of y) o))))) Q y.
Proof.
  intros Hy Hu HQ. destruct (obj_pointer y fl ml o Hy Hu) as (_ & Hoff & Hi).
  unfold rnm. apply wp_zoom, wp_exm.
  replace (reg_pointer (obj_region (ext_of y) o)) with
    (ext_at (ext_of y) (obj_ext o) + (reg_pointer (obj_region (ext_of y) o) - ext_at (ext_of y) (obj_ext o))) by lia.
  apply (wp_descriptor _ fl ml); [apply Hy|done|done|]. by destruct y as [[? ? ?] ?].
Qed.

Lemma wp_rnm_ld_desc y a Q : Q (desc_at (pm_of (ext_of y)) a) y → wp (rnm (exm (pm (ld_desc a)))) Q y.
Proof.
  intros HQ. unfold rnm. apply wp_zoom, wp_exm, wp_pm_ld_desc. by destruct y as [[? ? ?] ?].
Qed.

(** The size of an object of the arenas, and where its run has the metadata. *)
Lemma cell_desc y fl ml i r k :
  arenas_inv y fl ml → gaused y fl (Cell i r k) →
  ∃ n idx b, bin_of y n idx b ∧ ab_inv (ext_of y) fl b ∧ ab_arena b = n ∧ ab_index b = idx ∧ 0 ≤ idx < 40 ∧
    run_owned (ext_of y) fl b i r ∧ 0 ≤ k < md_count (run_meta (ext_of y) i r) ∧
    cell_size (ext_of y) (Cell i r k) = index2size_compute idx ∧
    ed_type (desc_of (pm_of (ext_of y)) i) = (if idx <=? 19 then kSmall else kMedium).
Proof.
  intros Hy Hu. destruct (gaused_owned y fl ml i r k Hy Hu) as (n & idx & b & Hbn & Hb & En & Ei & Ho & Hk & Es).
  exists n, idx, b. pose proof (ai_index _ _ _ Hb) as Hi. rewrite Ei in Hi.
  destruct (ro_bin _ _ _ _ _ Ho) as (_ & Et & _). rewrite Ei in Et.
  do 8 (split; [done|]). exact Et.
Qed.

(** *** The bytes of the objects *)

Lemma obj_range y fl ml o :
  arenas_inv y fl ml → oused y fl o →
  let p := reg_pointer (obj_region (ext_of y) o) in
  0 < obj_size (ext_of y) o ∧ ext_at (ext_of y) (obj_ext o) ≤ p ∧
  p + obj_size (ext_of y) o ≤ ext_at (ext_of y) (obj_ext o) + kExtentSize.
Proof.
  intros Hy Hu p. pose proof (rv_pool _ _ _ (av_runs _ _ _ Hy)) as Hp. destruct o as [[i r k]|i k].
  - destruct (gaused_owned y fl ml i r k Hy Hu) as (n & idx & b & _ & Hb & _ & _ & Ho & Hk & _).
    destruct (cell_bounds _ fl b i r k (ai_index _ _ _ Hb) Ho Hk) as (B1 & B2 & B3 & _).
    destruct (busy_offset _ fl ml i r Hp (run_owned_busy _ _ _ _ _ Ho)) as (O1 & O2 & O3 & _).
    subst p. cbn [obj_region obj_size obj_ext cell_region cell_size] in *. unfold run_at, ext_of in *. lia.
  - destruct (large_obj_addr y fl ml i k Hy Hu) as (Hsz & Ho & Hoe & _). subst p.
    cbn [obj_region obj_size obj_ext reg_pointer]. unfold run_at. change kMaxMediumSize with 65536 in Hsz. lia.
Qed.

Lemma objs_disjoint y fl ml o o' :
  arenas_inv y fl ml → oused y fl o → oused y fl o' → o ≠ o' →
  let p := reg_pointer (obj_region (ext_of y) o) in let p' := reg_pointer (obj_region (ext_of y) o') in
  p + obj_size (ext_of y) o ≤ p' ∨ p' + obj_size (ext_of y) o' ≤ p.
Proof.
  intros Hy Hu Hu' Hne p p'. pose proof (rv_pool _ _ _ (av_runs _ _ _ Hy)) as Hp.
  destruct (obj_range y fl ml o Hy Hu) as (_ & R1 & R2). destruct (obj_range y fl ml o' Hy Hu') as (_ & R1' & R2').
  fold p in R1, R2. fold p' in R1', R2'. destruct (decide (obj_ext o = obj_ext o')) as [He|Hx].
  - destruct o as [[i r k]|i k], o' as [[i' r' k']|i' k']; simpl in He; subst i'.
    + destruct (gaused_owned y fl ml i r k Hy Hu) as (n & idx & b & _ & Hb & _ & _ & Ho & Hk & _).
      destruct (gaused_owned y fl ml i r' k' Hy Hu') as (n' & idx' & b' & _ & Hb' & _ & _ & Ho' & Hk' & _).
      apply (cells_disjoint (ext_of y) fl ml b b'); try done; [by eapply ai_index|by eapply ai_index|congruence].
    + destruct (cell_desc y fl ml i r k Hy Hu) as (n & idx & b & _ & _ & _ & _ & _ & _ & _ & _ & Et).
      destruct (large_obj_live y fl i k' Hu') as [_ Et']. rewrite Et' in Et. by destruct (idx <=? 19).
    + destruct (cell_desc y fl ml i r' k' Hy Hu') as (n & idx & b & _ & _ & _ & _ & _ & _ & _ & _ & Et).
      destruct (large_obj_live y fl i k Hu) as [_ Et']. rewrite Et' in Et. by destruct (idx <=? 19).
    + destruct (large_obj_addr y fl ml i k Hy Hu) as (Hsz & _). change kMaxMediumSize with 65536 in Hsz.
      assert (k ≠ k') by congruence. subst p p'. cbn [obj_region obj_size reg_pointer]. unfold run_at.
      destruct (Z.lt_total k k') as [Hlt|[?|Hlt]]; [left|done|right]; nia.
  - unfold ext_at, ext_base in *. change kExtentSize with 4194304 in *.
    destruct (Z.lt_total (obj_ext o) (obj_ext o')) as [Hlt|[?|Hlt]]; [left|done|right]; lia.
Qed.
End lemmas.
