(* ===== verification/PublishSpec.v ===== *)
(** * Tokens of the objects

    [publish] sets the token of an object that has been handed out, small, medium
    or large.  It keeps all invariants of the arenas, and no other object is
    affected. *)

From S2P Require Export ObjSpec.
Import Pmem.

(** ** Definitions *)

(** The token of the object [o] has been set to [v], and nothing else. *)
Record obj_retoken (y y' : arena_st) (fl : list Z) (o : obj) (v : Z) : Prop := {
  ot_pool : same_pool (ext_of y) (ext_of y');
  ot_arenas : same_arenas y y';
  ot_used : ∀ o', oused y' fl o' ↔ oused y fl o';
  ot_same : ∀ o', oused y fl o' → o' ≠ o → obj_same (ext_of y) (ext_of y') o';
  ot_region : obj_region (ext_of y') o = obj_region (ext_of y) o;
  ot_size : obj_size (ext_of y') o = obj_size (ext_of y) o;
  ot_token : obj_token (ext_of y') o = Some v;
}.

(** What the store of a large token changes. *)
Record large_stored (p p' : pmem) (i k v : Z) : Prop := {
  lw_head : pm_head p' = pm_head p;
  lw_meta : pm_meta p' = pm_meta p;
  lw_med : pm_med p' = pm_med p;
  lw_small : pm_small p' = pm_small p;
  lw_other : ∀ a, a ≠ ext_addr p i → desc_at p' a = desc_at p a;
  lw_desc : ∀ ts, ed_union (desc_of p i) = large_ ts →
    desc_of p' i = set_ed_union (large_ (updZ ts k v)) (desc_of p i);
}.

(** ** Lemmas *)

Section lemmas.
Context `{UtilSpec} `{UnorderedMapSpec}.
Implicit Types (s : ext_st) (y : arena_st) (fl ml : list Z) (o : obj).

(** A cell is an object. *)
Lemma cell_retoken y y' fl t v : arenas_retoken y y' fl t v → obj_retoken y y' fl (OCell t) v.
Proof.
  intros [h1 h2 h3 h4 [h5 h5'] h6 h7]. constructor; try done.
  - intros [u|i k]; [apply h3|]. simpl. apply h7.
  - intros [u|i k] Hu Hne; [apply h4; [done|congruence]|]. by apply (large_obj_kept y y' fl fl).
Qed.

(** The bin of the region: its token is not constrained, since it is in use. *)
Lemma large_bin_kept s s' fl ml b i k v ts :
  pool_inv s fl ml → lbin_inv s fl b → lused s fl b i k → bin_step s s' fl fl (as_rbin b) i →
  live (pm_of s') fl i → ed_union (desc_of (pm_of s) i) = large_ ts →
  desc_of (pm_of s') i = set_ed_union (large_ (updZ ts k v)) (desc_of (pm_of s) i) →
  lbin_inv s' fl b ∧ ∀ j m, lused s' fl b j m ↔ lused s fl b j m.
Proof.
  intros Hp Hb Hu Hst Hl' Hts Hd. pose proof Hu as (Hl & Hbi & Hk & Hall).
  destruct (same_pool_addr s s' i 0 (bs_same _ _ _ _ _ _ Hst)) as (Eaddr & _ & Eext).
  assert (same_lbin b b) as Hsb by done. split.
  - eapply lbin_inv_step; [exact Hst|done|done|done|].
    destruct (lbin b true !! ext_at s i) as [bits|] eqn:Et, (lbin b false !! ext_at s i) as [bits'|] eqn:Ef.
    { destruct (li_disj _ _ _ Hb (ext_at s i)); congruence. }
    3: { right. intros []; done. }
    all: left.
    1: exists true, bits. 2: exists false, bits'.
    all: (destruct (li_map _ _ _ Hb _ _ _ ltac:(eassumption)) as (j & _ & _ & Ej & [k1 k2 k3 k4 k5 k6] & Ha);
      apply (ext_base_inj (es_file s)) in Ej; subst j; split; [done|]; split; [|done]).
    all: (constructor; rewrite ?Eaddr, ?Eext; try done; intros m Hm Hf).
    all: (assert (m ≠ k) as Hmk by (intros ->; rewrite (Hall _ _ ltac:(eassumption)) in Hf; done)).
    all: specialize (k6 m Hm Hf); unfold token_byte in *; unfold desc_of in Hts, Hd; rewrite Eaddr in Hd;
      rewrite Hts in k6; rewrite Hd; simpl; by rewrite nthZ_updZ_ne.
  - intros j m. destruct (decide (j = i)) as [->|Hj]; [|by apply (lused_step s s' fl fl (as_rbin b) b b i)].
    unfold lused. rewrite Eext. split; intros (_ & _ & Hm & Hx); (split; [done|]; split; [|done]);
      [done|apply (bs_after _ _ _ _ _ _ Hst Hl')].
Qed.

(** The same for the pool, the run cases and the arenas. *)
Lemma large_retoken y fl ml p' lg i k v :
  arenas_inv y fl ml → oused y fl (OLarge i k) → 0 ≤ v < 256 → large_stored (pm_of (ext_of y)) p' i k v →
  arenas_inv (with_pst y p' lg) fl ml ∧ obj_retoken y (with_pst y p' lg) fl (OLarge i k) v.
Proof.
  intros Hy Hg Hv [Hh Hm Hmed Hsm Hoth Hdesc]. pose proof (av_runs _ _ _ Hy) as Hx.
  pose proof (rv_pool _ _ _ Hx) as Hp. pose proof (rv_cases _ _ _ Hx) as Hcs.
  change (rn_ext (as_run y)) with (ext_of y) in Hp, Hcs. set (cs := rn_cases (as_run y)) in *.
  set (s := ext_of y) in *. set (s' := set_es_pst {| mem := p'; log := lg |} s).
  pose proof Hg as (x & c & j & b & Hxc & Hj & Hu). fold s cs in Hxc, Hj, Hu. pose proof Hu as (Hl & Hbi & Hk & _).
  destruct (Hcs x c Hxc) as [Hc Ec]. destruct (ci_lbin _ _ _ Hc j b Hj) as (Hb & Er & Es & Em).
  destruct (large_desc s fl ml b i Hp Hl Hbi) as (Et & _ & Esz & Ect & ts & Hts & Hlen & Hrng).
  specialize (Hdesc ts Hts). pose proof (lcount_range _ _ _ Hb) as (Hct & _).
  assert (ext_addr p' i = ext_addr (pm_of s) i) as Ea by (unfold ext_addr; by rewrite Hh).
  assert (desc_of (pm_of s') i = set_ed_union (large_ (updZ ts k v)) (desc_of (pm_of s) i)) as Hdo by exact Hdesc.
  destruct (tokens_changed s s' fl ml (as_rbin b) i (updZ ts k v)) as [Hp' Hst]; try done.
  { pose proof (inv_live _ _ _ (pi_ext _ _ _ Hp) i Hl) as Hwf. rewrite Hdo. unfold wf_desc in *. simpl.
    rewrite Hts, Et in *. destruct Hwf as (? & ? & ? & ? & ? & ?).
    split_and!; try done; [by rewrite lenZ_updZ|by apply Forall_updZ]. }
  assert (live (pm_of s') fl i) as Hl'.
  { unfold live, cur_meta, meta_at in *. change (pm_of s') with p'. by rewrite Hh, Hm. }
  destruct (large_bin_kept s s' fl ml b i k v ts Hp Hb Hu Hst Hl' Hts Hdo) as [Hb' Hu'].
  assert (updZ cs x (set_rc_lbins (updZ (rc_lbins c) j b) c) = cs) as Eid.
  { by rewrite (set_rc_lbins_id c j b Hj), (updZ_id cs x c Hxc). }
  assert (large_frame s s' fl fl cs i) as Hf.
  { rewrite <-Eid. apply (large_frame_intro s s' fl fl cs x c j b b i); try done.
    - intros a. unfold small_at. change (pm_of s') with p'. by rewrite Hsm.
    - intros a. unfold med_at. change (pm_of s') with p'. by rewrite Hmed. }
  destruct (large_arenas y fl ml s' fl ml cs i Hy Hp' Hf eq_refl) as (Hy' & Hsa & Hgu & Hcells).
  assert (set_as_run {| rn_ext := s'; rn_cases := cs; rn_sc := rn_sc (as_run y) |} y = with_pst y p' lg) as Ey.
  { unfold with_pst, with_ext. by destruct y as [[? ? ?] ?]. }
  rewrite Ey in Hy', Hsa, Hgu, Hcells. split; [exact Hy'|].
  assert (∀ a m, glused s' fl cs a m ↔ glused s fl cs a m) as Hgl.
  { intros a m. pose proof (glused_bin s s' fl fl cs x c j b b i Hcs Hxc Hj Hst a m) as Ho. rewrite Eid in Ho.
    by rewrite (glused_split s' fl cs x c j b), (glused_split s fl cs x c j b), Ho, Hu' by done. }
  assert (∀ a, ext_at s' a = ext_at s a) as Eext by done.
  constructor; try done.
  - apply Hst.
  - intros [t|a m]; [apply Hgu|apply Hgl].
  - intros [t|a m] Hou Hne; [by apply Hcells|]. destruct (large_obj_live y fl a m Hou) as [Hla Hta].
    unfold obj_same. cbn [obj_region obj_size obj_token]. change (ext_of (with_pst y p' lg)) with s'. fold s.
    unfold run_at. change (pm_of s') with p'. assert (ext_addr p' a = ext_addr (pm_of s) a) as Eaa by (unfold ext_addr; by rewrite Hh).
    rewrite Eaa, Eext. destruct (decide (a = i)) as [->|Hai].
    + rewrite Hdesc. split; [done|]. split; [done|]. unfold token_byte. unfold desc_of in Hdesc, Hts. rewrite Eaa in Hdesc.
      rewrite Hdesc, Hts. simpl. apply nthZ_updZ_ne. intros ->. by apply Hne.
    + assert (desc_of p' a = desc_of (pm_of s) a) as Hda by exact (bs_desc _ _ _ _ _ _ Hst a Hai). rewrite Hda.
      split; [done|]. split; [done|]. unfold token_byte. unfold desc_of in Hda. rewrite Eaa in Hda. by rewrite Hda.
  - cbn [obj_region]. change (ext_of (with_pst y p' lg)) with s'. fold s. unfold run_at. change (pm_of s') with p'.
    by rewrite Ea, Eext, Hdesc.
  - cbn [obj_size]. change (ext_of (with_pst y p' lg)) with s'. fold s. change (pm_of s') with p'. by rewrite Hdesc.
  - cbn [obj_token]. change (ext_of (with_pst y p' lg)) with s'. change (pm_of s') with p'. rewrite Ea. unfold token_byte.
    unfold desc_of in Hdesc. rewrite Ea in Hdesc. rewrite Hdesc. simpl. apply nthZ_updZ_eq. lia.
Qed.

Lemma hire_code_range mode tag : 0 ≤ hire_code mode tag < 256.
Proof. unfold hire_code, u8, wrap. change (2 ^ 8) with 256. by apply Z.mod_pos_bound. Qed.

(** The store of a large token; the log does not matter. *)
Lemma wp_st_large y fl ml i k v Q :
  arenas_inv y fl ml → oused y fl (OLarge i k) → 0 ≤ v < 256 →
  (∀ p lg, (∀ lg', arenas_inv (with_pst y p lg') fl ml ∧
     obj_retoken y (with_pst y p lg') fl (OLarge i k) v) → Q tt {| mem := p; log := lg |}) →
  wp (st_token (TLarge (ext_addr (pm_of (ext_of y)) i) k) v) Q (es_pst (ext_of y)).
Proof.
  intros Hy Hg Hv HQ. destruct (es_pst (ext_of y)) as [p0 lg0] eqn:E.
  assert (pm_of (ext_of y) = p0) as Ep0 by (unfold pm_of; by rewrite E). rewrite Ep0.
  unfold st_token, st_desc. apply wp_store. intros lg. apply HQ. intros lg'.
  apply large_retoken; [done|done|done|]. rewrite Ep0. constructor; try done.
  - intros a Ha. by rewrite desc_at_upd_ne.
  - intros ts Hts. unfold desc_of, upd_desc, ext_addr in *. cbn. unfold desc_at at 1. cbn. rewrite lookup_insert_eq. cbn.
    by rewrite Hts.
Qed.

(** [region_t::publish] of an object. *)
Lemma wp_obj_publish y fl ml o mode tag persist Q :
  arenas_inv y fl ml → oused y fl o → obj_token (ext_of y) o = Some kFreeCode → tag ≤ kMarkBits →
  (∀ y', arenas_inv y' fl ml → obj_retoken y y' fl o (hire_code mode tag) → Q tt y') →
  wp (apm (region_publish (obj_region (ext_of y) o) mode tag persist)) Q y.
Proof.
  intros Hy Hu Ht Htag HQ. destruct o as [[i r k]|i k].
  - unfold region_publish. apply (wp_arenas_hire y fl ml i r k mode tag persist); [done|done|done|done|].
    intros y' Hy' Hr. apply HQ; [done|]. by apply cell_retoken.
  - apply wp_apm. unfold region_publish. wp_step. wp_step; [reflexivity|]. unfold token_hire. wp_step.
    apply (wp_ld_token _ kFreeCode); [exact Ht|]. wp_step. wp_step; [rewrite Z.eqb_refl; by apply Z.leb_le|].
    wp_step. apply (wp_st_large y fl ml); [done|done|apply hire_code_range|]. intros p lg Hend.
    apply wp_token_end. intros lg'. by apply HQ; apply Hend.
Qed.

(** [region_t::busy] and [mode] read the token. *)
Lemma wp_obj_token {A} y fl ml o (f : Z → A) Q v :
  arenas_inv y fl ml → oused y fl o → obj_token (ext_of y) o = Some v → Q (f v) y →
  wp (apm (t ← mderef (reg_token (obj_region (ext_of y) o)); b ← ld_token t; mret (f b))) Q y.
Proof.
  intros Hy Hu Ht HQ. apply wp_apm. destruct o as [[i r k]|i k].
  - wp_step. wp_step; [reflexivity|]. wp_step. destruct (cell_token_some y fl ml i r k Hy Hu) as (w & Hw & Hb).
    assert (w = v) as -> by (cbn [obj_token] in Ht; congruence).
    apply (wp_ld_token _ v); [exact Hb|]. wp_step. by rewrite with_pst_id.
  - wp_step. wp_step; [reflexivity|]. wp_step. apply (wp_ld_token _ v); [exact Ht|]. wp_step. by rewrite with_pst_id.
Qed.
End lemmas.
