(* ===== verification/CacheSpec.v ===== *)
(** * Thread caches

    The contract of [CacheBin] and [ThreadCache] in normal operation.  The regions
    in a cache bin are objects of its size class with a free token ([cbin_inv]);
    the rules for the operations say which objects leave the cache or return to
    the arenas. *)

From S2P Require Export ObjSpec.
Import Pmem.

(** ** Definitions *)

(** How many regions a cache bin of the class [idx] gets at a time. *)
Definition class_stock (idx : Z) : Z := default 0 (nthZ kCacheBinStockTab (idx / kNSlabsPerGrp)).

(** The cache bin [b] of the class [idx] holds the regions [L]. *)
Record cbin_inv (y : arena_st) (fl : list Z) (n idx : Z) (b : CacheBin) (L : list cell) : Prop := {
  cv_arena : cb_arena b = n;
  cv_index : cb_index b = idx;
  cv_stock : 0 < cb_stock b ≤ cb_capacity b;
  cv_len : lenZ L < cb_capacity b;
  cv_regions : cb_regions b = cell_region (ext_of y) <$> L;
  cv_cells : ∀ t, t ∈ L → gaused y fl t ∧ cell_size (ext_of y) t = index2size_compute idx ∧
    cell_token (ext_of y) t = Some kFreeCode;
  cv_nodup : NoDup L;
  cv_class : cb_stock b = class_stock idx;
}.

(** The thread cache [t] holds the regions [G idx] of the class [idx]. *)
Record tcache_inv (y : arena_st) (fl : list Z) (t : ThreadCache) (G : Z → list cell) : Prop := {
  tv_arena : 0 ≤ th_arena t < lenZ (as_arenas y);
  tv_bins : lenZ (th_bins t) = 40;
  tv_bin : ∀ idx b, nthZ (th_bins t) idx = Some b → cbin_inv y fl (th_arena t) idx b (G idx);
  tv_none : ∀ idx, ¬ 0 ≤ idx < 40 → G idx = [];
}.

(** The objects keep their address, size and token. *)
Definition cells_kept (y y' : arena_st) (fl fl' : list Z) (L : list cell) : Prop :=
  ∀ t, t ∈ L → gaused y' fl' t ∧ cell_same (ext_of y) (ext_of y') t.

(** The object is in the cache. *)
Definition cached (G : Z → list cell) (o : obj) : Prop :=
  match o with OCell t => ∃ idx, t ∈ G idx | OLarge _ _ => False end.

(** What the acquisition of [o] by the thread with the cache [G] does. *)
Record th_acquired (y y' : arena_st) (fl fl' : list Z) (G G' : Z → list cell) (o : obj) : Prop := {
  ta_arenas : same_arenas y y';
  ta_kept : ∀ o', oused y fl o' → oused y' fl' o' ∧ obj_same (ext_of y) (ext_of y') o';
  ta_fresh : oused y fl o → cached G o;
  ta_used : oused y' fl' o ∧ ¬ cached G' o;
  ta_held : ∀ o', oused y' fl' o' → o' = o ∨ cached G' o' ∨ oused y fl o';
  ta_cache : ∀ o', cached G o' → o' = o ∨ cached G' o';
  ta_cached : ∀ o', cached G' o' → cached G o' ∨ ¬ oused y fl o';
}.

(** What an operation does that hands out nothing. *)
Record th_same (y y' : arena_st) (fl fl' : list Z) : Prop := {
  tn_arenas : same_arenas y y';
  tn_used : ∀ o, oused y' fl' o ↔ oused y fl o;
  tn_kept : ∀ o, oused y fl o → obj_same (ext_of y) (ext_of y') o;
}.

(** What the release of [o] does. *)
Record th_released (y y' : arena_st) (fl fl' : list Z) (G G' : Z → list cell) (o : obj) : Prop := {
  tr_arenas : same_arenas y y';
  tr_kept : ∀ o', oused y fl o' → o' ≠ o → ¬ cached G o' →
    oused y' fl' o' ∧ obj_same (ext_of y) (ext_of y') o';
  tr_used : ∀ o', oused y' fl' o' → oused y fl o';
  tr_gone : oused y' fl' o → cached G' o;
  tr_cached : ∀ o', cached G' o' → cached G o' ∨ o' = o;
  tr_cache : ∀ o', cached G o' → cached G' o' ∨ ¬ oused y' fl' o';
}.

(** The lists of the classes after one has changed. *)
Definition updG (G : Z → list cell) (idx : Z) (L : list cell) : Z → list cell :=
  λ j, if decide (j = idx) then L else G j.

(** Too little is left for an allocation of [size] by a thread of the arena [n] with
    the cached regions [G]: for a small or medium size the cache bin of the class is
    empty, and the arena can get fewer regions than the cache bin gets at a time when
    the class is small, and none when it is medium; for a large size the run case of
    the arena has no large region and the pool no extent. *)
Definition no_memory `{Util} (y : arena_st) (fl : list Z) (n : Z) (G : Z → list cell) (size : Z) : Prop :=
  if size <=? kMaxMediumSize then
    let idx := size2index_compute size in
    G idx = [] ∧ ran_out y fl n idx (if idx <=? 19 then class_stock idx else 1)
  else ∀ a c, nthZ (as_arenas y) n = Some a → nthZ (rn_cases (as_run y)) (ar_rcase a) = Some c →
    case_no_large (ext_of y) fl c (large_bid size).

(** An object of [n] bytes for a request of [size]: of the least class that holds it,
    or a large one. *)
Definition fits `{Util} (size n : Z) : Prop :=
  size ≤ n ∧ (size ≤ kMaxMediumSize → n = index2size_compute (size2index_compute size)).

(** ** Lemmas *)

Section lemmas.
Context `{UtilSpec} `{UnorderedMapSpec}.
Implicit Types (s : ext_st) (x : run_st) (y : arena_st) (fl ml : list Z) (b : CacheBin) (t u : cell) (L : list cell).

(** *** Steps that do not concern a cache *)

Lemma cell_regions_kept y y' fl fl' L :
  cells_kept y y' fl fl' L → cell_region (ext_of y') <$> L = cell_region (ext_of y) <$> L.
Proof.
  intros Hk. apply list_fmap_ext. intros n t Ht. by apply (Hk t); eapply list_elem_of_lookup_2.
Qed.

Lemma cbin_kept y y' fl fl' n idx b L :
  cells_kept y y' fl fl' L → cbin_inv y fl n idx b L → cbin_inv y' fl' n idx b L.
Proof.
  intros Hk [h1 h2 h3 h4 h5 h6 h7]. constructor; try done.
  - by rewrite (cell_regions_kept y y' fl fl').
  - intros t Ht. destruct (Hk t Ht) as [Hu (_ & Es & Et)]. destruct (h6 t Ht) as (_ & Es0 & Et0).
    split; [done|]. split; congruence.
Qed.

Lemma tcache_kept y y' fl fl' th G :
  same_arenas y y' → (∀ idx, cells_kept y y' fl fl' (G idx)) → tcache_inv y fl th G → tcache_inv y' fl' th G.
Proof.
  intros [Hl _] Hk [h1 h2 h3 h4]. constructor; [by rewrite Hl|done| |done].
  intros idx b Hb. eapply cbin_kept; [apply Hk|by apply h3].
Qed.

Lemma filled_kept y y' fl fl' L M :
  arenas_filled y y' fl fl' M → (∀ t, t ∈ L → gaused y fl t) → cells_kept y y' fl fl' L.
Proof.
  intros Hf Hu t Ht. split; [apply (af_used _ _ _ _ _ Hf); right; by apply Hu|].
  by apply (af_same _ _ _ _ _ Hf), Hu.
Qed.

Lemma spilled_kept y y' fl fl' L M :
  arenas_spilled y y' fl fl' M → (∀ t, t ∈ L → gaused y fl t ∧ t ∉ M) → cells_kept y y' fl fl' L.
Proof.
  intros Hf Hu t Ht. destruct (Hu t Ht) as [Hg Hn]. split; [by apply (as_used _ _ _ _ _ Hf)|].
  by apply (as_same _ _ _ _ _ Hf).
Qed.

(** *** [spill_front] *)

Lemma wp_spill_front y fl ml b u regions Q :
  arenas_inv y fl ml → gaused y fl u → cell_token (ext_of y) u = Some kFreeCode →
  cb_regions b = cell_region (ext_of y) u :: regions →
  (∀ y' fl' ml', arenas_inv y' fl' ml' → arenas_spilled y y' fl fl' [u] →
     Q (set_cb_regions regions b) y') →
  wp (spill_front b) Q y.
Proof.
  intros Hy Hu Ht Er HQ. unfold spill_front. rewrite Er. cbv zeta. wp_step.
  apply (wp_obj_descriptor y fl ml (OCell u)); [done|done|]. wp_step. apply wp_rnm_ld_desc.
  destruct u as [i r k]. cbn [obj_ext]. fold (desc_of (pm_of (ext_of y)) i).
  destruct (cell_desc y fl ml i r k Hy Hu) as (n & idx & c & Hbn & Hc & En & Ei & Hi & Ho & Hk & Es & Et).
  pose proof (rv_pool _ _ _ (av_runs _ _ _ Hy)) as Hp.
  rewrite Et. wp_step. wp_step; [by destruct (idx <=? 19)|]. cbn [reg_pointer cell_region].
  assert (∀ Q', (∀ y' fl' ml', arenas_inv y' fl' ml' → arenas_spilled y y' fl fl' [Cell i r k] → Q' tt y') →
    wp (on_arena n (arena_release idx (meta_addr (ext_of y) i r) (run_at (ext_of y) i r) k)) Q' y) as Hrel.
  { intros Q' HQ'. destruct Hu as (n' & idx' & c' & Hbn' & Hu). destruct (bin_facts y fl ml n' idx' c' Hy Hbn')
      as (Hc' & En' & Ei' & _).
    destruct (run_owned_unique (ext_of y) fl c c' i r) as [E1 E2];
      [by eapply ai_index|by eapply ai_index|done|apply Hu|].
    assert (n' = n) as -> by congruence. assert (idx' = idx) as -> by congruence.
    by apply (wp_arenas_release y fl ml n idx c'). }
  unfold arena_release in Hrel. destruct (Z.leb_spec idx 19).
  - rewrite bool_decide_true by done. wp_step. wp_step. unfold rnm. apply wp_zoom.
    apply (wp_small_location (ext_of y) fl ml c i r k); [done|done|done|lia|done|done|].
    cbn [lo_arena lo_meta lo_index location_of]. rewrite En.
    assert (set_as_run (as_run y) y = y) as -> by (by destruct y). apply Hrel.
    intros y' fl' ml' Hy' Hs. wp_step. by apply (HQ y' fl' ml').
  - rewrite bool_decide_false by done. wp_step. wp_step. unfold rnm. apply wp_zoom.
    apply (wp_medium_location (ext_of y) fl ml c i r k); [done|done|done|lia|done|done|].
    cbn [lo_arena lo_meta lo_start lo_index location_of]. rewrite En.
    assert (set_as_run (as_run y) y = y) as -> by (by destruct y).
    assert (objs_at (ext_of y) i r = run_at (ext_of y) i r) as ->.
    { unfold objs_at. rewrite (run_owned_medium _ _ _ _ _ Ho), (proj2 (Z.leb_gt _ _)) by lia. done. }
    apply Hrel. intros y' fl' ml' Hy' Hs. wp_step. by apply (HQ y' fl' ml').
Qed.

(** *** [spill_cache_bin] *)

(** The loop returns the front regions to their arenas until one less than the
    stock is left. *)
Lemma wp_spill_loop fuel y fl ml b L Q :
  (length L < fuel)%nat → 0 < cb_stock b → arenas_inv y fl ml →
  cb_regions b = cell_region (ext_of y) <$> L → NoDup L →
  (∀ t, t ∈ L → gaused y fl t ∧ cell_token (ext_of y) t = Some kFreeCode) →
  (∀ y' fl' ml' L1 L2, L = L1 ++ L2 → arenas_inv y' fl' ml' → arenas_spilled y y' fl fl' L1 →
     lenZ L2 = Z.min (lenZ L) (cb_stock b - 1) →
     Q (set_cb_regions (cell_region (ext_of y') <$> L2) b) y') →
  wp (spill_loop fuel b) Q y.
Proof.
  revert y fl ml b L. induction fuel as [|fuel IH]; intros y fl ml b L Hfuel Hst Hy Er Hnd Hc HQ; [lia|].
  simpl. assert (lenZ (cb_regions b) = lenZ L) as Hlen by (rewrite Er; unfold lenZ; by rewrite length_fmap).
  rewrite Hlen. destruct (Z.leb_spec (cb_stock b) (lenZ L)) as [Hle|Hgt].
  - destruct L as [|u L]; [unfold lenZ in Hle; simpl in Hle; lia|].
    apply NoDup_cons in Hnd as [Hni Hnd]. destruct (Hc u) as [Hu Ht]; [by left|].
    wp_step. apply (wp_spill_front y fl ml b u (cell_region (ext_of y) <$> L)); [done..|].
    intros y1 fl1 ml1 Hy1 Hs1.
    assert (cells_kept y y1 fl fl1 L) as Hk.
    { apply (spilled_kept y y1 fl fl1 L [u]); [done|]. intros t Hin. split; [apply Hc; by right|].
      intros ->%list_elem_of_singleton. done. }
    apply (IH y1 fl1 ml1 _ L); [simpl in Hfuel; lia|done|done| |done| |].
    + cbn. by rewrite (cell_regions_kept y y1 fl fl1).
    + intros t Hin. destruct (Hk t Hin) as [Hu1 (_ & _ & Et1)]. split; [done|]. rewrite Et1. apply Hc. by right.
    + intros y2 fl2 ml2 L1 L2 HL Hy2 Hs2 Hl2. apply (HQ y2 fl2 ml2 (u :: L1) L2); [by rewrite HL|done| |].
      * by apply (arenas_spilled_trans y y1 y2 fl fl1 fl2 [u] L1).
      * rewrite Hl2. cbn. unfold lenZ in *. simpl length in *. lia.
  - wp_step. specialize (HQ y fl ml [] L). rewrite <-Er in HQ.
    assert (set_cb_regions (cb_regions b) b = b) as Eb by (by destruct b). rewrite Eb in HQ.
    apply HQ; [done|done|apply arenas_spilled_refl|lia].
Qed.

(** [CacheBin::release] of a region that is not in the cache. *)
Lemma wp_cache_release y fl ml n idx b L t Q :
  arenas_inv y fl ml → cbin_inv y fl n idx b L → gaused y fl t →
  cell_size (ext_of y) t = index2size_compute idx → cell_token (ext_of y) t = Some kFreeCode → t ∉ L →
  (∀ y' fl' ml' L1 L2 b', L ++ [t] = L1 ++ L2 → arenas_inv y' fl' ml' → arenas_spilled y y' fl fl' L1 →
     cbin_inv y' fl' n idx b' L2 → Q b' y') →
  wp (CacheBin_release b (cell_region (ext_of y) t)) Q y.
Proof.
  intros Hy Hb Hu Es Ht Hni HQ. destruct Hb as [h1 h2 h3 h4 h5 h6 h7]. unfold CacheBin_release. wp_step.
  destruct t as [i r k].
  apply (wp_region_busy y fl ml i r k); [done|done|]. intros v Hv. assert (v = kFreeCode) as -> by congruence.
  wp_step. wp_step; [done|]. set (b1 := set_cb_regions _ b).
  assert (cb_regions b1 = cell_region (ext_of y) <$> (L ++ [Cell i r k])) as Er.
  { unfold b1. cbn [cb_regions set_cb_regions]. by rewrite h5, fmap_app. }
  assert (∀ u, u ∈ L ++ [Cell i r k] → gaused y fl u ∧ cell_size (ext_of y) u = index2size_compute idx ∧
    cell_token (ext_of y) u = Some kFreeCode) as Hc.
  { intros u [Hin| ->%list_elem_of_singleton]%elem_of_app; [by apply h6|done]. }
  assert (NoDup (L ++ [Cell i r k])) as Hnd.
  { apply NoDup_app. split; [done|]. split; [|apply NoDup_singleton]. by intros u Hin ->%list_elem_of_singleton. }
  assert (lenZ (cb_regions b1) = lenZ (L ++ [Cell i r k])) as Hlen by (rewrite Er; unfold lenZ; by rewrite length_fmap).
  unfold spill_cache_bin. rewrite Hlen. change (cb_capacity b1) with (cb_capacity b).
  destruct (Z.leb_spec (cb_capacity b) (lenZ (L ++ [Cell i r k]))) as [Hle|Hgt].
  - apply (wp_spill_loop _ y fl ml b1 (L ++ [Cell i r k]));
      [rewrite Er, length_fmap; lia|apply h3|done|done|done|intros u Hin; split; by apply Hc|].
    intros y' fl' ml' L1 L2 HL Hy' Hs Hl2. apply (HQ y' fl' ml' L1 L2); [done|done|done|].
    assert (cells_kept y y' fl fl' L2) as Hk.
    { apply (spilled_kept y y' fl fl' L2 L1); [done|]. intros u Hin. split; [apply Hc; rewrite HL, elem_of_app; by right|].
      rewrite HL in Hnd. apply NoDup_app in Hnd as (_ & Hd & _). intros Hin1. by apply (Hd u). }
    change (cb_stock b1) with (cb_stock b) in Hl2. constructor; try done.
    + change (lenZ L2 < cb_capacity b). lia.
    + intros u Hin. destruct (Hk u Hin) as [Hu' (_ & Es' & Et')].
      destruct (Hc u) as (_ & Es0 & Et0); [rewrite HL, elem_of_app; by right|]. split; [done|]. split; congruence.
    + rewrite HL in Hnd. by apply NoDup_app in Hnd as (_ & _ & ?).
  - wp_step. apply (HQ y fl ml [] (L ++ [Cell i r k])); [done|done|apply arenas_spilled_refl|].
    by constructor.
Qed.

(** *** [CacheBin::acquire] *)

Lemma wp_cache_acquire y fl ml n idx b L (E : error → Prop) Q :
  arenas_inv y fl ml → cbin_inv y fl n idx b L → 0 ≤ idx < 40 → 0 ≤ n < lenZ (as_arenas y) →
  (∀ y' fl' ml' M t L' b', L ++ M = t :: L' → arenas_inv y' fl' ml' → arenas_filled y y' fl fl' M →
     (L ≠ [] → M = []) → cbin_inv y' fl' n idx b' L' →
     cell_size (ext_of y') t = index2size_compute idx → cell_token (ext_of y') t = Some kFreeCode →
     Q (b', cell_region (ext_of y') t) y') →
  (∀ y' fl' ml', L = [] → arenas_inv y' fl' ml' → arenas_filled y y' fl fl' [] →
     ran_out y fl n idx 1 → 19 < idx → cbin_inv y' fl' n idx b [] → Q (b, null_region) y') →
  (L = [] → ran_out y fl n idx (class_stock idx) → idx ≤ 19 → E EUB) →
  wp_e (CacheBin_acquire b) E Q y.
Proof.
  intros Hy Hb Hi Hn HQ Hnone HE. destruct Hb as [h1 h2 h3 h4 h5 h6 h7 h8]. unfold CacheBin_acquire.
  destruct L as [|t L].
  - simpl in h5. rewrite h5. destruct (nthZ_is_Some (as_arenas y) n Hn) as [a Ha]. rewrite h1, h2.
    apply wp_e_bind. apply wp_e_bind, (wp_arenas_fill y fl ml n a idx); [done|done|done| |].
    2: { change (lenZ (@nil region_t)) with 0. rewrite h8, Z.sub_0_r. by apply HE. }
    change (lenZ (@nil region_t)) with 0. intros y' fl' ml' M Hy' Hf Hsz Hlen Hless. apply wp_e_wp. wp_step.
    apply wp_e_wp. destruct M as [|t M].
    + destruct Hless as [Hno Hmd]; [change (lenZ (@nil cell)) with 0; lia|].
      apply wp_ret. cbn. assert (set_cb_regions [] b = b) as Eb by (destruct b; simpl in *; by subst). rewrite Eb.
      apply (Hnone y' fl' ml'); [done|done|done|done|done|]. constructor; try done.
      intros u Hin. by apply not_elem_of_nil in Hin.
    + apply wp_ret. pose proof (af_nodup _ _ _ _ _ Hf) as Hnd. apply NoDup_cons in Hnd as [Hni Hnd].
      apply (HQ y' fl' ml' (t :: M) t M); [done|done|done|done| |by apply Hsz; left|apply (af_token _ _ _ _ _ Hf); by left].
      constructor; try done.
      * cbn. unfold lenZ in *. simpl length in *. lia.
      * intros u Hin. split; [apply (af_used _ _ _ _ _ Hf); left; by right|].
        split; [apply Hsz; by right|apply (af_token _ _ _ _ _ Hf); by right].
  - simpl in h5. rewrite h5. apply wp_e_bind, wp_e_wp, wp_ret. rewrite h5. apply wp_e_wp, wp_ret.
    apply NoDup_cons in h7 as [Hni Hnd]. destruct (h6 t) as (Hu & Es & Et); [by left|].
    apply (HQ y fl ml [] t L); [by rewrite app_nil_r|done|apply arenas_filled_refl|done| |done|done].
    constructor; try done.
    + cbn. unfold lenZ in *. simpl length in *. lia.
    + intros u Hin. apply h6. by right.
Qed.

(** *** Thread caches *)

Implicit Types (th : ThreadCache) (G : Z → list cell) (o : obj).

Lemma tcache_cell y fl th G idx t :
  tcache_inv y fl th G → t ∈ G idx →
  0 ≤ idx < 40 ∧ gaused y fl t ∧ cell_size (ext_of y) t = index2size_compute idx ∧
  cell_token (ext_of y) t = Some kFreeCode.
Proof.
  intros Ht Hin. destruct (decide (0 ≤ idx < 40)) as [Hi|Hi];
    [|rewrite (tv_none _ _ _ _ Ht idx Hi) in Hin; by apply not_elem_of_nil in Hin].
  split; [done|]. destruct (nthZ_is_Some (th_bins th) idx) as [b Hb]; [by rewrite (tv_bins _ _ _ _ Ht)|].
  by apply (cv_cells _ _ _ _ _ _ (tv_bin _ _ _ _ Ht idx b Hb)).
Qed.

(** The class of a cached region is determined by its size. *)
Lemma tcache_class y fl th G idx idx' t :
  tcache_inv y fl th G → t ∈ G idx → 0 ≤ idx' < 40 → cell_size (ext_of y) t = index2size_compute idx' →
  idx = idx'.
Proof.
  intros Ht Hin Hi' Es. destruct (tcache_cell y fl th G idx t Ht Hin) as (Hi & _ & Es0 & _).
  apply class_size_inj; [done|done|congruence].
Qed.

Lemma wp_with_cbin {A} th idx b (f : CacheBin → M arena_st (CacheBin * A)) Q y :
  nthZ (th_bins th) idx = Some b →
  wp (f b) (λ r y', Q (set_th_bins (updZ (th_bins th) idx r.1) th, r.2) y') y → wp (with_cbin th idx f) Q y.
Proof.
  intros Hb Hf. unfold with_cbin. wp_step. wp_step; [exact Hb|]. wp_step.
  eapply wp_mono; [exact Hf|]. intros [b' r] y' HQ. cbv beta iota. wp_step. exact HQ.
Qed.

(** The cache after one of its bins has changed. *)
Lemma tcache_update y y' fl fl' th G idx b b' L :
  tcache_inv y fl th G → same_arenas y y' → nthZ (th_bins th) idx = Some b →
  cbin_inv y' fl' (th_arena th) idx b' L → (∀ j, j ≠ idx → cells_kept y y' fl fl' (G j)) →
  tcache_inv y' fl' (set_th_bins (updZ (th_bins th) idx b') th) (updG G idx L).
Proof.
  intros [h1 h2 h3 h4] [Hl _] Hb Hb' Hk. pose proof (nthZ_Some _ _ _ Hb) as Hi. constructor; cbn.
  - by rewrite Hl.
  - by rewrite lenZ_updZ.
  - intros j c Hc. apply (nthZ_updZ_inv _ _ _ _ _ _ Hb) in Hc as [[-> ->]|[Hne Hc]]; unfold updG.
    + by rewrite decide_True.
    + rewrite decide_False by done. eapply cbin_kept; [by apply Hk|by apply h3].
  - intros j Hj. unfold updG. rewrite decide_False; [by apply h4|]. intros ->. rewrite h2 in Hi. done.
Qed.

Lemma cached_updG G idx L t : cached (updG G idx L) (OCell t) ↔ t ∈ L ∨ ∃ j, j ≠ idx ∧ t ∈ G j.
Proof.
  simpl. unfold updG. split.
  - intros (j & Hj). case_decide as Hd; [by left|right; by exists j].
  - intros [Hin|(j & Hne & Hj)]; [exists idx; by rewrite decide_True|exists j; by rewrite decide_False].
Qed.

(** *** [ThreadCache::release] *)

Lemma retoken_objs y y1 fl t v o :
  arenas_retoken y y1 fl t v → oused y fl o → oused y1 fl o ∧ (o ≠ OCell t → obj_same (ext_of y) (ext_of y1) o).
Proof.
  intros Hr Hu. destruct o as [u|i k].
  - split; [by apply (at_used _ _ _ _ _ Hr)|]. intros Hne. apply (at_same _ _ _ _ _ Hr); [done|]. by intros ->.
  - split; [by apply (proj1 (at_large _ _ _ _ _ Hr))|]. intros _.
    apply (large_obj_kept y y1 fl fl); [apply Hr|apply Hr|done].
Qed.

Lemma released_intro y y1 y' fl fl' G idx t L1 L2 :
  arenas_retoken y y1 fl t kFreeCode → arenas_spilled y1 y' fl fl' L1 → G idx ++ [t] = L1 ++ L2 →
  NoDup (G idx ++ [t]) → ¬ cached G (OCell t) →
  th_released y y' fl fl' G (updG G idx L2) (OCell t).
Proof.
  intros Hr Hs HL Hnd Hnc. pose proof (spilled_objs y1 y' fl fl' L1 Hs) as Ho.
  assert (∀ u, u ∈ L1 → u ∈ G idx ∨ u = t) as HL1.
  { intros u Hin. assert (u ∈ G idx ++ [t]) as Hin' by (rewrite HL, elem_of_app; by left).
    rewrite elem_of_app, list_elem_of_singleton in Hin'. exact Hin'. }
  assert (∀ o, oused y1 fl o ↔ oused y fl o) as Hu1.
  { intros [u|i k]; [apply (at_used _ _ _ _ _ Hr)|apply (proj1 (at_large _ _ _ _ _ Hr))]. }
  assert (∀ u, u ∈ G idx ∨ u = t → u ∈ L2 ∨ u ∈ L1) as HL2.
  { intros u Hin. assert (u ∈ L1 ++ L2) as Hin' by (rewrite <-HL, elem_of_app, list_elem_of_singleton; exact Hin).
    rewrite elem_of_app in Hin'. tauto. }
  constructor.
  - eapply same_arenas_trans; [apply Hr|apply Hs].
  - intros o Hx Hne Hc. destruct (retoken_objs y y1 fl t kFreeCode o Hr Hx) as [Hx1 Hsm].
    assert (o ∉ OCell <$> L1) as Hni.
    { intros (u & -> & Hin)%list_elem_of_fmap. destruct (HL1 u Hin) as [Hg| ->]; [|done]. apply Hc. by exists idx. }
    split; [apply (os_used _ _ _ _ _ _ Ho); right; by split|].
    eapply obj_same_trans; [by apply Hsm|]. by apply (os_same _ _ _ _ _ _ Ho).
  - intros o Hx. apply (os_used _ _ _ _ _ _ Ho) in Hx as [Hn|[Hx _]]; [by apply not_elem_of_nil in Hn|by apply Hu1].
  - intros Hx. apply cached_updG. destruct (HL2 t) as [?|Hin]; [by right|by left|].
    apply (as_used _ _ _ _ _ Hs) in Hx as [_ []]. done.
  - intros [u|i k] Hc; [|done]. apply cached_updG in Hc as [Hin|(j & _ & Hj)]; [|left; by exists j].
    assert (u ∈ G idx ++ [t]) as Hin' by (rewrite HL, elem_of_app; by right).
    rewrite elem_of_app, list_elem_of_singleton in Hin'. destruct Hin' as [Hg| ->]; [left; by exists idx|by right].
  - intros [u|i k] Hc; [|done]. destruct Hc as (j & Hj). destruct (decide (j = idx)) as [->|Hne].
    + destruct (HL2 u) as [Hin|Hin]; [by left|left; apply cached_updG; by left|].
      right. intros Hx. apply (as_used _ _ _ _ _ Hs) in Hx as [_ []]. done.
    + left. apply cached_updG. right. by exists j.
Qed.

Lemma wp_release_tail y y1 fl ml th G idx t Q :
  arenas_inv y1 fl ml → arenas_retoken y y1 fl t kFreeCode → tcache_inv y fl th G → gaused y fl t →
  ¬ cached G (OCell t) → cell_size (ext_of y) t = index2size_compute idx → 0 ≤ idx < 40 →
  (∀ y' fl' ml' th' G', arenas_inv y' fl' ml' → tcache_inv y' fl' th' G' → th_arena th' = th_arena th →
     th_released y y' fl fl' G G' (OCell t) → Q th' y') →
  wp (sc ← mgets (λ z : arena_st, rn_sc (as_run z));
      bin_idx ← size2index sc (index2size_compute idx);
      '(t', _) ← with_cbin th bin_idx (λ b, no_result (CacheBin_release b (cell_region (ext_of y) t)));
      mret t') Q y1.
Proof.
  intros Hy1 Hr Ht Hu Hnc Es Hi HQ. wp_step. wp_step. rewrite (rv_sc _ _ _ (av_runs _ _ _ Hy1)).
  destruct (index2size_facts idx Hi) as (_ & Hsz & _). wp_step.
  eapply wp_pure; [by apply size2index_ok|]. rewrite class_of_class by done. wp_step.
  destruct (nthZ_is_Some (th_bins th) idx) as [b Hb]; [by rewrite (tv_bins _ _ _ _ Ht)|].
  apply (wp_with_cbin th idx b); [done|]. unfold no_result. wp_step.
  assert (t ∉ G idx) as Hni by (intros Hin; apply Hnc; by exists idx).
  assert (∀ j, cells_kept y y1 fl fl (G j)) as Hk.
  { intros j u Hin. destruct (tcache_cell y fl th G j u Ht Hin) as (_ & Hg & _).
    split; [by apply (at_used _ _ _ _ _ Hr)|]. apply (at_same _ _ _ _ _ Hr); [done|]. intros ->. apply Hnc. by exists j. }
  pose proof (tv_bin _ _ _ _ Ht idx b Hb) as Hcb. destruct (at_region _ _ _ _ _ Hr) as [Er Es1].
  rewrite <-Er. apply (wp_cache_release y1 fl ml (th_arena th) idx b (G idx) t);
    [done|by eapply cbin_kept; [apply Hk|]|by apply (at_used _ _ _ _ _ Hr)|congruence|apply Hr|done|].
  intros y' fl' ml' L1 L2 b' HL Hy' Hs Hcb'. wp_step. cbn [fst snd]. cbv beta iota. wp_step.
  assert (∀ j, j ≠ idx → cells_kept y1 y' fl fl' (G j)) as Hk'.
  { intros j Hne. apply (spilled_kept y1 y' fl fl' (G j) L1); [done|]. intros u Hin. split; [by apply (Hk j)|].
    intros Hin1. assert (u ∈ G idx ++ [t]) as Hin' by (rewrite HL, elem_of_app; by left).
    rewrite elem_of_app, list_elem_of_singleton in Hin'. destruct Hin' as [Hg| ->]; [|apply Hnc; by exists j].
    destruct (tcache_cell y fl th G idx u Ht Hg) as (_ & _ & Esu & _).
    apply Hne. by apply (tcache_class y fl th G j idx u). }
  apply (HQ y' fl' ml' _ (updG G idx L2)); [done| |done|].
  - apply (tcache_update y1 y' fl fl' th G idx b b' L2); [|apply Hs|done|done|done].
    eapply tcache_kept; [apply Hr|exact Hk|done].
  - eapply released_intro; [exact Hr|exact Hs|exact HL| |done]. apply NoDup_app.
    split; [by apply (cv_nodup _ _ _ _ _ _ Hcb)|]. split; [|apply NoDup_singleton].
    by intros u Hin ->%list_elem_of_singleton.
Qed.

Lemma set_as_run_id y : set_as_run (as_run y) y = y.
Proof. by destruct y. Qed.

Lemma wp_cell_release y fl ml th G i r k Q :
  arenas_inv y fl ml → tcache_inv y fl th G → gaused y fl (Cell i r k) → ¬ cached G (OCell (Cell i r k)) →
  (∀ y' fl' ml' th' G', arenas_inv y' fl' ml' → tcache_inv y' fl' th' G' → th_arena th' = th_arena th →
     th_released y y' fl fl' G G' (OCell (Cell i r k)) → Q th' y') →
  let d := desc_of (pm_of (ext_of y)) i in let ptr := reg_pointer (region_at (ext_of y) i r k) in
  wp (match ed_type d with
      | kSmall => th_small_release th d ptr false
      | kMedium => th_medium_release th d ptr false
      | kLarge => th_large_release (ext_addr (pm_of (ext_of y)) i) d ptr false ;; mret th
      | _ => merr EExit
      end) Q y.
Proof.
  intros Hy Ht Hu Hnc HQ d ptr. pose proof (rv_pool _ _ _ (av_runs _ _ _ Hy)) as Hp.
  destruct (cell_desc y fl ml i r k Hy Hu) as (n & idx & c & Hbn & Hc & En & Ei & Hi & Ho & Hk & Es & Et).
  pose proof (run_owned_busy _ _ _ _ _ Ho) as Hb. pose proof (run_owned_medium _ _ _ _ _ Ho) as Hm. rewrite Ei in Hm.
  fold d in Et. assert (∀ Q', (∀ y1, arenas_inv y1 fl ml → arenas_retoken y y1 fl (Cell i r k) kFreeCode → Q' tt y1) →
    wp (rnm (exm (pm (token_fire (run_token (ext_of y) i r k) true)))) Q' y) as Hfire.
  { intros Q' HQ'. apply (wp_arenas_fire y fl ml i r k true); [done|done|done]. }
  rewrite Et. destruct (Z.leb_spec idx 19) as [Hsm|Hmd].
  - unfold th_small_release. wp_step. wp_step; [by rewrite Et|]. wp_step. unfold rnm at 1. apply wp_zoom.
    apply (wp_small_location (ext_of y) fl ml c i r k); [done|done|done|lia|done|done|]. rewrite set_as_run_id.
    cbn [lo_meta lo_index lo_arena lo_size location_of]. rewrite Ei.
    destruct (small_objs_ok (ext_of y) fl ml c i r Hp ltac:(lia) Ho ltac:(lia)) as (_ & Emd & Eaddr).
    rewrite Eaddr. wp_step. unfold rnm at 1. apply wp_zoom.
    apply (deref_small_run (ext_of y) fl ml); [done|done|done|]. rewrite set_as_run_id.
    rewrite Emd in Hk. simpl in Hk. wp_step. unfold rnm at 1. apply wp_zoom, wp_exm, wp_pm.
    unfold SmallMeta_token. wp_step. wp_step; [apply Z.ltb_lt; lia|]. wp_step.
    rewrite set_es_pst_id, set_rn_ext_id, set_as_run_id.
    assert (TSmall (run_at (ext_of y) i r) k = run_token (ext_of y) i r k) as Etok
      by (unfold run_token; by rewrite Hm, Eaddr). rewrite Etok. wp_step. apply Hfire. intros y1 Hy1 Hr1.
    by apply (wp_release_tail y y1 fl ml th G idx (Cell i r k)).
  - unfold th_medium_release. wp_step. wp_step; [by rewrite Et|]. wp_step. unfold rnm at 1. apply wp_zoom.
    apply (wp_medium_location (ext_of y) fl ml c i r k); [done|done|done|lia|done|done|]. rewrite set_as_run_id.
    cbn [lo_meta lo_index lo_arena lo_size location_of]. rewrite Ei.
    assert (run_meta (ext_of y) i r = inr (med_at (pm_of (ext_of y)) (meta_addr (ext_of y) i r))) as Emd
      by (unfold run_meta; by rewrite Hm).
    wp_step. unfold rnm at 1. apply wp_zoom.
    apply (deref_med_run (ext_of y) fl ml); [done|done|done|done|]. rewrite set_as_run_id.
    rewrite Emd in Hk. simpl in Hk. wp_step. unfold rnm at 1. apply wp_zoom, wp_exm, wp_pm.
    unfold MediumMeta_token. wp_step. wp_step; [apply Z.ltb_lt; lia|]. wp_step.
    rewrite set_es_pst_id, set_rn_ext_id, set_as_run_id.
    assert (TMedium (meta_addr (ext_of y) i r) k = run_token (ext_of y) i r k) as Etok
      by (unfold run_token; by rewrite Hm). rewrite Etok. wp_step. apply Hfire. intros y1 Hy1 Hr1.
    by apply (wp_release_tail y y1 fl ml th G idx (Cell i r k)).
Qed.

Lemma wp_thread_release y fl ml th G o Q :
  arenas_inv y fl ml → tcache_inv y fl th G → oused y fl o → ¬ cached G o →
  (∀ y' fl' ml' th' G', arenas_inv y' fl' ml' → tcache_inv y' fl' th' G' → th_arena th' = th_arena th →
     th_released y y' fl fl' G G' o → Q th' y') →
  wp (ThreadCache_release th (reg_pointer (obj_region (ext_of y) o)) false) Q y.
Proof.
  intros Hy Ht Hu Hnc HQ. destruct (obj_pointer y fl ml o Hy Hu) as (Hpos & _). unfold ThreadCache_release.
  change nullptr with 0. rewrite (proj2 (Z.eqb_neq _ _)) by lia.
  wp_step. apply (wp_obj_descriptor y fl ml o); [done|done|]. wp_step. wp_step. wp_step. apply wp_rnm_ld_desc.
  fold (desc_of (pm_of (ext_of y)) (obj_ext o)). destruct o as [[i r k]|i k]; cbn [obj_ext].
  - by apply (wp_cell_release y fl ml th G i r k).
  - destruct (large_obj_live y fl i k Hu) as [_ Et]. cbn [obj_region reg_pointer]. rewrite Et.
    wp_step. apply (wp_arenas_large_release y fl ml i k); [done|done|]. intros y' fl' ml' Hy' Hs Ea. wp_step.
    apply (HQ y' fl' ml' th G); [done| |done|].
    + apply (tcache_kept y y' fl fl'); [apply Hs| |done]. intros idx t Hin.
      destruct (tcache_cell y fl th G idx t Ht Hin) as (_ & Hg & _).
      split; [|by apply (os_same _ _ _ _ _ _ Hs (OCell t)); [|intros ?%list_elem_of_singleton]].
      apply (os_used _ _ _ _ _ _ Hs (OCell t)). right. split; [done|by intros ?%list_elem_of_singleton].
    + constructor.
      * apply Hs.
      * intros o Hx Hne _. assert (o ∉ [OLarge i k]) as Hni by (by intros ?%list_elem_of_singleton).
        split; [apply (os_used _ _ _ _ _ _ Hs); right; by split|by apply (os_same _ _ _ _ _ _ Hs)].
      * intros o Hx. apply (os_used _ _ _ _ _ _ Hs) in Hx as [Hn|[Hx _]]; [by apply not_elem_of_nil in Hn|done].
      * intros Hx. apply (os_used _ _ _ _ _ _ Hs) in Hx as [Hn|[_ Hx]]; [by apply not_elem_of_nil in Hn|].
        exfalso. apply Hx. by left.
      * intros o Hc. by left.
      * intros o Hc. by left.
Qed.

(** *** [ThreadCache::acquire] *)

Lemma wp_e_with_cbin {A} th idx b (f : CacheBin → M arena_st (CacheBin * A)) (E : error → Prop) Q y :
  nthZ (th_bins th) idx = Some b →
  wp_e (f b) E (λ r y', Q (set_th_bins (updZ (th_bins th) idx r.1) th, r.2) y') y →
  wp_e (with_cbin th idx f) E Q y.
Proof.
  intros Hb Hf. unfold with_cbin. apply wp_e_bind, wp_e_wp. eapply wp_deref; [exact Hb|].
  apply wp_e_bind. eapply wp_e_mono; [exact Hf|done|]. intros [b' r] y' HQ. cbv beta iota. by apply wp_e_wp, wp_ret.
Qed.

Lemma filled_same y y' fl fl' : arenas_filled y y' fl fl' [] → th_same y y' fl fl'.
Proof.
  intros Hf. pose proof (filled_objs y y' fl fl' [] Hf) as Ho. constructor; [apply Hf| |].
  - intros o. rewrite (os_used _ _ _ _ _ _ Ho). simpl. rewrite elem_of_nil. tauto.
  - intros o Hu. apply (os_same _ _ _ _ _ _ Ho); [done|apply not_elem_of_nil].
Qed.

Lemma th_acquired_intro y y' fl fl' th G idx M t L' :
  tcache_inv y fl th G → arenas_filled y y' fl fl' M → G idx ++ M = t :: L' → NoDup (G idx) →
  th_acquired y y' fl fl' G (updG G idx L') (OCell t).
Proof.
  intros Ht Hf HL Hnd. pose proof (filled_objs y y' fl fl' M Hf) as Ho.
  assert (∀ u, u ∈ G idx → gaused y fl u) as Hg by (intros u Hin; by apply (tcache_cell y fl th G idx u)).
  assert (NoDup (t :: L')) as Hnd'.
  { rewrite <-HL. apply NoDup_app. split; [done|]. split; [|apply (af_nodup _ _ _ _ _ Hf)].
    intros u Hin HM. by apply (af_fresh _ _ _ _ _ Hf u HM), Hg. }
  apply NoDup_cons in Hnd' as [Hni Hnd'].
  assert (∀ u, u ∈ G idx ∨ u ∈ M ↔ u = t ∨ u ∈ L') as Hin.
  { intros u. rewrite <-elem_of_app, HL, elem_of_cons. done. }
  constructor.
  - apply Hf.
  - intros o Hu. split; [apply (os_used _ _ _ _ _ _ Ho); right; split; [done|apply not_elem_of_nil]|].
    apply (os_same _ _ _ _ _ _ Ho); [done|apply not_elem_of_nil].
  - intros Hu. destruct (proj2 (Hin t) (or_introl eq_refl)) as [?|HM]; [by exists idx|].
    by destruct (af_fresh _ _ _ _ _ Hf t HM).
  - split; [|rewrite cached_updG; intros [?|(j & Hne & Hj)]; [done|]].
    + destruct (proj2 (Hin t) (or_introl eq_refl)) as [?|HM]; apply (af_used _ _ _ _ _ Hf); [right; by apply Hg|by left].
    + destruct (tcache_cell y fl th G j t Ht Hj) as (_ & Hu & Es & _).
      destruct (proj2 (Hin t) (or_introl eq_refl)) as [Hg'|HM]; [|by destruct (af_fresh _ _ _ _ _ Hf t HM)].
      destruct (tcache_cell y fl th G idx t Ht Hg') as (Hi & _ & Es' & _). apply Hne.
      by apply (tcache_class y fl th G j idx t).
  - intros [u|i k] Hu; [|right; right; by apply (proj1 (af_large _ _ _ _ _ Hf))].
    apply (af_used _ _ _ _ _ Hf) in Hu as [HM|Hu]; [|by right; right].
    destruct (proj1 (Hin u) (or_intror HM)) as [->|HL']; [by left|right; left]. apply cached_updG. by left.
  - intros [u|i k] Hc; [|done]. destruct Hc as (j & Hj). destruct (decide (j = idx)) as [->|Hne].
    + destruct (proj1 (Hin u) (or_introl Hj)) as [->|HL']; [by left|right]. apply cached_updG. by left.
    + right. apply cached_updG. right. by exists j.
  - intros [u|i k] Hc; [|done]. apply cached_updG in Hc as [HL'|(j & _ & Hj)]; [|left; by exists j].
    destruct (proj2 (Hin u) (or_intror HL')) as [?|HM]; [left; by exists idx|right]. by apply (af_fresh _ _ _ _ _ Hf).
Qed.

Lemma wp_thread_acquire y fl ml th G size (E : error → Prop) Q :
  arenas_inv y fl ml → tcache_inv y fl th G → 0 ≤ size →
  (size = 0 ∨ kMaxLargeSize < size → Q (th, null_region) y) →
  (kMaxMediumSize < size ≤ kMaxLargeSize → no_memory y fl (th_arena th) G size → E EAssert) →
  (no_memory y fl (th_arena th) G size → 0 < size ≤ kMaxMediumSize → size2index_compute size ≤ 19 → E EUB) →
  (∀ y' fl' ml', arenas_inv y' fl' ml' → th_same y y' fl fl' → tcache_inv y' fl' th G →
     no_memory y fl (th_arena th) G size → 0 < size ≤ kMaxMediumSize → 19 < size2index_compute size →
     Q (th, null_region) y') →
  (∀ y' fl' ml' th' G' o, arenas_inv y' fl' ml' → tcache_inv y' fl' th' G' → th_arena th' = th_arena th →
     th_acquired y y' fl fl' G G' o → fits size (obj_size (ext_of y') o) → obj_token (ext_of y') o = Some kFreeCode →
     Q (th', obj_region (ext_of y') o) y') →
  wp_e (ThreadCache_acquire th size false) E Q y.
Proof.
  intros Hy Ht Hsz Hnull HEl HEs Hnone HQ. unfold ThreadCache_acquire. unfold no_memory in *.
  change kMaxMediumSize with 65536 in *. change kMaxLargeSize with 4194304 in *.
  destruct (Z.leb_spec size 65536) as [Hmd|Hlg].
  - destruct (Z.eqb_spec size 0) as [->|Hnz]; [apply wp_e_wp, wp_ret, Hnull; lia|].
    destruct (size_class_spec size) as (Hi & Hle & _); [lia|]. set (idx := size2index_compute size) in *.
    apply wp_e_bind, wp_e_wp, wp_gets. rewrite (rv_sc _ _ _ (av_runs _ _ _ Hy)).
    apply wp_e_bind, wp_e_wp. eapply wp_pure; [apply size2index_ok; lia|]. fold idx.
    apply wp_e_bind, wp_e_wp, wp_assert; [apply Z.ltb_lt; change kNSlabsCached with 40; lia|].
    destruct (nthZ_is_Some (th_bins th) idx) as [b Hb]; [rewrite (tv_bins _ _ _ _ Ht); exact Hi|].
    pose proof (tv_bin _ _ _ _ Ht idx b Hb) as Hcb. apply (wp_e_with_cbin th idx b); [done|].
    apply (wp_cache_acquire y fl ml (th_arena th) idx b (G idx)); [done|done|done|apply Ht| | |].
    + intros y' fl' ml' M t L' b' HL Hy' Hf _ Hcb' Es Etk. cbn [fst snd].
      apply (HQ y' fl' ml' _ (updG G idx L') (OCell t)); [done| |done| |by cbn; rewrite Es; split|done].
      * apply (tcache_update y y' fl fl' th G idx b b' L'); [done|apply Hf|done|done|]. intros j _.
        apply (filled_kept y y' fl fl' (G j) M); [done|]. intros u Hin. by apply (tcache_cell y fl th G j u).
      * apply (th_acquired_intro y y' fl fl' th G idx M t L'); [done|done|done|]. by eapply cv_nodup.
    + intros y' fl' ml' HG Hy' Hf Hno Hidx _. cbn [fst snd]. rewrite updZ_id by done.
      assert (set_th_bins (th_bins th) th = th) as -> by (by destruct th).
      apply (Hnone y' fl' ml'); [done|by apply filled_same| |by rewrite (proj2 (Z.leb_gt _ _))|lia|done].
      apply (tcache_kept y y' fl fl'); [apply Hf| |done]. intros j.
      apply (filled_kept y y' fl fl' (G j) []); [done|]. intros u Hin. by apply (tcache_cell y fl th G j u).
    + intros HG Hno Hidx. apply HEs; [by rewrite (proj2 (Z.leb_le _ _))|lia|done].
  - destruct (Z.leb_spec size 4194304) as [Hle|Hgt]; [|apply wp_e_wp, wp_ret; auto].
    destruct (nthZ_is_Some (as_arenas y) (th_arena th)) as [a Ha]; [apply Ht|].
    apply wp_e_bind, (wp_arenas_large_acquire y fl ml (th_arena th) a); [done|done|done| |].
    + intros c Hc Hno. apply HEl; [lia|]. intros a' c' Ha' Hc'. assert (a' = a) as -> by congruence.
      by assert (c' = c) as -> by congruence.
    + intros y' fl' ml' i k o Hy' Hs Ea Hsize Htok. apply wp_e_wp, wp_ret.
      assert (∀ o', oused y fl o' → oused y' fl' o' ∧ obj_same (ext_of y) (ext_of y') o') as Hkept.
      { intros o' Hu. split; [apply (os_used _ _ _ _ _ _ Hs); right; split; [done|apply not_elem_of_nil]|].
        apply (os_same _ _ _ _ _ _ Hs); [done|apply not_elem_of_nil]. }
      apply (HQ y' fl' ml' th G o); [done| |done| |split; [done|change kMaxMediumSize with 65536; lia]|done].
      * apply (tcache_kept y y' fl fl'); [apply Hs| |done]. intros j u Hin.
        destruct (tcache_cell y fl th G j u Ht Hin) as (_ & Hg & _). exact (Hkept (OCell u) Hg).
      * constructor; try done.
        -- apply Hs.
        -- intros Hu. exfalso. apply (os_fresh _ _ _ _ _ _ Hs o); [by left|done].
        -- split; [apply (os_used _ _ _ _ _ _ Hs); left; by left|intros Hc; exact Hc].
        -- intros o' Hu. apply (os_used _ _ _ _ _ _ Hs) in Hu as [->%list_elem_of_singleton|[Hu _]]; [by left|by right; right].
        -- intros o' Hc. by right.
        -- intros o' Hc. by left.
Qed.

(** *** [ThreadCache::region_size] *)

Lemma wp_thread_region_size y fl ml o Q :
  arenas_inv y fl ml → oused y fl o → Q (obj_size (ext_of y) o) y →
  wp (ThreadCache_region_size (reg_pointer (obj_region (ext_of y) o))) Q y.
Proof.
  intros Hy Hu HQ. destruct (obj_pointer y fl ml o Hy Hu) as (Hpos & _). unfold ThreadCache_region_size.
  change nullptr with 0. rewrite (proj2 (Z.eqb_neq _ _)) by lia.
  wp_step. apply (wp_obj_descriptor y fl ml o); [done|done|]. cbv zeta. wp_step. apply wp_rnm_ld_desc.
  fold (desc_of (pm_of (ext_of y)) (obj_ext o)). destruct o as [[i r k]|i k]; cbn [obj_ext].
  - pose proof (rv_pool _ _ _ (av_runs _ _ _ Hy)) as Hp.
    destruct (cell_desc y fl ml i r k Hy Hu) as (n & idx & c & Hbn & Hc & En & Ei & Hi & Ho & Hk & Es & Et).
    pose proof (run_owned_busy _ _ _ _ _ Ho) as Hb. pose proof (run_owned_medium _ _ _ _ _ Ho) as Hm. rewrite Ei in Hm.
    destruct (cell_rounddown (ext_of y) fl ml c i r k Hp (ai_index _ _ _ Hc) Ho Hk) as (_ & Erd & Ediv & _).
    destruct (busy_offset _ fl ml i r Hp Hb) as (O1 & _).
    assert (set_as_run (as_run y) y = y) as Eid by (by destruct y). cbn [obj_region cell_region obj_size cell_size] in *.
    rewrite Et. destruct (Z.leb_spec idx 19) as [Hsm|Hmd].
    + destruct (small_objs_ok (ext_of y) fl ml c i r Hp ltac:(lia) Ho ltac:(lia)) as (_ & Emd & Eaddr).
      wp_step. rewrite Erd. apply wp_div_nonzero; [unfold ext_of in *; lia|]. rewrite Ediv.
      replace (ext_at (ext_of y) i + ed_size (desc_of (pm_of (ext_of y)) i) * r) with (run_at (ext_of y) i r)
        by (unfold run_at; lia).
      wp_step. unfold rnm. apply wp_zoom, (deref_small_run (ext_of y) fl ml); [done|done|done|].
      rewrite Eid. wp_step. by rewrite Emd in HQ.
    + assert (run_meta (ext_of y) i r = inr (med_at (pm_of (ext_of y)) (meta_addr (ext_of y) i r))) as Emd
        by (unfold run_meta; by rewrite Hm).
      wp_step. rewrite Erd. apply wp_div_nonzero; [unfold ext_of in *; lia|]. rewrite Ediv.
      replace (ed_runs (desc_of (pm_of (ext_of y)) i) + r * sizeof_MediumMeta) with (meta_addr (ext_of y) i r)
        by (unfold meta_addr; by rewrite Hm).
      wp_step. unfold rnm. apply wp_zoom, (deref_med_run (ext_of y) fl ml); [done|done|done|done|].
      rewrite Eid. wp_step. by rewrite Emd in HQ.
  - destruct (large_obj_live y fl i k Hu) as [_ Et]. rewrite Et. by wp_step.
Qed.
End lemmas.
