(* ===== verification/Slab.v ===== *)
(** * The allocator (slab/slab.h)

    [AllocatorDetail] has an extent case, the run cases, the arenas and the
    thread caches.  It opens a pool, reloads the half-used extents after a
    normal shutdown or scans all extents after a crash, and serves [acquire] and
    [release].  Recovery runs on one thread here; in the code the threads share
    the counter of [RecoverContainer]. *)

From S2P Require Export TCache.
Import Pmem.

(** ** Definitions *)

Record alloc_st := {
  al_arena : arena_st;
  al_ok : bool;
  al_recovering : bool;
  al_tsd : gmap Z ThreadCache;   (* tsd_, by thread *)
  al_this : Z;                   (* the address of the object *)
  al_local : gmap Z Z;           (* thread_local local.alloc, by thread *)
}.
Definition eta_al s := {|
  al_arena := al_arena s; al_ok := al_ok s; al_recovering := al_recovering s;
  al_tsd := al_tsd s; al_this := al_this s; al_local := al_local s |}.
Definition set_al_arena := ltac:(setter eta_al al_arena).
Definition set_al_ok := ltac:(setter eta_al al_ok).
Definition set_al_recovering := ltac:(setter eta_al al_recovering).
Definition set_al_tsd := ltac:(setter eta_al al_tsd).
Definition set_al_local := ltac:(setter eta_al al_local).

Definition alm {A} (m : M arena_st A) : M alloc_st A := mzoom al_arena set_al_arena m.
(** Running an operation of the extent case. *)
Definition exa {A} (m : M ext_st A) : M alloc_st A := alm (rnm (exm m)).
Definition case_op (i : Z) (f : RunCase → M ext_st RunCase) : M alloc_st unit :=
  alm (rnm (on_case i (λ c, no_result (f c)))).

Section slab.
Context `{Util} `{UnorderedMap}.

(** The loop of [choose_arena] from the arena [aid] on. *)
Fixpoint choose_loop (arenas l : list Arena) (aid idx : Z) : Z :=
  match l with
  | [] => idx
  | a :: l =>
      if ar_nbinds a =? 0 then aid
      else
        let least := default 0 (ar_nbinds <$> nthZ arenas idx) in
        choose_loop arenas l (aid + 1) (if ar_nbinds a <? least then aid else idx)
  end.
Definition choose_arena (arenas : list Arena) : Z := choose_loop arenas arenas 0 0.

(** [thread_cache()]: [local.tlc] points to the entry of the thread in [tsd_] of
    [*local.alloc]; the result is the cache, which the caller writes back. *)
Definition thread_cache (tid : Z) : M alloc_st ThreadCache :=
  s ← mget;
  if bool_decide (al_local s !! tid = Some (al_this s)) then mderef (al_tsd s !! tid)
  else
    mmodify (set_al_local (<[tid := al_this s]> (al_local s))) ;;
    match al_tsd s !! tid with
    | Some t => mret t
    | None =>
        let arena := choose_arena (as_arenas (al_arena s)) in
        t ← alm (ThreadCache_new arena);
        mmodify (λ s, set_al_tsd (<[tid := t]> (al_tsd s)) s) ;;
        mret t
    end.

Definition put_cache (tid : Z) (t : ThreadCache) : M alloc_st unit :=
  mmodify (λ s, set_al_tsd (<[tid := t]> (al_tsd s)) s).

Definition assert_ready : M alloc_st unit :=
  s ← mget; massert (al_ok s || al_recovering s).

Definition Alloc_acquire (tid size : Z) : M alloc_st region_t :=
  assert_ready ;;
  t ← thread_cache tid;
  recovering ← mgets al_recovering;
  '(t, r) ← alm (ThreadCache_acquire t size recovering);
  put_cache tid t ;;
  mret r.

Definition Alloc_release (tid ptr : Z) : M alloc_st unit :=
  assert_ready ;;
  t ← thread_cache tid;
  recovering ← mgets al_recovering;
  t ← alm (ThreadCache_release t ptr recovering);
  put_cache tid t.

Definition Alloc_region_size (tid ptr : Z) : M alloc_st Z :=
  thread_cache tid ;; alm (ThreadCache_region_size ptr).

Definition Alloc_used_size : M alloc_st Z := exa used_size.

(** *** Reboot *)

Definition nruns : M alloc_st Z := mgets (λ s, lenZ (rn_cases (as_run (al_arena s)))).

(** [meta->cond() = kPure; persist_write_back(&meta->cond(), sizeof(RunCond))] *)
Definition small_purify (meta : Z) : M alloc_st unit :=
  exa (pm (st_small meta (set_sm_cond kPure) ;; persist_write_back (LSmall meta))).
Definition medium_purify (meta : Z) : M alloc_st unit :=
  exa (pm (st_med meta (set_mm_cond kPure) ;; persist_write_back (LMed meta))).

Definition small_reboot (desc : Z) : M alloc_st unit :=
  d ← exa (pm (ld_desc desc));
  n ← nruns;
  massert (negb (desc =? nullptr) && bool_decide (ed_type d = kSmall)) ;;
  massert (ed_rcase d <? n) ;;
  case_op (ed_rcase d) (λ c, RunCase_small_reload c desc) ;;
  ext ← exa (extent desc);
  mfor (Z.to_nat (ed_count d)) 0 (λ rid,
    let meta := ext + rid * ed_size d in
    m ← exa (pm (ld_small meta));
    used ← small_used d rid;
    mwhen (used && bool_decide (sm_cond m = kPolluted))
      (alm (on_arena (sm_arena m) (λ a, Arena_reload_small a meta meta)) ;;
       small_purify meta)).

Definition medium_reboot (desc : Z) : M alloc_st unit :=
  d ← exa (pm (ld_desc desc));
  n ← nruns;
  massert (negb (desc =? nullptr) && bool_decide (ed_type d = kMedium)) ;;
  massert (ed_rcase d <? n) ;;
  case_op (ed_rcase d) (λ c, RunCase_medium_reload c desc) ;;
  ext ← exa (extent desc);
  mfor (Z.to_nat (ed_count d)) 0 (λ rid,
    let meta := ed_runs d + rid * sizeof_MediumMeta in
    let run := ext + rid * ed_size d in
    m ← exa (pm (ld_med meta));
    used ← medium_used d rid;
    mwhen (used && bool_decide (mm_cond m = kPolluted))
      (alm (on_arena (mm_arena m) (λ a, Arena_reload_medium a meta run)) ;;
       medium_purify meta)).

Definition large_reboot (desc : Z) : M alloc_st unit :=
  d ← exa (pm (ld_desc desc));
  n ← nruns;
  massert (negb (desc =? nullptr) && bool_decide (ed_type d = kLarge)) ;;
  massert (ed_rcase d <? n) ;;
  case_op (ed_rcase d) (λ c, RunCase_large_reload c desc).

(** *** Recovery

    [rebuild] is the functor of the user, which may acquire and release; it runs
    in the state [T] of the user, which contains that of the allocator. *)
Section recover.
Context {T : Type} (get : T → alloc_st) (put : alloc_st → T → T).
Variable rebuild : region_t → M T unit.

Definition inT {A} (m : M alloc_st A) : M T A := mzoom get put m.

(** The regions in use, collected before [rebuild] is called. *)
Definition busy_regions (p : pmem) (count size objs : Z) (token : Z → token_ref) : list region_t :=
  omap (λ ind,
    if token_busy (default kFreeCode (token_byte p (token ind)))
    then Some (region (Some (token ind)) (objs + size * ind)) else None) (seqZ 0 count).

Definition cur_pmem : M alloc_st pmem :=
  mgets (λ s, mem (es_pst (rn_ext (as_run (al_arena s))))).

Definition small_recover (desc : Z) : M T unit :=
  d ← inT (exa (pm (ld_desc desc)));
  massert (negb (desc =? nullptr) && bool_decide (ed_type d = kSmall)) ;;
  inT (case_op (ed_rcase d) (λ c, RunCase_small_reload c desc)) ;;
  ext ← inT (exa (extent desc));
  mfor (Z.to_nat (ed_count d)) 0 (λ rid,
    let rsize := ed_size d in
    let meta := ext + rid * rsize in
    m ← inT (exa (pm (ld_small meta)));
    let objs := u64 (meta + rsize - sm_count m * sm_size m) in
    d ← inT (exa (pm (ld_desc desc)));
    used ← small_used d rid;
    mwhen used (
      mwhen (SmallMeta_half_used m)
        (inT (alm (on_arena (sm_arena m) (λ a, Arena_reload_small a meta meta)))) ;;
      mwhen (bool_decide (sm_cond m = kPolluted)) (inT (small_purify meta)) ;;
      p ← inT cur_pmem;
      mforeach (busy_regions p (sm_count m) (sm_size m) objs (TSmall meta)) rebuild)).

Definition medium_recover (desc : Z) : M T unit :=
  d ← inT (exa (pm (ld_desc desc)));
  massert (negb (desc =? nullptr) && bool_decide (ed_type d = kMedium)) ;;
  inT (case_op (ed_rcase d) (λ c, RunCase_medium_reload c desc)) ;;
  ext ← inT (exa (extent desc));
  mfor (Z.to_nat (ed_count d)) 0 (λ rid,
    let meta := ed_runs d + rid * sizeof_MediumMeta in
    let run := ext + rid * ed_size d in
    m ← inT (exa (pm (ld_med meta)));
    d ← inT (exa (pm (ld_desc desc)));
    used ← medium_used d rid;
    mwhen used (
      mwhen (MediumMeta_half_used m)
        (inT (alm (on_arena (mm_arena m) (λ a, Arena_reload_medium a meta run)))) ;;
      mwhen (bool_decide (mm_cond m = kPolluted)) (inT (medium_purify meta)) ;;
      p ← inT cur_pmem;
      mforeach (busy_regions p (mm_count m) (mm_size m) run (TMedium meta)) rebuild)).

Definition large_recover (desc : Z) : M T unit :=
  d ← inT (exa (pm (ld_desc desc)));
  massert (negb (desc =? nullptr) && bool_decide (ed_type d = kLarge)) ;;
  half ← ExtentDesc_half_used d;
  mwhen half (inT (case_op (ed_rcase d) (λ c, RunCase_large_reload c desc))) ;;
  ext ← inT (exa (extent desc));
  p ← inT cur_pmem;
  mforeach (busy_regions p (ed_count d) (ed_size d) ext (TLarge desc)) rebuild.

(** [for(; desc != nullptr; desc = recovery.next())]: the index grows with every
    step and stays within the extents of the pool. *)
Fixpoint scan_extents (fuel : nat) (index : Z) : M T unit :=
  match fuel with
  | O => merr EFuel
  | S fuel =>
      '(desc, index) ← inT (exa (RecoverContainer_next index));
      if desc =? nullptr then mret tt
      else
        d ← inT (exa (pm (ld_desc desc)));
        massert (negb (bool_decide (ed_type d = kInvalid))) ;;
        match ed_type d with
        | kSmall => small_recover desc
        | kMedium => medium_recover desc
        | kLarge => large_recover desc
        | _ => merr EExit
        end ;;
        scan_extents fuel index
  end.

(** [for(x : l) x.f()] on the elements of an array of the state. *)
Definition each_arena (f : Arena → M run_st (Arena * unit)) : M alloc_st unit :=
  n ← mgets (λ s, length (as_arenas (al_arena s)));
  mfor n 0 (λ i, alm (on_arena i f)).
Definition each_case (f : RunCase → M ext_st (RunCase * unit)) : M alloc_st unit :=
  n ← mgets (λ s, length (rn_cases (as_run (al_arena s))));
  mfor n 0 (λ i, alm (rnm (on_case i f))).

Definition Alloc_finish_recover : M alloc_st unit :=
  each_arena (λ a, no_result (Arena_finish_recover a)) ;;
  each_case (λ c, no_result (RunCase_finish_recover c)) ;;
  exa finish_recover_ext.

Definition Alloc_recover : M T unit :=
  s ← inT mget;
  massert (negb (al_ok s) && negb (al_recovering s)) ;;
  inT (mmodify (set_al_recovering true)) ;;
  index ← inT (exa ExtentCase_resume);
  total ← inT (exa (pm (mgets (λ s, ext_total_ (pm_head (mem s))))));
  scan_extents (Datatypes.S (Z.to_nat total)) index ;;
  inT (Alloc_finish_recover ;; mmodify (set_al_ok true) ;; mmodify (set_al_recovering false)).
End recover.

(** *** Construction, opening, destruction *)

Definition AllocatorDetail_new (this ncpus : Z) (x : ext_st) (locals : gmap Z Z)
    : res unit alloc_st :=
  let nruns := (ncpus + kCorePerRunCase - 1) / kCorePerRunCase in
  let narenas := (ncpus + kCorePerArena - 1) / kCorePerArena in
  match mfold (S := unit) (Z.to_nat nruns) 0 (λ rid l, c ← RunCase_new rid; mret (l ++ [c])) [] tt with
  | Err e => Err e
  | Ok cases _ =>
      match mfold (S := unit) (Z.to_nat narenas) 0 (λ aid l,
              a ← Arena_new aid (aid mod nruns); mret (l ++ [a])) [] tt with
      | Err e => Err e
      | Ok arenas _ =>
          Ok {| al_arena := {| as_run := {| rn_ext := x; rn_cases := cases; rn_sc := SizeClass_new |};
                               as_arenas := arenas |};
                al_ok := false; al_recovering := false; al_tsd := ∅; al_this := this;
                al_local := locals |} tt
      end
  end.

Definition Alloc_open (fs : FileSystem) (existing : option (Z * Z)) (size : Z) (rec : bool)
    : M alloc_st unit :=
  reboot ← exa (ExtentCase_open fs existing size);
  if (reboot : bool) then
    '(ok, extents) ← exa (ExtentCase_reboot []);
    mmodify (set_al_ok (if rec then false else ok)) ;;
    mwhen (ok && negb rec)
      (mforeach extents (λ desc,
         d ← exa (pm (ld_desc desc));
         massert (ed_next d =? nullptr) ;;
         match ed_type d with
         | kSmall => small_reboot desc
         | kMedium => medium_reboot desc
         | kLarge => large_reboot desc
         | _ => merr EExit
         end))
  else mmodify (set_al_ok true).

(** The destructor; the last step is that of [MetaFile]. *)
Definition AllocatorDetail_close : M alloc_st unit :=
  tsd ← mgets al_tsd;
  mforeach (um_order (dom tsd)) (λ tid, t ← mderef (tsd !! tid); alm (ThreadCache_close t)) ;;
  each_arena (λ a, Arena_close a ;; mret (a, tt)) ;;
  each_case (λ c, RunCase_close c ;; mret (c, tt)) ;;
  exa (pm MetaHead_shutdown).

(** *** The constructor of [Allocator]

    [malloc i]: the address that the [i]-th call returns.  The blocks of the
    earlier calls are not freed before the loop ends. *)
Fixpoint alloc_address (fuel : nat) (i : Z) (malloc : Z → Z) (allocs : gset Z) : option Z :=
  match fuel with
  | O => None
  | S fuel =>
      let alloc := malloc i in
      if bool_decide (alloc ∈ allocs) then alloc_address fuel (i + 1) malloc allocs
      else Some alloc
  end.
Definition Allocator_address (malloc : Z → Z) (allocs : gset Z) : option (Z * gset Z) :=
  a ← alloc_address (Datatypes.S (size allocs)) 0 malloc allocs;
  Some (a, {[a]} ∪ allocs).
End slab.

(** ** Lemmas *)

(** Distinct addresses run out of a finite set. *)
Lemma alloc_address_fresh fuel i malloc (allocs seen : gset Z) :
  (∀ j k, 0 ≤ j < k → malloc j ≠ malloc k) → 0 ≤ i →
  (∀ x, x ∈ seen → x ∈ allocs ∧ ∃ j, 0 ≤ j < i ∧ malloc j = x) →
  (size allocs < size seen + fuel)%nat →
  ∃ a, alloc_address fuel i malloc allocs = Some a ∧ a ∉ allocs.
Proof.
  intros Hd. revert i seen. induction fuel as [|fuel IH]; intros i seen Hi Hs Hsz.
  - exfalso. assert (size seen ≤ size allocs)%nat; [|lia].
    apply subseteq_size. intros x Hx. by apply Hs.
  - simpl. case_bool_decide as Hin; [|by exists (malloc i)].
    apply (IH (i + 1) ({[malloc i]} ∪ seen)); [lia| |].
    + intros x [->%elem_of_singleton|Hx]%elem_of_union.
      * split; [done|]. exists i. lia.
      * destruct (Hs x Hx) as (? & j & ? & ?). split; [done|]. exists j. split; [lia|done].
    + rewrite size_union, size_singleton; [lia|].
      intros x ->%elem_of_singleton Hx. destruct (Hs _ Hx) as (_ & j & Hj & He).
      by apply (Hd j i).
Qed.

Lemma choose_loop_least arenas l aid idx :
  (∀ k, 0 ≤ k < lenZ l → nthZ arenas (aid + k) = nthZ l k) → aid + lenZ l = lenZ arenas →
  0 ≤ idx < lenZ arenas → 0 ≤ aid →
  (∀ a, a ∈ arenas → 0 ≤ ar_nbinds a) →
  (∀ k a b, 0 ≤ k < aid → nthZ arenas k = Some a → nthZ arenas idx = Some b →
     ar_nbinds b ≤ ar_nbinds a) →
  ∃ b, nthZ arenas (choose_loop arenas l aid idx) = Some b ∧
       ∀ a, a ∈ arenas → ar_nbinds b ≤ ar_nbinds a.
Proof.
  revert aid idx. induction l as [|a l IH]; intros aid idx Hl Hlen Hidx Haid Hn Hmin; simpl.
  - destruct (nthZ_is_Some arenas idx) as [b Hb]; [done|]. exists b. split; [done|].
    intros a Ha. apply list_elem_of_lookup in Ha as [k Hk].
    apply (Hmin (Z.of_nat k)); [|unfold nthZ; by rewrite (proj2 (Z.leb_le _ _)), Nat2Z.id by lia|done].
    apply lookup_lt_Some in Hk. unfold lenZ in *. simpl in Hlen. lia.
  - assert (lenZ (a :: l) = lenZ l + 1) as Hla by (unfold lenZ; simpl; lia).
    assert (0 ≤ lenZ l) by (unfold lenZ; lia).
    assert (nthZ arenas aid = Some a) as Ha.
    { rewrite <-(Z.add_0_r aid). rewrite Hl by lia. done. }
    assert (0 ≤ ar_nbinds a).
    { apply Hn. apply (list_elem_of_lookup_2 _ (Z.to_nat aid)). unfold nthZ in Ha.
      by destruct (0 <=? aid). }
    destruct (Z.eqb_spec (ar_nbinds a) 0) as [Hz|Hz].
    { exists a. split; [done|]. intros a' Ha'. rewrite Hz. by apply Hn. }
    destruct (nthZ_is_Some arenas idx) as [b Hb]; [done|]. rewrite Hb. simpl.
    apply IH; [|lia| |lia|done|].
    + intros k Hk. replace (aid + 1 + k) with (aid + (k + 1)) by lia. rewrite Hl by lia.
      unfold nthZ. rewrite !(proj2 (Z.leb_le _ _)) by lia.
      by replace (Z.to_nat (k + 1)) with (S (Z.to_nat k)) by lia.
    + destruct (ar_nbinds a <? ar_nbinds b); lia.
    + intros k a' b' Hk Ha' Hb'. destruct (Z.ltb_spec (ar_nbinds a) (ar_nbinds b)) as [Hlt|Hge].
      * assert (b' = a) as -> by congruence. destruct (decide (k = aid)) as [->|].
        { assert (a' = a) as -> by congruence. lia. }
        assert (ar_nbinds b ≤ ar_nbinds a') by (apply (Hmin k); [lia|done..]). lia.
      * assert (b' = b) as -> by congruence. destruct (decide (k = aid)) as [->|].
        { assert (a' = a) as -> by congruence. lia. }
        by apply (Hmin k); [lia|..].
Qed.

(** ** Properties *)

(** [choose_arena] returns an arena of the allocator to which no more threads
    are bound than to any other. *)
Lemma choose_arena_least arenas :
  arenas ≠ [] → (∀ a, a ∈ arenas → 0 ≤ ar_nbinds a) →
  ∃ b, nthZ arenas (choose_arena arenas) = Some b ∧
       ∀ a, a ∈ arenas → ar_nbinds b ≤ ar_nbinds a.
Proof.
  intros Hne Hn. unfold choose_arena. apply (choose_loop_least arenas arenas 0 0); try done.
  - destruct arenas as [|a l]; [done|]. unfold lenZ. cbn [length]. lia.
  - lia.
Qed.

(** The loop of the constructor of [Allocator] terminates with an address
    that no allocator of the process has had, so that [local.alloc != this] holds
    in every thread: it needs at most one call of [malloc] more than there are
    such addresses, because blocks that have not been freed are distinct. *)
Lemma Allocator_address_fresh malloc allocs :
  (∀ j k, 0 ≤ j < k → malloc j ≠ malloc k) →
  ∃ a, Allocator_address malloc allocs = Some (a, {[a]} ∪ allocs) ∧ a ∉ allocs.
Proof.
  intros Hd. destruct (alloc_address_fresh (S (size allocs)) 0 malloc allocs ∅) as (a & Ha & Hf);
    [done|done|set_solver|rewrite size_empty; lia|].
  exists a. unfold Allocator_address. rewrite Ha. done.
Qed.

(** ** Witnesses *)

Definition example_arena (n : Z) : Arena := {|
  ar_index := 0; ar_rcase := 0; ar_nbinds := n; ar_bins := [] |}.

Lemma choose_arena_least_witness :
  ∃ b, nthZ [example_arena 2; example_arena 1; example_arena 3]
         (choose_arena [example_arena 2; example_arena 1; example_arena 3]) = Some b ∧
       ar_nbinds b ≤ 1.
Proof.
  destruct (choose_arena_least [example_arena 2; example_arena 1; example_arena 3]) as (b & Hb & Hl).
  - done.
  - intros a Ha. rewrite !elem_of_cons in Ha. destruct Ha as [->|[->|[->|Ha]]]; cbn; [lia..|].
    by apply elem_of_nil in Ha.
  - exists b. split; [exact Hb|]. apply (Hl (example_arena 1)). set_solver.
Defined.

Lemma Allocator_address_fresh_witness :
  ∃ a, Allocator_address (λ i, 4096 + 64 * i) {[4096; 4160]} = Some (a, {[a; 4096; 4160]}).
Proof.
  destruct (Allocator_address_fresh (λ i, 4096 + 64 * i) {[4096; 4160]}) as (a & Ha & _); [lia|].
  exists a. rewrite Ha. by rewrite (assoc_L (∪)).
Defined.
