(* ===== verification/SlabSpec.v ===== *)
(** * The allocator in normal operation

    The contract of [acquire], [release] and [region_size] of [AllocatorDetail].
    An object is held ([held]) if it has been handed out and is not in the cache
    of a thread.  [acquire] hands out an object that was not held; [release] of a
    held object gives back exactly that one; all other held objects keep their
    address, their size and their token. *)

From S2P Require Export Slab CacheSpec PublishSpec.
Import Pmem.

(** ** Definitions *)

(** [G tid idx]: the regions of the class [idx] in the cache of the thread [tid]. *)
Record alloc_inv `{Util} (z : alloc_st) (fl ml : list Z) (G : Z → Z → list cell) : Prop := {
  lv_arenas : arenas_inv (al_arena z) fl ml;
  lv_some : 0 < lenZ (as_arenas (al_arena z));
  lv_cache : ∀ tid th, al_tsd z !! tid = Some th → tcache_inv (al_arena z) fl th (G tid);
  lv_none : ∀ tid, al_tsd z !! tid = None → ∀ idx, G tid idx = [];
  lv_disj : ∀ tid tid' o, cached (G tid) o → cached (G tid') o → tid = tid';
  lv_local : ∀ tid, al_local z !! tid = Some (al_this z) → is_Some (al_tsd z !! tid);
}.

(** The object has been handed out to the user. *)
Definition held (z : alloc_st) (fl : list Z) (G : Z → Z → list cell) (o : obj) : Prop :=
  oused (al_arena z) fl o ∧ ∀ tid, ¬ cached (G tid) o.

Definition al_ext (z : alloc_st) : ext_st := ext_of (al_arena z).

(** The allocator runs, and not in recovery. *)
Definition running (z : alloc_st) : Prop := al_ok z = true ∧ al_recovering z = false.
Definition same_mode (z z' : alloc_st) : Prop :=
  al_ok z' = al_ok z ∧ al_recovering z' = al_recovering z ∧ al_this z' = al_this z ∧
  es_file (al_ext z') = es_file (al_ext z).

(** The bins of a new thread cache. *)
Definition new_cbin (arena bid : Z) : CacheBin := {|
  cb_arena := arena; cb_index := bid;
  cb_capacity := default 0 (nthZ kCacheBinCapTab (bid / kNSlabsPerGrp));
  cb_stock := default 0 (nthZ kCacheBinStockTab (bid / kNSlabsPerGrp)); cb_regions := [] |}.
Definition new_tcache (arena : Z) : ThreadCache :=
  {| th_arena := arena; th_bins := new_cbin arena <$> seqZ 0 40 |}.

(** An arena that has just been constructed. *)
Definition new_abin (index rcase bid : Z) : ArenaBin := {|
  ab_arena := index; ab_index := bid; ab_type := index_type bid; ab_rcase := rcase; ab_0 := ∅; ab_1 := ∅ |}.
Definition new_arena (index rcase : Z) : Arena := {|
  ar_nbinds := 0; ar_index := index; ar_rcase := rcase; ar_bins := new_abin index rcase <$> seqZ 0 40 |}.

Definition updT {A} (G : Z → A) (tid : Z) (x : A) : Z → A := λ j, if decide (j = tid) then x else G j.

(** The object [o] has been handed out, and nothing else. *)
Record acquired_obj `{Util} (z z' : alloc_st) (fl fl' : list Z) (G G' : Z → Z → list cell) (o : obj) (size : Z)
    : Prop := {
  ao_fresh : ¬ held z fl G o;
  ao_held : ∀ o', held z' fl' G' o' ↔ o' = o ∨ held z fl G o';
  ao_same : ∀ o', held z fl G o' → obj_same (al_ext z) (al_ext z') o';
  ao_size : fits size (obj_size (al_ext z') o);
  ao_token : obj_token (al_ext z') o = Some kFreeCode;
}.

(** The object [o] has been given back, and nothing else. *)
Record released_obj (z z' : alloc_st) (fl fl' : list Z) (G G' : Z → Z → list cell) (o : obj) : Prop := {
  ro_held : ∀ o', held z' fl' G' o' ↔ held z fl G o' ∧ o' ≠ o;
  ro_same : ∀ o', held z' fl' G' o' → obj_same (al_ext z) (al_ext z') o';
}.

(** The token of the object [o] has been set to [v], and nothing else. *)
Record published_obj (z z' : alloc_st) (fl : list Z) (G : Z → Z → list cell) (o : obj) (v : Z) : Prop := {
  po_held : ∀ o', held z' fl G o' ↔ held z fl G o';
  po_same : ∀ o', held z fl G o' → o' ≠ o → obj_same (al_ext z) (al_ext z') o';
  po_region : obj_region (al_ext z') o = obj_region (al_ext z) o;
  po_size : obj_size (al_ext z') o = obj_size (al_ext z) o;
  po_token : obj_token (al_ext z') o = Some v;
}.

(** Nothing happens to the objects. *)
Record held_same (z z' : alloc_st) (fl fl' : list Z) (G : Z → Z → list cell) : Prop := {
  hs_held : ∀ o, held z' fl' G o ↔ held z fl G o;
  hs_same : ∀ o, held z fl G o → obj_same (al_ext z) (al_ext z') o;
}.

(** The arena of a thread: that of its cache, or the one that its new cache will get. *)
Definition thread_arena (z : alloc_st) (tid : Z) : Z :=
  match al_tsd z !! tid with
  | Some th => th_arena th
  | None => choose_arena (as_arenas (al_arena z))
  end.
(** In the state [z] itself, the cache of the thread and the arena of the thread
    cannot serve [size] ([no_memory]). *)
Definition out_of_memory `{Util} (z : alloc_st) (fl : list Z) (G : Z → Z → list cell) (tid size : Z) : Prop :=
  0 ≤ thread_arena z tid < lenZ (as_arenas (al_arena z)) ∧
  no_memory (al_arena z) fl (thread_arena z tid) (G tid) size.

(** ** Lemmas *)

Section lemmas.
Context `{UtilSpec} `{UnorderedMapSpec}.
Implicit Types (y : arena_st) (z : alloc_st) (fl ml : list Z) (th : ThreadCache) (o : obj).

(** *** The cache of a thread *)

Definition cbin_check (bid : Z) : bool :=
  match nthZ kCacheBinCapTab (bid / kNSlabsPerGrp), nthZ kCacheBinStockTab (bid / kNSlabsPerGrp) with
  | Some c, Some s => (0 <? s) && (s <=? c) && (c <? 2 ^ 32)
  | _, _ => false
  end.
Lemma cbins_checked : forallb cbin_check (seqZ 0 40) = true.
Proof. vm_compute. reflexivity. Qed.

Lemma cbin_tables bid :
  0 ≤ bid < 40 → ∃ c k, nthZ kCacheBinCapTab (bid / kNSlabsPerGrp) = Some c ∧
    nthZ kCacheBinStockTab (bid / kNSlabsPerGrp) = Some k ∧ 0 < k ≤ c ∧ c < 2 ^ 32.
Proof.
  intros Hb. pose proof cbins_checked as Hall. rewrite forallb_forall in Hall. specialize (Hall bid).
  rewrite <-list_elem_of_In, elem_of_seqZ in Hall. specialize (Hall ltac:(lia)). unfold cbin_check in Hall.
  destruct (nthZ kCacheBinCapTab _) as [c|]; [|done]. destruct (nthZ kCacheBinStockTab _) as [k|]; [|done].
  apply andb_true_iff in Hall as [Hall Hc%Z.ltb_lt]. apply andb_true_iff in Hall as [Hk%Z.ltb_lt Hkc%Z.leb_le].
  by exists c, k.
Qed.

(** The runs, the bins and the run cases of the arenas are the same. *)
Definition same_bins (y y' : arena_st) : Prop :=
  as_run y' = as_run y ∧ lenZ (as_arenas y') = lenZ (as_arenas y) ∧
  (∀ n idx b, bin_of y' n idx b ↔ bin_of y n idx b) ∧
  ∀ n a, nthZ (as_arenas y) n = Some a → ∃ a', nthZ (as_arenas y') n = Some a' ∧ ar_rcase a' = ar_rcase a.

Lemma same_bins_refl y : same_bins y y.
Proof. do 3 (split; [done|]). intros n a Ha. by exists a. Qed.

(** Binding a thread to an arena changes nothing else. *)
Lemma nbinds_arenas y fl ml n a k :
  arenas_inv y fl ml → nthZ (as_arenas y) n = Some a → 0 ≤ ar_nbinds a + k →
  let y' := {| as_run := as_run y; as_arenas := updZ (as_arenas y) n (set_ar_nbinds (ar_nbinds a + k) a) |} in
  arenas_inv y' fl ml ∧ th_same y y' fl fl ∧ same_bins y y'.
Proof.
  intros Hy Ha Hk y'.
  assert (∀ m c, nthZ (as_arenas y') m = Some c → ∃ d, nthZ (as_arenas y) m = Some d ∧ ar_bins c = ar_bins d ∧
    ar_rcase c = ar_rcase d ∧ ar_index c = ar_index d ∧ (0 ≤ ar_nbinds d → 0 ≤ ar_nbinds c)) as Hold.
  { intros m c Hc. apply (nthZ_updZ_inv _ _ _ _ _ _ Ha) in Hc as [[-> ->]|[_ Hc]]; [by exists a|by exists c]. }
  assert (∀ m idx b, bin_of y' m idx b ↔ bin_of y m idx b) as Hbin.
  { intros m idx b. split.
    - intros (c & Hc & Hb). destruct (Hold m c Hc) as (d & Hd & Eb & _). exists d. by rewrite <-Eb.
    - intros (c & Hc & Hb). destruct (decide (n = m)) as [<-|Hne].
      + assert (c = a) as -> by congruence. eexists. split; [apply nthZ_updZ_eq; by eapply nthZ_Some|done].
      + exists c. split; [|done]. cbn. by rewrite nthZ_updZ_ne. }
  assert (∀ o, oused y' fl o ↔ oused y fl o) as Hu.
  { intros [t|i m]; [|done]. simpl. unfold gaused. by setoid_rewrite Hbin. }
  split; [|split]; [constructor; try done|constructor; try done|].
  - apply (av_runs _ _ _ Hy).
  - apply (av_apart _ _ _ Hy).
  - intros m c Hc. destruct (Hold m c Hc) as (d & Hd & -> & -> & -> & Hn).
    destruct (av_arena _ _ _ Hy m d Hd) as (? & ? & ? & ? & ?).
    do 4 (split; [done|]). by apply Hn.
  - intros m c idx b Hc Hb. destruct (Hold m c Hc) as (d & Hd & Eb & -> & _). rewrite Eb in Hb.
    by apply (av_bin _ _ _ Hy m d idx b).
  - split; [cbn; apply lenZ_updZ|done].
  - split; [done|]. split; [cbn; apply lenZ_updZ|]. split; [done|]. intros m c Hc. cbn.
    destruct (decide (n = m)) as [<-|Hne]; [|exists c; by rewrite nthZ_updZ_ne].
    assert (c = a) as -> by congruence. eexists. split; [apply nthZ_updZ_eq; by eapply nthZ_Some|done].
Qed.

Lemma wp_add_nbinds y fl ml n a k Q :
  arenas_inv y fl ml → nthZ (as_arenas y) n = Some a → 0 ≤ ar_nbinds a + k →
  (∀ y', arenas_inv y' fl ml → th_same y y' fl fl → same_bins y y' → Q tt y') → wp (add_nbinds n k) Q y.
Proof.
  intros Hy Ha Hk HQ. unfold add_nbinds. apply (wp_on_arena n a); [done|]. wp_step. cbn [fst snd].
  destruct (nbinds_arenas y fl ml n a k Hy Ha Hk) as (Hy' & Hs & Hsb). by apply HQ.
Qed.

Lemma wp_ThreadCache_new y fl ml n a Q :
  arenas_inv y fl ml → nthZ (as_arenas y) n = Some a →
  (∀ y', arenas_inv y' fl ml → th_same y y' fl fl → same_bins y y' → Q (new_tcache n) y') → wp (ThreadCache_new n) Q y.
Proof.
  intros Hy Ha HQ. destruct (av_arena _ _ _ Hy n a Ha) as (_ & _ & _ & _ & Hn). unfold ThreadCache_new. wp_step.
  apply (wp_add_nbinds y fl ml n a 1); [done|done|lia|]. intros y' Hy' Hs Hsb. wp_step.
  apply (wp_mfold (λ i l q, q = y' ∧ l = new_cbin n <$> seqZ 0 i)).
  - done.
  - change (Z.of_nat (Z.to_nat kNSlabsCached)) with 40. intros i l q Hi [-> ->].
    destruct (cbin_tables i) as (c & k & Ec & Ek & Hk & Hc); [lia|].
    wp_step. wp_step; [exact Ec|]. wp_step. wp_step; [exact Ek|]. wp_step. unfold CacheBin_init. wp_step.
    wp_step; [apply andb_true_iff; split; [apply Z.ltb_lt; change kNSlabsCached with 40; lia|apply Z.leb_le; lia]|].
    wp_step. wp_step. split; [done|]. rewrite (seqZ_app 0 i 1), fmap_app by lia. f_equal.
    rewrite !u32_small by lia. change (new_cbin n <$> seqZ (0 + i) 1) with [new_cbin n i].
    unfold new_cbin. by rewrite Ec, Ek.
  - change (0 + Z.of_nat (Z.to_nat kNSlabsCached)) with 40. intros l q [-> ->]. wp_step. by apply HQ.
Qed.

Lemma new_tcache_inv y fl n (G : Z → list cell) :
  0 ≤ n < lenZ (as_arenas y) → (∀ idx, G idx = []) → tcache_inv y fl (new_tcache n) G.
Proof.
  intros Hn HG. constructor; [done|reflexivity| |done]. intros idx b Hb. rewrite HG. pose proof (nthZ_Some _ _ _ Hb) as Hi.
  change (lenZ (th_bins (new_tcache n))) with 40 in Hi. cbn [th_bins new_tcache] in Hb.
  rewrite nthZ_seqZ_fmap in Hb by done. injection Hb as <-.
  destruct (cbin_tables idx Hi) as (c & k & Ec & Ek & Hk & Hc). unfold new_cbin. rewrite Ec, Ek.
  constructor; cbn; try done.
  - unfold lenZ. simpl. lia.
  - intros t Ht. by apply not_elem_of_nil in Ht.
  - apply NoDup_nil_2.
  - unfold class_stock. by rewrite Ek.
Qed.

Lemma same_cells_kept y y' fl fl' th G : th_same y y' fl fl' → tcache_inv y fl th G →
  ∀ idx, cells_kept y y' fl fl' (G idx).
Proof.
  intros Hs Ht idx t Hin. destruct (tcache_cell y fl th G idx t Ht Hin) as (_ & Hu & _).
  split; [by apply (tn_used _ _ _ _ Hs (OCell t))|by apply (tn_kept _ _ _ _ Hs (OCell t))].
Qed.

Lemma th_same_refl y fl : th_same y y fl fl.
Proof. by constructor. Qed.
Lemma th_same_trans y1 y2 y3 fl1 fl2 fl3 : th_same y1 y2 fl1 fl2 → th_same y2 y3 fl2 fl3 → th_same y1 y3 fl1 fl3.
Proof.
  intros [h1 h2 h3] [k1 k2 k3]. constructor; [by eapply same_arenas_trans|by intros o; rewrite k2, h2|].
  intros o Hu. eapply obj_same_trans; [by apply h3|]. by apply k3, h2.
Qed.

(** A step that hands out nothing, with new values of the thread-local variables. *)
Lemma alloc_same z y' fl ml fl' ml' G loc :
  alloc_inv z fl ml G → arenas_inv y' fl' ml' → th_same (al_arena z) y' fl fl' →
  (∀ tid, loc !! tid = Some (al_this z) → is_Some (al_tsd z !! tid)) →
  alloc_inv (set_al_local loc (set_al_arena y' z)) fl' ml' G.
Proof.
  intros [h1 h2 h3 h4 h5 h6] Hy' Hs Hloc. constructor; try done.
  - cbn. by rewrite (proj1 (tn_arenas _ _ _ _ Hs)).
  - intros tid th Hth. apply (tcache_kept (al_arena z) y' fl fl'); [apply Hs| |by apply h3].
    eapply same_cells_kept; [exact Hs|by apply h3].
Qed.

Lemma cached_nil (G : Z → list cell) o : (∀ idx, G idx = []) → ¬ cached G o.
Proof. intros HG. destruct o as [t|]; [|by intros []]. intros (idx & Hin). rewrite HG in Hin. by apply not_elem_of_nil in Hin. Qed.

Lemma same_mode_intro z z' :
  al_ok z' = al_ok z → al_recovering z' = al_recovering z → al_this z' = al_this z →
  same_arenas (al_arena z) (al_arena z') → same_mode z z'.
Proof. intros h1 h2 h3 (_ & _ & h4). done. Qed.

Lemma same_mode_trans z1 z2 z3 : same_mode z1 z2 → same_mode z2 z3 → same_mode z1 z3.
Proof. intros (?&?&?&?) (?&?&?&?). unfold same_mode. split_and!; congruence. Qed.

Lemma wp_alm {A} (m : M arena_st A) Q z :
  wp m (λ a y, Q a (set_al_arena y z)) (al_arena z) → wp (alm m) Q z.
Proof. apply wp_zoom. Qed.

Lemma wp_thread_cache z fl ml G tid Q :
  alloc_inv z fl ml G →
  (∀ z' th, alloc_inv z' fl ml G → same_mode z z' → th_same (al_arena z) (al_arena z') fl fl →
     same_bins (al_arena z) (al_arena z') → th_arena th = thread_arena z tid →
     al_tsd z' !! tid = Some th → Q th z') →
  wp (thread_cache tid) Q z.
Proof.
  intros Hz HQ. pose proof Hz as [h1 h2 h3 h4 h5 h6]. unfold thread_cache. wp_step. wp_step.
  assert (al_local z !! tid = Some (al_this z) → is_Some (al_tsd z !! tid)) as Hl by apply h6.
  case_bool_decide as Hloc.
  - destruct (Hl Hloc) as [th Hth]. wp_step; [exact Hth|]. apply (HQ z th); [done|done|apply th_same_refl|apply same_bins_refl|by unfold thread_arena; rewrite Hth|done].
  - wp_step. wp_step. set (loc := <[tid := al_this z]> (al_local z)).
    destruct (al_tsd z !! tid) as [th|] eqn:Eth.
    + wp_step. apply HQ; [|done|apply th_same_refl|apply same_bins_refl|by unfold thread_arena; rewrite Eth|done].
      replace (set_al_local loc z) with (set_al_local loc (set_al_arena (al_arena z) z)) by (by destruct z).
      apply (alloc_same z _ fl ml); [done|done|apply th_same_refl|]. intros t Ht. unfold loc in Ht.
      destruct (decide (t = tid)) as [->|Hne]; [by rewrite Eth|]. rewrite lookup_insert_ne in Ht by done. by apply h6.
    + destruct (choose_loop_least (as_arenas (al_arena z)) (as_arenas (al_arena z)) 0 0) as (a & Ha & _).
      { intros k Hk. done. } { lia. } { lia. } { done. }
      { intros a Ha. apply list_elem_of_lookup in Ha as [n Hn]. apply (av_arena _ _ _ h1 (Z.of_nat n)).
        unfold nthZ. by rewrite (proj2 (Z.leb_le _ _)), Nat2Z.id by lia. }
      { lia. }
      fold (choose_arena (as_arenas (al_arena z))) in Ha. wp_step. apply wp_alm. cbn [al_arena set_al_local].
      apply (wp_ThreadCache_new (al_arena z) fl ml _ a); [done|done|]. intros y' Hy' Hs Hsb. wp_step. wp_step. wp_step.
      set (n := choose_arena _) in *.
      apply HQ; [|apply same_mode_intro; [done|done|done|apply Hs]|done|done|by unfold thread_arena; rewrite Eth|by apply lookup_insert_eq].
      assert (lenZ (as_arenas y') = lenZ (as_arenas (al_arena z))) as Elen by apply Hs.
      constructor; cbn.
      * done.
      * by rewrite Elen.
      * intros t th Hth. destruct (decide (t = tid)) as [->|Hne].
        -- rewrite lookup_insert_eq in Hth. injection Hth as <-. apply new_tcache_inv; [|by apply h4].
           rewrite Elen. by eapply nthZ_Some.
        -- rewrite lookup_insert_ne in Hth by done.
           apply (tcache_kept (al_arena z) y' fl fl); [apply Hs| |by apply h3].
           eapply same_cells_kept; [exact Hs|by apply h3].
      * intros t Ht. apply lookup_insert_None in Ht as [Ht _]. by apply h4.
      * done.
      * intros t Ht. destruct (decide (t = tid)) as [->|Hne]; [rewrite lookup_insert_eq; by eexists|].
        unfold loc in Ht. rewrite lookup_insert_ne in Ht by done. rewrite lookup_insert_ne by done. by apply h6.
Qed.

(** *** The caches after a step of one thread *)

Lemma cached_oused z fl ml G tid o : alloc_inv z fl ml G → cached (G tid) o → oused (al_arena z) fl o.
Proof.
  intros Hz Hc. destruct o as [t|]; [|done]. destruct Hc as (idx & Hin).
  destruct (al_tsd z !! tid) as [th|] eqn:E.
  - by apply (tcache_cell _ _ _ _ _ _ (lv_cache _ _ _ _ Hz tid th E) Hin).
  - rewrite (lv_none _ _ _ _ Hz tid E) in Hin. by apply not_elem_of_nil in Hin.
Qed.

Lemma updT_eq {A} (G : Z → A) tid x : updT G tid x tid = x.
Proof. unfold updT. by rewrite decide_True. Qed.
Lemma updT_ne {A} (G : Z → A) tid x t : t ≠ tid → updT G tid x t = G t.
Proof. intros Hne. unfold updT. by rewrite decide_False. Qed.

(** The state after the thread [tid] has changed the arenas and its cache. *)
Definition cache_step (z : alloc_st) (y' : arena_st) (tid : Z) (th' : ThreadCache) : alloc_st :=
  set_al_tsd (<[tid := th']> (al_tsd z)) (set_al_arena y' z).

Lemma cache_step_inv z y' fl ml fl' ml' G tid th th' G' :
  alloc_inv z fl ml G → al_tsd z !! tid = Some th → arenas_inv y' fl' ml' → same_arenas (al_arena z) y' →
  tcache_inv y' fl' th' G' →
  (∀ t th2, t ≠ tid → al_tsd z !! t = Some th2 → ∀ idx, cells_kept (al_arena z) y' fl fl' (G t idx)) →
  (∀ t o, t ≠ tid → cached G' o → ¬ cached (G t) o) →
  alloc_inv (cache_step z y' tid th') fl' ml' (updT G tid G').
Proof.
  intros Hz Eth Hy' Hsa Ht' Hk Hd. pose proof Hz as [h1 h2 h3 h4 h5 h6]. constructor; cbn.
  - done.
  - by rewrite (proj1 Hsa).
  - intros t th2 Hth. destruct (decide (t = tid)) as [->|Hne].
    + rewrite lookup_insert_eq in Hth. injection Hth as <-. by rewrite updT_eq.
    + rewrite lookup_insert_ne in Hth by done. rewrite updT_ne by done.
      apply (tcache_kept (al_arena z) y' fl fl'); [done|by eapply Hk|by apply h3].
  - intros t Ht. apply lookup_insert_None in Ht as [Ht Hne]. rewrite updT_ne by done. by apply h4.
  - intros t t' o. destruct (decide (t = tid)) as [->|Hn], (decide (t' = tid)) as [->|Hn'];
      rewrite ?updT_eq, ?updT_ne by done; intros Hc Hc'; [done| | |by apply (h5 t t' o)];
      [by destruct (Hd t' o Hn' Hc)|by destruct (Hd t o Hn Hc')].
  - intros t Ht. destruct (decide (t = tid)) as [->|Hne]; [rewrite lookup_insert_eq; by eexists|].
    rewrite lookup_insert_ne by done. by apply h6.
Qed.

Lemma thread_acquired z y' fl ml fl' ml' G tid th th' G' o :
  alloc_inv z fl ml G → al_tsd z !! tid = Some th → arenas_inv y' fl' ml' → tcache_inv y' fl' th' G' →
  th_acquired (al_arena z) y' fl fl' (G tid) G' o →
  let z' := cache_step z y' tid th' in let G2 := updT G tid G' in
  alloc_inv z' fl' ml' G2 ∧ ¬ held z fl G o ∧ (∀ o', held z' fl' G2 o' ↔ o' = o ∨ held z fl G o').
Proof.
  intros Hz Eth Hy' Ht' Ha z' G2. pose proof Hz as [h1 h2 h3 h4 h5 h6].
  assert (∀ t o', t ≠ tid → cached G' o' → ¬ cached (G t) o') as Hd.
  { intros t o' Hne Hc Hct. pose proof (cached_oused z fl ml G t o' Hz Hct) as Hu.
    destruct (ta_cached _ _ _ _ _ _ _ Ha o' Hc) as [Hc0|]; [|done]. by apply Hne, (h5 t tid o'). }
  assert (∀ t, t ≠ tid → ¬ cached (G t) o) as Ho.
  { intros t Hne Hct. pose proof (cached_oused z fl ml G t o Hz Hct) as Hu.
    by apply Hne, (h5 t tid o), (ta_fresh _ _ _ _ _ _ _ Ha). }
  assert (∀ o', (∀ t, ¬ cached (G2 t) o') ↔ ¬ cached G' o' ∧ ∀ t, t ≠ tid → ¬ cached (G t) o') as Hc.
  { intros o'. unfold G2. split.
    - intros Hall. split; [specialize (Hall tid); by rewrite updT_eq in Hall|].
      intros t Hne. specialize (Hall t). by rewrite updT_ne in Hall.
    - intros [Ht Hall] t. destruct (decide (t = tid)) as [->|Hne]; [by rewrite updT_eq|].
      rewrite updT_ne by done. by apply Hall. }
  split; [|split].
  - apply (cache_step_inv z y' fl ml fl' ml' G tid th); try done; [apply Ha|].
    intros t th2 Hne Hth2 idx u Hin. destruct (tcache_cell _ _ _ _ _ _ (h3 t th2 Hth2) Hin) as (_ & Hu & _).
    exact (ta_kept _ _ _ _ _ _ _ Ha (OCell u) Hu).
  - intros [Hu Hn]. by apply (Hn tid), (ta_fresh _ _ _ _ _ _ _ Ha).
  - intros o'. unfold held. rewrite Hc. cbn [al_arena z' cache_step set_al_tsd set_al_arena]. split.
    + intros (Hu & Hn & Hn'). destruct (ta_held _ _ _ _ _ _ _ Ha o' Hu) as [->|[?|Hu0]]; [by left|done|].
      destruct (decide (o' = o)) as [->|Hne]; [by left|right]. split; [done|]. intros t.
      destruct (decide (t = tid)) as [->|Hnt]; [|by apply Hn'].
      intros Hct. by destruct (ta_cache _ _ _ _ _ _ _ Ha o' Hct).
    + intros [->|[Hu Hn]].
      * destruct (ta_used _ _ _ _ _ _ _ Ha). split; [done|]. by split.
      * split; [by apply (ta_kept _ _ _ _ _ _ _ Ha)|]. split; [|by intros].
        intros Hct. destruct (ta_cached _ _ _ _ _ _ _ Ha o' Hct) as [Hc0|]; [by apply (Hn tid)|done].
Qed.

Lemma thread_released z y' fl ml fl' ml' G tid th th' G' o :
  alloc_inv z fl ml G → al_tsd z !! tid = Some th → arenas_inv y' fl' ml' → tcache_inv y' fl' th' G' →
  held z fl G o → th_released (al_arena z) y' fl fl' (G tid) G' o →
  let z' := cache_step z y' tid th' in let G2 := updT G tid G' in
  alloc_inv z' fl' ml' G2 ∧ released_obj z z' fl fl' G G2 o.
Proof.
  intros Hz Eth Hy' Ht' [Huo Hno] Hr z' G2. pose proof Hz as [h1 h2 h3 h4 h5 h6].
  assert (∀ t o', t ≠ tid → cached (G t) o' → o' ≠ o ∧ ¬ cached (G tid) o') as Hoth.
  { intros t o' Hne Hct. split; [intros ->; by apply (Hno t)|]. intros Hc. by apply Hne, (h5 t tid o'). }
  assert (∀ o', held z' fl' G2 o' ↔ held z fl G o' ∧ o' ≠ o) as Hh.
  { intros o'. unfold held. cbn [al_arena z' cache_step set_al_tsd set_al_arena]. split.
    - intros [Hu Hn]. pose proof (Hn tid) as Hnt. unfold G2 in Hnt. rewrite updT_eq in Hnt. split; [|intros ->].
      + split; [by apply (tr_used _ _ _ _ _ _ _ Hr)|]. intros t.
        destruct (decide (t = tid)) as [->|Hne]; [|specialize (Hn t); unfold G2 in Hn; by rewrite updT_ne in Hn].
        intros Hct. by destruct (tr_cache _ _ _ _ _ _ _ Hr o' Hct).
      + by apply Hnt, (tr_gone _ _ _ _ _ _ _ Hr).
    - intros [[Hu Hn] Hne]. split; [by apply (tr_kept _ _ _ _ _ _ _ Hr)|]. intros t. unfold G2.
      destruct (decide (t = tid)) as [->|Hnt]; [rewrite updT_eq|by rewrite updT_ne].
      intros Hct. destruct (tr_cached _ _ _ _ _ _ _ Hr o' Hct) as [?|?]; [by apply (Hn tid)|done]. }
  split; [|constructor; [exact Hh|]].
  - apply (cache_step_inv z y' fl ml fl' ml' G tid th); try done; [apply Hr| |].
    + intros t th2 Hne Hth2 idx u Hin. destruct (tcache_cell _ _ _ _ _ _ (h3 t th2 Hth2) Hin) as (_ & Hu & _).
      destruct (Hoth t (OCell u) Hne) as [Hno' Hnc]; [by exists idx|].
      exact (tr_kept _ _ _ _ _ _ _ Hr (OCell u) Hu Hno' Hnc).
    + intros t o' Hne Hc Hct. destruct (Hoth t o' Hne Hct) as [Hno' Hnc].
      by destruct (tr_cached _ _ _ _ _ _ _ Hr o' Hc).
  - intros o' Ho'. apply Hh in Ho' as [[Hu Hn] Hne]. by apply (tr_kept _ _ _ _ _ _ _ Hr).
Qed.

(** *** The operations *)

Lemma held_thread_same z z1 fl G o :
  th_same (al_arena z) (al_arena z1) fl fl → held z1 fl G o ↔ held z fl G o.
Proof. intros Hs. unfold held. by rewrite (tn_used _ _ _ _ Hs). Qed.

Lemma class_small size :
  0 < size ≤ kMaxMediumSize → size2index_compute size ≤ 19 ↔ size ≤ kMaxSmallSize.
Proof.
  intros Hs. pose proof (size_class_spec size Hs) as Hcs. cbv zeta in Hcs. destruct Hcs as (Hi & Hle & Hlow & _).
  assert (index2size_compute 19 = kMaxSmallSize) as E19 by (vm_compute; reflexivity).
  split; intros Hc.
  - destruct (decide (size2index_compute size = 19)) as [E|Hne]; [rewrite E in Hle; lia|].
    destruct (index2size_facts (size2index_compute size) Hi) as (_ & _ & Hmono). specialize (Hmono 19). lia.
  - destruct (decide (size2index_compute size ≤ 19)) as [|Hgt]; [done|]. specialize (Hlow ltac:(lia)).
    destruct (decide (size2index_compute size - 1 = 19)) as [E|Hne]; [rewrite E in Hlow; lia|].
    destruct (index2size_facts 19) as (_ & _ & Hmono); [lia|]. specialize (Hmono (size2index_compute size - 1)). lia.
Qed.

Lemma set_al_arena_id z : set_al_arena (al_arena z) z = z.
Proof. by destruct z. Qed.

Lemma put_cache_id z tid th : al_tsd z !! tid = Some th → set_al_tsd (<[tid := th]> (al_tsd z)) z = z.
Proof. intros Hth. rewrite insert_id by done. by destruct z. Qed.

(** Nothing is left after binding the thread to an arena: nothing was left before. *)
Lemma ran_out_bins y y1 fl n idx k :
  same_bins y y1 → th_same y y1 fl fl → ran_out y1 fl n idx k → ran_out y fl n idx k.
Proof.
  intros (Er & _ & Hb & _) Hs (y' & fl' & ml' & M & Hy' & Hf & Hg & Hk & Hn & Hc).
  assert (∀ t, gaused y1 fl t ↔ gaused y fl t) as Hu by (intros t; apply (tn_used _ _ _ _ Hs (OCell t))).
  assert (ext_of y1 = ext_of y) as Ee by (unfold ext_of; by rewrite Er).
  exists y', fl', ml', M. split; [done|]. split; [|split; [by rewrite <-Ee|by split]].
  destruct Hf as [h1 h2 h3 h4 h5 h6 h7 h8]. rewrite Ee in *. rewrite Er in *. constructor; try done.
  - eapply same_arenas_trans; [apply Hs|done].
  - intros t Ht. rewrite <-Hu. by apply h4.
  - intros t. by rewrite h5, Hu.
  - intros t Ht. apply h6. by apply Hu.
Qed.

Lemma no_memory_bins y y1 fl n G size :
  same_bins y y1 → th_same y y1 fl fl → no_memory y1 fl n G size → no_memory y fl n G size.
Proof.
  intros Hb Hs. unfold no_memory. destruct (size <=? kMaxMediumSize).
  - intros [HG Hr]. split; [done|]. by eapply ran_out_bins.
  - intros Hn a c Ha Hc. destruct Hb as (Er & _ & _ & Hra). destruct (Hra n a Ha) as (a' & Ha' & Erc).
    unfold ext_of in *. rewrite Er in Hn. apply (Hn a' c); [done|]. by rewrite Erc.
Qed.

Lemma no_memory_out z z1 fl G tid th size :
  same_bins (al_arena z) (al_arena z1) → th_same (al_arena z) (al_arena z1) fl fl →
  th_arena th = thread_arena z tid → tcache_inv (al_arena z1) fl th (G tid) →
  no_memory (al_arena z1) fl (th_arena th) (G tid) size → out_of_memory z fl G tid size.
Proof.
  intros Hb Hs Ea Ht Hn. split; rewrite <-Ea.
  - rewrite <-(proj1 (proj2 Hb)). apply Ht.
  - by eapply no_memory_bins.
Qed.

(** *** What it takes to run out of memory *)

(** All extents of the pool are in use, but those of [I]. *)
Definition all_but (s : ext_st) (fl : list Z) (I : list Z) : Prop :=
  ∀ i, 0 ≤ i < ext_total_ (pm_head (pm_of s)) → live (pm_of s) fl i ∨ i ∈ I.

Lemma ran_out_full y fl n idx k :
  0 ≤ idx < 40 → ran_out y fl n idx k → ∃ I, lenZ I < k ∧ all_but (ext_of y) fl I.
Proof.
  intros Hi (y' & fl' & ml' & M & Hy' & Hf & [Hg _] & Hk & Hn & b & Hb & _).
  exists ((λ t, match t with Cell i _ _ => i end) <$> M). split; [unfold lenZ in *; by rewrite length_fmap|].
  intros i Hir. destruct (Hn b Hb) as [_ Hc]. destruct (bin_facts y' fl' ml' n idx b Hy' Hb) as (_ & _ & Ei & Hr).
  destruct (nthZ_is_Some (rn_cases (as_run y')) (ab_rcase b) Hr) as [c Hnc].
  destruct (case_bin _ fl' _ _ c idx (rv_cases _ _ _ (av_runs _ _ _ Hy')) Hnc Hi) as (rb & _ & _ & Hrb & _).
  specialize (Hc c Hnc rb). rewrite Ei in Hc. destruct (Hc Hrb) as [_ Hall].
  destruct (af_pool _ _ _ _ _ Hf) as (_ & _ & _ & Ht & _). unfold ext_of in *.
  destruct (Hg i) as [?|(r & m & Hin)]; [apply Hall; lia|by left|right].
  apply list_elem_of_fmap. by exists (Cell i r m).
Qed.

Lemma class_stock_max idx : class_stock idx ≤ 64.
Proof.
  unfold class_stock. destruct (nthZ kCacheBinStockTab _) as [k|] eqn:E; [|simpl; lia]. simpl.
  unfold nthZ in E. destruct (0 <=? _); [|done]. apply list_elem_of_lookup_2 in E.
  repeat (apply elem_of_cons in E as [->|E]; [lia|]). by apply not_elem_of_nil in E.
Qed.

(** When an allocation fails for want of memory, less than 64 extents are unused. *)
Lemma out_of_memory_full z fl ml G tid size :
  alloc_inv z fl ml G → 0 < size ≤ kMaxLargeSize → out_of_memory z fl G tid size →
  ∃ I, lenZ I < 64 ∧ all_but (al_ext z) fl I.
Proof.
  intros Hz Hs [Hn Hno]. pose proof (lv_arenas _ _ _ _ Hz) as Hy. unfold no_memory in Hno.
  destruct (Z.leb_spec size kMaxMediumSize) as [Hmd|Hlg].
  - destruct (size_class_spec size) as (Hi & _); [split; [lia|exact Hmd]|]. cbv zeta in Hno. destruct Hno as [_ Hr].
    destruct (ran_out_full _ _ _ _ _ Hi Hr) as (I & HI & Hall). exists I. split; [|done].
    pose proof (class_stock_max (size2index_compute size)). destruct (_ <=? 19); lia.
  - exists []. split; [done|]. intros i Hi. left.
    destruct (nthZ_is_Some (as_arenas (al_arena z)) _ Hn) as [a Ha].
    destruct (av_arena _ _ _ Hy _ a Ha) as (_ & _ & _ & Hc & _).
    destruct (nthZ_is_Some (rn_cases (as_run (al_arena z))) _ Hc) as [c Hnc].
    destruct (large_bid_ok size) as (Hj & _); [split; [exact Hlg|apply Hs]|].
    destruct (case_lbin _ fl _ _ c _ (rv_cases _ _ _ (av_runs _ _ _ Hy)) Hnc Hj) as (b & Hb & _).
    by apply (Hno a c Ha Hnc b Hb).
Qed.

(** So a pool with enough unused extents has memory for every size. *)
Lemma enough_memory z fl ml G tid size (F : list Z) :
  alloc_inv z fl ml G → 0 < size ≤ kMaxLargeSize → NoDup F → 64 ≤ lenZ F →
  (∀ i, i ∈ F → 0 ≤ i < ext_total_ (pm_head (pm_of (al_ext z))) ∧ ¬ live (pm_of (al_ext z)) fl i) →
  ¬ out_of_memory z fl G tid size.
Proof.
  intros Hz Hs Hnd Hlen HF Hno. destruct (out_of_memory_full z fl ml G tid size Hz Hs Hno) as (I & HI & Hall).
  assert (F ⊆+ I) as Hsub.
  { apply NoDup_submseteq; [done|]. intros i Hi. destruct (HF i Hi) as [Hr Hl]. by destruct (Hall i Hr). }
  apply submseteq_length in Hsub. unfold lenZ in *. lia.
Qed.

Lemma wp_alloc_acquire z fl ml G tid size (E : error → Prop) Q :
  alloc_inv z fl ml G → running z → 0 ≤ size →
  (0 < size ≤ kMaxSmallSize → out_of_memory z fl G tid size → E EUB) →
  (kMaxMediumSize < size ≤ kMaxLargeSize → out_of_memory z fl G tid size → E EAssert) →
  (∀ z' fl' ml', alloc_inv z' fl' ml' G → same_mode z z' → held_same z z' fl fl' G →
     size = 0 ∨ kMaxLargeSize < size ∨ kMaxSmallSize < size ≤ kMaxMediumSize ∧ out_of_memory z fl G tid size →
     Q null_region z') →
  (∀ z' fl' ml' G' o, alloc_inv z' fl' ml' G' → same_mode z z' → acquired_obj z z' fl fl' G G' o size →
     Q (obj_region (al_ext z') o) z') →
  wp_e (Alloc_acquire tid size) E Q z.
Proof.
  intros Hz Hrun Hsz HEs HEl Hnull HQ. unfold Alloc_acquire.
  destruct Hrun as [Hok Hrec]. unfold assert_ready. apply wp_e_bind, wp_e_wp. wp_step. wp_step. wp_step; [by rewrite Hok|].
  apply wp_e_bind, wp_e_wp, (wp_thread_cache z fl ml G); [done|]. intros z1 th Hz1 Hm Hs Hsb Har Hth.
  apply wp_e_bind, wp_e_wp, wp_gets. pose proof Hm as (M1 & M2 & M3 & M4). rewrite M2, Hrec.
  pose proof (lv_cache _ _ _ _ Hz1 tid th Hth) as Htc. pose proof (lv_arenas _ _ _ _ Hz1) as Hy1.
  assert (∀ y' th', same_arenas (al_arena z1) y' → same_mode z (cache_step z1 y' tid th')) as Hmode.
  { intros y' th' Hsa. apply (same_mode_trans z z1); [exact Hm|]. by apply same_mode_intro. }
  assert (∀ o, held z fl G o → obj_same (al_ext z) (al_ext z1) o) as Hsame1.
  { intros o [Hu _]. by apply (tn_kept _ _ _ _ Hs). }
  assert (∀ y' fl' ml', arenas_inv y' fl' ml' → th_same (al_arena z1) y' fl fl' →
    tcache_inv y' fl' th (G tid) → alloc_inv (cache_step z1 y' tid th) fl' ml' G) as Hstep.
  { intros y' fl' ml' Hy' Hs' _. unfold cache_step. cbn [al_tsd set_al_arena].
    replace (set_al_tsd _ _) with (set_al_local (al_local z1) (set_al_arena y' z1))
      by (rewrite insert_id by done; by destruct z1).
    apply (alloc_same z1 y' fl ml); [done|done|done|]. apply (lv_local _ _ _ _ Hz1). }
  assert (∀ y' fl' ml', arenas_inv y' fl' ml' → th_same (al_arena z1) y' fl fl' → tcache_inv y' fl' th (G tid) →
    size = 0 ∨ kMaxLargeSize < size ∨ kMaxSmallSize < size ≤ kMaxMediumSize ∧ out_of_memory z fl G tid size →
    wp_e (put_cache tid th ;; mret null_region) E Q (set_al_arena y' z1)) as Hput.
  { intros y' fl' ml' Hy' Hs' Ht' Hcase. apply wp_e_wp. unfold put_cache. wp_step. wp_step. wp_step.
    apply (Hnull (cache_step z1 y' tid th) fl' ml'); [by apply Hstep|apply Hmode, Hs'| |done].
    pose proof (th_same_trans _ _ _ _ _ _ Hs Hs') as Hs2. constructor.
    - intros o. unfold held. by rewrite (tn_used _ _ _ _ Hs2).
    - intros o [Hu _]. by apply (tn_kept _ _ _ _ Hs2). }
  apply wp_e_bind. unfold alm. apply wp_e_zoom.
  apply (wp_thread_acquire (al_arena z1) fl ml th (G tid) size); [done|done|done| | | | |].
  - intros Hcase. cbv beta iota. apply (Hput (al_arena z1) fl ml); [done|apply th_same_refl|done|tauto].
  - intros Hlg Hno. apply HEl; [done|]. by apply (no_memory_out z z1 fl G tid th).
  - intros Hno Hr Hidx. apply HEs; [split; [lia|by apply class_small]|]. by apply (no_memory_out z z1 fl G tid th).
  - intros y' fl' ml' Hy' Hs' Ht' Hno Hr Hidx. cbv beta iota. apply (Hput y' fl' ml'); [done|done|done|]. right. right.
    pose proof (class_small size Hr). split; [lia|]. by apply (no_memory_out z z1 fl G tid th).
  - intros y' fl' ml' th' G' o Hy' Ht' _ Ha Hle Htok. cbv beta iota. apply wp_e_wp. unfold put_cache. wp_step. wp_step. wp_step.
    destruct (thread_acquired z1 y' fl ml fl' ml' G tid th th' G' o Hz1 Hth Hy' Ht' Ha) as (Hz' & Hfr & Hh).
    apply (HQ (cache_step z1 y' tid th') fl' ml' (updT G tid G') o); [done|apply Hmode, Ha|]. constructor; [| | |done|done].
    + by rewrite <-(held_thread_same z z1 fl G o Hs).
    + intros o'. by rewrite Hh, (held_thread_same z z1 fl G o' Hs).
    + intros o' Ho'. eapply obj_same_trans; [by apply Hsame1|].
      apply (ta_kept _ _ _ _ _ _ _ Ha). by apply (held_thread_same z z1 fl G o' Hs) in Ho' as [? _].
Qed.

Lemma wp_alloc_release z fl ml G tid o Q :
  alloc_inv z fl ml G → running z → held z fl G o →
  (∀ z' fl' ml' G', alloc_inv z' fl' ml' G' → same_mode z z' → released_obj z z' fl fl' G G' o → Q tt z') →
  wp (Alloc_release tid (reg_pointer (obj_region (al_ext z) o))) Q z.
Proof.
  intros Hz [Hok Hrec] Ho HQ. unfold Alloc_release, assert_ready. wp_step. wp_step. wp_step. wp_step; [by rewrite Hok|].
  wp_step. apply (wp_thread_cache z fl ml G); [done|]. intros z1 th Hz1 Hm Hs Hsb Har Hth.
  wp_step. wp_step. pose proof Hm as (M1 & M2 & M3 & M4). rewrite M2, Hrec.
  pose proof (lv_cache _ _ _ _ Hz1 tid th Hth) as Htc. pose proof (lv_arenas _ _ _ _ Hz1) as Hy1.
  assert (held z1 fl G o) as Ho1 by (by apply (held_thread_same z z1 fl G o Hs)).
  assert (obj_region (al_ext z) o = obj_region (al_ext z1) o) as ->.
  { destruct (tn_kept _ _ _ _ Hs o (proj1 Ho)) as [Er _]. exact (eq_sym Er). }
  wp_step. apply wp_alm.
  apply (wp_thread_release (al_arena z1) fl ml th (G tid) o); [done|done|apply Ho1|apply Ho1|].
  intros y' fl' ml' th' G' Hy' Ht' _ Hr. unfold put_cache. wp_step.
  destruct (thread_released z1 y' fl ml fl' ml' G tid th th' G' o Hz1 Hth Hy' Ht' Ho1 Hr) as (Hz' & Hrel).
  apply (HQ (cache_step z1 y' tid th') fl' ml' (updT G tid G')); [done| |].
  { apply (same_mode_trans z z1); [exact Hm|]. apply same_mode_intro; [done|done|done|apply Hr]. }
  constructor.
  - intros o'. by rewrite (ro_held _ _ _ _ _ _ _ Hrel), (held_thread_same z z1 fl G o' Hs).
  - intros o' Ho'. eapply obj_same_trans; [|by apply (ro_same _ _ _ _ _ _ _ Hrel)].
    apply (ro_held _ _ _ _ _ _ _ Hrel) in Ho' as [[Hu _] _]. apply (tn_kept _ _ _ _ Hs). by apply (tn_used _ _ _ _ Hs).
Qed.

Lemma wp_alloc_release_null z fl ml G tid Q :
  alloc_inv z fl ml G → running z →
  (∀ z', alloc_inv z' fl ml G → same_mode z z' → held_same z z' fl fl G → Q tt z') →
  wp (Alloc_release tid nullptr) Q z.
Proof.
  intros Hz [Hok Hrec] HQ. unfold Alloc_release, assert_ready. wp_step. wp_step. wp_step. wp_step; [by rewrite Hok|].
  wp_step. apply (wp_thread_cache z fl ml G); [done|]. intros z1 th Hz1 Hm Hs Hsb Har Hth.
  wp_step. wp_step. unfold ThreadCache_release. rewrite Z.eqb_refl. wp_step. apply wp_alm. wp_step. unfold put_cache. wp_step.
  rewrite set_al_arena_id, put_cache_id by done. apply HQ; [done|done|]. constructor.
  - intros o. apply (held_thread_same z z1 fl G o Hs).
  - intros o [Hu _]. by apply (tn_kept _ _ _ _ Hs).
Qed.

Lemma wp_alloc_region_size z fl ml G tid o Q :
  alloc_inv z fl ml G → held z fl G o →
  (∀ z', alloc_inv z' fl ml G → same_mode z z' → held_same z z' fl fl G → Q (obj_size (al_ext z) o) z') →
  wp (Alloc_region_size tid (reg_pointer (obj_region (al_ext z) o))) Q z.
Proof.
  intros Hz Ho HQ. unfold Alloc_region_size. wp_step.
  apply (wp_thread_cache z fl ml G); [done|]. intros z1 th Hz1 Hm Hs Hsb Har Hth.
  assert (held z1 fl G o) as Ho1 by (by apply (held_thread_same z z1 fl G o Hs)).
  destruct (tn_kept _ _ _ _ Hs o (proj1 Ho)) as (Er & Es & _).
  assert (obj_region (al_ext z) o = obj_region (al_ext z1) o) as -> by exact (eq_sym Er).
  apply wp_alm. apply (wp_thread_region_size (al_arena z1) fl ml o); [apply Hz1|apply Ho1|].
  rewrite set_al_arena_id, Es. apply HQ; [done|done|]. constructor.
  - intros o'. apply (held_thread_same z z1 fl G o' Hs).
  - intros o' [Hu _]. by apply (tn_kept _ _ _ _ Hs).
Qed.

(** *** Tokens *)

Lemma held_not_cached z fl G o o' tid : held z fl G o → cached (G tid) o' → o' ≠ o.
Proof. intros [_ Hn] Hc ->. by apply (Hn tid). Qed.

Lemma alloc_retoken z y' fl ml G o v :
  alloc_inv z fl ml G → held z fl G o → arenas_inv y' fl ml → obj_retoken (al_arena z) y' fl o v →
  alloc_inv (set_al_arena y' z) fl ml G ∧ published_obj z (set_al_arena y' z) fl G o v.
Proof.
  intros Hz Ho Hy' [h1 h2 h3 h4 h5 h6 h7]. pose proof Hz as [k1 k2 k3 k4 k5 k6]. split.
  - constructor; try done.
    + cbn. by rewrite (proj1 h2).
    + intros tid th Hth. apply (tcache_kept (al_arena z) y' fl fl); [done| |by apply k3].
      intros idx t Hin. assert (cached (G tid) (OCell t)) as Hc by (by exists idx).
      pose proof (cached_oused z fl ml G tid _ Hz Hc) as Hu.
      split; [by apply (h3 (OCell t))|apply (h4 (OCell t)); [done|by eapply held_not_cached]].
  - constructor; try done.
    + intros o'. unfold held. cbn [al_arena set_al_arena]. by rewrite h3.
    + intros o' [Hu _] Hne. by apply h4.
Qed.

Lemma wp_alloc_publish z fl ml G o mode tag persist Q :
  alloc_inv z fl ml G → held z fl G o → obj_token (al_ext z) o = Some kFreeCode → tag ≤ kMarkBits →
  (∀ z', alloc_inv z' fl ml G → same_mode z z' → published_obj z z' fl G o (hire_code mode tag) → Q tt z') →
  wp (exa (pm (region_publish (obj_region (al_ext z) o) mode tag persist))) Q z.
Proof.
  intros Hz Ho Ht Htag HQ. unfold exa. apply wp_alm.
  apply (wp_obj_publish (al_arena z) fl ml o mode tag persist); [apply Hz|apply Ho|done|done|].
  intros y' Hy' Hr. destruct (alloc_retoken z y' fl ml G o _ Hz Ho Hy' Hr) as [Hz' Hp].
  apply HQ; [done|apply same_mode_intro; [done|done|done|apply Hr]|done].
Qed.

(** *** The constructor *)

Lemma Arena_new_ok {S} index rcase (q : S) :
  0 ≤ index < 2 ^ 32 →
  Arena_new index rcase q = Ok (new_arena index rcase) q.
Proof.
  intros Hi. unfold Arena_new. unfold mbind at 1, M_bind at 1. change (Z.to_nat kNSlabsCached) with 40%nat.
  rewrite (mfold_build (λ bid, ArenaBin_init index bid rcase) (new_abin index rcase) 40 0 [] q).
  - cbv beta iota. unfold mret, M_ret. by rewrite u32_small by done.
  - intros bid Hb. unfold ArenaBin_init, mbind, M_bind, massert. rewrite (proj2 (Z.ltb_lt _ _)) by (change kNSlabsCached with 40; lia).
    rewrite kMaxSmallIndex_ok, !u32_small by lia. done.
Qed.

Lemma new_abin_inv s fl index rcase bid :
  0 ≤ index < 2 ^ 16 → 0 ≤ bid < 40 → ab_inv s fl (new_abin index rcase bid).
Proof.
  intros Hi Hb. by constructor.
Qed.

Lemma nthZ_fmap_seqZ_inv {A} (f : Z → A) n i x :
  0 ≤ n → nthZ (f <$> seqZ 0 n) i = Some x → 0 ≤ i < n ∧ x = f i.
Proof.
  intros Hn Hx. pose proof (nthZ_Some _ _ _ Hx) as Hi. unfold lenZ in Hi. rewrite length_fmap, length_seqZ in Hi.
  rewrite nthZ_seqZ_fmap in Hx by lia. split; [lia|congruence].
Qed.

Lemma AllocatorDetail_new_ok this ncpus s fl ml locals :
  pool_inv s fl ml → segs_apart s → (∀ i, ¬ live (pm_of s) fl i) → 0 < ncpus < 2 ^ 16 →
  (∀ tid, locals !! tid ≠ Some this) →
  ∃ z, AllocatorDetail_new this ncpus s locals = Ok z tt ∧ alloc_inv z fl ml (λ _ _, []) ∧
    al_ok z = false ∧ al_recovering z = false ∧ al_ext z = s ∧ ∀ o, ¬ held z fl (λ _ _, []) o.
Proof.
  intros Hp Hap Hl Hn Hloc. unfold AllocatorDetail_new.
  set (nruns := (ncpus + kCorePerRunCase - 1) / kCorePerRunCase).
  set (narenas := (ncpus + kCorePerArena - 1) / kCorePerArena).
  assert (0 < nruns < 2 ^ 16 ∧ 0 < narenas < 2 ^ 16) as [Hr Ha].
  { unfold nruns, narenas, kCorePerRunCase, kCorePerArena. split; Z.div_mod_to_equations; lia. }
  rewrite (mfold_build RunCase_new new_case) by (intros i Hi; apply RunCase_new_ok; lia).
  rewrite (mfold_build (λ aid, Arena_new aid (aid mod nruns)) (λ aid, new_arena aid (aid mod nruns)))
    by (intros i Hi; apply Arena_new_ok; lia).
  cbv beta iota. rewrite !Z2Nat.id by lia. cbn [app]. eexists. split; [reflexivity|].
  set (cases := new_case <$> seqZ 0 nruns). set (arenas := _ <$> seqZ 0 narenas).
  assert (∀ n a, nthZ arenas n = Some a → 0 ≤ n < narenas ∧ a = new_arena n (n mod nruns)) as Han.
  { intros n a. apply (nthZ_fmap_seqZ_inv (λ aid, new_arena aid (aid mod nruns))). lia. }
  assert (lenZ cases = nruns) as Ecl by (unfold lenZ, cases; rewrite length_fmap, length_seqZ; lia).
  assert (lenZ arenas = narenas) as Eal by (unfold lenZ, arenas; rewrite length_fmap, length_seqZ; lia).
  split; [|split; [done|split; [done|split; [done|]]]].
  - constructor; cbn; try done.
    + constructor; cbn.
      * constructor; [done| |done]. intros z c Hc. apply nthZ_fmap_seqZ_inv in Hc as [Hz ->]; [|lia].
        split; [apply new_case_inv; [done|lia]|done].
      * done.
      * intros n a Hna. destruct (Han n a Hna) as [Hnr ->]. rewrite Ecl. cbn.
        split; [done|]. split; [lia|]. split; [done|]. split; [apply Z.mod_pos_bound; lia|done].
      * intros n a idx b Hna Hb. destruct (Han n a Hna) as [Hnr ->]. cbn in Hb.
        apply nthZ_fmap_seqZ_inv in Hb as [Hi ->]; [|lia]. split; [apply new_abin_inv; lia|done].
    + rewrite Eal. lia.
    + intros tid tid' o Hc. by apply cached_nil in Hc.
    + intros tid Ht. by destruct (Hloc tid).
  - intros [t|i k] [Hu _]; cbn in Hu.
    + destruct t as [i r k]. destruct Hu as (n & idx & b & _ & (Ho & _)). destruct (run_owned_busy _ _ _ _ _ Ho) as [Hli _].
      by apply (Hl i).
    + destruct Hu as (z & c & j & b & _ & _ & (Hli & _)). by apply (Hl i).
Qed.

Lemma alloc_ok_inv z fl ml G ok : alloc_inv z fl ml G → alloc_inv (set_al_ok ok z) fl ml G.
Proof. intros [h1 h2 h3 h4 h5 h6]. by constructor. Qed.

(** ** Properties *)

(** C11: the constructor of [AllocatorDetail] terminates and passes all asserts, for
    up to 65535 processors, and on a pool of which no extent is in use the
    allocator satisfies its invariant and no object is held.  The condition on the
    thread-local variables is what the loop of [Allocator] provides
    ([Allocator_address_fresh]). *)
Theorem AllocatorDetail_new_correct this ncpus s fl ml locals :
  pool_inv s fl ml → segs_apart s → (∀ i, ¬ live (pm_of s) fl i) → 0 < ncpus < 2 ^ 16 →
  (∀ tid, locals !! tid ≠ Some this) →
  ∃ z, AllocatorDetail_new this ncpus s locals = Ok z tt ∧ alloc_inv z fl ml (λ _ _, []) ∧
    al_ok z = false ∧ al_recovering z = false ∧ al_ext z = s ∧ ∀ o, ¬ held z fl (λ _ _, []) o.
Proof. apply AllocatorDetail_new_ok. Qed.

(** C7: [acquire] in normal operation, for every size, whole pages or not, and every
    thread: it terminates, and either hands out one object that was not held, of the
    least size class that holds the request, or a large one, and with a free token,
    while all other held objects keep their address, size and token, and all
    invariants are kept; or it returns null and the held objects stay, which is the
    case for the size 0, for sizes above 4 MiB, and for medium sizes when nothing is
    left.  It fails only when in the state of the call ([out_of_memory]) the cache of
    the thread has no region of the class, and its arena, its run case and the pool
    together have too few runs and extents to fill the cache bin: a small size then
    reads through a null pointer, a large one fails an assert. *)
Theorem Alloc_acquire_correct z fl ml G tid size :
  alloc_inv z fl ml G → running z → 0 ≤ size →
  wp_e (Alloc_acquire tid size)
    (λ e, e = EUB ∧ 0 < size ≤ kMaxSmallSize ∧ out_of_memory z fl G tid size ∨
          e = EAssert ∧ kMaxMediumSize < size ≤ kMaxLargeSize ∧ out_of_memory z fl G tid size)
    (λ r z', ∃ fl' ml' G', alloc_inv z' fl' ml' G' ∧ same_mode z z' ∧
       ((∃ o, r = obj_region (al_ext z') o ∧ acquired_obj z z' fl fl' G G' o size) ∨
        r = null_region ∧ G' = G ∧ held_same z z' fl fl' G ∧
        (size = 0 ∨ kMaxLargeSize < size ∨
         kMaxSmallSize < size ≤ kMaxMediumSize ∧ out_of_memory z fl G tid size))) z.
Proof.
  intros Hz Hr Hs. apply (wp_alloc_acquire z fl ml G tid size); [done|done|done| | | |].
  - intros. by left.
  - intros. by right.
  - intros z' fl' ml' Hz' Hm Hh Hc. exists fl', ml', G. split; [done|]. split; [done|]. by right.
  - intros z' fl' ml' G' o Hz' Hm Ha. exists fl', ml', G'. split; [done|]. split; [done|]. left. by exists o.
Qed.

(** C8: [release] of a held object by any thread, also by one that did not acquire
    it, terminates and passes all asserts, whether the token of the object is in
    use or not; exactly that object is no longer held, and the other held objects keep their
    address, size and token.  [release] of null changes nothing. *)
Theorem Alloc_release_correct z fl ml G tid :
  alloc_inv z fl ml G → running z →
  (∀ o, held z fl G o →
     wp (Alloc_release tid (reg_pointer (obj_region (al_ext z) o))) (λ _ z', ∃ fl' ml' G',
       alloc_inv z' fl' ml' G' ∧ same_mode z z' ∧ released_obj z z' fl fl' G G' o) z) ∧
  wp (Alloc_release tid nullptr) (λ _ z', alloc_inv z' fl ml G ∧ same_mode z z' ∧ held_same z z' fl fl G) z.
Proof.
  intros Hz Hr. split.
  - intros o Ho. apply (wp_alloc_release z fl ml G tid o); [done|done|done|].
    intros z' fl' ml' G' Hz' Hm Hrel. by exists fl', ml', G'.
  - by apply (wp_alloc_release_null z fl ml G tid).
Qed.

(** [region_size] of a held object is the size of the object, which all threads
    see, and the bytes of different held objects never overlap. *)
Lemma Alloc_region_size_correct z fl ml G tid o :
  alloc_inv z fl ml G → held z fl G o →
  wp (Alloc_region_size tid (reg_pointer (obj_region (al_ext z) o)))
    (λ n z', n = obj_size (al_ext z) o ∧ 0 < n ∧ alloc_inv z' fl ml G ∧ held_same z z' fl fl G) z ∧
  ∀ o', held z fl G o' → o ≠ o' →
    let p := reg_pointer (obj_region (al_ext z) o) in let p' := reg_pointer (obj_region (al_ext z) o') in
    p + obj_size (al_ext z) o ≤ p' ∨ p' + obj_size (al_ext z) o' ≤ p.
Proof.
  intros Hz Ho. split.
  - apply (wp_alloc_region_size z fl ml G tid o); [done|done|]. intros z' Hz' Hm Hs. split; [done|].
    split; [|done]. by apply (obj_range (al_arena z) fl ml); [apply Hz|apply Ho].
  - intros o' Ho' Hne. apply (objs_disjoint (al_arena z) fl ml); [apply Hz|apply Ho|apply Ho'|done].
Qed.
End lemmas.

(** ** Witnesses: a new allocator on a pool of 1 GiB, and after one [acquire] *)

Definition alloc_of (m : res unit alloc_st) (z : alloc_st) : alloc_st := match m with Ok z _ => z | Err _ => z end.
Definition alloc0 : alloc_st := {|
  al_arena := {| as_run := example_run_st; as_arenas := [] |}; al_ok := false; al_recovering := false;
  al_tsd := ∅; al_this := 0; al_local := ∅ |}.
Definition new_alloc : alloc_st := set_al_ok true (alloc_of (AllocatorDetail_new 4096 4 example_ext ∅) alloc0).

Lemma example_apart : segs_apart example_ext.
Proof. left. vm_compute. intros Hc. discriminate Hc. Qed.

Lemma AllocatorDetail_new_correct_witness :
  ∃ z, AllocatorDetail_new 4096 4 example_ext ∅ = Ok z tt ∧ alloc_inv z [] [] (λ _ _, []).
Proof.
  destruct (AllocatorDetail_new_correct 4096 4 example_ext [] [] ∅) as (z & Hz & Hi & _).
  - exact example_pool_inv.
  - exact example_apart.
  - exact example_not_live.
  - lia.
  - intros tid Ht. by apply (lookup_empty_Some (M := gmap Z) tid 4096) in Ht.
  - by exists z.
Defined.

Lemma new_alloc_ok : alloc_inv new_alloc [] [] (λ _ _, []) ∧ ∀ o, ¬ held new_alloc [] (λ _ _, []) o.
Proof.
  destruct (AllocatorDetail_new_ok 4096 4 example_ext [] [] ∅) as (z & Hz & Hi & _ & _ & _ & Hh);
    [exact example_pool_inv|exact example_apart|exact example_not_live|lia|
     intros tid Ht; by apply (lookup_empty_Some (M := gmap Z) tid 4096) in Ht|].
  unfold new_alloc. rewrite Hz. cbn [alloc_of]. split; [by apply alloc_ok_inv|exact Hh].
Qed.
Definition new_alloc_inv := proj1 new_alloc_ok.
Definition new_alloc_held := proj2 new_alloc_ok.
Lemma new_alloc_running : running new_alloc.
Proof. split; reflexivity. Qed.

(** The new allocator has memory for every thread and every size. *)
Lemma new_alloc_ext : al_ext new_alloc = example_ext.
Proof. vm_compute. reflexivity. Qed.
Lemma new_alloc_memory tid size :
  0 < size ≤ kMaxLargeSize → ¬ out_of_memory new_alloc [] (λ _ _, []) tid size.
Proof.
  intros Hs. apply (enough_memory new_alloc [] [] (λ _ _, []) tid size (seqZ 0 256)); [exact new_alloc_inv|done| | |].
  - apply NoDup_seqZ.
  - vm_compute. discriminate.
  - intros i Hi%elem_of_seqZ. rewrite new_alloc_ext. split; [|apply example_not_live].
    assert (ext_total_ (pm_head (pm_of example_ext)) = 256) as -> by (vm_compute; reflexivity). lia.
Qed.

(** After thread 1 has acquired 100 bytes. *)
Definition acquired1 : res alloc_st region_t := Alloc_acquire 1 100 new_alloc.
Definition alloc1 : alloc_st := match acquired1 with Ok _ z => z | Err _ => new_alloc end.

Lemma acquired1_ok : match acquired1 with Ok r _ => negb (reg_pointer r =? nullptr) | Err _ => false end = true.
Proof. vm_compute. reflexivity. Qed.

Lemma alloc1_held : ∃ fl ml G o, alloc_inv alloc1 fl ml G ∧ running alloc1 ∧ held alloc1 fl G o.
Proof.
  pose proof acquired1_ok as Hok. unfold alloc1.
  assert (wp_e (Alloc_acquire 1 100) (λ _, True) (λ r z', negb (reg_pointer r =? nullptr) = true →
    ∃ fl ml G o, alloc_inv z' fl ml G ∧ running z' ∧ held z' fl G o) new_alloc) as Hwp.
  { apply (wp_alloc_acquire new_alloc [] [] (λ _ _, []) 1 100);
      [exact new_alloc_inv|exact new_alloc_running|lia|done|done| |].
    - intros z' fl' ml' _ _ _ _ Hn. done.
    - intros z' fl' ml' G' o Hz' (E1 & E2 & _) Ha _. exists fl', ml', G', o. split; [exact Hz'|].
      split; [split; [rewrite E1|rewrite E2]; apply new_alloc_running|].
      apply (ao_held _ _ _ _ _ _ _ _ Ha). by left. }
  unfold wp_e in Hwp. fold acquired1 in Hwp. destruct acquired1 as [r z1|]; [|done]. by apply Hwp.
Qed.

(** On the new allocator no [acquire] of 100 bytes fails or returns null. *)
Lemma Alloc_acquire_correct_witness :
  wp_e (Alloc_acquire 1 100) (λ _, False)
    (λ r z', ∃ fl' G' o, r = obj_region (al_ext z') o ∧ held z' fl' G' o) new_alloc.
Proof.
  assert (¬ out_of_memory new_alloc [] (λ _ _, []) 1 100) as Hmem by (apply new_alloc_memory; split; [lia|discriminate]).
  eapply wp_e_mono.
  - apply (Alloc_acquire_correct new_alloc [] [] (λ _ _, []) 1 100).
    + exact new_alloc_inv.
    + exact new_alloc_running.
    + lia.
  - intros e [(_ & _ & Hm)|(_ & _ & Hm)]; by apply Hmem.
  - intros r z' (fl' & ml' & G' & _ & _ & [(o & Hr & Ha)|(_ & _ & _ & [Hs|[Hs|[_ Hm]]])]).
    + exists fl', G', o. split; [exact Hr|]. apply (ao_held _ _ _ _ _ _ _ _ Ha). by left.
    + discriminate Hs.
    + discriminate Hs.
    + by destruct (Hmem Hm).
Defined.

Lemma Alloc_release_correct_witness :
  ∃ fl G o, held alloc1 fl G o ∧
  wp (Alloc_release 2 (reg_pointer (obj_region (al_ext alloc1) o))) (λ _ z', ∃ fl' G', ¬ held z' fl' G' o) alloc1.
Proof.
  destruct alloc1_held as (fl & ml & G & o & Hz & Hr & Ho). exists fl, G, o. split; [exact Ho|]. eapply wp_mono.
  - exact (proj1 (Alloc_release_correct alloc1 fl ml G 2 Hz Hr) o Ho).
  - intros _ z' (fl' & ml' & G' & _ & _ & Hrel). exists fl', G'. rewrite (ro_held _ _ _ _ _ _ _ Hrel). tauto.
Defined.

Lemma Alloc_region_size_correct_witness :
  ∃ o, wp (Alloc_region_size 2 (reg_pointer (obj_region (al_ext alloc1) o))) (λ n _, 0 < n) alloc1.
Proof.
  destruct alloc1_held as (fl & ml & G & o & Hz & Hr & Ho). exists o. eapply wp_mono.
  - exact (proj1 (Alloc_region_size_correct alloc1 fl ml G 2 o Hz Ho)).
  - intros n z' (_ & Hn & _). exact Hn.
Defined.
