(* ===== verification/HeapSpec.v ===== *)
(** * The allocator refines an abstract heap

    The abstract heap maps the address of every block in use to its size, its
    token and the content of its token.  A client is a program that calls
    [acquire], [release], [region_size] and [publish] from any thread and may
    depend on the results.  [Alloc_refines_heap]: whatever a client that only uses
    blocks of the heap does, the results are those of the abstract heap, whose
    blocks never overlap, as long as no allocation fails. *)

From S2P Require Export SlabSpec.
Import Pmem.

(** ** Definitions *)

Record block := { bl_size : Z; bl_ref : option token_ref; bl_code : Z }.
Abbreviation heap := (gmap Z block).

Definition set_code (v : Z) (b : block) : block :=
  {| bl_size := bl_size b; bl_ref := bl_ref b; bl_code := v |}.

Inductive aop :=
| OpAcquire (tid size : Z)
| OpRelease (tid ptr : Z)
| OpSize (tid ptr : Z)
| OpPublish (r : region_t) (mode : bool) (tag : Z) (persist : bool).

(** The result of a call: a region, a number, or nothing. *)
Inductive ares := RRegion (r : region_t) | RSize (n : Z) | RDone.
Inductive client := Done | Do (op : aop) (k : ares → client).

(** Blocks have positive addresses and sizes, lie in the extents of the pool file
    [f] and do not overlap. *)
Definition heap_ok (f : ExtentFile) (h : heap) : Prop :=
  ∀ p b, h !! p = Some b → 0 < p ∧ 0 < bl_size b ∧ extents f ≤ p ∧ p + bl_size b ≤ file_end f ∧
    ∀ q c, h !! q = Some c → p = q ∨ p + bl_size b ≤ q ∨ q + bl_size c ≤ p.

(** The abstract operations and their results. *)
Inductive heap_step `{Util} (f : ExtentFile) : heap → aop → ares → heap → Prop :=
| hs_acquire h tid size p b : h !! p = None → fits size (bl_size b) → bl_code b = kFreeCode →
    heap_ok f (<[p := b]> h) →
    heap_step f h (OpAcquire tid size) (RRegion (region (bl_ref b) p)) (<[p := b]> h)
| hs_null h tid size : size = 0 ∨ kMaxLargeSize < size ∨ kMaxSmallSize < size ≤ kMaxMediumSize →
    heap_step f h (OpAcquire tid size) (RRegion null_region) h
| hs_release h tid p : heap_step f h (OpRelease tid p) RDone (delete p h)
| hs_size h tid p b : h !! p = Some b → heap_step f h (OpSize tid p) (RSize (bl_size b)) h
| hs_size_null h tid : heap_step f h (OpSize tid nullptr) (RSize 0) h
| hs_publish h r mode tag persist b : h !! reg_pointer r = Some b →
    heap_step f h (OpPublish r mode tag persist) RDone
      (<[reg_pointer r := set_code (hire_code mode tag) b]> h).

(** The calls that a client may make. *)
Definition legal (h : heap) (op : aop) : Prop :=
  match op with
  | OpAcquire _ size => 0 ≤ size
  | OpRelease _ p | OpSize _ p => p = nullptr ∨ is_Some (h !! p)
  | OpPublish r _ tag _ => tag ≤ kMarkBits ∧
      ∃ b, h !! reg_pointer r = Some b ∧ reg_token r = bl_ref b ∧ bl_code b = kFreeCode
  end.

Inductive heap_run `{Util} (f : ExtentFile) : heap → client → list ares → heap → Prop :=
| hr_done h : heap_run f h Done [] h
| hr_do h op k r h1 l h2 : heap_step f h op r h1 → heap_run f h1 (k r) l h2 →
    heap_run f h (Do op k) (r :: l) h2.

Inductive safe `{Util} (f : ExtentFile) : heap → client → Prop :=
| safe_done h : safe f h Done
| safe_do h op k : legal h op → (∀ r h', heap_step f h op r h' → safe f h' (k r)) → safe f h (Do op k).

Section client.
Context `{Util} `{UnorderedMap}.

Definition do_op (op : aop) : M alloc_st ares :=
  match op with
  | OpAcquire tid size => r ← Alloc_acquire tid size; mret (RRegion r)
  | OpRelease tid p => Alloc_release tid p ;; mret RDone
  | OpSize tid p => n ← Alloc_region_size tid p; mret (RSize n)
  | OpPublish r mode tag persist => exa (pm (region_publish r mode tag persist)) ;; mret RDone
  end.
Fixpoint run_client (c : client) : M alloc_st (list ares) :=
  match c with
  | Done => mret []
  | Do op k => r ← do_op op; l ← run_client (k r); mret (r :: l)
  end.

(** The object [o] is the block [b] at the address [p]. *)
Definition block_at (z : alloc_st) (o : obj) (p : Z) (b : block) : Prop :=
  obj_region (al_ext z) o = region (bl_ref b) p ∧ bl_size b = obj_size (al_ext z) o ∧
  obj_token (al_ext z) o = Some (bl_code b).

(** The blocks of the heap are the objects that are held. *)
Definition heap_of (z : alloc_st) (fl : list Z) (G : Z → Z → list cell) (h : heap) : Prop :=
  ∀ p b, h !! p = Some b ↔ ∃ o, held z fl G o ∧ block_at z o p b.
Definition refines (f : ExtentFile) (z : alloc_st) (h : heap) : Prop :=
  ∃ fl ml G, alloc_inv z fl ml G ∧ (running z ∧ es_file (al_ext z) = f) ∧ heap_of z fl G h.

(** In the state [z] the thread [tid] cannot get a block of [size] bytes. *)
Definition exhausted (z : alloc_st) (tid size : Z) : Prop :=
  ∃ fl ml G, alloc_inv z fl ml G ∧ out_of_memory z fl G tid size.

(** 64 extents of the pool have never been used. *)
Definition roomy_pool (z : alloc_st) : bool :=
  ext_used (cur_meta (pm_of (al_ext z))) + 64 <=? ext_total_ (pm_head (pm_of (al_ext z))).

(** The errors of [acquire]. *)
Definition acquire_error (z : alloc_st) (tid size : Z) (e : error) : Prop :=
  (e = EUB ∧ 0 < size ≤ kMaxSmallSize ∨ e = EAssert ∧ kMaxMediumSize < size ≤ kMaxLargeSize) ∧
  exhausted z tid size.

(** The run of the client from [z] gets to an [acquire] that fails so. *)
Inductive client_fails : alloc_st → client → error → Prop :=
| cf_here z tid size k e : acquire_error z tid size e → client_fails z (Do (OpAcquire tid size) k) e
| cf_next z op k r z' e : do_op op z = Ok r z' → client_fails z' (k r) e → client_fails z (Do op k) e.

(** In the run of the client from [z] with the results [l], an [acquire] of 1 byte to
    4 MiB that returns null has run out of memory in its state. *)
Definition null_justified (z : alloc_st) (op : aop) (r : ares) : Prop :=
  ∀ tid size, op = OpAcquire tid size → r = RRegion null_region → 0 < size ≤ kMaxLargeSize → exhausted z tid size.
Inductive nulls_justified : alloc_st → client → list ares → Prop :=
| nj_done z : nulls_justified z Done []
| nj_do z op k r z' l : do_op op z = Ok r z' → null_justified z op r → nulls_justified z' (k r) l →
    nulls_justified z (Do op k) (r :: l).
End client.

(** ** Lemmas *)

Lemma wp_e_bind_eq {S A B} (m : M S A) (f : A → M S B) E Q (s : S) :
  wp_e m E (λ a s', m s = Ok a s' → wp_e (f a) E Q s') s → wp_e (m ≫= f) E Q s.
Proof. unfold wp_e, mbind, M_bind. destruct (m s); [intros Hm; exact (Hm eq_refl)|done]. Qed.

Section lemmas.
Context `{UtilSpec} `{UnorderedMapSpec}.
Implicit Types (z : alloc_st) (fl ml : list Z) (o : obj) (h : heap) (b : block).

Lemma held_disjoint z fl ml G o o' :
  alloc_inv z fl ml G → held z fl G o → held z fl G o' → o ≠ o' →
  let p := reg_pointer (obj_region (al_ext z) o) in let p' := reg_pointer (obj_region (al_ext z) o') in
  p + obj_size (al_ext z) o ≤ p' ∨ p' + obj_size (al_ext z) o' ≤ p.
Proof. intros Hz [Hu _] [Hu' _] Hne. by apply (objs_disjoint (al_arena z) fl ml); [apply Hz|..]. Qed.

Lemma held_pos z fl ml G o :
  alloc_inv z fl ml G → held z fl G o →
  0 < reg_pointer (obj_region (al_ext z) o) ∧ 0 < obj_size (al_ext z) o.
Proof.
  intros Hz [Hu _]. split; [apply (obj_pointer (al_arena z) fl ml); [apply Hz|done]|].
  by apply (obj_range (al_arena z) fl ml); [apply Hz|].
Qed.

(** An object is determined by its address. *)
Lemma held_inj z fl ml G o o' :
  alloc_inv z fl ml G → held z fl G o → held z fl G o' →
  reg_pointer (obj_region (al_ext z) o) = reg_pointer (obj_region (al_ext z) o') → o = o'.
Proof.
  intros Hz Ho Ho' He. destruct (decide (o = o')) as [->|Hne]; [done|exfalso].
  destruct (held_pos z fl ml G o Hz Ho) as [_ ?], (held_pos z fl ml G o' Hz Ho') as [_ ?].
  destruct (held_disjoint z fl ml G o o' Hz Ho Ho' Hne); lia.
Qed.

Lemma block_at_pointer z o p b : block_at z o p b → reg_pointer (obj_region (al_ext z) o) = p.
Proof. intros (-> & _). done. Qed.

Lemma block_same z z' o p b : obj_same (al_ext z) (al_ext z') o → block_at z' o p b ↔ block_at z o p b.
Proof. intros (E1 & E2 & E3). unfold block_at. by rewrite E1, E2, E3. Qed.

Lemma held_range z fl ml G o :
  alloc_inv z fl ml G → held z fl G o →
  let p := reg_pointer (obj_region (al_ext z) o) in let f := es_file (al_ext z) in
  extents f ≤ p ∧ p + obj_size (al_ext z) o ≤ file_end f.
Proof.
  intros Hz [Hu _] p f. pose proof (lv_arenas _ _ _ _ Hz) as Hy.
  destruct (obj_range (al_arena z) fl ml o Hy Hu) as (_ & R1 & R2).
  destruct (obj_pointer (al_arena z) fl ml o Hy Hu) as (_ & _ & Hi).
  destruct (pi_file _ _ _ (rv_pool _ _ _ (av_runs _ _ _ Hy))) as (_ & _ & _ & Hsz & _).
  fold (al_ext z) in *. fold p in R1, R2. unfold ext_at, ext_base, file_end, extents in *. subst f.
  change (rn_ext (as_run (al_arena z))) with (al_ext z) in Hsz. rewrite Hsz.
  change kRootSegSize with 8192 in *. change kExtentSize with 4194304 in *. lia.
Qed.

Lemma heap_of_ok z fl ml G h : alloc_inv z fl ml G → heap_of z fl G h → heap_ok (es_file (al_ext z)) h.
Proof.
  intros Hz Hh p b Hp. apply Hh in Hp as (o & Ho & Hb). pose proof (block_at_pointer _ _ _ _ Hb) as <-.
  destruct Hb as (_ & -> & _). destruct (held_pos z fl ml G o Hz Ho) as [Hp Hn]. split; [done|]. split; [done|].
  destruct (held_range z fl ml G o Hz Ho) as [R1 R2]. split; [exact R1|]. split; [exact R2|].
  intros q c Hq. apply Hh in Hq as (o' & Ho' & Hc). pose proof (block_at_pointer _ _ _ _ Hc) as <-.
  destruct Hc as (_ & -> & _). destruct (decide (o = o')) as [->|Hne]; [by left|right].
  by apply (held_disjoint z fl ml G).
Qed.

Lemma refines_ok f z h : refines f z h → heap_ok f h.
Proof. intros (fl & ml & G & Hz & (_ & <-) & Hh). by apply (heap_of_ok z fl ml G). Qed.

Lemma heap_of_null z fl ml G h : alloc_inv z fl ml G → heap_of z fl G h → h !! nullptr = None.
Proof.
  intros Hz Hh. destruct (h !! nullptr) as [b|] eqn:E; [|done].
  destruct (heap_of_ok z fl ml G h Hz Hh nullptr b E) as [Hp _]. by change nullptr with 0 in Hp.
Qed.

Lemma heap_same z z' fl fl' G h : heap_of z fl G h → held_same z z' fl fl' G → heap_of z' fl' G h.
Proof.
  intros Hh [h1 h2] p b. rewrite (Hh p b). split; intros (o & Ho & Hb); exists o.
  - split; [by apply h1|]. by apply (block_same z z'); [apply h2|].
  - apply h1 in Ho. split; [done|]. by apply (block_same z z'); [apply h2|].
Qed.

Lemma region_eta (r : region_t) : r = region (reg_token r) (reg_pointer r).
Proof. by destruct r. Qed.

Lemma heap_acquired z z' fl fl' ml' G G' o size h :
  heap_of z fl G h → alloc_inv z' fl' ml' G' → acquired_obj z z' fl fl' G G' o size →
  ∃ p b, obj_region (al_ext z') o = region (bl_ref b) p ∧ h !! p = None ∧ fits size (bl_size b) ∧
    bl_code b = kFreeCode ∧ heap_of z' fl' G' (<[p := b]> h).
Proof.
  intros Hh Hz' Ha. set (r := obj_region (al_ext z') o).
  exists (reg_pointer r), {| bl_size := obj_size (al_ext z') o; bl_ref := reg_token r; bl_code := kFreeCode |}.
  assert (held z' fl' G' o) as Ho by (apply (ao_held _ _ _ _ _ _ _ _ Ha); by left).
  assert (∀ o', held z fl G o' → o' ≠ o ∧ held z' fl' G' o' ∧ obj_same (al_ext z) (al_ext z') o') as Hold.
  { intros o' Ho'. split; [intros ->; by destruct (ao_fresh _ _ _ _ _ _ _ _ Ha)|].
    split; [apply (ao_held _ _ _ _ _ _ _ _ Ha); by right|by apply (ao_same _ _ _ _ _ _ _ _ Ha)]. }
  assert (∀ o' p b, held z fl G o' → block_at z o' p b → p ≠ reg_pointer r) as Hne.
  { intros o' p b Ho' Hb ->. destruct (Hold o' Ho') as (Hne & Hx & Hs). apply Hne, (held_inj z' fl' ml' G'); try done.
    apply (block_same z z') in Hb; [|done]. by rewrite (block_at_pointer _ _ _ _ Hb). }
  split; [apply region_eta|]. split; [|split; [apply (ao_size _ _ _ _ _ _ _ _ Ha)|split; [done|]]].
  { destruct (h !! reg_pointer r) as [b|] eqn:E; [|done]. apply Hh in E as (o' & Ho' & Hb).
    by destruct (Hne o' _ _ Ho' Hb). }
  intros q c. destruct (decide (reg_pointer r = q)) as [<-|Hq].
  - rewrite lookup_insert_eq. split.
    + intros [= <-]. exists o. split; [done|]. split; [apply region_eta|]. split; [done|apply Ha].
    + intros (o' & Ho' & Hb). assert (o' = o) as ->.
      { apply (held_inj z' fl' ml' G'); try done. by rewrite (block_at_pointer _ _ _ _ Hb). }
      destruct Hb as (E1 & E2 & E3). rewrite (ao_token _ _ _ _ _ _ _ _ Ha) in E3. fold r in E1. rewrite E1, <-E2.
      injection E3 as E3. rewrite E3. by destruct c.
  - rewrite lookup_insert_ne, (Hh q c) by done. split; intros (o' & Ho' & Hb).
    + destruct (Hold o' Ho') as (_ & Hx & Hs). exists o'. split; [done|]. by apply (block_same z z').
    + apply (ao_held _ _ _ _ _ _ _ _ Ha) in Ho' as [->|Ho']; [by destruct Hq; apply (block_at_pointer z' o q c)|].
      destruct (Hold o' Ho') as (_ & _ & Hs). exists o'. split; [done|]. by apply (block_same z z').
Qed.

Lemma heap_released z z' fl fl' ml G G' o p b h :
  alloc_inv z fl ml G → heap_of z fl G h → held z fl G o → block_at z o p b →
  released_obj z z' fl fl' G G' o → heap_of z' fl' G' (delete p h).
Proof.
  intros Hz Hh Ho Hp [h1 h2] q c. pose proof (block_at_pointer _ _ _ _ Hp) as <-. rewrite lookup_delete_Some, (Hh q c). split.
  - intros (Hne & o' & Ho' & Hb). exists o'. assert (held z' fl' G' o') as Hx.
    { apply h1. split; [done|]. intros ->. by rewrite (block_at_pointer _ _ _ _ Hb) in Hne. }
    split; [done|]. by apply (block_same z z'); [apply h2|].
  - intros (o' & Hx & Hb). apply (block_same z z') in Hb; [|by apply h2]. apply h1 in Hx as [Ho' Hne].
    split; [|by exists o']. intros He. apply Hne, (held_inj z fl ml G); try done.
    by rewrite (block_at_pointer _ _ _ _ Hb).
Qed.

Lemma heap_published z z' fl ml G o p b v h :
  alloc_inv z fl ml G → heap_of z fl G h → held z fl G o → block_at z o p b →
  published_obj z z' fl G o v → heap_of z' fl G (<[p := set_code v b]> h).
Proof.
  intros Hz Hh Ho Hp [h1 h2 h3 h4 h5] q c. pose proof (block_at_pointer _ _ _ _ Hp) as Ep.
  assert (∀ o' q c, held z fl G o' → block_at z o' q c → q = p → o' = o) as Hinj.
  { intros o' q' c' Ho' Hb ->. apply (held_inj z fl ml G); try done.
    by rewrite (block_at_pointer _ _ _ _ Hb), (block_at_pointer _ _ _ _ Hp). }
  destruct (decide (p = q)) as [<-|Hq].
  - rewrite lookup_insert_eq. destruct Hp as (P1 & P2 & P3). split.
    + intros [= <-]. exists o. split; [by apply h1|]. unfold block_at. rewrite h3, h4, h5. done.
    + intros (o' & Ho' & Hb). apply h1 in Ho'. assert (o' = o) as ->.
      { destruct (decide (o' = o)) as [|Hne]; [done|]. apply (block_same z z') in Hb; [|by apply h2].
        by apply (Hinj o' p c). }
      destruct Hb as (E1 & E2 & E3). rewrite h3, P1 in E1. rewrite h4, <-P2 in E2. rewrite h5 in E3.
      injection E1 as E1. injection E3 as E3. unfold set_code. destruct c; simpl in *. congruence.
  - rewrite lookup_insert_ne, (Hh q c) by done. split; intros (o' & Ho' & Hb).
    + exists o'. assert (o' ≠ o) as Hne by (intros ->; destruct Hq; rewrite <-Ep; by apply (block_at_pointer z o q c)).
      split; [by apply h1|]. by apply (block_same z z'); [apply h2|].
    + apply h1 in Ho'. assert (o' ≠ o) as Hne.
      { intros ->. destruct Hq. rewrite <-Ep, <-h3. by apply (block_at_pointer z' o q c). }
      exists o'. split; [done|]. by apply (block_same z z'); [apply h2|].
Qed.

(** *** The calls *)

Lemma mode_running f z z' :
  running z ∧ es_file (al_ext z) = f → same_mode z z' → running z' ∧ es_file (al_ext z') = f.
Proof. intros [[h1 h2] h3] (E1 & E2 & _ & E4). split; [split|]; congruence. Qed.

Lemma wp_heap_acquire f z h tid size (E : error → Prop) Q :
  refines f z h → 0 ≤ size → (∀ e, acquire_error z tid size e → E e) →
  (∀ z', refines f z' h →
     size = 0 ∨ kMaxLargeSize < size ∨ kMaxSmallSize < size ≤ kMaxMediumSize ∧ exhausted z tid size → Q null_region z') →
  (∀ z' p b, refines f z' (<[p := b]> h) → h !! p = None → fits size (bl_size b) → bl_code b = kFreeCode →
     Q (region (bl_ref b) p) z') →
  wp_e (Alloc_acquire tid size) E Q z.
Proof.
  intros (fl & ml & G & Hz & Hrun & Hh) Hs HE Hnull HQ.
  apply (wp_alloc_acquire z fl ml G tid size); [done|apply Hrun|done| | | |].
  - intros Hr Ho. apply HE. split; [by left|]. by exists fl, ml, G.
  - intros Hr Ho. apply HE. split; [by right|]. by exists fl, ml, G.
  - intros z' fl' ml' Hz' Hm Hsame Hcase. apply Hnull; [|destruct Hcase as [?|[?|[??]]]; [by left|by right; left|right; right; split; [done|by exists fl, ml, G]]].
    exists fl', ml', G. split; [done|].
    split; [by eapply mode_running|by apply (heap_same z z' fl fl' G)].
  - intros z' fl' ml' G' o Hz' Hm Ha.
    destruct (heap_acquired z z' fl fl' ml' G G' o size h Hh Hz' Ha) as (p & b & -> & Hn & Hf & Hc & Hh').
    apply HQ; [|done|done|done]. exists fl', ml', G'. split; [done|]. split; [by eapply mode_running|done].
Qed.

Lemma wp_heap_release f z h tid p Q :
  refines f z h → p = nullptr ∨ is_Some (h !! p) → (∀ z', refines f z' (delete p h) → Q tt z') →
  wp (Alloc_release tid p) Q z.
Proof.
  intros (fl & ml & G & Hz & Hrun & Hh) Hp HQ. destruct (decide (p = nullptr)) as [->|Hnn].
  - apply (wp_alloc_release_null z fl ml G); [done|apply Hrun|]. intros z' Hz' Hm Hs. apply HQ.
    rewrite (delete_id h) by (by apply (heap_of_null z fl ml G)). exists fl, ml, G. split; [done|].
    split; [by eapply mode_running|by apply (heap_same z z' fl fl G)].
  - destruct Hp as [?|[b Hb]]; [done|]. apply Hh in Hb as (o & Ho & Hb).
    rewrite <-(block_at_pointer _ _ _ _ Hb). apply (wp_alloc_release z fl ml G); [done|apply Hrun|done|].
    intros z' fl' ml' G' Hz' Hm Hr. apply HQ. exists fl', ml', G'. split; [done|]. split; [by eapply mode_running|].
    by apply (heap_released z z' fl fl' ml G G' o p b).
Qed.

Lemma wp_heap_size f z h tid p b Q :
  refines f z h → h !! p = Some b → (∀ z', refines f z' h → Q (bl_size b) z') →
  wp (Alloc_region_size tid p) Q z.
Proof.
  intros (fl & ml & G & Hz & Hrun & Hh) Hp HQ. apply Hh in Hp as (o & Ho & Hb).
  rewrite <-(block_at_pointer _ _ _ _ Hb). apply (wp_alloc_region_size z fl ml G); [done|done|].
  intros z' Hz' Hm Hs. destruct Hb as (_ & <- & _). apply HQ. exists fl, ml, G. split; [done|].
  split; [by eapply mode_running|by apply (heap_same z z' fl fl G)].
Qed.

Lemma wp_heap_size_null f z h tid Q :
  refines f z h → (∀ z', refines f z' h → Q 0 z') → wp (Alloc_region_size tid nullptr) Q z.
Proof.
  intros (fl & ml & G & Hz & Hrun & Hh) HQ. unfold Alloc_region_size. wp_step.
  apply (wp_thread_cache z fl ml G); [done|]. intros z1 th Hz1 Hm Hs _ _ Hth.
  apply wp_alm. unfold ThreadCache_region_size. rewrite Z.eqb_refl. wp_step. rewrite set_al_arena_id.
  apply HQ. exists fl, ml, G. split; [done|]. split; [by eapply mode_running|]. eapply heap_same; [exact Hh|]. constructor.
  - intros o. by apply held_thread_same.
  - intros o [Hu _]. by apply (tn_kept _ _ _ _ Hs).
Qed.

Lemma wp_heap_publish f z h p b mode tag persist Q :
  refines f z h → h !! p = Some b → bl_code b = kFreeCode → tag ≤ kMarkBits →
  (∀ z', refines f z' (<[p := set_code (hire_code mode tag) b]> h) → Q tt z') →
  wp (exa (pm (region_publish (region (bl_ref b) p) mode tag persist))) Q z.
Proof.
  intros (fl & ml & G & Hz & Hrun & Hh) Hp Hc Htag HQ. apply Hh in Hp as (o & Ho & Hb).
  pose proof Hb as (<- & _ & Ht). apply (wp_alloc_publish z fl ml G o); [done|done|congruence|done|].
  intros z' Hz' Hm Hpub. apply HQ. exists fl, ml, G. split; [done|]. split; [by eapply mode_running|].
  by apply (heap_published z z' fl ml G o p b).
Qed.

(** One call. *)
Lemma refines_op f z h op (E : error → Prop) Q :
  refines f z h → legal h op →
  (∀ tid size e, op = OpAcquire tid size → acquire_error z tid size e → E e) →
  (∀ r z' h', refines f z' h' → heap_step f h op r h' → null_justified z op r → Q r z') → wp_e (do_op op) E Q z.
Proof.
  intros Hr Hlegal HE HQ. destruct op as [tid size|tid p|tid p|r mode tag persist]; simpl in Hlegal |- *.
  - apply wp_e_bind, (wp_heap_acquire f z h tid size); [done|done| | |].
    + intros e. by apply (HE tid size).
    + intros z' Hz' Hcase. apply wp_e_wp, wp_ret. apply (HQ _ _ h); [done|constructor; tauto|].
      intros t n [= <- <-] _ Hn. destruct Hcase as [->|[Hc|[_ Hc]]]; [lia|lia|exact Hc].
    + intros z' p b Hz' Hn Hf Hc. apply wp_e_wp, wp_ret. pose proof (refines_ok _ _ _ Hz') as Hok.
      eapply HQ; [exact Hz'|by constructor|]. intros t n _ [= _ Hp] _.
      destruct (Hok p b) as [Hpos _]; [apply lookup_insert_eq|]. subst p. by change nullptr with 0 in Hpos.
  - apply wp_e_wp. wp_step. apply (wp_heap_release f z h); [done|done|]. intros z' Hz'. wp_step.
    eapply HQ; [exact Hz'|constructor|done].
  - apply wp_e_wp. wp_step. destruct (decide (p = nullptr)) as [->|Hnn].
    + apply (wp_heap_size_null f z h); [done|]. intros z' Hz'. wp_step. eapply HQ; [exact Hz'|constructor|done].
    + destruct Hlegal as [?|[b Hb]]; [done|]. apply (wp_heap_size f z h tid p b); [done|done|]. intros z' Hz'. wp_step.
      eapply HQ; [exact Hz'|by constructor|done].
  - destruct Hlegal as (Htag & b & Hb & Hx & Hc). apply wp_e_wp. wp_step. rewrite (region_eta r), Hx.
    apply (wp_heap_publish f z h (reg_pointer r) b); [done|done|done|done|]. intros z' Hz'. wp_step.
    eapply HQ; [exact Hz'|by constructor|done].
Qed.

Lemma refines_client f c z h :
  refines f z h → safe f h c →
  wp_e (run_client c) (client_fails z c) (λ l z', nulls_justified z c l ∧ ∃ h', heap_run f h c l h' ∧ refines f z' h' ∧ heap_ok f h') z.
Proof.
  revert z h. induction c as [|op k IH]; intros z h Hr Hs; simpl.
  - apply wp_e_wp, wp_ret. split; [constructor|]. exists h. split; [constructor|]. split; [done|by eapply refines_ok].
  - inversion Hs as [|? ? ? Hlegal Hk]; subst. apply wp_e_bind_eq, (refines_op f z h op); [done|done| |].
    { intros tid size e -> He. by constructor. }
    intros r z1 h1 Hr1 Hstep Hnull Hop. apply wp_e_bind. eapply wp_e_mono; [apply (IH r z1 h1); [done|by apply Hk]| |].
    + intros e He. by eapply cf_next.
    + intros l z2 (Hj & h2 & Hrun & Hr2 & Hok). apply wp_e_wp, wp_ret. split; [by eapply nj_do|].
      exists h2. split; [by econstructor|done].
Qed.

(** A pool of which 64 extents have never been used is not exhausted. *)
Lemma not_exhausted z tid size :
  0 < size ≤ kMaxLargeSize → roomy_pool z = true → ¬ exhausted z tid size.
Proof.
  intros Hs Hr%Z.leb_le (fl & ml & G & Hz & Hm). set (u := ext_used (cur_meta (pm_of (al_ext z)))) in *.
  pose proof (pi_ext _ _ _ (rv_pool _ _ _ (av_runs _ _ _ (lv_arenas _ _ _ _ Hz)))) as Hp.
  assert (0 ≤ u) as Hu by (apply (inv_used _ _ _ Hp)).
  apply (enough_memory z fl ml G tid size (seqZ u 64)) in Hm; try done.
  - apply NoDup_seqZ.
  - intros i Hi%elem_of_seqZ. split; [lia|]. intros [Hl _]. fold u in Hl. lia.
Qed.

(** ** Properties *)

(** C3: the allocator in normal operation refines the abstract heap: for every
    client that only passes null or the address of a block in use to [release] and
    [region_size] and publishes a block once, every call terminates and, unless
    the client gets to an [acquire] whose thread cannot get a block in the state of
    the call ([exhausted]), the client sees a run of the abstract heap: [acquire]
    returns a new block of the size class of the request, disjoint from all blocks
    in use and with a free token, [release] removes exactly the block, whichever
    thread acquired it, [region_size] returns the size of the block, and [publish]
    sets its token.  [acquire] of 1 byte to 4 MiB returns null only for a medium
    size, when its thread cannot get a block in that state. *)
Theorem Alloc_refines_heap f c z h :
  refines f z h → safe f h c →
  wp_e (run_client c) (client_fails z c) (λ l z', nulls_justified z c l ∧ ∃ h', heap_run f h c l h' ∧ refines f z' h' ∧ heap_ok f h') z.
Proof. apply refines_client. Qed.
End lemmas.

(** ** Witness: two threads on a new pool *)

(** Thread 1 acquires a block and publishes it, thread 2 asks for its size and
    releases it. *)
Definition example_client : client :=
  Do (OpAcquire 1 100) (λ a, match a with
    | RRegion r =>
        if reg_pointer r =? nullptr then Done
        else Do (OpPublish r true 5 true) (λ _, Do (OpSize 2 (reg_pointer r))
               (λ _, Do (OpRelease 2 (reg_pointer r)) (λ _, Done)))
    | _ => Done
    end).

Lemma example_refines : refines (es_file (al_ext new_alloc)) new_alloc ∅.
Proof.
  exists [], [], (λ _ _, []). split; [exact new_alloc_inv|]. split; [split; [exact new_alloc_running|reflexivity]|]. intros p b. split.
  - intros Hn. by apply (lookup_empty_Some (M := gmap Z) p b) in Hn.
  - intros (o & Ho & _). by destruct (new_alloc_held o).
Qed.

Lemma example_safe f : safe f ∅ example_client.
Proof.
  constructor; [simpl; lia|]. intros a h Hp. inversion Hp as [? ? ? p b Hn Hf Hc Hok| | | | |]; subst; [|constructor].
  cbn [reg_pointer]. destruct (p =? nullptr); [constructor|]. constructor.
  { split; [by vm_compute|]. exists b. rewrite lookup_insert_eq. done. }
  intros r h' Hp'. inversion Hp' as [| | | | |? ? ? ? ? c Hc']; subst. cbn [reg_pointer] in *.
  constructor; [right; rewrite lookup_insert_eq; by eexists|]. intros n h' Hn'.
  assert (h' = <[p := set_code (hire_code true 5) c]> (<[p := b]> ∅)) as -> by (by inversion Hn').
  constructor; [right; rewrite lookup_insert_eq; by eexists|]. intros r h' _. constructor.
Qed.

(** The new allocator is not exhausted. *)
Lemma new_alloc_not_exhausted tid size : 0 < size ≤ kMaxLargeSize → ¬ exhausted new_alloc tid size.
Proof. intros Hs. apply not_exhausted; [done|]. vm_compute. reflexivity. Qed.

(** So the first call of the client does not fail, and later ones are not [acquire]. *)
Lemma example_client_runs e : ¬ client_fails new_alloc example_client e.
Proof.
  intros Hc. inversion Hc as [? ? ? ? ? [_ Hx] E1|? ? ? r z' ? Hr Hc' E1]; subst.
  - by apply (new_alloc_not_exhausted 1 100) in Hx.
  - destruct r as [r|n|]; [|by inversion Hc'|by inversion Hc']. destruct (reg_pointer r =? nullptr); [by inversion Hc'|].
    inversion Hc' as [|? ? ? r1 z1 ? _ Hc1]; subst. inversion Hc1 as [|? ? ? r2 z2 ? _ Hc2]; subst.
    inversion Hc2 as [|? ? ? r3 z3 ? _ Hc3]; subst. by inversion Hc3.
Qed.

Lemma Alloc_refines_heap_witness :
  refines (es_file (al_ext new_alloc)) new_alloc ∅ ∧ safe (es_file (al_ext new_alloc)) ∅ example_client ∧
  wp (run_client example_client)
    (λ l _, ∃ h', heap_run (es_file (al_ext new_alloc)) ∅ example_client l h') new_alloc.
Proof.
  split; [exact example_refines|]. split; [apply example_safe|].
  pose proof (Alloc_refines_heap (es_file (al_ext new_alloc)) example_client new_alloc ∅ example_refines (example_safe _)) as Hw.
  unfold wp_e, wp in *. destruct (run_client example_client new_alloc) as [l z'|e].
  - destruct Hw as (_ & h' & Hr & _). by exists h'.
  - by destruct (example_client_runs e).
Defined.
