(* ===== verification/RootSpec.v ===== *)
(** * The roots of the pool

    The roots ([PersistRoot], slab/ext-file.h) belong to the client of the
    allocator: no operation of the allocator writes them, and writing one does not
    disturb the allocator.  The first half is a property of the text of the
    operations, not of states in which their invariants hold: [keeps] is closed
    under the constructs of the monad, and the tactic [keeps] goes through the
    definitions. *)

From S2P Require Export HeapSpec.
Import Pmem.

(** ** Definitions *)

(** The states that contain the pool. *)
Class HasRoots (S : Type) := roots_of : S → gmap Z Z.
#[export] Instance pst_roots : HasRoots pst := λ s, pm_root (mem s).
#[export] Instance ext_roots : HasRoots ext_st := λ s, roots_of (es_pst s).
#[export] Instance run_roots : HasRoots run_st := λ s, roots_of (rn_ext s).
#[export] Instance arena_roots : HasRoots arena_st := λ s, roots_of (as_run s).
#[export] Instance alloc_roots : HasRoots alloc_st := λ s, roots_of (al_arena s).

(** The operation leaves the roots as they are. *)
Definition keeps {S : Type} `{HasRoots S} {A} (m : M S A) : Prop :=
  ∀ s a s', m s = Ok a s' → roots_of s' = roots_of s.

(** ** Lemmas *)

Section rules.
Context {S : Type} `{HasRoots S} {A B : Type}.
Implicit Types (m : M S A).

Lemma keeps_ret (a : A) : keeps (S := S) (mret a).
Proof. intros s b s' E. by injection E as <- <-. Qed.
Lemma keeps_err e : keeps (S := S) (A := A) (merr e).
Proof. by intros s b s'. Qed.
Lemma keeps_bind m (k : A → M S B) : keeps m → (∀ a, keeps (k a)) → keeps (m ≫= k).
Proof.
  intros Hm Hk s b s' E. unfold mbind, M_bind in E. destruct (m s) as [a s1|] eqn:E1; [|done].
  rewrite (Hk a s1 b s' E). by apply (Hm s a).
Qed.
Lemma keeps_gets (g : S → A) : keeps (mgets g).
Proof. intros s b s' E. by injection E as <- <-. Qed.
Lemma keeps_get : keeps (S := S) mget.
Proof. intros s b s' E. by injection E as <- <-. Qed.
Lemma keeps_modify (g : S → S) : (∀ s, roots_of (g s) = roots_of s) → keeps (mmodify g).
Proof. intros Hg s b s' E. injection E as <- <-. apply Hg. Qed.
Lemma keeps_assert b : keeps (S := S) (massert b).
Proof. intros s a s' E. destruct b; [by injection E as <- <-|discriminate E]. Qed.
Lemma keeps_deref (o : option A) : keeps (S := S) (mderef o).
Proof. intros s a s' E. destruct o; [by injection E as <- <-|discriminate E]. Qed.
Lemma keeps_when b (m : M S unit) : keeps m → keeps (mwhen b m).
Proof. destruct b; [done|]. intros _ s a s' E. by injection E as <- <-. Qed.
End rules.

Lemma keeps_zoom {S T : Type} `{HasRoots S, HasRoots T} {A} (get : T → S) (put : S → T → T) (m : M S A) :
  keeps m → (∀ s t, roots_of (put s t) = roots_of s) → (∀ t, roots_of t = roots_of (get t)) → keeps (mzoom get put m).
Proof.
  intros Hm Hp Hg t a t' E. unfold mzoom in E. destruct (m (get t)) as [b s'|] eqn:Em; [|done].
  injection E as <- <-. rewrite Hp, Hg. by apply (Hm _ _ _ Em).
Qed.

Lemma keeps_for {S : Type} `{HasRoots S} n from (body : Z → M S unit) : (∀ i, keeps (body i)) → keeps (mfor n from body).
Proof.
  intros Hb. revert from. induction n as [|n IH]; intros from; simpl; [apply (keeps_ret (S := S))|].
  apply keeps_bind; [done|]. intros _. apply IH.
Qed.
Lemma keeps_foreach {S : Type} `{HasRoots S} {A} (l : list A) (body : A → M S unit) : (∀ x, keeps (body x)) → keeps (mforeach l body).
Proof.
  intros Hb. induction l as [|x l IH]; simpl; [apply keeps_ret|]. apply keeps_bind; [done|]. by intros _.
Qed.
Lemma keeps_fold {S : Type} `{HasRoots S} {A} n from (body : Z → A → M S A) a : (∀ i a, keeps (body i a)) → keeps (mfold n from body a).
Proof.
  intros Hb. revert from a. induction n as [|n IH]; intros from a; simpl; [apply keeps_ret|].
  apply keeps_bind; [done|]. intros a'. apply IH.
Qed.

(** Goes through the text of an operation; loops that are [Fixpoint]s are in the
    database [keeps]. *)
Create HintDb keeps.
Ltac unfold_head m :=
  match m with
  | ?g _ => unfold_head g
  | _ => unfold m
  end.
Ltac keeps_step :=
  lazymatch goal with
  | |- ∀ _, _ => intro
  | |- keeps (mret _) => apply keeps_ret
  | |- keeps (merr _) => apply keeps_err
  | |- keeps (_ ≫= _) => apply keeps_bind
  | |- keeps (mgets _) => apply keeps_gets
  | |- keeps mget => apply keeps_get
  | |- keeps (mmodify _) => apply keeps_modify; intros ?; reflexivity
  | |- keeps (massert _) => apply keeps_assert
  | |- keeps (mderef _) => apply keeps_deref
  | |- keeps (mwhen _ _) => apply keeps_when
  | |- keeps (mzoom _ _ _) => apply keeps_zoom; [|reflexivity..]
  | |- keeps (mfor _ _ _) => apply keeps_for
  | |- keeps (mforeach _ _) => apply keeps_foreach
  | |- keeps (mfold _ _ _ _) => apply keeps_fold
  | |- keeps (let x := ?v in _) => cbv zeta
  | |- keeps (match ?x with _ => _ end) => destruct x
  | |- keeps ?m => first [solve [eauto with keeps nocore] | unfold_head m; cbv beta]
  end.
Ltac keeps := repeat keeps_step.

Section operations.
Context `{Util} `{UnorderedMap}.

Lemma keeps_fill_unit fuel uid count type restock r l : keeps (fill_unit fuel uid count type restock r l).
Proof. revert r l. induction fuel; intros; simpl; keeps. Qed.
#[local] Hint Resolve keeps_fill_unit : keeps.
Lemma keeps_fill_units fuel unit uid count type restock r l : keeps (fill_units fuel unit uid count type restock r l).
Proof. revert uid count r l. induction fuel; intros; simpl; keeps. Qed.
#[local] Hint Resolve keeps_fill_units : keeps.
Lemma keeps_fill_loop fuel b l restock recover : keeps (fill_loop fuel b l restock recover).
Proof. revert b l. induction fuel; intros; simpl; keeps. Qed.
#[local] Hint Resolve keeps_fill_loop : keeps.
Lemma keeps_spill_loop fuel b : keeps (spill_loop fuel b).
Proof. revert b. induction fuel; intros; simpl; keeps. Qed.
#[local] Hint Resolve keeps_spill_loop : keeps.

Lemma keeps_acquire tid size : keeps (Alloc_acquire tid size).
Proof. keeps. Qed.
Lemma keeps_release tid ptr : keeps (Alloc_release tid ptr).
Proof. keeps. Qed.
Lemma keeps_region_size tid ptr : keeps (Alloc_region_size tid ptr).
Proof. keeps. Qed.
Lemma keeps_publish r mode tag persist : keeps (exa (pm (region_publish r mode tag persist))).
Proof. keeps. Qed.
End operations.

(** ** Writing a root *)

Definition reroot_ext (r : gmap Z Z) (lg : list (pev loc val)) (s : ext_st) : ext_st :=
  set_es_pst {| mem := set_pm_root r (pm_of s); log := lg |} s.
Definition reroot_arenas r lg (y : arena_st) : arena_st := with_pst y (set_pm_root r (pm_of (ext_of y))) lg.
Definition reroot r lg (z : alloc_st) : alloc_st := set_al_arena (reroot_arenas r lg (al_arena z)) z.

(** The root 0 of the pool. *)
Definition root0 (z : alloc_st) : Z := root_at (pm_of (al_ext z)) 0.

Section reroot.
Context `{UtilSpec} `{UnorderedMapSpec}.
Variable r : gmap Z Z.
Variable lg : list (pev loc val).
Implicit Types (s : ext_st) (y : arena_st) (z : alloc_st) (fl ml : list Z).

Lemma ext_inv_root p fl ml : ext_inv p fl ml → ext_inv (set_pm_root r p) fl ml.
Proof. intros [h1 h2 h3 h4 h5 h6 h7 h8]. by constructor. Qed.
Lemma pool_inv_root s fl ml : pool_inv s fl ml → pool_inv (reroot_ext r lg s) fl ml.
Proof. intros [h1 h2 h3]. constructor; [by apply ext_inv_root|done|done]. Qed.
Lemma rbin_inv_root s fl b : rbin_inv s fl b → rbin_inv (reroot_ext r lg s) fl b.
Proof. intros [h1 h2 h3 h4 h5 h6]. by constructor. Qed.
Lemma lbits_ok_root s b i bits : lbits_ok s b i bits → lbits_ok (reroot_ext r lg s) b i bits.
Proof. intros [h1 h2 h3 h4 h5 h6]. by constructor. Qed.
Lemma lbin_inv_root s fl b : lbin_inv s fl b → lbin_inv (reroot_ext r lg s) fl b.
Proof.
  intros [h1 h2 h3]. constructor; [done| |done]. intros x e bits Hb. destruct (h2 x e bits Hb) as (i & k1 & k2 & k3 & k4 & k5).
  exists i. do 3 (split; [done|]). split; [by apply lbits_ok_root|done].
Qed.
Lemma case_inv_root s fl c : case_inv s fl c → case_inv (reroot_ext r lg s) fl c.
Proof.
  intros [h1 h2 h3 h4 h5]. constructor; [done| |done| |done].
  - intros j b Hb. destruct (h2 j b Hb) as [k1 k2]. split; [by apply rbin_inv_root|done].
  - intros j b Hb. destruct (h4 j b Hb) as [k1 k2]. split; [by apply lbin_inv_root|done].
Qed.
Lemma run_owned_root s fl b i rid : run_owned s fl b i rid → run_owned (reroot_ext r lg s) fl b i rid.
Proof. intros [h1 h2 h3 h4]. by constructor. Qed.
Lemma bits_ok_root s i rid bits : bits_ok s i rid bits → bits_ok (reroot_ext r lg s) i rid bits.
Proof. intros [h1 h2 h3 h4 h5 h6]. by constructor. Qed.
Lemma ab_inv_root s fl b : ab_inv s fl b → ab_inv (reroot_ext r lg s) fl b.
Proof.
  intros [h1 h2 h3 h4 h5]. constructor; [done|done|done| |done]. intros a bits Ha.
  destruct (h4 a bits Ha) as (i & rid & k1 & k2 & k3 & k4). exists i, rid. split; [done|].
  split; [by apply run_owned_root|]. split; [by apply bits_ok_root|done].
Qed.
Lemma aused_root s fl b i rid k : aused s fl b i rid k → aused (reroot_ext r lg s) fl b i rid k.
Proof. intros (k1 & k2 & k3). split; [by apply run_owned_root|done]. Qed.

Lemma arenas_inv_root y fl ml : arenas_inv y fl ml → arenas_inv (reroot_arenas r lg y) fl ml.
Proof.
  intros [[h1 h2 h3] h4 h5 h6]. constructor; [|done|done|].
  - constructor; [by apply pool_inv_root| |done]. intros x c Hc. destruct (h2 x c Hc) as [k1 k2].
    split; [by apply case_inv_root|done].
  - intros n a idx b Ha Hb. destruct (h6 n a idx b Ha Hb) as [k1 k2]. split; [by apply ab_inv_root|done].
Qed.

Lemma oused_root y fl o : oused y fl o → oused (reroot_arenas r lg y) fl o.
Proof.
  destruct o as [[i rid k]|i k]; [|done]. intros (n & idx & b & Hb & Hu). exists n, idx, b. split; [done|].
  by apply aused_root.
Qed.

Lemma tcache_inv_root y fl t G : tcache_inv y fl t G → tcache_inv (reroot_arenas r lg y) fl t G.
Proof.
  intros [h1 h2 h3 h4]. constructor; [done|done| |done]. intros idx b Hb.
  destruct (h3 idx b Hb) as [k1 k2 k3 k4 k5 k6 k7]. constructor; try done. intros t' Ht.
  destruct (k6 t' Ht) as (g1 & g2). split; [|done]. by apply (oused_root y fl (OCell t')).
Qed.

Lemma alloc_inv_root z fl ml G : alloc_inv z fl ml G → alloc_inv (reroot r lg z) fl ml G.
Proof.
  intros [h1 h2 h3 h4 h5 h6]. constructor; try done.
  - by apply arenas_inv_root.
  - intros tid th Ht. apply tcache_inv_root. by apply h3.
Qed.

Lemma held_root z fl G o : held z fl G o → held (reroot r lg z) fl G o.
Proof. intros [h1 h2]. split; [by apply oused_root|done]. Qed.
End reroot.

Section rules.
Context `{UtilSpec} `{UnorderedMapSpec}.
Implicit Types (z : alloc_st) (h : heap).

Lemma reroot_back r lg z : reroot (pm_root (pm_of (al_ext z))) (log (es_pst (al_ext z))) (reroot r lg z) = z.
Proof. by destruct z as [[[[[[] ?] ? ?] ? ?] ?] ? ? ? ? ?]. Qed.

Lemma refines_root f r lg z h : refines f z h → refines f (reroot r lg z) h.
Proof.
  intros (fl & ml & G & Hz & Hrun & Hh). exists fl, ml, G. split; [by apply alloc_inv_root|]. split; [done|].
  intros p b. rewrite (Hh p b). split; intros (o & Ho & Hb); exists o.
  - split; [by apply held_root|done].
  - split; [|done]. rewrite <-(reroot_back r lg z). by apply held_root.
Qed.

(** [slab.root()[0].store(p)], with its write-back. *)
Lemma wp_root_set f z h p Q :
  refines f z h → (∀ z', refines f z' h → root0 z' = p → Q tt z') →
  wp (exa (pm (PersistRoot_set 0 p ;; persist_write_back (LRoot 0)))) Q z.
Proof.
  intros Hz HQ. apply wp_zoom, wp_zoom, wp_zoom, wp_zoom. unfold PersistRoot_set. apply wp_bind, wp_bind, wp_assert; [done|].
  set (x := es_pst _). unfold st_store, persist_write_back. wp_step. apply wp_modify.
  set (r := <[0 := p]> (pm_root (mem x))). cbn [mem log]. set (lg := _ ++ [Flush _]).
  change (Q tt (reroot r lg z)). apply HQ; [by apply refines_root|]. unfold root0, root_at. simpl.
  unfold r. by rewrite lookup_insert_eq.
Qed.

(** [slab.root()[0].load()] *)
Lemma wp_root_get z Q : Q (root0 z) z → wp (exa (pm (PersistRoot_get 0))) Q z.
Proof.
  intros HQ. apply wp_zoom, wp_zoom, wp_zoom, wp_zoom. unfold PersistRoot_get. apply wp_bind, wp_assert; [done|].
  apply wp_gets. by destruct z as [[[[[] ?] ?] ?] ? ? ? ? ?].
Qed.

(** The operations of the allocator keep the root. *)
Lemma wp_keeps {A} (m : M alloc_st A) Q z :
  keeps m → wp m (λ a z', root0 z' = root0 z → Q a z') z → wp m Q z.
Proof.
  unfold wp. intros Hk. destruct (m z) as [a z'|] eqn:E; [|done]. intros HQ. apply HQ. specialize (Hk z a z' E).
  change (pm_root (pm_of (al_ext z')) = pm_root (pm_of (al_ext z))) in Hk.
  unfold root0, root_at. by rewrite Hk.
Qed.
Lemma wp_e_keeps {A} (m : M alloc_st A) E Q z :
  keeps m → wp_e m E (λ a z', root0 z' = root0 z → Q a z') z → wp_e m E Q z.
Proof.
  unfold wp_e. intros Hk. destruct (m z) as [a z'|] eqn:Em; [|done]. intros HQ. apply HQ. specialize (Hk z a z' Em).
  change (pm_root (pm_of (al_ext z')) = pm_root (pm_of (al_ext z))) in Hk.
  unfold root0, root_at. by rewrite Hk.
Qed.
End rules.
