(* ===== verification/KvType.v ===== *)
(** * Key-value records (store/kv-type.h)

    The first word of a record, [ctrl], has an invalid bit, a tombstone bit and
    a version of 62 bits; the rest is the key and the value.  Both
    specialisations of [KVPair] have the same control word.  [KVPair] is the
    record for any type of keys; [StringKV] is the layout of the one for strings,
    whose key and value share one array of bytes. *)

From S2P Require Export Prelude.

(** ** Definitions *)

Definition kInValid : Z := Z.shiftl 1 63.
Definition kTombstone : Z := Z.shiftl 1 62.
Definition kVerMask : Z := Z.shiftl 1 62 - 1.

Record KVPair (K : Type) := {
  kv_ctrl : Z;
  kv_key : K;
  kv_vlen : Z;
  kv_value : list Z;   (* the bytes of value[]: the first vlen are valid *)
}.
Arguments kv_ctrl {K}.
Arguments kv_key {K}.
Arguments kv_vlen {K}.
Arguments kv_value {K}.
Arguments Build_KVPair {K}.

(** [memcpy(dst, src, n)] on an array of bytes. *)
Definition memcpy (dst src : list Z) : list Z := src ++ drop (length src) dst.

Section kv.
Context {K : Type}.
Implicit Types (kv : KVPair K).

(** [value] is [None] for a null pointer. *)
Definition make_kv {S} (kv : KVPair K) (key : K) (value : option (list Z)) (vlen : Z)
    : M S (KVPair K) :=
  massert (match value with Some _ => true | None => vlen =? 0 end) ;;
  mret {| kv_ctrl := kv_ctrl kv; kv_key := key; kv_vlen := vlen;
          kv_value := match value with
                      | Some v => memcpy (kv_value kv) (take (Z.to_nat vlen) v)
                      | None => kv_value kv end |}.

Definition with_ctrl (c : Z) (kv : KVPair K) : KVPair K := {|
  kv_ctrl := c; kv_key := kv_key kv; kv_vlen := kv_vlen kv; kv_value := kv_value kv |}.

Definition set_control (version : Z) (tombstone : bool) (kv : KVPair K) : KVPair K :=
  with_ctrl (if tombstone then Z.lor kTombstone version else version) kv.
Definition invalidate (kv : KVPair K) : KVPair K := with_ctrl kInValid kv.

Definition invalid kv : bool := negb (Z.land (kv_ctrl kv) kInValid =? 0).
Definition tombstone kv : bool := negb (Z.land (kv_ctrl kv) kTombstone =? 0).
Definition load_version kv : Z := Z.land (kv_ctrl kv) kVerMask.

(** The value a reader sees. *)
Definition kv_data kv : list Z := take (Z.to_nat (kv_vlen kv)) (kv_value kv).
End kv.

(** The specialisation for strings: [klen], then [kv], the key followed by the
    value. *)
Record StringKV := {
  skv_ctrl : Z;
  skv_vlen : Z;
  skv_klen : Z;
  skv_kv : list Z;
}.
Definition string_make_kv {S} (kv : StringKV) (key : list Z) (value : option (list Z)) (vlen : Z)
    : M S StringKV :=
  massert (match value with Some _ => true | None => vlen =? 0 end) ;;
  let bytes := memcpy (skv_kv kv) key in
  mret {| skv_ctrl := skv_ctrl kv; skv_klen := lenZ key; skv_vlen := vlen;
          skv_kv := match value with
                    | Some v => take (length key) bytes ++
                                memcpy (drop (length key) bytes) (take (Z.to_nat vlen) v)
                    | None => bytes end |}.
Definition string_key (kv : StringKV) : list Z := take (Z.to_nat (skv_klen kv)) (skv_kv kv).
Definition string_value (kv : StringKV) : list Z :=
  take (Z.to_nat (skv_vlen kv)) (drop (Z.to_nat (skv_klen kv)) (skv_kv kv)).

(** ** Lemmas *)

Lemma land_bit_zero w i : 0 ≤ i → 0 ≤ w < 2 ^ i → Z.land w (bit i) = 0.
Proof.
  intros Hi Hw. apply Z.bits_inj_0. intros j. rewrite Z.land_spec, bit_testbit by done.
  case_bool_decide as Hj; [subst|by rewrite andb_false_r].
  by rewrite (testbit_above w j) by lia.
Qed.

Section kv_lemmas.
Context {K : Type}.
Implicit Types (kv : KVPair K).

Lemma version_bits version : 0 ≤ version < 2 ^ 62 → Z.land version kVerMask = version.
Proof.
  intros Hv. change kVerMask with (Z.ones 62). rewrite Z.land_ones by lia. by apply Z.mod_small.
Qed.

(** The control word of a live record or tombstone. *)
Lemma set_control_spec version tomb kv :
  0 ≤ version < 2 ^ 62 →
  invalid (set_control version tomb kv) = false ∧
  tombstone (set_control version tomb kv) = tomb ∧
  load_version (set_control version tomb kv) = version ∧
  kv_key (set_control version tomb kv) = kv_key kv ∧
  kv_data (set_control version tomb kv) = kv_data kv.
Proof.
  intros Hv. unfold invalid, tombstone, load_version, set_control, with_ctrl. simpl.
  change kInValid with (bit 63). change kTombstone with (bit 62).
  assert (Z.land version (bit 62) = 0) as H62 by (apply land_bit_zero; lia).
  assert (Z.land version (bit 63) = 0) as H63 by (apply land_bit_zero; lia).
  split_and!; [..|done|done]; destruct tomb; rewrite ?Z.land_lor_distr_l.
  - by rewrite H63.
  - by rewrite H63.
  - by rewrite H62.
  - by rewrite H62.
  - rewrite (version_bits version) by done. done.
  - by apply version_bits.
Qed.

Lemma invalidate_spec kv : invalid (invalidate kv) = true.
Proof. done. Qed.
End kv_lemmas.

(** ** Properties *)

(** [make_kv] followed by [set_control] of a version below [2^62] gives a
    valid record that reads back the key, the value, the version and the
    tombstone flag, whatever the memory held before. *)
Lemma make_kv_roundtrip {K S : Type} (old : KVPair K) (key : K) (value : list Z) (vlen version : Z)
    (tomb : bool) (s : S) :
  0 ≤ vlen ≤ lenZ value → 0 ≤ version < 2 ^ 62 →
  ∃ kv, make_kv old key (Some value) vlen s = Ok kv s ∧
    let kv' := set_control version tomb kv in
    kv_key kv' = key ∧ kv_data kv' = take (Z.to_nat vlen) value ∧ load_version kv' = version ∧
    tombstone kv' = tomb ∧ invalid kv' = false ∧ invalid (invalidate kv') = true.
Proof.
  intros Hl Hv. eexists. split; [done|]. simpl.
  set (kv := Build_KVPair _ _ _ _).
  destruct (set_control_spec version tomb kv Hv) as (-> & -> & -> & Hk & Hd).
  split_and!; try done. rewrite Hd. unfold kv_data. simpl. unfold memcpy, lenZ in *.
  rewrite take_app_le by (rewrite length_take; lia). rewrite take_take. f_equal. lia.
Qed.

Lemma make_kv_roundtrip_witness :
  let old := {| kv_ctrl := kInValid; kv_key := 7; kv_vlen := 4; kv_value := [9; 9; 9; 9] |} in
  ∃ kv, make_kv old 3 (Some [1; 2]) 2 tt = Ok kv tt ∧
    let kv' := set_control 5 true kv in
    kv_key kv' = 3 ∧ kv_data kv' = [1; 2] ∧ load_version kv' = 5 ∧
    tombstone kv' = true ∧ invalid kv' = false ∧ invalid (invalidate kv') = true.
Proof.
  intros old. apply (make_kv_roundtrip old 3 [1; 2] 2 5 true tt); vm_compute; split; congruence.
Defined.

(** The record of a string key keeps key and value apart in its one array
    of bytes: both are read back, for a value or for a tombstone. *)
Lemma string_kv_roundtrip {S : Type} (old : StringKV) (key : list Z) (value : option (list Z))
    (vlen : Z) (s : S) :
  0 ≤ vlen → match value with Some v => vlen ≤ lenZ v | None => vlen = 0 end →
  ∃ kv, string_make_kv old key value vlen s = Ok kv s ∧
    string_key kv = key ∧ string_value kv = take (Z.to_nat vlen) (default [] value) ∧
    skv_ctrl kv = skv_ctrl old.
Proof.
  intros Hv Hm. unfold string_make_kv, string_key, string_value, massert, mbind, M_bind.
  unfold lenZ in *. destruct value as [v|]; [|rewrite (proj2 (Z.eqb_eq _ _)) by done];
    (eexists; split; [done|]); simpl; rewrite Nat2Z.id; unfold memcpy.
  - rewrite (take_app_length key). rewrite drop_app_length.
    rewrite take_app_length, drop_app_length. split_and!; [done| |done].
    rewrite take_app_le by (rewrite length_take; lia). rewrite take_take. f_equal. lia.
  - rewrite take_app_length. subst vlen. by rewrite take_nil.
Qed.

Lemma string_kv_roundtrip_witness :
  ∃ kv, string_make_kv {| skv_ctrl := 1; skv_vlen := 0; skv_klen := 0; skv_kv := [7; 7; 7] |}
          [1; 2] (Some [3]) 1 tt = Ok kv tt ∧
    string_key kv = [1; 2] ∧ string_value kv = [3] ∧ skv_ctrl kv = 1.
Proof.
  apply (string_kv_roundtrip {| skv_ctrl := 1; skv_vlen := 0; skv_klen := 0; skv_kv := [7; 7; 7] |}
          [1; 2] (Some [3]) 1 tt); vm_compute; congruence.
Defined.
