(* ===== verification/RecordCrash.v ===== *)
(** * Writing a record, and crashes (store/hash-store.h, store/kv-type.h)

    The persistent side of [upsert], [update] and [remove]: how a record reaches
    persistent memory when it overwrites an expired one, and when it goes into a
    new region.  Memory is a function from addresses to bytes; the events are
    those of [Pmem], one for every store, with the content of the whole line.  The
    order of the byte stores of [make_kv] is a parameter: the compiler and
    [memcpy] choose it. *)

From S2P Require Export Persist KvType Token.
Import PersistCall Pmem.

(** ** Definitions *)

Record mst := { cur : Z → Z; evs : list (pev Z (list Z)) }.

Definition line_content (c : Z → Z) (l : Z) : list Z :=
  (λ off, c (l + off)) <$> seqZ 0 kCacheLineSize.
Definition put (a : Z) (bs : list Z) (c : Z → Z) : Z → Z :=
  λ x, if (a <=? x) && (x <? a + lenZ bs) then default 0 (nthZ bs (x - a)) else c x.

(** A store of bytes that lie in one line. *)
Definition store_bytes (a : Z) (bs : list Z) : M mst unit :=
  mmodify (λ s, let c := put a bs (cur s) in
    {| cur := c; evs := evs s ++ [Store (line_of a) (line_content c (line_of a))] |}).
(** [wait_write_back(ptr, len)] *)
Definition write_back (ptr len : Z) : M mst unit :=
  mmodify (λ s, {| cur := cur s; evs := evs s ++ (Flush <$> persist_call ptr len) ++ [Fence] |}).

(** A 64-bit word in memory. *)
Definition le64 (w : Z) : list Z := (λ i, Z.land (Z.shiftr w (8 * i)) 255) <$> seqZ 0 8.
Definition bytes_at (c : Z → Z) (a n : Z) : list Z := c <$> seqZ a n.

(** The order in which the bytes of [make_kv] are stored. *)
Class StoreOrder := store_order : list (Z * Z) → list (Z * Z).
Class StoreOrderSpec `{StoreOrder} : Prop := store_order_spec l : store_order l ≡ₚ l.

Definition same_cache_line (ptr len : Z) : bool :=
  let mask := u64 (Z.lnot (kCacheLineSize - 1)) in
  Z.land ptr mask =? Z.land (ptr + len) mask.

Definition control_word (version : Z) (tombstone : bool) : Z :=
  if tombstone then Z.lor kTombstone version else version.

Section record.
Context `{StoreOrder}.

(** [make_kv]: the bytes after the control word. *)
Definition make_kv_bytes (kv : Z) (body : list Z) : M mst unit :=
  mforeach (store_order (zip (seqZ (kv + 8) (lenZ body)) body)) (λ '(a, b), store_bytes a [b]).

(** The branch of an expired object; [hdr] is [sizeof(KVPair)]. *)
Definition overwrite_record (kv hdr version : Z) (tomb : bool) (body : list Z) : M mst unit :=
  let kv_len := 8 + lenZ body in
  let same := same_cache_line kv kv_len in
  store_bytes kv (le64 kInValid) ;;
  mwhen (negb kEnhancedADR && negb same) (write_back kv hdr) ;;
  make_kv_bytes kv body ;;
  mwhen (negb kEnhancedADR && negb same) (write_back kv kv_len) ;;
  store_bytes kv (le64 (control_word version tomb)) ;;
  if same then write_back kv kv_len else write_back kv hdr.

(** The branch of a new region; [tok] is the address of its token. *)
Definition new_record (kv tok version : Z) (tomb : bool) (body : list Z) : M mst unit :=
  make_kv_bytes kv body ;;
  store_bytes kv (le64 (control_word version tomb)) ;;
  write_back kv (8 + lenZ body) ;;
  t ← mgets (λ s, cur s tok);
  massert ((t =? kFreeCode) && (0 <=? kMarkBits)) ;;
  store_bytes tok [hire_code true 0] ;;
  write_back tok 1.
End record.

(** [img] is what memory may hold when the machine stops during [tr], which
    started with the durable content [c]. *)
Definition crashed (c : Z → Z) (tr : list (pev Z (list Z))) (img : Z → Z) : Prop :=
  ∃ k, ∀ l, l = line_of l → line_content img l ∈ crash_options l (line_content c l) (take k tr).

(** The trace [tr] takes the memory [c] to [c'] and stores to addresses of [W]. *)
Record steps (W : Z → Prop) (c c' : Z → Z) (tr : list (pev Z (list Z))) : Prop := {
  st_frame : ∀ x, ¬ W x → c' x = c x;
  st_stores : ∀ l v, Store l v ∈ tr →
    (∃ a, W a ∧ l = line_of a) ∧ ∃ d, v = line_content d l ∧ ∀ x, ¬ W x → d x = c x;
  st_last : ∀ l s, l = line_of l → last (opts s) = Some (line_content c l) →
    last (opts (line_run l tr s)) = Some (line_content c' l);
}.

(** The record as the operation leaves it. *)
Definition record_written (c c' : Z → Z) (kv version : Z) (tomb : bool) (body : list Z) : Prop :=
  bytes_at c' kv 8 = le64 (control_word version tomb) ∧
  bytes_at c' (kv + 8) (lenZ body) = body ∧
  ∀ x, ¬ (kv ≤ x < kv + 8 + lenZ body) → c' x = c x.

(** ** Lemmas *)

Lemma line_of_idemp a : line_of (line_of a) = line_of a.
Proof. unfold line_of. change kCacheLineSize with 64. Z.div_mod_to_equations. lia. Qed.

Lemma line_content_ext c c' l :
  (∀ off, 0 ≤ off < kCacheLineSize → c (l + off) = c' (l + off)) →
  line_content c l = line_content c' l.
Proof.
  intros Hc. unfold line_content. apply list_fmap_ext. intros i off Hoff.
  apply Hc. apply lookup_seqZ in Hoff. lia.
Qed.

Lemma line_content_inv c c' l x :
  line_content c l = line_content c' l → l ≤ x < l + kCacheLineSize → c x = c' x.
Proof.
  intros He Hx. assert ((line_content c l) !! Z.to_nat (x - l) = (line_content c' l) !! Z.to_nat (x - l))
    as Hl by by rewrite He.
  unfold line_content in Hl. rewrite !list_lookup_fmap in Hl.
  assert (seqZ 0 kCacheLineSize !! Z.to_nat (x - l) = Some (x - l)) as Hs.
  { apply lookup_seqZ. lia. }
  rewrite Hs in Hl. simpl in Hl. injection Hl. by replace (l + (x - l)) with x by lia.
Qed.

Lemma in_line x : line_of x ≤ x < line_of x + kCacheLineSize.
Proof. unfold line_of. change kCacheLineSize with 64. Z.div_mod_to_equations. lia. Qed.

Lemma same_line l x : l = line_of l → l ≤ x < l + kCacheLineSize → l = line_of x.
Proof. unfold line_of. change kCacheLineSize with 64. intros Hl Hx. Z.div_mod_to_equations. lia. Qed.

Lemma put_in a bs c x : a ≤ x < a + lenZ bs → put a bs c x = default 0 (nthZ bs (x - a)).
Proof. intros Hx. unfold put. by rewrite (proj2 (Z.leb_le _ _)), (proj2 (Z.ltb_lt _ _)) by lia. Qed.
Lemma put_out a bs c x : ¬ (a ≤ x < a + lenZ bs) → put a bs c x = c x.
Proof.
  intros Hx. unfold put. destruct (Z.leb_spec a x), (Z.ltb_spec x (a + lenZ bs)); simpl; done || lia.
Qed.

Lemma bytes_at_put a bs c : bytes_at (put a bs c) a (lenZ bs) = bs.
Proof.
  unfold bytes_at. apply list_eq. intros i. rewrite list_lookup_fmap.
  destruct (decide (i < length bs)%nat) as [Hi|Hi].
  - assert (seqZ a (lenZ bs) !! i = Some (a + Z.of_nat i)) as -> by (apply lookup_seqZ; unfold lenZ; lia).
    simpl. rewrite put_in by (unfold lenZ; lia). unfold nthZ.
    rewrite (proj2 (Z.leb_le _ _)) by lia. replace (Z.to_nat (a + Z.of_nat i - a)) with i by lia.
    destruct (lookup_lt_is_Some_2 bs i Hi) as [b ->]. done.
  - rewrite (proj2 (lookup_ge_None bs i)) by lia.
    rewrite (proj2 (lookup_ge_None _ i)); [done|]. rewrite length_seqZ. unfold lenZ. lia.
Qed.

Lemma bytes_at_ext c c' a n : (∀ x, a ≤ x < a + n → c x = c' x) → bytes_at c a n = bytes_at c' a n.
Proof.
  intros Hc. unfold bytes_at. apply list_fmap_ext. intros i x Hx. apply lookup_seqZ in Hx. apply Hc. lia.
Qed.

(** One store. *)
Lemma steps_store a bs c :
  (∀ x, a ≤ x < a + lenZ bs → line_of x = line_of a) → 0 < lenZ bs →
  steps (λ x, a ≤ x < a + lenZ bs) c (put a bs c)
    [Store (line_of a) (line_content (put a bs c) (line_of a))].
Proof.
  intros Hl Hn. constructor.
  - intros x Hx. by apply put_out.
  - intros l v [= -> ->]%list_elem_of_singleton. split; [exists a; split; [lia|done]|].
    exists (put a bs c). split; [done|]. intros x Hx. by apply put_out.
  - intros l s Hll Hs. simpl. case_decide as Hd.
    + subst l. simpl. by rewrite last_snoc.
    + rewrite Hs. f_equal. apply line_content_ext. intros off Hoff. symmetry. apply put_out.
      intros Hx. apply Hd. rewrite <-(Hl _ Hx). apply same_line; [done|lia].
Qed.

Lemma steps_mono W W' c c' tr : (∀ x, W x → W' x) → steps W c c' tr → steps W' c c' tr.
Proof.
  intros HW [Hf Hs Hl]. constructor; [|..|done].
  - intros x Hx. apply Hf. auto.
  - intros l v Hv. destruct (Hs l v Hv) as ((a & Ha & ->) & d & -> & Hd).
    split; [exists a; by auto|]. exists d. split; [done|]. auto.
Qed.

Lemma steps_app W c1 c2 c3 tr1 tr2 :
  steps W c1 c2 tr1 → steps W c2 c3 tr2 → steps W c1 c3 (tr1 ++ tr2).
Proof.
  intros [Hf1 Hs1 Hl1] [Hf2 Hs2 Hl2]. constructor.
  - intros x Hx. by rewrite Hf2, Hf1.
  - intros l v [Hv|Hv]%elem_of_app; [by apply Hs1|].
    destruct (Hs2 l v Hv) as (Ha & d & -> & Hd). split; [done|]. exists d. split; [done|].
    intros x Hx. by rewrite Hd, Hf1.
  - intros l s Hl Hs. rewrite line_run_app. by apply Hl2, Hl1.
Qed.

Lemma steps_nil W c : steps W c c [].
Proof. constructor; [done| |done]. intros l v Hv. by apply not_elem_of_nil in Hv. Qed.

(** The byte stores of [make_kv], in any order. *)
Lemma wp_byte_stores l c lg Q :
  NoDup l.*1 →
  (∀ c' tr, steps (λ x, x ∈ l.*1) c c' tr → (∀ a b, (a, b) ∈ l → c' a = b) →
     Q tt {| cur := c'; evs := lg ++ tr |}) →
  wp (mforeach l (λ '(a, b), store_bytes a [b])) Q {| cur := c; evs := lg |}.
Proof.
  revert c lg. induction l as [|[a b] l IH]; intros c lg Hnd HQ; simpl.
  - apply wp_ret. specialize (HQ c []). rewrite app_nil_r in HQ. apply HQ; [apply steps_nil|].
    intros a b Hab. by apply not_elem_of_nil in Hab.
  - apply NoDup_cons in Hnd as [Hni Hnd]. wp_step. apply wp_modify. cbn.
    assert (steps (λ x, a ≤ x < a + 1) c (put a [b] c)
      [Store (line_of a) (line_content (put a [b] c) (line_of a))]) as Hst.
    { apply (steps_store a [b]); [|done]. intros x Hx. change (lenZ [b]) with 1 in Hx.
      by replace x with a by lia. }
    apply IH; [done|]. intros c' tr Htr Hin. rewrite <-app_assoc. apply HQ.
    + eapply steps_app; eapply steps_mono; [|exact Hst| |exact Htr].
      * intros x Hx. cbv beta in Hx. replace x with a by lia. by left.
      * intros x Hx. by right.
    + intros a' b' [[= -> ->]|Hab]%elem_of_cons; [|by apply Hin].
      rewrite (st_frame _ _ _ _ Htr) by done. rewrite put_in by (change (lenZ [b]) with 1; lia).
      by rewrite Z.sub_diag.
Qed.

Lemma run_flushes (l : Z) ls (s : line_state (list Z)) : opts (line_run l (Flush <$> ls) s) = opts s.
Proof.
  revert s. induction ls as [|x ls IH]; intros s; simpl; [done|].
  unfold line_run in *. simpl. rewrite IH. by case_decide.
Qed.

(** A write-back of a range that holds all stores settles every line. *)
Lemma steps_settled W c c' tr ptr len l :
  steps W c c' tr → (∀ a, W a → ptr ≤ a < ptr + len) → 0 ≤ ptr → 0 < len → ptr + len < 2 ^ 64 →
  l = line_of l →
  settled l (line_content c l) (tr ++ (Flush <$> persist_call ptr len) ++ [Fence]) (line_content c' l).
Proof.
  intros [Hf Hs Hl] HW Hp Hn Hm Hll. destruct (decide (l ∈ persist_call ptr len)) as [Hin|Hni].
  - apply list_elem_of_split in Hin as (ls1 & ls2 & Els). rewrite Els, fmap_app, fmap_cons.
    rewrite <-!app_assoc, app_assoc. simpl. apply settled_flush.
    + unfold crash_options. rewrite line_run_app, run_flushes. apply Hl; done.
    + intros v. rewrite list_elem_of_fmap. intros (y & [=] & _).
  - assert (∀ v, Store l v ∉ tr ++ (Flush <$> persist_call ptr len) ++ [Fence]) as Hns.
    { intros v. rewrite !elem_of_app. intros [Hv|[Hv|Hv%list_elem_of_singleton]]; [| |done].
      - destruct (Hs l v Hv) as ((a & Ha & ->) & _). apply Hni.
        apply persist_call_lines; [done..|]. exists a. split; [by apply HW|done].
      - apply list_elem_of_fmap in Hv as (y & [=] & _). }
    assert (line_content c' l = line_content c l) as ->.
    { apply line_content_ext. intros off Hoff. apply Hf. intros Hx%HW. apply Hni.
      apply persist_call_lines; [done..|]. exists (l + off). split; [done|]. apply same_line; [done|lia]. }
    by apply settled_untouched.
Qed.

Lemma crashed_app c0 c1 tr1 tr2 img :
  (∀ l, l = line_of l → settled l (line_content c0 l) tr1 (line_content c1 l)) →
  crashed c0 (tr1 ++ tr2) img → crashed c0 tr1 img ∨ crashed c1 tr2 img.
Proof.
  intros Hs [k Hk]. destruct (decide (k ≤ length tr1)%nat) as [Hle|Hgt].
  - left. exists k. intros l Hl. specialize (Hk l Hl). by rewrite take_app_le in Hk.
  - right. exists (k - length tr1)%nat. intros l Hl. specialize (Hk l Hl).
    rewrite take_app_ge in Hk by lia. by rewrite (settled_app _ _ _ _ _ (Hs l Hl)) in Hk.
Qed.

(** What a line of the image may hold. *)
Lemma crashed_line c tr img l :
  crashed c tr img → l = line_of l →
  line_content img l = line_content c l ∨ Store l (line_content img l) ∈ tr.
Proof.
  intros [k Hk] Hll. destruct (options_subset _ _ _ _ (Hk l Hll)) as [|Hx]; [by left|right].
  by eapply subseteq_take.
Qed.

Lemma store_in_flush l ls (v : list Z) (tr : list (pev Z (list Z))) :
  Store l v ∈ tr ++ (Flush <$> ls) ++ [Fence] → Store l v ∈ tr.
Proof.
  rewrite !elem_of_app, list_elem_of_singleton. intros [Hv|[Hv|Hv]]; [done| |done].
  by apply list_elem_of_fmap in Hv as (y & [=] & _).
Qed.

(** Bytes that are not stored to survive. *)
Lemma crashed_frame W c c' tr ls img x :
  steps W c c' tr → crashed c (tr ++ (Flush <$> ls) ++ [Fence]) img → ¬ W x → img x = c x.
Proof.
  intros [Hf Hs Hl] Hc Hx. pose proof (in_line x) as Hin.
  destruct (crashed_line _ _ _ (line_of x) Hc) as [He|Hst]; [by rewrite line_of_idemp| |].
  - by apply (line_content_inv _ _ _ _ He).
  - apply store_in_flush, Hs in Hst as (_ & d & He & Hd).
    rewrite (line_content_inv _ _ _ _ He Hin). by apply Hd.
Qed.

(** A single store is atomic. *)
Lemma crashed_one a bs c ls img :
  (∀ x, a ≤ x < a + lenZ bs → line_of x = line_of a) → 0 < lenZ bs →
  crashed c ([Store (line_of a) (line_content (put a bs c) (line_of a))] ++
             (Flush <$> ls) ++ [Fence]) img →
  (∀ x, img x = c x) ∨ (∀ x, img x = put a bs c x).
Proof.
  intros Ha Hn Hc. pose proof (steps_store a bs c Ha Hn) as Hst.
  assert (∀ x, line_of x ≠ line_of a → img x = c x ∧ put a bs c x = c x) as Hout.
  { intros x Hx. assert (¬ a ≤ x < a + lenZ bs) as Hnx by (intros H; by apply Hx, Ha).
    split; [by apply (crashed_frame _ _ _ _ _ _ _ Hst Hc)|by apply put_out]. }
  destruct (crashed_line _ _ _ (line_of a) Hc) as [He|Hs]; [by rewrite line_of_idemp|left|right].
  - intros x. destruct (decide (line_of x = line_of a)) as [Hx|Hx]; [|by apply Hout].
    apply (line_content_inv _ _ _ _ He). rewrite <-Hx. apply in_line.
  - apply store_in_flush, list_elem_of_singleton in Hs.
    assert (line_content img (line_of a) = line_content (put a bs c) (line_of a)) as He by congruence.
    intros x.
    destruct (decide (line_of x = line_of a)) as [Hx|Hx]; [|by destruct (Hout x Hx) as [-> ->]].
    apply (line_content_inv _ _ _ _ He). rewrite <-Hx. apply in_line.
Qed.

Lemma settled_trans l (v0 v1 v2 : list Z) (tr1 tr2 : list (pev Z (list Z))) :
  settled l v0 tr1 v1 → settled l v1 tr2 v2 → settled l v0 (tr1 ++ tr2) v2.
Proof. unfold settled. intros H1 H2. by rewrite line_run_app, H1. Qed.

Lemma line_of_inside a n x :
  a mod 32 = 0 → 0 < n ≤ 32 → a ≤ x < a + n → line_of x = line_of a.
Proof.
  unfold line_of. change kCacheLineSize with 64. intros Ha Hn Hx. Z.div_mod_to_equations. lia.
Qed.

Lemma same_cache_line_true ptr len :
  0 ≤ ptr → 0 ≤ len → ptr + len < 2 ^ 64 →
  same_cache_line ptr len = true → ∀ x, ptr ≤ x < ptr + len → line_of x = line_of ptr.
Proof.
  intros Hp Hl Hm Hs. unfold same_cache_line in Hs. apply Z.eqb_eq in Hs.
  rewrite !land_line in Hs by lia. intros x Hx. unfold line_of in *.
  change kCacheLineSize with 64 in *. Z.div_mod_to_equations. lia.
Qed.

Section record_lemmas.
Context `{StoreOrderSpec}.

Lemma wp_make_kv kv body c lg Q :
  (∀ c' tr, steps (λ x, kv + 8 ≤ x < kv + 8 + lenZ body) c c' tr →
     bytes_at c' (kv + 8) (lenZ body) = body → Q tt {| cur := c'; evs := lg ++ tr |}) →
  wp (make_kv_bytes kv body) Q {| cur := c; evs := lg |}.
Proof.
  intros HQ. unfold make_kv_bytes. set (l := zip (seqZ (kv + 8) (lenZ body)) body).
  assert (l.*1 = seqZ (kv + 8) (lenZ body)) as Hl1.
  { apply fst_zip. rewrite length_seqZ. unfold lenZ. lia. }
  apply wp_byte_stores.
  - rewrite (store_order_spec l), Hl1. apply NoDup_seqZ.
  - intros c' tr Hst Hin. apply HQ.
    + eapply steps_mono; [|exact Hst]. intros x Hx. cbv beta in Hx.
      rewrite (store_order_spec l), Hl1 in Hx.
      by apply elem_of_seqZ in Hx.
    + unfold bytes_at. apply list_eq. intros i. rewrite list_lookup_fmap.
      destruct (decide (i < length body)%nat) as [Hi|Hi].
      * destruct (lookup_lt_is_Some_2 body i Hi) as [b Hb]. rewrite Hb.
        assert (seqZ (kv + 8) (lenZ body) !! i = Some (kv + 8 + Z.of_nat i)) as Hs
          by (apply lookup_seqZ; unfold lenZ; lia).
        rewrite Hs. simpl. f_equal. apply Hin. rewrite (store_order_spec l). subst l.
        apply list_elem_of_lookup. exists i. apply lookup_zip_with_Some. eauto.
      * rewrite (proj2 (lookup_ge_None body i)) by lia.
        rewrite (proj2 (lookup_ge_None _ i)); [done|]. rewrite length_seqZ. unfold lenZ. lia.
Qed.

Lemma length_le64 w : lenZ (le64 w) = 8.
Proof. done. Qed.

Lemma record_written_intro c0 c1 c2 kv version tomb body :
  (∀ x, ¬ (kv ≤ x < kv + 8) → c1 x = c0 x) →
  (∀ x, ¬ (kv + 8 ≤ x < kv + 8 + lenZ body) → c2 x = c1 x) →
  bytes_at c2 (kv + 8) (lenZ body) = body →
  record_written c0 (put kv (le64 (control_word version tomb)) c2) kv version tomb body.
Proof.
  intros H1 H2 Hb. assert (0 ≤ lenZ body) by (unfold lenZ; lia). split_and!.
  - apply (bytes_at_put kv (le64 _)).
  - rewrite <-Hb at 2. apply bytes_at_ext. intros x Hx. apply put_out. rewrite length_le64. lia.
  - intros x Hx. rewrite put_out by (rewrite length_le64; lia). rewrite H2, H1; [done|lia..].
Qed.

Section overwrite.
Variables (kv hdr version : Z) (tomb : bool) (body : list Z).
Hypothesis Hkv : 0 ≤ kv.
Hypothesis Hal : kv mod 32 = 0.
Hypothesis Hhdr : 8 ≤ hdr ≤ 32.
Hypothesis Hlen : hdr ≤ 8 + lenZ body.
Hypothesis Hmax : kv + 8 + lenZ body < 2 ^ 63.

Abbreviation inv_word := (le64 kInValid).
Abbreviation new_word := (le64 (control_word version tomb)).

Lemma header_line x : kv ≤ x < kv + lenZ inv_word → line_of x = line_of kv.
Proof. rewrite length_le64. intros Hx. by apply (line_of_inside kv 8); [|lia|]. Qed.

(** The store of a control word and the write-back of the header. *)
Lemma header_settled w c l :
  l = line_of l →
  settled l (line_content c l)
    ([Store (line_of kv) (line_content (put kv (le64 w) c) (line_of kv))] ++
     (Flush <$> persist_call kv hdr) ++ [Fence])
    (line_content (put kv (le64 w) c) l).
Proof.
  intros Hl. apply (steps_settled (λ x, kv ≤ x < kv + lenZ (le64 w))); try done; try lia.
  - apply steps_store; [exact header_line|done].
  - intros a. rewrite length_le64. lia.
Qed.

(** The three phases of the general case. *)
Lemma overwrite_far c0 c2 tr2 img :
  let c1 := put kv inv_word c0 in let c3 := put kv new_word c2 in
  let tr := ([Store (line_of kv) (line_content c1 (line_of kv))] ++
             (Flush <$> persist_call kv hdr) ++ [Fence]) ++
            (tr2 ++ (Flush <$> persist_call kv (8 + lenZ body)) ++ [Fence]) ++
            [Store (line_of kv) (line_content c3 (line_of kv))] ++
            (Flush <$> persist_call kv hdr) ++ [Fence] in
  steps (λ x, kv + 8 ≤ x < kv + 8 + lenZ body) c1 c2 tr2 →
  (∀ l, l = line_of l → settled l (line_content c0 l) tr (line_content c3 l)) ∧
  (crashed c0 tr img → (∀ x, img x = c0 x) ∨ (∀ x, img x = c3 x) ∨ ∃ c, (c = c1 ∨ c = c2) ∧
     ∀ x, ¬ (kv + 8 ≤ x < kv + 8 + lenZ body) → img x = c x).
Proof.
  intros c1 c3 tr Hst. assert (0 ≤ lenZ body) by (unfold lenZ; lia).
  assert (∀ l, l = line_of l → settled l (line_content c1 l)
    (tr2 ++ (Flush <$> persist_call kv (8 + lenZ body)) ++ [Fence]) (line_content c2 l)) as Hs2.
  { intros l Hl. eapply steps_settled; [exact Hst|intros a; cbv beta; lia|lia|lia|lia|done]. }
  split.
  - intros l Hl. eapply settled_trans; [by apply header_settled|].
    eapply settled_trans; [by apply Hs2|by apply header_settled].
  - intros Hc. apply (crashed_app c0 c1) in Hc as [Hc|Hc]; [| |by apply header_settled].
    { apply crashed_one in Hc as [Hc|Hc]; [by left| |by apply header_line|done].
      right; right. exists c1. split; [by left|]. intros x _. apply Hc. }
    apply (crashed_app c1 c2) in Hc as [Hc|Hc]; [| |done].
    { right; right. exists c1. split; [by left|]. intros x Hx.
      by apply (crashed_frame _ _ _ _ _ _ _ Hst Hc). }
    apply crashed_one in Hc as [Hc|Hc]; [|by right; left|by apply header_line|done].
    right; right. exists c2. split; [by right|]. intros x _. apply Hc.
Qed.

(** The case of a record inside one line: everything is settled at the end. *)
Lemma overwrite_near c0 c2 tr2 img :
  let c1 := put kv inv_word c0 in let c3 := put kv new_word c2 in
  let tr := ([Store (line_of kv) (line_content c1 (line_of kv))] ++ tr2 ++
             [Store (line_of kv) (line_content c3 (line_of kv))]) ++
            (Flush <$> persist_call kv (8 + lenZ body)) ++ [Fence] in
  (∀ x, kv ≤ x < kv + (8 + lenZ body) → line_of x = line_of kv) →
  steps (λ x, kv + 8 ≤ x < kv + 8 + lenZ body) c1 c2 tr2 →
  (∀ l, l = line_of l → settled l (line_content c0 l) tr (line_content c3 l)) ∧
  (crashed c0 tr img → (∀ x, img x = c0 x) ∨ (∀ x, img x = c3 x) ∨ ∃ c, (c = c1 ∨ c = c2) ∧
     ∀ x, ¬ (kv + 8 ≤ x < kv + 8 + lenZ body) → img x = c x).
Proof.
  intros c1 c3 tr Hsame Hst. assert (0 ≤ lenZ body) by (unfold lenZ; lia).
  assert (steps (λ x, kv ≤ x < kv + (8 + lenZ body)) c0 c3
    ([Store (line_of kv) (line_content c1 (line_of kv))] ++ tr2 ++
     [Store (line_of kv) (line_content c3 (line_of kv))])) as Hall.
  { eapply steps_app; [|eapply steps_app]; (eapply steps_mono; [|first
      [exact Hst|apply steps_store; [exact header_line|done]]]); intros x; cbv beta;
      rewrite ?length_le64; lia. }
  split.
  { intros l Hl. eapply steps_settled; [exact Hall|done|lia|lia|lia|done]. }
  intros Hc.
  assert (∀ d, line_content img (line_of kv) = line_content d (line_of kv) →
    (∀ x, ¬ (kv ≤ x < kv + (8 + lenZ body)) → d x = c0 x) → ∀ x, img x = d x) as Hext.
  { intros d Hd Ho x. destruct (decide (line_of x = line_of kv)) as [Hx|Hx].
    - apply (line_content_inv _ _ _ _ Hd). rewrite <-Hx. apply in_line.
    - assert (¬ kv ≤ x < kv + (8 + lenZ body)) as Hn by (intros Hn; by apply Hx, Hsame).
      rewrite Ho by done. by apply (crashed_frame _ _ _ _ _ _ _ Hall Hc). }
  assert (∀ x, ¬ (kv ≤ x < kv + (8 + lenZ body)) → c1 x = c0 x) as Hc1.
  { intros x Hx. apply put_out. rewrite length_le64. lia. }
  assert (∀ x, ¬ (kv ≤ x < kv + (8 + lenZ body)) → c3 x = c0 x) as Hc3.
  { intros x Hx. by apply (st_frame _ _ _ _ Hall). }
  destruct (crashed_line _ _ _ (line_of kv) Hc) as [He|Hs]; [by rewrite line_of_idemp|left; by apply Hext|].
  apply store_in_flush in Hs. rewrite !elem_of_app, !list_elem_of_singleton in Hs.
  destruct Hs as [Hs|[Hs|Hs]].
  - right; right. exists c1. split; [by left|]. intros x _. apply Hext; [congruence|done].
  - right; right. exists c1. split; [by left|].
    destruct (st_stores _ _ _ _ Hst _ _ Hs) as (_ & d & Hd & Hdx). intros x Hx.
    rewrite (Hext d); [by apply Hdx|done|]. intros y Hy. rewrite Hdx by lia. by apply Hc1.
  - right; left. apply Hext; [congruence|done].
Qed.

Lemma wp_overwrite c0 Q :
  (∀ c2 tr, let c1 := put kv inv_word c0 in let c3 := put kv new_word c2 in
     record_written c0 c3 kv version tomb body → bytes_at c1 kv 8 = inv_word →
     bytes_at c2 kv 8 = inv_word →
     (∀ l, l = line_of l → settled l (line_content c0 l) tr (line_content c3 l)) →
     (∀ x, ¬ (kv ≤ x < kv + 8 + lenZ body) → c1 x = c0 x ∧ c2 x = c0 x) →
     (∀ img, crashed c0 tr img →
        (∀ x, img x = c0 x) ∨ (∀ x, img x = c3 x) ∨ ∃ c, (c = c1 ∨ c = c2) ∧
        ∀ x, ¬ (kv + 8 ≤ x < kv + 8 + lenZ body) → img x = c x) →
     Q tt {| cur := c3; evs := tr |}) →
  wp (overwrite_record kv hdr version tomb body) Q {| cur := c0; evs := [] |}.
Proof.
  intros HQ. assert (0 ≤ lenZ body) by (unfold lenZ; lia). unfold overwrite_record.
  wp_step. apply wp_modify. cbn. wp_step. set (c1 := put kv inv_word c0).
  assert (∀ c2 tr2, steps (λ x, kv + 8 ≤ x < kv + 8 + lenZ body) c1 c2 tr2 →
    bytes_at c1 kv 8 = inv_word ∧ bytes_at c2 kv 8 = inv_word ∧
    (∀ x, ¬ (kv ≤ x < kv + 8 + lenZ body) → c1 x = c0 x ∧ c2 x = c0 x)) as Hmid.
  { intros c2 tr2 Hst. pose proof (bytes_at_put kv inv_word c0) as Hb1. rewrite length_le64 in Hb1.
    split; [done|]. split.
    - rewrite <-Hb1. apply bytes_at_ext. intros x Hx. apply (st_frame _ _ _ _ Hst). lia.
    - intros x Hx. assert (c1 x = c0 x) as Hx1 by (apply put_out; rewrite length_le64; lia).
      split; [done|]. rewrite (st_frame _ _ _ _ Hst); [done|lia]. }
  assert (∀ c2 tr2, steps (λ x, kv + 8 ≤ x < kv + 8 + lenZ body) c1 c2 tr2 →
    bytes_at c2 (kv + 8) (lenZ body) = body →
    record_written c0 (put kv new_word c2) kv version tomb body) as Hrec.
  { intros c2 tr2 Hst Hb. apply (record_written_intro c0 c1 c2); [|apply (st_frame _ _ _ _ Hst)|done].
    intros x Hx. apply put_out. by rewrite length_le64. }
  destruct (same_cache_line kv (8 + lenZ body)) eqn:Esame; cbn [negb andb mwhen].
  - apply wp_ret. wp_step. apply wp_make_kv. intros c2 tr2 Hst Hb. wp_step. apply wp_ret.
    wp_step. apply wp_modify. cbn. apply wp_modify. cbn.
    destruct (Hmid c2 tr2 Hst) as (Hm1 & Hm2 & Hm3).
    pose proof (λ img, overwrite_near c0 c2 tr2 img
      (same_cache_line_true kv (8 + lenZ body) ltac:(lia) ltac:(lia) ltac:(lia) Esame) Hst) as Hnear.
    rewrite <-!app_assoc in Hnear. cbn [app] in Hnear.
    apply HQ; try done; [by eapply Hrec| |].
    + rewrite <-!app_assoc. cbn [app]. apply (Hnear c0).
    + intros img. rewrite <-!app_assoc. cbn [app]. apply (Hnear img).
  - unfold write_back. apply wp_modify. cbn [cur evs]. wp_step. apply wp_make_kv.
    intros c2 tr2 Hst Hb. wp_step. apply wp_modify. cbn [cur evs].
    wp_step. apply wp_modify. cbn [cur evs]. apply wp_modify. cbn [cur evs].
    destruct (Hmid c2 tr2 Hst) as (Hm1 & Hm2 & Hm3).
    pose proof (λ img, overwrite_far c0 c2 tr2 img Hst) as Hfar.
    rewrite <-!app_assoc in Hfar. cbn [app] in Hfar.
    apply HQ; try done; [by eapply Hrec| |].
    + rewrite <-!app_assoc. cbn [app]. apply (Hfar c0).
    + intros img. rewrite <-!app_assoc. cbn [app]. apply (Hfar img).
Qed.
End overwrite.

(** ** Properties *)

(** C24: overwriting an expired record is failure atomic.  When the operation
    ends, the record is complete and durable, and no byte outside it has changed.
    If the machine stops at any moment before, memory holds the expired record,
    intact; or the complete new record; or a record whose control word says
    invalid, which recovery releases.  This holds for every order of the stores of
    the key and the value, for records inside one line, which are written back
    once, and for records over several lines. *)
Theorem overwrite_crash_safe kv hdr version tomb body c0 :
  0 ≤ kv → kv mod 32 = 0 → 8 ≤ hdr ≤ 32 → hdr ≤ 8 + lenZ body → kv + 8 + lenZ body < 2 ^ 63 →
  wp (overwrite_record kv hdr version tomb body) (λ _ s',
    record_written c0 (cur s') kv version tomb body ∧
    (∀ l, l = line_of l → settled l (line_content c0 l) (evs s') (line_content (cur s') l)) ∧
    ∀ img, crashed c0 (evs s') img →
      (∀ x, img x = c0 x) ∨ (∀ x, img x = cur s' x) ∨
      bytes_at img kv 8 = le64 kInValid ∧ ∀ x, ¬ (kv ≤ x < kv + 8 + lenZ body) → img x = c0 x)
    {| cur := c0; evs := [] |}.
Proof.
  intros. apply wp_overwrite; [done..|]. intros c2 tr c1 c3 Hr Hc1 Hc2 Hs Hf Hc. cbn.
  split; [done|]. split; [done|]. intros img Himg.
  destruct (Hc img Himg) as [Hi|[Hi|(c & Hcc & Hi)]]; [by left|by right; left|right; right]. split.
  - transitivity (bytes_at c kv 8); [|by destruct Hcc as [->| ->]].
    apply bytes_at_ext. intros x Hx. apply Hi. lia.
  - intros x Hx. rewrite Hi by lia. destruct (Hf x Hx). by destruct Hcc as [->| ->].
Qed.

(** C25: a record in a new region is complete and durable before its token says
    that the region is in use: whenever the machine stops, either the token is
    still free, so that recovery does not look at the region, or the whole record
    is there. *)
Theorem publish_crash_safe kv tok version tomb body c0 :
  0 ≤ kv → kv mod 32 = 0 → kv + 8 + lenZ body < 2 ^ 63 → 0 ≤ tok < 2 ^ 63 →
  ¬ (kv ≤ tok < kv + 8 + lenZ body) → c0 tok = kFreeCode →
  wp (new_record kv tok version tomb body) (λ _ s', ∃ c,
    record_written c0 c kv version tomb body ∧ cur s' = put tok [hire_code true 0] c ∧
    (∀ l, l = line_of l → settled l (line_content c0 l) (evs s') (line_content (cur s') l)) ∧
    ∀ img, crashed c0 (evs s') img →
      img tok = kFreeCode ∨ (∀ x, img x = cur s' x))
    {| cur := c0; evs := [] |}.
Proof.
  intros Hkv Hal Hmax Htok Hout Hfree. assert (0 ≤ lenZ body) by (unfold lenZ; lia).
  unfold new_record, write_back. wp_step. apply wp_make_kv. intros c1 tr1 Hst Hb. cbn [app].
  wp_step. apply wp_modify. cbn [cur evs]. wp_step. apply wp_modify. cbn [cur evs].
  set (w := le64 (control_word version tomb)). set (c := put kv w c1).
  assert (record_written c0 c kv version tomb body) as Hrec.
  { apply (record_written_intro c0 c0 c1); [done|apply (st_frame _ _ _ _ Hst)|done]. }
  assert (c tok = kFreeCode) as Htokc by (destruct Hrec as (_ & _ & ->); done).
  wp_step. apply wp_gets. cbn [cur]. wp_step. apply wp_assert; [by rewrite Htokc|].
  wp_step. apply wp_modify. cbn [cur evs]. apply wp_modify. cbn [cur evs].
  assert (steps (λ x, kv ≤ x < kv + (8 + lenZ body)) c0 c
    (tr1 ++ [Store (line_of kv) (line_content c (line_of kv))])) as Hst2.
  { eapply steps_app; eapply steps_mono; [|exact Hst| |apply steps_store];
      [intros x; cbv beta; lia|intros x; subst w; rewrite length_le64; lia| |done].
    intros x Hx. subst w. rewrite length_le64 in Hx. by apply (line_of_inside kv 8); [|lia|]. }
  assert (∀ l, l = line_of l → settled l (line_content c0 l)
    ((tr1 ++ [Store (line_of kv) (line_content c (line_of kv))]) ++
     (Flush <$> persist_call kv (8 + lenZ body)) ++ [Fence]) (line_content c l)) as Hs1.
  { intros l Hl. eapply steps_settled; [exact Hst2|done|lia|lia|lia|done]. }
  set (tb := [hire_code true 0]).
  assert (∀ x, tok ≤ x < tok + lenZ tb → line_of x = line_of tok) as Htl.
  { intros x Hx. change (lenZ tb) with 1 in Hx. by replace x with tok by lia. }
  exists c. split; [done|]. split; [done|]. rewrite <-(app_assoc _ [Store (line_of tok) _]). split.
  - intros l Hl. eapply settled_trans; [by apply Hs1|].
    apply (steps_settled (λ x, tok ≤ x < tok + lenZ tb)); try done; try lia. by apply steps_store.
  - intros img Hc. apply (crashed_app c0 c) in Hc as [Hc|Hc]; [| |done].
    + left. rewrite <-Hfree. by apply (crashed_frame _ _ _ _ _ _ tok Hst2 Hc); lia.
    + apply crashed_one in Hc as [Hc|Hc]; [|by right|done|done]. left. by rewrite Hc.
Qed.
End record_lemmas.

(** ** Witnesses *)

#[export] Instance RefStoreOrder : StoreOrder := λ l, l.
#[export] Instance RefStoreOrderSpec : StoreOrderSpec.
Proof. intros l. reflexivity. Qed.

(** A record with a key of 8 bytes, a length of 4 and a value of 60. *)
Definition example_body : list Z := replicate 72 7.

Lemma overwrite_crash_safe_witness :
  wp (overwrite_record 96 24 5 false example_body) (λ _ s',
    record_written (λ _, 1) (cur s') 96 5 false example_body ∧
    ∀ img, crashed (λ _, 1) (evs s') img →
      (∀ x, img x = 1) ∨ (∀ x, img x = cur s' x) ∨ bytes_at img 96 8 = le64 kInValid)
    {| cur := λ _, 1; evs := [] |}.
Proof.
  eapply wp_mono.
  - apply (overwrite_crash_safe 96 24 5 false example_body (λ _, 1)); vm_compute; intuition congruence.
  - intros a s' (Hr & _ & Hc). split; [exact Hr|]. intros img Hi.
    destruct (Hc img Hi) as [?|[?|[? _]]]; [by left|by right; left|by right; right].
Defined.

Lemma publish_crash_safe_witness :
  wp (new_record 96 8 5 false example_body) (λ _ s',
    ∀ img, crashed (λ _, 0) (evs s') img → img 8 = kFreeCode ∨ (∀ x, img x = cur s' x))
    {| cur := λ _, 0; evs := [] |}.
Proof.
  eapply wp_mono.
  - apply (publish_crash_safe 96 8 5 false example_body (λ _, 0)); vm_compute; intuition congruence.
  - intros a s' (c & _ & _ & _ & Hc). exact Hc.
Defined.
