(* ===== verification/HashTable.v ===== *)
(** * The extendible hash table (store/hash-table.h)

    Buckets of 16, 32 or 48 slots, segments of buckets that share a local depth,
    and a directory of segments of size [2^depth].  A segment is named by its
    number in the list of the segments created so far, so two directory entries
    with the same number are two pointers to the same segment.  Operations run
    one at a time: the locks and the version checks that restart an operation
    have no effect then, and a compare-and-exchange succeeds at once; [ConcTable]
    has them under concurrency. *)

From S2P Require Export KvType Util.

(** ** Parameters *)

(** [DensePointer] of the util submodule: a pointer of 48 bits and 16 bits. *)
Class Dense := {
  dense : Type;
  dense_eq :: EqDecision dense;
  mk_dense : Z → Z → dense;
  dense_pointer : dense → Z;
  dense_remain : dense → Z;
  dense_null : dense;   (* DensePointer() *)
}.
Class DenseSpec `{Dense} : Prop := {
  dense_pointer_mk p t : 0 ≤ p < 2 ^ 48 → 0 ≤ t < 2 ^ 16 → dense_pointer (mk_dense p t) = p;
  dense_remain_mk p t : 0 ≤ p < 2 ^ 48 → 0 ≤ t < 2 ^ 16 → dense_remain (mk_dense p t) = t;
  dense_null_pointer : dense_pointer dense_null = nullptr;
}.
#[export] Instance RefDense : Dense := {|
  dense := Z; mk_dense p t := Z.lor p (Z.shiftl t 48);
  dense_pointer d := d mod 2 ^ 48; dense_remain d := d / 2 ^ 48; dense_null := 0 |}.

Lemma ref_dense_sum p t : 0 ≤ p < 2 ^ 48 → 0 ≤ t → Z.lor p (Z.shiftl t 48) = t * 2 ^ 48 + p.
Proof.
  intros Hp Ht. rewrite Z.shiftl_mul_pow2 by lia. rewrite Z.lor_comm.
  rewrite <-Z.lxor_lor, <-Z.add_nocarry_lxor; try done.
  all: apply Z.bits_inj_0; intros j; rewrite Z.land_spec.
  all: destruct (decide (j < 48)); [rewrite Z.mul_pow2_bits_low by lia; done|].
  all: rewrite (testbit_above p 48) by lia; apply andb_false_r.
Qed.
#[export] Instance RefDenseSpec : DenseSpec.
Proof.
  split; simpl; [intros p t Hp Ht; rewrite ref_dense_sum by lia..|done].
  - rewrite Z.add_comm, Z.mod_add by lia. by apply Z.mod_small.
  - rewrite Z.div_add_l by lia. rewrite Z.div_small by done. lia.
Qed.

(** [cmpeq_int8_simd128(p, c)]: bit [i] says whether byte [i] of 16 equals [c]. *)
Class Simd := cmpeq_int8_simd128 : list Z → Z → Z.
Class SimdSpec `{Simd} : Prop := cmpeq_spec l c :
  (16 ≤ length l)%nat →
  0 ≤ cmpeq_int8_simd128 l c < 2 ^ 16 ∧
  ∀ i, 0 ≤ i < 16 → Z.testbit (cmpeq_int8_simd128 l c) i = bool_decide (nthZ l i = Some c).
Fixpoint cmp_bytes (l : list Z) (c : Z) : Z :=
  match l with [] => 0 | x :: l => (if x =? c then 1 else 0) + 2 * cmp_bytes l c end.
#[export] Instance RefSimd : Simd := λ l c, cmp_bytes (take 16 l) c.

Lemma cmp_bytes_spec l c :
  0 ≤ cmp_bytes l c < 2 ^ lenZ l ∧
  ∀ i, 0 ≤ i < lenZ l → Z.testbit (cmp_bytes l c) i = bool_decide (nthZ l i = Some c).
Proof.
  induction l as [|x l [IHr IHb]]; [split; [done|unfold lenZ; simpl; lia]|]. simpl.
  assert (lenZ (x :: l) = lenZ l + 1) as -> by (unfold lenZ; simpl; lia).
  assert (0 ≤ lenZ l) by (unfold lenZ; lia). split.
  { rewrite Z.pow_add_r by lia. destruct (x =? c); lia. }
  intros i Hi. set (v := cmp_bytes l c) in *. destruct (decide (i = 0)) as [->|Hi0].
  - replace ((if x =? c then 1 else 0) + 2 * v) with (2 * v + Z.b2z (x =? c))
      by (destruct (x =? c); simpl; lia).
    rewrite Z.testbit_0_r. unfold nthZ. simpl.
    destruct (Z.eqb_spec x c); symmetry; [apply bool_decide_eq_true|apply bool_decide_eq_false]; congruence.
  - replace ((if x =? c then 1 else 0) + 2 * v) with (2 * v + Z.b2z (x =? c))
      by (destruct (x =? c); simpl; lia).
    replace i with (Z.succ (i - 1)) at 1 by lia. rewrite Z.testbit_succ_r by lia. rewrite IHb by lia.
    unfold nthZ. rewrite !(proj2 (Z.leb_le _ _)) by lia.
    by replace (Z.to_nat i) with (S (Z.to_nat (i - 1))) by lia.
Qed.

#[export] Instance RefSimdSpec : SimdSpec.
Proof.
  intros l c Hl. unfold cmpeq_int8_simd128, RefSimd.
  destruct (cmp_bytes_spec (take 16 l) c) as [Hr Hb].
  assert (lenZ (take 16 l) = 16) as Hlen by (unfold lenZ; rewrite length_take; lia).
  rewrite Hlen in *. split; [done|]. intros i Hi. rewrite Hb by done. unfold nthZ.
  rewrite !(proj2 (Z.leb_le _ _)) by lia. by rewrite lookup_take_lt by lia.
Qed.

(** The hash function, and the keys it is used on. *)
Class HashFn (K : Type) := hash_fn : K → Z.

Record HashConfig := {
  kOptUpdate : bool;
  kTimeStamp : bool;
  kNSlotInBucket : Z;
  kNBucketInSegment : Z;
  kInitDepth : Z;
}.
Definition DefaultHashConfig : HashConfig := {|
  kOptUpdate := false; kTimeStamp := false; kNSlotInBucket := 48; kNBucketInSegment := 64;
  kInitDepth := 4 |}.
(** The [static_assert]s of the configuration. *)
Definition wf_config (c : HashConfig) : Prop :=
  (kNSlotInBucket c = 16 ∨ kNSlotInBucket c = 32 ∨ kNSlotInBucket c = 48) ∧
  0 < kNBucketInSegment c ≤ 256.

(** ** Data *)

Definition kNotFound : Z := 0.
Definition kNoSpace : Z := 1.
Definition kExpired : Z := 2.

Record HashBucket `{Dense} := {
  bk_bitmap : Z;       (* 48 bits *)
  bk_depth : Z;
  bk_index : Z;
  bk_tags : list Z;
  bk_kvs : list dense;
}.
Definition HashSegment `{Dense} : Type := list HashBucket.

Record HashTable `{Dense} := {
  ht_dir : list Z;               (* dir_, by segment number *)
  ht_depth : Z;
  ht_segs : list HashSegment;    (* the segments created so far *)
}.

Section setters.
Context `{Dense}.
Definition eta_bk (b : HashBucket) := {|
  bk_bitmap := bk_bitmap b; bk_depth := bk_depth b; bk_index := bk_index b;
  bk_tags := bk_tags b; bk_kvs := bk_kvs b |}.
Definition set_bk_bitmap := ltac:(setter eta_bk (@bk_bitmap H)).
Definition set_bk_depth := ltac:(setter eta_bk (@bk_depth H)).
Definition set_bk_tags := ltac:(setter eta_bk (@bk_tags H)).
Definition set_bk_kvs := ltac:(setter eta_bk (@bk_kvs H)).
Definition eta_ht (t : HashTable) := {|
  ht_dir := ht_dir t; ht_depth := ht_depth t; ht_segs := ht_segs t |}.
Definition set_ht_dir := ltac:(setter eta_ht (@ht_dir H)).
Definition set_ht_depth := ltac:(setter eta_ht (@ht_depth H)).
Definition set_ht_segs := ltac:(setter eta_ht (@ht_segs H)).
End setters.

(** The fields of a hash code of 64 bits. *)
Definition bucket_index (code count : Z) : Z := Z.shiftr code 56 mod count.
Definition bucket_tag (code : Z) : Z := u8 (Z.land (Z.shiftr code 48) 0xFF).
Definition slot_tag (code : Z) : Z := u16 (Z.land (Z.shiftr code 32) 0xFFFF).
Definition segment_index (code depth : Z) : Z := Z.land code (bit depth - 1).

(** ** Operations *)

Section table.
Context `{Util} `{Dense} `{Simd} {K : Type} `{EqDecision K} `{HashFn K}.
Variable cfg : HashConfig.
(** The records that the pointers of the slots refer to. *)
Variable heap : gmap Z (KVPair K).

Definition hash_code (key : K) : Z := hash_fn key.

Definition HashBucket_new : HashBucket := {|
  bk_bitmap := 0; bk_depth := 0; bk_index := 0;
  bk_tags := replicate (Z.to_nat (kNSlotInBucket cfg)) 0;
  bk_kvs := replicate (Z.to_nat (kNSlotInBucket cfg)) dense_null |}.

(** The constructor from the content of a bucket. *)
Definition HashBucket_load (bitmap depth index : Z) (tags : list Z) (kvs : list dense) : HashBucket := {|
  bk_bitmap := wrap 48 bitmap; bk_depth := u8 depth; bk_index := u8 index;
  bk_tags := take (Z.to_nat (kNSlotInBucket cfg)) tags;
  bk_kvs := take (Z.to_nat (kNSlotInBucket cfg)) kvs |}.

Definition compare_equal (tags : list Z) (c : Z) : Z :=
  if kNSlotInBucket cfg =? 16 then cmpeq_int8_simd128 tags c
  else if kNSlotInBucket cfg =? 32 then
    Z.lor (Z.shiftl (cmpeq_int8_simd128 (drop 16 tags) c) 16) (cmpeq_int8_simd128 tags c)
  else
    Z.lor (Z.shiftl (cmpeq_int8_simd128 (drop 32 tags) c) 32)
      (Z.lor (Z.shiftl (cmpeq_int8_simd128 (drop 16 tags) c) 16) (cmpeq_int8_simd128 tags c)).

Definition bucket_mask (b : HashBucket) (code : Z) : Z :=
  Z.land (bk_bitmap b) (compare_equal (bk_tags b) (bucket_tag code)).

(** The loop over the candidate slots: the first slot whose tag and key match;
    [check]: also compare with [DensePointer()].  Fuel: a mask has 64 bits and
    every iteration clears one. *)
Fixpoint find_slot {S} (fuel : nat) (check : bool) (b : HashBucket) (key : K) (code mask : Z)
    : M S (option Z) :=
  match fuel with
  | O => merr EFuel
  | Datatypes.S fuel =>
      if mask =? 0 then mret None
      else
        let idx := index_least1 mask in
        old ← mderef (nthZ (bk_kvs b) idx);
        hit ← (if negb (check && bool_decide (old = dense_null)) && (dense_remain old =? slot_tag code)
               then r ← mderef (heap !! dense_pointer old); mret (bool_decide (kv_key r = key))
               else mret false);
        if (hit : bool) then mret (Some idx)
        else find_slot fuel check b key code (clear_bit mask idx)
  end.
Definition mask_fuel : nat := 65.

Definition put_kv (b : HashBucket) (idx : Z) (d : dense) : HashBucket :=
  set_bk_kvs (updZ (bk_kvs b) idx d) b.

(** Replacing the record of a slot: the new bucket and the old pointer, or
    [kExpired] when the slot has a version that is not older. *)
Definition replace_kv {S} (b : HashBucket) (idx kv code : Z) : M S (HashBucket * Z) :=
  old ← mderef (nthZ (bk_kvs b) idx);
  r ← mderef (heap !! kv);
  expired ← (if kOptUpdate cfg && kTimeStamp cfg then
               o ← mderef (heap !! dense_pointer old);
               mret (load_version r <=? load_version o)
             else mret false);
  if (expired : bool) then mret (b, kExpired)
  else mret (put_kv b idx (mk_dense kv (slot_tag code)), dense_pointer old).

(** [assert(kv != nullptr && hash_code(kv->key) == code)] and the bucket index;
    the record of [kv]. *)
Definition check_kv {S} (kv code : Z) : M S (KVPair K) :=
  massert (negb (kv =? nullptr)) ;;
  r ← mderef (heap !! kv);
  massert (hash_code (kv_key r) =? code) ;;
  mret r.

Definition HashBucket_upsert {S} (b : HashBucket) (kv code : Z) : M S (HashBucket * Z) :=
  r ← check_kv kv code;
  massert (bucket_index code (kNBucketInSegment cfg) =? bk_index b) ;;
  o ← find_slot mask_fuel false b (kv_key r) code (bucket_mask b code);
  match o with
  | Some idx => replace_kv b idx kv code
  | None =>
      let idx := index_least0 (bk_bitmap b) in
      if idx =? kNSlotInBucket cfg then mret (b, kNoSpace)
      else
        mret (set_bk_bitmap (wrap 48 (set_bit (bk_bitmap b) idx))
                (set_bk_tags (updZ (bk_tags b) idx (bucket_tag code))
                   (put_kv b idx (mk_dense kv (slot_tag code)))), kNotFound)
  end.

Definition HashBucket_update {S} (b : HashBucket) (kv code : Z) : M S (HashBucket * Z) :=
  r ← check_kv kv code;
  massert (bucket_index code (kNBucketInSegment cfg) =? bk_index b) ;;
  o ← find_slot mask_fuel true b (kv_key r) code (bucket_mask b code);
  match o with
  | Some idx => replace_kv b idx kv code
  | None => mret (b, kNotFound)
  end.

Definition HashBucket_lookup {S} (b : HashBucket) (key : K) (code : Z) : M S Z :=
  massert (hash_code key =? code) ;;
  massert (bucket_index code (kNBucketInSegment cfg) =? bk_index b) ;;
  o ← find_slot mask_fuel true b key code (bucket_mask b code);
  match o with
  | Some idx => old ← mderef (nthZ (bk_kvs b) idx); mret (dense_pointer old)
  | None => mret kNotFound
  end.

(** The loop of the split constructor: [right] has copies of the slots of
    [left] and gets the bits of the moved slots. *)
Fixpoint split_loop {S} (fuel : nat) (move_mask mask candidates : Z) (left : HashBucket)
    (right : list dense) : M S (Z * HashBucket * list dense) :=
  match fuel with
  | O => merr EFuel
  | Datatypes.S fuel =>
      if mask =? 0 then mret (candidates, left, right)
      else
        let idx := index_least1 mask in
        kv ← mderef (nthZ (bk_kvs left) idx);
        r ← mderef (heap !! dense_pointer kv);
        let moved := negb (Z.land (hash_code (kv_key r)) move_mask =? 0) in
        let candidates := if moved then set_bit candidates idx else candidates in
        let right := if moved && kOptUpdate cfg then updZ right idx kv else right in
        let left := if moved && kOptUpdate cfg then put_kv left idx dense_null else left in
        split_loop fuel move_mask (clear_bit mask idx) candidates left right
  end.

(** The results: the left bucket after the split, and the new bucket. *)
Definition HashBucket_split {S} (left : HashBucket) : M S (HashBucket * HashBucket) :=
  '(candidates, left', kvs) ←
    split_loop mask_fuel (bit (bk_depth left)) (bk_bitmap left) 0 left (bk_kvs left);
  mret (set_bk_bitmap (wrap 48 (Z.land (bk_bitmap left') (Z.lnot candidates)))
          (set_bk_depth (u8 (bk_depth left + 1)) left'),
        {| bk_bitmap := wrap 48 candidates; bk_depth := u8 (bk_depth left + 1);
           bk_index := bk_index left; bk_tags := bk_tags left; bk_kvs := kvs |}).

Definition HashBucket_size (b : HashBucket) : Z := popcount (bk_bitmap b).

(** The pointers that the destructor of a bucket frees (when [kInMemStore]). *)
Definition HashBucket_destroy (b : HashBucket) : list Z :=
  omap (λ idx, dense_pointer <$> nthZ (bk_kvs b) idx) (bits_of (bk_bitmap b)).

(** *** Segments *)

Definition HashSegment_new (depth : Z) : HashSegment :=
  (λ ind, {| bk_bitmap := 0; bk_depth := u8 depth; bk_index := u8 ind;
             bk_tags := bk_tags HashBucket_new; bk_kvs := bk_kvs HashBucket_new |})
    <$> seqZ 0 (kNBucketInSegment cfg).

Definition segment_bucket {S} (s : HashSegment) (ind : Z) : M S HashBucket :=
  massert (ind <? kNBucketInSegment cfg) ;; mderef (nthZ s ind).

Definition segment_depth {S} (s : HashSegment) : M S Z :=
  b ← mderef (nthZ s 0); mret (bk_depth b).

(** [HashSegment(HashSegment&& left)], bucket by bucket. *)
Fixpoint split_buckets {S} (left : list HashBucket) : M S (list HashBucket * list HashBucket) :=
  match left with
  | [] => mret ([], [])
  | b :: bs =>
      '(l, r) ← HashBucket_split b;
      '(ls, rs) ← split_buckets bs;
      mret (l :: ls, r :: rs)
  end.
Definition HashSegment_split {S} (left : HashSegment) : M S (HashSegment * HashSegment) :=
  '(l, r) ← split_buckets left;
  dl ← segment_depth l;
  dr ← segment_depth r;
  massert (dl =? dr) ;;
  mret (l, r).

Definition HashSegment_size (s : HashSegment) : Z := foldr (λ b n, HashBucket_size b + n) 0 s.

(** *** The table *)

Definition HashTable_new {S} (global local : Z) : M S HashTable :=
  massert ((local <=? global) && (global <=? 32)) ;;
  let entry_count := bit global in
  let segment_count := bit local in
  mret {| ht_dir := (λ ind, if ind <? segment_count then ind else ind mod segment_count)
                      <$> seqZ 0 entry_count;
          ht_depth := global;
          ht_segs := replicate (Z.to_nat segment_count) (HashSegment_new local) |}.

(** From a directory built by hand. *)
Definition HashTable_prebuilt {S} (global : Z) (dir : list Z) (segs : list HashSegment)
    : M S HashTable :=
  massert (global <=? 32) ;;
  mret {| ht_dir := take (Z.to_nat (bit global)) dir; ht_depth := global; ht_segs := segs |}.

(** The segment of a directory entry. *)
Definition dir_segment {S} (t : HashTable) (index : Z) : M S (Z * HashSegment) :=
  sid ← mderef (nthZ (ht_dir t) index);
  s ← mderef (nthZ (ht_segs t) sid);
  mret (sid, s).

Definition put_segment (sid : Z) (s : HashSegment) (t : HashTable) : HashTable :=
  set_ht_segs (updZ (ht_segs t) sid s) t.

(** [memcpy] of the directory into both halves of one of twice the size. *)
Definition double_directory (t : HashTable) : HashTable :=
  set_ht_dir (ht_dir t ++ ht_dir t) (set_ht_depth (ht_depth t + 1) t).

(** The loop that stores the right segment in the directory. *)
Definition install_right (dir : list Z) (part_size offset right : Z) (part_count : nat) : list Z :=
  foldl (λ dir pid, updZ dir (pid * part_size + offset) right) dir (seqZ 0 (Z.of_nat part_count)).

(** Splitting the segment of the directory entry [index], whose depth is [local]. *)
Definition split_segment (index code local : Z) : M HashTable unit :=
  t ← mget;
  '(sid, s) ← dir_segment t index;
  depth ← segment_depth s;
  massert (depth =? local) ;;
  '(l, r) ← HashSegment_split s;
  dr ← segment_depth r;
  massert (dr =? local + 1) ;;
  let right := lenZ (ht_segs t) in
  let t := set_ht_segs (updZ (ht_segs t) sid l ++ [r]) t in
  let t := if local =? ht_depth t then double_directory t else t in
  massert (local <? ht_depth t) ;;
  let part_size := bit (local + 1) in
  let part_count := bit (ht_depth t) / part_size in
  let offset := segment_index code local + bit local in
  mmodify (λ _, set_ht_dir (install_right (ht_dir t) part_size offset right (Z.to_nat part_count)) t).

(** The loop of [upsert]: an iteration stores the record or splits the segment
    of the code, whose local depth grows. *)
Fixpoint upsert_loop (fuel : nat) (kv code : Z) : M HashTable Z :=
  match fuel with
  | O => merr EFuel
  | S fuel =>
      t ← mget;
      let bid := bucket_index code (kNBucketInSegment cfg) in
      let index := segment_index code (ht_depth t) in
      '(sid, s) ← dir_segment t index;
      b ← segment_bucket s bid;
      '(b', res) ← HashBucket_upsert b kv code;
      if negb (res =? kNoSpace) then
        mmodify (put_segment sid (updZ s bid b')) ;; mret res
      else
        let local := bk_depth b in
        massert (local <=? ht_depth t) ;;
        split_segment index code local ;;
        upsert_loop fuel kv code
  end.
(** Fuel: [upsert_terminates] shows that 34 iterations suffice when fewer keys
    than a bucket has slots share a bucket and the low 32 bits of the code. *)
Definition upsert_fuel : nat := 34.
Definition HashTable_upsert (kv code : Z) : M HashTable Z :=
  check_kv kv code ;; upsert_loop upsert_fuel kv code.

(** [dir[index]->bucket(bid)] for a code. *)
Definition locate_bucket {S} (t : HashTable) (code : Z) : M S (Z * HashSegment * HashBucket) :=
  '(sid, s) ← dir_segment t (segment_index code (ht_depth t));
  b ← segment_bucket s (bucket_index code (kNBucketInSegment cfg));
  mret (sid, s, b).

Definition HashTable_update (kv code : Z) : M HashTable Z :=
  check_kv kv code ;;
  t ← mget;
  '(sid, s, b) ← locate_bucket t code;
  '(b', old) ← HashBucket_update b kv code;
  mmodify (put_segment sid (updZ s (bucket_index code (kNBucketInSegment cfg)) b')) ;;
  mret old.

Definition HashTable_lookup (key : K) (code : Z) : M HashTable Z :=
  massert (code =? hash_code key) ;;
  t ← mget;
  '(_, _, b) ← locate_bucket t code;
  HashBucket_lookup b key code.

Definition directory_size (t : HashTable) : Z := bit (ht_depth t).

(** The set of the segments of the directory. *)
Definition live_segments (t : HashTable) : gset Z := list_to_set (ht_dir t).
Definition segment_count (t : HashTable) : Z := Z.of_nat (size (live_segments t)).
Definition bucket_count (t : HashTable) : Z := segment_count t * kNBucketInSegment cfg.
Definition ht_capacity (t : HashTable) : Z := bucket_count t * kNSlotInBucket cfg.
Definition HashTable_size (t : HashTable) : Z :=
  set_fold (λ sid n, n + default 0 (HashSegment_size <$> nthZ (ht_segs t) sid)) 0 (live_segments t).

(** The destructor of the table: the segments it deletes, in order.  [dir] has
    [None] where the code has stored a null pointer. *)
Fixpoint destroy_loop {S} (n : nat) (idx count : Z) (dir : list (option Z)) (segs : list HashSegment)
    : M S (list Z) :=
  match n with
  | O => mret []
  | Datatypes.S n =>
      e ← mderef (nthZ dir idx);
      match e with
      | None => destroy_loop n (idx + 1) count dir segs
      | Some sid =>
          s ← mderef (nthZ segs sid);
          local ← segment_depth s;
          let npart := Z.shiftr count local in
          let dir := foldl (λ d pid, updZ d (Z.shiftl pid local + idx) None) dir
                       (seqZ 1 (npart - 1)) in
          deleted ← destroy_loop n (idx + 1) count dir segs;
          mret (sid :: deleted)
      end
  end.
Definition HashTable_destroy {S} (t : HashTable) : M S (list Z) :=
  let count := directory_size t in
  destroy_loop (Z.to_nat count) 0 count (Some <$> ht_dir t) (ht_segs t).
End table.
