(* ===== verification/Buckets.v ===== *)
(** * Buckets of the hash table

    The slots of a bucket as a relation between keys and records, and the effect
    of [lookup], [upsert], [update] and of a split on it. *)

From S2P Require Export HashTable.

(** ** Definitions *)

Class HashFnSpec (K : Type) `{HashFn K} : Prop := hash_fn_range (k : K) : 0 ≤ hash_fn k < 2 ^ 64.

Section buckets.
Context `{Util} `{Dense} `{Simd} {K : Type} `{EqDecision K} `{HashFn K}.
Variable cfg : HashConfig.
Variable heap : gmap Z (KVPair K).
Implicit Types (b : HashBucket) (k key : K) (p q : Z) (r : KVPair K).

(** The slot [i] of [b] is in use and holds the record [r] at address [p]; an
    address is neither null nor one of the status codes. *)
Definition slot_of b (i p : Z) r : Prop :=
  Z.testbit (bk_bitmap b) i = true ∧
  nthZ (bk_kvs b) i = Some (mk_dense p (slot_tag (hash_fn (kv_key r)))) ∧
  nthZ (bk_tags b) i = Some (bucket_tag (hash_fn (kv_key r))) ∧
  heap !! p = Some r ∧ 2 < p < 2 ^ 48.

Record wf_bucket b : Prop := {
  wb_bitmap : 0 ≤ bk_bitmap b < 2 ^ kNSlotInBucket cfg;
  wb_tags : lenZ (bk_tags b) = kNSlotInBucket cfg;
  wb_kvs : lenZ (bk_kvs b) = kNSlotInBucket cfg;
  wb_slot i : Z.testbit (bk_bitmap b) i = true → ∃ p r, slot_of b i p r;
  wb_inj i j p q r r' :
    slot_of b i p r → slot_of b j q r' → kv_key r = kv_key r' → i = j;
}.

(** [b] maps the key [k] to the record at [p]. *)
Definition in_bucket b k p : Prop := ∃ i r, slot_of b i p r ∧ kv_key r = k.

(** The slot [i] is not older than the record [r] (with timestamps). *)
Definition not_older (p q : Z) : Prop :=
  kOptUpdate cfg = true ∧ kTimeStamp cfg = true ∧
  ∃ r o, heap !! p = Some r ∧ heap !! q = Some o ∧ load_version r ≤ load_version o.

(** The slot is moved by a split at depth [d]. *)
Definition moves (d : Z) (kv : option dense) : bool :=
  match kv with
  | Some kv => match heap !! dense_pointer kv with
               | Some r => Z.testbit (hash_fn (kv_key r)) d
               | None => false end
  | None => false
  end.
End buckets.

(** ** Lemmas *)

Lemma nthZ_drop {A} (l : list A) n i : 0 ≤ i → nthZ (drop n l) i = nthZ l (Z.of_nat n + i).
Proof.
  intros Hi. unfold nthZ. rewrite !(proj2 (Z.leb_le _ _)) by lia. rewrite lookup_drop.
  f_equal. lia.
Qed.

Lemma lor_shift_testbit a b n i :
  0 ≤ n → 0 ≤ a < 2 ^ n → 0 ≤ i →
  Z.testbit (Z.lor (Z.shiftl b n) a) i = if decide (i < n) then Z.testbit a i else Z.testbit b (i - n).
Proof.
  intros Hn Ha Hi. rewrite Z.lor_spec, Z.shiftl_spec by lia. case_decide as Hlt.
  - by rewrite (Z.testbit_neg_r b) by lia.
  - rewrite (testbit_above a n) by lia. by rewrite orb_false_r.
Qed.

Lemma lor_shift_range a b n m :
  0 ≤ n → 0 ≤ m → 0 ≤ a < 2 ^ n → 0 ≤ b < 2 ^ m → 0 ≤ Z.lor (Z.shiftl b n) a < 2 ^ (n + m).
Proof.
  intros Hn Hm Ha Hb.
  assert (0 ≤ Z.lor (Z.shiftl b n) a) by (apply Z.lor_nonneg; split; [apply Z.shiftl_nonneg|]; lia).
  split; [done|]. apply word_bound; [lia|done|]. intros j Hj.
  rewrite lor_shift_testbit by lia. rewrite decide_False by lia. apply (testbit_above b m); lia.
Qed.

Lemma clear_bit_bound w i n :
  0 ≤ n ≤ 64 → 0 ≤ w < 2 ^ n → 0 ≤ i < 64 → 0 ≤ clear_bit w i < 2 ^ n.
Proof.
  intros Hn Hw Hi. assert (w < 2 ^ 64) by (assert (2 ^ n ≤ 2 ^ 64) by (apply Z.pow_le_mono_r; lia); lia).
  pose proof (clear_bit_range w i ltac:(lia) Hi). split; [lia|].
  apply word_bound; [lia..|]. intros j Hj. rewrite clear_bit_testbit by lia.
  by rewrite (testbit_above w n) by lia.
Qed.

Section lemmas.
Context `{UtilSpec} `{DenseSpec} `{SimdSpec} {K : Type} `{EqDecision K} `{HashFnSpec K}.
Variable cfg : HashConfig.
Hypothesis Hcfg : wf_config cfg.
Variable heap : gmap Z (KVPair K).
Implicit Types (b : HashBucket) (k key : K) (p q : Z) (r : KVPair K).

Abbreviation slot_of := (slot_of heap).
Abbreviation wf_bucket := (wf_bucket cfg heap).
Abbreviation in_bucket := (in_bucket heap).

Lemma cfg_slots : 16 ≤ kNSlotInBucket cfg ≤ 48.
Proof. unfold wf_config in Hcfg. lia. Qed.

Lemma slot_tag_range c : 0 ≤ slot_tag c < 2 ^ 16.
Proof. unfold slot_tag, u16, wrap. apply Z.mod_pos_bound. lia. Qed.

Lemma compare_equal_spec tags c :
  lenZ tags = kNSlotInBucket cfg →
  0 ≤ compare_equal cfg tags c < 2 ^ kNSlotInBucket cfg ∧
  ∀ i, 0 ≤ i < kNSlotInBucket cfg →
    Z.testbit (compare_equal cfg tags c) i = bool_decide (nthZ tags i = Some c).
Proof.
  intros Hl. unfold compare_equal. destruct Hcfg as [Hn _].
  assert (∀ n, (n + 16 ≤ length tags)%nat →
    0 ≤ cmpeq_int8_simd128 (drop n tags) c < 2 ^ 16 ∧
    ∀ i, 0 ≤ i < 16 → Z.testbit (cmpeq_int8_simd128 (drop n tags) c) i =
                      bool_decide (nthZ tags (Z.of_nat n + i) = Some c)) as Hd.
  { intros n Hn'. destruct (cmpeq_spec (drop n tags) c) as [Hr Hb]; [rewrite length_drop; lia|].
    split; [done|]. intros i Hi. rewrite Hb by done. by rewrite nthZ_drop by lia. }
  unfold lenZ in Hl. destruct Hn as [Hn|[Hn|Hn]]; rewrite Hn in *; simpl.
  - apply (Hd 0%nat). lia.
  - destruct (Hd 0%nat) as [R0 B0]; [lia|]. destruct (Hd 16%nat) as [R1 B1]; [lia|].
    change (drop 0 tags) with tags in *.
    split; [apply (lor_shift_range _ _ 16 16); lia|]. intros i Hi.
    rewrite lor_shift_testbit by lia. case_decide; [apply B0; lia|].
    rewrite B1 by lia. by replace (Z.of_nat 16 + (i - 16)) with i by lia.
  - destruct (Hd 0%nat) as [R0 B0]; [lia|]. destruct (Hd 16%nat) as [R1 B1]; [lia|].
    destruct (Hd 32%nat) as [R2 B2]; [lia|]. change (drop 0 tags) with tags in *.
    pose proof (lor_shift_range _ _ 16 16 ltac:(lia) ltac:(lia) R0 R1) as R01.
    split; [apply (lor_shift_range _ _ 32 16); lia|]. intros i Hi.
    rewrite lor_shift_testbit by lia. case_decide.
    + rewrite lor_shift_testbit by lia. case_decide; [apply B0; lia|].
      rewrite B1 by lia. by replace (Z.of_nat 16 + (i - 16)) with i by lia.
    + rewrite B2 by lia. by replace (Z.of_nat 32 + (i - 32)) with i by lia.
Qed.

Lemma bitmap_bits b i : wf_bucket b → Z.testbit (bk_bitmap b) i = true → 0 ≤ i < kNSlotInBucket cfg.
Proof.
  intros Hb Hi. pose proof cfg_slots. destruct (decide (0 ≤ i)); [|by rewrite Z.testbit_neg_r in Hi by lia].
  split; [done|]. destruct (decide (i < kNSlotInBucket cfg)); [done|].
  rewrite (testbit_above _ (kNSlotInBucket cfg)) in Hi; [done| |lia]. apply (wb_bitmap _ _ _ Hb).
Qed.

(** The candidates of a code: the slots in use whose tag is that of the code. *)
Lemma bucket_mask_spec b code :
  wf_bucket b →
  0 ≤ bucket_mask cfg b code < 2 ^ 48 ∧
  ∀ i, Z.testbit (bucket_mask cfg b code) i = true ↔
    Z.testbit (bk_bitmap b) i = true ∧ nthZ (bk_tags b) i = Some (bucket_tag code).
Proof.
  intros Hb. destruct (compare_equal_spec (bk_tags b) (bucket_tag code)) as [Hr Hc];
    [apply (wb_tags _ _ _ Hb)|].
  pose proof (wb_bitmap _ _ _ Hb). pose proof cfg_slots.
  assert (2 ^ kNSlotInBucket cfg ≤ 2 ^ 48) by (apply Z.pow_le_mono_r; lia).
  unfold bucket_mask.
  assert (0 ≤ Z.land (bk_bitmap b) (compare_equal cfg (bk_tags b) (bucket_tag code)))
    by (apply Z.land_nonneg; lia).
  split.
  - split; [done|]. apply word_bound; [lia|done|]. intros j Hj. rewrite Z.land_spec.
    by rewrite (testbit_above (bk_bitmap b) 48) by lia.
  - intros i. rewrite Z.land_spec, andb_true_iff. split; intros [Hi Ht]; (split; [done|]);
      pose proof (bitmap_bits b i Hb Hi).
    + rewrite Hc in Ht by done. by apply bool_decide_eq_true in Ht.
    + rewrite Hc by done. by apply bool_decide_eq_true.
Qed.

Lemma slot_unique b i p q r r' : slot_of b i p r → slot_of b i q r' → p = q ∧ r = r'.
Proof.
  intros (_ & Hk & _ & Hh & Hp) (_ & Hk' & _ & Hh' & Hp'). rewrite Hk in Hk'. injection Hk' as He.
  assert (p = q) as <-.
  { apply (f_equal dense_pointer) in He.
    by rewrite !dense_pointer_mk in He by (lia || apply slot_tag_range). }
  split; [done|]. congruence.
Qed.

Lemma in_bucket_unique b k p q : wf_bucket b → in_bucket b k p → in_bucket b k q → p = q.
Proof.
  intros Hb (i & r & Hs & Hk) (j & r' & Hs' & Hk').
  assert (i = j) as <- by (eapply (wb_inj _ _ _ Hb); [done..|congruence]).
  by destruct (slot_unique b i p q r r').
Qed.

(** One iteration of the scan, at the slot [i] that holds [r]. *)
Lemma find_slot_step {S} fuel check b key mask i p r (s : S) :
  mask ≠ 0 → index_least1 mask = i → slot_of b i p r →
  ∃ hit : bool, find_slot heap (Datatypes.S fuel) check b key (hash_fn key) mask s =
    (if hit then mret (M := M S) (Some i)
     else find_slot heap fuel check b key (hash_fn key) (clear_bit mask i)) s ∧
    (hit = true ↔ kv_key r = key).
Proof.
  intros Hnz Hi (_ & Hkv & _ & Hh & Hp). pose proof (slot_tag_range (hash_fn (kv_key r))).
  simpl. rewrite (proj2 (Z.eqb_neq mask 0)) by done. rewrite Hi, Hkv.
  set (d := mk_dense p (slot_tag (hash_fn (kv_key r)))) in *.
  assert (dense_pointer d = p) as Hdp by (apply dense_pointer_mk; lia).
  assert (dense_remain d = slot_tag (hash_fn (kv_key r))) as Hdr by (apply dense_remain_mk; lia).
  assert (d ≠ dense_null) as Hnn.
  { intros He. rewrite He, dense_null_pointer in Hdp. unfold nullptr in Hdp. lia. }
  unfold mbind, M_bind, mderef, mret, M_ret. rewrite Hdr.
  assert (bool_decide (d = dense_null) = false) as -> by (by apply bool_decide_eq_false).
  rewrite andb_false_r. cbn [negb andb].
  destruct (Z.eqb_spec (slot_tag (hash_fn (kv_key r))) (slot_tag (hash_fn key))) as [Ht|Ht].
  - rewrite Hdp, Hh. eexists. split; [reflexivity|]. apply bool_decide_eq_true.
  - exists false. split; [done|]. split; [done|]. intros He. by rewrite He in Ht.
Qed.

(** The scan of the candidates finds the slot of the key. *)
Lemma find_slot_ok {S} fuel check b key mask (s : S) :
  wf_bucket b → 0 ≤ mask < 2 ^ 48 → (0 < fuel)%nat →
  (∀ i, Z.testbit mask i = true → Z.testbit (bk_bitmap b) i = true ∧ 65 - Z.of_nat fuel ≤ i) →
  (∃ i p r, find_slot heap fuel check b key (hash_fn key) mask s = Ok (Some i) s ∧
     slot_of b i p r ∧ kv_key r = key) ∨
  (find_slot heap fuel check b key (hash_fn key) mask s = Ok None s ∧
     ∀ i p r, Z.testbit mask i = true → slot_of b i p r → kv_key r ≠ key).
Proof.
  intros Hb. revert mask. induction fuel as [|fuel IH]; intros mask Hm Hf Hbits; [lia|].
  destruct (decide (mask = 0)) as [->|Hnz].
  { right. split; [done|]. intros i p r Hi. by rewrite Z.bits_0 in Hi. }
  destruct (index_least1_spec mask) as (Hi & Hit & Hlow); [lia|].
  set (i := index_least1 mask) in *. destruct (Hbits i Hit) as [Hbi Hfi].
  destruct (wb_slot _ _ _ Hb i Hbi) as (p & r & Hs).
  assert (∃ hit : bool, find_slot heap (Datatypes.S fuel) check b key (hash_fn key) mask s =
    (if hit then mret (M := M S) (Some i)
     else find_slot heap fuel check b key (hash_fn key) (clear_bit mask i)) s ∧
    (hit = true ↔ kv_key r = key)) as (hit & -> & Hhit) by (by apply (find_slot_step fuel check b key mask i p r)).
  destruct hit.
  { left. exists i, p, r. split_and!; [done|done|by apply Hhit]. }
  assert (i < 48).
  { destruct (decide (i < 48)); [done|]. by rewrite (testbit_above mask 48) in Hit by lia. }
  assert (kv_key r ≠ key) as Hne by (intros He; by apply Hhit in He).
  destruct (IH (clear_bit mask i)) as [(j & p' & r' & Hfs & Hs' & Hk')|[Hfs Hn]].
  - apply (clear_bit_bound _ _ 48); lia.
  - lia.
  - intros j. rewrite clear_bit_testbit by lia. intros [Hj Hij]%andb_true_iff.
    apply negb_true_iff, bool_decide_eq_false in Hij. destruct (Hbits j Hj). split; [done|].
    assert (i ≤ j); [|lia].
    destruct (decide (0 ≤ j)); [|by rewrite Z.testbit_neg_r in Hj by lia].
    destruct (decide (i ≤ j)); [done|]. rewrite Hlow in Hj; [done|lia].
  - left. exists j, p', r'. split_and!; done.
  - right. split; [done|]. intros j p' r' Hj Hs'. destruct (decide (j = i)) as [->|Hji].
    + by destruct (slot_unique b i p p' r r' Hs Hs') as [_ <-].
    + apply (Hn j p'); [|done]. rewrite clear_bit_testbit by lia. rewrite Hj.
      by rewrite bool_decide_eq_false_2 by congruence.
Qed.

Lemma find_slot_bucket {S} check b key (s : S) :
  wf_bucket b →
  (∃ i p r, find_slot heap mask_fuel check b key (hash_fn key) (bucket_mask cfg b (hash_fn key)) s
              = Ok (Some i) s ∧ slot_of b i p r ∧ kv_key r = key) ∨
  (find_slot heap mask_fuel check b key (hash_fn key) (bucket_mask cfg b (hash_fn key)) s = Ok None s ∧
     ∀ p, ¬ in_bucket b key p).
Proof.
  intros Hb. destruct (bucket_mask_spec b (hash_fn key) Hb) as [Hm Hbits].
  destruct (find_slot_ok mask_fuel check b key (bucket_mask cfg b (hash_fn key)) s) as [?|[? Hn]];
    [done|done|unfold mask_fuel; lia| |by left|].
  - intros i [Hi _]%Hbits. split; [done|]. apply bitmap_bits in Hi; [|done]. unfold mask_fuel. lia.
  - right. split; [done|]. intros p (i & r & Hs & Hk). apply (Hn i p r); [|done..].
    apply Hbits. destruct Hs as (Hi & _ & Ht & _). by rewrite <-Hk.
Qed.

(** *** Lookup *)

Lemma bucket_lookup_ok {S} b key (s : S) :
  wf_bucket b → bucket_index (hash_fn key) (kNBucketInSegment cfg) = bk_index b →
  ∃ q, HashBucket_lookup cfg heap b key (hash_fn key) s = Ok q s ∧
    (q = kNotFound ∧ (∀ p, ¬ in_bucket b key p) ∨ in_bucket b key q).
Proof.
  intros Hb Hbi. unfold HashBucket_lookup, massert, hash_code.
  unfold mbind, M_bind. rewrite Z.eqb_refl, Hbi, Z.eqb_refl.
  destruct (find_slot_bucket true b key s Hb) as [(i & p & r & -> & Hs & Hk)|[-> Hn]].
  - pose proof Hs as (_ & Hkv & _ & _ & Hp). unfold mderef. rewrite Hkv.
    exists p. unfold mret, M_ret.
    rewrite dense_pointer_mk by (lia || apply slot_tag_range). split; [done|]. right. by exists i, r.
  - exists kNotFound. split; [done|]. by left.
Qed.

(** *** Storing a record *)

(** [b'] is [b] with the key of the record [r] mapped to [kv]. *)
Definition bucket_put b b' kv r : Prop :=
  wf_bucket b' ∧ bk_depth b' = bk_depth b ∧ bk_index b' = bk_index b ∧
  ∀ k p, in_bucket b' k p ↔ if decide (k = kv_key r) then p = kv else in_bucket b k p.

Lemma bucket_put_intro b b' i kv r :
  wf_bucket b → 0 ≤ i < kNSlotInBucket cfg → 0 ≤ bk_bitmap b' < 2 ^ kNSlotInBucket cfg →
  lenZ (bk_tags b') = lenZ (bk_tags b) → lenZ (bk_kvs b') = lenZ (bk_kvs b) →
  bk_depth b' = bk_depth b → bk_index b' = bk_index b →
  (∀ j, Z.testbit (bk_bitmap b') j = Z.testbit (bk_bitmap b) j || bool_decide (i = j)) →
  (∀ j q r', slot_of b' j q r' ↔ if decide (j = i) then q = kv ∧ r' = r else slot_of b j q r') →
  (∀ q r', slot_of b i q r' → kv_key r' = kv_key r) →
  (∀ j q r', slot_of b j q r' → kv_key r' = kv_key r → j = i) →
  bucket_put b b' kv r.
Proof.
  intros Hb Hi Hbm Ht Hk Hd Hx Hbit Hslot Hold Hother. split_and!; [|done|done|].
  - constructor; [done|by rewrite Ht; apply (wb_tags _ _ _ Hb)|by rewrite Hk; apply (wb_kvs _ _ _ Hb)|..].
    + intros j. rewrite Hbit. intros Hj. destruct (decide (j = i)) as [->|Hji].
      * exists kv, r. apply Hslot. by rewrite decide_True.
      * rewrite bool_decide_eq_false_2, orb_false_r in Hj by congruence.
        destruct (wb_slot _ _ _ Hb j Hj) as (q & r' & Hs). exists q, r'. apply Hslot.
        by rewrite decide_False.
    + intros j1 j2 q1 q2 r1 r2 Hs1 Hs2 He. apply Hslot in Hs1. apply Hslot in Hs2.
      destruct (decide (j1 = i)) as [->|H1i], (decide (j2 = i)) as [->|H2i].
      * done.
      * destruct Hs1 as [_ ->]. symmetry. by apply (Hother j2 q2 r2).
      * destruct Hs2 as [_ ->]. by apply (Hother j1 q1 r1).
      * by apply (wb_inj _ _ _ Hb j1 j2 q1 q2 r1 r2).
  - intros k p. split.
    + intros (j & r' & Hs & <-). apply Hslot in Hs. destruct (decide (j = i)) as [->|Hji].
      * destruct Hs as [-> ->]. by rewrite decide_True.
      * rewrite decide_False; [by exists j, r'|]. intros He. apply Hji. by apply (Hother j p r').
    + case_decide as Hkk.
      * intros ->. exists i, r. split; [|done]. apply Hslot. by rewrite decide_True.
      * intros (j & r' & Hs & Hk'). exists j, r'. split; [|done]. apply Hslot.
        rewrite decide_False; [done|]. intros ->. apply Hkk. rewrite <-Hk'. by apply (Hold p).
Qed.

(** Replacing the record of the slot [i]. *)
Lemma replace_slot b i p o kv r :
  wf_bucket b → slot_of b i p o → kv_key o = kv_key r → heap !! kv = Some r → 2 < kv < 2 ^ 48 →
  bucket_put b (put_kv b i (mk_dense kv (slot_tag (hash_fn (kv_key r))))) kv r.
Proof.
  intros Hb Hs Hk Hh Hkv. pose proof Hs as (Hbit & Hd & Ht & _).
  pose proof (bitmap_bits b i Hb Hbit) as Hi. pose proof (wb_kvs _ _ _ Hb) as Hl.
  apply (bucket_put_intro b _ i); try done.
  - apply (wb_bitmap _ _ _ Hb).
  - simpl. by rewrite lenZ_updZ.
  - intros j. simpl. case_bool_decide; [subst; by rewrite Hbit|by rewrite orb_false_r].
  - intros j q r'. unfold Buckets.slot_of. simpl. destruct (decide (j = i)) as [->|Hji].
    + rewrite nthZ_updZ_eq by lia. split.
      * intros (_ & He & _ & Hh' & Hq). injection He as He.
        assert (kv = q) as <-.
        { apply (f_equal dense_pointer) in He.
          by rewrite !dense_pointer_mk in He by (lia || apply slot_tag_range). }
        split; [done|congruence].
      * intros [-> ->]. split_and!; (done || lia || by rewrite <-Hk).
    + by rewrite nthZ_updZ_ne by congruence.
  - intros q r' Hs'. by destruct (slot_unique b i p q o r' Hs Hs') as [_ <-].
  - intros j q r' Hs' He. apply (wb_inj _ _ _ Hb j i q p r' o); [done|done|congruence].
Qed.

(** Filling the free slot [i]. *)
Lemma insert_slot b i kv r :
  wf_bucket b → 0 ≤ i < kNSlotInBucket cfg → Z.testbit (bk_bitmap b) i = false →
  (∀ p, ¬ in_bucket b (kv_key r) p) → heap !! kv = Some r → 2 < kv < 2 ^ 48 →
  bucket_put b
    (set_bk_bitmap (wrap 48 (set_bit (bk_bitmap b) i))
       (set_bk_tags (updZ (bk_tags b) i (bucket_tag (hash_fn (kv_key r))))
          (put_kv b i (mk_dense kv (slot_tag (hash_fn (kv_key r))))))) kv r.
Proof.
  intros Hb Hi Hbit Hn Hh Hkv. pose proof (wb_bitmap _ _ _ Hb) as Hbm. pose proof cfg_slots as Hcs.
  pose proof (wb_kvs _ _ _ Hb) as Hlk. pose proof (wb_tags _ _ _ Hb) as Hlt.
  assert (2 ^ kNSlotInBucket cfg ≤ 2 ^ 48) by (apply Z.pow_le_mono_r; lia).
  assert (0 ≤ set_bit (bk_bitmap b) i < 2 ^ kNSlotInBucket cfg) as Hset.
  { pose proof (set_bit_range (bk_bitmap b) i ltac:(lia) ltac:(lia)). split; [lia|].
    apply word_bound; [lia..|]. intros j Hj. rewrite set_bit_testbit by lia.
    rewrite (testbit_above _ (kNSlotInBucket cfg)) by lia. apply bool_decide_eq_false. lia. }
  assert (wrap 48 (set_bit (bk_bitmap b) i) = set_bit (bk_bitmap b) i) as Hw
    by (apply Z.mod_small; lia).
  apply (bucket_put_intro b _ i); try done.
  - simpl. by rewrite Hw.
  - simpl. by rewrite lenZ_updZ.
  - simpl. by rewrite lenZ_updZ.
  - intros j. simpl. rewrite Hw. apply set_bit_testbit. lia.
  - intros j q r'. unfold Buckets.slot_of. simpl. rewrite Hw, set_bit_testbit by lia.
    destruct (decide (j = i)) as [->|Hji].
    + rewrite !nthZ_updZ_eq by lia. rewrite (bool_decide_eq_true_2 (i = i)) by done. rewrite orb_true_r. split.
      * intros (_ & He & _ & Hh' & Hq). injection He as He.
        assert (kv = q) as <-.
        { apply (f_equal dense_pointer) in He.
          by rewrite !dense_pointer_mk in He by (lia || apply slot_tag_range). }
        split; [done|congruence].
      * by intros [-> ->].
    + rewrite !nthZ_updZ_ne by congruence.
      by rewrite (bool_decide_eq_false_2 (i = j)), orb_false_r by congruence.
  - intros q r' (Hbit' & _). congruence.
  - intros j q r' Hs' He. exfalso. apply (Hn q). exists j, r'. done.
Qed.

(** The cases of [replace_kv]. *)
Lemma replace_kv_ok {S} b i p o kv r (s : S) :
  wf_bucket b → slot_of b i p o → kv_key o = kv_key r → heap !! kv = Some r → 2 < kv < 2 ^ 48 →
  (not_older cfg heap kv p ∧
     replace_kv cfg heap b i kv (hash_fn (kv_key r)) s = Ok (b, kExpired) s) ∨
  (¬ not_older cfg heap kv p ∧ ∃ b', bucket_put b b' kv r ∧
     replace_kv cfg heap b i kv (hash_fn (kv_key r)) s = Ok (b', p) s).
Proof.
  intros Hb Hs Hk Hh Hkv. pose proof Hs as (_ & Hd & _ & Hp & Hpr).
  unfold replace_kv, mbind, M_bind, mderef. rewrite Hd, Hh. unfold mret, M_ret.
  rewrite dense_pointer_mk by (lia || apply slot_tag_range). rewrite Hp.
  assert (not_older cfg heap kv p ↔
    kOptUpdate cfg && kTimeStamp cfg = true ∧ load_version r ≤ load_version o) as Hno.
  { unfold not_older. rewrite andb_true_iff. split; [|naive_solver].
    intros (? & ? & r1 & o1 & ? & ? & ?). simplify_eq. done. }
  rewrite Hno. destruct (kOptUpdate cfg && kTimeStamp cfg).
  - destruct (Z.leb_spec (load_version r) (load_version o)).
    + by left.
    + right. split; [lia|]. eexists. split; [by eapply replace_slot|done].
  - right. split; [naive_solver|]. eexists. split; [by eapply replace_slot|done].
Qed.

Lemma check_kv_ok {S} kv r (s : S) :
  heap !! kv = Some r → 2 < kv → check_kv heap kv (hash_fn (kv_key r)) s = Ok r s.
Proof.
  intros Hh Hkv. unfold check_kv, mbind, M_bind, massert, mderef, hash_code.
  rewrite (proj2 (Z.eqb_neq kv nullptr)) by (unfold nullptr; lia). simpl. rewrite Hh. simpl.
  by rewrite Z.eqb_refl.
Qed.

(** What storing [kv] in a bucket does: nothing when the bucket has a version
    that is not older; otherwise the key is mapped to [kv]. *)
Definition stored b b' kv r q : Prop :=
  (q = kExpired ∧ b' = b ∧ ∃ p, in_bucket b (kv_key r) p ∧ not_older cfg heap kv p) ∨
  (bucket_put b b' kv r ∧ in_bucket b (kv_key r) q ∧ ¬ not_older cfg heap kv q).

Lemma bucket_update_ok {S} b kv r (s : S) :
  wf_bucket b → heap !! kv = Some r → 2 < kv < 2 ^ 48 →
  bucket_index (hash_fn (kv_key r)) (kNBucketInSegment cfg) = bk_index b →
  ∃ b' q, HashBucket_update cfg heap b kv (hash_fn (kv_key r)) s = Ok (b', q) s ∧
    (q = kNotFound ∧ b' = b ∧ (∀ p, ¬ in_bucket b (kv_key r) p) ∨ stored b b' kv r q).
Proof.
  intros Hb Hh Hkv Hbi. unfold HashBucket_update. unfold mbind, M_bind.
  rewrite (check_kv_ok kv r) by (done || lia). unfold massert. rewrite Hbi, Z.eqb_refl.
  destruct (find_slot_bucket true b (kv_key r) s Hb) as [(i & p & o & -> & Hs & Hk)|[-> Hn]].
  - destruct (replace_kv_ok b i p o kv r s) as [[Hno ->]|(Hno & b' & Hput & ->)]; try done.
    + exists b, kExpired. split; [done|]. right. left. split_and!; [done..|]. exists p. split; [|done].
      by exists i, o.
    + exists b', p. split; [done|]. right. right. split_and!; [done| |done]. by exists i, o.
  - exists b, kNotFound. split; [done|]. by left.
Qed.

Lemma bucket_upsert_ok {S} b kv r (s : S) :
  wf_bucket b → heap !! kv = Some r → 2 < kv < 2 ^ 48 →
  bucket_index (hash_fn (kv_key r)) (kNBucketInSegment cfg) = bk_index b →
  ∃ b' q, HashBucket_upsert cfg heap b kv (hash_fn (kv_key r)) s = Ok (b', q) s ∧
    (q = kNoSpace ∧ b' = b ∧ (∀ p, ¬ in_bucket b (kv_key r) p) ∧
       (∀ i, 0 ≤ i < kNSlotInBucket cfg → Z.testbit (bk_bitmap b) i = true) ∨
     q = kNotFound ∧ (∀ p, ¬ in_bucket b (kv_key r) p) ∧ bucket_put b b' kv r ∨
     stored b b' kv r q).
Proof.
  intros Hb Hh Hkv Hbi. unfold HashBucket_upsert. unfold mbind, M_bind.
  rewrite (check_kv_ok kv r) by (done || lia). unfold massert. rewrite Hbi, Z.eqb_refl.
  destruct (find_slot_bucket false b (kv_key r) s Hb) as [(i & p & o & -> & Hs & Hk)|[-> Hn]].
  - destruct (replace_kv_ok b i p o kv r s) as [[Hno ->]|(Hno & b' & Hput & ->)]; try done.
    + exists b, kExpired. split; [done|]. right. right. left. split_and!; [done..|].
      exists p. split; [|done]. by exists i, o.
    + exists b', p. split; [done|]. right. right. right. split_and!; [done| |done]. by exists i, o.
  - pose proof (wb_bitmap _ _ _ Hb) as Hbm. pose proof cfg_slots as Hcs.
    assert (2 ^ kNSlotInBucket cfg ≤ 2 ^ 48) by (apply Z.pow_le_mono_r; lia).
    destruct (index_least0_spec (bk_bitmap b)) as (Hi & Hfree & Hlow); [lia|].
    destruct (Z.eqb_spec (index_least0 (bk_bitmap b)) (kNSlotInBucket cfg)) as [He|Hne].
    + exists b, kNoSpace. split; [done|]. left. split_and!; [done..|]. intros i Hir. apply Hlow. lia.
    + eexists _, kNotFound. split; [done|]. right. left. split_and!; [done..|].
      apply insert_slot; try done. split; [lia|].
      destruct (decide (index_least0 (bk_bitmap b) < kNSlotInBucket cfg)); [done|].
      exfalso.
      assert (Z.testbit (bk_bitmap b) (kNSlotInBucket cfg) = true) as Ht by (apply Hlow; lia).
      by rewrite (testbit_above _ (kNSlotInBucket cfg)) in Ht by lia.
Qed.

(** *** Split *)

Lemma moved_bit k d : 0 ≤ d → negb (Z.land (hash_code k) (bit d) =? 0) = Z.testbit (hash_fn k) d.
Proof.
  intros Hd. change (negb (Z.land (hash_code k) (bit d) =? 0)) with (test_bit (hash_fn k) d).
  apply test_bit_testbit; [done|]. apply hash_fn_range.
Qed.

Lemma split_loop_ok {S} fuel d mask cand left right (s : S) :
  0 ≤ d → 0 ≤ mask < 2 ^ 48 → (0 < fuel)%nat → 0 ≤ cand < 2 ^ 48 →
  (∀ i, Z.testbit mask i = true → 65 - Z.of_nat fuel ≤ i ∧
     nthZ right i = nthZ (bk_kvs left) i ∧
     ∃ kv r, nthZ (bk_kvs left) i = Some kv ∧ heap !! dense_pointer kv = Some r) →
  ∃ cand' kvs,
    split_loop cfg heap fuel (bit d) mask cand left right s = Ok (cand', set_bk_kvs kvs left, right) s ∧
    0 ≤ cand' < 2 ^ 48 ∧ lenZ kvs = lenZ (bk_kvs left) ∧
    (∀ j, Z.testbit cand' j =
       Z.testbit cand j || (Z.testbit mask j && moves heap d (nthZ (bk_kvs left) j))) ∧
    (∀ j, Z.testbit mask j && moves heap d (nthZ (bk_kvs left) j) = false →
       nthZ kvs j = nthZ (bk_kvs left) j).
Proof.
  intros Hd. revert mask cand left. induction fuel as [|fuel IH];
    intros mask cand left Hm Hf Hc Hslots; [lia|]. simpl.
  destruct (Z.eqb_spec mask 0) as [->|Hnz].
  { exists cand, (bk_kvs left). split_and!; try (done || lia).
    - by destruct left.
    - intros j. by rewrite Z.bits_0, orb_false_r. }
  destruct (index_least1_spec mask) as (Hi & Hit & Hlow); [lia|].
  set (i := index_least1 mask) in *.
  assert (i < 48).
  { destruct (decide (i < 48)); [done|]. by rewrite (testbit_above mask 48) in Hit by lia. }
  destruct (Hslots i Hit) as (Hfi & Hright & kv & r & Hkv & Hh).
  unfold mbind, M_bind, mderef. rewrite Hkv. unfold mret at 1, M_ret at 1. rewrite Hh.
  unfold mret at 1, M_ret at 1. rewrite moved_bit by done.
  set (moved := Z.testbit (hash_fn (kv_key r)) d).
  assert (moves heap d (nthZ (bk_kvs left) i) = moved) as Hmv.
  { unfold moves. by rewrite Hkv, Hh. }
  set (left1 := if moved && kOptUpdate cfg then put_kv left i dense_null else left).
  set (cand1 := if moved then set_bit cand i else cand).
  assert ((if moved && kOptUpdate cfg then updZ right i kv else right) = right) as ->.
  { destruct (moved && kOptUpdate cfg); [|done]. apply updZ_id. by rewrite Hright. }
  assert (lenZ (bk_kvs left1) = lenZ (bk_kvs left)) as Hl1.
  { unfold left1. destruct (moved && _); [|done]. simpl. by rewrite lenZ_updZ. }
  assert (∀ j, j ≠ i → nthZ (bk_kvs left1) j = nthZ (bk_kvs left) j) as Hne1.
  { intros j Hj. unfold left1. destruct (moved && _); [|done]. simpl. by rewrite nthZ_updZ_ne. }
  destruct (IH (clear_bit mask i) cand1 left1) as (cand' & kvs & Hs & Hc' & Hl' & Hb' & Hk').
  - apply (clear_bit_bound _ _ 48); lia.
  - lia.
  - unfold cand1. destruct moved; [|done].
    pose proof (set_bit_range cand i ltac:(lia) ltac:(lia)). split; [lia|]. apply word_bound; [lia..|].
    intros j Hj. rewrite set_bit_testbit by lia. rewrite (testbit_above _ 48) by lia.
    apply bool_decide_eq_false. lia.
  - intros j. rewrite clear_bit_testbit by lia. intros [Hj Hij]%andb_true_iff.
    apply negb_true_iff, bool_decide_eq_false in Hij. destruct (Hslots j Hj) as (Hfj & Hrj & Hkj).
    rewrite Hne1 by congruence. split_and!; [|done|done].
    destruct (decide (0 ≤ j)); [|by rewrite Z.testbit_neg_r in Hj by lia].
    destruct (decide (i ≤ j)); [lia|]. rewrite Hlow in Hj; [done|lia].
  - exists cand', kvs. rewrite Hs. split_and!; try (done || lia).
    + unfold left1. by destruct (moved && kOptUpdate cfg), left.
    + intros j. rewrite Hb', clear_bit_testbit by lia. unfold cand1.
      destruct (decide (i = j)) as [<-|Hij].
      * rewrite Hmv, Hit, bool_decide_eq_true_2 by done. simpl. rewrite orb_false_r.
        destruct moved; [|by rewrite orb_false_r]. rewrite set_bit_testbit by lia.
        by rewrite bool_decide_eq_true_2.
      * rewrite (bool_decide_eq_false_2 (i = j)), andb_true_r by done. rewrite Hne1 by congruence.
        f_equal. destruct moved; [|done]. rewrite set_bit_testbit by lia.
        by rewrite bool_decide_eq_false_2, orb_false_r by done.
    + intros j Hj. destruct (decide (i = j)) as [<-|Hij].
      * rewrite Hk'.
        -- unfold left1. rewrite Hit, Hmv in Hj. simpl in Hj. by rewrite Hj.
        -- rewrite clear_bit_testbit by lia. rewrite bool_decide_eq_true_2 by done.
           by rewrite andb_false_r.
      * rewrite Hk'; [by apply Hne1; congruence|]. rewrite clear_bit_testbit by lia.
        rewrite Hne1 by congruence. by rewrite (bool_decide_eq_false_2 (i = j)), andb_true_r.
Qed.

(** A bucket that keeps the slots whose record satisfies [P]. *)
Lemma restrict_bucket b b' (P : KVPair K → Prop) :
  wf_bucket b → 0 ≤ bk_bitmap b' < 2 ^ kNSlotInBucket cfg →
  lenZ (bk_tags b') = lenZ (bk_tags b) → lenZ (bk_kvs b') = lenZ (bk_kvs b) →
  (∀ i, Z.testbit (bk_bitmap b') i = true → ∃ p r, slot_of b i p r ∧ P r) →
  (∀ i p r, slot_of b' i p r ↔ slot_of b i p r ∧ P r) →
  wf_bucket b' ∧ ∀ k p, in_bucket b' k p ↔ ∃ r, in_bucket b k p ∧ heap !! p = Some r ∧ P r.
Proof.
  intros Hb Hbm Ht Hk Hbit Hs. split.
  - constructor; [done|by rewrite Ht; apply (wb_tags _ _ _ Hb)|by rewrite Hk; apply (wb_kvs _ _ _ Hb)|..].
    + intros i Hi. destruct (Hbit i Hi) as (p & r & ? & ?). exists p, r. by apply Hs.
    + intros i j p q r r' [Hs1 _]%Hs [Hs2 _]%Hs. by apply (wb_inj _ _ _ Hb i j p q).
  - intros k p. split.
    + intros (i & r & [Hs' HP]%Hs & Hk'). exists r. split_and!; [by exists i, r|by apply Hs'|done].
    + intros (r & (i & r' & Hs' & Hk') & Hp & HP). exists i, r'. split; [|done]. apply Hs.
      split; [done|]. destruct Hs' as (_ & _ & _ & Hp' & _). congruence.
Qed.

Lemma bucket_split_ok {S} b (s : S) :
  wf_bucket b → 0 ≤ bk_depth b < 255 →
  ∃ l t, HashBucket_split cfg heap b s = Ok (l, t) s ∧ wf_bucket l ∧ wf_bucket t ∧
    bk_depth l = bk_depth b + 1 ∧ bk_depth t = bk_depth b + 1 ∧
    bk_index l = bk_index b ∧ bk_index t = bk_index b ∧
    (∀ k p, in_bucket l k p ↔ in_bucket b k p ∧ Z.testbit (hash_fn k) (bk_depth b) = false) ∧
    (∀ k p, in_bucket t k p ↔ in_bucket b k p ∧ Z.testbit (hash_fn k) (bk_depth b) = true).
Proof.
  intros Hb Hd. set (d := bk_depth b) in *. pose proof (wb_bitmap _ _ _ Hb) as Hbm.
  pose proof cfg_slots as Hcs. set (n := kNSlotInBucket cfg) in *.
  assert (2 ^ n ≤ 2 ^ 48) by (apply Z.pow_le_mono_r; lia).
  destruct (split_loop_ok mask_fuel d (bk_bitmap b) 0 b (bk_kvs b) s)
    as (cand & kvs & Hs & Hc & Hlen & Hcand & Hkvs); try lia.
  { unfold mask_fuel. lia. }
  { intros i Hi. pose proof (bitmap_bits b i Hb Hi). split_and!; [unfold mask_fuel; lia|done|].
    destruct (wb_slot _ _ _ Hb i Hi) as (p & r & _ & Hkv & _ & Hh & Hp). eexists _, r.
    split; [exact Hkv|]. by rewrite dense_pointer_mk by (lia || apply slot_tag_range). }
  assert (∀ i p r, slot_of b i p r → Z.testbit cand i = Z.testbit (hash_fn (kv_key r)) d) as Hmove.
  { intros i p r (Hbit & Hkv & _ & Hh & Hp). rewrite Hcand, Z.bits_0, Hbit. simpl. unfold moves.
    rewrite Hkv, dense_pointer_mk by (lia || apply slot_tag_range). by rewrite Hh. }
  assert (∀ i, Z.testbit cand i = true → Z.testbit (bk_bitmap b) i = true) as Hsub.
  { intros i. rewrite Hcand, Z.bits_0. simpl. by intros [? _]%andb_true_iff. }
  assert (0 ≤ cand < 2 ^ n) as Hcn.
  { split; [lia|]. apply word_bound; [lia..|]. intros j Hj.
    destruct (Z.testbit cand j) eqn:E; [|done]. apply Hsub in E.
    by rewrite (testbit_above (bk_bitmap b) n) in E by lia. }
  assert (∀ i, Z.testbit (Z.land (bk_bitmap b) (Z.lnot cand)) i =
    Z.testbit (bk_bitmap b) i && negb (Z.testbit cand i)) as Hlb.
  { intros i. rewrite Z.land_spec. destruct (decide (0 ≤ i)).
    - by rewrite Z.lnot_spec by lia.
    - by rewrite !Z.testbit_neg_r by lia. }
  assert (0 ≤ Z.land (bk_bitmap b) (Z.lnot cand) < 2 ^ n) as Hln.
  { assert (0 ≤ Z.land (bk_bitmap b) (Z.lnot cand)) by (apply Z.land_nonneg; lia). split; [done|].
    apply word_bound; [lia..|]. intros j Hj. rewrite Hlb.
    by rewrite (testbit_above (bk_bitmap b) n) by lia. }
  unfold HashBucket_split, mbind, M_bind. fold d. rewrite Hs. eexists _, _. split; [reflexivity|].
  assert (u8 (d + 1) = d + 1) as -> by (apply Z.mod_small; lia).
  assert (wrap 48 cand = cand) as -> by (apply Z.mod_small; lia).
  cbn [bk_bitmap set_bk_kvs].
  assert (wrap 48 (Z.land (bk_bitmap b) (Z.lnot cand)) = Z.land (bk_bitmap b) (Z.lnot cand)) as ->
    by (apply Z.mod_small; lia).
  match goal with |- ?Wl ∧ ?Wr ∧ _ =>
    match Wl with _ ?l => match Wr with _ ?r => set (l0 := l); set (r0 := r) end end end.
  destruct (restrict_bucket b l0 (λ r, Z.testbit (hash_fn (kv_key r)) d = false)) as [Hwl Hil];
    [done|exact Hln|done|done|..].
  { intros i. simpl. rewrite Hlb. intros [Hi Hci]%andb_true_iff.
    destruct (wb_slot _ _ _ Hb i Hi) as (p & r & Hsl). exists p, r. split; [done|].
    rewrite <-(Hmove i p r Hsl). by apply negb_true_iff. }
  { intros i p r. unfold Buckets.slot_of. simpl. rewrite Hlb. split.
    - intros ([Hi Hci]%andb_true_iff & Hkv & Ht & Hh & Hp). apply negb_true_iff in Hci.
      rewrite Hkvs in Hkv; [|by rewrite Hcand, Z.bits_0 in Hci].
      assert (slot_of b i p r) as Hsl by done. split; [done|]. by rewrite <-(Hmove i p r Hsl).
    - intros [Hsl Hci]. rewrite <-(Hmove i p r Hsl) in Hci. destruct Hsl as (Hi & Hkv & ? & ? & ?).
      rewrite Hi, Hci. rewrite Hkvs; [done|]. by rewrite Hcand, Z.bits_0 in Hci. }
  destruct (restrict_bucket b r0 (λ r, Z.testbit (hash_fn (kv_key r)) d = true)) as [Hwr Hir];
    [done|exact Hcn|done|done|..].
  { intros i. simpl. intros Hi. destruct (wb_slot _ _ _ Hb i (Hsub i Hi)) as (p & r & Hsl).
    exists p, r. split; [done|]. by rewrite <-(Hmove i p r Hsl). }
  { intros i p r. unfold Buckets.slot_of at 1. simpl. split.
    - intros (Hi & Hkv & Ht & Hh & Hp).
      assert (slot_of b i p r) as Hsl by (split_and!; auto; lia). split; [done|].
      by rewrite <-(Hmove i p r Hsl).
    - intros [Hsl Hci]. rewrite <-(Hmove i p r Hsl) in Hci. destruct Hsl as (Hi & Hkv & ? & ? & ?).
      done. }
  assert (∀ (c : bool) k p, (∃ r, in_bucket b k p ∧ heap !! p = Some r ∧
      Z.testbit (hash_fn (kv_key r)) d = c) ↔ in_bucket b k p ∧ Z.testbit (hash_fn k) d = c) as Hex.
  { intros c k p. split.
    - intros (r & (i & r' & Hsl & <-) & Hh & Hc'). split; [by exists i, r'|].
      destruct Hsl as (_ & _ & _ & Hh' & _). congruence.
    - intros [(i & r & Hsl & <-) Hc']. exists r. split_and!; [by exists i, r|by apply Hsl|done]. }
  split_and!; try done; intros k p; [rewrite Hil|rewrite Hir]; apply Hex.
Qed.
End lemmas.
