(* ===== verification/HashSpec.v ===== *)
(** * Correctness of the hash table

    The abstract view of a table is a finite map from keys to records.  The
    invariant [ht_inv] says how the directory shares segments; [lookup],
    [upsert] (with the splits and doublings it needs) and [update] are the
    operations of the map. *)

From S2P Require Export Buckets.

(** ** Definitions *)

Section spec.
Context `{Util} `{Dense} `{Simd} {K : Type} `{EqDecision K} `{Countable K} `{HashFn K}.
Variable cfg : HashConfig.
Variable heap : gmap Z (KVPair K).

(** A segment of local depth [local]: the low bits of the codes are [pat]. *)
Definition seg_inv (pat local : Z) (s : HashSegment) : Prop :=
  lenZ s = kNBucketInSegment cfg ∧
  ∀ j b, nthZ s j = Some b →
    wf_bucket cfg heap b ∧ bk_depth b = local ∧ bk_index b = j ∧
    ∀ k p, in_bucket heap b k p →
      bucket_index (hash_fn k) (kNBucketInSegment cfg) = j ∧ hash_fn k mod 2 ^ local = pat.

Definition in_segment (s : HashSegment) (k : K) (p : Z) : Prop :=
  ∃ b, nthZ s (bucket_index (hash_fn k) (kNBucketInSegment cfg)) = Some b ∧ in_bucket heap b k p.

(** The entry [i] of the directory is the segment [s] number [sid]. *)
Definition entry (t : HashTable) (i sid : Z) (s : HashSegment) : Prop :=
  nthZ (ht_dir t) i = Some sid ∧ nthZ (ht_segs t) sid = Some s.

(** The entries of a segment of local depth [local] are those with the same low
    [local] bits. *)
Record ht_inv (t : HashTable) : Prop := {
  hi_depth : 0 ≤ ht_depth t ≤ 32;
  hi_dir : lenZ (ht_dir t) = 2 ^ ht_depth t;
  hi_entry i : 0 ≤ i < 2 ^ ht_depth t →
    ∃ sid s local, entry t i sid s ∧ 0 ≤ local ≤ ht_depth t ∧ seg_inv (i mod 2 ^ local) local s;
  hi_share i j sid s local : entry t i sid s → seg_inv (i mod 2 ^ local) local s →
    0 ≤ local → 0 ≤ j < 2 ^ ht_depth t →
    (nthZ (ht_dir t) j = Some sid ↔ j mod 2 ^ local = i mod 2 ^ local);
}.

Definition in_table (t : HashTable) (k : K) (p : Z) : Prop :=
  ∃ sid s, entry t (segment_index (hash_fn k) (ht_depth t)) sid s ∧ in_segment s k p.

(** The map that the table represents. *)
Definition table_rel (t : HashTable) (m : gmap K Z) : Prop :=
  ∀ k p, m !! k = Some p ↔ in_table t k p.

(** Fewer keys than a bucket has slots share the bucket index and the low 32
    bits of the code of [key]. *)
Definition few_collisions (m : gmap K Z) (key : K) : Prop :=
  ∀ l : list K, NoDup l →
    (∀ k, k ∈ l → is_Some (m !! k) ∧
       bucket_index (hash_fn k) (kNBucketInSegment cfg) =
       bucket_index (hash_fn key) (kNBucketInSegment cfg) ∧
       hash_fn k mod 2 ^ 32 = hash_fn key mod 2 ^ 32) →
    lenZ l < kNSlotInBucket cfg.

(** The map after storing the record at [kv] of key [key], and the result. *)
Definition map_upsert (m : gmap K Z) (key : K) (kv : Z) (m' : gmap K Z) (q : Z) : Prop :=
  match m !! key with
  | None => q = kNotFound ∧ m' = <[key := kv]> m
  | Some old =>
      (not_older cfg heap kv old ∧ q = kExpired ∧ m' = m) ∨
      (¬ not_older cfg heap kv old ∧ q = old ∧ m' = <[key := kv]> m)
  end.
End spec.

(** The same for [update], which never inserts. *)
Definition map_update `{Dense} {K : Type} `{Countable K} (cfg : HashConfig) (heap : gmap Z (KVPair K))
    (m : gmap K Z) (key : K) (kv : Z) (m' : gmap K Z) (q : Z) : Prop :=
  match m !! key with
  | None => q = kNotFound ∧ m' = m
  | Some old =>
      (not_older cfg heap kv old ∧ q = kExpired ∧ m' = m) ∨
      (¬ not_older cfg heap kv old ∧ q = old ∧ m' = <[key := kv]> m)
  end.

(** ** Lemmas *)

Lemma mod_mod_pow a m n : 0 ≤ m ≤ n → (a mod 2 ^ n) mod 2 ^ m = a mod 2 ^ m.
Proof.
  intros Hm. apply Z.mod_mod_divide.
  exists (2 ^ (n - m)). rewrite <-Z.pow_add_r by lia. f_equal. lia.
Qed.

Lemma mod_succ_pow a l :
  0 ≤ l → a mod 2 ^ (l + 1) = a mod 2 ^ l + (if Z.testbit a l then 2 ^ l else 0).
Proof.
  intros Hl. rewrite Z.pow_add_r by lia. change (2 ^ 1) with 2.
  rewrite Z.rem_mul_r by (try apply Z.pow_nonzero; lia).
  rewrite <-Z.testbit_spec' by lia. destruct (Z.testbit a l); simpl; lia.
Qed.

Lemma bit_pow i : 0 ≤ i → bit i = 2 ^ i.
Proof. intros. unfold bit. by rewrite Z.shiftl_1_l. Qed.

Lemma segment_index_mod code d : 0 ≤ d → segment_index code d = code mod 2 ^ d.
Proof.
  intros Hd. unfold segment_index. rewrite bit_pow by done.
  replace (2 ^ d - 1) with (Z.ones d) by (rewrite Z.ones_equiv; lia). by apply Z.land_ones.
Qed.

Lemma pow_mono m n : 0 ≤ m ≤ n → 0 < 2 ^ m ≤ 2 ^ n.
Proof. intros. split; [apply Z.pow_pos_nonneg; lia|apply Z.pow_le_mono_r; lia]. Qed.

Section lemmas.
Context `{UtilSpec} `{DenseSpec} `{SimdSpec} {K : Type} `{EqDecision K} `{Countable K} `{HashFnSpec K}.
Variable cfg : HashConfig.
Hypothesis Hcfg : wf_config cfg.
Variable heap : gmap Z (KVPair K).
Implicit Types (t : HashTable) (s : HashSegment) (k key : K) (p q : Z) (m : gmap K Z).

Abbreviation seg_inv := (seg_inv cfg heap).
Abbreviation in_segment := (in_segment cfg heap).
Abbreviation ht_inv := (ht_inv cfg heap).
Abbreviation in_table := (in_table cfg heap).
Abbreviation table_rel := (table_rel cfg heap).
Abbreviation bidx k := (bucket_index (hash_fn k) (kNBucketInSegment cfg)).

Lemma cfg_buckets : 0 < kNBucketInSegment cfg ≤ 256.
Proof. apply Hcfg. Qed.

Lemma bidx_range k : 0 ≤ bidx k < kNBucketInSegment cfg.
Proof. apply Z.mod_pos_bound. apply cfg_buckets. Qed.

Lemma seg_bucket pat local s k :
  seg_inv pat local s → ∃ b, nthZ s (bidx k) = Some b.
Proof.
  intros [Hl _]. apply nthZ_is_Some. rewrite Hl. apply bidx_range.
Qed.

(** The local depth of a segment is determined by its content. *)
Lemma seg_local pat pat' local local' s :
  seg_inv pat local s → seg_inv pat' local' s → local = local'.
Proof.
  intros [Hl Hs] [_ Hs']. pose proof cfg_buckets.
  destruct (nthZ_is_Some s 0) as [b Hb]; [lia|].
  destruct (Hs 0 b Hb) as (_ & <- & _). by destruct (Hs' 0 b Hb) as (_ & <- & _).
Qed.

Lemma segment_depth_ok {S} pat local s (st : S) :
  seg_inv pat local s → segment_depth s st = Ok local st.
Proof.
  intros [Hl Hs]. pose proof cfg_buckets. destruct (nthZ_is_Some s 0) as [b Hb]; [lia|].
  unfold segment_depth, mbind, M_bind, mderef. rewrite Hb.
  by destruct (Hs 0 b Hb) as (_ & <- & _).
Qed.

Lemma segment_bucket_ok {S} s k b (st : S) :
  nthZ s (bidx k) = Some b → segment_bucket cfg s (bidx k) st = Ok b st.
Proof.
  intros Hb. pose proof (bidx_range k). unfold segment_bucket, mbind, M_bind, massert, mderef.
  rewrite (proj2 (Z.ltb_lt _ _)) by lia. by rewrite Hb.
Qed.

Lemma dir_segment_ok {S} t i sid s (st : S) :
  entry t i sid s → dir_segment t i st = Ok (sid, s) st.
Proof. intros [Hd Hs]. unfold dir_segment, mbind, M_bind, mderef. by rewrite Hd; unfold mret, M_ret; rewrite Hs. Qed.

(** The segment of the code of a key. *)
Lemma inv_lookup t k :
  ht_inv t → let i := segment_index (hash_fn k) (ht_depth t) in
  ∃ sid s local b, entry t i sid s ∧ 0 ≤ i < 2 ^ ht_depth t ∧ 0 ≤ local ≤ ht_depth t ∧
    seg_inv (i mod 2 ^ local) local s ∧ i mod 2 ^ local = hash_fn k mod 2 ^ local ∧
    nthZ s (bidx k) = Some b.
Proof.
  intros Ht i. pose proof (hi_depth _ _ _ Ht) as Hd. pose proof (pow_mono 0 (ht_depth t)).
  assert (0 ≤ i < 2 ^ ht_depth t) as Hi.
  { unfold i. rewrite segment_index_mod by lia. apply Z.mod_pos_bound. lia. }
  destruct (hi_entry _ _ _ Ht i Hi) as (sid & s & local & He & Hl & Hs).
  destruct (seg_bucket _ _ s k Hs) as [b Hb]. exists sid, s, local, b. split_and!; try done; try lia.
  unfold i. rewrite segment_index_mod by lia. apply mod_mod_pow. lia.
Qed.

Lemma entry_fun t i sid s sid' s' : entry t i sid s → entry t i sid' s' → sid = sid' ∧ s = s'.
Proof. intros [Hd1 Hs1] [Hd2 Hs2]. simplify_eq. done. Qed.

Lemma in_table_entry t k p sid s :
  entry t (segment_index (hash_fn k) (ht_depth t)) sid s → in_table t k p ↔ in_segment s k p.
Proof.
  intros He. split; [|intros Hs; by exists sid, s].
  intros (sid' & s' & He' & Hs). by destruct (entry_fun _ _ _ _ _ _ He He') as [_ ->].
Qed.

Lemma in_segment_bucket s k p b :
  nthZ s (bidx k) = Some b → in_segment s k p ↔ in_bucket heap b k p.
Proof.
  intros Hb. split; [|intros Hk; by exists b]. intros (b' & Hb' & Hk). congruence.
Qed.

(** *** Lookup *)

Lemma table_lookup_ok t m key :
  ht_inv t → table_rel t m →
  HashTable_lookup cfg heap key (hash_fn key) t = Ok (default kNotFound (m !! key)) t.
Proof.
  intros Ht Hm. destruct (inv_lookup t key Ht) as (sid & s & local & b & He & Hi & Hl & Hs & _ & Hb).
  destruct Hs as [_ Hs]. destruct (Hs _ b Hb) as (Hwf & _ & Hbi & _).
  unfold HashTable_lookup, locate_bucket, massert, mget, mbind, M_bind, hash_code.
  rewrite Z.eqb_refl. rewrite (dir_segment_ok t _ sid s) by done.
  rewrite (segment_bucket_ok s key b) by done. unfold mret at 1, M_ret at 1.
  destruct (bucket_lookup_ok cfg Hcfg heap b key t Hwf) as (q & -> & Hq); [done|]. f_equal.
  assert (∀ p, m !! key = Some p ↔ in_bucket heap b key p) as Hrel.
  { intros p. rewrite (Hm key p), (in_table_entry t key p sid s) by done. by apply in_segment_bucket. }
  destruct Hq as [[-> Hn]|Hin].
  - destruct (m !! key) as [p|] eqn:E; [|done]. exfalso. apply (Hn p). by apply Hrel.
  - apply Hrel in Hin. by rewrite Hin.
Qed.

(** *** Replacing a segment *)

Lemma put_segment_entry t i sid s' j sid' s'' :
  (∃ s, entry t i sid s) →
  entry (put_segment sid s' t) j sid' s'' ↔
    if decide (sid' = sid) then nthZ (ht_dir t) j = Some sid ∧ s'' = s' else entry t j sid' s''.
Proof.
  intros (s & Hd & Hs). unfold entry. simpl. apply nthZ_Some in Hs.
  case_decide as Hsid; [subst; rewrite nthZ_updZ_eq by done|rewrite nthZ_updZ_ne by congruence]; [|done].
  naive_solver.
Qed.

Lemma put_segment_inv t i sid s s' local :
  ht_inv t → entry t i sid s → 0 ≤ i < 2 ^ ht_depth t → 0 ≤ local ≤ ht_depth t →
  seg_inv (i mod 2 ^ local) local s → seg_inv (i mod 2 ^ local) local s' →
  ht_inv (put_segment sid s' t).
Proof.
  intros Ht He Hi Hl Hs Hs'. pose proof Ht as [Hdep Hdir Hent Hsh].
  assert (∃ s, entry t i sid s) as Hex by (by exists s).
  assert (∀ j, 0 ≤ j < 2 ^ ht_depth t → nthZ (ht_dir t) j = Some sid → j mod 2 ^ local = i mod 2 ^ local)
    as Hpat by (intros j Hj; by apply (Hsh i j sid s local He Hs ltac:(lia) Hj)).
  constructor; [done|done|..].
  - intros j Hj. destruct (Hent j Hj) as (sid' & s'' & l' & He' & Hl' & Hs'').
    destruct (decide (sid' = sid)) as [->|Hne].
    + exists sid, s', local. split; [|split; [exact Hl|]].
      * apply (put_segment_entry t i); [done|]. rewrite decide_True by done. split; [apply He'|done].
      * rewrite (Hpat j Hj) by apply He'. done.
    + exists sid', s'', l'. split; [|done].
      apply (put_segment_entry t i); [done|]. by rewrite decide_False.
  - intros j j' sid' s'' l' He' Hs'' Hl' Hj'. change (ht_dir (put_segment sid s' t)) with (ht_dir t).
    apply (put_segment_entry t i) in He'; [|done]. case_decide as Hsid.
    + subst sid'. destruct He' as [Hd' ->]. assert (l' = local) as -> by (by eapply seg_local).
      apply (Hsh j j' sid s local); [|..|done|done].
      * split; [done|apply He].
      * rewrite (Hpat j); [done| |done]. apply nthZ_Some in Hd'. by rewrite Hdir in Hd'.
    + by apply (Hsh j j' sid' s'' l').
Qed.

(** Storing a record in the bucket of its key. *)
Lemma put_bucket_ok t m sid s local b b' kv (r : KVPair K) :
  let key := kv_key r in let i := segment_index (hash_fn key) (ht_depth t) in
  ht_inv t → table_rel t m → entry t i sid s → 0 ≤ i < 2 ^ ht_depth t → 0 ≤ local ≤ ht_depth t →
  seg_inv (i mod 2 ^ local) local s → i mod 2 ^ local = hash_fn key mod 2 ^ local →
  nthZ s (bidx key) = Some b → bucket_put cfg heap b b' kv r →
  let t' := put_segment sid (updZ s (bidx key) b') t in
  ht_inv t' ∧ table_rel t' (<[key := kv]> m).
Proof.
  intros key i Ht Hm He Hi Hl Hs Hpat Hb (Hwf' & Hd' & Hi' & Hin) t'.
  pose proof Hs as [Hls Hbs]. destruct (Hbs _ b Hb) as (Hwf & Hbd & Hbi & Hbk).
  assert (seg_inv (i mod 2 ^ local) local (updZ s (bidx key) b')) as Hs'.
  { split; [by rewrite lenZ_updZ|]. intros j b0. destruct (decide (bidx key = j)) as [<-|Hj].
    - rewrite nthZ_updZ_eq by (rewrite Hls; apply bidx_range). intros [= <-].
      split; [done|]. split; [congruence|]. split; [congruence|]. intros k p Hk. apply Hin in Hk.
      case_decide as Hkk; [by subst k|by apply (Hbk k p)].
    - rewrite nthZ_updZ_ne by done. apply Hbs. }
  split; [by apply (put_segment_inv t i sid s _ local)|].
  intros k p. rewrite lookup_insert.
  assert (∀ k, segment_index (hash_fn k) (ht_depth t) = i → in_table t' k p ↔
    ∃ b0, nthZ (updZ s (bidx key) b') (bidx k) = Some b0 ∧ in_bucket heap b0 k p) as Hin_i.
  { intros k0 Hk0. rewrite (in_table_entry t' k0 p sid (updZ s (bidx key) b')); [done|].
    apply (put_segment_entry t i); [by exists s|]. rewrite decide_True by done.
    change (ht_depth t') with (ht_depth t). rewrite Hk0. split; [apply He|done]. }
  assert (∀ k0, in_table t k0 p → k0 ≠ key → in_table t' k0 p) as Hkeep.
  { intros k0 (sid0 & s0 & He0 & Hs0) Hne. destruct (decide (sid0 = sid)) as [->|Hsid].
    - assert (s0 = s) as -> by (destruct He0, He; congruence).
      exists sid, (updZ s (bidx key) b'). split.
      + apply (put_segment_entry t i); [by exists s|]. rewrite decide_True by done.
        split; [apply He0|done].
      + destruct Hs0 as (b0 & Hb0 & Hb0k). destruct (decide (bidx key = bidx k0)) as [Hbe|Hbe].
        * exists b'. rewrite <-Hbe, nthZ_updZ_eq by (rewrite Hls; apply bidx_range). split; [done|].
          apply Hin. rewrite decide_False by done. congruence.
        * exists b0. by rewrite nthZ_updZ_ne.
    - exists sid0, s0. split; [|done]. apply (put_segment_entry t i); [by exists s|].
      by rewrite decide_False. }
  case_decide as Hk.
  - rewrite <-Hk. rewrite (Hin_i key) by done. rewrite nthZ_updZ_eq by (rewrite Hls; apply bidx_range).
    split.
    + intros [= ->]. exists b'. split; [done|]. apply Hin. by rewrite decide_True.
    + intros (b0 & [= <-] & Hb0). apply Hin in Hb0. rewrite decide_True in Hb0 by done. congruence.
  - rewrite (Hm k p). split; [intros Hk'; by apply Hkeep|].
    intros (sid0 & s0 & He0 & Hs0). apply (put_segment_entry t i) in He0; [|by exists s].
    case_decide as Hsid; [|by exists sid0, s0]. destruct He0 as [Hd0 ->]. exists sid, s.
    split; [split; [subst sid0; exact Hd0|apply He]|]. destruct Hs0 as (b0 & Hb0 & Hb0k).
    destruct (decide (bidx key = bidx k)) as [Hbe|Hbe].
    + rewrite <-Hbe, nthZ_updZ_eq in Hb0 by (rewrite Hls; apply bidx_range).
      injection Hb0 as <-. apply Hin in Hb0k. rewrite decide_False in Hb0k by done.
      exists b. by rewrite <-Hbe.
    + rewrite nthZ_updZ_ne in Hb0 by done. by exists b0.
Qed.

(** *** Doubling the directory *)

Lemma nthZ_app_same {A} (l : list A) n i :
  lenZ l = n → 0 < n → 0 ≤ i < 2 * n → nthZ (l ++ l) i = nthZ l (i mod n).
Proof.
  intros Hl Hn Hi. unfold nthZ, lenZ in *. pose proof (Z.mod_pos_bound i n Hn).
  rewrite !(proj2 (Z.leb_le _ _)) by lia. destruct (decide (i < n)).
  - rewrite Z.mod_small by lia. apply lookup_app_l. lia.
  - replace (i mod n) with (i - n) by (apply (Z.mod_unique_pos i n 1); lia).
    rewrite lookup_app_r by lia. f_equal. lia.
Qed.

Lemma double_inv t m :
  ht_inv t → table_rel t m → ht_depth t < 32 →
  ht_inv (double_directory t) ∧ table_rel (double_directory t) m.
Proof.
  intros [Hd Hdir Hent Hsh] Hm Hlt. set (D := ht_depth t) in *.
  assert (2 ^ (D + 1) = 2 * 2 ^ D) as Hp by (rewrite Z.pow_add_r by lia; lia).
  pose proof (pow_mono 0 D ltac:(lia)) as HD.
  assert (∀ i, 0 ≤ i < 2 ^ (D + 1) →
    nthZ (ht_dir (double_directory t)) i = nthZ (ht_dir t) (i mod 2 ^ D)) as Hn.
  { intros i Hi. simpl. apply nthZ_app_same; [done|lia|lia]. }
  assert (∀ i, 0 ≤ i mod 2 ^ D < 2 ^ D) as Hmod by (intros; apply Z.mod_pos_bound; lia).
  split.
  - constructor; [simpl; fold D; lia|simpl; fold D; rewrite lenZ_app; lia|..]; simpl; fold D.
    + intros i Hi. destruct (Hent (i mod 2 ^ D) (Hmod i)) as (sid & s & local & [He1 He2] & Hl & Hs).
      exists sid, s, local. split; [|split; [lia|]].
      * split; [|done]. by rewrite (Hn i Hi).
      * by rewrite mod_mod_pow in Hs by lia.
    + intros i j sid s local [He1 He2] Hs Hl Hj. change (ht_dir t ++ ht_dir t) with (ht_dir (double_directory t)).
      assert (0 ≤ i < 2 ^ (D + 1)) as Hi.
      { apply nthZ_Some in He1. simpl in He1. rewrite lenZ_app in He1. lia. }
      rewrite (Hn i Hi) in He1. rewrite (Hn j Hj).
      destruct (Hent (i mod 2 ^ D) (Hmod i)) as (sid' & s' & local' & He' & Hl' & Hs').
      destruct (entry_fun t _ sid s sid' s' (conj He1 He2) He') as [<- <-].
      assert (local' = local) as -> by (by eapply seg_local).
      rewrite (Hsh (i mod 2 ^ D) (j mod 2 ^ D) sid s local He' Hs' Hl (Hmod j)).
      rewrite !mod_mod_pow by lia. done.
  - intros k p. rewrite (Hm k p). unfold in_table. simpl. fold D.
    assert (nthZ (ht_dir t ++ ht_dir t) (segment_index (hash_fn k) (D + 1)) =
            nthZ (ht_dir t) (segment_index (hash_fn k) D)) as He.
    { rewrite !segment_index_mod by lia. change (ht_dir t ++ ht_dir t) with (ht_dir (double_directory t)).
      rewrite Hn by (apply Z.mod_pos_bound; lia). by rewrite mod_mod_pow by lia. }
    split; intros (sid & s & [He1 He2] & Hs); exists sid, s; (split; [split|done]); simpl in *;
      congruence.
Qed.

(** *** Splitting a segment *)

(** [l] and [u] are the left and right halves of the bucket [b]. *)
Definition split_of (b l u : HashBucket) : Prop :=
  wf_bucket cfg heap l ∧ wf_bucket cfg heap u ∧
  bk_depth l = bk_depth b + 1 ∧ bk_depth u = bk_depth b + 1 ∧
  bk_index l = bk_index b ∧ bk_index u = bk_index b ∧
  (∀ k p, in_bucket heap l k p ↔ in_bucket heap b k p ∧ Z.testbit (hash_fn k) (bk_depth b) = false) ∧
  (∀ k p, in_bucket heap u k p ↔ in_bucket heap b k p ∧ Z.testbit (hash_fn k) (bk_depth b) = true).

Lemma split_buckets_ok {S} (bs : list HashBucket) (st : S) :
  (∀ b, b ∈ bs → wf_bucket cfg heap b ∧ 0 ≤ bk_depth b < 255) →
  ∃ ls us, split_buckets cfg heap bs st = Ok (ls, us) st ∧ Forall3 split_of bs ls us.
Proof.
  induction bs as [|b bs IH]; intros Hbs; simpl.
  { exists [], []. split; [done|constructor]. }
  destruct (Hbs b) as [Hb Hd]; [set_solver|].
  destruct (bucket_split_ok cfg Hcfg heap b st Hb Hd) as (l & u & Hs & Hprops).
  destruct IH as (ls & us & IHs & IHf); [intros b' Hb'; apply Hbs; set_solver|].
  exists (l :: ls), (u :: us). unfold mbind, M_bind. rewrite Hs, IHs.
  split; [done|]. constructor; done.
Qed.

Lemma Forall3_nthZ {A} (P : A → A → A → Prop) l1 l2 l3 j x :
  Forall3 P l1 l2 l3 → nthZ l1 j = Some x →
  ∃ y z, nthZ l2 j = Some y ∧ nthZ l3 j = Some z ∧ P x y z.
Proof. unfold nthZ. destruct (0 <=? j); [|done]. intros HF Hx. by eapply Forall3_lookup_l. Qed.

Lemma Forall3_lenZ {A} (P : A → A → A → Prop) l1 l2 l3 :
  Forall3 P l1 l2 l3 → lenZ l2 = lenZ l1 ∧ lenZ l3 = lenZ l1.
Proof. induction 1; unfold lenZ in *; simpl; lia. Qed.

Lemma nthZ_same_len {A B} (l1 : list A) (l2 : list B) j y :
  lenZ l2 = lenZ l1 → nthZ l2 j = Some y → ∃ x, nthZ l1 j = Some x.
Proof. intros Hl Hy. apply nthZ_is_Some. apply nthZ_Some in Hy. lia. Qed.

Lemma seg_split_ok {S} pat local s (st : S) :
  seg_inv pat local s → 0 ≤ local < 255 →
  ∃ l u, HashSegment_split cfg heap s st = Ok (l, u) st ∧
    seg_inv pat (local + 1) l ∧ seg_inv (pat + 2 ^ local) (local + 1) u ∧
    ∀ k p, (in_segment l k p ↔ in_segment s k p ∧ Z.testbit (hash_fn k) local = false) ∧
           (in_segment u k p ↔ in_segment s k p ∧ Z.testbit (hash_fn k) local = true).
Proof.
  intros [Hl Hs] Hlo.
  destruct (split_buckets_ok s st) as (ls & us & Hok & HF).
  { intros b [j Hj]%list_elem_of_lookup. destruct (Hs (Z.of_nat j) b) as (Hb & -> & _); [|split; [done|lia]].
    unfold nthZ. by rewrite (proj2 (Z.leb_le _ _)), Nat2Z.id by lia. }
  destruct (Forall3_lenZ _ _ _ _ HF) as [Hll Hlu].
  assert (seg_inv pat (local + 1) ls) as Hil.
  { split; [lia|]. intros j l Hj. destruct (nthZ_same_len s ls j l Hll Hj) as [b Hb].
    destruct (Forall3_nthZ _ _ _ _ _ _ HF Hb) as (l' & u & Hl' & _ & Hsp).
    assert (l' = l) as -> by congruence. destruct Hsp as (Hw & _ & Hd & _ & Hi & _ & Hin & _).
    destruct (Hs j b Hb) as (_ & Hbd & Hbi & Hbk). rewrite Hd, Hi. split_and!; [done|lia|done|].
    intros k p Hk. apply Hin in Hk as [Hk Hbit]. destruct (Hbk k p Hk) as [? Hm]. split; [done|].
    rewrite Hbd in Hbit. rewrite mod_succ_pow, Hbit by lia. lia. }
  assert (seg_inv (pat + 2 ^ local) (local + 1) us) as Hiu.
  { split; [lia|]. intros j u Hj. destruct (nthZ_same_len s us j u Hlu Hj) as [b Hb].
    destruct (Forall3_nthZ _ _ _ _ _ _ HF Hb) as (l & u' & _ & Hu' & Hsp).
    assert (u' = u) as -> by congruence. destruct Hsp as (_ & Hw & _ & Hd & _ & Hi & _ & Hin).
    destruct (Hs j b Hb) as (_ & Hbd & Hbi & Hbk). rewrite Hd, Hi. split_and!; [done|lia|done|].
    intros k p Hk. apply Hin in Hk as [Hk Hbit]. destruct (Hbk k p Hk) as [? Hm]. split; [done|].
    rewrite Hbd in Hbit. rewrite mod_succ_pow, Hbit by lia. lia. }
  exists ls, us. split.
  { unfold HashSegment_split, mbind, M_bind. rewrite Hok.
    rewrite (segment_depth_ok _ _ _ st Hil), (segment_depth_ok _ _ _ st Hiu).
    unfold massert. by rewrite Z.eqb_refl. }
  split; [done|]. split; [done|]. intros k p.
  destruct (seg_bucket pat local s k (conj Hl Hs)) as [b Hb].
  destruct (Forall3_nthZ _ _ _ _ _ _ HF Hb) as (l & u & Hl' & Hu' & Hsp).
  rewrite (in_segment_bucket ls k p l), (in_segment_bucket us k p u), (in_segment_bucket s k p b) by done.
  destruct Hsp as (_ & _ & _ & _ & _ & _ & Hin1 & Hin2).
  destruct (Hs _ b Hb) as (_ & <- & _). split; [apply Hin1|apply Hin2].
Qed.

(** *** Installing the right segment *)

Lemma install_right_spec dir ps off right n :
  0 < ps → 0 ≤ off < ps →
  lenZ (install_right dir ps off right n) = lenZ dir ∧
  ∀ i, 0 ≤ i < lenZ dir →
    nthZ (install_right dir ps off right n) i =
      if decide (i mod ps = off ∧ i / ps < Z.of_nat n) then Some right else nthZ dir i.
Proof.
  intros Hps Hoff. unfold install_right. induction n as [|n [IHl IHn]].
  { split; [done|]. intros i Hi. simpl. rewrite decide_False; [done|]. intros [_ ?].
    pose proof (Z.div_pos i ps). lia. }
  replace (Z.of_nat (S n)) with (Z.of_nat n + 1) by lia. rewrite seqZ_app by lia.
  rewrite foldl_app. change (0 + Z.of_nat n) with (Z.of_nat n).
  rewrite (seqZ_cons (Z.of_nat n) 1), (seqZ_nil (Z.succ _)) by lia. cbn [foldl].
  split; [by rewrite lenZ_updZ|]. intros i Hi.
  pose proof (Z.div_mod i ps ltac:(lia)) as Hdm. pose proof (Z.mod_pos_bound i ps Hps) as Hmb.
  destruct (decide (Z.of_nat n * ps + off = i)) as [He|Hne].
  - rewrite He. rewrite nthZ_updZ_eq by lia. rewrite decide_True; [done|].
    assert (i / ps = Z.of_nat n) as ->; [|split; [|lia]].
    + symmetry. apply (Z.div_unique_pos _ _ _ off); lia.
    + symmetry. apply (Z.mod_unique_pos _ _ (Z.of_nat n)); lia.
  - rewrite nthZ_updZ_ne by done. rewrite IHn by done.
    apply decide_ext. split; [intros [? ?]; split; [done|lia]|]. intros [Ho Hd]. split; [done|].
    destruct (decide (i / ps = Z.of_nat n)) as [Hq|]; [|lia]. exfalso. apply Hne. rewrite <-Hq. lia.
Qed.

(** The table after the segment [sid] has been split into [l] and [u]. *)
Definition split_table (t : HashTable) (sid local pat : Z) (l u : HashSegment) : HashTable :=
  set_ht_dir (install_right (ht_dir t) (bit (local + 1)) (pat + bit local) (lenZ (ht_segs t))
                (Z.to_nat (bit (ht_depth t) / bit (local + 1))))
    (set_ht_segs (updZ (ht_segs t) sid l ++ [u]) t).

Section split.
Variables (t : HashTable) (sid local : Z) (s l u : HashSegment) (i : Z).
Let pat := i mod 2 ^ local.
Let t' := split_table t sid local pat l u.
Hypothesis Ht : ht_inv t.
Hypothesis He : entry t i sid s.
Hypothesis Hlo : 0 ≤ local < ht_depth t.
Hypothesis Hs : seg_inv pat local s.
Hypothesis Hil : seg_inv pat (local + 1) l.
Hypothesis Hiu : seg_inv (pat + 2 ^ local) (local + 1) u.

Lemma split_powers : 0 < 2 ^ local ∧ 2 ^ (local + 1) = 2 * 2 ^ local ∧ 0 ≤ pat < 2 ^ local ∧
  2 ^ ht_depth t = 2 ^ (local + 1) * 2 ^ (ht_depth t - (local + 1)) ∧ 0 < 2 ^ (ht_depth t - (local + 1)).
Proof.
  pose proof (pow_mono 0 local). assert (0 < 2 ^ local) by lia.
  pose proof (Z.mod_pos_bound i (2 ^ local) ltac:(lia)).
  assert (2 ^ (local + 1) = 2 * 2 ^ local) by (rewrite Z.pow_add_r by lia; lia).
  assert (0 < 2 ^ (ht_depth t - (local + 1))) by (apply Z.pow_pos_nonneg; lia).
  assert (2 ^ ht_depth t = 2 ^ (local + 1) * 2 ^ (ht_depth t - (local + 1))).
  { rewrite <-Z.pow_add_r by lia. f_equal. lia. }
  unfold pat. tauto.
Qed.

(** The entries of the split segment that get the right half. *)
Lemma split_mod j :
  j mod 2 ^ (local + 1) = pat + 2 ^ local ↔ j mod 2 ^ local = pat ∧ Z.testbit j local = true.
Proof.
  destruct split_powers as (Hp & Hp' & Hpat & _). rewrite mod_succ_pow by lia.
  pose proof (Z.mod_pos_bound j (2 ^ local) Hp). destruct (Z.testbit j local); split; try lia.
Qed.

Lemma split_dir j :
  0 ≤ j < 2 ^ ht_depth t →
  nthZ (ht_dir t') j =
    if decide (j mod 2 ^ local = pat ∧ Z.testbit j local = true) then Some (lenZ (ht_segs t))
    else nthZ (ht_dir t) j.
Proof.
  intros Hj. destruct split_powers as (Hp & Hp' & Hpat & HD & HD').
  subst t'. unfold split_table. cbn [ht_dir set_ht_dir]. rewrite !bit_pow by lia.
  destruct (install_right_spec (ht_dir t) (2 ^ (local + 1)) (pat + 2 ^ local) (lenZ (ht_segs t))
    (Z.to_nat (2 ^ ht_depth t / 2 ^ (local + 1)))) as [_ Hn]; [lia..|].
  rewrite Hn by (rewrite (hi_dir _ _ _ Ht); lia). apply decide_ext. rewrite split_mod.
  split; [tauto|]. intros Hx. split; [done|]. rewrite HD, (Z.mul_comm (2 ^ (local + 1))), Z.div_mul by lia.
  rewrite Z2Nat.id by lia. apply Z.div_lt_upper_bound; lia.
Qed.

Lemma split_segs sid' :
  nthZ (ht_segs t') sid' =
    if decide (sid' = lenZ (ht_segs t)) then Some u
    else if decide (sid' = sid) then Some l else nthZ (ht_segs t) sid'.
Proof.
  subst t'. unfold split_table. cbn [ht_segs set_ht_dir set_ht_segs].
  assert (0 ≤ sid < lenZ (ht_segs t)) as Hsid by (destruct He as [_ He2]; by apply nthZ_Some in He2).
  assert (lenZ (updZ (ht_segs t) sid l) = lenZ (ht_segs t)) as Hlen by apply lenZ_updZ.
  case_decide as Hr; [|case_decide as Hd].
  - subst sid'. rewrite <-Hlen. unfold nthZ, lenZ. rewrite (proj2 (Z.leb_le _ _)) by lia.
    by rewrite Nat2Z.id, lookup_app_r, Nat.sub_diag by lia.
  - subst sid'. rewrite <-(nthZ_updZ_eq (ht_segs t) sid l Hsid). unfold nthZ, lenZ in *.
    rewrite (proj2 (Z.leb_le _ _)) by lia. apply lookup_app_l. lia.
  - rewrite <-(nthZ_updZ_ne (ht_segs t) sid sid' l) by congruence. unfold nthZ, lenZ in *.
    destruct (Z.leb_spec 0 sid'); [|done]. destruct (decide (sid' < Z.of_nat (length (ht_segs t)))).
    + apply lookup_app_l. lia.
    + rewrite !lookup_ge_None_2; [done|lia|]. rewrite length_app. simpl. lia.
Qed.

(** The three kinds of entries after the split. *)
Lemma split_entry j sid' s' :
  0 ≤ j < 2 ^ ht_depth t →
  entry t' j sid' s' ↔
    if decide (j mod 2 ^ local = pat) then
      if Z.testbit j local then sid' = lenZ (ht_segs t) ∧ s' = u else sid' = sid ∧ s' = l
    else entry t j sid' s' ∧ sid' ≠ sid ∧ sid' ≠ lenZ (ht_segs t).
Proof.
  intros Hj. unfold entry. rewrite split_dir, split_segs by done.
  pose proof (hi_share _ _ _ Ht i j sid s local He Hs ltac:(lia) Hj) as Hsh. fold pat in Hsh.
  assert (sid ≠ lenZ (ht_segs t)) by (destruct He as [_ He2]; apply nthZ_Some in He2; lia).
  destruct (decide (j mod 2 ^ local = pat)) as [Hjp|Hjp].
  - apply Hsh in Hjp as Hd. destruct (Z.testbit j local).
    + rewrite decide_True by done. split.
      * intros [[= <-] Hsg]. rewrite decide_True in Hsg by done. naive_solver.
      * intros [-> ->]. by rewrite decide_True.
    + rewrite decide_False by naive_solver. rewrite Hd. split.
      * intros [[= <-] Hsg]. rewrite decide_False, decide_True in Hsg by done. naive_solver.
      * intros [-> ->]. by rewrite decide_False, decide_True.
  - rewrite decide_False by tauto. split.
    + intros [Hd Hsg].
      assert (sid' ≠ sid) by (intros ->; by apply Hjp, Hsh).
      assert (sid' ≠ lenZ (ht_segs t)).
      { destruct (hi_entry _ _ _ Ht j Hj) as (sid0 & s0 & _ & [Hd0 Hs0] & _). apply nthZ_Some in Hs0.
        rewrite Hd in Hd0. injection Hd0 as <-. lia. }
      rewrite !decide_False in Hsg by done. done.
    + intros ([Hd Hsg] & Hn1 & Hn2). by rewrite !decide_False by done.
Qed.

Lemma split_table_inv : ht_inv t'.
Proof.
  pose proof Ht as [Hd Hdir Hent Hsh]. destruct split_powers as (Hp & Hp' & Hpat & HD & HD').
  assert (sid ≠ lenZ (ht_segs t)) by (destruct He as [_ He2]; apply nthZ_Some in He2; lia).
  assert (∀ j, j mod 2 ^ local = pat → Z.testbit j local = false → j mod 2 ^ (local + 1) = pat) as Hlow.
  { intros j Hj Hb. rewrite mod_succ_pow, Hb by lia. lia. }
  constructor; [done| |intros j Hj|intros j j' sid' s' local' He' Hs' Hl' Hj'].
  - subst t'. unfold split_table. cbn [ht_dir set_ht_dir ht_depth set_ht_segs]. rewrite !bit_pow by lia.
    by destruct (install_right_spec (ht_dir t) (2 ^ (local + 1)) (pat + 2 ^ local) (lenZ (ht_segs t))
      (Z.to_nat (2 ^ ht_depth t / 2 ^ (local + 1)))) as [-> _]; [lia..|].
  - change (ht_depth t') with (ht_depth t) in *.
    setoid_rewrite (λ sid' s', split_entry j sid' s' Hj). case_decide as Hjp.
    + destruct (Z.testbit j local) eqn:Hb.
      * exists (lenZ (ht_segs t)), u, (local + 1). split; [done|]. split; [lia|].
        by rewrite (proj2 (split_mod j) (conj Hjp Hb)).
      * exists sid, l, (local + 1). split; [done|]. split; [lia|]. by rewrite (Hlow j Hjp Hb).
    + destruct (Hent j Hj) as (sid' & s' & l' & He' & Hl' & Hs'). exists sid', s', l'.
      split; [|done]. split; [done|]. pose proof He' as [Hd' Hsg']. apply nthZ_Some in Hsg'.
      split; [|lia]. intros ->. apply Hjp. fold pat in Hsh.
      by apply (Hsh i j sid s local He Hs ltac:(lia) Hj).
  - change (ht_depth t') with (ht_depth t) in *.
    assert (0 ≤ j < 2 ^ ht_depth t) as Hj.
    { destruct He' as [He' _]. apply nthZ_Some in He'. revert He'.
      subst t'. unfold split_table. cbn [ht_dir set_ht_dir ht_depth set_ht_segs]. rewrite !bit_pow by lia.
      by destruct (install_right_spec (ht_dir t) (2 ^ (local + 1)) (pat + 2 ^ local) (lenZ (ht_segs t))
        (Z.to_nat (2 ^ ht_depth t / 2 ^ (local + 1)))) as [-> _]; [lia..|rewrite Hdir]. }
    apply split_entry in He'; [|done]. rewrite split_dir by done.
    pose proof (Hsh i j' sid s local He Hs ltac:(lia) Hj') as Hshj. fold pat in Hshj.
    pose proof (Z.mod_pos_bound j' (2 ^ local) Hp) as Hb'.
    case_decide as Hjp.
    + destruct (Z.testbit j local) eqn:Hb; destruct He' as [-> ->].
      * assert (local' = local + 1) as -> by (by eapply seg_local).
        rewrite (proj2 (split_mod j) (conj Hjp Hb)), split_mod. case_decide as Hc; [tauto|].
        split; [|tauto]. intros Hd'.
        destruct (hi_entry _ _ _ Ht j' Hj') as (sid0 & s0 & _ & [Hd0 Hs0] & _). apply nthZ_Some in Hs0.
        rewrite Hd' in Hd0. injection Hd0 as <-. lia.
      * assert (local' = local + 1) as -> by (by eapply seg_local).
        rewrite (Hlow j Hjp Hb), mod_succ_pow by lia. case_decide as Hc.
        -- destruct Hc as [Hc1 Hc2]. rewrite Hc2. split; [intros [= ?]; congruence|lia].
        -- rewrite Hshj. destruct (Z.testbit j' local) eqn:Hb2; [|split; lia]. split; [tauto|lia].
    + destruct He' as (He' & Hn1 & Hn2). pose proof (Hsh j j' sid' s' local' He' Hs' Hl' Hj') as Hshj2.
      case_decide as Hc; [|done]. destruct Hc as [Hc1 Hc2]. split; [intros [= ?]; congruence|].
      intros Hm. apply Hshj2 in Hm. apply Hshj in Hc1. congruence.
Qed.

Lemma split_table_rel m :
  (∀ k p, (in_segment l k p ↔ in_segment s k p ∧ Z.testbit (hash_fn k) local = false) ∧
          (in_segment u k p ↔ in_segment s k p ∧ Z.testbit (hash_fn k) local = true)) →
  table_rel t m → table_rel t' m.
Proof.
  intros Hhalf Hm k p. rewrite (Hm k p). destruct split_powers as (Hp & Hp' & Hpat & HD & HD').
  change (ht_depth t') with (ht_depth t). unfold HashSpec.in_table.
  change (ht_depth t') with (ht_depth t).
  set (j := segment_index (hash_fn k) (ht_depth t)).
  assert (0 ≤ j < 2 ^ ht_depth t) as Hj.
  { unfold j. rewrite segment_index_mod by lia. apply Z.mod_pos_bound. lia. }
  assert (Z.testbit j local = Z.testbit (hash_fn k) local) as Hbit.
  { unfold j. rewrite segment_index_mod by lia. apply Z.mod_pow2_bits_low. lia. }
  setoid_rewrite (λ sid' s', split_entry j sid' s' Hj).
  pose proof (hi_share _ _ _ Ht i j sid s local He Hs ltac:(lia) Hj) as Hsh. fold pat in Hsh.
  assert (sid ≠ lenZ (ht_segs t)) by (destruct He as [_ He2]; apply nthZ_Some in He2; lia).
  destruct (decide (j mod 2 ^ local = pat)) as [Hjp|Hjp].
  - assert (entry t j sid s) as Hej by (split; [by apply Hsh|apply He]).
    assert ((∃ sid' s', entry t j sid' s' ∧ in_segment s' k p) ↔ in_segment s k p) as ->.
    { split; [|intros Hin; by exists sid, s]. intros (sid' & s' & He' & Hin).
      by destruct (entry_fun _ _ _ _ _ _ Hej He') as [_ ->]. }
    destruct (Hhalf k p) as [Hh1 Hh2]. rewrite <-Hbit in Hh1, Hh2. destruct (Z.testbit j local).
    + split; [intros Hin; exists (lenZ (ht_segs t)), u; split; [done|by apply Hh2]|].
      intros (sid' & s' & [-> ->] & Hin). by apply Hh2.
    + split; [intros Hin; exists sid, l; split; [done|by apply Hh1]|].
      intros (sid' & s' & [-> ->] & Hin). by apply Hh1.
  - split; [|intros (sid' & s' & (He' & _) & Hin); by exists sid', s'].
    intros (sid' & s' & He' & Hin). exists sid', s'. split; [|done]. split; [done|].
    destruct He' as [Hd' Hs']. apply nthZ_Some in Hs'. split; [|lia]. intros ->. by apply Hjp, Hsh.
Qed.
End split.

(** *** The operations *)

(** [split_segment] keeps the map; the segment of the key gets one bit deeper. *)
Lemma split_segment_ok t m key sid s local :
  let i := segment_index (hash_fn key) (ht_depth t) in
  ht_inv t → table_rel t m → entry t i sid s → 0 ≤ i < 2 ^ ht_depth t →
  0 ≤ local ≤ ht_depth t → local < 32 → seg_inv (i mod 2 ^ local) local s →
  ∃ t', split_segment cfg heap i (hash_fn key) local t = Ok tt t' ∧ ht_inv t' ∧ table_rel t' m ∧
    ∃ sid' s', entry t' (segment_index (hash_fn key) (ht_depth t')) sid' s' ∧
      seg_inv (segment_index (hash_fn key) (ht_depth t') mod 2 ^ (local + 1)) (local + 1) s'.
Proof.
  intros i Ht Hm He Hi Hl H32 Hs. pose proof (hi_depth _ _ _ Ht) as Hdep.
  destruct (seg_split_ok _ _ _ t Hs ltac:(lia)) as (l & u & Hsplit & Hil & Hiu & Hhalf).
  set (t1 := if local =? ht_depth t then double_directory t else t).
  assert (ht_inv t1 ∧ table_rel t1 m ∧ local < ht_depth t1 ∧ ht_segs t1 = ht_segs t ∧
    segment_index (hash_fn key) (ht_depth t1) mod 2 ^ local = i mod 2 ^ local ∧
    ht_depth t ≤ ht_depth t1) as (Ht1 & Hm1 & Hl1 & Hsegs & Hi1 & Hdep1).
  { unfold t1, i. destruct (Z.eqb_spec local (ht_depth t)) as [Heq|].
    - destruct (double_inv t m Ht Hm) as [? ?]; [lia|]. split_and!; try done; simpl; try lia.
      rewrite !segment_index_mod by lia. rewrite !mod_mod_pow by lia. done.
    - split_and!; try done; lia. }
  set (i1 := segment_index (hash_fn key) (ht_depth t1)) in *.
  assert (0 ≤ i1 < 2 ^ ht_depth t1) as Hir1.
  { unfold i1. rewrite segment_index_mod by lia. apply Z.mod_pos_bound.
    apply Z.pow_pos_nonneg; lia. }
  assert (entry t1 i1 sid s) as He1.
  { split; [|rewrite Hsegs; apply He]. unfold i1, t1. destruct (Z.eqb_spec local (ht_depth t)).
    - simpl. rewrite (nthZ_app_same _ (2 ^ ht_depth t)); [|apply (hi_dir _ _ _ Ht)|apply Z.pow_pos_nonneg; lia|].
      + rewrite !segment_index_mod by lia. rewrite mod_mod_pow by lia.
        rewrite <-segment_index_mod by lia. apply He.
      + rewrite segment_index_mod by lia. rewrite <-Z.pow_succ_r by lia. apply Z.mod_pos_bound.
        apply Z.pow_pos_nonneg; lia.
    - apply He. }
  rewrite <-Hi1 in Hs, Hil, Hiu.
  set (t' := split_table t1 sid local (i1 mod 2 ^ local) l u).
  assert (ht_inv t') as Ht' by (apply (split_table_inv t1 sid local s l u i1); (done || lia)).
  exists t'. split; [|split; [done|split; [by apply (split_table_rel t1 sid local s l u i1); (done || lia)|]]].
  - unfold split_segment, mget, mbind, M_bind. rewrite (dir_segment_ok t i sid s) by done.
    rewrite (segment_depth_ok _ _ _ t Hs). unfold massert. rewrite Z.eqb_refl.
    rewrite Hsplit, (segment_depth_ok _ _ _ t Hiu). rewrite Z.eqb_refl.
    assert (∀ x, (if local =? ht_depth (set_ht_segs x t) then double_directory (set_ht_segs x t)
             else set_ht_segs x t) = set_ht_segs x t1) as ->.
    { intros x. unfold t1. cbn [ht_depth set_ht_segs]. by destruct (local =? ht_depth t). }
    cbn [ht_depth set_ht_segs]. rewrite (proj2 (Z.ltb_lt _ _)) by done. unfold mmodify.
    subst t'. unfold split_table. rewrite Hsegs.
    assert (segment_index (hash_fn key) local = i1 mod 2 ^ local) as ->; [|done].
    rewrite Hi1. unfold i. by rewrite !segment_index_mod, mod_mod_pow by lia.
  - change (ht_depth t') with (ht_depth t1). fold i1.
    pose proof (λ a b, split_entry t1 sid local s l u i1 Ht1 He1 ltac:(lia) Hs Hil Hiu i1 a b Hir1) as Hent.
    destruct (Z.testbit i1 local) eqn:Hb.
    + exists (lenZ (ht_segs t1)), u. split; [|by rewrite mod_succ_pow, Hb by lia].
      apply Hent. by rewrite decide_True.
    + exists sid, l. split; [|rewrite mod_succ_pow, Hb by lia; by rewrite Z.add_0_r].
      apply Hent. by rewrite decide_True.
Qed.

(** A full bucket has as many different keys as slots. *)
Lemma full_bucket_keys b (n : nat) :
  wf_bucket cfg heap b → (∀ i, 0 ≤ i < Z.of_nat n → Z.testbit (bk_bitmap b) i = true) →
  ∃ l : list K, length l = n ∧ NoDup l ∧ (∀ k, k ∈ l → ∃ p, in_bucket heap b k p) ∧
    ∀ k, k ∈ l → ∃ i p r, 0 ≤ i < Z.of_nat n ∧ slot_of heap b i p r ∧ kv_key r = k.
Proof.
  intros Hb. induction n as [|n IH]; intros Hbits.
  { exists []. split_and!; [done|constructor|set_solver|set_solver]. }
  destruct IH as (l & Hlen & Hnd & Hin & Hsl); [intros i Hi; apply Hbits; lia|].
  destruct (wb_slot _ _ _ Hb (Z.of_nat n)) as (p & r & Hs); [apply Hbits; lia|].
  exists (kv_key r :: l). split_and!; [simpl; lia| | |].
  - constructor; [|done]. intros (i & p' & r' & Hi & Hs' & Hk)%Hsl.
    pose proof (wb_inj _ _ _ Hb i (Z.of_nat n) p' p r' r Hs' Hs Hk). lia.
  - intros k [->|Hk]%elem_of_cons; [exists p; by exists (Z.of_nat n), r|by apply Hin].
  - intros k [->|Hk]%elem_of_cons; [exists (Z.of_nat n), p, r; split_and!; [lia|lia|done|done]|].
    destruct (Hsl k Hk) as (i & p' & r' & Hi & ?). exists i, p', r'. split; [lia|done].
Qed.

Lemma upsert_loop_ok fuel t m kv (r : KVPair K) :
  ht_inv t → table_rel t m → heap !! kv = Some r → 2 < kv < 2 ^ 48 →
  few_collisions cfg m (kv_key r) →
  (∀ sid s local, let i := segment_index (hash_fn (kv_key r)) (ht_depth t) in
     entry t i sid s → 0 ≤ local → seg_inv (i mod 2 ^ local) local s → 33 - local ≤ Z.of_nat fuel) →
  (0 < fuel)%nat →
  ∃ t' m' q, upsert_loop cfg heap fuel kv (hash_fn (kv_key r)) t = Ok q t' ∧
    ht_inv t' ∧ table_rel t' m' ∧ map_upsert cfg heap m (kv_key r) kv m' q.
Proof.
  revert t. induction fuel as [|fuel IH]; intros t Ht Hm Hh Hkv Hfew Hfuel Hpos; [lia|].
  set (key := kv_key r) in *. pose proof (hi_depth _ _ _ Ht) as Hdep.
  destruct (inv_lookup t key Ht) as (sid & s & local & b & He & Hi & Hl & Hs & Hpat & Hb).
  specialize (Hfuel sid s local He ltac:(lia) Hs).
  pose proof Hs as [Hls Hbs]. destruct (Hbs _ b Hb) as (Hwf & Hbd & Hbi & Hbk).
  assert (∀ p, m !! key = Some p ↔ in_bucket heap b key p) as Hrel.
  { intros p. rewrite (Hm key p), (in_table_entry t key p sid s) by done. by apply in_segment_bucket. }
  destruct (bucket_upsert_ok cfg Hcfg heap b kv r t Hwf Hh Hkv) as (b' & q & Hup & Hcases); [done|]. fold key in Hup, Hcases.
  cbn [upsert_loop]. unfold mget, mbind at 1, M_bind at 1. unfold mbind at 1, M_bind at 1.
  rewrite (dir_segment_ok t _ sid s) by done. unfold mbind at 1, M_bind at 1.
  rewrite (segment_bucket_ok s key b) by done. unfold mbind at 1, M_bind at 1. rewrite Hup.
  assert (∀ p q0, in_bucket heap b key p → m !! key = Some q0 → q0 = p) as Huniq.
  { intros p q0 Hp Hq. apply Hrel in Hp. congruence. }
  assert (∀ p, in_bucket heap b key p → 2 < p) as Hptr.
  { intros p (j & r' & (_ & _ & _ & _ & ?) & _). lia. }
  destruct Hcases as [(-> & -> & Hno & Hfull)|[(-> & Hno & Hput)|[(-> & -> & p & Hp & Hold)|(Hput & Hq & Hold)]]].
  - change (negb (kNoSpace =? kNoSpace)) with false. cbn [negb]. rewrite Hbd.
    unfold massert, mbind at 1, M_bind at 1. rewrite (proj2 (Z.leb_le _ _)) by lia.
    assert (local < 32) as H32.
    { destruct (decide (local < 32)) as [|Hge]; [done|]. exfalso.
      pose proof (cfg_slots cfg Hcfg).
      destruct (full_bucket_keys b (Z.to_nat (kNSlotInBucket cfg)) Hwf) as (l & Hlen & Hnd & Hin & _).
      { intros j Hj. apply Hfull. lia. }
      assert (lenZ l < kNSlotInBucket cfg); [|unfold lenZ in *; lia].
      apply Hfew; [done|]. intros k Hk. destruct (Hin k Hk) as [p Hp].
      destruct (Hbk k p Hp) as [Hk1 Hk2]. assert (local = 32) as He32 by lia.
      split; [|split; [done|]].
      - exists p. apply Hm. apply (in_table_entry t k p sid s).
        + rewrite He32 in *. assert (ht_depth t = 32) as Hd32 by lia.
          unfold entry in *. rewrite Hd32 in *. rewrite segment_index_mod in * by lia.
          rewrite Hk2, Hpat. apply He.
        + exists b. by rewrite Hk1.
      - rewrite He32 in *. congruence. }
    destruct (split_segment_ok t m key sid s local) as (t' & Hsp & Ht' & Hm' & sid' & s' & He' & Hs');
      try done.
    unfold mbind at 1, M_bind at 1. rewrite Hsp. apply IH; try done; [|lia].
    intros sid0 s0 local0 i0 He0 Hl0 Hs0. destruct (entry_fun _ _ _ _ _ _ He0 He') as [-> ->].
    assert (local0 = local + 1) as -> by (by eapply seg_local). lia.
  - destruct (put_bucket_ok t m sid s local b b' kv r) as [Ht' Hm']; try done.
    eexists _, _, _. split; [reflexivity|]. split; [done|]. split; [done|].
    unfold map_upsert. destruct (m !! key) as [p|] eqn:E; [|done].
    exfalso. apply (Hno p). by apply Hrel.
  - eexists _, m, _. split; [reflexivity|]. fold key in Hb.
    assert (put_segment sid (updZ s (bidx key) b) t = t) as ->.
    { unfold put_segment. rewrite (updZ_id s (bidx key) b) by done. rewrite updZ_id by apply He.
      by destruct t. }
    split; [done|]. split; [done|]. unfold map_upsert. rewrite (proj2 (Hrel p) Hp). by left.
  - assert (q ≠ kNoSpace) by (specialize (Hptr q Hq); unfold kNoSpace; lia).
    rewrite (proj2 (Z.eqb_neq _ _)) by done. cbn [negb].
    destruct (put_bucket_ok t m sid s local b b' kv r) as [Ht' Hm']; try done.
    eexists _, _, _. split; [reflexivity|]. split; [done|]. split; [done|].
    unfold map_upsert. fold key in Hq. rewrite (proj2 (Hrel q) Hq). by right.
Qed.

Lemma table_upsert_ok t m kv (r : KVPair K) :
  ht_inv t → table_rel t m → heap !! kv = Some r → 2 < kv < 2 ^ 48 →
  few_collisions cfg m (kv_key r) →
  ∃ t' m' q, HashTable_upsert cfg heap kv (hash_fn (kv_key r)) t = Ok q t' ∧
    ht_inv t' ∧ table_rel t' m' ∧ map_upsert cfg heap m (kv_key r) kv m' q.
Proof.
  intros Ht Hm Hh Hkv Hfew. unfold HashTable_upsert, mbind at 1, M_bind at 1.
  rewrite (check_kv_ok heap kv r) by (done || lia).
  apply upsert_loop_ok; try done; unfold upsert_fuel; try lia.
Qed.

Lemma table_update_ok t m kv (r : KVPair K) :
  ht_inv t → table_rel t m → heap !! kv = Some r → 2 < kv < 2 ^ 48 →
  ∃ t' m' q, HashTable_update cfg heap kv (hash_fn (kv_key r)) t = Ok q t' ∧
    ht_inv t' ∧ table_rel t' m' ∧ map_update cfg heap m (kv_key r) kv m' q.
Proof.
  intros Ht Hm Hh Hkv. set (key := kv_key r).
  destruct (inv_lookup t key Ht) as (sid & s & local & b & He & Hi & Hl & Hs & Hpat & Hb).
  pose proof Hs as [Hls Hbs]. destruct (Hbs _ b Hb) as (Hwf & _ & Hbi & Hbk).
  assert (∀ p, m !! key = Some p ↔ in_bucket heap b key p) as Hrel.
  { intros p. rewrite (Hm key p), (in_table_entry t key p sid s) by done. by apply in_segment_bucket. }
  destruct (bucket_update_ok cfg Hcfg heap b kv r t Hwf Hh Hkv) as (b' & q & Hup & Hcases); [done|].
  fold key in Hup, Hcases. unfold HashTable_update, mbind at 1, M_bind at 1.
  rewrite (check_kv_ok heap kv r) by (done || lia). fold key.
  unfold locate_bucket, mget, mbind, M_bind. rewrite (dir_segment_ok t _ sid s) by done.
  rewrite (segment_bucket_ok s key b) by done. cbn [mret M_ret]. unfold mret at 1, M_ret at 1.
  rewrite Hup. unfold mmodify.
  assert (put_segment sid (updZ s (bidx key) b) t = t) as Hid.
  { unfold put_segment. rewrite (updZ_id s (bidx key) b) by done. rewrite updZ_id by apply He.
    by destruct t. }
  destruct Hcases as [(-> & -> & Hno)|[(-> & -> & p & Hp & Hold)|(Hput & Hq & Hold)]].
  - exists t, m, kNotFound. rewrite Hid. split; [done|]. split; [done|]. split; [done|].
    unfold map_update. destruct (m !! key) as [p|] eqn:E; [|done].
    exfalso. apply (Hno p). by apply Hrel.
  - exists t, m, kExpired. rewrite Hid. split; [done|]. split; [done|]. split; [done|].
    unfold map_update. rewrite (proj2 (Hrel p) Hp). by left.
  - destruct (put_bucket_ok t m sid s local b b' kv r) as [Ht' Hm']; try done.
    eexists _, _, q. split; [reflexivity|]. split; [done|]. split; [done|].
    unfold map_update. rewrite (proj2 (Hrel q) Hq). by right.
Qed.

(** *** A new table *)

Lemma new_segment_inv pat local : 0 ≤ local < 256 → seg_inv pat local (HashSegment_new cfg local).
Proof.
  intros Hlo. pose proof cfg_buckets as Hn. pose proof (cfg_slots cfg Hcfg) as Hsl. split.
  { unfold HashSegment_new, lenZ. rewrite length_fmap, length_seqZ. lia. }
  intros j b Hj. apply nthZ_Some in Hj as Hjr. unfold HashSegment_new, nthZ in Hj.
  rewrite (proj2 (Z.leb_le _ _)) in Hj by lia.
  rewrite list_lookup_fmap in Hj. apply fmap_Some in Hj as (x & Hx & ->).
  apply lookup_seqZ in Hx as [-> Hx].
  assert (∀ i p r, ¬ slot_of heap {| bk_bitmap := 0; bk_depth := u8 local;
      bk_index := u8 (0 + Z.of_nat (Z.to_nat j)); bk_tags := bk_tags (HashBucket_new cfg);
      bk_kvs := bk_kvs (HashBucket_new cfg) |} i p r) as Hno.
  { intros i p r (Hbit & _). simpl in Hbit. by rewrite Z.bits_0 in Hbit. }
  split_and!.
  - constructor; simpl.
    + split; [lia|]. apply Z.pow_pos_nonneg; lia.
    + rewrite lenZ_replicate. lia.
    + rewrite lenZ_replicate. lia.
    + intros i. by rewrite Z.bits_0.
    + intros i j' p q r r' Hs. by apply Hno in Hs.
  - simpl. apply Z.mod_small. lia.
  - simpl. rewrite Z2Nat.id by lia. apply Z.mod_small. lia.
  - intros k p (i & r & Hs & _). by apply Hno in Hs.
Qed.

Lemma table_new_ok {S} global local (st : S) :
  0 ≤ local ≤ global → global ≤ 32 →
  ∃ t, HashTable_new cfg global local st = Ok t st ∧ ht_inv t ∧ table_rel t ∅ ∧ ht_depth t = global.
Proof.
  intros Hl Hg. pose proof (pow_mono local global Hl) as Hp.
  unfold HashTable_new, massert, mbind, M_bind.
  rewrite (proj2 (Z.leb_le local global)), (proj2 (Z.leb_le global 32)) by lia.
  eexists. split; [reflexivity|]. rewrite !bit_pow by lia.
  set (dir := _ <$> _). set (t := Build_HashTable _ _ _ _).
  assert (∀ j, 0 ≤ j < 2 ^ global → nthZ dir j = Some (j mod 2 ^ local)) as Hdir.
  { intros j Hj. unfold dir, nthZ. rewrite (proj2 (Z.leb_le _ _)) by lia.
    rewrite list_lookup_fmap, lookup_seqZ_lt by lia. simpl. rewrite Z2Nat.id by lia.
    rewrite Z.add_0_l. destruct (Z.ltb_spec j (2 ^ local)); [|done]. by rewrite Z.mod_small by lia. }
  assert (∀ sid s, nthZ (ht_segs t) sid = Some s → s = HashSegment_new cfg local) as Hseg.
  { intros sid s Hs. simpl in Hs. unfold nthZ in Hs. destruct (0 <=? sid); [|done].
    by apply lookup_replicate in Hs as [-> _]. }
  assert (lenZ dir = 2 ^ global) as Hlen.
  { unfold dir, lenZ. rewrite length_fmap, length_seqZ. lia. }
  assert (∀ j, 0 ≤ j < 2 ^ global → entry t j (j mod 2 ^ local) (HashSegment_new cfg local)) as Hent.
  { intros j Hj. split; [by apply Hdir|]. simpl. apply nthZ_replicate.
    pose proof (Z.mod_pos_bound j (2 ^ local)). lia. }
  split; [|split; [|done]].
  - constructor; [simpl; lia|done|..].
    + intros j Hj. exists (j mod 2 ^ local), (HashSegment_new cfg local), local.
      split; [by apply Hent|]. split; [simpl; lia|]. apply new_segment_inv. lia.
    + intros i j sid s local' [He1 He2] Hs _ Hj. simpl in He1, Hj. apply nthZ_Some in He1 as Hi.
      rewrite Hlen in Hi. rewrite Hdir in He1 by done. injection He1 as <-.
      apply Hseg in He2 as ->.
      assert (local' = local) as ->.
      { eapply seg_local; [done|]. apply (new_segment_inv 0). lia. }
      simpl. rewrite Hdir by done. split; [intros Heq; by injection Heq|intros Heq; by rewrite Heq].
  - intros k p. rewrite lookup_empty. split; [done|]. intros (sid & s & [_ Hs] & b & Hb & Hin).
    apply Hseg in Hs as ->. destruct (new_segment_inv 0 local ltac:(lia)) as [_ Hbs].
    destruct Hin as (i & r & (Hbit & _) & _). unfold HashSegment_new, nthZ in Hb.
    destruct (0 <=? _); [|done]. rewrite list_lookup_fmap in Hb. apply fmap_Some in Hb as (x & _ & ->).
    simpl in Hbit. by rewrite Z.bits_0 in Hbit.
Qed.
End lemmas.

(** *** Records outside the table

    The table depends on the records that its slots refer to, and on no other. *)

Section frame.
Context `{UtilSpec} `{DenseSpec} `{SimdSpec} {K : Type} `{EqDecision K} `{Countable K} `{HashFnSpec K}.
Variable cfg : HashConfig.
Hypothesis Hcfg : wf_config cfg.
Variables heap heap' : gmap Z (KVPair K).
Implicit Types (t : HashTable) (s : HashSegment) (b : HashBucket) (k : K) (p q : Z) (m : gmap K Z).

(** The two heaps have the same records in the slots of the bucket. *)
Definition same_slots b : Prop := ∀ i p r, slot_of heap' b i p r ↔ slot_of heap b i p r.

Lemma same_slots_intro b :
  wf_bucket cfg heap b → (∀ k p, in_bucket heap b k p → heap' !! p = heap !! p) → same_slots b.
Proof.
  intros Hb He i p r. split.
  - intros (Hi & Hk & Htag & Hh & Hp). destruct (wb_slot _ _ _ Hb i Hi) as (q & o & Hq).
    pose proof Hq as (_ & Hk' & _ & _ & Hqr). rewrite Hk in Hk'. injection Hk' as Hd. apply (f_equal dense_pointer) in Hd.
    rewrite !dense_pointer_mk in Hd by (lia || apply slot_tag_range). subst q.
    rewrite (He (kv_key o) p) in Hh by (by exists i, o). by split.
  - intros Hs. pose proof Hs as (Hi & Hk & Htag & Hh & Hp).
    rewrite <-(He (kv_key r) p) in Hh by (by exists i, r). by split.
Qed.

Lemma same_in_bucket b k p : same_slots b → in_bucket heap' b k p ↔ in_bucket heap b k p.
Proof. unfold same_slots. intros Hs. unfold in_bucket. by setoid_rewrite Hs. Qed.

Lemma same_wf_bucket b : same_slots b → wf_bucket cfg heap b → wf_bucket cfg heap' b.
Proof.
  intros Hs [h1 h2 h3 h4 h5]. constructor; [done|done|done| |].
  - intros i Hi. destruct (h4 i Hi) as (p & r & Hp). exists p, r. by apply Hs.
  - intros i j p q r r' Hp Hq. apply Hs in Hp, Hq. by apply (h5 i j p q).
Qed.

Lemma same_seg_inv pat local s :
  (∀ j b, nthZ s j = Some b → same_slots b) → seg_inv cfg heap pat local s → seg_inv cfg heap' pat local s.
Proof.
  intros Hs [Hl Hb]. split; [done|]. intros j b Hj. destruct (Hb j b Hj) as (Hw & Hd & Hi & Hk).
  split; [by apply same_wf_bucket; [eapply Hs|]|]. split; [done|]. split; [done|].
  intros k p Hp. apply (Hk k p). by apply (same_in_bucket b k p (Hs j b Hj)).
Qed.
End frame.

Lemma same_slots_sym `{Dense} {K : Type} `{HashFn K} (heap heap' : gmap Z (KVPair K)) b :
  same_slots heap heap' b → same_slots heap' heap b.
Proof. intros Hs i p r. symmetry. apply Hs. Qed.

Lemma table_frame `{UtilSpec} `{DenseSpec} `{SimdSpec} {K : Type} `{EqDecision K} `{Countable K} `{HashFnSpec K}
    (cfg : HashConfig) (heap heap' : gmap Z (KVPair K)) (t : HashTable) (m : gmap K Z) :
  ht_inv cfg heap t → table_rel cfg heap t m → (∀ k p, m !! k = Some p → heap' !! p = heap !! p) →
  ht_inv cfg heap' t ∧ table_rel cfg heap' t m.
Proof.
  intros Ht Hm He. pose proof (hi_depth _ _ _ Ht) as Hd.
  assert (∀ i sid s j b, 0 ≤ i < 2 ^ ht_depth t → entry t i sid s → nthZ s j = Some b → same_slots heap heap' b) as Hs.
  { intros i sid s j b Hi Hen Hj. destruct (hi_entry _ _ _ Ht i Hi) as (sid' & s' & local & Hen' & Hl & Hseg).
    destruct (entry_fun t i sid s sid' s' Hen Hen') as [<- <-]. destruct Hseg as [Hlen Hb].
    destruct (Hb j b Hj) as (Hw & _ & _ & Hk). apply (same_slots_intro cfg); [done|]. intros k p Hin.
    destruct (Hk k p Hin) as [Hkj Hkl]. apply (He k), Hm. exists sid, s. split; [|by exists b; rewrite Hkj].
    split; [|apply Hen]. rewrite segment_index_mod by lia.
    apply (hi_share _ _ _ Ht i _ sid s local); [done|by split|lia|apply Z.mod_pos_bound; lia|].
    by rewrite mod_mod_pow by lia. }
  assert (∀ i sid s, entry t i sid s → 0 ≤ i < 2 ^ ht_depth t) as Hrange.
  { intros i sid s [Hi _]. rewrite <-(hi_dir _ _ _ Ht). by eapply nthZ_Some. }
  split.
  - constructor; [done|apply Ht| |].
    + intros i Hi. destruct (hi_entry _ _ _ Ht i Hi) as (sid & s & local & Hen & Hl & Hseg).
      exists sid, s, local. split; [done|]. split; [done|]. apply (same_seg_inv cfg heap); [|done].
      intros j b. by apply (Hs i sid s).
    + intros i j sid s local Hen Hseg. apply (hi_share _ _ _ Ht i j sid s local Hen).
      apply (same_seg_inv cfg heap' heap); [|done]. intros n b Hn. apply same_slots_sym, (Hs i sid s n); [|done|done].
      by apply (Hrange i sid s).
  - intros k p. rewrite (Hm k p). unfold in_table, in_segment.
    split; intros (sid & s & Hen & b & Hb & Hin); exists sid, s; (split; [done|]); exists b; (split; [done|]);
      apply (same_in_bucket heap heap' b k p); try done; by apply (Hs _ sid s _ b (Hrange _ _ _ Hen) Hen Hb).
Qed.

(** ** Concrete tables *)

(** Integer keys that are their own hash code. *)
#[export] Instance Z_hash : HashFn Z := λ k, wrap 64 k.
#[export] Instance Z_hash_spec : HashFnSpec Z.
Proof. intros k. apply Z.mod_pos_bound. lia. Qed.

Definition small_config : HashConfig := {|
  kOptUpdate := true; kTimeStamp := true; kNSlotInBucket := 16; kNBucketInSegment := 2;
  kInitDepth := 1 |}.
Lemma small_config_wf : wf_config small_config.
Proof. split; simpl; lia. Qed.

Definition example_kv (key version : Z) : KVPair Z := Build_KVPair version key 0 [].
Definition example_heap : gmap Z (KVPair Z) :=
  <[100 := example_kv 5 0]> (<[200 := example_kv 5 1]> ∅).
Definition example_table : HashTable :=
  match HashTable_new (S := unit) small_config 1 0 tt with
  | Ok t _ => t
  | Err _ => Build_HashTable _ [] 0 []
  end.

Lemma example_table_ok heap :
  ht_inv small_config heap example_table ∧ table_rel small_config heap example_table (∅ : gmap Z Z).
Proof.
  destruct (table_new_ok (K := Z) small_config small_config_wf heap 1 0 tt) as (t & Ht & Hi & Hr & _);
    [lia|lia|]. unfold example_table. by rewrite Ht.
Qed.

Lemma no_collisions (key : Z) : few_collisions small_config (∅ : gmap Z Z) key.
Proof.
  intros [|k l] _ Hl; [done|]. destruct (Hl k) as [[p Hp] _]; [set_solver|]. by rewrite lookup_empty in Hp.
Qed.

(** Storing the keys [0 .. n-1] at the addresses [1000 + k] one after the other. *)
Definition fill_heap (n : Z) : gmap Z (KVPair Z) :=
  list_to_map ((λ k, (1000 + k, example_kv k 1)) <$> seqZ 0 n).
Definition fill_table (n : Z) : res HashTable unit :=
  mforeach (seqZ 0 n) (λ k, HashTable_upsert small_config (fill_heap n) (1000 + k) k ;; mret tt) example_table.

(** Forty keys in buckets of 16 slots: the table splits, and finds every key. *)
Example fill_splits :
  match fill_table 40 with
  | Ok _ t =>
      ht_depth t = 2 ∧
      forallb (λ k, match HashTable_lookup small_config (fill_heap 40) k k t with
                    | Ok q _ => q =? (if k <? 40 then 1000 + k else kNotFound)
                    | Err _ => false end) (seqZ 0 60) = true
  | Err _ => False
  end.
Proof. vm_compute. split; reflexivity. Qed.

(** ** Properties *)

(** C30: [lookup] returns the record of the key in the map that the table
    represents, and [kNotFound] for the other keys; the table is unchanged. *)
Theorem lookup_correct `{UtilSpec} `{DenseSpec} `{SimdSpec} {K : Type} `{Countable K}
    `{!HashFn K} `{!HashFnSpec K} (cfg : HashConfig) (heap : gmap Z (KVPair K)) t
    (m : gmap K Z) key :
  wf_config cfg → ht_inv cfg heap t → table_rel cfg heap t m →
  HashTable_lookup cfg heap key (hash_code key) t = Ok (default kNotFound (m !! key)) t.
Proof. intros Hc Ht Hm. by apply table_lookup_ok. Qed.

Lemma lookup_correct_witness :
  HashTable_lookup small_config example_heap 5 (hash_code 5) example_table =
    Ok (default kNotFound ((∅ : gmap Z Z) !! 5)) example_table.
Proof.
  apply (lookup_correct small_config example_heap example_table ∅ 5);
    [apply small_config_wf|apply example_table_ok|apply example_table_ok].
Defined.

(** C13: [upsert] inserts the record in the map, or replaces the record of its key
    and returns the old one, or - with timestamps - leaves a record that is not
    older in place and answers [kExpired].  The splits of full segments and the
    doublings of the directory on the way keep the map; they end, so the
    operation returns, as long as fewer keys than a bucket has slots share the
    bucket index and the low 32 bits of the hash code. *)
Theorem upsert_correct `{UtilSpec} `{DenseSpec} `{SimdSpec} {K : Type} `{Countable K}
    `{!HashFn K} `{!HashFnSpec K} (cfg : HashConfig) (heap : gmap Z (KVPair K)) t
    (m : gmap K Z) kv (r : KVPair K) :
  wf_config cfg → ht_inv cfg heap t → table_rel cfg heap t m →
  heap !! kv = Some r → 2 < kv < 2 ^ 48 → few_collisions cfg m (kv_key r) →
  ∃ t' m' q, HashTable_upsert cfg heap kv (hash_code (kv_key r)) t = Ok q t' ∧
    ht_inv cfg heap t' ∧ table_rel cfg heap t' m' ∧ map_upsert cfg heap m (kv_key r) kv m' q.
Proof. intros Hc Ht Hm Hh Hkv Hf. by apply table_upsert_ok. Qed.

Lemma upsert_correct_witness :
  ∃ t' m' q, HashTable_upsert small_config example_heap 100 (hash_code 5) example_table = Ok q t' ∧
    ht_inv small_config example_heap t' ∧ table_rel small_config example_heap t' m' ∧
    map_upsert small_config example_heap (∅ : gmap Z Z) 5 100 m' q.
Proof.
  apply (upsert_correct small_config example_heap example_table ∅ 100 (example_kv 5 0));
    [apply small_config_wf|apply example_table_ok|apply example_table_ok|reflexivity|lia|
     apply no_collisions].
Defined.

(** C31: [update] replaces the record of a key that is there - unless the record
    there is not older - and never inserts. *)
Theorem update_correct `{UtilSpec} `{DenseSpec} `{SimdSpec} {K : Type} `{Countable K}
    `{!HashFn K} `{!HashFnSpec K} (cfg : HashConfig) (heap : gmap Z (KVPair K)) t
    (m : gmap K Z) kv (r : KVPair K) :
  wf_config cfg → ht_inv cfg heap t → table_rel cfg heap t m →
  heap !! kv = Some r → 2 < kv < 2 ^ 48 →
  ∃ t' m' q, HashTable_update cfg heap kv (hash_code (kv_key r)) t = Ok q t' ∧
    ht_inv cfg heap t' ∧ table_rel cfg heap t' m' ∧ map_update cfg heap m (kv_key r) kv m' q.
Proof. intros Hc Ht Hm Hh Hkv. by apply table_update_ok. Qed.

Lemma update_correct_witness :
  ∃ t' m' q, HashTable_update small_config example_heap 200 (hash_code 5) example_table = Ok q t' ∧
    ht_inv small_config example_heap t' ∧ table_rel small_config example_heap t' m' ∧
    map_update small_config example_heap (∅ : gmap Z Z) 5 200 m' q.
Proof.
  apply (update_correct small_config example_heap example_table ∅ 200 (example_kv 5 1));
    [apply small_config_wf|apply example_table_ok|apply example_table_ok|reflexivity|lia].
Defined.

(** The constructor builds an empty table: its directory shares the [2^local]
    segments as the invariant requires. *)
Lemma new_table_correct `{UtilSpec} `{DenseSpec} `{SimdSpec} {K : Type} `{Countable K}
    `{!HashFn K} `{!HashFnSpec K} (cfg : HashConfig) (heap : gmap Z (KVPair K)) global local {S : Type}
    (st : S) :
  wf_config cfg → 0 ≤ local ≤ global → global ≤ 32 →
  ∃ t, HashTable_new cfg global local st = Ok t st ∧ ht_inv cfg heap t ∧
    table_rel cfg heap t (∅ : gmap K Z) ∧ directory_size t = 2 ^ global.
Proof.
  intros Hc Hl Hg. destruct (table_new_ok cfg Hc heap global local st Hl Hg) as (t & Ht & Hi & Hr & Hd).
  exists t. split_and!; try done. unfold directory_size. rewrite Hd. apply bit_pow. lia.
Qed.

Lemma new_table_correct_witness :
  ∃ t, HashTable_new small_config 2 1 tt = Ok t tt ∧ ht_inv small_config example_heap t ∧
    table_rel small_config example_heap t (∅ : gmap Z Z) ∧ directory_size t = 2 ^ 2.
Proof.
  apply (new_table_correct small_config example_heap 2 1 tt); [apply small_config_wf|lia|lia].
Defined.
