(* ===== verification/TableSize.v ===== *)
(** * The size of the hash table

    [HashTable::size] adds up the population counts of the bitmaps of all buckets
    of all segments that the directory mentions.  This is the number of keys of
    the map that the table represents: every key has one slot, in one bucket of
    one segment, also when many entries of the directory share the segment. *)

From S2P Require Export HashSpec.

(** ** Definitions *)

Section keys.
Context `{Dense} {K : Type}.
Variable heap : gmap Z (KVPair K).

Definition slot_key (b : HashBucket) (i : Z) : option K :=
  match nthZ (bk_kvs b) i with
  | Some kv => kv_key <$> heap !! dense_pointer kv
  | None => None
  end.
Definition bucket_keys (b : HashBucket) : list K := omap (slot_key b) (bits_of (bk_bitmap b)).
Definition segment_keys (s : HashSegment) : list K := mbind (M := list) bucket_keys s.
Definition entry_keys (t : HashTable) (sid : Z) : list K :=
  match nthZ (ht_segs t) sid with Some s => segment_keys s | None => [] end.
Definition table_keys (t : HashTable) : list K := mbind (M := list) (entry_keys t) (elements (live_segments t)).
End keys.

(** ** Lemmas *)

Lemma NoDup_omap {A B} (u : A → option B) (l : list A) :
  (∀ x y z, x ∈ l → y ∈ l → u x = Some z → u y = Some z → x = y) → NoDup l → NoDup (omap u l).
Proof.
  intros Hu Hnd. induction Hnd as [|x l Hx Hnd IH]; [apply NoDup_nil_2|]. simpl.
  assert (NoDup (omap u l)) as Hl by (apply IH; intros a b z Ha Hb; apply Hu; by right).
  destruct (u x) as [z|] eqn:E; [|done]. apply NoDup_cons. split; [|done].
  intros (y & Hy & Ey)%list_elem_of_omap. apply Hx. rewrite (Hu x y z); [done|by left|by right|done|done].
Qed.

Lemma length_omap_all {A B} (u : A → option B) (l : list A) :
  (∀ x, x ∈ l → is_Some (u x)) → length (omap u l) = length l.
Proof.
  intros Hu. induction l as [|x l IH]; [done|]. simpl. destruct (Hu x) as [z Ez]; [by left|]. rewrite Ez. simpl.
  f_equal. apply IH. intros y Hy. apply Hu. by right.
Qed.

Lemma nthZ_nat {A} (l : list A) (n : nat) : nthZ l (Z.of_nat n) = l !! n.
Proof. unfold nthZ. rewrite (proj2 (Z.leb_le _ _)) by lia. by rewrite Nat2Z.id. Qed.

Lemma NoDup_bits_of w : NoDup (bits_of w).
Proof. apply NoDup_filter, NoDup_seqZ. Qed.

Section lemmas.
Context `{UtilSpec} `{DenseSpec} `{SimdSpec} {K : Type} `{Countable K} `{HashFnSpec K}.
Variable cfg : HashConfig.
Hypothesis Hcfg : wf_config cfg.
Variable heap : gmap Z (KVPair K).
Implicit Types (t : HashTable) (s : HashSegment) (b : HashBucket) (k key : K) (p q : Z) (m : gmap K Z).

Abbreviation wf_bucket := (wf_bucket cfg heap).
Abbreviation in_bucket := (in_bucket heap).
Abbreviation slot_of := (slot_of heap).
Abbreviation seg_inv := (seg_inv cfg heap).
Abbreviation ht_inv := (ht_inv cfg heap).
Abbreviation table_rel := (table_rel cfg heap).

(** *** A bucket *)

Lemma slot_key_slot b i p r : slot_of b i p r → slot_key heap b i = Some (kv_key r).
Proof.
  intros (_ & Hk & _ & Hh & Hp). unfold slot_key. rewrite Hk.
  rewrite dense_pointer_mk by (lia || apply slot_tag_range). by rewrite Hh.
Qed.

Lemma bit_slot b i : wf_bucket b → i ∈ bits_of (bk_bitmap b) → ∃ p r, slot_of b i p r.
Proof. intros Hb (_ & Hi)%elem_of_bits_of. by apply (wb_slot _ _ _ Hb). Qed.

Lemma elem_of_bucket_keys b k : wf_bucket b → k ∈ bucket_keys heap b ↔ ∃ p, in_bucket b k p.
Proof.
  intros Hb. unfold bucket_keys. rewrite list_elem_of_omap. split.
  - intros (i & Hi & Hk). destruct (bit_slot b i Hb Hi) as (p & r & Hs). rewrite (slot_key_slot b i p r Hs) in Hk.
    injection Hk as <-. exists p, i, r. done.
  - intros (p & i & r & Hs & <-). exists i. split; [|by apply (slot_key_slot b i p)].
    apply elem_of_bits_of. split; [|by apply Hs]. destruct Hs as (_ & Hk & _). apply nthZ_Some in Hk.
    rewrite (wb_kvs _ _ _ Hb) in Hk. pose proof (cfg_slots cfg Hcfg). lia.
Qed.

Lemma NoDup_bucket_keys b : wf_bucket b → NoDup (bucket_keys heap b).
Proof.
  intros Hb. apply NoDup_omap; [|apply NoDup_bits_of]. intros i j k Hi Hj Eki Ekj.
  destruct (bit_slot b i Hb Hi) as (p & r & Hs). destruct (bit_slot b j Hb Hj) as (q & r' & Hs').
  rewrite (slot_key_slot b i p r Hs) in Eki. rewrite (slot_key_slot b j q r' Hs') in Ekj.
  apply (wb_inj _ _ _ Hb i j p q r r'); [done|done|congruence].
Qed.

Lemma bucket_size_keys b : wf_bucket b → HashBucket_size b = lenZ (bucket_keys heap b).
Proof.
  intros Hb. unfold HashBucket_size. pose proof (cfg_slots cfg Hcfg). pose proof (wb_bitmap _ _ _ Hb) as Hr.
  rewrite popcount_spec.
  - unfold lenZ. f_equal. symmetry. apply length_omap_all. intros i Hi. destruct (bit_slot b i Hb Hi) as (p & r & Hs).
    rewrite (slot_key_slot b i p r Hs). by eexists.
  - split; [lia|]. eapply Z.lt_le_trans; [apply Hr|]. apply Z.pow_le_mono_r; lia.
Qed.

(** *** A segment *)

Lemma elem_of_segment_keys pat local s k :
  seg_inv pat local s → k ∈ segment_keys heap s ↔ ∃ p, in_segment cfg heap s k p.
Proof.
  intros [Hl Hs]. unfold segment_keys. rewrite list_elem_of_bind. split.
  - intros (b & Hk & [n Hn]%list_elem_of_lookup). rewrite <-nthZ_nat in Hn.
    destruct (Hs _ b Hn) as (Hwf & _ & _ & Hin).
    apply elem_of_bucket_keys in Hk as [p Hp]; [|done]. exists p, b. split; [|done].
    destruct (Hin k p Hp) as [-> _]. done.
  - intros (p & b & Hb & Hp). exists b. split.
    + destruct (Hs _ b Hb) as (Hwf & _). apply elem_of_bucket_keys; [done|by exists p].
    + unfold nthZ in Hb. destruct (0 <=? _); [|done]. by apply list_elem_of_lookup_2 in Hb.
Qed.

Lemma NoDup_segment_keys pat local s : seg_inv pat local s → NoDup (segment_keys heap s).
Proof.
  intros [Hl Hs]. apply NoDup_bind.
  - intros b1 b2 k [n1 H1']%list_elem_of_lookup [n2 H2']%list_elem_of_lookup Hk1 Hk2.
    pose proof H1' as E1. pose proof H2' as E2. rewrite <-nthZ_nat in E1, E2.
    destruct (Hs _ b1 E1) as (Hw1 & _ & _ & Hi1). destruct (Hs _ b2 E2) as (Hw2 & _ & _ & Hi2).
    apply elem_of_bucket_keys in Hk1 as [p1 Hp1]; [|done]. apply elem_of_bucket_keys in Hk2 as [p2 Hp2]; [|done].
    destruct (Hi1 k p1 Hp1) as [Ea _]. destruct (Hi2 k p2 Hp2) as [Eb _]. rewrite Ea in Eb.
    rewrite Eb in E1. congruence.
  - intros b [n Hn]%list_elem_of_lookup. rewrite <-nthZ_nat in Hn. apply NoDup_bucket_keys. by apply (Hs (Z.of_nat n) b).
  - apply NoDup_alt. intros i j b Hi Hj. rewrite <-nthZ_nat in Hi, Hj.
    destruct (Hs _ b Hi) as (_ & _ & Ei & _). destruct (Hs _ b Hj) as (_ & _ & Ej & _). lia.
Qed.

Lemma segment_size_keys pat local s : seg_inv pat local s → HashSegment_size s = lenZ (segment_keys heap s).
Proof.
  intros [_ Hs]. assert (∀ b, b ∈ s → wf_bucket b) as Hb.
  { intros b [n Hn]%list_elem_of_lookup. rewrite <-nthZ_nat in Hn. by apply (Hs (Z.of_nat n) b). }
  clear Hs. unfold HashSegment_size, segment_keys. induction s as [|b s IH]; [done|]. simpl.
  rewrite lenZ_app, IH, (bucket_size_keys b); [done|apply Hb; by left|intros c Hc; apply Hb; by right].
Qed.

(** *** The table *)

Lemma live_entry t sid : ht_inv t → sid ∈ live_segments t →
  ∃ i s local, 0 ≤ i < 2 ^ ht_depth t ∧ entry t i sid s ∧ 0 ≤ local ≤ ht_depth t ∧ seg_inv (i mod 2 ^ local) local s.
Proof.
  intros Ht Hs. apply elem_of_list_to_set, list_elem_of_lookup in Hs as [n Hn]. rewrite <-nthZ_nat in Hn.
  pose proof (nthZ_Some _ _ _ Hn) as Hr. rewrite (hi_dir _ _ _ Ht) in Hr.
  destruct (hi_entry _ _ _ Ht _ Hr) as (sid' & s & local & He & Hl & Hseg). exists (Z.of_nat n), s, local.
  assert (sid' = sid) as <- by (destruct He; congruence). done.
Qed.

(** The keys of a segment are those that the directory leads to it. *)
Lemma elem_of_entry_keys t sid k : ht_inv t → sid ∈ live_segments t →
  k ∈ entry_keys heap t sid ↔ ∃ p s, entry t (segment_index (hash_fn k) (ht_depth t)) sid s ∧ in_segment cfg heap s k p.
Proof.
  intros Ht Hs. destruct (live_entry t sid Ht Hs) as (i & s & local & Hi & He & Hl & Hseg).
  unfold entry_keys. rewrite (proj2 He), (elem_of_segment_keys _ _ s k Hseg). split.
  - intros [p Hp]. exists p, s. split; [|done]. split; [|apply He]. pose proof (hi_depth _ _ _ Ht) as Hd.
    rewrite segment_index_mod by lia.
    apply (hi_share _ _ _ Ht i _ sid s local); [done|done|lia|apply Z.mod_pos_bound, Z.pow_pos_nonneg; lia|].
    rewrite mod_mod_pow by lia. destruct Hp as (b & Hb & Hin). destruct Hseg as [_ Hbs].
    destruct (Hbs _ b Hb) as (_ & _ & _ & Hk). by apply (Hk k p).
  - intros (p & s' & [_ E'] & Hp). exists p. destruct He as [_ E]. by assert (s' = s) as <- by congruence.
Qed.

Lemma elem_of_table_keys t m k : ht_inv t → table_rel t m → k ∈ table_keys heap t ↔ k ∈ dom m.
Proof.
  intros Ht Hm. unfold table_keys. rewrite list_elem_of_bind, elem_of_dom. split.
  - intros (sid & Hk & Hs%elem_of_elements). apply elem_of_entry_keys in Hk as (p & s & He & Hp); [|done|done].
    exists p. apply Hm. by exists sid, s.
  - intros [p Hp]. apply Hm in Hp as (sid & s & He & Hp). assert (sid ∈ live_segments t) as Hs.
    { apply elem_of_list_to_set. destruct He as [He _]. unfold nthZ in He. destruct (0 <=? _); [|done].
      by apply list_elem_of_lookup_2 in He. }
    exists sid. split; [|by apply elem_of_elements]. apply elem_of_entry_keys; [done|done|]. by exists p, s.
Qed.

Lemma NoDup_table_keys t : ht_inv t → NoDup (table_keys heap t).
Proof.
  intros Ht. apply NoDup_bind; [| |apply NoDup_elements].
  - intros i j k Hi%elem_of_elements Hj%elem_of_elements Hki Hkj.
    apply elem_of_entry_keys in Hki as (p & s & [Ei _] & _); [|done|done].
    apply elem_of_entry_keys in Hkj as (q & s' & [Ej _] & _); [|done|done]. congruence.
  - intros sid Hs%elem_of_elements. destruct (live_entry t sid Ht Hs) as (i & s & local & _ & [_ E] & _ & Hseg).
    unfold entry_keys. rewrite E. by eapply NoDup_segment_keys.
Qed.

Lemma table_size_keys t : ht_inv t → HashTable_size t = lenZ (table_keys heap t).
Proof.
  intros Ht. unfold HashTable_size, table_keys, set_fold. simpl.
  assert (∀ sid, sid ∈ elements (live_segments t) → sid ∈ live_segments t) as Hin by (intros sid; apply elem_of_elements).
  induction (elements (live_segments t)) as [|sid l IH]; [done|]. simpl. rewrite IH by (intros x Hx; apply Hin; by right).
  rewrite lenZ_app. destruct (live_entry t sid Ht (Hin sid ltac:(by left))) as (i & s & local & _ & [_ E] & _ & Hseg).
  unfold entry_keys. rewrite E. simpl. rewrite (segment_size_keys _ _ s Hseg). apply Z.add_comm.
Qed.

Lemma table_size_ok t m : ht_inv t → table_rel t m → HashTable_size t = Z.of_nat (size m).
Proof.
  intros Ht Hm. rewrite table_size_keys by done. unfold lenZ. f_equal. rewrite <-size_dom.
  rewrite <-(size_list_to_set (C := gset K) (table_keys heap t)) by (by apply NoDup_table_keys).
  f_equal. apply leibniz_equiv. intros k. by rewrite elem_of_list_to_set, elem_of_table_keys.
Qed.
End lemmas.
