(* ===== verification/ConcTable.v ===== *)
(** * The hash table under concurrency (store/hash-table.h)

    [HashTable] has the operations of the table run one at a time.  This file has
    them as the threads run them: [thread_step] is one access to shared memory of
    one thread, and the threads are interleaved in any order.  [lookup] and
    [update] take no lock: they read the version of the directory and of the
    bucket, scan the slots while other threads replace records with
    compare-and-exchange, fill slots or split the segment, and validate the
    versions.  [upsert] holds the lock of the bucket, a split those of all buckets
    of the segment and that of the directory.

    The memory is sequentially consistent.  A [memcpy] or a SIMD comparison over
    data that another thread may write is one access per element.  Arrays and
    records that have been retired stay as they are, which is what the epoch
    guarantees to a thread that is in it ([StoreMap.reader_protected]).  The
    configuration is that of the store: [kOptUpdate] and [kTimeStamp]. *)

From S2P Require Export Buckets.

(** ** Parameters *)

(** [VerLock] of the util submodule, as its name and its uses say: a lock with a
    version that grows whenever the lock is released; [lock_shared] waits until
    the lock is free and returns the version, [version_changed(v)] and the negation
    of [unlock_shared(v)] say whether the lock has been taken since. *)
Class VerLock := {
  ver_lock : Type;
  ver_new : ver_lock;
  ver_locked : ver_lock → bool;
  ver_acquire : ver_lock → ver_lock;      (* lock_exclusive() of a free lock *)
  ver_release : ver_lock → ver_lock;      (* unlock_exclusive() *)
  ver_version : ver_lock → Z;             (* lock_shared() of a free lock *)
  ver_changed : ver_lock → Z → bool;
}.
Class VerLockSpec `{VerLock} : Prop := {
  ver_new_free : ver_locked ver_new = false;
  ver_acquire_locked l : ver_locked (ver_acquire l) = true;
  ver_release_free l : ver_locked (ver_release l) = false;
  ver_acquire_version l : ver_locked l = false → ver_version l ≤ ver_version (ver_acquire l);
  ver_release_version l : ver_locked l = true → ver_version l < ver_version (ver_release l);
  ver_changed_spec l v : ver_changed l v = false ↔ ver_locked l = false ∧ ver_version l = v;
}.
#[export] Instance RefVerLock : VerLock := {|
  ver_lock := bool * Z; ver_new := (false, 0); ver_locked := fst;
  ver_acquire l := (true, l.2); ver_release l := (false, l.2 + 1); ver_version := snd;
  ver_changed l v := l.1 || negb (l.2 =? v) |}.
#[export] Instance RefVerLockSpec : VerLockSpec.
Proof.
  split; simpl; try done; try (intros; lia).
  intros [b x] v. simpl. rewrite orb_false_iff, negb_false_iff, Z.eqb_eq. done.
Qed.

(** ** Shared state *)

(** Buckets and their locks by the number of the segment and their index in it,
    the arrays of segment pointers that have been the directory by number.  The
    entry of an array that has not been written cannot be read. *)
Record ctable `{Dense} `{VerLock} := {
  ct_lock : ver_lock;
  ct_dir : Z;
  ct_depth : Z;
  ct_arrays : gmap Z (list Z);
  ct_locks : gmap (Z * Z) ver_lock;
  ct_buckets : gmap (Z * Z) HashBucket;
  ct_narrays : Z;      (* the number of the next array *)
  ct_nsegs : Z;        (* the number of the next segment *)
}.

Section setters.
Context `{Dense} `{VerLock}.
Definition eta_ct (c : ctable) : ctable := {|
  ct_lock := ct_lock c; ct_dir := ct_dir c; ct_depth := ct_depth c; ct_arrays := ct_arrays c;
  ct_locks := ct_locks c; ct_buckets := ct_buckets c; ct_narrays := ct_narrays c; ct_nsegs := ct_nsegs c |}.
Definition set_ct_lock := ltac:(setter eta_ct (@ct_lock H H0)).
Definition set_ct_dir := ltac:(setter eta_ct (@ct_dir H H0)).
Definition set_ct_depth := ltac:(setter eta_ct (@ct_depth H H0)).
Definition set_ct_arrays := ltac:(setter eta_ct (@ct_arrays H H0)).
Definition set_ct_locks := ltac:(setter eta_ct (@ct_locks H H0)).
Definition set_ct_buckets := ltac:(setter eta_ct (@ct_buckets H H0)).
Definition set_ct_narrays := ltac:(setter eta_ct (@ct_narrays H H0)).
Definition set_ct_nsegs := ltac:(setter eta_ct (@ct_nsegs H H0)).
End setters.

(** ** Threads *)

(** The calls; the key of an update or upsert is that of the record [kv]. *)
Inductive table_op (K : Type) :=
| OLookup (key : K)
| OUpdate (key : K) (kv : Z)
| OUpsert (key : K) (kv : Z).
Arguments OLookup {K} key.
Arguments OUpdate {K} key kv.
Arguments OUpsert {K} key kv.

Definition op_key {K} (o : table_op K) : K :=
  match o with OLookup k | OUpdate k _ | OUpsert k _ => k end.

(** How a bucket is scanned: between [lock_shared] with the version [v] and
    [unlock_shared], or under the lock of the bucket, found in the array [d] of
    depth [g]. *)
Inductive mode := Shared (v : Z) | Excl (d g : Z).

(** Where a thread is, with its local variables: before the access that the
    comment names.  [sid] is the segment found in the directory. *)
Inductive pc `{Dense} :=
| PStart                                            (* lock_.lock_shared() *)
| PDir (vd : Z)                                     (* dir = dir_ *)
| PDepth (vd d : Z)                                 (* global = depth_ *)
| PChanged (vd d g : Z)                             (* lock_.version_changed(vd) *)
| PEntry (vd d g : Z)                               (* dir[index] *)
| PShared (vd sid : Z)                              (* bucket->lock().lock_shared() *)
| PValid (vd sid v : Z)                             (* lock_.unlock_shared(vd) *)
| PLock (vd d g sid : Z)                            (* bucket->lock().lock_exclusive() *)
| PValidX (vd d g sid : Z)                          (* lock_.unlock_shared(vd) *)
| PMask (md : mode) (sid : Z) (bm : option Z) (tags : list Z) (* bitmap_, tags_[...] *)
| PScan (md : mode) (sid mask : Z)                  (* kvs_[idx].load() *)
| PCas (md : mode) (sid mask idx : Z) (old : dense) (* kvs_[idx].compare_exchange_strong() *)
| PReload (md : mode) (sid mask idx : Z)            (* old = kvs_[idx].load() *)
| PEnd (sid v : Z)                                  (* bucket->lock().unlock_shared(v) *)
| PFree (d g sid : Z)                               (* kvs_[idx].store() for a free slot *)
| PTag (sid idx : Z)                                (* tags_[idx] = *)
| PBit (sid idx : Z)                                (* bitmap_ |= *)
| PUnlock (sid : Z) (r : option Z)                  (* ~ExclusiveGuard, then return or continue *)
| PFull (d g sid : Z)                               (* local = bucket->depth() *)
| PFullUnlock (d g sid local : Z)                   (* ~ExclusiveGuard *)
| SPtr (d g local : Z)                              (* *dir[index] *)
| SLock (d g local sid j : Z)                       (* lock_exclusive() of bucket j *)
| SPtr2 (d g local sid : Z)                         (* dir[index]->depth() *)
| SDepth (d g local sid sid2 : Z)                   (* depth_ of the first bucket *)
| SPtr3 (d g local sid : Z)                         (* dir[index]->split() *)
| SNew (local sid lft : Z)                         (* new HashSegment(...) *)
| SBucket (local sid lft rgt j : Z)              (* new bucket j of the right segment *)
| SCopy (local sid lft rgt j i : Z)              (* memcpy of kvs_, slot i *)
| SMove (local sid lft rgt j mask cand : Z)      (* left.kvs_[idx].load() *)
| SXchg (local sid lft rgt j mask cand idx : Z)  (* left.kvs_[idx].exchange() *)
| SBits (local sid lft rgt j cand : Z)           (* left.bitmap_ &= *)
| SIncr (local sid lft rgt j : Z)                (* left.depth_++ *)
| SAssert (local sid lft rgt : Z)                (* the asserts on the depths *)
| SDirLock (local sid rgt : Z)                    (* lock_.lock_exclusive() *)
| SDirRead (local sid rgt : Z)                    (* dir = dir_, global = depth_ *)
| SGrow (local sid rgt d g : Z)                   (* dir_ = new Segment*[...] *)
| SGrowDepth (local sid rgt d a g : Z)            (* depth_ += 1 *)
| SGrowCopy (local sid rgt d a g : Z)             (* memcpy of the directory *)
| SInstall (local sid rgt d g pid : Z)            (* dir[...] = right *)
| SDirUnlock (sid : Z)                              (* ~directory_guard *)
| SSegUnlock (sid j : Z)                            (* ~segment_guard, bucket j *)
| PDone (r : Z)
| PFault.

(** A step: [Blocked] on a lock; [Fault]: an assert fails, a null pointer is
    dereferenced, an array is read outside its elements; [Terminate]: no memory. *)
Inductive outcome `{Dense} `{VerLock} :=
| Next (c : ctable) (p : pc)
| Blocked
| Fault
| Terminate.

(** A directory of more entries than this does not fit in the address space. *)
Definition kMaxDirDepth : Z := 60.

Section step.
Context `{Util} `{Dense} `{Simd} `{VerLock} {K : Type} `{EqDecision K} `{HashFn K}.
Variable cfg : HashConfig.
Variable heap : gmap Z (KVPair K).
Implicit Types (c : ctable) (p : pc) (o : table_op K) (b : HashBucket).

Definition or_fault {A} (x : option A) (f : A → outcome) : outcome :=
  match x with Some a => f a | None => Fault end.
Definition check (x : bool) (r : outcome) : outcome := if x then r else Fault.

Definition on_bucket c (sid j : Z) (f : HashBucket → outcome) : outcome := or_fault (ct_buckets c !! (sid, j)) f.
Definition on_lock c (sid j : Z) (f : ver_lock → outcome) : outcome := or_fault (ct_locks c !! (sid, j)) f.
Definition entry_at c (d i : Z) : option Z := l ← ct_arrays c !! d; nthZ l i.
Definition put_bucket c (sid j : Z) b : ctable := set_ct_buckets (<[(sid, j) := b]> (ct_buckets c)) c.
Definition put_lock c (sid j : Z) (l : ver_lock) : ctable := set_ct_locks (<[(sid, j) := l]> (ct_locks c)) c.

(** [bucket->lock()] and the segment's: waiting, taking, releasing. *)
Definition lock_shared (l : ver_lock) (f : Z → outcome) : outcome :=
  if ver_locked l then Blocked else f (ver_version l).
Definition lock_bucket c (sid j : Z) p : outcome :=
  on_lock c sid j (λ l, if ver_locked l then Blocked else Next (put_lock c sid j (ver_acquire l)) p).
Definition unlock_bucket c (sid j : Z) p : outcome :=
  on_lock c sid j (λ l, Next (put_lock c sid j (ver_release l)) p).

(** The condition of the loops over the slots; [null]: also compare with
    [DensePointer()]. *)
Definition slot_hit (null : bool) (key : K) (old : dense) : option bool :=
  if negb (null && bool_decide (old = dense_null)) && (dense_remain old =? slot_tag (hash_fn key))
  then r ← heap !! dense_pointer old; Some (bool_decide (kv_key r = key))
  else Some false.

(** [old.load_version() >= kv->load_version()] *)
Definition is_expired (old kv : Z) : option bool :=
  r ← heap !! old; n ← heap !! kv; Some (load_version n <=? load_version r).

Definition null_check o : bool := match o with OUpsert _ _ => false | _ => true end.

(** [assert(lock().locked())] of the bucket's [upsert]. *)
Definition assert_locked c (md : mode) (sid j : Z) (r : outcome) : outcome :=
  match md with Shared _ => r | Excl _ _ => on_lock c sid j (λ l, check (ver_locked l) r) end.

(** The call is over; under the lock of the bucket it is released first. *)
Definition finish (md : mode) (sid r : Z) : pc :=
  match md with Shared _ => PDone r | Excl _ _ => PUnlock sid (Some r) end.

(** A slot with the key has been read: it is the result, or it is replaced
    unless it is not older. *)
Definition on_hit o c (md : mode) (sid mask idx : Z) (old : dense) : outcome :=
  match o with
  | OLookup _ => Next c (finish md sid (dense_pointer old))
  | OUpdate _ kv | OUpsert _ kv =>
      or_fault (is_expired (dense_pointer old) kv) (λ e,
        Next c (if (e : bool) then finish md sid kExpired else PCas md sid mask idx old))
  end.

Definition thread_step o c p : outcome :=
  let key := op_key o in
  let code := hash_fn key in
  let bid := bucket_index code (kNBucketInSegment cfg) in
  match p with
  | PStart => lock_shared (ct_lock c) (λ vd, Next c (PDir vd))
  | PDir vd => Next c (PDepth vd (ct_dir c))
  | PDepth vd d => Next c (PChanged vd d (ct_depth c))
  | PChanged vd d g => Next c (if ver_changed (ct_lock c) vd then PStart else PEntry vd d g)
  | PEntry vd d g => or_fault (entry_at c d (segment_index code g)) (λ sid,
      Next c (match o with OUpsert _ _ => PLock vd d g sid | _ => PShared vd sid end))
  | PShared vd sid => on_lock c sid bid (λ l, lock_shared l (λ v, Next c (PValid vd sid v)))
  | PValid vd sid v =>
      Next c (if ver_changed (ct_lock c) vd then PStart else PMask (Shared v) sid None [])
  | PLock vd d g sid => lock_bucket c sid bid (PValidX vd d g sid)
  | PValidX vd d g sid =>
      Next c (if ver_changed (ct_lock c) vd then PUnlock sid None else PMask (Excl d g) sid None [])
  | PMask md sid bm tags => assert_locked c md sid bid (on_bucket c sid bid (λ b,
      check (bucket_index code (kNBucketInSegment cfg) =? bk_index b) (
      match bm with
      | None => Next c (PMask md sid (Some (bk_bitmap b)) tags)
      | Some w =>
          if lenZ tags <? kNSlotInBucket cfg
          then or_fault (nthZ (bk_tags b) (lenZ tags)) (λ t, Next c (PMask md sid bm (tags ++ [t])))
          else Next c (PScan md sid (Z.land w (compare_equal cfg tags (bucket_tag code))))
      end)))
  | PScan md sid mask =>
      if mask =? 0 then Next c (match md with Shared v => PEnd sid v | Excl d g => PFree d g sid end)
      else on_bucket c sid bid (λ b,
        let idx := index_least1 mask in
        or_fault (nthZ (bk_kvs b) idx) (λ old,
        or_fault (slot_hit (null_check o) key old) (λ hit,
          if (hit : bool) then on_hit o c md sid mask idx old
          else Next c (PScan md sid (clear_bit mask idx)))))
  | PCas md sid mask idx old => on_bucket c sid bid (λ b,
      or_fault (nthZ (bk_kvs b) idx) (λ cur,
        if bool_decide (cur = old) then
          match o with
          | OUpdate _ kv | OUpsert _ kv =>
              Next (put_bucket c sid bid (put_kv b idx (mk_dense kv (slot_tag code))))
                (finish md sid (dense_pointer old))
          | OLookup _ => Fault
          end
        else Next c (PReload md sid mask idx)))
  | PReload md sid mask idx => on_bucket c sid bid (λ b,
      or_fault (nthZ (bk_kvs b) idx) (λ old,
        match o with
        | OUpsert _ _ => on_hit o c md sid mask idx old
        | _ => or_fault (slot_hit true key old) (λ hit,
            if (hit : bool) then on_hit o c md sid mask idx old
            else Next c (PScan md sid (clear_bit mask idx)))
        end))
  | PEnd sid v => on_lock c sid bid (λ l, Next c (if ver_changed l v then PStart else PDone kNotFound))
  | PFree d g sid => on_bucket c sid bid (λ b,
      let idx := index_least0 (bk_bitmap b) in
      if idx =? kNSlotInBucket cfg then Next c (PFull d g sid)
      else match o with
           | OUpsert _ kv =>
               check ((0 <=? idx) && (idx <? kNSlotInBucket cfg))
                 (Next (put_bucket c sid bid (put_kv b idx (mk_dense kv (slot_tag code)))) (PTag sid idx))
           | _ => Fault
           end)
  | PTag sid idx => on_bucket c sid bid (λ b,
      Next (put_bucket c sid bid (set_bk_tags (updZ (bk_tags b) idx (bucket_tag code)) b)) (PBit sid idx))
  | PBit sid idx => on_bucket c sid bid (λ b,
      Next (put_bucket c sid bid (set_bk_bitmap (wrap 48 (set_bit (bk_bitmap b) idx)) b))
        (PUnlock sid (Some kNotFound)))
  | PUnlock sid r => unlock_bucket c sid bid (match r with Some r => PDone r | None => PStart end)
  | PFull d g sid => on_bucket c sid bid (λ b,
      check (bk_depth b <=? g) (Next c (PFullUnlock d g sid (bk_depth b))))
  | PFullUnlock d g sid local => unlock_bucket c sid bid (SPtr d g local)
  | SPtr d g local => or_fault (entry_at c d (segment_index code g)) (λ sid, Next c (SLock d g local sid 0))
  | SLock d g local sid j =>
      if j <? kNBucketInSegment cfg then lock_bucket c sid j (SLock d g local sid (j + 1))
      else Next c (SPtr2 d g local sid)
  | SPtr2 d g local sid =>
      or_fault (entry_at c d (segment_index code g)) (λ sid2, Next c (SDepth d g local sid sid2))
  | SDepth d g local sid sid2 => on_bucket c sid2 0 (λ b,
      Next c (if bk_depth b =? local then SPtr3 d g local sid else SSegUnlock sid 0))
  | SPtr3 d g local sid =>
      or_fault (entry_at c d (segment_index code g)) (λ lft, Next c (SNew local sid lft))
  | SNew local sid lft =>
      let rgt := ct_nsegs c in
      let js := seqZ 0 (kNBucketInSegment cfg) in
      Next (set_ct_nsegs (rgt + 1)
             (set_ct_locks (foldr (λ j, <[(rgt, j) := ver_new]>) (ct_locks c) js)
             (set_ct_buckets (foldr (λ j, <[(rgt, j) := HashBucket_new cfg]>) (ct_buckets c) js) c)))
        (SBucket local sid lft rgt 0)
  | SBucket local sid lft rgt j =>
      if j <? kNBucketInSegment cfg then
        on_lock c lft j (λ l, check (ver_locked l) (on_bucket c lft j (λ b,
          Next (put_bucket c rgt j
                 (set_bk_tags (bk_tags b) {| bk_bitmap := 0; bk_depth := bk_depth b; bk_index := bk_index b;
                    bk_tags := bk_tags (HashBucket_new cfg); bk_kvs := bk_kvs (HashBucket_new cfg) |}))
            (SCopy local sid lft rgt j 0))))
      else Next c (SAssert local sid lft rgt)
  | SCopy local sid lft rgt j i => on_bucket c lft j (λ b,
      if i <? kNSlotInBucket cfg then
        or_fault (nthZ (bk_kvs b) i) (λ kv, on_bucket c rgt j (λ b',
          Next (put_bucket c rgt j (put_kv b' i kv)) (SCopy local sid lft rgt j (i + 1))))
      else Next c (SMove local sid lft rgt j (bk_bitmap b) 0))
  | SMove local sid lft rgt j mask cand =>
      if mask =? 0 then Next c (SBits local sid lft rgt j cand)
      else on_bucket c lft j (λ b,
        let idx := index_least1 mask in
        or_fault (nthZ (bk_kvs b) idx) (λ kv, or_fault (heap !! dense_pointer kv) (λ r,
          if negb (Z.land (hash_fn (kv_key r)) (bit (bk_depth b)) =? 0)
          then Next c (SXchg local sid lft rgt j mask (set_bit cand idx) idx)
          else Next c (SMove local sid lft rgt j (clear_bit mask idx) cand))))
  | SXchg local sid lft rgt j mask cand idx => on_bucket c lft j (λ b, on_bucket c rgt j (λ b',
      or_fault (nthZ (bk_kvs b) idx) (λ latest,
        Next (put_bucket (put_bucket c lft j (put_kv b idx dense_null)) rgt j (put_kv b' idx latest))
          (SMove local sid lft rgt j (clear_bit mask idx) cand))))
  | SBits local sid lft rgt j cand => on_bucket c lft j (λ b, on_bucket c rgt j (λ b',
      Next (put_bucket (put_bucket c lft j (set_bk_bitmap (wrap 48 (Z.land (bk_bitmap b) (Z.lnot cand))) b))
             rgt j (set_bk_bitmap (wrap 48 cand) (set_bk_depth (u8 (bk_depth b' + 1)) b')))
        (SIncr local sid lft rgt j)))
  | SIncr local sid lft rgt j => on_bucket c lft j (λ b,
      Next (put_bucket c lft j (set_bk_depth (u8 (bk_depth b + 1)) b)) (SBucket local sid lft rgt (j + 1)))
  | SAssert local sid lft rgt => on_bucket c lft 0 (λ b, on_bucket c rgt 0 (λ b',
      check ((bk_depth b =? bk_depth b') && (bk_depth b' =? local + 1)) (Next c (SDirLock local sid rgt))))
  | SDirLock local sid rgt =>
      if ver_locked (ct_lock c) then Blocked
      else Next (set_ct_lock (ver_acquire (ct_lock c)) c) (SDirRead local sid rgt)
  | SDirRead local sid rgt =>
      if local =? ct_depth c then Next c (SGrow local sid rgt (ct_dir c) (ct_depth c))
      else check (local <? ct_depth c) (Next c (SInstall local sid rgt (ct_dir c) (ct_depth c) 0))
  | SGrow local sid rgt d g =>
      if kMaxDirDepth <=? g then Terminate
      else
        let a := ct_narrays c in
        Next (set_ct_dir a (set_ct_narrays (a + 1) (set_ct_arrays (<[a := []]> (ct_arrays c)) c)))
          (SGrowDepth local sid rgt d a g)
  | SGrowDepth local sid rgt d a g => Next (set_ct_depth (ct_depth c + 1) c) (SGrowCopy local sid rgt d a g)
  | SGrowCopy local sid rgt d a g => or_fault (ct_arrays c !! d) (λ l,
      let l := take (Z.to_nat (bit g)) l in
      check (local <? ct_depth c)
        (Next (set_ct_arrays (<[a := l ++ l]> (ct_arrays c)) c)
           (SInstall local sid rgt (ct_dir c) (ct_depth c) 0)))
  | SInstall local sid rgt d g pid =>
      let part_size := bit (local + 1) in
      let part_count := bit g / part_size in
      let offset := segment_index code local + bit local in
      if pid <? part_count then
        or_fault (ct_arrays c !! d) (λ l,
          check (pid * part_size + offset <? lenZ l)
            (Next (set_ct_arrays (<[d := updZ l (pid * part_size + offset) rgt]> (ct_arrays c)) c)
               (SInstall local sid rgt d g (pid + 1))))
      else Next c (SDirUnlock sid)
  | SDirUnlock sid => Next (set_ct_lock (ver_release (ct_lock c)) c) (SSegUnlock sid 0)
  | SSegUnlock sid j =>
      if j <? kNBucketInSegment cfg then unlock_bucket c sid j (SSegUnlock sid (j + 1)) else Next c PStart
  | PDone _ | PFault => Blocked
  end.

(** ** Interleaving *)

(** A record that may be stored: a pointer is neither null nor a status code. *)
Definition legal_table_op o : Prop :=
  match o with
  | OLookup _ => True
  | OUpdate key kv | OUpsert key kv => 2 < kv < 2 ^ 48 ∧ ∃ r, heap !! kv = Some r ∧ kv_key r = key
  end.

Inductive event := Call (t : Z) (o : table_op K) | Return (t r : Z).

Definition config : Type := ctable * gmap Z (table_op K * pc).

Inductive conc_step : config → option event → config → Prop :=
| cs_call c ps t o :
    ps !! t = None → legal_table_op o → conc_step (c, ps) (Some (Call t o)) (c, <[t := (o, PStart)]> ps)
| cs_run c ps t o p c' p' :
    ps !! t = Some (o, p) → thread_step o c p = Next c' p' → conc_step (c, ps) None (c', <[t := (o, p')]> ps)
| cs_fault c ps t o p :
    ps !! t = Some (o, p) → thread_step o c p = Fault → conc_step (c, ps) None (c, <[t := (o, PFault)]> ps)
| cs_return c ps t o r :
    ps !! t = Some (o, PDone r) → conc_step (c, ps) (Some (Return t r)) (c, delete t ps).

(** *** The atomic map *)

(** What a call does to the map from keys to records, in one step. *)
Definition atomic_op `{!Countable K} (m : gmap K Z) o : gmap K Z * Z :=
  match o with
  | OLookup key => (m, default kNotFound (m !! key))
  | OUpdate key kv | OUpsert key kv =>
      match m !! key with
      | Some old =>
          if default false (is_expired old kv) then (m, kExpired)
          else (<[key := kv]> m, old)
      | None => match o with OUpsert _ _ => (<[key := kv]> m, kNotFound) | _ => (m, kNotFound) end
      end
  end.

Inductive status := Pending (o : table_op K) | Finished (r : Z).
Definition atomic_config `{!Countable K} : Type := gmap K Z * gmap Z status.

(** A call takes effect at one moment between its call and its return. *)
Inductive atomic_step `{!Countable K} : atomic_config → option event → atomic_config → Prop :=
| as_call m ps t o :
    ps !! t = None → legal_table_op o → atomic_step (m, ps) (Some (Call t o)) (m, <[t := Pending o]> ps)
| as_effect m ps t o :
    ps !! t = Some (Pending o) →
    atomic_step (m, ps) None ((atomic_op m o).1, <[t := Finished (atomic_op m o).2]> ps)
| as_return m ps t r :
    ps !! t = Some (Finished r) → atomic_step (m, ps) (Some (Return t r)) (m, delete t ps).

(** A fixed schedule: which thread runs next. *)
Fixpoint run_schedule (ts : list Z) (s : config) : option config :=
  match ts with
  | [] => Some s
  | t :: ts =>
      '(o, p) ← s.2 !! t;
      match thread_step o s.1 p with
      | Next c' p' => run_schedule ts (c', <[t := (o, p')]> s.2)
      | _ => None
      end
  end.

(** *** The table before the threads start *)

(** The buckets of the segments that the directory has. *)
Definition live_buckets (t : HashTable) : gmap (Z * Z) HashBucket :=
  filter (λ x, x.1.1 ∈ ht_dir t)
    (map_uncurry (M1 := gmap Z) (M2 := gmap Z)
      (map_seqZ (M := gmap Z HashBucket) 0 <$> map_seqZ (M := gmap Z HashSegment) 0 (ht_segs t))).

Definition conc_of (t : HashTable) : ctable := {|
  ct_lock := ver_new; ct_dir := 0; ct_depth := ht_depth t;
  ct_arrays := {[0 := ht_dir t]};
  ct_locks := (λ _, ver_new) <$> live_buckets t;
  ct_buckets := live_buckets t;
  ct_narrays := 1; ct_nsegs := lenZ (ht_segs t) |}.
End step.

(** Executions of a transition system, with their visible events. *)
Inductive run {S E : Type} (step : S → option E → S → Prop) : S → list E → S → Prop :=
| run_done s : run step s [] s
| run_step s e s' tr s'' : step s e s' → run step s' tr s'' → run step s (option_list e ++ tr) s''.
