(* ===== verification/ConcInv.v ===== *)
(** * The invariant of the concurrent hash table

    What holds in every state of an execution ([glob], [tinv]), with three pieces
    of ghost state: the map that the table represents, the segments that the
    directory has with the codes they own, and the slots that have been used.  A
    slot that has never been used may have the copy of a pointer that a split has
    left there; a used slot is null or has the record of a key of the map.

    [tinv] is what a thread knows where it is.  What it has read without a lock
    holds on the condition that the version is still valid.  [guar] is what a
    step of a thread may do to the others, and [tinv_stable] says that what a
    thread knows survives it: the threads are reasoned about one at a time. *)

From S2P Require Export HashSpec ConcTable.

(** ** Definitions *)

(** A state with the ghost state. *)
Record world `{Dense} `{VerLock} (K : Type) `{Countable K} := World {
  wc : ctable;
  wm : gmap K Z;                (* the map *)
  wo : gmap Z (Z * Z);          (* segment: low bits of the codes it owns, local depth *)
  wu : gset (Z * Z * Z);        (* the slots that have been used *)
}.
Arguments World {_ _ K _ _} _ _ _ _.
Arguments wc {_ _ K _ _} _.
Arguments wm {_ _ K _ _} _.
Arguments wo {_ _ K _ _} _.
Arguments wu {_ _ K _ _} _.

Section inv.
Context `{Util} `{Dense} `{Simd} `{VerLock} {K : Type} `{Countable K} `{HashFn K}.
Variable cfg : HashConfig.
Variable heap : gmap Z (KVPair K).
Implicit Types (w : world K) (k : K) (o : table_op K) (b j i p d g s : Z).

Abbreviation nb := (kNBucketInSegment cfg).
Abbreviation ns := (kNSlotInBucket cfg).
Abbreviation bidx k := (bucket_index (hash_fn k) nb).
Abbreviation buckets w := (ct_buckets (wc w)).
Abbreviation locks w := (ct_locks (wc w)).
Abbreviation arrays w := (ct_arrays (wc w)).

(** *** Slots and buckets *)

(** The slot has the record at [p] of the key [k]. *)
Definition full w s b i k p : Prop :=
  (s, b, i) ∈ wu w ∧ ∃ bk r, buckets w !! (s, b) = Some bk ∧
    nthZ (bk_kvs bk) i = Some (mk_dense p (slot_tag (hash_fn k))) ∧
    heap !! p = Some r ∧ kv_key r = k ∧ 2 < p < 2 ^ 48.
Definition fullk w s b i k : Prop := ∃ p, full w s b i k p.

(** The bitmap and the tags say which slots are full, but for those in [X]. *)
Definition bits_but w s b (X : Z → Prop) : Prop :=
  ∃ bk, buckets w !! (s, b) = Some bk ∧
    (∀ i, Z.testbit (bk_bitmap bk) i = true → ¬ X i →
       ∃ k, fullk w s b i k ∧ nthZ (bk_tags bk) i = Some (bucket_tag (hash_fn k))) ∧
    (∀ i k, fullk w s b i k → ¬ X i → Z.testbit (bk_bitmap bk) i = true).
Definition bits_ok w s b : Prop := bits_but w s b (λ _, False).

Definition bhead w s b d : Prop := ∃ bk, buckets w !! (s, b) = Some bk ∧ bk_depth bk = d ∧ bk_index bk = b.

(** The segment [s] is the one for the code [x], or for the code of the key [k]. *)
Definition own_code w s (x : Z) : Prop := ∃ pat ld, wo w !! s = Some (pat, ld) ∧ x mod 2 ^ ld = pat.
Definition own w s k : Prop := own_code w s (hash_fn k).

(** A bucket that nobody is changing. *)
Definition settled w s b : Prop := bits_ok w s b ∧ ∃ pat ld, wo w !! s = Some (pat, ld) ∧ bhead w s b ld.
Definition all_settled w s : Prop := ∀ j, 0 ≤ j < nb → settled w s j.

(** *** Directories *)

(** The entry for [k] of the array [d] of depth [g] has a segment that is at least
    as deep as [lo]; if it is not deeper it is the one for [k]. *)
Definition entry_ge w d g k lo : Prop :=
  0 ≤ lo ≤ g ∧ g ≤ kMaxDirDepth ∧ ∃ l, arrays w !! d = Some l ∧ 2 ^ g ≤ lenZ l ∧
    ∀ s, nthZ l (hash_fn k mod 2 ^ g) = Some s →
      ∃ pat ld, wo w !! s = Some (pat, ld) ∧ lo ≤ ld ∧ (ld = lo → pat = hash_fn k mod 2 ^ lo).
(** The same for a segment that has been read from it. *)
Definition seg_ge w s k lo : Prop :=
  ∃ pat ld, wo w !! s = Some (pat, ld) ∧ lo ≤ ld ∧ (ld = lo → pat = hash_fn k mod 2 ^ lo).
Definition entry_uniq w d g k lo s : Prop :=
  ∀ x pat, entry_at (wc w) d (hash_fn k mod 2 ^ g) = Some x → wo w !! x = Some (pat, lo) → x = s.

(** The array [d] of depth [g]; the last entries, from the one number [pid] of those
    that the right half of the segment [lft] gets, still have [lft]. *)
Definition dir_but w d g lft pat local pid : Prop :=
  0 ≤ g ≤ kMaxDirDepth ∧ ∃ l, arrays w !! d = Some l ∧ lenZ l = 2 ^ g ∧
    ∀ i s, nthZ l i = Some s →
      (i mod 2 ^ (local + 1) = pat + 2 ^ local ∧ pid ≤ i / 2 ^ (local + 1) → s = lft) ∧
      (¬ (i mod 2 ^ (local + 1) = pat + 2 ^ local ∧ pid ≤ i / 2 ^ (local + 1)) →
         ∃ pat' ld, wo w !! s = Some (pat', ld) ∧ (s = lft ∨ ld ≤ g) ∧ i mod 2 ^ ld = pat').
Definition dir_ok w : Prop :=
  0 ≤ ct_depth (wc w) ≤ kMaxDirDepth ∧
  ∃ l, arrays w !! ct_dir (wc w) = Some l ∧ lenZ l = 2 ^ ct_depth (wc w) ∧
    ∀ i s, nthZ l i = Some s → ∃ pat ld, wo w !! s = Some (pat, ld) ∧ ld ≤ ct_depth (wc w) ∧ i mod 2 ^ ld = pat.

(** *** What a thread knows *)

(** If the version [vd] of the directory is still valid. *)
Definition tok_dir w (vd : Z) (P : Prop) : Prop :=
  vd ≤ ver_version (ct_lock (wc w)) ∧
  (ver_locked (ct_lock (wc w)) = false → ver_version (ct_lock (wc w)) = vd → P).
(** The same for a bucket. *)
Definition tok w s b (v : Z) (P : Prop) : Prop :=
  ∃ l, locks w !! (s, b) = Some l ∧ v ≤ ver_version l ∧ (ver_locked l = false → ver_version l = v → P).

Definition dir_fact w k d g sid : Prop :=
  ∃ ld, wo w !! sid = Some (hash_fn k mod 2 ^ ld, ld) ∧ entry_ge w d g k ld.

Definition mode_ok o (md : mode) : Prop :=
  match md, o with
  | Excl _ _, OUpsert _ _ => True
  | Shared _, (OLookup _ | OUpdate _ _) => True
  | _, _ => False
  end.

(** [P] holds of the bucket for [k] of the segment [sid]. *)
Definition under w k (md : mode) sid (P : Prop) : Prop :=
  match md with
  | Shared v => sid ∈ dom (wo w) ∧ tok w sid (bidx k) v (own w sid k ∧ P)
  | Excl d g => dir_fact w k d g sid ∧ settled w sid (bidx k) ∧ P
  end.

(** The candidates of a scan; under the lock they are full. *)
Definition mask_ok w (md : mode) s b (mask : Z) : Prop :=
  0 ≤ mask < 2 ^ ns ∧ ∀ i, Z.testbit mask i = true → (s, b, i) ∈ wu w ∧
    match md with Excl _ _ => ∃ k, fullk w s b i k | Shared _ => True end.

(** A slot is to be replaced. *)
Definition cas_slot w o (md : mode) sid (mask idx : Z) : Prop :=
  let k := op_key o in
  mode_ok o md ∧ (∀ k', o ≠ OLookup k') ∧
  under w k md sid (∀ i, fullk w sid (bidx k) i k → Z.testbit mask i = true) ∧
  mask_ok w md sid (bidx k) mask ∧ (sid, bidx k, idx) ∈ wu w ∧ 0 ≤ idx < ns ∧
  match md with Excl _ _ => fullk w sid (bidx k) idx k | _ => True end.
Definition cas_old o (old : dense) : Prop :=
  match o with
  | OLookup _ => False
  | OUpdate k kv | OUpsert k kv =>
      ∃ p r, old = mk_dense p (slot_tag (hash_fn k)) ∧ 2 < p < 2 ^ 48 ∧ heap !! p = Some r ∧ kv_key r = k ∧
        is_expired heap p kv = Some false
  end.

(** An insertion: the slot [idx] is full, the bitmap does not say so yet. *)
Definition inserting w k sid (idx : Z) : Prop :=
  0 ≤ idx < ns ∧ fullk w sid (bidx k) idx k ∧ bits_but w sid (bidx k) (eq idx) ∧
  ∃ pat ld, wo w !! sid = Some (pat, ld) ∧ bhead w sid (bidx k) ld.

(** A split of the segment [sid]. *)
Definition splitting w k local sid lft rgt : Prop :=
  lft = sid ∧ 0 ≤ local ≤ kMaxDirDepth ∧ wo w !! sid = Some (hash_fn k mod 2 ^ local, local) ∧ wo w !! rgt = None ∧
  rgt < ct_nsegs (wc w).
Definition separate w s j local : Prop := ∀ i k, fullk w s j i k → Z.testbit (hash_fn k) local = false.
Definition split_done w local sid rgt j : Prop :=
  bits_ok w sid j ∧ bits_ok w rgt j ∧ bhead w sid j (local + 1) ∧ bhead w rgt j (local + 1) ∧ separate w sid j local.
Definition unused w s j : Prop := ∀ i, (s, j, i) ∉ wu w.
Definition split_todo w local sid rgt j : Prop :=
  bits_ok w sid j ∧ bhead w sid j local ∧ is_Some (buckets w !! (rgt, j)) ∧ unused w rgt j.
(** The buckets other than [j]. *)
Definition split_rest w local sid rgt j : Prop :=
  (∀ j', 0 ≤ j' < j → split_done w local sid rgt j') ∧ (∀ j', j < j' < nb → split_todo w local sid rgt j').

Definition copying w local sid rgt j : Prop :=
  bits_ok w sid j ∧ bhead w sid j local ∧ bhead w rgt j local ∧ unused w rgt j ∧
  ∃ bk bk', buckets w !! (sid, j) = Some bk ∧ buckets w !! (rgt, j) = Some bk' ∧
    bk_tags bk' = bk_tags bk ∧ bk_bitmap bk' = 0.

(** The slots in [mask] have not been looked at, of the others those in [cand] have
    been moved. *)
Definition moving w local sid rgt j (mask cand : Z) : Prop :=
  0 ≤ mask < 2 ^ ns ∧ 0 ≤ cand < 2 ^ ns ∧
  ∃ bk bk', buckets w !! (sid, j) = Some bk ∧ buckets w !! (rgt, j) = Some bk' ∧
    bk_depth bk = local ∧ bk_index bk = j ∧ bk_depth bk' = local ∧ bk_index bk' = j ∧
    bk_tags bk' = bk_tags bk ∧ bk_bitmap bk' = 0 ∧
    (∀ i, Z.testbit mask i = true → Z.testbit (bk_bitmap bk) i = true ∧ Z.testbit cand i = false) ∧
    (∀ i, Z.testbit cand i = true → Z.testbit (bk_bitmap bk) i = true) ∧
    (∀ i, Z.testbit (bk_bitmap bk) i = true → ∃ k, nthZ (bk_tags bk) i = Some (bucket_tag (hash_fn k)) ∧
       if Z.testbit cand i then fullk w rgt j i k
       else fullk w sid j i k ∧ (Z.testbit mask i = false → Z.testbit (hash_fn k) local = false)) ∧
    (∀ i k, fullk w sid j i k → Z.testbit (bk_bitmap bk) i = true ∧ Z.testbit cand i = false) ∧
    (∀ i k, fullk w rgt j i k → Z.testbit cand i = true).

(** The segment [rgt] is in the directory, as far as its codes go. *)
Definition published w k local sid rgt : Prop :=
  0 ≤ local ≤ kMaxDirDepth ∧ wo w !! sid = Some (hash_fn k mod 2 ^ local, local + 1) ∧
  wo w !! rgt = Some (hash_fn k mod 2 ^ local + 2 ^ local, local + 1) ∧ all_settled w sid.

Definition is_upsert o : Prop := match o with OUpsert _ _ => True | _ => False end.

Definition tinv w o (q : pc) : Prop :=
  let k := op_key o in
  let c := wc w in
  legal_table_op heap o ∧
  match q with
  | PStart => True
  | PDir vd => tok_dir w vd True
  | PDepth vd d => tok_dir w vd (ct_dir c = d)
  | PChanged vd d g => tok_dir w vd (ct_dir c = d ∧ ct_depth c = g)
  | PEntry vd d g => tok_dir w vd (ct_dir c = d ∧ ct_depth c = g) ∧ 0 ≤ g ∧ ∃ l, arrays w !! d = Some l ∧ 2 ^ g ≤ lenZ l
  | PShared vd sid => ¬ is_upsert o ∧ sid ∈ dom (wo w) ∧ tok_dir w vd (own w sid k)
  | PValid vd sid v => ¬ is_upsert o ∧ sid ∈ dom (wo w) ∧ tok_dir w vd (own w sid k) ∧ tok w sid (bidx k) v True
  | PLock vd d g sid => is_upsert o ∧ sid ∈ dom (wo w) ∧ tok_dir w vd (dir_fact w k d g sid)
  | PValidX vd d g sid => is_upsert o ∧ settled w sid (bidx k) ∧ tok_dir w vd (dir_fact w k d g sid)
  | PMask md sid bm tags => mode_ok o md ∧
      under w k md sid (∀ i, fullk w sid (bidx k) i k →
        (∀ x, bm = Some x → Z.testbit x i = true) ∧ ∀ t, nthZ tags i = Some t → t = bucket_tag (hash_fn k)) ∧
      (∀ x, bm = Some x → mask_ok w md sid (bidx k) x) ∧ lenZ tags ≤ ns
  | PScan md sid mask => mode_ok o md ∧
      under w k md sid (∀ i, fullk w sid (bidx k) i k → Z.testbit mask i = true) ∧ mask_ok w md sid (bidx k) mask
  | PCas md sid mask idx old => cas_slot w o md sid mask idx ∧ cas_old o old
  | PReload md sid mask idx => cas_slot w o md sid mask idx
  | PEnd sid v => mode_ok o (Shared v) ∧ under w k (Shared v) sid (∀ i, ¬ fullk w sid (bidx k) i k)
  | PFree d g sid => is_upsert o ∧ under w k (Excl d g) sid (∀ i, ¬ fullk w sid (bidx k) i k)
  | PTag sid idx => inserting w k sid idx
  | PBit sid idx => inserting w k sid idx ∧
      ∃ bk, buckets w !! (sid, bidx k) = Some bk ∧ nthZ (bk_tags bk) idx = Some (bucket_tag (hash_fn k))
  | PUnlock sid r => settled w sid (bidx k)
  | PFull d g sid => dir_fact w k d g sid ∧ settled w sid (bidx k)
  | PFullUnlock d g sid local => settled w sid (bidx k) ∧ entry_ge w d g k local
  | SPtr d g local => entry_ge w d g k local
  | SLock d g local sid j => entry_ge w d g k local ∧ entry_uniq w d g k local sid ∧ seg_ge w sid k local ∧
      0 ≤ j ≤ nb ∧ ∀ j', 0 ≤ j' < j → settled w sid j'
  | SPtr2 d g local sid => entry_ge w d g k local ∧ entry_uniq w d g k local sid ∧ all_settled w sid
  | SDepth d g local sid sid2 => entry_ge w d g k local ∧ all_settled w sid ∧
      ∃ pat ld, wo w !! sid2 = Some (pat, ld) ∧ local ≤ ld ∧
        (ld = local → sid2 = sid ∧ pat = hash_fn k mod 2 ^ local ∧
           entry_at c d (hash_fn k mod 2 ^ g) = Some sid)
  | SPtr3 d g local sid => 0 ≤ g ∧ 0 ≤ local ≤ kMaxDirDepth ∧ wo w !! sid = Some (hash_fn k mod 2 ^ local, local) ∧ all_settled w sid ∧
      entry_at c d (hash_fn k mod 2 ^ g) = Some sid
  | SNew local sid lft => lft = sid ∧ 0 ≤ local ≤ kMaxDirDepth ∧ wo w !! sid = Some (hash_fn k mod 2 ^ local, local) ∧ all_settled w sid
  | SBucket local sid lft rgt j => splitting w k local sid lft rgt ∧ 0 ≤ j ≤ nb ∧ split_rest w local sid rgt j ∧
      (j < nb → split_todo w local sid rgt j)
  | SCopy local sid lft rgt j i => splitting w k local sid lft rgt ∧ 0 ≤ j < nb ∧ split_rest w local sid rgt j ∧
      copying w local sid rgt j ∧ 0 ≤ i ≤ ns
  | SMove local sid lft rgt j mask cand => splitting w k local sid lft rgt ∧ 0 ≤ j < nb ∧ split_rest w local sid rgt j ∧
      moving w local sid rgt j mask cand
  | SXchg local sid lft rgt j mask cand idx => splitting w k local sid lft rgt ∧ 0 ≤ j < nb ∧ split_rest w local sid rgt j ∧
      ∃ cand0 k', cand = set_bit cand0 idx ∧ moving w local sid rgt j mask cand0 ∧ Z.testbit mask idx = true ∧
        fullk w sid j idx k' ∧ Z.testbit (hash_fn k') local = true
  | SBits local sid lft rgt j cand => splitting w k local sid lft rgt ∧ 0 ≤ j < nb ∧ split_rest w local sid rgt j ∧
      moving w local sid rgt j 0 cand
  | SIncr local sid lft rgt j => splitting w k local sid lft rgt ∧ 0 ≤ j < nb ∧ split_rest w local sid rgt j ∧
      bits_ok w sid j ∧ bits_ok w rgt j ∧ bhead w sid j local ∧ bhead w rgt j (local + 1) ∧ separate w sid j local
  | SAssert local sid lft rgt => splitting w k local sid lft rgt ∧ ∀ j, 0 ≤ j < nb → split_done w local sid rgt j
  | SDirLock local sid rgt => splitting w k local sid sid rgt ∧ ∀ j, 0 ≤ j < nb → split_done w local sid rgt j
  | SDirRead local sid rgt => published w k local sid rgt ∧
      dir_but w (ct_dir c) (ct_depth c) sid (hash_fn k mod 2 ^ local) local 0 ∧ local ≤ ct_depth c
  | SGrow local sid rgt d g => published w k local sid rgt ∧ ct_dir c = d ∧ ct_depth c = g ∧ local = g ∧
      dir_but w d g sid (hash_fn k mod 2 ^ local) local 0
  | SGrowDepth local sid rgt d a g => published w k local sid rgt ∧ ct_dir c = a ∧ ct_depth c = g ∧ local = g ∧ a ≠ d ∧
      g < kMaxDirDepth ∧ arrays w !! a = Some [] ∧ dir_but w d g sid (hash_fn k mod 2 ^ local) local 0
  | SGrowCopy local sid rgt d a g => published w k local sid rgt ∧ ct_dir c = a ∧ ct_depth c = g + 1 ∧ local = g ∧ a ≠ d ∧
      g < kMaxDirDepth ∧ arrays w !! a = Some [] ∧ dir_but w d g sid (hash_fn k mod 2 ^ local) local 0
  | SInstall local sid rgt d g pid => published w k local sid rgt ∧ ct_dir c = d ∧ ct_depth c = g ∧ local < g ∧
      0 ≤ pid ≤ 2 ^ g / 2 ^ (local + 1) ∧ dir_but w d g sid (hash_fn k mod 2 ^ local) local pid
  | SDirUnlock sid => all_settled w sid ∧ dir_ok w
  | SSegUnlock sid j => 0 ≤ j ∧ ∀ j', j ≤ j' < nb → settled w sid j'
  | PDone _ => True
  | PFault => False
  end.

(** *** Who holds what *)

(** The locks of buckets that a thread holds. *)
Definition holds k (q : pc) (x : Z * Z) : Prop :=
  match q with
  | PValidX _ _ _ sid | PMask (Excl _ _) sid _ _ | PScan (Excl _ _) sid _ | PCas (Excl _ _) sid _ _ _
  | PReload (Excl _ _) sid _ _ | PFree _ _ sid | PTag sid _ | PBit sid _ | PUnlock sid _ | PFull _ _ sid
  | PFullUnlock _ _ sid _ => x = (sid, bidx k)
  | SLock _ _ _ sid j => x.1 = sid ∧ 0 ≤ x.2 < j
  | SPtr2 _ _ _ sid | SDepth _ _ _ sid _ | SPtr3 _ _ _ sid | SNew _ sid _ | SBucket _ sid _ _ _
  | SCopy _ sid _ _ _ _ | SMove _ sid _ _ _ _ _ | SXchg _ sid _ _ _ _ _ _ | SBits _ sid _ _ _ _
  | SIncr _ sid _ _ _ | SAssert _ sid _ _ | SDirLock _ sid _ | SDirRead _ sid _ | SGrow _ sid _ _ _
  | SGrowDepth _ sid _ _ _ _ | SGrowCopy _ sid _ _ _ _ | SInstall _ sid _ _ _ _ | SDirUnlock sid =>
      x.1 = sid ∧ 0 ≤ x.2 < nb
  | SSegUnlock sid j => x.1 = sid ∧ j ≤ x.2 < nb
  | _ => False
  end.

(** The segment that it splits, and the new one that no other thread knows. *)
Definition builds (q : pc) : option (Z * Z) :=
  match q with
  | SBucket _ sid _ rgt _ | SCopy _ sid _ rgt _ _ | SMove _ sid _ rgt _ _ _ | SXchg _ sid _ rgt _ _ _ _
  | SBits _ sid _ rgt _ _ | SIncr _ sid _ rgt _ | SAssert _ sid _ rgt | SDirLock _ sid rgt => Some (sid, rgt)
  | _ => None
  end.

Definition owns k (q : pc) (x : Z * Z) : Prop :=
  holds k q x ∨ ∃ sid, builds q = Some (sid, x.1) ∧ 0 ≤ x.2 < nb.

Definition in_dir (q : pc) : Prop :=
  match q with
  | SDirRead _ _ _ | SGrow _ _ _ _ _ | SGrowDepth _ _ _ _ _ _ | SGrowCopy _ _ _ _ _ _ | SInstall _ _ _ _ _ _
  | SDirUnlock _ => True
  | _ => False
  end.

(** *** The shared part *)

Abbreviation pool := (gmap Z (table_op K * pc)).

(** A thread of the pool at a point where [P] holds. *)
Definition at_pc (ps : pool) (t : Z) (P : table_op K → pc → Prop) : Prop := ∃ o q, ps !! t = Some (o, q) ∧ P o q.
Definition holding (ps : pool) (t : Z) (x : Z * Z) : Prop := at_pc ps t (λ o q, holds (op_key o) q x).
Definition building (ps : pool) (t sid rgt : Z) : Prop := at_pc ps t (λ _ q, builds q = Some (sid, rgt)).
Definition owning (ps : pool) (t : Z) (x : Z * Z) : Prop := at_pc ps t (λ o q, owns (op_key o) q x).
Definition dir_holder (ps : pool) (t : Z) : Prop := at_pc ps t (λ _ q, in_dir q).

(** The segment with the record of [k]: its owner, or the new half of it. *)
Definition home w (ps : pool) k s : Prop :=
  own w s k ∨ ∃ t sid pat ld, building ps t sid s ∧
    wo w !! sid = Some (pat, ld) ∧ hash_fn k mod 2 ^ ld = pat ∧ Z.testbit (hash_fn k) ld = true.

Record glob w (ps : pool) : Prop := {
  gl_held : ∀ t x, holding ps t x → ∃ l, locks w !! x = Some l ∧ ver_locked l = true;
  gl_one : ∀ t t' x, owning ps t x → owning ps t' x → t = t';
  gl_dirheld : ∀ t, dir_holder ps t → ver_locked (ct_lock (wc w)) = true;
  gl_dirone : ∀ t t', dir_holder ps t → dir_holder ps t' → t = t';
  gl_dir : ver_locked (ct_lock (wc w)) = false → dir_ok w;
  gl_seg : ∀ s pat ld, wo w !! s = Some (pat, ld) → 0 ≤ ld ≤ kMaxDirDepth + 1 ∧ 0 ≤ pat < 2 ^ ld ∧
    ∀ j, 0 ≤ j < nb → is_Some (locks w !! (s, j)) ∧
      ∃ bk, buckets w !! (s, j) = Some bk ∧ bk_index bk = j ∧ (bk_depth bk = ld ∨ bk_depth bk = ld + 1);
  gl_disj : ∀ s s' x, own_code w s x → own_code w s' x → s = s';
  gl_bucket : ∀ s j bk, buckets w !! (s, j) = Some bk →
    s < ct_nsegs (wc w) ∧ lenZ (bk_tags bk) = ns ∧ lenZ (bk_kvs bk) = ns ∧ 0 ≤ bk_bitmap bk < 2 ^ ns ∧
    ∀ i, Z.testbit (bk_bitmap bk) i = true → (s, j, i) ∈ wu w;
  gl_locks : ∀ s j l, locks w !! (s, j) = Some l → s < ct_nsegs (wc w);
  gl_used : ∀ s j i, (s, j, i) ∈ wu w → ∃ bk, buckets w !! (s, j) = Some bk ∧ 0 ≤ i < ns ∧
    (nthZ (bk_kvs bk) i = Some dense_null ∨ ∃ k, fullk w s j i k);
  gl_full : ∀ s j i k p, full w s j i k p → wm w !! k = Some p ∧ j = bidx k ∧ home w ps k s;
  gl_uniq : ∀ s s' j j' i i' k, fullk w s j i k → fullk w s' j' i' k → s = s' ∧ i = i';
  gl_map : ∀ k p, wm w !! k = Some p → ∃ s i, full w s (bidx k) i k p;
  gl_settled : ∀ s j, s ∈ dom (wo w) → 0 ≤ j < nb → (∀ t, ¬ owning ps t (s, j)) → settled w s j;
  gl_array : ∀ d l, arrays w !! d = Some l → d < ct_narrays (wc w) ∧ ∀ s, s ∈ l → s ∈ dom (wo w);
  gl_haslock : ∀ x, is_Some (buckets w !! x) → is_Some (locks w !! x);
  gl_holder : ∀ x l, locks w !! x = Some l → ver_locked l = true → ∃ t, holding ps t x;
  gl_dirholder : ver_locked (ct_lock (wc w)) = true → ∃ t, dir_holder ps t;
}.

Definition inv w (ps : pool) : Prop :=
  glob w ps ∧ ∀ t o q, ps !! t = Some (o, q) → tinv w o q.

(** *** What a step may do to the other threads *)

(** [H]: the buckets that the thread owns, [D]: it holds the lock of the
    directory. *)
Record guar (H : Z * Z → Prop) (D : Prop) w w' : Prop := {
  gu_lock : ∀ x l, locks w !! x = Some l → ∃ l', locks w' !! x = Some l' ∧ ver_version l ≤ ver_version l' ∧
    (ver_locked l = true → ver_locked l' = false → ver_version l < ver_version l');
  gu_dlock : ver_version (ct_lock (wc w)) ≤ ver_version (ct_lock (wc w')) ∧
    (ver_locked (ct_lock (wc w)) = true → ver_locked (ct_lock (wc w')) = false →
     ver_version (ct_lock (wc w)) < ver_version (ct_lock (wc w')));
  gu_dir : (ver_locked (ct_lock (wc w)) = true ∧ ¬ D ∨
            ver_locked (ct_lock (wc w)) = false ∧ ver_locked (ct_lock (wc w')) = false) →
    ct_lock (wc w') = ct_lock (wc w) ∧ ct_dir (wc w') = ct_dir (wc w) ∧ ct_depth (wc w') = ct_depth (wc w) ∧
    arrays w' = arrays w ∧ wo w' = wo w;
  gu_bucket : ∀ x bk, ¬ H x → buckets w !! x = Some bk → ∃ bk', buckets w' !! x = Some bk' ∧
    bk_bitmap bk' = bk_bitmap bk ∧ bk_tags bk' = bk_tags bk ∧ bk_depth bk' = bk_depth bk ∧ bk_index bk' = bk_index bk;
  gu_fullk : ∀ s j i k, ¬ H (s, j) → is_Some (buckets w !! (s, j)) → fullk w s j i k ↔ fullk w' s j i k;
  gu_used : wu w ⊆ wu w';
  gu_nsegs : ct_nsegs (wc w) ≤ ct_nsegs (wc w');
  gu_unused : ∀ s j i, ¬ H (s, j) → is_Some (buckets w !! (s, j)) → (s, j, i) ∈ wu w' → (s, j, i) ∈ wu w;
  gu_own : ∀ s pat ld, wo w !! s = Some (pat, ld) → wo w' !! s = Some (pat, ld) ∨
    wo w' !! s = Some (pat, ld + 1) ∧ ∀ j, 0 ≤ j < nb → H (s, j);
  gu_new : ∀ s, wo w !! s = None → is_Some (wo w' !! s) → ∀ j, 0 ≤ j < nb → H (s, j);
  gu_array : ∀ d l, arrays w !! d = Some l → ∃ l', arrays w' !! d = Some l' ∧ lenZ l ≤ lenZ l' ∧
    ∀ i s, 0 ≤ i < lenZ l → nthZ l' i = Some s → nthZ l i = Some s ∨
      ∃ lft pat l0, nthZ l i = Some lft ∧ wo w !! lft = Some (pat, l0 + 1) ∧ wo w' !! s = Some (pat + 2 ^ l0, l0 + 1) ∧
        i mod 2 ^ (l0 + 1) = pat + 2 ^ l0 ∧ 0 ≤ l0 ∧ ∀ j, 0 ≤ j < nb → H (lft, j);
}.
End inv.

(** ** Lemmas *)

Section stable.
Context `{Util} `{Dense} `{Simd} `{VerLock} {K : Type} `{Countable K} `{HashFn K}.
Variable cfg : HashConfig.
Hypothesis Hcfg : wf_config cfg.
Variable heap : gmap Z (KVPair K).
Abbreviation nb := (kNBucketInSegment cfg).
Abbreviation ns := (kNSlotInBucket cfg).
Abbreviation bidx k := (bucket_index (hash_fn k) nb).
Abbreviation buckets w := (ct_buckets (wc w)).
Abbreviation locks w := (ct_locks (wc w)).
Abbreviation arrays w := (ct_arrays (wc w)).
Abbreviation fullk := (fullk heap).
Abbreviation settled := (settled heap).

Lemma bidx_ok (k : K) : 0 ≤ bidx k < nb.
Proof. apply Z.mod_pos_bound. apply Hcfg. Qed.

Variable w w' : world K.
Variable A : Z * Z → Prop.
Variable D : Prop.
Hypothesis Hg : guar cfg heap A D w w'.
Hypothesis Hseg : ∀ s j, s ∈ dom (wo w) → 0 ≤ j < nb → is_Some (buckets w !! (s, j)).
Hypothesis HA : ∀ x l, A x → locks w !! x = Some l → x.1 ∈ dom (wo w) → ver_locked l = true.
Implicit Types (k : K) (s j i d g lo v : Z).

Lemma st_bits_but s j X : ¬ A (s, j) → bits_but heap w s j X → bits_but heap w' s j X.
Proof.
  intros Hn (bk & Hb & h1 & h2). destruct (gu_bucket _ _ _ _ _ _ Hg (s, j) bk Hn Hb) as (bk' & Hb' & E1 & E2 & _).
  pose proof (λ i k, gu_fullk _ _ _ _ _ _ Hg s j i k Hn (ex_intro _ bk Hb)) as Hf.
  exists bk'. split; [done|]. rewrite E1, E2. split.
  - intros i Hi Hx. destruct (h1 i Hi Hx) as (k & Hk & Ht). exists k. split; [by apply Hf|done].
  - intros i k Hk Hx. apply (h2 i k); [by apply Hf|done].
Qed.

Lemma st_bhead s j d : ¬ A (s, j) → bhead w s j d → bhead w' s j d.
Proof.
  intros Hn (bk & Hb & <- & <-). destruct (gu_bucket _ _ _ _ _ _ Hg (s, bk_index bk) bk Hn Hb) as (bk' & Hb' & _ & _ & E1 & E2).
  by exists bk'.
Qed.

Lemma st_wo s j x : ¬ A (s, j) → 0 ≤ j < nb → wo w !! s = Some x → wo w' !! s = Some x.
Proof.
  intros Hn Hj Hs. destruct x as [pat ld]. destruct (gu_own _ _ _ _ _ _ Hg s pat ld Hs) as [?|[_ Hx]]; [done|].
  destruct Hn. by apply Hx.
Qed.

Lemma st_wo_none s j : ¬ A (s, j) → 0 ≤ j < nb → wo w !! s = None → wo w' !! s = None.
Proof.
  intros Hn Hj Hs. destruct (wo w' !! s) eqn:E; [|done]. destruct Hn. apply (gu_new _ _ _ _ _ _ Hg s Hs); [by eexists|done].
Qed.

Lemma st_dom s : s ∈ dom (wo w) → s ∈ dom (wo w').
Proof.
  rewrite !elem_of_dom. intros [[pat ld] Hs]. destruct (gu_own _ _ _ _ _ _ Hg s pat ld Hs) as [?|[? _]]; by eexists.
Qed.

Lemma st_settled s j : ¬ A (s, j) → 0 ≤ j < nb → settled w s j → settled w' s j.
Proof.
  intros Hn Hj [Hb (pat & ld & Hs & Hd)]. split; [by apply st_bits_but|]. exists pat, ld.
  split; [by apply (st_wo s j)|by apply st_bhead].
Qed.

Lemma st_fullk s j i k : ¬ A (s, j) → is_Some (buckets w !! (s, j)) → fullk w s j i k ↔ fullk w' s j i k.
Proof. apply (gu_fullk _ _ _ _ _ _ Hg). Qed.

Lemma st_seg_ge s k lo : seg_ge w s k lo → seg_ge w' s k lo.
Proof.
  intros (pat & ld & Hs & Hl & He). destruct (gu_own _ _ _ _ _ _ Hg s pat ld Hs) as [?|[Hs' _]]; [by exists pat, ld|].
  exists pat, (ld + 1). split; [done|]. split; [lia|]. intros ?. lia.
Qed.

(** The entry for [k] of an array after the step. *)
Lemma st_entry d g k lo l l' s :
  entry_ge w d g k lo → arrays w !! d = Some l → arrays w' !! d = Some l' → nthZ l' (hash_fn k mod 2 ^ g) = Some s →
  (nthZ l (hash_fn k mod 2 ^ g) = Some s ∨
   ∃ lft l0 pat, nthZ l (hash_fn k mod 2 ^ g) = Some lft ∧ wo w' !! s = Some (pat, l0 + 1) ∧ lo < l0 + 1 ∧
     ∀ j, 0 ≤ j < nb → A (lft, j)).
Proof.
  intros (Hlo & Hg60 & l2 & Hl2 & Hlen & He) Hl Hl' Hs. assert (l2 = l) as -> by congruence.
  destruct (gu_array _ _ _ _ _ _ Hg d l Hl) as (l2 & Hl2' & Hle & Hx). assert (l2 = l') as -> by congruence.
  pose proof (Z.mod_pos_bound (hash_fn k) (2 ^ g) ltac:(apply Z.pow_pos_nonneg; lia)) as Hr.
  destruct (Hx (hash_fn k mod 2 ^ g) s (conj (proj1 Hr) (Z.lt_le_trans _ _ _ (proj2 Hr) Hlen)) Hs) as [?|(lft & pat & l0 & Hlft & Hw & Hw' & Hm & Hl0 & HAl)]; [by left|right].
  exists lft, l0, (pat + 2 ^ l0). split; [done|]. split; [done|]. split; [|done].
  destruct (He lft Hlft) as (pat' & ld & Hw2 & Hge & Heq). assert (pat' = pat ∧ ld = l0 + 1) as [-> ->] by (split; congruence).
  destruct (decide (lo = l0 + 1)) as [Hlo'|]; [|lia]. exfalso. specialize (Heq ltac:(lia)).
  rewrite mod_mod_pow in Hm by lia. rewrite Hlo' in Heq. rewrite <-Heq in Hm.
  assert (0 < 2 ^ l0) by (by apply Z.pow_pos_nonneg). lia.
Qed.

Lemma st_entry_ge d g k lo : entry_ge w d g k lo → entry_ge w' d g k lo.
Proof.
  intros He. pose proof He as (Hlo & Hg60 & l & Hl & Hlen & Hx). split; [done|]. split; [done|].
  destruct (gu_array _ _ _ _ _ _ Hg d l Hl) as (l' & Hl' & Hle & _). exists l'. split; [done|]. split; [lia|].
  intros s Hs. destruct (st_entry d g k lo l l' s He Hl Hl' Hs) as [Hs0|(lft & l0 & pat & _ & Hw & Hlt & _)].
  - apply st_seg_ge. by apply Hx.
  - exists pat, (l0 + 1). split; [done|]. split; [lia|]. intros ?. lia.
Qed.

Lemma st_entry_uniq d g k lo s : entry_ge w d g k lo → entry_uniq w d g k lo s → entry_uniq w' d g k lo s.
Proof.
  intros He Hu x pat Hx Hw. pose proof He as (Hlo & Hg60 & l & Hl & Hlen & Hge).
  unfold entry_at in Hx. destruct (arrays w' !! d) as [l'|] eqn:Hl'; [|done]. simpl in Hx.
  destruct (st_entry d g k lo l l' x He Hl Hl' Hx) as [Hs0|(lft & l0 & pat' & _ & Hw' & Hlt & _)].
  - destruct (Hge x Hs0) as (pat0 & ld & Hw0 & Hle & Heq).
    assert (ld = lo) as ->.
    { destruct (gu_own _ _ _ _ _ _ Hg x pat0 ld Hw0) as [E|[E _]]; rewrite E in Hw; injection Hw; lia. }
    apply (Hu x pat0); [|done]. unfold entry_at. by rewrite Hl.
  - rewrite Hw' in Hw. injection Hw. lia.
Qed.

Lemma st_entry_at d g k lo s j :
  entry_ge w d g k lo ∨ 0 ≤ g → ¬ A (s, j) → 0 ≤ j < nb →
  entry_at (wc w) d (hash_fn k mod 2 ^ g) = Some s → entry_at (wc w') d (hash_fn k mod 2 ^ g) = Some s.
Proof.
  intros He Hn Hj Hs. unfold entry_at in *. destruct (arrays w !! d) as [l|] eqn:Hl; [|done]. simpl in Hs.
  destruct (gu_array _ _ _ _ _ _ Hg d l Hl) as (l' & Hl' & Hle & Hx). rewrite Hl'. simpl.
  pose proof (nthZ_Some _ _ _ Hs) as Hr. destruct (nthZ_is_Some l' (hash_fn k mod 2 ^ g)) as [s' Hs']; [lia|].
  destruct (Hx _ s' Hr Hs') as [?|(lft & pat & l0 & Hlft & _ & _ & _ & _ & HAl)]; [congruence|].
  assert (lft = s) as -> by congruence. destruct Hn. by apply HAl.
Qed.

(** *** With a version *)

Lemma st_tok_dir v (P Q : Prop) :
  (ct_dir (wc w') = ct_dir (wc w) → ct_depth (wc w') = ct_depth (wc w) → arrays w' = arrays w → wo w' = wo w → P → Q) →
  tok_dir w v P → tok_dir w' v Q.
Proof.
  intros HPQ [Hv HP]. destruct (gu_dlock _ _ _ _ _ _ Hg) as [Hle Hlt]. split; [lia|]. intros Hf Hv'.
  destruct (ver_locked (ct_lock (wc w))) eqn:Ef; [specialize (Hlt eq_refl Hf); lia|].
  destruct (gu_dir _ _ _ _ _ _ Hg) as (_ & E1 & E2 & E3 & E4); [by right|]. apply HPQ; [done..|].
  apply HP; [done|lia].
Qed.

Lemma st_tok s j v (P Q : Prop) :
  s ∈ dom (wo w) → (¬ A (s, j) → P → Q) → tok w s j v P → tok w' s j v Q.
Proof.
  intros Hs HPQ (l & Hl & Hv & HP). destruct (gu_lock _ _ _ _ _ _ Hg _ l Hl) as (l' & Hl' & Hle & Hlt).
  exists l'. split; [done|]. split; [lia|]. intros Hf Hv'.
  destruct (ver_locked l) eqn:Ef; [specialize (Hlt eq_refl Hf); lia|]. apply HPQ; [|apply HP; [done|lia]].
  intros Ha. pose proof (HA _ l Ha Hl Hs). congruence.
Qed.

Lemma st_own s j k : ¬ A (s, j) → 0 ≤ j < nb → own w s k → own w' s k.
Proof. intros Hn Hj (pat & ld & Hs & Hk). exists pat, ld. split; [by apply (st_wo s j)|done]. Qed.

Lemma st_dir_fact k d g s : ¬ A (s, bidx k) → dir_fact w k d g s → dir_fact w' k d g s.
Proof.
  intros Hn (ld & Hs & He). exists ld. split; [by apply (st_wo s (bidx k)); [|apply bidx_ok|]|by apply st_entry_ge].
Qed.

Lemma same_dir_fact k d g s : arrays w' = arrays w → wo w' = wo w → dir_fact w k d g s → dir_fact w' k d g s.
Proof. unfold dir_fact, entry_ge. by intros -> ->. Qed.

Lemma st_under k md s (P Q : Prop) :
  (match md with Excl _ _ => ¬ A (s, bidx k) | _ => True end) →
  (¬ A (s, bidx k) → s ∈ dom (wo w) → P → Q) →
  under cfg heap w k md s P → under cfg heap w' k md s Q.
Proof.
  intros Hn HPQ. destruct md as [v|d g]; simpl.
  - intros [Hs Ht]. split; [by apply st_dom|]. apply (st_tok s (bidx k) v (own w s k ∧ P)); [done| |done].
    intros HnA [Ho HP]. split; [by apply (st_own s (bidx k)); [|apply bidx_ok|]|by apply HPQ].
  - intros (Hd & Hs & HP). split; [by apply st_dir_fact|]. split; [apply st_settled; [done|apply bidx_ok|done]|].
    apply HPQ; [done| |done]. destruct Hs as [_ (pat & ld & Hw & _)]. apply elem_of_dom. by eexists.
Qed.

Lemma st_mask_ok md s j mask :
  (match md with Excl _ _ => ¬ A (s, j) | _ => True end) → is_Some (buckets w !! (s, j)) →
  mask_ok cfg heap w md s j mask → mask_ok cfg heap w' md s j mask.
Proof.
  intros Hn Hb [h1 h2]. split; [done|]. intros i Hi. destruct (h2 i Hi) as [Hu Hf]. split; [by apply (gu_used _ _ _ _ _ _ Hg)|].
  destruct md as [|d g]; [done|]. destruct Hf as [k Hk]. exists k. by apply st_fullk.
Qed.

Lemma under_dom k md s (P : Prop) : under cfg heap w k md s P → s ∈ dom (wo w).
Proof.
  destruct md as [v|d g]; [by intros [Hs _]|]. intros (_ & [_ (pat & ld & Hs & _)] & _). apply elem_of_dom. by eexists.
Qed.
Lemma under_bucket k md s (P : Prop) : under cfg heap w k md s P → is_Some (buckets w !! (s, bidx k)).
Proof. intros Hu. apply Hseg; [by eapply under_dom|apply bidx_ok]. Qed.

(** *** Splits *)

Lemma st_unused s j : ¬ A (s, j) → is_Some (buckets w !! (s, j)) → unused w s j → unused w' s j.
Proof. intros Hn Hb Hu i Hi. apply (Hu i). by apply (gu_unused _ _ _ _ _ _ Hg s j i Hn Hb). Qed.

Lemma bits_bucket s j X : bits_but heap w s j X → is_Some (buckets w !! (s, j)).
Proof. intros (bk & Hb & _). by eexists. Qed.

Lemma st_separate s j d : ¬ A (s, j) → is_Some (buckets w !! (s, j)) → separate heap w s j d → separate heap w' s j d.
Proof. intros Hn Hb Hs i k Hk. apply (Hs i k). by apply (st_fullk s j i k Hn Hb). Qed.

Lemma st_split_done d s r j : ¬ A (s, j) → ¬ A (r, j) → split_done heap w d s r j → split_done heap w' d s r j.
Proof.
  intros Hn Hn' (h1 & h2 & h3 & h4 & h5). split; [by apply st_bits_but|]. split; [by apply st_bits_but|].
  split; [by apply st_bhead|]. split; [by apply st_bhead|]. apply st_separate; [done|by eapply bits_bucket|done].
Qed.

Lemma st_is_bucket s j : is_Some (buckets w !! (s, j)) → ¬ A (s, j) → is_Some (buckets w' !! (s, j)).
Proof. intros [bk Hb] Hn. destruct (gu_bucket _ _ _ _ _ _ Hg (s, j) bk Hn Hb) as (bk' & Hb' & _). by exists bk'. Qed.

Lemma st_split_todo d s r j : ¬ A (s, j) → ¬ A (r, j) → split_todo heap w d s r j → split_todo heap w' d s r j.
Proof.
  intros Hn Hn' (h1 & h2 & h3 & h4). split; [by apply st_bits_but|]. split; [by apply st_bhead|].
  split; [by apply st_is_bucket|by apply st_unused].
Qed.

Lemma st_copying d s r j : ¬ A (s, j) → ¬ A (r, j) → copying heap w d s r j → copying heap w' d s r j.
Proof.
  intros Hn Hn' (h1 & h2 & h3 & h4 & bk & bk' & Hb & Hb' & Et & Em). split; [by apply st_bits_but|].
  split; [by apply st_bhead|]. split; [by apply st_bhead|]. split; [apply st_unused; [done|by eexists|done]|].
  destruct (gu_bucket _ _ _ _ _ _ Hg _ bk Hn Hb) as (c & Hc & E1 & E2 & _).
  destruct (gu_bucket _ _ _ _ _ _ Hg _ bk' Hn' Hb') as (c' & Hc' & E1' & E2' & _).
  exists c, c'. split; [done|]. split; [done|]. split; congruence.
Qed.

Lemma st_moving d s r j mask cand : ¬ A (s, j) → ¬ A (r, j) → moving cfg heap w d s r j mask cand → moving cfg heap w' d s r j mask cand.
Proof.
  intros Hn Hn' (h1 & h2 & bk & bk' & Hb & Hb' & g1 & g2 & g3 & g4 & g5 & g6 & g7 & g8 & g9 & g10 & g11). split; [done|]. split; [done|].
  destruct (gu_bucket _ _ _ _ _ _ Hg _ bk Hn Hb) as (c & Hc & E1 & E2 & E3 & E4).
  destruct (gu_bucket _ _ _ _ _ _ Hg _ bk' Hn' Hb') as (c' & Hc' & E1' & E2' & E3' & E4').
  pose proof (λ i k, st_fullk s j i k Hn (ex_intro _ bk Hb)) as Hf.
  pose proof (λ i k, st_fullk r j i k Hn' (ex_intro _ bk' Hb')) as Hf'.
  exists c, c'. rewrite E1, E2, E3, E4, E1', E2', E3', E4'. do 10 (split; [done|]). split; [|split].
  - intros i Hi. destruct (g9 i Hi) as (k & Ht & Hk). exists k. split; [done|]. destruct (Z.testbit cand i); [by apply Hf'|].
    destruct Hk as [Hk Hx]. split; [by apply Hf|done].
  - intros i k Hk. apply (g10 i k). by apply Hf.
  - intros i k Hk. apply (g11 i k). by apply Hf'.
Qed.

(** *** Every thread *)

Lemma st_all_settled s : (∀ j, 0 ≤ j < nb → ¬ A (s, j)) → all_settled cfg heap w s → all_settled cfg heap w' s.
Proof. intros Hn Hs j Hj. apply st_settled; [by apply Hn|done|by apply Hs]. Qed.

Lemma st_splitting k local sid lft rgt :
  (∀ j, 0 ≤ j < nb → ¬ A (sid, j) ∧ ¬ A (rgt, j)) → splitting w k local sid lft rgt → splitting w' k local sid lft rgt.
Proof.
  intros Hn (-> & Hl & Hs & Hr & Hlt). pose proof (bidx_ok k) as Hb. destruct (Hn _ Hb) as [N1 N2].
  split; [done|]. split; [done|]. split; [by apply (st_wo sid (bidx k))|]. split; [by apply (st_wo_none rgt (bidx k))|].
  pose proof (gu_nsegs _ _ _ _ _ _ Hg). lia.
Qed.

Lemma st_split_rest d s r j :
  (∀ j, 0 ≤ j < nb → ¬ A (s, j) ∧ ¬ A (r, j)) → 0 ≤ j ≤ nb → split_rest cfg heap w d s r j → split_rest cfg heap w' d s r j.
Proof.
  intros Hn Hj [h1 h2]. split; intros j' Hj'; destruct (Hn j' ltac:(lia)) as [N1 N2].
  - apply st_split_done; [done|done|by apply h1].
  - apply st_split_todo; [done|done|by apply h2].
Qed.

Lemma st_published k local sid rgt :
  wo w' = wo w → (∀ j, 0 ≤ j < nb → ¬ A (sid, j)) → published cfg heap w k local sid rgt → published cfg heap w' k local sid rgt.
Proof. intros E Hn (h1 & h2 & h3 & h4). unfold published. rewrite E. do 3 (split; [done|]). by apply st_all_settled. Qed.

Lemma st_dir_but d g lft pat local pid :
  wo w' = wo w → arrays w' = arrays w → dir_but w d g lft pat local pid → dir_but w' d g lft pat local pid.
Proof. unfold dir_but. by intros -> ->. Qed.

Lemma st_dir_ok :
  ct_dir (wc w') = ct_dir (wc w) → ct_depth (wc w') = ct_depth (wc w) → wo w' = wo w → arrays w' = arrays w → dir_ok w → dir_ok w'.
Proof. unfold dir_ok. by intros -> -> -> ->. Qed.

Lemma st_inserting k sid idx :
  ¬ A (sid, bidx k) → inserting cfg heap w k sid idx → inserting cfg heap w' k sid idx.
Proof.
  intros Hn (h1 & h2 & h3 & pat & ld & h4 & h5). pose proof (bits_bucket _ _ _ h3) as Hb. split; [done|].
  split; [by apply (st_fullk sid (bidx k) idx k Hn Hb)|]. split; [by apply st_bits_but|]. exists pat, ld.
  split; [by apply (st_wo sid (bidx k)); [|apply bidx_ok|]|by apply st_bhead].
Qed.

Lemma st_cas_slot o md sid mask idx :
  (match md with Excl _ _ => ¬ A (sid, bidx (op_key o)) | _ => True end) →
  cas_slot cfg heap w o md sid mask idx → cas_slot cfg heap w' o md sid mask idx.
Proof.
  intros Hn (h1 & h2 & h3 & h4 & h5 & h6 & h7). split; [done|]. split; [done|]. split; [|split; [apply st_mask_ok; [done|by eapply under_bucket|done]|split; [|split; [done|]]]].
  - eapply st_under; [done| |exact h3]. intros HnA Hs Hm i Hi. apply Hm.
    apply (st_fullk sid (bidx (op_key o)) i _ HnA); [apply Hseg; [done|apply bidx_ok]|done].
  - by apply (gu_used _ _ _ _ _ _ Hg).
  - destruct md as [|d g]; [done|]. destruct h3 as (_ & [Hb _] & _). by apply (st_fullk sid (bidx (op_key o)) idx _ Hn (bits_bucket _ _ _ Hb)).
Qed.

Lemma tinv_stable o q :
  (∀ x, owns cfg (op_key o) q x → ¬ A x) → (in_dir q → ver_locked (ct_lock (wc w)) = true ∧ ¬ D) →
  tinv cfg heap w o q → tinv cfg heap w' o q.
Proof.
  intros Ho Hd [Hl Ht]. split; [done|]. set (k := op_key o) in *. pose proof (bidx_ok k) as Hbk.
  assert (holds cfg k q (match q with PValidX _ _ _ sid | PMask _ sid _ _ | PScan _ sid _ | PCas _ sid _ _ _ | PReload _ sid _ _
    | PFree _ _ sid | PTag sid _ | PBit sid _ | PUnlock sid _ | PFull _ _ sid | PFullUnlock _ _ sid _ => (sid, bidx k) | _ => (0, 0) end) →
    ¬ A (match q with PValidX _ _ _ sid | PMask _ sid _ _ | PScan _ sid _ | PCas _ sid _ _ _ | PReload _ sid _ _
    | PFree _ _ sid | PTag sid _ | PBit sid _ | PUnlock sid _ | PFull _ _ sid | PFullUnlock _ _ sid _ => (sid, bidx k) | _ => (0, 0) end)) as Q1.
  { intros Hh. apply Ho. by left. }
  assert (in_dir q → ct_dir (wc w') = ct_dir (wc w) ∧ ct_depth (wc w') = ct_depth (wc w) ∧ arrays w' = arrays w ∧ wo w' = wo w) as Q2.
  { intros Hi. destruct (gu_dir _ _ _ _ _ _ Hg) as (_ & ? & ? & ? & ?); [left; by apply Hd|done]. }
  assert (∀ sid, (∀ j, 0 ≤ j < nb → holds cfg k q (sid, j)) → ∀ j, 0 ≤ j < nb → ¬ A (sid, j)) as Q3.
  { intros sid Hh j Hj. apply Ho. left. by apply Hh. }
  assert (∀ sid rgt, builds q = Some (sid, rgt) → (∀ j, 0 ≤ j < nb → holds cfg k q (sid, j)) → ∀ j, 0 ≤ j < nb → ¬ A (sid, j) ∧ ¬ A (rgt, j)) as Q4.
  { intros sid rgt Hq Hh j Hj. split; [by apply (Q3 sid)|]. apply Ho. right. by exists sid. }
  clear Hd. destruct q; simpl in Q1, Q2; cbn [tinv] in Ht |- *; fold k in Ht |- *.
  - done.
  - by eapply st_tok_dir; [|exact Ht].
  - eapply st_tok_dir; [|exact Ht]. congruence.
  - eapply st_tok_dir; [|exact Ht]. intros -> -> _ _. done.
  - destruct Ht as (Ht & Hg0 & l & Hla & Hle). split; [eapply st_tok_dir; [|exact Ht]; by intros -> -> _ _|]. split; [done|].
    destruct (gu_array _ _ _ _ _ _ Hg _ l Hla) as (l' & Hl' & Hle' & _). exists l'. split; [done|]. lia.
  - destruct Ht as (Hu & Hs & Ht). split; [done|]. split; [by apply st_dom|]. eapply st_tok_dir; [|exact Ht].
    intros _ _ _ E. unfold own, own_code. by rewrite E.
  - destruct Ht as (Hu & Hs & Ht & Hv). split; [done|]. split; [by apply st_dom|]. split.
    + eapply st_tok_dir; [|exact Ht]. intros _ _ _ E. unfold own, own_code. by rewrite E.
    + by eapply st_tok; [exact Hs| |exact Hv].
  - destruct Ht as (Hu & Hs & Ht). split; [done|]. split; [by apply st_dom|]. eapply st_tok_dir; [|exact Ht].
    intros _ _. apply same_dir_fact.
  - destruct Ht as (Hu & Hs & Ht). split; [done|]. split; [apply st_settled; [by apply Q1|done|done]|]. eapply st_tok_dir; [|exact Ht].
    intros _ _. apply same_dir_fact.
  - destruct Ht as (Hm & Ht & Hx & Hn). split; [done|]. split; [|split; [|done]].
    + eapply st_under; [|  |exact Ht]; [by destruct md; [|apply Q1]|]. intros HnA Hs Hm' i Hi. apply Hm'.
      apply (st_fullk sid (bidx k) i _ HnA); [by apply Hseg|done].
    + intros x Ex. apply st_mask_ok; [by destruct md; [|apply Q1]|by eapply under_bucket|by apply Hx].
  - destruct Ht as (Hm & Ht & Hx). split; [done|]. split; [|apply st_mask_ok; [by destruct md; [|apply Q1]|by eapply under_bucket|done]].
    eapply st_under; [| |exact Ht]; [by destruct md; [|apply Q1]|]. intros HnA Hs Hm' i Hi. apply Hm'.
    apply (st_fullk sid (bidx k) i _ HnA); [by apply Hseg|done].
  - destruct Ht as [Ht Hc]. split; [|done]. apply st_cas_slot; [by destruct md; [|apply Q1]|done].
  - apply st_cas_slot; [by destruct md; [|apply Q1]|done].
  - destruct Ht as [Hm Ht]. split; [done|]. eapply (st_under _ (Shared v)); [done| |exact Ht]. intros HnA Hs Hn i Hi. apply (Hn i).
    apply (st_fullk sid (bidx k) i _ HnA); [by apply Hseg|done].
  - destruct Ht as [Hu Ht]. split; [done|]. eapply (st_under _ (Excl d g)); [by apply Q1| |exact Ht]. intros HnA Hs Hn i Hi. apply (Hn i).
    apply (st_fullk sid (bidx k) i _ HnA); [by apply Hseg|done].
  - by apply st_inserting; [apply Q1|].
  - destruct Ht as (Hi & bk & Hb & Ht). split; [by apply st_inserting; [apply Q1|]|].
    destruct (gu_bucket _ _ _ _ _ _ Hg _ bk (Q1 eq_refl) Hb) as (bk' & Hb' & _ & E & _). exists bk'. by rewrite E.
  - apply st_settled; [by apply Q1|done|done].
  - destruct Ht as [Hf Hs]. split; [by apply st_dir_fact; [apply Q1|]|]. apply st_settled; [by apply Q1|done|done].
  - destruct Ht as [Hs Hf]. split; [apply st_settled; [by apply Q1|done|done]|]. by apply st_entry_ge.
  - by apply st_entry_ge.
  - destruct Ht as (h1 & h2 & h3 & h4 & h5). split; [by apply st_entry_ge|]. split; [by apply st_entry_uniq|].
    split; [by apply st_seg_ge|]. split; [done|]. intros j' Hj'. apply st_settled; [|lia|by apply h5].
    apply Ho. by left.
  - destruct Ht as (h1 & h2 & h3). split; [by apply st_entry_ge|]. split; [by apply st_entry_uniq|].
    apply st_all_settled; [apply (Q3 sid); done|done].
  - destruct Ht as (h1 & h3 & pat & ld & h4 & h5 & h6). split; [by apply st_entry_ge|].
    split; [apply st_all_settled; [apply (Q3 sid); done|done]|].
    destruct (gu_own _ _ _ _ _ _ Hg _ pat ld h4) as [E|[E _]]; [|exists pat, (ld + 1); split; [done|split; [lia|intros; lia]]].
    exists pat, ld. split; [done|]. split; [done|]. intros El. destruct (h6 El) as (-> & Ep & Ee). split; [done|]. split; [done|].
    apply (st_entry_at _ _ _ local _ (bidx k)); [by left|by apply (Q3 sid)|done|done].
  - destruct Ht as (h0 & h1 & h2 & h3 & h4). split; [done|]. split; [done|]. split; [apply (st_wo sid (bidx k)); [by apply (Q3 sid)|done|done]|].
    split; [apply st_all_settled; [apply (Q3 sid); done|done]|].
    apply (st_entry_at _ _ _ local _ (bidx k)); [by right|by apply (Q3 sid)|done|done].
  - destruct Ht as (-> & h1 & h2 & h3). split; [done|]. split; [done|]. split; [apply (st_wo sid (bidx k)); [by apply (Q3 sid)|done|done]|].
    apply st_all_settled; [apply (Q3 sid); done|done].
  - destruct Ht as (h1 & h2 & h3 & h4). pose proof (Q4 _ _ eq_refl (λ j Hj, conj eq_refl Hj)) as Hn.
    split; [by apply st_splitting|]. split; [done|]. split; [by apply st_split_rest|]. intros Hj.
    destruct (Hn j ltac:(lia)). apply st_split_todo; [done|done|by apply h4].
  - destruct Ht as (h1 & h2 & h3 & h4 & h5). pose proof (Q4 _ _ eq_refl (λ j Hj, conj eq_refl Hj)) as Hn.
    split; [by apply st_splitting|]. split; [done|]. split; [by apply st_split_rest; [|lia|]|]. split; [|done].
    destruct (Hn j ltac:(lia)). by apply st_copying.
  - destruct Ht as (h1 & h2 & h3 & h4). pose proof (Q4 _ _ eq_refl (λ j Hj, conj eq_refl Hj)) as Hn.
    split; [by apply st_splitting|]. split; [done|]. split; [by apply st_split_rest; [|lia|]|].
    destruct (Hn j ltac:(lia)). by apply st_moving.
  - destruct Ht as (h1 & h2 & h3 & cand0 & k' & h4 & h5 & h6 & h7 & h8). pose proof (Q4 _ _ eq_refl (λ j Hj, conj eq_refl Hj)) as Hn.
    split; [by apply st_splitting|]. split; [done|]. split; [by apply st_split_rest; [|lia|]|].
    destruct (Hn j ltac:(lia)). exists cand0, k'. split; [done|]. split; [by apply st_moving|]. split; [done|]. split; [|done].
    destruct h5 as (_ & _ & bk & bk' & Hb & _). apply (st_fullk sid j idx k'); [done|by eexists|done].
  - destruct Ht as (h1 & h2 & h3 & h4). pose proof (Q4 _ _ eq_refl (λ j Hj, conj eq_refl Hj)) as Hn.
    split; [by apply st_splitting|]. split; [done|]. split; [by apply st_split_rest; [|lia|]|].
    destruct (Hn j ltac:(lia)). by apply st_moving.
  - destruct Ht as (h1 & h2 & h3 & h4 & h5 & h6 & h7 & h8). pose proof (Q4 _ _ eq_refl (λ j Hj, conj eq_refl Hj)) as Hn.
    split; [by apply st_splitting|]. split; [done|]. split; [by apply st_split_rest; [|lia|]|].
    destruct (Hn j ltac:(lia)). split; [by apply st_bits_but|]. split; [by apply st_bits_but|]. split; [by apply st_bhead|].
    split; [by apply st_bhead|]. apply st_separate; [done|by eapply bits_bucket|done].
  - destruct Ht as (h1 & h2). pose proof (Q4 _ _ eq_refl (λ j Hj, conj eq_refl Hj)) as Hn.
    split; [by apply st_splitting|]. intros j Hj. destruct (Hn j Hj). by apply st_split_done; [| |apply h2].
  - destruct Ht as (h1 & h2). pose proof (Q4 _ _ eq_refl (λ j Hj, conj eq_refl Hj)) as Hn.
    split; [by apply st_splitting|]. intros j Hj. destruct (Hn j Hj). by apply st_split_done; [| |apply h2].
  - destruct Ht as (h1 & h2 & h3). destruct (Q2 I) as (-> & -> & Ea & Eo). split; [apply st_published; [done|by apply (Q3 sid)|done]|].
    split; [by apply st_dir_but|done].
  - destruct Ht as (h1 & h2 & h3 & h4 & h5). destruct (Q2 I) as (-> & -> & Ea & Eo). split; [apply st_published; [done|by apply (Q3 sid)|done]|].
    do 3 (split; [done|]). by apply st_dir_but.
  - destruct Ht as (h1 & h2 & h3 & h4 & h5 & h6 & h7 & h8). destruct (Q2 I) as (-> & -> & Ea & Eo). split; [apply st_published; [done|by apply (Q3 sid)|done]|].
    do 5 (split; [done|]). split; [by rewrite Ea|by apply st_dir_but].
  - destruct Ht as (h1 & h2 & h3 & h4 & h5 & h6 & h7 & h8). destruct (Q2 I) as (-> & -> & Ea & Eo). split; [apply st_published; [done|by apply (Q3 sid)|done]|].
    do 5 (split; [done|]). split; [by rewrite Ea|by apply st_dir_but].
  - destruct Ht as (h1 & h2 & h3 & h4 & h5 & h6). destruct (Q2 I) as (-> & -> & Ea & Eo). split; [apply st_published; [done|by apply (Q3 sid)|done]|].
    do 4 (split; [done|]). by apply st_dir_but.
  - destruct Ht as (h1 & h2). destruct (Q2 I) as (E1 & E2 & Ea & Eo). split; [apply st_all_settled; [by apply (Q3 sid)|done]|]. by apply st_dir_ok.
  - destruct Ht as (h1 & h2). split; [done|]. intros j' Hj'. apply st_settled; [|lia|by apply h2]. apply Ho. by left.
  - done.
  - done.
Qed.
End stable.
