(* ===== verification/ConcStep.v ===== *)
(** * Steps of the concurrent hash table that write nothing

    [good]: a step keeps the invariant of [ConcInv] and is either no step or the
    effect of the call on the map.  This file has the steps that only read, and
    those that take or release a lock. *)

From S2P Require Export ConcInv.

(** ** Definitions *)

Section good.
Context `{Util} `{Dense} `{Simd} `{VerLock} {K : Type} `{Countable K} `{HashFn K}.
Variable cfg : HashConfig.
Variable heap : gmap Z (KVPair K).

(** The result of the call, once it has taken effect. *)
Definition decided (q : pc) : option Z :=
  match q with
  | PTag _ _ | PBit _ _ => Some kNotFound
  | PUnlock _ r => r
  | PDone r => Some r
  | _ => None
  end.

Definition effect (m : gmap K Z) (o : table_op K) (q : pc) (m' : gmap K Z) (q' : pc) : Prop :=
  match decided q with
  | Some r => m' = m ∧ decided q' = Some r
  | None => (m' = m ∧ decided q' = None) ∨ ∃ r, atomic_op heap m o = (m', r) ∧ decided q' = Some r
  end.

Definition good (w : world K) (ps : gmap Z (table_op K * pc)) (t : Z) (o : table_op K) (q : pc) (out : outcome) : Prop :=
  match out with
  | Next c' q' => ∃ w', wc w' = c' ∧ inv cfg heap w' (<[t := (o, q')]> ps) ∧ effect (wm w) o q (wm w') q'
  | Fault => False
  | Blocked | Terminate => True
  end.
End good.

(** ** Lemmas *)

Section steps.
Context `{UtilSpec} `{DenseSpec} `{SimdSpec} `{VerLockSpec} {K : Type} `{Countable K} `{HashFnSpec K}.
Variable cfg : HashConfig.
Hypothesis Hcfg : wf_config cfg.
Variable heap : gmap Z (KVPair K).
Abbreviation nb := (kNBucketInSegment cfg).
Abbreviation ns := (kNSlotInBucket cfg).
Abbreviation bidx k := (bucket_index (hash_fn k) nb).
Abbreviation buckets w := (ct_buckets (wc w)).
Abbreviation locks w := (ct_locks (wc w)).
Abbreviation arrays w := (ct_arrays (wc w)).
Abbreviation fullk := (fullk heap).
Abbreviation settled := (settled heap).
Abbreviation inv := (inv cfg heap).
Abbreviation glob := (glob cfg heap).
Abbreviation tinv := (tinv cfg heap).
Abbreviation guar := (guar cfg heap).
Abbreviation good := (good cfg heap).
Implicit Types (w : world K) (ps : gmap Z (table_op K * pc)) (t s j i d g v : Z) (o : table_op K) (q : pc) (k : K).

(** *** The pool *)

Lemma at_pc_insert ps t o q t' (P : table_op K → pc → Prop) :
  at_pc (<[t := (o, q)]> ps) t' P ↔ (t' = t ∧ P o q) ∨ (t' ≠ t ∧ at_pc ps t' P).
Proof.
  unfold at_pc. destruct (decide (t' = t)) as [->|Hne].
  - rewrite lookup_insert_eq. split; [intros (o' & q' & [= <- <-] & HP); by left|].
    intros [[_ HP]|[? _]]; [by exists o, q|done].
  - rewrite lookup_insert_ne by done. split; [by right|]. by intros [[? _]|[_ ?]].
Qed.

Lemma at_pc_here ps t o q (P : table_op K → pc → Prop) : ps !! t = Some (o, q) → at_pc ps t P ↔ P o q.
Proof.
  intros Hps. unfold at_pc. rewrite Hps. split; [intros (o' & q' & E & HP); by injection E as <- <-|]. intros HP. by exists o, q.
Qed.

(** Pools that hold and build the same. *)
Definition same_pool ps ps' : Prop := ∀ t,
  (∀ x, holding cfg ps' t x ↔ holding cfg ps t x) ∧ (∀ x, owning cfg ps' t x ↔ owning cfg ps t x) ∧
  (∀ sid rgt, building ps' t sid rgt ↔ building ps t sid rgt) ∧ (dir_holder ps' t ↔ dir_holder ps t).

Lemma glob_pool w ps ps' : same_pool ps ps' → glob w ps → glob w ps'.
Proof.
  intros Hs [h1 h2 h3 h4 h5 h6 h7 h8 hl h9 h10 h11 h12 h13 h14 h15 h16 h17]. constructor; try done.
  - intros t x Hx. apply (h1 t x). by apply (Hs t).
  - intros t t' x Hx Hx'. apply (h2 t t' x); [by apply (Hs t)|by apply (Hs t')].
  - intros t Hx. apply (h3 t). by apply (Hs t).
  - intros t t' Hx Hx'. apply h4; [by apply (Hs t)|by apply (Hs t')].
  - intros s j i k p Hf. destruct (h10 s j i k p Hf) as (E1 & E2 & Hh). split; [done|]. split; [done|].
    destruct Hh as [Ho|(t & sid & pat & ld & Hb & Hr)]; [by left|right]. exists t, sid, pat, ld. split; [by apply (Hs t)|done].
  - intros s j Hd Hj Hn. apply h13; [done|done|]. intros t Hx. apply (Hn t). by apply (Hs t).
  - intros x l Hl Hk. destruct (h16 x l Hl Hk) as [t Ht]. exists t. by apply (Hs t).
  - intros Hk. destruct (h17 Hk) as [t Ht]. exists t. by apply (Hs t).
Qed.

Lemma same_pool_insert ps t o q q' :
  ps !! t = Some (o, q) → (∀ x, holds cfg (op_key o) q' x ↔ holds cfg (op_key o) q x) → builds q' = builds q →
  (in_dir q' ↔ in_dir q) → same_pool ps (<[t := (o, q')]> ps).
Proof.
  intros Hps Hh Hb Hd t'.
  assert (∀ P : table_op K → pc → Prop, (P o q' ↔ P o q) → at_pc (<[t := (o, q')]> ps) t' P ↔ at_pc ps t' P) as Hat.
  { intros P HP. rewrite at_pc_insert. destruct (decide (t' = t)) as [->|Hne]; [|tauto].
    rewrite (at_pc_here ps t o q P Hps). tauto. }
  split; [|split; [|split]].
  - intros x. by apply Hat.
  - intros x. apply Hat. unfold owns. by rewrite Hh, Hb.
  - intros sid rgt. apply Hat. by rewrite Hb.
  - by apply Hat.
Qed.

(** *** One thread at a time *)

Lemma guar_refl A D w : guar A D w w.
Proof.
  constructor; try done.
  - intros x l Hl. exists l. split; [done|]. split; [lia|]. congruence.
  - split; [lia|]. congruence.
  - intros x bk _ Hb. by exists bk.
  - intros s pat ld Hs. by left.
  - intros s Hs [x Hx]. congruence.
  - intros d l Hl. exists l. split; [done|]. split; [lia|]. by left.
Qed.

Section one.
Variable w : world K.
Variable ps : gmap Z (table_op K * pc).
Variable t : Z.
Variable o : table_op K.
Variable q : pc.
Hypothesis Hinv : inv w ps.
Hypothesis Hps : ps !! t = Some (o, q).
Abbreviation key := (op_key o).

Lemma the_glob : glob w ps.
Proof. apply Hinv. Qed.
Lemma the_tinv : tinv w o q.
Proof. by apply Hinv in Hps. Qed.

Lemma pool_bucket s j : s ∈ dom (wo w) → 0 ≤ j < nb → is_Some (buckets w !! (s, j)).
Proof.
  intros [[pat ld] Hs]%elem_of_dom Hj. destruct (gl_seg _ _ _ _ the_glob s pat ld Hs) as (_ & _ & Hx).
  destruct (Hx j Hj) as (_ & bk & Hb & _). by exists bk.
Qed.

(** What a thread owns is locked, or not in the directory yet. *)
Lemma build_new t' sid rgt : building ps t' sid rgt → wo w !! rgt = None ∧ rgt < ct_nsegs (wc w).
Proof.
  intros (o' & q' & Hq' & Hb). apply Hinv in Hq'. destruct Hq' as [_ Hq'].
  destruct q'; try discriminate Hb; injection Hb as <- <-; simpl in Hq'.
  all: destruct Hq' as ((_ & _ & _ & ? & ?) & _); done.
Qed.

Lemma own_locked t' x l : owning cfg ps t' x → locks w !! x = Some l → x.1 ∈ dom (wo w) → ver_locked l = true.
Proof.
  intros (o' & q' & Hq' & [Hh|(sid & Hb & _)]) Hl Hd.
  - destruct (gl_held _ _ _ _ the_glob t' x) as (l' & Hl' & ?); [by exists o', q'|]. congruence.
  - destruct (build_new t' sid x.1) as [Hn _]; [by exists o', q'|]. apply elem_of_dom in Hd as [? ?]. congruence.
Qed.

Lemma inv_step w' q' :
  guar (owns cfg key q) (in_dir q) w w' → glob w' (<[t := (o, q')]> ps) → tinv w' o q' → inv w' (<[t := (o, q')]> ps).
Proof.
  intros Hg Hgl Ht. split; [done|]. intros t' o' r Hr. destruct (decide (t' = t)) as [->|Hne].
  - rewrite lookup_insert_eq in Hr. by injection Hr as <- <-.
  - rewrite lookup_insert_ne in Hr by done.
    assert (∀ x, owns cfg key q x → owning cfg ps t x) as Hox by (intros x Hx; by exists o, q).
    apply (tinv_stable cfg Hcfg heap w w' _ _ Hg).
    + intros s j. apply pool_bucket.
    + intros x l Hx. by apply (own_locked t x l), Hox.
    + intros x Hx Hx'. apply Hne. by apply (gl_one _ _ _ _ the_glob t' t x); [exists o', r|apply Hox].
    + intros Hd. split; [apply (gl_dirheld _ _ _ _ the_glob t'); by exists o', r|]. intros Hd'. apply Hne.
      apply (gl_dirone _ _ _ _ the_glob t' t); [by exists o', r|by exists o, q].
    + by apply Hinv in Hr.
Qed.

(** A step that writes nothing shared. *)
Lemma pure_step q' :
  (∀ x, holds cfg key q' x ↔ holds cfg key q x) → builds q' = builds q → (in_dir q' ↔ in_dir q) → tinv w o q' →
  inv w (<[t := (o, q')]> ps).
Proof.
  intros Hh Hb Hd Ht. apply inv_step; [apply guar_refl| |done].
  apply (glob_pool w ps); [by apply (same_pool_insert ps t o q q')|apply the_glob].
Qed.

Lemma good_pure q' :
  (∀ x, holds cfg key q' x ↔ holds cfg key q x) → builds q' = builds q → (in_dir q' ↔ in_dir q) → tinv w o q' →
  effect heap (wm w) o q (wm w) q' → good w ps t o q (Next (wc w) q').
Proof. intros Hh Hb Hd Ht He. exists w. split; [done|]. split; [by apply pure_step|done]. Qed.
End one.

(** *** What the ghost state says *)

Section facts.
Variable w : world K.
Variable ps : gmap Z (table_op K * pc).
Hypothesis Hinv : inv w ps.
Abbreviation Hgl := (the_glob w ps Hinv).

Lemma full_fun s j i k k' p p' : full heap w s j i k p → full heap w s j i k' p' → k = k' ∧ p = p'.
Proof.
  intros (_ & bk & r & Hb & Hs & Hr & Hk & Hp) (_ & bk' & r' & Hb' & Hs' & Hr' & Hk' & Hp').
  assert (bk' = bk) as -> by congruence. rewrite Hs in Hs'. injection Hs' as E. apply (f_equal dense_pointer) in E.
  rewrite !dense_pointer_mk in E by (lia || apply slot_tag_range). subst p'. split; [congruence|done].
Qed.

Lemma full_not_null s j i k p bk : full heap w s j i k p → buckets w !! (s, j) = Some bk → nthZ (bk_kvs bk) i ≠ Some dense_null.
Proof.
  intros (_ & bk' & r & Hb & Hs & _ & _ & Hp) Hb' Hn. assert (bk' = bk) as -> by congruence. rewrite Hs in Hn. injection Hn as E.
  apply (f_equal dense_pointer) in E. rewrite dense_pointer_mk, dense_null_pointer in E by (lia || apply slot_tag_range).
  change nullptr with 0 in E. lia.
Qed.

(** Nobody owns a bucket of the directory that is not locked. *)
Lemma free_unowned s j l t' : s ∈ dom (wo w) → locks w !! (s, j) = Some l → ver_locked l = false → ¬ owning cfg ps t' (s, j).
Proof. intros Hs Hl Hf Ho. pose proof (own_locked w ps Hinv t' (s, j) l Ho Hl Hs). congruence. Qed.

Lemma free_settled s j l : s ∈ dom (wo w) → 0 ≤ j < nb → locks w !! (s, j) = Some l → ver_locked l = false → settled w s j.
Proof.
  intros Hs Hj Hl Hf. apply (gl_settled _ _ _ _ Hgl); [done|done|]. intros t'. by apply (free_unowned s j l).
Qed.

Lemma builds_holds t' sid rgt j : building ps t' sid rgt → 0 ≤ j < nb → holding cfg ps t' (sid, j).
Proof.
  intros (o' & q' & Hq & Hb) Hj. exists o', q'. split; [done|]. destruct q'; try discriminate Hb; injection Hb as <- <-; done.
Qed.

(** A key that is not in the bucket of its segment is not in the map. *)
Lemma absent s k : own w s k → (∀ i, ¬ fullk w s (bidx k) i k) → (∀ t' rgt, ¬ building ps t' s rgt) → wm w !! k = None.
Proof.
  intros Ho Hn Hb. destruct (wm w !! k) as [p|] eqn:Em; [|done]. exfalso.
  destruct (gl_map _ _ _ _ Hgl k p Em) as (s' & i & Hf). destruct (gl_full _ _ _ _ Hgl _ _ _ _ _ Hf) as (_ & _ & Hh).
  destruct Hh as [Ho'|(t' & sid & pat & ld & Hb' & Hs & Hm & _)].
  - assert (s' = s) as -> by (by apply (gl_disj _ _ _ _ Hgl s' s (hash_fn k))). apply (Hn i). by exists p.
  - assert (sid = s) as -> by (apply (gl_disj _ _ _ _ Hgl sid s (hash_fn k)); [by exists pat, ld|done]). by apply (Hb t' s').
Qed.

Lemma present s j i k p : full heap w s j i k p → wm w !! k = Some p.
Proof. intros Hf. by apply (gl_full _ _ _ _ Hgl) in Hf as [? _]. Qed.

(** The directory when nobody changes it. *)
Lemma dir_entry k l sid :
  ver_locked (ct_lock (wc w)) = false → arrays w !! ct_dir (wc w) = Some l →
  nthZ l (hash_fn k mod 2 ^ ct_depth (wc w)) = Some sid → dir_fact w k (ct_dir (wc w)) (ct_depth (wc w)) sid.
Proof.
  intros Hf Hl Hs. destruct (gl_dir _ _ _ _ Hgl Hf) as (Hd & l' & Hl' & Hlen & He). assert (l' = l) as -> by congruence.
  destruct (He _ _ Hs) as (pat & ld & Hw & Hle & Hm). destruct (gl_seg _ _ _ _ Hgl sid pat ld Hw) as (Hld & _).
  rewrite mod_mod_pow in Hm by lia. subst pat. exists ld. split; [done|]. split; [lia|]. split; [lia|]. exists l. split; [done|].
  split; [lia|]. intros s Hs'. assert (s = sid) as -> by congruence. by exists (hash_fn k mod 2 ^ ld), ld.
Qed.

Lemma dir_fact_own k d g sid : dir_fact w k d g sid → own w sid k.
Proof. intros (ld & Hs & _). by exists (hash_fn k mod 2 ^ ld), ld. Qed.

(** Weakening under what the mode gives. *)
Lemma under_mono k md sid (P Q : Prop) :
  under cfg heap w k md sid P → (settled w sid (bidx k) → own w sid k → P → Q) → under cfg heap w k md sid Q.
Proof.
  intros Hu HPQ. destruct md as [v|d g]; simpl in *.
  - destruct Hu as [Hs (l & Hl & Hv & HP)]. split; [done|]. exists l. split; [done|]. split; [done|]. intros Hf Ev.
    destruct (HP Hf Ev) as [Ho HP']. split; [done|]. apply HPQ; [|done|done]. by apply (free_settled sid (bidx k) l); [|apply bidx_ok| |].
  - destruct Hu as (Hd & Hs & HP). split; [done|]. split; [done|]. apply HPQ; [done|by eapply dir_fact_own|done].
Qed.

Lemma settled_bits s j bk i k : settled w s j → buckets w !! (s, j) = Some bk → fullk w s j i k →
  Z.testbit (bk_bitmap bk) i = true ∧ nthZ (bk_tags bk) i = Some (bucket_tag (hash_fn k)).
Proof.
  intros [(bk' & Hb' & h1 & h2) _] Hb Hf. assert (bk' = bk) as -> by congruence.
  assert (Z.testbit (bk_bitmap bk) i = true) as Hi by exact (h2 i k Hf (λ x, x)). split; [done|].
  destruct (h1 i Hi (λ x, x)) as (k' & [p' Hf'] & Ht). destruct Hf as [p Hf]. by destruct (full_fun _ _ _ _ _ _ _ Hf Hf') as [-> _].
Qed.

(** *** Reading a slot *)

Lemma mask_bound md s j mask : mask_ok cfg heap w md s j mask → mask ≠ 0 →
  0 ≤ index_least1 mask < 64 ∧ Z.testbit mask (index_least1 mask) = true ∧ 0 ≤ mask < 2 ^ 64.
Proof.
  intros [Hm _] Hn. pose proof (cfg_slots cfg Hcfg). assert (2 ^ ns ≤ 2 ^ 64) by (apply Z.pow_le_mono_r; lia).
  destruct (index_least1_spec mask) as (h1 & h2 & _); [lia|]. split; [done|]. split; [done|lia].
Qed.

Lemma mask_clear md s j mask i : mask_ok cfg heap w md s j mask → 0 ≤ i < 64 → mask_ok cfg heap w md s j (clear_bit mask i).
Proof.
  intros [Hm Hb] Hi. pose proof (cfg_slots cfg Hcfg). split; [by apply clear_bit_bound; [lia| |]|].
  intros x. assert (2 ^ ns ≤ 2 ^ 64) by (apply Z.pow_le_mono_r; lia).
  rewrite clear_bit_testbit by lia. intros [Hx _]%andb_prop. by apply Hb.
Qed.

(** What a used slot holds, and what the loop makes of it. *)
Lemma slot_cases s j i : (s, j, i) ∈ wu w → ∃ bk old, buckets w !! (s, j) = Some bk ∧ 0 ≤ i < ns ∧ nthZ (bk_kvs bk) i = Some old ∧
  (old = dense_null ∧ (∀ k, ¬ fullk w s j i k) ∨ ∃ k p, full heap w s j i k p ∧ old = mk_dense p (slot_tag (hash_fn k)) ∧ 2 < p < 2 ^ 48).
Proof.
  intros Hu. destruct (gl_used _ _ _ _ Hgl s j i Hu) as (bk & Hb & Hi & Hs). exists bk. destruct Hs as [Hs|[k [p Hf]]].
  - exists dense_null. do 3 (split; [done|]). left. split; [done|]. intros k [p Hf]. by apply (full_not_null _ _ _ _ _ _ Hf Hb).
  - pose proof Hf as (_ & bk' & r & Hb' & Hs & Hr & Hk & Hp). assert (bk' = bk) as -> by congruence.
    exists (mk_dense p (slot_tag (hash_fn k))). do 3 (split; [done|]). right. by exists k, p.
Qed.

Lemma dense_ne_null p x : 2 < p < 2 ^ 48 → mk_dense p (slot_tag x) ≠ dense_null.
Proof.
  intros Hp E. apply (f_equal dense_pointer) in E. rewrite dense_pointer_mk, dense_null_pointer in E by (lia || apply slot_tag_range).
  change nullptr with 0 in E. lia.
Qed.

Lemma slot_hit_null k : slot_hit heap true k dense_null = Some false.
Proof. unfold slot_hit. by rewrite bool_decide_true. Qed.

Lemma slot_hit_full null s j i k k' p : full heap w s j i k' p →
  slot_hit heap null k (mk_dense p (slot_tag (hash_fn k'))) = Some (bool_decide (k' = k)).
Proof.
  intros (_ & bk & r & _ & _ & Hr & Hk & Hp). pose proof (slot_tag_range (hash_fn k')) as Ht. unfold slot_hit.
  rewrite bool_decide_false by (by apply dense_ne_null). rewrite andb_false_r. cbn [negb andb].
  rewrite dense_remain_mk, dense_pointer_mk by lia. rewrite Hr. cbn. rewrite Hk.
  destruct (Z.eqb_spec (slot_tag (hash_fn k')) (slot_tag (hash_fn k))) as [|Hne]; [done|]. rewrite bool_decide_false; [done|].
  by intros ->.
Qed.
End facts.
End steps.
