(* ===== verification/ConcRead.v ===== *)
(** * Steps of the concurrent hash table that read *)

From S2P Require Export ConcStep.

Section steps.
Context `{UtilSpec} `{DenseSpec} `{SimdSpec} `{VerLockSpec} {K : Type} `{Countable K} `{HashFnSpec K}.
Variable cfg : HashConfig.
Hypothesis Hcfg : wf_config cfg.
Variable heap : gmap Z (KVPair K).
Abbreviation nb := (kNBucketInSegment cfg).
Abbreviation ns := (kNSlotInBucket cfg).
Abbreviation bidx k := (bucket_index (hash_fn k) nb).
Abbreviation buckets w := (ct_buckets (wc w)).
Abbreviation locks w := (ct_locks (wc w)).
Abbreviation arrays w := (ct_arrays (wc w)).
Abbreviation fullk := (fullk heap).
Abbreviation settled := (settled heap).
Abbreviation inv := (inv cfg heap).
Abbreviation glob := (glob cfg heap).
Abbreviation tinv := (tinv cfg heap).
Abbreviation good := (good cfg heap).
Abbreviation step := (thread_step cfg heap).
Variable w : world K.
Variable ps : gmap Z (table_op K * pc).
Variable t : Z.
Hypothesis Hinv : inv w ps.
Abbreviation Hgl := (the_glob cfg heap w ps Hinv).
Implicit Types (o : table_op K) (s j i d g v sid : Z) (q : pc) (md : mode).

(** A step that only moves the thread on. *)
Lemma go o q q' : ps !! t = Some (o, q) →
  (∀ x, holds cfg (op_key o) q' x ↔ holds cfg (op_key o) q x) → builds q' = builds q → (in_dir q' ↔ in_dir q) → tinv w o q' →
  decided q = None → decided q' = None → good w ps t o q (Next (wc w) q').
Proof.
  intros Hps Hh Hb Hd Ht Hn Hn'. apply (good_pure cfg Hcfg heap w ps t o q Hinv Hps); try done. unfold effect. rewrite Hn. by left.
Qed.

Ltac start := intros Hps; pose proof (the_tinv cfg heap w ps t _ _ Hinv Hps) as Ht.

(** ** The directory *)

Lemma ok_start o : ps !! t = Some (o, PStart) → good w ps t o PStart (step o (wc w) PStart).
Proof.
  start. unfold thread_step, lock_shared. destruct (ver_locked _) eqn:El; [done|]. apply go; try done.
  split; [apply Ht|]. split; [lia|done].
Qed.

Lemma ok_dir o vd : ps !! t = Some (o, PDir vd) → good w ps t o (PDir vd) (step o (wc w) (PDir vd)).
Proof. start. apply go; try done. destruct Ht as [Hl [Hv _]]. by split. Qed.

Lemma ok_depth o vd d : ps !! t = Some (o, PDepth vd d) → good w ps t o (PDepth vd d) (step o (wc w) (PDepth vd d)).
Proof. start. apply go; try done. destruct Ht as [Hl [Hv Hd]]. split; [done|]. split; [done|]. intros Hf Ev. split; [by apply Hd|done]. Qed.

Lemma ok_changed o vd d g : ps !! t = Some (o, PChanged vd d g) →
  good w ps t o (PChanged vd d g) (step o (wc w) (PChanged vd d g)).
Proof.
  start. unfold thread_step. destruct Ht as [Hl [Hv Hd]]. destruct (ver_changed _ _) eqn:Ec.
  - by apply go.
  - apply ver_changed_spec in Ec as [Hf Ev]. destruct (Hd Hf Ev) as [<- <-].
    destruct (gl_dir _ _ _ _ Hgl Hf) as (Hr & l & Hla & Hlen & _). apply go; try done. split; [done|].
    split; [by split|]. split; [lia|]. exists l. split; [done|lia].
Qed.

Lemma array_entry d g l k : 0 ≤ g → arrays w !! d = Some l → 2 ^ g ≤ lenZ l →
  ∃ sid, nthZ l (hash_fn k mod 2 ^ g) = Some sid ∧ entry_at (wc w) d (segment_index (hash_fn k) g) = Some sid ∧ sid ∈ dom (wo w).
Proof.
  intros Hg Hl Hlen. pose proof (Z.mod_pos_bound (hash_fn k) (2 ^ g) ltac:(apply Z.pow_pos_nonneg; lia)) as Hr.
  destruct (nthZ_is_Some l (hash_fn k mod 2 ^ g)) as [sid Hs].
  { split; [apply Hr|]. eapply Z.lt_le_trans; [apply Hr|done]. }
  exists sid. split; [done|]. split; [unfold entry_at; by rewrite Hl, segment_index_mod|].
  apply (gl_array _ _ _ _ Hgl d l Hl). unfold nthZ in Hs. destruct (0 <=? _); [|done]. by eapply list_elem_of_lookup_2.
Qed.

Lemma ok_entry o vd d g : ps !! t = Some (o, PEntry vd d g) →
  good w ps t o (PEntry vd d g) (step o (wc w) (PEntry vd d g)).
Proof.
  start. destruct Ht as (Hleg & [Hv Hd] & Hg & l & Hl & Hlen). destruct (array_entry d g l (op_key o) Hg Hl Hlen) as (sid & Hs & He & Hdom).
  unfold thread_step. rewrite He. simpl.
  assert (tok_dir w vd (dir_fact w (op_key o) d g sid)) as Hf.
  { split; [done|]. intros Hf Ev. destruct (Hd Hf Ev) as [<- <-]. by apply (dir_entry cfg heap w ps Hinv (op_key o) l). }
  assert (tok_dir w vd (own w sid (op_key o))) as Ho.
  { split; [done|]. intros Hfr Ev. by apply (dir_fact_own w (op_key o) d g), Hf. }
  destruct o; apply go; try done; (split; [done|]); simpl; tauto.
Qed.

(** ** Entering a bucket *)

Lemma the_lock s j : s ∈ dom (wo w) → 0 ≤ j < nb → is_Some (locks w !! (s, j)).
Proof.
  intros [[pat ld] Hs]%elem_of_dom Hj. destruct (gl_seg _ _ _ _ Hgl s pat ld Hs) as (_ & _ & Hx). by apply (Hx j).
Qed.

Lemma ok_shared o vd sid : ps !! t = Some (o, PShared vd sid) →
  good w ps t o (PShared vd sid) (step o (wc w) (PShared vd sid)).
Proof.
  start. destruct Ht as (Hleg & Hu & Hs & Hd). unfold thread_step, on_lock.
  destruct (the_lock sid (bidx (op_key o)) Hs (bidx_ok cfg Hcfg (op_key o))) as [l Hl]. rewrite Hl. simpl. unfold lock_shared.
  destruct (ver_locked l) eqn:El; [done|]. apply go; try done. split; [done|]. do 3 (split; [done|]). exists l. split; [done|]. split; [lia|done].
Qed.

Lemma no_tags (k : K) sid b : ∀ i, fullk w sid b i k →
  (∀ x, None = Some x → Z.testbit x i = true) ∧ ∀ x, nthZ [] i = Some x → x = bucket_tag (hash_fn k).
Proof. intros i _. split; [done|]. intros x Hx. apply nthZ_Some in Hx. unfold lenZ in Hx. simpl in Hx. lia. Qed.

Lemma ok_valid o vd sid v : ps !! t = Some (o, PValid vd sid v) →
  good w ps t o (PValid vd sid v) (step o (wc w) (PValid vd sid v)).
Proof.
  start. destruct Ht as (Hleg & Hu & Hs & Hd & l & Hl & Hv & _). unfold thread_step. destruct (ver_changed _ _) eqn:Ec; [by apply go|].
  apply ver_changed_spec in Ec as [Hf Ev]. apply go; try done. split; [done|]. split; [by destruct o|].
  split; [split; [done|]; exists l; split; [done|]; split; [done|]; intros _ _; split; [by apply Hd|apply no_tags]|].
  split; [done|]. pose proof (cfg_slots cfg Hcfg). unfold lenZ. simpl. lia.
Qed.

Lemma ok_validx o vd d g sid : ps !! t = Some (o, PValidX vd d g sid) →
  good w ps t o (PValidX vd d g sid) (step o (wc w) (PValidX vd d g sid)).
Proof.
  start. destruct Ht as (Hleg & Hu & Hs & Hd). unfold thread_step. destruct (ver_changed _ _) eqn:Ec; [by apply go|].
  apply ver_changed_spec in Ec as [Hf Ev]. apply go; try done. split; [done|]. split; [by destruct o|].
  split; [split; [by apply Hd|]; split; [done|apply no_tags]|]. split; [done|]. pose proof (cfg_slots cfg Hcfg). unfold lenZ. simpl. lia.
Qed.

(** ** The candidates *)

Lemma bucket_of k md sid (P : Prop) : under cfg heap w k md sid P →
  ∃ bk, buckets w !! (sid, bidx k) = Some bk ∧ bk_index bk = bidx k ∧ 0 ≤ bk_bitmap bk < 2 ^ ns ∧
    lenZ (bk_tags bk) = ns ∧ lenZ (bk_kvs bk) = ns ∧ ∀ i, Z.testbit (bk_bitmap bk) i = true → (sid, bidx k, i) ∈ wu w.
Proof.
  intros Hu. apply (under_dom cfg heap w) in Hu. apply elem_of_dom in Hu as [[pat ld] Hs].
  destruct (gl_seg _ _ _ _ Hgl sid pat ld Hs) as (_ & _ & Hx). destruct (Hx (bidx k) (bidx_ok cfg Hcfg k)) as (_ & bk & Hb & Hi & _).
  exists bk. split; [done|]. split; [done|]. by destruct (gl_bucket _ _ _ _ Hgl _ _ _ Hb) as (_ & ? & ? & ? & ?).
Qed.

Lemma used_range s j i : (s, j, i) ∈ wu w → 0 ≤ i < ns.
Proof. intros Hu. by destruct (gl_used _ _ _ _ Hgl s j i Hu) as (bk & _ & ? & _). Qed.

Lemma its_locked o md sid bm tags r : ps !! t = Some (o, PMask md sid bm tags) →
  assert_locked (wc w) md sid (bidx (op_key o)) r = r.
Proof.
  intros Hps. destruct md as [v|d g]; [done|]. unfold assert_locked, on_lock.
  destruct (gl_held _ _ _ _ Hgl t (sid, bidx (op_key o))) as (l & Hl & Hk); [by exists o, (PMask (Excl d g) sid bm tags)|].
  rewrite Hl. cbn [or_fault]. unfold check. by rewrite Hk.
Qed.

Lemma ok_mask o md sid bm tags : ps !! t = Some (o, PMask md sid bm tags) →
  good w ps t o (PMask md sid bm tags) (step o (wc w) (PMask md sid bm tags)).
Proof.
  start. destruct Ht as (Hleg & Hmd & Hu & Hbm & Htags). unfold thread_step. rewrite (its_locked o md sid bm tags) by done.
  destruct (bucket_of (op_key o) md sid _ Hu) as (bk & Hb & Hix & Hbr & Ht1 & Hk1 & Hused). unfold on_bucket. rewrite Hb. cbn [or_fault].
  unfold check. rewrite Hix, Z.eqb_refl.
  assert (∀ q', (∃ bm' tags', q' = PMask md sid bm' tags') ∨ (∃ mask, q' = PScan md sid mask) → tinv w o q' →
    good w ps t o (PMask md sid bm tags) (Next (wc w) q')) as Hgo.
  { intros q' [(bm' & tags' & ->)|(mask & ->)] Ht'; apply go; try done; by destruct md. }
  destruct bm as [x|].
  - destruct (Hbm x eq_refl) as [Hxr Hxb]. destruct (Z.ltb_spec (lenZ tags) ns) as [Hlt|Hge].
    + destruct (nthZ_is_Some (bk_tags bk) (lenZ tags)) as [tg Htg]; [rewrite Ht1; unfold lenZ in *; lia|]. rewrite Htg. simpl.
      apply Hgo; [left; by eexists _, _|]. split; [done|]. split; [done|]. split; [|split; [done|rewrite lenZ_app; unfold lenZ at 2; simpl; lia]].
      eapply (under_mono cfg Hcfg heap w ps Hinv); [exact Hu|]. intros Hst Ho Hold i Hi. destruct (Hold i Hi) as [h1 h2].
      split; [done|]. intros tg'. rewrite nthZ_snoc. case_decide as Hd; [|apply h2]. intros [= <-]. subst i.
      destruct (settled_bits heap w _ _ bk _ _ Hst Hb Hi) as [_ Htg']. congruence.
    + assert (lenZ tags = ns) as Hlen by lia.
      destruct (compare_equal_spec cfg Hcfg tags (bucket_tag (hash_fn (op_key o))) Hlen) as [Hcr Hcb].
      apply Hgo; [right; by eexists|]. split; [done|]. split; [done|]. pose proof (cfg_slots cfg Hcfg). split; [|split].
      * eapply (under_mono cfg Hcfg heap w ps Hinv); [exact Hu|]. intros Hst Ho Hold i Hi. destruct (Hold i Hi) as [h1 h2].
        rewrite Z.land_spec, (h1 x eq_refl). simpl. destruct Hi as [p Hi].
        pose proof (used_range _ _ _ (proj1 Hi)) as Hir. rewrite Hcb by done. apply bool_decide_eq_true.
        destruct (nthZ_is_Some tags i) as [tg Htg]; [lia|]. by rewrite Htg, (h2 tg Htg).
      * assert (0 ≤ Z.land x (compare_equal cfg tags (bucket_tag (hash_fn (op_key o))))) by (apply Z.land_nonneg; lia). split; [done|].
        apply word_bound; [lia|done|]. intros j Hj. rewrite Z.land_spec. by rewrite (testbit_above x ns) by lia.
      * intros i. rewrite Z.land_spec. intros [Hi _]%andb_prop. by apply Hxb.
  - apply Hgo; [left; by eexists _, _|]. split; [done|]. split; [done|]. split; [|split; [|done]].
    + eapply (under_mono cfg Hcfg heap w ps Hinv); [exact Hu|]. intros Hst Ho Hold i Hi. split; [|by apply Hold].
      intros x [= <-]. by apply (settled_bits heap w _ _ bk i _ Hst Hb Hi).
    + intros x [= <-]. split; [done|]. intros i Hi. split; [by apply Hused|]. destruct md as [|d g]; [done|].
      destruct Hu as (_ & [(bk' & Hb' & h1 & _) _] & _). assert (bk' = bk) as -> by congruence.
      destruct (h1 i Hi (λ x, x)) as (k' & Hk' & _). by exists k'.
Qed.

(** ** A slot with the key *)

Lemma expired_some o p kv r : heap !! p = Some r → legal_table_op heap (OUpdate (op_key o) kv) → ∃ e, is_expired heap p kv = Some e.
Proof. intros Hr [_ (n & Hn & _)]. unfold is_expired. rewrite Hr, Hn. by eexists. Qed.

Lemma ok_hit o md sid mask idx p q :
  ps !! t = Some (o, q) → decided q = None → (∀ x, holds cfg (op_key o) q x ↔ holds cfg (op_key o) (PScan md sid mask) x) → builds q = None → ¬ in_dir q →
  legal_table_op heap o → mode_ok o md → under cfg heap w (op_key o) md sid (∀ i, fullk w sid (bidx (op_key o)) i (op_key o) → Z.testbit mask i = true) →
  mask_ok cfg heap w md sid (bidx (op_key o)) mask → full heap w sid (bidx (op_key o)) idx (op_key o) p →
  good w ps t o q (on_hit heap o (wc w) md sid mask idx (mk_dense p (slot_tag (hash_fn (op_key o))))).
Proof.
  intros Hps Hdec Hh Hbd Hid Hleg Hmd Hu Hm Hf. pose proof (present cfg heap w ps Hinv _ _ _ _ _ Hf) as Hmap.
  pose proof Hf as (Hused & bk & r & Hb & Hs & Hr & Hk & Hp). pose proof (slot_tag_range (hash_fn (op_key o))) as Htr.
  assert (∀ x, holds cfg (op_key o) (finish md sid x) = holds cfg (op_key o) (PScan md sid mask)) as Hfin by (intros x; by destruct md).
  assert (∀ x, effect heap (wm w) o q (wm w) (finish md sid x) ↔ atomic_op heap (wm w) o = (wm w, x)) as Heff.
  { intros x. unfold effect. rewrite Hdec. assert (decided (finish md sid x) = Some x) as -> by (by destruct md). split.
    - intros [[_ ?]|(y & E & Ey)]; [done|]. congruence.
    - intros E. right. by exists x. }
  assert (∀ x, tinv w o (finish md sid x)) as Hti.
  { intros x. split; [done|]. destruct md as [|d g]; [done|]. simpl. by destruct Hu as (_ & ? & _). }
  assert (∀ x, atomic_op heap (wm w) o = (wm w, x) → good w ps t o q (Next (wc w) (finish md sid x))) as Hdone.
  { intros x E. apply (good_pure cfg Hcfg heap w ps t o q Hinv Hps).
    - intros y. by rewrite Hfin, Hh.
    - rewrite Hbd. by destruct md.
    - split; [by destruct md|]. by intros ?%Hid.
    - apply Hti.
    - by apply Heff. }
  assert (∀ kv, (o = OUpdate (op_key o) kv ∨ o = OUpsert (op_key o) kv) → good w ps t o q
    (or_fault (is_expired heap (dense_pointer (mk_dense p (slot_tag (hash_fn (op_key o))))) kv)
       (λ e, Next (wc w) (if (e : bool) then finish md sid kExpired else PCas md sid mask idx (mk_dense p (slot_tag (hash_fn (op_key o)))))))) as Hrep.
  { intros kv Ho. rewrite dense_pointer_mk by lia.
    destruct (expired_some o p kv r Hr) as [e He]; [by destruct Ho as [Ho|Ho]; rewrite Ho in Hleg|]. rewrite He. simpl.
    destruct e.
    - apply Hdone. destruct Ho as [Ho|Ho]; rewrite Ho; simpl; by rewrite Hmap, He.
    - apply go; [done| | | | |done|done].
      + intros x. rewrite Hh. by destruct md.
      + by rewrite Hbd.
      + split; [by intros []|]. by intros ?%Hid.
      + split; [done|]. split.
        * split; [done|]. split; [intros k'; by destruct Ho as [-> | ->]|]. split; [done|]. split; [done|]. split; [done|].
          split; [by apply (used_range sid (bidx (op_key o)))|]. destruct md; [done|]. by exists p.
        * destruct Ho as [Ho|Ho]; rewrite Ho; exists p, r; simpl in *; rewrite Ho in *; done. }
  unfold on_hit. destruct o as [k|k kv|k kv] eqn:Eo; cbn [op_key] in *.
  - rewrite dense_pointer_mk by lia. apply Hdone. simpl. by rewrite Hmap.
  - apply Hrep. by left.
  - apply Hrep. by right.
Qed.

(** The next candidate. *)
Lemma next_mask o md sid mask idx :
  0 ≤ idx < 64 → under cfg heap w (op_key o) md sid (∀ i, fullk w sid (bidx (op_key o)) i (op_key o) → Z.testbit mask i = true) →
  mask_ok cfg heap w md sid (bidx (op_key o)) mask → ¬ fullk w sid (bidx (op_key o)) idx (op_key o) →
  under cfg heap w (op_key o) md sid (∀ i, fullk w sid (bidx (op_key o)) i (op_key o) → Z.testbit (clear_bit mask idx) i = true) ∧
  mask_ok cfg heap w md sid (bidx (op_key o)) (clear_bit mask idx).
Proof.
  intros Hi Hu Hm Hn. pose proof (cfg_slots cfg Hcfg). assert (2 ^ ns ≤ 2 ^ 64) by (apply Z.pow_le_mono_r; lia).
  pose proof (proj1 Hm) as Hmr. split; [|by apply (mask_clear cfg Hcfg heap w)].
  eapply (under_mono cfg Hcfg heap w ps Hinv); [exact Hu|]. intros _ _ Hold i Hf. rewrite clear_bit_testbit by lia.
  rewrite (Hold i Hf). simpl. rewrite bool_decide_false; [done|]. intros ->. done.
Qed.

Lemma ok_scan o md sid mask : ps !! t = Some (o, PScan md sid mask) →
  good w ps t o (PScan md sid mask) (step o (wc w) (PScan md sid mask)).
Proof.
  start. destruct Ht as (Hleg & Hmd & Hu & Hm). unfold thread_step. destruct (Z.eqb_spec mask 0) as [->|Hnz].
  - assert (under cfg heap w (op_key o) md sid (∀ i, ¬ fullk w sid (bidx (op_key o)) i (op_key o))) as Hu'.
    { eapply (under_mono cfg Hcfg heap w ps Hinv); [exact Hu|]. intros _ _ Hold i Hf. specialize (Hold i Hf). by rewrite Z.testbit_0_l in Hold. }
    destruct md as [v|d g]; apply go; try done; (split; [done|]); (split; [by destruct o|done]).
  - destruct (mask_bound cfg Hcfg heap w md _ _ mask Hm Hnz) as (Hi & Hbit & Hmr). set (idx := index_least1 mask) in *.
    destruct (proj2 Hm idx Hbit) as [Hused Hex].
    destruct (slot_cases cfg heap w ps Hinv _ _ idx Hused) as (bk & old & Hb & Hir & Hs & Hc). unfold on_bucket. rewrite Hb. simpl.
    rewrite Hs. simpl.
    assert (¬ fullk w sid (bidx (op_key o)) idx (op_key o) → good w ps t o (PScan md sid mask) (Next (wc w) (PScan md sid (clear_bit mask idx)))) as Hnext.
    { intros Hn. destruct (next_mask o md sid mask idx Hi Hu Hm Hn) as [Hu' Hm']. apply go; try done; by destruct md. }
    destruct Hc as [[-> Hn]|(k' & p & Hf & -> & Hp)].
    + assert (null_check o = true) as ->.
      { destruct md as [|d g]; [by destruct o|]. destruct Hex as [k' Hk']. by destruct (Hn k'). }
      rewrite slot_hit_null. simpl. by apply Hnext.
    + rewrite (slot_hit_full heap w (null_check o) sid (bidx (op_key o)) idx (op_key o) k' p Hf). simpl. case_bool_decide as Ek.
      * rewrite Ek in Hf |- *. apply ok_hit; try done. by intros [].
      * apply Hnext. intros [p' Hf']. by destruct (full_fun heap w _ _ _ _ _ _ _ Hf Hf') as [? _].
Qed.

Lemma ok_reload o md sid mask idx : ps !! t = Some (o, PReload md sid mask idx) →
  good w ps t o (PReload md sid mask idx) (step o (wc w) (PReload md sid mask idx)).
Proof.
  start. destruct Ht as (Hleg & Hmd & Hnl & Hu & Hm & Hused & Hir & Hex). unfold thread_step.
  destruct (slot_cases cfg heap w ps Hinv _ _ idx Hused) as (bk & old & Hb & _ & Hs & Hc). unfold on_bucket. rewrite Hb. simpl.
  rewrite Hs. simpl. pose proof (cfg_slots cfg Hcfg).
  assert (∀ p, full heap w sid (bidx (op_key o)) idx (op_key o) p → good w ps t o (PReload md sid mask idx)
     (on_hit heap o (wc w) md sid mask idx (mk_dense p (slot_tag (hash_fn (op_key o)))))) as Hhit.
  { intros p Hf. apply ok_hit; try done. by intros []. }
  assert (good w ps t o (PReload md sid mask idx) (or_fault (slot_hit heap true (op_key o) old) (λ hit,
            if (hit : bool) then on_hit heap o (wc w) md sid mask idx old
            else Next (wc w) (PScan md sid (clear_bit mask idx))))) as Hshared.
  { assert (¬ fullk w sid (bidx (op_key o)) idx (op_key o) → good w ps t o (PReload md sid mask idx) (Next (wc w) (PScan md sid (clear_bit mask idx)))) as Hnext.
    { intros Hn. destruct (next_mask o md sid mask idx ltac:(lia) Hu Hm Hn) as [Hu' Hm']. apply go; try done; by destruct md. }
    destruct Hc as [[-> Hn]|(k' & p & Hf & -> & Hp)].
    - rewrite slot_hit_null. simpl. by apply Hnext.
    - rewrite (slot_hit_full heap w true sid (bidx (op_key o)) idx (op_key o) k' p Hf). simpl. case_bool_decide as Ek.
      + subst k'. by apply Hhit.
      + apply Hnext. intros [p' Hf']. by destruct (full_fun heap w _ _ _ _ _ _ _ Hf Hf') as [? _]. }
  destruct o as [k|k kv|k kv] eqn:Eo; [exact Hshared|exact Hshared|]. destruct md as [|d g]; [done|]. destruct Hex as [p Hf].
  pose proof Hf as (_ & bk' & r & Hb' & Hs' & _). assert (bk' = bk) as -> by congruence. cbn [op_key] in *. rewrite Hs' in Hs. injection Hs as <-.
  by apply Hhit.
Qed.

(** ** Not found *)

Lemma ok_end o sid v : ps !! t = Some (o, PEnd sid v) → good w ps t o (PEnd sid v) (step o (wc w) (PEnd sid v)).
Proof.
  start. destruct Ht as (Hleg & Hmd & Hs & l & Hl & Hv & HP). unfold thread_step, on_lock. rewrite Hl. simpl.
  destruct (ver_changed l v) eqn:Ec; [by apply go|]. apply ver_changed_spec in Ec as [Hf Ev]. destruct (HP Hf Ev) as [Ho Hn].
  assert (wm w !! (op_key o) = None) as Hmap.
  { apply (absent cfg heap w ps Hinv sid (op_key o)); [done|done|]. intros t' rgt Hb.
    pose proof (builds_holds cfg ps t' sid rgt (bidx (op_key o)) Hb (bidx_ok cfg Hcfg (op_key o))) as Hh.
    destruct (gl_held _ _ _ _ Hgl t' _ Hh) as (l' & Hl' & ?). congruence. }
  apply (good_pure cfg Hcfg heap w ps t o _ Hinv Hps); try done. unfold effect. simpl. right. exists kNotFound. split; [|done].
  destruct o as [k|k kv|k kv]; simpl in *; [by rewrite Hmap..|done].
Qed.

(** ** The bucket is full *)

Lemma ok_full o d g sid : ps !! t = Some (o, PFull d g sid) → good w ps t o (PFull d g sid) (step o (wc w) (PFull d g sid)).
Proof.
  start. destruct Ht as (Hleg & (ld & Hw & He) & Hst). unfold thread_step, on_bucket.
  pose proof Hst as [_ (pat & ld' & Hw' & bk & Hb & Hd & _)]. assert (ld' = ld) as -> by congruence. rewrite Hb. simpl.
  unfold check. rewrite Hd, (proj2 (Z.leb_le ld g)) by apply He. by apply go.
Qed.

Lemma ge_entry o d g local : entry_ge w d g (op_key o) local → ∃ sid, entry_at (wc w) d (segment_index (hash_fn (op_key o)) g) = Some sid ∧
  entry_at (wc w) d (hash_fn (op_key o) mod 2 ^ g) = Some sid ∧ seg_ge w sid (op_key o) local.
Proof.
  intros (Hlo & Hg & l & Hl & Hlen & He). destruct (array_entry d g l (op_key o) ltac:(lia) Hl Hlen) as (sid & Hs & Hent & _).
  exists sid. split; [done|]. split; [unfold entry_at; by rewrite Hl|by apply He].
Qed.

Lemma ok_ptr o d g local : ps !! t = Some (o, SPtr d g local) → good w ps t o (SPtr d g local) (step o (wc w) (SPtr d g local)).
Proof.
  start. destruct Ht as (Hleg & He). destruct (ge_entry o d g local He) as (sid & Hs & Hs' & Hge). unfold thread_step. rewrite Hs. simpl.
  apply go; try done.
  - intros x. simpl. split; [lia|done].
  - split; [done|]. split; [done|]. split; [|split; [done|]].
    + intros x pat Hx _. congruence.
    + pose proof (proj2 Hcfg). split; [lia|]. intros j Hj. lia.
Qed.

Lemma ok_ptr2 o d g local sid : ps !! t = Some (o, SPtr2 d g local sid) →
  good w ps t o (SPtr2 d g local sid) (step o (wc w) (SPtr2 d g local sid)).
Proof.
  start. destruct Ht as (Hleg & He & Hu & Hst). destruct (ge_entry o d g local He) as (sid2 & Hs & Hs' & pat & ld & Hw & Hle & Hx).
  unfold thread_step. rewrite Hs. simpl. apply go; try done. split; [done|]. split; [done|]. split; [done|]. exists pat, ld.
  split; [done|]. split; [done|]. intros ->. assert (sid2 = sid) as -> by (by apply (Hu sid2 pat)). split; [done|]. split; [by apply Hx|done].
Qed.

Lemma ok_sdepth o d g local sid sid2 : ps !! t = Some (o, SDepth d g local sid sid2) →
  good w ps t o (SDepth d g local sid sid2) (step o (wc w) (SDepth d g local sid sid2)).
Proof.
  start. destruct Ht as (Hleg & He & Hst & pat & ld & Hw & Hle & Hx). unfold thread_step, on_bucket.
  pose proof (proj2 Hcfg) as Hnb. destruct (gl_seg _ _ _ _ Hgl sid2 pat ld Hw) as (_ & _ & Hseg).
  destruct (Hseg 0 ltac:(lia)) as (_ & bk & Hb & _ & Hd). rewrite Hb. simpl. destruct (Z.eqb_spec (bk_depth bk) local) as [El|Hne].
  - assert (ld = local) as -> by lia. destruct (Hx eq_refl) as (-> & -> & Hent). apply go; try done. split; [done|].
    destruct He as (Hlo & Hg & _). split; [lia|]. split; [lia|]. by split.
  - by apply go.
Qed.

Lemma ok_ptr3 o d g local sid : ps !! t = Some (o, SPtr3 d g local sid) →
  good w ps t o (SPtr3 d g local sid) (step o (wc w) (SPtr3 d g local sid)).
Proof.
  start. destruct Ht as (Hleg & Hg & Hlo & Hw & Hst & Hent). unfold thread_step. rewrite segment_index_mod by done.
  rewrite Hent. simpl. by apply go.
Qed.

Lemma ok_lock_end o d g local sid j : nb ≤ j → ps !! t = Some (o, SLock d g local sid j) →
  good w ps t o (SLock d g local sid j) (step o (wc w) (SLock d g local sid j)).
Proof.
  intros Hj. start. destruct Ht as (Hleg & He & Hu & Hge & Hr & Hst). unfold thread_step. rewrite (proj2 (Z.ltb_ge j nb)) by done.
  apply go; try done.
  - intros x. simpl. split; intros [? ?]; (split; [done|lia]).
  - split; [done|]. split; [done|]. split; [done|]. intros j' Hj'. apply Hst. lia.
Qed.

(** ** Splitting *)

Lemma ok_bucket_end o local sid lft rgt j : nb ≤ j → ps !! t = Some (o, SBucket local sid lft rgt j) →
  good w ps t o (SBucket local sid lft rgt j) (step o (wc w) (SBucket local sid lft rgt j)).
Proof.
  intros Hj. start. destruct Ht as (Hleg & Hsp & Hr & [Hdn _] & _). unfold thread_step. rewrite (proj2 (Z.ltb_ge j nb)) by done.
  apply go; try done. split; [done|]. split; [done|]. intros j' Hj'. apply Hdn. lia.
Qed.

Lemma ok_copy_end o local sid lft rgt j i : ns ≤ i → ps !! t = Some (o, SCopy local sid lft rgt j i) →
  good w ps t o (SCopy local sid lft rgt j i) (step o (wc w) (SCopy local sid lft rgt j i)).
Proof.
  intros Hi. start. destruct Ht as (Hleg & Hsp & Hr & Hrest & Hc & _). pose proof Hsp as (-> & _).
  destruct Hc as (Hbits & Hd & Hd' & Hun & bk & bk' & Hb & Hb' & Et & Em). unfold thread_step, on_bucket. rewrite Hb. simpl.
  rewrite (proj2 (Z.ltb_ge i ns)) by done. apply go; try done. split; [done|]. split; [done|]. split; [done|]. split; [done|].
  pose proof (cfg_slots cfg Hcfg). destruct (gl_bucket _ _ _ _ Hgl _ _ _ Hb) as (_ & _ & _ & Hbr & _).
  split; [done|]. split; [split; [done|by apply Z.pow_pos_nonneg; lia]|]. exists bk, bk'.
  destruct Hd as (c & Hc & <- & <-), Hd' as (c' & Hc' & Ed & Ei). assert (c = bk) as -> by congruence. assert (c' = bk') as -> by congruence.
  do 8 (split; [done|]). destruct Hbits as (b2 & Hb2 & h1 & h2). assert (b2 = bk) as -> by congruence.
  split; [intros x Hx; split; [done|apply Z.testbit_0_l]|]. split; [intros x; by rewrite Z.testbit_0_l|]. split; [|split].
  - intros x Hx. destruct (h1 x Hx (λ y, y)) as (k & Hk & Htag). exists k. split; [done|]. rewrite Z.testbit_0_l. split; [done|congruence].
  - intros x k Hk. split; [exact (h2 x k Hk (λ y, y))|apply Z.testbit_0_l].
  - intros x k [p [Hu _]]. by destruct (Hun x).
Qed.

Lemma ok_move o local sid lft rgt j mask cand : ps !! t = Some (o, SMove local sid lft rgt j mask cand) →
  good w ps t o (SMove local sid lft rgt j mask cand) (step o (wc w) (SMove local sid lft rgt j mask cand)).
Proof.
  start. destruct Ht as (Hleg & Hsp & Hr & Hrest & Hmv). unfold thread_step. destruct (Z.eqb_spec mask 0) as [->|Hnz].
  { by apply go. }
  pose proof Hmv as (Hmr & Hcr & bk & bk' & Hb & Hb' & Ed & Ei & Ed' & Ei' & Et & Em & Hmask & Hcand & Hbit & Hful & Hful').
  pose proof (cfg_slots cfg Hcfg). assert (2 ^ ns ≤ 2 ^ 64) by (apply Z.pow_le_mono_r; lia).
  destruct (index_least1_spec mask) as (Hi & Hib & _); [lia|]. set (idx := index_least1 mask) in *.
  pose proof Hsp as (-> & Hlo & _). unfold on_bucket. rewrite Hb. simpl.
  destruct (Hmask idx Hib) as [Hbb Hcb]. destruct (Hbit idx Hbb) as (k' & Htag & Hf). rewrite Hcb in Hf. destruct Hf as [[p Hf] _].
  pose proof Hf as (_ & b2 & r & Hb2 & Hs & Hrec & Hk & Hp). assert (b2 = bk) as -> by congruence.
  rewrite Hs. simpl. pose proof (slot_tag_range (hash_fn k')). rewrite dense_pointer_mk by lia. rewrite Hrec. simpl. rewrite Hk, Ed.
  pose proof (hash_fn_range k'). pose proof (test_bit_testbit (hash_fn k') local (proj1 Hlo) (proj1 (hash_fn_range k'))) as Htb. unfold test_bit in Htb. rewrite Htb.
  destruct (Z.testbit (hash_fn k') local) eqn:Ebit.
  - apply go; try done. split; [done|]. split; [done|]. split; [done|]. split; [done|]. exists cand, k'. split; [done|]. split; [done|].
    split; [done|]. split; [by exists p|done].
  - apply go; try done. split; [done|]. split; [done|]. split; [done|]. split; [done|].
    split; [by apply clear_bit_bound; [lia| |]|]. split; [done|]. exists bk, bk'. do 8 (split; [done|]). split; [|split; [done|split; [|done]]].
    + intros x. rewrite clear_bit_testbit by lia. intros [Hx _]%andb_prop. by apply Hmask.
    + intros x Hx. destruct (Hbit x Hx) as (k2 & Htag2 & Hf2). exists k2. split; [done|]. destruct (Z.testbit cand x); [done|].
      destruct Hf2 as [Hf2 Hsep]. split; [done|]. rewrite clear_bit_testbit by lia. case_bool_decide as Hix.
      * subst x. intros _. destruct Hf2 as [p2 Hf2]. by destruct (full_fun heap w _ _ _ _ _ _ _ Hf Hf2) as [<- _].
      * rewrite andb_true_r. apply Hsep.
Qed.

Lemma ok_assert o local sid lft rgt : ps !! t = Some (o, SAssert local sid lft rgt) →
  good w ps t o (SAssert local sid lft rgt) (step o (wc w) (SAssert local sid lft rgt)).
Proof.
  start. destruct Ht as (Hleg & Hsp & Hdn). pose proof (proj2 Hcfg). pose proof Hsp as (-> & _).
  destruct (Hdn 0 ltac:(lia)) as (_ & _ & (bk & Hb & Hd & _) & (bk' & Hb' & Hd' & _) & _).
  unfold thread_step, on_bucket. rewrite Hb. simpl. rewrite Hb'. simpl. unfold check. rewrite Hd, Hd', !Z.eqb_refl. by apply go.
Qed.

(** ** The directory of a split *)

Lemma ok_dir_read o local sid rgt : ps !! t = Some (o, SDirRead local sid rgt) →
  good w ps t o (SDirRead local sid rgt) (step o (wc w) (SDirRead local sid rgt)).
Proof.
  start. destruct Ht as (Hleg & Hpub & Hdir & Hle). unfold thread_step. destruct (Z.eqb_spec local (ct_depth (wc w))) as [El|Hne].
  - by apply go.
  - unfold check. rewrite (proj2 (Z.ltb_lt local (ct_depth (wc w)))) by lia. apply go; try done. split; [done|].
    destruct Hpub as (Hlo & Hrest). split; [done|]. split; [done|]. split; [done|]. split; [lia|]. split; [|done].
    split; [done|]. apply Z.div_pos; [|apply Z.pow_pos_nonneg; lia]. apply Z.pow_nonneg. lia.
Qed.

Lemma ok_install_end o local sid rgt d g pid : 2 ^ g / 2 ^ (local + 1) ≤ pid → ps !! t = Some (o, SInstall local sid rgt d g pid) →
  good w ps t o (SInstall local sid rgt d g pid) (step o (wc w) (SInstall local sid rgt d g pid)).
Proof.
  intros Hpid. start. destruct Ht as (Hleg & Hpub & Ed & Eg & Hlt & Hpr & Hdir). pose proof Hpub as (Hlo & Hws & _ & Hst).
  unfold thread_step. rewrite !bit_pow by lia. rewrite (proj2 (Z.ltb_ge pid _)) by done. apply go; try done.
  split; [done|]. split; [done|]. destruct Hdir as (Hgr & l & Hl & Hlen & He). unfold dir_ok. rewrite Ed, Eg. split; [done|].
  exists l. split; [done|]. split; [done|]. intros i s Hs. pose proof (nthZ_Some _ _ _ Hs) as Hi.
  assert (0 < 2 ^ (local + 1)) as Hpos by (apply Z.pow_pos_nonneg; lia).
  assert (i / 2 ^ (local + 1) < 2 ^ g / 2 ^ (local + 1)) as Hdiv.
  { apply Z.div_lt_upper_bound; [done|]. assert (2 ^ (local + 1) * (2 ^ g / 2 ^ (local + 1)) = 2 ^ g) as ->; [|lia].
    symmetry. apply Z.div_exact; [lia|]. replace g with ((g - (local + 1)) + (local + 1)) by lia. rewrite Z.pow_add_r by lia. by apply Z.mod_mul; lia. }
  destruct (He i s Hs) as [_ Hx]. destruct (Hx ltac:(lia)) as (pat & ld & Hw & Hor & Hm). exists pat, ld. split; [done|]. split; [|done].
  destruct Hor as [-> |]; [|done]. rewrite Hws in Hw. injection Hw. lia.
Qed.

Lemma ok_seg_end o sid j : nb ≤ j → ps !! t = Some (o, SSegUnlock sid j) →
  good w ps t o (SSegUnlock sid j) (step o (wc w) (SSegUnlock sid j)).
Proof.
  intros Hj. start. unfold thread_step. rewrite (proj2 (Z.ltb_ge j nb)) by done. apply go; try done.
  - intros x. simpl. split; [done|lia].
  - split; [apply Ht|done].
Qed.
End steps.
