(* ===== verification/ConcWrite.v ===== *)
(** * Writing steps of the concurrent hash table

    How the invariant survives a step that takes or releases the lock of a
    bucket ([acquire_step], [release_step]), one that changes buckets
    ([buckets_step]), one that writes what no slot in use sees ([quiet_step]),
    one that writes a slot ([write_step]) and one that works on the directory
    under its lock ([dir_step]). *)

From S2P Require Export ConcStep.

Section writes.
Context `{UtilSpec} `{DenseSpec} `{SimdSpec} `{VerLockSpec} {K : Type} `{Countable K} `{HashFnSpec K}.
Variable cfg : HashConfig.
Hypothesis Hcfg : wf_config cfg.
Variable heap : gmap Z (KVPair K).
Abbreviation nb := (kNBucketInSegment cfg).
Abbreviation ns := (kNSlotInBucket cfg).
Abbreviation bidx k := (bucket_index (hash_fn k) nb).
Abbreviation buckets w := (ct_buckets (wc w)).
Abbreviation locks w := (ct_locks (wc w)).
Abbreviation arrays w := (ct_arrays (wc w)).
Abbreviation fullk := (fullk heap).
Abbreviation settled := (settled heap).
Abbreviation inv := (inv cfg heap).
Abbreviation glob := (glob cfg heap).
Abbreviation tinv := (tinv cfg heap).
Abbreviation guar := (guar cfg heap).
Variable w : world K.
Variable ps : gmap Z (table_op K * pc).
Hypothesis Hinv : inv w ps.
Abbreviation Hgl := (the_glob cfg heap w ps Hinv).
Implicit Types (t s j i d g v sid : Z) (o : table_op K) (q : pc) (k : K) (x y : Z * Z) (b : HashBucket) (A : Z * Z → Prop).

(** The same state with other buckets, or other locks of buckets. *)
Definition with_buckets (B : gmap (Z * Z) HashBucket) (m : gmap K Z) (u : gset (Z * Z * Z)) : world K :=
  World (set_ct_buckets B (wc w)) m (wo w) u.
Definition with_lock x (l : ver_lock) : world K :=
  World (set_ct_locks (<[x := l]> (locks w)) (wc w)) (wm w) (wo w) (wu w).

(** What [glob] says of one bucket, with the slots [u] in use. *)
Definition fine (u : gset (Z * Z * Z)) x b : Prop :=
  lenZ (bk_tags b) = ns ∧ lenZ (bk_kvs b) = ns ∧ 0 ≤ bk_bitmap b < 2 ^ ns ∧
  (∀ i, Z.testbit (bk_bitmap b) i = true → (x.1, x.2, i) ∈ u) ∧
  (∀ pat ld, wo w !! x.1 = Some (pat, ld) → 0 ≤ x.2 < nb → bk_depth b = ld ∨ bk_depth b = ld + 1).
Definition same_index x b b' : Prop := x.1 ∈ dom (wo w) → bk_index b' = bk_index b.
Definition same_head b b' : Prop :=
  bk_bitmap b' = bk_bitmap b ∧ bk_tags b' = bk_tags b ∧ bk_depth b' = bk_depth b ∧ bk_index b' = bk_index b.

(** A step that no slot in use sees. *)
Definition quiet A (B' : gmap (Z * Z) HashBucket) : Prop :=
  (∀ x, is_Some (B' !! x) → is_Some (buckets w !! x)) ∧
  ∀ x b, buckets w !! x = Some b → ∃ b', B' !! x = Some b' ∧ fine (wu w) x b' ∧ same_index x b b' ∧
    (∀ i, (x.1, x.2, i) ∈ wu w → nthZ (bk_kvs b') i = nthZ (bk_kvs b) i) ∧ (¬ A x → b' = b).

(** ** Locks of buckets *)

Lemma lock_guar A D x l l' :
  locks w !! x = Some l → ver_version l ≤ ver_version l' →
  (ver_locked l = true → ver_locked l' = false → ver_version l < ver_version l') → guar A D w (with_lock x l').
Proof.
  intros Hl Hle Hlt. pose proof (guar_refl cfg heap A D w) as Hg. destruct Hg as [h1 h2 h3 h4 h5 h6 h7 h8 h9 h10 h11].
  constructor; try done. intros y ly Hy. simpl. destruct (decide (y = x)) as [->|Hne].
  - rewrite lookup_insert_eq. exists l'. split; [done|]. assert (ly = l) as -> by congruence. done.
  - rewrite lookup_insert_ne by done. by apply h1.
Qed.

Lemma relock_step t o q q' x l l' :
  ps !! t = Some (o, q) → locks w !! x = Some l → ver_version l ≤ ver_version l' →
  (ver_locked l = true → ver_locked l' = false → ver_version l < ver_version l') →
  (∀ t', t' ≠ t → ¬ owning cfg ps t' x) →
  (∀ y, holds cfg (op_key o) q' y → y = x ∧ ver_locked l' = true ∨ y ≠ x ∧ holds cfg (op_key o) q y) →
  (∀ y, y ≠ x → holds cfg (op_key o) q y → holds cfg (op_key o) q' y) →
  (holds cfg (op_key o) q' x ∨ settled w x.1 x.2) → (ver_locked l' = true → holds cfg (op_key o) q' x) →
  builds q' = None → builds q = None → (in_dir q' ↔ in_dir q) → tinv (with_lock x l') o q' →
  inv (with_lock x l') (<[t := (o, q')]> ps).
Proof.
  intros Hps Hl Hle Hlt Hno Hnew Hold Hst Hlast Hb' Hb Hi Ht.
  apply (inv_step cfg Hcfg heap w ps t o q Hinv Hps); [by apply (lock_guar _ _ x l)| |done].
  assert (∀ t' y, owning cfg (<[t := (o, q')]> ps) t' y → t' = t ∧ y = x ∨ y ≠ x ∧ owning cfg ps t' y) as Hown.
  { intros t' y. unfold owning. rewrite at_pc_insert. unfold owns. rewrite Hb'. intros [[-> [Hy|(? & ? & _)]]|[Hne Ho]]; [|done|].
    - destruct (Hnew y Hy) as [[? _]|[? Hy']]; [by left|right]. split; [done|]. exists o, q. split; [done|by left].
    - destruct (decide (y = x)) as [->|]; [by destruct (Hno t' Hne)|by right]. }
  assert (∀ t' y, y ≠ x → owning cfg ps t' y → owning cfg (<[t := (o, q')]> ps) t' y) as Hown'.
  { intros t' y Hne. unfold owning. rewrite at_pc_insert. destruct (decide (t' = t)) as [->|]; [|tauto].
    rewrite (at_pc_here ps t o q _ Hps). unfold owns. rewrite Hb. intros [Hy|(? & ? & _)]; [|done]. left. split; [done|]. left. by apply Hold. }
  assert (∀ t' y, holding cfg (<[t := (o, q')]> ps) t' y → y = x ∧ ver_locked l' = true ∨ y ≠ x ∧ holding cfg ps t' y) as Hhold.
  { intros t' y. unfold holding. rewrite at_pc_insert. intros [[-> Hy]|[Hne Hy]].
    - destruct (Hnew y Hy) as [?|[? Hy']]; [by left|right]. split; [done|]. by exists o, q.
    - destruct (decide (y = x)) as [->|]; [|by right]. destruct (Hno t' Hne). destruct Hy as (o' & q2 & E & Hh).
      exists o', q2. split; [done|by left]. }
  assert (∀ t' sid rgt, building ps t' sid rgt → building (<[t := (o, q')]> ps) t' sid rgt) as Hbld.
  { intros t' sid rgt. unfold building. rewrite at_pc_insert. destruct (decide (t' = t)) as [->|Hne]; [|tauto].
    rewrite (at_pc_here ps t o q _ Hps). rewrite Hb. done. }
  assert (∀ t', dir_holder (<[t := (o, q')]> ps) t' ↔ dir_holder ps t') as Hdir.
  { intros t'. unfold dir_holder. rewrite at_pc_insert. destruct (decide (t' = t)) as [->|Hne]; [|tauto].
    rewrite (at_pc_here ps t o q _ Hps). tauto. }
  assert (∀ y, is_Some (locks w !! y) → is_Some (locks (with_lock x l') !! y)) as Hlks.
  { intros y Hy. simpl. destruct (decide (y = x)) as [->|]; [rewrite lookup_insert_eq; by eexists|by rewrite lookup_insert_ne]. }
  pose proof Hgl as [h1 h2 h3 h4 h5 h6 h7 h8 hl h9 h10 h11 h12 h13 h14 h15 h16 h17]. constructor; try done.
  - intros t' y [[-> ?]|[Hne Hy]]%Hhold; simpl; [rewrite lookup_insert_eq; by exists l'|].
    rewrite lookup_insert_ne by done. by apply (h1 t').
  - intros t1 t2 y [[-> ->]|[? Q1]]%Hown [[-> ?]|[? Q2]]%Hown; [done..|by apply (h2 t1 t2 y)].
  - intros t' Hx%Hdir. by apply (h3 t').
  - intros t1 t2 Q1%Hdir Q2%Hdir. by apply h4.
  - intros s pat ld Hs. destruct (h6 s pat ld Hs) as (E1 & E2 & Hx). split; [done|]. split; [done|]. intros j Hj.
    destruct (Hx j Hj) as [Hlk Hbk]. split; [by apply Hlks|done].
  - intros s j l2. simpl. destruct (decide ((s, j) = x)) as [<-|Hne]; [intros _; by apply (hl s j l)|].
    rewrite lookup_insert_ne by done. apply hl.
  - intros s j i k p Hf2. destruct (h10 s j i k p Hf2) as (E1 & E2 & Hhm). split; [done|]. split; [done|].
    destruct Hhm as [Ho|(t' & sid & pat & ld & Hb2 & Hr)]; [by left|right]. exists t', sid, pat, ld. split; [by apply Hbld|done].
  - intros s j Hd2 Hj Hn. destruct (decide ((s, j) = x)) as [<-|Hne].
    + destruct Hst as [Hst|Hst]; [|done]. destruct (Hn t). exists o, q'. rewrite lookup_insert_eq. split; [done|by left].
    + apply (h13 s j Hd2 Hj). intros t' Hx2. apply (Hn t'). by apply Hown'.
  - intros y Hy. by apply Hlks, h15.
  - intros y ly Hy Hk. simpl in Hy. destruct (decide (y = x)) as [->|Hne].
    + rewrite lookup_insert_eq in Hy. injection Hy as <-. exists t, o, q'. rewrite lookup_insert_eq. split; [done|]. by apply Hlast.
    + rewrite lookup_insert_ne in Hy by done. destruct (h16 y ly Hy Hk) as (t' & o2 & q2 & Hq2 & Hh2). exists t'. unfold holding.
      rewrite at_pc_insert. destruct (decide (t' = t)) as [->|Hnt]; [left|right; split; [done|by exists o2, q2]].
      split; [done|]. rewrite Hps in Hq2. injection Hq2 as <- <-. by apply Hold.
  - intros Hk. destruct (h17 Hk) as [t' Ht']. exists t'. by apply Hdir.
Qed.

Lemma acquire_step t o q q' x l :
  ps !! t = Some (o, q) → locks w !! x = Some l → x.1 ∈ dom (wo w) → ver_locked l = false →
  (∀ y, holds cfg (op_key o) q' y ↔ holds cfg (op_key o) q y ∨ y = x) → builds q' = None → builds q = None →
  (in_dir q' ↔ in_dir q) → tinv (with_lock x (ver_acquire l)) o q' →
  inv (with_lock x (ver_acquire l)) (<[t := (o, q')]> ps).
Proof.
  intros Hps Hl Hd Hf Hh Hb' Hb Hi Ht.
  assert (∀ t', ¬ owning cfg ps t' x) as Hno.
  { intros t' Hx. pose proof (own_locked cfg heap w ps Hinv t' x l Hx Hl Hd). congruence. }
  apply (relock_step t o q q' x l); [done|done|by apply ver_acquire_version|congruence|by intros t' _| | | | |done..].
  - intros y Hy. destruct (decide (y = x)) as [->|]; [left; split; [done|apply ver_acquire_locked]|right]. apply Hh in Hy as [?|?]; done.
  - intros y _ Hy. apply Hh. by left.
  - left. apply Hh. by right.
  - intros _. apply Hh. by right.
Qed.

Lemma release_step t o q q' x l :
  ps !! t = Some (o, q) → locks w !! x = Some l → holds cfg (op_key o) q x → settled w x.1 x.2 →
  (∀ y, holds cfg (op_key o) q' y ↔ holds cfg (op_key o) q y ∧ y ≠ x) → builds q' = None → builds q = None →
  (in_dir q' ↔ in_dir q) → tinv (with_lock x (ver_release l)) o q' →
  inv (with_lock x (ver_release l)) (<[t := (o, q')]> ps).
Proof.
  intros Hps Hl Hx Hst Hh Hb' Hb Hi Ht.
  assert (ver_locked l = true) as Hlk.
  { destruct (gl_held _ _ _ _ Hgl t x) as (l2 & Hl2 & ?); [by exists o, q|congruence]. }
  pose proof (ver_release_version l Hlk).
  apply (relock_step t o q q' x l); [done|done|lia|done| | | |by right| |done..].
  - intros t' Hne Ho. destruct Hne. apply (gl_one _ _ _ _ Hgl t' t x Ho). exists o, q. split; [done|by left].
  - intros y Hy. right. by apply Hh in Hy as [? ?].
  - intros y Hne Hy. by apply Hh.
  - by rewrite ver_release_free.
Qed.

(** ** Buckets *)

Lemma the_fine x b : buckets w !! x = Some b → fine (wu w) x b.
Proof.
  destruct x as [s j]. intros Hb. destruct (gl_bucket _ _ _ _ Hgl s j b Hb) as (_ & h1 & h2 & h3 & h4). split; [done|].
  split; [done|]. split; [done|]. split; [done|]. simpl. intros pat ld Hs Hj.
  destruct (gl_seg _ _ _ _ Hgl s pat ld Hs) as (_ & _ & Hx). destruct (Hx j Hj) as (_ & bk & Hb' & _ & Hd). congruence.
Qed.

Lemma fine_mono u u' x b : u ⊆ u' → fine u x b → fine u' x b.
Proof. intros Hu (h1 & h2 & h3 & h4 & h5). do 3 (split; [done|]). split; [|done]. intros i Hi. by apply Hu, h4. Qed.

(** What the others see of it. *)
Lemma buckets_guar A (D : Prop) (B' : gmap (Z * Z) HashBucket) (m' : gmap K Z) u' :
  (∀ x b, ¬ A x → buckets w !! x = Some b → ∃ b', B' !! x = Some b' ∧ same_head b b') →
  wu w ⊆ u' → (∀ s j i, (s, j, i) ∈ u' → (s, j, i) ∈ wu w ∨ A (s, j)) →
  (∀ s j i k, ¬ A (s, j) → fullk w s j i k ↔ fullk (with_buckets B' m' u') s j i k) →
  guar A D w (with_buckets B' m' u').
Proof.
  intros Hbk Hu Hu' Hfk. pose proof (guar_refl cfg heap A D w) as [g1 g2 g3 g4 g5 g6 g7 g8 g9 g10 g11]. constructor; try done.
  - intros s j i k Hn _. by apply Hfk.
  - intros s j i Hn _ Hx. by destruct (Hu' s j i Hx).
Qed.

Lemma buckets_step t o q q' (B' : gmap (Z * Z) HashBucket) (m' : gmap K Z) u' :
  let w' := with_buckets B' m' u' in
  ps !! t = Some (o, q) → (∀ x, holds cfg (op_key o) q' x ↔ holds cfg (op_key o) q x) → builds q' = builds q → (in_dir q' ↔ in_dir q) →
  (∀ x, is_Some (B' !! x) → is_Some (buckets w !! x)) →
  (∀ x b, buckets w !! x = Some b → ∃ b', B' !! x = Some b' ∧ fine u' x b' ∧ same_index x b b' ∧
     (¬ owns cfg (op_key o) q x → same_head b b')) →
  wu w ⊆ u' → (∀ s j i, (s, j, i) ∈ u' → (s, j, i) ∈ wu w ∨ owns cfg (op_key o) q (s, j)) →
  (∀ s j i, (s, j, i) ∈ u' → ∃ b, B' !! (s, j) = Some b ∧ 0 ≤ i < ns ∧ (nthZ (bk_kvs b) i = Some dense_null ∨ ∃ k, fullk w' s j i k)) →
  (∀ s j i k, ¬ owns cfg (op_key o) q (s, j) → fullk w s j i k ↔ fullk w' s j i k) →
  (∀ s j i k p, full heap w' s j i k p → m' !! k = Some p ∧ j = bidx k ∧ home w ps k s) →
  (∀ s s' j j' i i' k, fullk w' s j i k → fullk w' s' j' i' k → s = s' ∧ i = i') →
  (∀ k p, m' !! k = Some p → ∃ s i, full heap w' s (bidx k) i k p) →
  tinv w' o q' → inv w' (<[t := (o, q')]> ps).
Proof.
  intros w' Hps Hh Hb Hi Hdom Hbk Hu Hu' Hused Hfk Hfull Huniq Hmap Ht.
  assert (same_pool cfg ps (<[t := (o, q')]> ps)) as Hsp by (by apply (same_pool_insert cfg ps t o q q')).
  assert (∀ x b, ¬ owns cfg (op_key o) q x → buckets w !! x = Some b → ∃ b', B' !! x = Some b' ∧ same_head b b') as Hhd.
  { intros x b Hn Hx. destruct (Hbk x b Hx) as (b' & Hb' & _ & _ & Hsame). exists b'. split; [done|by apply Hsame]. }
  pose proof (buckets_guar _ (in_dir q) B' m' u' Hhd Hu Hu' Hfk) as Hg.
  apply (inv_step cfg Hcfg heap w ps t o q Hinv Hps); [done| |done].
  pose proof (glob_pool cfg heap w ps _ Hsp Hgl) as [h1 h2 h3 h4 h5 h6 h7 h8 hl h9 h10 h11 h12 h13 h14 h15 h16 h17]. constructor; try done.
  - intros s pat ld Hs. destruct (h6 s pat ld Hs) as (E1 & E2 & Hx). split; [done|]. split; [done|]. intros j Hj.
    destruct (Hx j Hj) as (Hlk & bk & Hb2 & Hix & _). split; [done|]. destruct (Hbk _ bk Hb2) as (b' & Hb' & (_ & _ & _ & _ & Hd) & Ex & _).
    exists b'. split; [done|]. split; [|by apply (Hd pat ld)].
    rewrite Ex; [done|]. apply elem_of_dom. by eexists.
  - intros s j b' Hb'. destruct (Hdom (s, j)) as [b Hb2]; [by eexists|]. destruct (Hbk _ b Hb2) as (b2 & Hb2' & (f1 & f2 & f3 & f4 & _) & _).
    assert (b2 = b') as -> by (simpl in Hb'; congruence). split; [by apply (h8 s j b)|]. do 3 (split; [done|]). exact f4.
  - intros s j i k p Hf. destruct (Hfull s j i k p Hf) as (E1 & E2 & Hhm). split; [done|]. split; [done|].
    destruct Hhm as [Ho|(t' & sid & pat & ld & Hb2 & Hr)]; [by left|right]. exists t', sid, pat, ld. split; [by apply (Hsp t')|done].
  - intros s j Hd Hj Hn. assert (∀ t', ¬ owning cfg ps t' (s, j)) as Hn' by (intros t' Hx; apply (Hn t'); by apply (Hsp t')).
    apply (st_settled cfg heap w w' _ _ Hg s j); [|done|by apply (gl_settled _ _ _ _ Hgl)].
    intros Ho. apply (Hn' t). by exists o, q.
  - intros x Hx. by apply h15, Hdom.
Qed.

Lemma quiet_full A (B' : gmap (Z * Z) HashBucket) s j i k p : quiet A B' → full heap (with_buckets B' (wm w) (wu w)) s j i k p ↔ full heap w s j i k p.
Proof.
  intros [Hdom Hbk]. split; intros (Hu & b & r & Hb & Hs & Hr).
  - destruct (Hdom (s, j)) as [b0 Hb0]; [by exists b|]. destruct (Hbk _ b0 Hb0) as (b' & Hb' & _ & _ & Hk & _).
    assert (b' = b) as -> by (simpl in Hb; congruence). split; [done|]. exists b0, r. split; [done|]. split; [|done]. by rewrite <-(Hk i Hu).
  - destruct (Hbk _ b Hb) as (b' & Hb' & _ & _ & Hk & _). split; [done|]. exists b', r. split; [done|]. split; [|done]. by rewrite (Hk i Hu).
Qed.
Lemma quiet_fullk A (B' : gmap (Z * Z) HashBucket) s j i k : quiet A B' → fullk (with_buckets B' (wm w) (wu w)) s j i k ↔ fullk w s j i k.
Proof. intros Hq. unfold ConcInv.fullk. split; intros [p Hp]; exists p; by apply (quiet_full A B' s j i k p). Qed.

Lemma quiet_step t o q q' (B' : gmap (Z * Z) HashBucket) :
  let w' := with_buckets B' (wm w) (wu w) in
  ps !! t = Some (o, q) → (∀ x, holds cfg (op_key o) q' x ↔ holds cfg (op_key o) q x) → builds q' = builds q → (in_dir q' ↔ in_dir q) →
  quiet (owns cfg (op_key o) q) B' → tinv w' o q' → inv w' (<[t := (o, q')]> ps).
Proof.
  intros w' Hps Hh Hb Hi Hq Ht. pose proof (λ s j i k p, quiet_full _ B' s j i k p Hq) as Hf. pose proof (λ s j i k, quiet_fullk _ B' s j i k Hq) as Hfk.
  pose proof Hq as [Hdom Hbk]. pose proof Hgl as Hgl'.
  apply (buckets_step t o q q' B'); try done.
  - intros x b Hx. destruct (Hbk x b Hx) as (b' & Hb' & Hfi & Hix & _ & Hsame). exists b'. split; [done|]. split; [done|]. split; [done|].
    intros Hn. by rewrite (Hsame Hn).
  - intros s j i Hx. by left.
  - intros s j i Hx. destruct (gl_used _ _ _ _ Hgl' s j i Hx) as (b & Hb2 & Hir & Hs). destruct (Hbk _ b Hb2) as (b' & Hb' & _ & _ & Hk & _).
    exists b'. split; [done|]. split; [done|]. rewrite (Hk i Hx). destruct Hs as [?|[k Hk2]]; [by left|right]. exists k. by apply Hfk.
  - intros s j i k p Hx. by apply (gl_full _ _ _ _ Hgl' s j i k p), Hf.
  - intros s s' j j' i i' k Hx%Hfk Hx'%Hfk. by apply (gl_uniq _ _ _ _ Hgl' s s' j j' i i' k).
  - intros k p Hk. destruct (gl_map _ _ _ _ Hgl' k p Hk) as (s & i & Hx). exists s, i. by apply Hf.
Qed.

Lemma quiet_guar A (D : Prop) (B' : gmap (Z * Z) HashBucket) : quiet A B' → guar A D w (with_buckets B' (wm w) (wu w)).
Proof.
  intros Hq. apply buckets_guar; [|done|by intros s j i ?; left|].
  - intros x b Hn Hx. destruct (proj2 Hq x b Hx) as (b' & Hb' & _ & _ & _ & Hsame). exists b'. split; [done|]. by rewrite (Hsame Hn).
  - intros s j i k _. symmetry. by apply (quiet_fullk A).
Qed.

(** One or two buckets. *)
Lemma quiet_two A x1 x2 b1 b2 b1' b2' :
  buckets w !! x1 = Some b1 → buckets w !! x2 = Some b2 → A x1 → A x2 → (x1 = x2 → b1' = b2') →
  (fine (wu w) x1 b1' ∧ same_index x1 b1 b1' ∧ ∀ i, (x1.1, x1.2, i) ∈ wu w → nthZ (bk_kvs b1') i = nthZ (bk_kvs b1) i) →
  (fine (wu w) x2 b2' ∧ same_index x2 b2 b2' ∧ ∀ i, (x2.1, x2.2, i) ∈ wu w → nthZ (bk_kvs b2') i = nthZ (bk_kvs b2) i) →
  quiet A (<[x2 := b2']> (<[x1 := b1']> (buckets w))).
Proof.
  intros Hb1 Hb2 A1 A2 E (f1 & g1 & k1) (f2 & g2 & k2). split.
  - intros x. destruct (decide (x = x2)) as [->|]; [by eexists|]. rewrite lookup_insert_ne by done.
    destruct (decide (x = x1)) as [->|]; [by eexists|]. by rewrite lookup_insert_ne.
  - intros x b Hx. destruct (decide (x = x2)) as [->|].
    + exists b2'. rewrite lookup_insert_eq. assert (b = b2) as -> by congruence. done.
    + rewrite lookup_insert_ne by done. destruct (decide (x = x1)) as [->|].
      * exists b1'. rewrite lookup_insert_eq. assert (b = b1) as -> by congruence. done.
      * rewrite lookup_insert_ne by done. exists b. split; [done|]. split; [by apply the_fine|done].
Qed.
Lemma quiet_one A x b b' :
  buckets w !! x = Some b → A x →
  (fine (wu w) x b' ∧ same_index x b b' ∧ ∀ i, (x.1, x.2, i) ∈ wu w → nthZ (bk_kvs b') i = nthZ (bk_kvs b) i) →
  quiet A (<[x := b']> (buckets w)).
Proof. intros Hb HA Hf. pose proof (quiet_two A x x b b b' b' Hb Hb HA HA (λ _, eq_refl) Hf Hf) as Hq. by rewrite insert_insert_eq in Hq. Qed.

(** ** Slots *)

Lemma put_kv_fine u x b i (d : dense) : fine u x b → fine u x (put_kv b i d).
Proof. intros (h1 & h2 & h3 & h4 & h5). split; [done|]. split; [by unfold put_kv; simpl; rewrite lenZ_updZ|done]. Qed.

Lemma mk_dense_inj k k' p p' : 2 < p < 2 ^ 48 → 2 < p' < 2 ^ 48 →
  mk_dense p (slot_tag (hash_fn k)) = mk_dense p' (slot_tag (hash_fn k')) → p = p'.
Proof.
  intros Hp Hp' E%(f_equal dense_pointer). pose proof (slot_tag_range (hash_fn k)). pose proof (slot_tag_range (hash_fn k')).
  by rewrite !dense_pointer_mk in E by lia.
Qed.

(** A slot gets the record [p0] of [k0]. *)
Section put.
Variable s0 j0 i0 p0 : Z.
Variable k0 : K.
Variable b0 : HashBucket.
Variable r0 : KVPair K.
Hypothesis Hb0 : buckets w !! (s0, j0) = Some b0.
Hypothesis Hi0 : 0 ≤ i0 < ns.
Hypothesis Hr0 : heap !! p0 = Some r0 ∧ kv_key r0 = k0 ∧ 2 < p0 < 2 ^ 48.
Abbreviation put_world := (with_buckets (<[(s0, j0) := put_kv b0 i0 (mk_dense p0 (slot_tag (hash_fn k0)))]> (buckets w))
  (<[k0 := p0]> (wm w)) (wu w ∪ {[(s0, j0, i0)]})).

Lemma put_full s j i k p : full heap put_world s j i k p ↔
  if decide ((s, j, i) = (s0, j0, i0)) then k = k0 ∧ p = p0 else full heap w s j i k p.
Proof.
  destruct (the_fine _ _ Hb0) as (_ & Hlen & _). pose proof Hr0 as (Hr & Hk & Hp).
  case_decide as E.
  - injection E as -> -> ->. split.
    + intros (_ & b & r & Hb & Hs & Hr' & Hk' & Hp'). simpl in Hb. rewrite lookup_insert_eq in Hb. injection Hb as <-.
      unfold put_kv in Hs. simpl in Hs. rewrite nthZ_updZ_eq in Hs by lia. injection Hs as E. apply mk_dense_inj in E; [|done|done].
      subst p. split; [congruence|done].
    + intros [-> ->]. split; [by apply elem_of_union_r, elem_of_singleton_2|]. eexists _, r0. simpl. rewrite lookup_insert_eq. split; [done|].
      unfold put_kv. simpl. rewrite nthZ_updZ_eq by lia. done.
  - assert ((s, j, i) ∈ wu w ∪ {[(s0, j0, i0)]} ↔ (s, j, i) ∈ wu w) as Hu by set_solver. unfold full. simpl. rewrite Hu.
    destruct (decide ((s, j) = (s0, j0))) as [E'|Hne].
    + rewrite E', lookup_insert_eq, Hb0. injection E' as -> ->. assert (i ≠ i0) as Hi by congruence. split; intros (? & b & r & [= <-] & Hs & ?).
      * split; [done|]. exists b0, r. unfold put_kv in Hs. simpl in Hs. by rewrite nthZ_updZ_ne in Hs by done.
      * split; [done|]. eexists _, r. split; [done|]. unfold put_kv. simpl. by rewrite nthZ_updZ_ne by done.
    + by rewrite lookup_insert_ne.
Qed.
Lemma put_fullk s j i k : fullk put_world s j i k ↔
  if decide ((s, j, i) = (s0, j0, i0)) then k = k0 else fullk w s j i k.
Proof.
  unfold ConcInv.fullk. setoid_rewrite put_full. case_decide; [|done]. split; [by intros (p & -> & _)|]. intros ->. by exists p0.
Qed.

Lemma write_step t o q q' :
  ps !! t = Some (o, q) → (∀ x, holds cfg (op_key o) q' x ↔ holds cfg (op_key o) q x) → builds q' = builds q → (in_dir q' ↔ in_dir q) →
  j0 = bidx k0 → home w ps k0 s0 →
  (∀ s j i, fullk w s j i k0 → (s, j, i) = (s0, j0, i0)) → (∀ k, fullk w s0 j0 i0 k → k = k0) →
  owns cfg (op_key o) q (s0, j0) ∨ fullk w s0 j0 i0 k0 →
  tinv put_world o q' → inv put_world (<[t := (o, q')]> ps).
Proof.
  intros Hps Hh Hb Hi Hj Hhome Honly Hthere Hown Ht. pose proof Hgl as Hgl'. apply (buckets_step t o q q'); try done.
  - intros x. destruct (decide (x = (s0, j0))) as [->|]; [by eexists|]. by rewrite lookup_insert_ne.
  - intros x b Hx. destruct (decide (x = (s0, j0))) as [->|].
    + rewrite lookup_insert_eq. eexists. split; [done|]. assert (b = b0) as -> by congruence. split; [|done].
      apply put_kv_fine, (fine_mono (wu w)); [set_solver|by apply the_fine].
    + rewrite lookup_insert_ne by done. exists b. split; [done|]. split; [|done]. apply (fine_mono (wu w)); [set_solver|by apply the_fine].
  - set_solver.
  - intros s j i [?|[= -> -> ->]%elem_of_singleton]%elem_of_union; [by left|]. destruct Hown as [?|[p (? & _)]]; [by right|by left].
  - intros s j i Hx. destruct (decide ((s, j, i) = (s0, j0, i0))) as [E|Hne].
    + injection E as -> -> ->. rewrite lookup_insert_eq. eexists. split; [done|]. split; [done|]. right. exists k0. apply put_fullk.
      by rewrite decide_True.
    + assert ((s, j, i) ∈ wu w) as Hu by set_solver. destruct (gl_used _ _ _ _ Hgl' s j i Hu) as (b & Hb2 & Hir & Hs).
      destruct (decide ((s, j) = (s0, j0))) as [E|Hne2].
      * rewrite E, lookup_insert_eq. rewrite E in Hb2. injection E as -> ->. eexists. split; [done|]. split; [done|].
        unfold put_kv. simpl. rewrite nthZ_updZ_ne by congruence. assert (b = b0) as -> by congruence. destruct Hs as [?|[k Hk]]; [by left|right].
        exists k. apply put_fullk. by rewrite decide_False.
      * rewrite lookup_insert_ne by done. exists b. split; [done|]. split; [done|]. destruct Hs as [?|[k Hk]]; [by left|right].
        exists k. apply put_fullk. by rewrite decide_False.
  - intros s j i k Hn. rewrite put_fullk. case_decide as E; [|done]. injection E as -> -> ->. destruct Hown as [?|Hf]; [done|].
    split; [apply Hthere|by intros ->].
  - intros s j i k p. rewrite put_full. case_decide as E.
    + injection E as -> -> ->. intros [-> ->]. rewrite lookup_insert_eq. done.
    + intros Hf. rewrite lookup_insert_ne; [by apply (gl_full _ _ _ _ Hgl' s j i k p)|]. intros <-. destruct E. apply Honly. by exists p.
  - intros s s' j j' i i' k. rewrite !put_fullk. case_decide as E; case_decide as E'.
    + intros _ _. split; congruence.
    + intros -> Hf. by apply Honly in Hf.
    + intros Hf ->. by apply Honly in Hf.
    + apply (gl_uniq _ _ _ _ Hgl').
  - intros k p. destruct (decide (k = k0)) as [->|Hne].
    + rewrite lookup_insert_eq. intros [= <-]. exists s0, i0. rewrite <-Hj. apply put_full. by rewrite decide_True.
    + rewrite lookup_insert_ne by done. intros Hk. destruct (gl_map _ _ _ _ Hgl' k p Hk) as (s & i & Hf). exists s, i. apply put_full.
      case_decide as E; [|done]. injection E as -> E ->. rewrite E in Hf. destruct Hne. apply Hthere. by exists p.
Qed.
End put.

(** A slot of the bucket [(s1, j0)] moves to the same slot of [(s2, j0)]. *)
Section move.
Variable s1 s2 j0 i0 p0 : Z.
Variable k0 : K.
Variable b1 b2 : HashBucket.
Hypothesis Hne12 : s1 ≠ s2.
Hypothesis Hb1 : buckets w !! (s1, j0) = Some b1.
Hypothesis Hb2 : buckets w !! (s2, j0) = Some b2.
Hypothesis Hi0 : 0 ≤ i0 < ns.
Hypothesis Hf0 : full heap w s1 j0 i0 k0 p0.
Hypothesis Hn0 : ∀ k, ¬ fullk w s2 j0 i0 k.
Abbreviation move_world := (with_buckets (<[(s2, j0) := put_kv b2 i0 (mk_dense p0 (slot_tag (hash_fn k0)))]>
  (<[(s1, j0) := put_kv b1 i0 dense_null]> (buckets w))) (wm w) (wu w ∪ {[(s2, j0, i0)]})).

Lemma move_bucket1 : buckets move_world !! (s1, j0) = Some (put_kv b1 i0 dense_null).
Proof. simpl. rewrite lookup_insert_ne by congruence. by rewrite lookup_insert_eq. Qed.

Lemma move_full s j i k p : full heap move_world s j i k p ↔
  if decide ((s, j, i) = (s2, j0, i0)) then k = k0 ∧ p = p0 else (s, j, i) ≠ (s1, j0, i0) ∧ full heap w s j i k p.
Proof.
  destruct (the_fine _ _ Hb1) as (_ & Hlen1 & _). destruct (the_fine _ _ Hb2) as (_ & Hlen2 & _).
  pose proof Hf0 as (_ & _ & r0 & _ & _ & Hr & Hk & Hp).
  case_decide as E.
  - injection E as -> -> ->. split.
    + intros (_ & b & r & Hb & Hs & Hr' & Hk' & Hp'). simpl in Hb. rewrite lookup_insert_eq in Hb. injection Hb as <-.
      unfold put_kv in Hs. simpl in Hs. rewrite nthZ_updZ_eq in Hs by lia. injection Hs as E. apply mk_dense_inj in E; [|done|done].
      subst p. split; [congruence|done].
    + intros [-> ->]. split; [by apply elem_of_union_r, elem_of_singleton_2|]. eexists _, r0. simpl. rewrite lookup_insert_eq. split; [done|].
      unfold put_kv. simpl. rewrite nthZ_updZ_eq by lia. done.
  - assert ((s, j, i) ∈ wu w ∪ {[(s2, j0, i0)]} ↔ (s, j, i) ∈ wu w) as Hu by set_solver. unfold full. simpl. rewrite Hu.
    destruct (decide ((s, j) = (s2, j0))) as [E'|Hne].
    + rewrite E', lookup_insert_eq, Hb2. injection E' as -> ->. assert (i ≠ i0) as Hi by congruence. split; [|intros [Hx Hy]; revert Hy].
      * intros (? & b & r & [= <-] & Hs & ?). split; [congruence|]. split; [done|]. exists b2, r. unfold put_kv in Hs. simpl in Hs.
        by rewrite nthZ_updZ_ne in Hs by done.
      * intros (? & b & r & [= <-] & Hs & ?). split; [done|]. eexists _, r. split; [done|]. unfold put_kv. simpl. by rewrite nthZ_updZ_ne by done.
    + rewrite lookup_insert_ne by done. destruct (decide ((s, j) = (s1, j0))) as [E'|Hne1].
      * rewrite E', lookup_insert_eq, Hb1. injection E' as -> ->. split; [|intros [Hx Hy]; revert Hy].
        -- intros (? & b & r & [= <-] & Hs & Hr' & Hk' & Hp'). unfold put_kv in Hs. simpl in Hs. destruct (decide (i = i0)) as [->|Hi].
           ++ rewrite nthZ_updZ_eq in Hs by lia. injection Hs as E'. symmetry in E'. by apply dense_ne_null in E'.
           ++ rewrite nthZ_updZ_ne in Hs by done. split; [congruence|]. split; [done|]. by exists b1, r.
        -- intros (? & b & r & [= <-] & Hs & ?). split; [done|]. eexists _, r. split; [done|]. unfold put_kv. simpl.
           by rewrite nthZ_updZ_ne by congruence.
      * rewrite lookup_insert_ne by done. split; [intros ?; split; [congruence|done]|by intros [_ ?]].
Qed.
Lemma move_fullk s j i k : fullk move_world s j i k ↔
  if decide ((s, j, i) = (s2, j0, i0)) then k = k0 else (s, j, i) ≠ (s1, j0, i0) ∧ fullk w s j i k.
Proof.
  unfold ConcInv.fullk. setoid_rewrite move_full. case_decide; [split; [by intros (p & -> & _)|intros ->; by exists p0]|].
  split; [intros (p & ? & ?); split; [done|by exists p]|intros (? & p & ?); by exists p].
Qed.

Lemma move_guar A (D : Prop) : A (s1, j0) → A (s2, j0) → guar A D w move_world.
Proof.
  intros A1 A2. apply buckets_guar; [|set_solver| |].
  - intros x b Hn Hx. rewrite !lookup_insert_ne by congruence. by exists b.
  - intros s j i [?|[= -> -> ->]%elem_of_singleton]%elem_of_union; [by left|by right].
  - intros s j i k Hn. rewrite move_fullk. rewrite decide_False by congruence. split; [intros Hf; split; [congruence|done]|by intros [_ ?]].
Qed.

(** The slots that have been used are null or full. *)
Lemma move_used s j i : (s, j, i) ∈ wu move_world →
  ∃ b, buckets move_world !! (s, j) = Some b ∧ 0 ≤ i < ns ∧ (nthZ (bk_kvs b) i = Some dense_null ∨ ∃ k, fullk move_world s j i k).
Proof.
  cbn [wu wc with_buckets ct_buckets set_ct_buckets].
  intros Hx. pose proof Hgl as Hgl'. destruct (the_fine _ _ Hb1) as (_ & Hlen1 & _). destruct (decide ((s, j, i) = (s2, j0, i0))) as [E|Hne].
  + injection E as -> -> ->. rewrite lookup_insert_eq. eexists. split; [done|]. split; [done|]. right. exists k0. apply move_fullk.
    by rewrite decide_True.
  + assert ((s, j, i) ∈ wu w) as Hu by set_solver. destruct (gl_used _ _ _ _ Hgl' s j i Hu) as (b & Hb3 & Hir & Hs).
    destruct (decide ((s, j, i) = (s1, j0, i0))) as [E|Hne1].
    * injection E as -> -> ->. pose proof move_bucket1 as Hmb. simpl in Hmb. rewrite Hmb. eexists. split; [done|]. split; [done|]. left.
      unfold put_kv. simpl. by rewrite nthZ_updZ_eq by lia.
    * destruct (decide ((s, j) = (s2, j0))) as [E|Hne2].
      -- rewrite E, lookup_insert_eq. rewrite E in Hb3. injection E as -> ->. eexists. split; [done|]. split; [done|].
         unfold put_kv. simpl. rewrite nthZ_updZ_ne by congruence. assert (b = b2) as -> by congruence. destruct Hs as [?|[k Hk]]; [by left|right].
         exists k. apply move_fullk. by rewrite decide_False.
      -- rewrite lookup_insert_ne by done. destruct (decide ((s, j) = (s1, j0))) as [E|Hne3].
         ++ rewrite E, lookup_insert_eq. rewrite E in Hb3. injection E as -> ->. eexists. split; [done|]. split; [done|].
            unfold put_kv. simpl. rewrite nthZ_updZ_ne by congruence. assert (b = b1) as -> by congruence. destruct Hs as [?|[k Hk]]; [by left|right].
            exists k. apply move_fullk. by rewrite decide_False.
         ++ rewrite lookup_insert_ne by done. exists b. split; [done|]. split; [done|]. destruct Hs as [?|[k Hk]]; [by left|right].
            exists k. apply move_fullk. by rewrite decide_False.
Qed.

Lemma move_step t o q q' :
  ps !! t = Some (o, q) → (∀ x, holds cfg (op_key o) q' x ↔ holds cfg (op_key o) q x) → builds q' = builds q → (in_dir q' ↔ in_dir q) →
  home w ps k0 s2 → owns cfg (op_key o) q (s1, j0) → owns cfg (op_key o) q (s2, j0) →
  tinv move_world o q' → inv move_world (<[t := (o, q')]> ps).
Proof.
  intros Hps Hh Hb Hi Hhome Hown1 Hown2 Ht. pose proof Hgl as Hgl'. pose proof (gl_full _ _ _ _ Hgl' _ _ _ _ _ Hf0) as (Hm0 & Hj0 & _).
  assert (fullk w s1 j0 i0 k0) as Hfk0 by (by exists p0).
  assert (∀ s j i, fullk w s j i k0 → (s, j, i) = (s1, j0, i0)) as Honly.
  { intros s j i Hf. destruct (gl_uniq _ _ _ _ Hgl' _ _ _ _ _ _ _ Hf Hfk0) as [-> ->]. destruct Hf as [p Hf].
    apply (gl_full _ _ _ _ Hgl') in Hf as (_ & -> & _). by rewrite <-Hj0. }
  apply (buckets_step t o q q'); try done.
  - intros x. destruct (decide (x = (s2, j0))) as [->|]; [by eexists|]. rewrite lookup_insert_ne by done.
    destruct (decide (x = (s1, j0))) as [->|]; [by eexists|]. by rewrite lookup_insert_ne.
  - intros x b Hx. pose proof (the_fine x b Hx) as Hfi. apply (fine_mono _ (wu w ∪ {[(s2, j0, i0)]})) in Hfi; [|set_solver].
    destruct (decide (x = (s2, j0))) as [->|].
    + rewrite lookup_insert_eq. eexists. split; [done|]. assert (b = b2) as -> by congruence. split; [by apply put_kv_fine|done].
    + rewrite lookup_insert_ne by done. destruct (decide (x = (s1, j0))) as [->|].
      * rewrite lookup_insert_eq. eexists. split; [done|]. assert (b = b1) as -> by congruence. split; [by apply put_kv_fine|done].
      * rewrite lookup_insert_ne by done. by exists b.
  - set_solver.
  - intros s j i [?|[= -> -> ->]%elem_of_singleton]%elem_of_union; [by left|by right].
  - apply move_used.
  - intros s j i k Hn. rewrite move_fullk. case_decide as E; [injection E as -> -> ->; done|].
    split; [intros Hf; split; [|done]; intros [= -> -> ->]; done|by intros [_ ?]].
  - intros s j i k p. rewrite move_full. case_decide as E.
    + injection E as -> -> ->. intros [-> ->]. done.
    + intros [_ Hf]. by apply (gl_full _ _ _ _ Hgl' s j i k p).
  - intros s s' j j' i i' k. rewrite !move_fullk. case_decide as E; case_decide as E'.
    + intros _ _. split; congruence.
    + intros -> [? Hf]. by apply Honly in Hf.
    + intros [? Hf] ->. by apply Honly in Hf.
    + intros [_ Q1] [_ Q2]. by apply (gl_uniq _ _ _ _ Hgl' s s' j j' i i' k).
  - intros k p Hk. destruct (gl_map _ _ _ _ Hgl' k p Hk) as (s & i & Hf). destruct (decide (k = k0)) as [->|Hne].
    + exists s2, i0. rewrite <-Hj0. apply move_full. rewrite decide_True by done. split; [done|congruence].
    + exists s, i. apply move_full. destruct (decide ((s, bidx k, i) = (s2, j0, i0))) as [E|_].
      * injection E as -> E ->. rewrite E in Hf. destruct (Hn0 k). by exists p.
      * split; [|done]. intros [= -> E ->]. rewrite E in Hf. destruct Hne. by destruct (full_fun heap w _ _ _ _ _ _ _ Hf0 Hf) as [-> _].
Qed.
End move.
End writes.
