(* ===== verification/ConcDir.v ===== *)
(** * A split of the concurrent hash table: the new segment and the directory

    [fresh_step]: a new segment that no other thread knows; [publish_step]: its
    thread takes the lock of the directory, and from then on the new segment is
    the one for the upper half of the codes; [dir_step]: a write to the directory
    under its lock; [dir_release_step]: the lock is released. *)

From S2P Require Export ConcStep.

Section writes.
Context `{UtilSpec} `{DenseSpec} `{SimdSpec} `{VerLockSpec} {K : Type} `{Countable K} `{HashFnSpec K}.
Variable cfg : HashConfig.
Hypothesis Hcfg : wf_config cfg.
Variable heap : gmap Z (KVPair K).
Abbreviation nb := (kNBucketInSegment cfg).
Abbreviation ns := (kNSlotInBucket cfg).
Abbreviation bidx k := (bucket_index (hash_fn k) nb).
Abbreviation buckets w := (ct_buckets (wc w)).
Abbreviation locks w := (ct_locks (wc w)).
Abbreviation arrays w := (ct_arrays (wc w)).
Abbreviation fullk := (fullk heap).
Abbreviation settled := (settled heap).
Abbreviation inv := (inv cfg heap).
Abbreviation glob := (glob cfg heap).
Abbreviation tinv := (tinv cfg heap).
Abbreviation guar := (guar cfg heap).
Variable w : world K.
Variable ps : gmap Z (table_op K * pc).
Hypothesis Hinv : inv w ps.
Abbreviation Hgl := (the_glob cfg heap w ps Hinv).
Implicit Types (t s j i d g v sid : Z) (o : table_op K) (q : pc) (k : K) (x y : Z * Z) (b : HashBucket) (A : Z * Z → Prop).
Implicit Types (c : ctable).

Definition with_table c : world K := World c (wm w) (wo w) (wu w).
Definition publish_world k (local sid rgt : Z) : world K :=
  World (set_ct_lock (ver_acquire (ct_lock (wc w))) (wc w)) (wm w)
    (<[rgt := (hash_fn k mod 2 ^ local + 2 ^ local, local + 1)]> (<[sid := (hash_fn k mod 2 ^ local, local + 1)]> (wo w))) (wu w).

Definition fresh_table : ctable :=
  set_ct_nsegs (ct_nsegs (wc w) + 1) (set_ct_locks (foldr (λ j, <[(ct_nsegs (wc w), j) := ver_new]>) (locks w) (seqZ 0 nb))
    (set_ct_buckets (foldr (λ j, <[(ct_nsegs (wc w), j) := HashBucket_new cfg]>) (buckets w) (seqZ 0 nb)) (wc w))).

(** ** Codes *)

(** The two halves of the codes of a segment. *)
Lemma half_mod (x l pat : Z) : 0 ≤ l → 0 ≤ pat < 2 ^ l →
  (x mod 2 ^ (l + 1) = pat ↔ x mod 2 ^ l = pat ∧ Z.testbit x l = false) ∧
  (x mod 2 ^ (l + 1) = pat + 2 ^ l ↔ x mod 2 ^ l = pat ∧ Z.testbit x l = true).
Proof.
  intros Hl Hp. assert (0 < 2 ^ l) as Hpos by (by apply Z.pow_pos_nonneg). pose proof (Z.mod_pos_bound x (2 ^ l) Hpos).
  rewrite mod_succ_pow by done. destruct (Z.testbit x l); split; split; intros; try (destruct_and?; done || lia).
  all: split; [lia|done].
Qed.

(** ** Under the lock of the directory *)

(** A write to the directory. *)
Lemma dir_step t o q q' c :
  ps !! t = Some (o, q) → in_dir q → in_dir q' → (∀ x, holds cfg (op_key o) q' x ↔ holds cfg (op_key o) q x) → builds q' = builds q →
  ct_lock c = ct_lock (wc w) → ct_locks c = locks w → ct_buckets c = buckets w → ct_nsegs c = ct_nsegs (wc w) →
  (∀ d l, arrays w !! d = Some l → ∃ l', ct_arrays c !! d = Some l' ∧ lenZ l ≤ lenZ l' ∧
    ∀ i s, 0 ≤ i < lenZ l → nthZ l' i = Some s → nthZ l i = Some s ∨
      ∃ lft pat l0, nthZ l i = Some lft ∧ wo w !! lft = Some (pat, l0 + 1) ∧ wo w !! s = Some (pat + 2 ^ l0, l0 + 1) ∧
        i mod 2 ^ (l0 + 1) = pat + 2 ^ l0 ∧ 0 ≤ l0 ∧ ∀ j, 0 ≤ j < nb → owns cfg (op_key o) q (lft, j)) →
  (∀ d l, ct_arrays c !! d = Some l → d < ct_narrays c ∧ ∀ s, s ∈ l → s ∈ dom (wo w)) →
  tinv (with_table c) o q' → inv (with_table c) (<[t := (o, q')]> ps).
Proof.
  intros Hps Hd Hd' Hh Hb El Els Eb En Harr Harr' Ht. pose proof Hgl as Hgl'.
  assert (ver_locked (ct_lock (wc w)) = true) as Hlk by (apply (gl_dirheld _ _ _ _ Hgl' t); by exists o, q).
  assert (same_pool cfg ps (<[t := (o, q')]> ps)) as Hsp by (by apply (same_pool_insert cfg ps t o q q')).
  apply (inv_step cfg Hcfg heap w ps t o q Hinv Hps); [| |done].
  - pose proof (guar_refl cfg heap (owns cfg (op_key o) q) (in_dir q) w) as [g1 g2 g3 g4 g5 g6 g7 g8 g9 g10 g11].
    destruct c. simpl in *. subst. constructor; try done. simpl. rewrite Hlk. intros [[_ ?]|[? _]]; done.
  - pose proof (glob_pool cfg heap w ps _ Hsp Hgl') as [h1 h2 h3 h4 h5 h6 h7 h8 hl h9 h10 h11 h12 h13 h14 h15 h16 h17].
    destruct c. simpl in *. subst. constructor; try done. simpl. congruence.
Qed.

Lemma dir_release_step t o q q' :
  ps !! t = Some (o, q) → in_dir q → ¬ in_dir q' → (∀ x, holds cfg (op_key o) q' x ↔ holds cfg (op_key o) q x) →
  builds q' = None → builds q = None → dir_ok w →
  let w' := with_table (set_ct_lock (ver_release (ct_lock (wc w))) (wc w)) in
  tinv w' o q' → inv w' (<[t := (o, q')]> ps).
Proof.
  intros Hps Hd Hd' Hh Hb' Hb Hok w' Ht. pose proof Hgl as Hgl'.
  assert (ver_locked (ct_lock (wc w)) = true) as Hlk by (apply (gl_dirheld _ _ _ _ Hgl' t); by exists o, q).
  pose proof (ver_release_version _ Hlk) as Hv.
  assert (∀ t', dir_holder (<[t := (o, q')]> ps) t' → t' ≠ t ∧ dir_holder ps t') as Hdir.
  { intros t'. unfold dir_holder. rewrite at_pc_insert. intros [[_ ?]|?]; done. }
  assert (∀ t', dir_holder ps t' → t' = t) as Hone.
  { intros t' Ht'. apply (gl_dirone _ _ _ _ Hgl' t' t Ht'). by exists o, q. }
  assert (∀ t' P, P o q' ↔ P o q → at_pc (<[t := (o, q')]> ps) t' P ↔ at_pc ps t' P) as Hat.
  { intros t' P HP. rewrite at_pc_insert. destruct (decide (t' = t)) as [->|Hne]; [|tauto]. rewrite (at_pc_here ps t o q P Hps). tauto. }
  apply (inv_step cfg Hcfg heap w ps t o q Hinv Hps); [| |done].
  - pose proof (guar_refl cfg heap (owns cfg (op_key o) q) (in_dir q) w) as [g1 g2 g3 g4 g5 g6 g7 g8 g9 g10 g11].
    constructor; try done; simpl; [split; [lia|done]|]. rewrite Hlk. intros [[_ ?]|[? _]]; done.
  - pose proof Hgl' as [h1 h2 h3 h4 h5 h6 h7 h8 hl h9 h10 h11 h12 h13 h14 h15 h16 h17].
    assert (∀ t' x, owning cfg (<[t := (o, q')]> ps) t' x ↔ owning cfg ps t' x) as Hown.
    { intros t' x. apply Hat. unfold owns. by rewrite Hh, Hb, Hb'. }
    assert (∀ t' sid rgt, building (<[t := (o, q')]> ps) t' sid rgt ↔ building ps t' sid rgt) as Hbld.
    { intros t' sid rgt. apply Hat. by rewrite Hb, Hb'. }
    constructor; try done.
    + intros t' x Hx. apply (h1 t' x). by apply (Hat t' (λ o q, holds cfg (op_key o) q x)).
    + intros t1 t2 x Q1%Hown Q2%Hown. by apply (h2 t1 t2 x).
    + intros t' [Hne Hx]%Hdir. by destruct Hne; apply Hone.
    + intros t1 t2 [_ Q1]%Hdir [_ Q2]%Hdir. by apply h4.
    + intros s j i k p Hf. destruct (h10 s j i k p Hf) as (E1 & E2 & Hhm). split; [done|]. split; [done|].
      destruct Hhm as [Ho|(t' & sid & pat & ld & Hb2 & Hr)]; [by left|right]. exists t', sid, pat, ld. split; [by apply Hbld|done].
    + intros s j Hs Hj Hn. apply (h13 s j Hs Hj). intros t' Hx. apply (Hn t'). by apply Hown.
    + intros x l Hl Hk. destruct (h16 x l Hl Hk) as [t' Ht']. exists t'. by apply (Hat t' (λ o q, holds cfg (op_key o) q x)).
    + simpl. by rewrite ver_release_free.
Qed.

(** *** The new segment gets its codes *)

Section publish.
Variable t : Z.
Variable o : table_op K.
Variable local sid rgt : Z.
Abbreviation k0 := (op_key o).
Abbreviation pat := (hash_fn k0 mod 2 ^ local).
Hypothesis Hps : ps !! t = Some (o, SDirLock local sid rgt).
Hypothesis Hfree : ver_locked (ct_lock (wc w)) = false.
Abbreviation wo' := (<[rgt := (pat + 2 ^ local, local + 1)]> (<[sid := (pat, local + 1)]> (wo w))).
Abbreviation w' := (publish_world k0 local sid rgt).

Lemma publish_facts :
  0 ≤ local ≤ kMaxDirDepth ∧ wo w !! sid = Some (pat, local) ∧ wo w !! rgt = None ∧ sid ≠ rgt ∧ 0 ≤ pat < 2 ^ local ∧
  ∀ j, 0 ≤ j < nb → split_done heap w local sid rgt j.
Proof.
  pose proof (the_tinv cfg heap w ps t o _ Hinv Hps) as (_ & (_ & Hl & Hs & Hr & _) & Hd).
  split; [done|]. split; [done|]. split; [done|]. split; [congruence|]. split; [|done].
  apply Z.mod_pos_bound, Z.pow_pos_nonneg; lia.
Qed.

Lemma publish_wo s pt ld : wo w' !! s = Some (pt, ld) ↔
  s = rgt ∧ pt = pat + 2 ^ local ∧ ld = local + 1 ∨ s = sid ∧ pt = pat ∧ ld = local + 1 ∨ s ≠ sid ∧ wo w !! s = Some (pt, ld).
Proof.
  destruct publish_facts as (_ & Hs & Hr & Hne & _). simpl. destruct (decide (s = rgt)) as [->|Hn1].
  - rewrite lookup_insert_eq. rewrite Hr. naive_solver.
  - rewrite lookup_insert_ne by done. destruct (decide (s = sid)) as [->|Hn2].
    + rewrite lookup_insert_eq. naive_solver.
    + rewrite lookup_insert_ne by done. naive_solver.
Qed.

Lemma publish_own s (x : Z) : own_code w' s x ↔
  s = rgt ∧ own_code w sid x ∧ Z.testbit x local = true ∨ s = sid ∧ own_code w sid x ∧ Z.testbit x local = false ∨
  s ≠ sid ∧ own_code w s x.
Proof.
  destruct publish_facts as (Hl & Hs & Hr & Hne & Hp & _). destruct (half_mod x local pat ltac:(lia) Hp) as [Hlo Hhi].
  assert (own_code w sid x ↔ x mod 2 ^ local = pat) as Hsid.
  { split; [intros (pt & ld & Hw & Hx); assert (pt = pat ∧ ld = local) as [-> ->] by (split; congruence); done|].
    intros Hx. by exists pat, local. }
  rewrite Hsid. split.
  - intros (pt & ld & Hw & Hx). apply publish_wo in Hw as [(-> & -> & ->)|[(-> & -> & ->)|[? Hw]]]; [left|right; left|right; right].
    + split; [done|by apply Hhi].
    + split; [done|by apply Hlo].
    + split; [done|]. by exists pt, ld.
  - intros [(-> & Hx)|[(-> & Hx)|(Hn & pt & ld & Hw & Hx)]].
    + exists (pat + 2 ^ local), (local + 1). split; [apply publish_wo; by left|by apply Hhi].
    + exists pat, (local + 1). split; [apply publish_wo; right; by left|by apply Hlo].
    + exists pt, ld. split; [apply publish_wo; right; by right|done].
Qed.

(** The directory, with which half of the entries still to be changed. *)
Lemma publish_dir : local ≤ ct_depth (wc w) ∧ dir_but w' (ct_dir (wc w)) (ct_depth (wc w)) sid pat local 0.
Proof.
  destruct publish_facts as (Hl & Hs & Hr & Hne & Hp & _). pose proof Hgl as Hgl'.
  destruct (gl_dir _ _ _ _ Hgl' Hfree) as (Hg & l & Ha & Hlen & He).
  assert (∀ s pt ld (x : Z), wo w !! s = Some (pt, ld) → x mod 2 ^ ld = pt → own_code w s x) as Hoc by (intros s pt ld x ? ?; by exists pt, ld).
  split.
  - destruct (nthZ_is_Some l (hash_fn k0 mod 2 ^ ct_depth (wc w))) as [s Hx].
    { rewrite Hlen. apply Z.mod_pos_bound, Z.pow_pos_nonneg; lia. }
    destruct (He _ _ Hx) as (pt & ld & Hw & Hle & Hm). rewrite mod_mod_pow in Hm.
    2:{ destruct (gl_seg _ _ _ _ Hgl' s pt ld Hw). lia. }
    assert (s = sid) as -> by (apply (gl_disj _ _ _ _ Hgl' s sid (hash_fn k0)); [by apply (Hoc s pt ld)|by apply (Hoc sid pat local)]).
    assert (ld = local) by congruence. lia.
  - split; [done|]. exists l. split; [done|]. split; [done|]. intros i s Hx. pose proof (nthZ_Some _ _ _ Hx) as Hi.
    destruct (He i s Hx) as (pt & ld & Hw & Hle & Hm). destruct (half_mod i local pat ltac:(lia) Hp) as [Hlo Hhi].
    assert (i mod 2 ^ local = pat → s = sid) as Hsid.
    { intros Hi2. apply (gl_disj _ _ _ _ Hgl' s sid i); [by apply (Hoc s pt ld)|by apply (Hoc sid pat local)]. }
    assert (0 ≤ i / 2 ^ (local + 1)) by (apply Z.div_pos; [lia|apply Z.pow_pos_nonneg; lia]). split.
    + intros [Hc _]. apply Hsid. by apply Hhi.
    + intros Hc. destruct (decide (s = sid)) as [->|Hn].
      * assert (pt = pat ∧ ld = local) as [-> ->] by (split; congruence). exists pat, (local + 1).
        split; [apply publish_wo; right; by left|]. split; [by left|]. apply Hlo. split; [done|].
        destruct (Z.testbit i local) eqn:Eb; [|done]. destruct Hc. split; [by apply Hhi|done].
      * exists pt, ld. split; [apply publish_wo; right; by right|]. split; [by right|done].
Qed.

Lemma publish_owning t' x : owning cfg (<[t := (o, SDirRead local sid rgt)]> ps) t' x ↔
  owning cfg ps t' x ∧ (t' = t → x.1 = sid ∧ 0 ≤ x.2 < nb).
Proof.
  unfold owning. rewrite at_pc_insert. destruct (decide (t' = t)) as [->|Hne]; [|tauto]. rewrite (at_pc_here ps t o _ _ Hps).
  unfold owns. simpl. naive_solver.
Qed.

(** What the other threads split goes on. *)
Lemma publish_building t' s r : t' ≠ t → building ps t' s r → building (<[t := (o, SDirRead local sid rgt)]> ps) t' s r ∧ s ≠ sid.
Proof.
  intros Hn Hb. split; [unfold building; rewrite at_pc_insert; by right|]. intros ->. apply Hn. pose proof Hgl as Hgl'.
  pose proof (proj2 Hcfg). pose proof (builds_holds cfg ps t' sid r 0 Hb ltac:(lia)) as (o' & q' & Hq & Hh).
  apply (gl_one _ _ _ _ Hgl' t' t (sid, 0)); [exists o', q'; split; [done|by left]|].
  exists o, (SDirLock local sid rgt). split; [done|]. left. simpl. split; [done|lia].
Qed.

Lemma publish_home s j i k p : full heap w s j i k p → home w' (<[t := (o, SDirRead local sid rgt)]> ps) k s.
Proof.
  intros Hf. destruct publish_facts as (Hl & Hs & Hr & Hne & Hp & Hdn). pose proof Hgl as Hgl'.
  destruct (gl_full _ _ _ _ Hgl' s j i k p Hf) as (E1 & E2 & Hhm).
  destruct Hhm as [Ho|(t' & s' & pt & ld & Hb & Hw & Hm & Hbit)].
  - left. apply publish_own. destruct (decide (s = sid)) as [->|Hn]; [|right; by right]. right. left. split; [done|]. split; [done|].
    pose proof (bidx_ok cfg Hcfg k) as Hj. rewrite <-E2 in Hj. destruct (Hdn j Hj) as (_ & _ & _ & _ & Hsep). apply (Hsep i k). by exists p.
  - destruct (decide (t' = t)) as [->|Hn].
    + apply (at_pc_here ps t o _ _ Hps) in Hb. simpl in Hb. injection Hb as <- <-. left. apply publish_own. left. split; [done|].
      assert (pt = pat ∧ ld = local) as [-> ->] by (split; congruence). split; [by exists pat, local|done].
    + destruct (publish_building t' s' s Hn Hb) as [Hb' Hns]. right. exists t', s', pt, ld. split; [done|]. split; [|done].
      apply publish_wo. right. by right.
Qed.

Lemma publish_settled s j : s ∈ dom wo' → 0 ≤ j < nb → (∀ t', ¬ owning cfg (<[t := (o, SDirRead local sid rgt)]> ps) t' (s, j)) → settled w' s j.
Proof.
  intros Hd Hj Hn. destruct publish_facts as (Hl & Hs & Hr & Hne & Hp & Hdn). pose proof Hgl as Hgl'.
  assert (s = rgt ∨ s ∈ dom (wo w) ∧ s ≠ sid) as [->|[Hd' Hns]].
  { apply elem_of_dom in Hd as [[pt ld] Hw]. apply publish_wo in Hw as [(-> & _)|[(-> & _)|[? Hw]]]; [by left| |right].
    - destruct (Hn t). apply publish_owning. split; [|done]. exists o, (SDirLock local sid rgt). split; [done|by left].
    - split; [apply elem_of_dom; by eexists|done]. }
  - destruct (Hdn j Hj) as (_ & Q1 & _ & Q2 & _). split; [done|]. exists (pat + 2 ^ local), (local + 1).
    split; [apply publish_wo; by left|done].
  - destruct (gl_settled _ _ _ _ Hgl' s j Hd' Hj) as (Q1 & pt & ld & Hw & Q2).
    { intros t' Hx. apply (Hn t'). apply publish_owning. split; [done|]. intros ->.
      apply (at_pc_here ps t o _ _ Hps) in Hx as [[? _]|(s' & Hb & _)]; [done|]. simpl in Hb. injection Hb as <- ->.
      apply elem_of_dom in Hd' as [? ?]. congruence. }
    split; [done|]. exists pt, ld. split; [apply publish_wo; right; by right|done].
Qed.

Lemma publish_glob : glob w' (<[t := (o, SDirRead local sid rgt)]> ps).
Proof.
  destruct publish_facts as (Hl & Hs & Hr & Hne & Hp & Hdn). pose proof Hgl as Hgl'.
  assert (∀ t', ¬ dir_holder ps t') as Hnd by (intros t' Hx%(gl_dirheld _ _ _ _ Hgl'); congruence).
  assert (∀ t', dir_holder (<[t := (o, SDirRead local sid rgt)]> ps) t' → t' = t) as Hdir.
  { intros t'. unfold dir_holder. rewrite at_pc_insert. intros [[? _]|[_ ?]]; [done|]. by destruct (Hnd t'). }
  assert (∀ t' x, holding cfg (<[t := (o, SDirRead local sid rgt)]> ps) t' x ↔ holding cfg ps t' x) as Hhold.
  { intros t' x. unfold holding. rewrite at_pc_insert. destruct (decide (t' = t)) as [->|Hn]; [|tauto].
    rewrite (at_pc_here ps t o _ _ Hps). simpl. tauto. }
  pose proof Hgl' as [h1 h2 h3 h4 h5 h6 h7 h8 hl h9 h10 h11 h12 h13 h14 h15 h16 h17]. constructor; try done.
  - intros t' x Hx. by apply (h1 t' x), Hhold.
  - intros t1 t2 x [Q1 _]%publish_owning [Q2 _]%publish_owning. by apply (h2 t1 t2 x).
  - intros t' _. apply ver_acquire_locked.
  - intros t1 t2 Q1%Hdir Q2%Hdir. congruence.
  - simpl. rewrite ver_acquire_locked. done.
  - intros s pt ld Hw. apply publish_wo in Hw as [(-> & -> & ->)|[(-> & -> & ->)|[Hn Hw]]]; [| |by apply h6].
    + assert (0 < 2 ^ local) by lia. rewrite (Z.pow_add_r 2 local 1) by lia. split; [lia|]. split; [lia|]. intros j Hj.
      destruct (Hdn j Hj) as (_ & _ & _ & (bk & Hb & Hd & Hx) & _). split; [apply h15; by eexists|].
      exists bk. split; [done|]. split; [done|by left].
    + rewrite (Z.pow_add_r 2 local 1) by lia. split; [lia|]. split; [lia|]. intros j Hj. destruct (h6 sid pat local Hs) as (_ & _ & Hx).
      split; [by apply Hx|]. destruct (Hdn j Hj) as (_ & _ & (bk & Hb & Hd & Hx') & _). exists bk. split; [done|]. split; [done|by left].
  - intros s s' x [(-> & Q1 & B1)|[(-> & Q1 & B1)|[N1 Q1]]]%publish_own [(-> & Q2 & B2)|[(-> & Q2 & B2)|[N2 Q2]]]%publish_own; try congruence.
    1,2: by destruct N2; apply (h7 _ _ x). 1,2: by destruct N1; apply (h7 _ _ x). by apply (h7 _ _ x).
  - intros s j i k p Hf. destruct (h10 s j i k p Hf) as (E1 & E2 & _). split; [done|]. split; [done|]. by apply (publish_home s j i k p).
  - apply publish_settled.
  - intros d l Hl2. destruct (h14 d l Hl2) as [? Hx]. split; [done|]. intros s Hin. apply Hx in Hin. simpl. rewrite !dom_insert. set_solver.
  - intros x l Hl2 Hk. destruct (h16 x l Hl2 Hk) as [t' Ht']. exists t'. by apply Hhold.
  - intros _. exists t, o, (SDirRead local sid rgt). by rewrite lookup_insert_eq.
Qed.

Lemma publish_step : inv w' (<[t := (o, SDirRead local sid rgt)]> ps).
Proof.
  destruct publish_facts as (Hl & Hs & Hr & Hne & Hp & Hdn). pose proof Hgl as Hgl'.
  apply (inv_step cfg Hcfg heap w ps t o _ Hinv Hps); [|apply publish_glob|].
  - pose proof (guar_refl cfg heap (owns cfg k0 (SDirLock local sid rgt)) (in_dir (SDirLock local sid rgt)) w) as [g1 g2 g3 g4 g5 g6 g7 g8 g9 g10 g11].
    constructor; try done.
    + simpl. split; [by apply ver_acquire_version|]. rewrite Hfree. done.
    + simpl. rewrite ver_acquire_locked, Hfree. intros [[? _]|[_ ?]]; done.
    + intros s pt ld Hw. destruct (decide (s = sid)) as [->|Hn].
      * right. assert (pt = pat ∧ ld = local) as [-> ->] by (split; congruence). split; [apply publish_wo; right; by left|].
        intros j Hj. by left.
      * left. apply publish_wo. right. by right.
    + intros s Hn [[pt ld] Hw] j Hj. apply publish_wo in Hw as [(-> & _)|[(-> & _)|[? Hw]]]; [|by left|congruence].
      right. by exists sid.
    + intros d l Hl2. exists l. split; [done|]. split; [lia|]. intros i s _ Hx. by left.
  - pose proof (the_tinv cfg heap w ps t o _ Hinv Hps) as (Hleg & _). destruct publish_dir as [Hle Hdir]. split; [done|].
    split; [|by split]. split; [done|]. split; [apply publish_wo; right; by left|]. split; [apply publish_wo; by left|].
    intros j Hj. destruct (Hdn j Hj) as (Q1 & _ & Q2 & _). split; [done|]. exists pat, (local + 1).
    split; [apply publish_wo; right; by left|done].
Qed.
End publish.

(** *** A segment that no other thread knows *)

Lemma foldr_insert {V} (r : Z) (v : V) (m : gmap (Z * Z) V) js x :
  foldr (λ j, <[(r, j) := v]>) m js !! x = if decide (x.1 = r ∧ x.2 ∈ js) then Some v else m !! x.
Proof.
  destruct x as [s j]. induction js as [|j' js IH]; simpl in *; [rewrite decide_False; [done|set_solver]|].
  destruct (decide ((s, j) = (r, j'))) as [[= -> ->]|Hne].
  - rewrite lookup_insert_eq, decide_True; [done|set_solver].
  - rewrite lookup_insert_ne, IH by done. apply decide_ext. set_solver.
Qed.

Lemma foldr_seqZ {V} (r n : Z) (v : V) (m : gmap (Z * Z) V) x :
  foldr (λ j, <[(r, j) := v]>) m (seqZ 0 n) !! x = if decide (x.1 = r ∧ 0 ≤ x.2 < n) then Some v else m !! x.
Proof. rewrite foldr_insert. apply decide_ext. rewrite elem_of_seqZ. by rewrite Z.add_0_l. Qed.

Lemma new_bucket_lens : lenZ (bk_tags (HashBucket_new cfg)) = ns ∧ lenZ (bk_kvs (HashBucket_new cfg)) = ns.
Proof. pose proof (cfg_slots cfg Hcfg). unfold lenZ. simpl. rewrite !length_replicate. lia. Qed.

Section fresh.
Variable t : Z.
Variable o : table_op K.
Variable local sid : Z.
Abbreviation k0 := (op_key o).
Abbreviation rgt := (ct_nsegs (wc w)).
Hypothesis Hps : ps !! t = Some (o, SNew local sid sid).
Abbreviation js := (seqZ 0 nb).
Abbreviation w' := (with_table fresh_table).
Abbreviation q' := (SBucket local sid sid rgt 0).

Lemma fresh_none j : buckets w !! (rgt, j) = None ∧ locks w !! (rgt, j) = None ∧ (∀ i, (rgt, j, i) ∉ wu w) ∧ wo w !! rgt = None.
Proof.
  pose proof Hgl as Hgl'. assert (∀ j, buckets w !! (rgt, j) = None) as Hb.
  { intros j'. destruct (buckets w !! (rgt, j')) as [b|] eqn:E; [|done]. pose proof (gl_bucket _ _ _ _ Hgl' _ _ _ E). lia. }
  split; [apply Hb|]. split.
  { destruct (locks w !! (rgt, j)) as [l|] eqn:E; [|done]. pose proof (gl_locks _ _ _ _ Hgl' _ _ _ E). lia. }
  split.
  - intros i Hi. destruct (gl_used _ _ _ _ Hgl' _ _ _ Hi) as (b & E & _). rewrite Hb in E. done.
  - destruct (wo w !! rgt) as [[pt ld]|] eqn:E; [|done]. destruct (gl_seg _ _ _ _ Hgl' _ _ _ E) as (_ & _ & Hx).
    pose proof (proj2 Hcfg). destruct (Hx 0 ltac:(lia)) as (_ & b & Eb & _). rewrite Hb in Eb. done.
Qed.

Lemma fresh_bucket x (b : HashBucket) : buckets w' !! x = Some b ↔ buckets w !! x = Some b ∨ x.1 = rgt ∧ 0 ≤ x.2 < nb ∧ b = HashBucket_new cfg.
Proof.
  simpl. rewrite foldr_seqZ. destruct x as [s j]. simpl. case_decide as Hd.
  - destruct Hd as [-> Hj]. destruct (fresh_none j) as (-> & _). naive_solver lia.
  - split; [by left|]. intros [?|(? & ? & _)]; [done|]. by destruct Hd.
Qed.
Lemma fresh_lock x (l : ver_lock) : locks w' !! x = Some l ↔ locks w !! x = Some l ∨ x.1 = rgt ∧ 0 ≤ x.2 < nb ∧ l = ver_new.
Proof.
  simpl. rewrite foldr_seqZ. destruct x as [s j]. simpl. case_decide as Hd.
  - destruct Hd as [-> Hj]. destruct (fresh_none j) as (_ & -> & _). naive_solver lia.
  - split; [by left|]. intros [?|(? & ? & _)]; [done|]. by destruct Hd.
Qed.
Lemma fresh_full s j i k p : full heap w' s j i k p ↔ full heap w s j i k p.
Proof.
  split; intros (Hu & b & r & Hb & Hr).
  - apply fresh_bucket in Hb as [Hb|(E & _)]; [split; [done|by exists b, r]|]. simpl in E. subst s. by destruct (fresh_none j) as (_ & _ & Hn & _); destruct (Hn i).
  - split; [done|]. exists b, r. split; [by apply fresh_bucket; left|done].
Qed.
Lemma fresh_fullk s j i k : fullk w' s j i k ↔ fullk w s j i k.
Proof. unfold ConcInv.fullk. split; intros [p Hp]; exists p; by apply fresh_full. Qed.

Lemma fresh_guar A (D : Prop) : guar A D w w'.
Proof.
  pose proof (guar_refl cfg heap A D w) as [g1 g2 g3 g4 g5 g6 g7 g8 g9 g10 g11]. constructor; try done.
  - intros x l Hl. exists l. split; [by apply fresh_lock; left|]. split; [lia|]. congruence.
  - intros x b _ Hb. exists b. split; [by apply fresh_bucket; left|done].
  - intros s j i k _ _. by rewrite fresh_fullk.
  - simpl. lia.
Qed.

Lemma fresh_owning t' x : owning cfg (<[t := (o, q')]> ps) t' x ↔ owning cfg ps t' x ∨ t' = t ∧ x.1 = rgt ∧ 0 ≤ x.2 < nb.
Proof.
  unfold owning. rewrite at_pc_insert. destruct (decide (t' = t)) as [->|Hne]; [|tauto]. rewrite (at_pc_here ps t o _ _ Hps).
  unfold owns. simpl. split.
  - intros [[_ [Hh|(s & [= <- E] & Hj)]]|[? _]]; [left; by left|by right|done].
  - intros [[Hh|(s & E & _)]|(_ & E & Hj)]; [left; split; [done|by left]|done|]. left. split; [done|]. right. exists sid. by rewrite E.
Qed.
Lemma fresh_unowned t' x : x.1 = rgt → ¬ owning cfg ps t' x.
Proof.
  intros Hx (o' & q2 & Hq & [Hh|(s & Hb & _)]).
  - destruct (gl_held _ _ _ _ Hgl t' x) as (l & Hl & _); [by exists o', q2|]. destruct x as [s j]. simpl in Hx. subst s.
    destruct (fresh_none j) as (_ & E & _). congruence.
  - destruct (build_new cfg heap w ps Hinv t' s x.1) as [_ ?]; [by exists o', q2|lia].
Qed.

Lemma fresh_glob : glob w' (<[t := (o, q')]> ps).
Proof.
  pose proof Hgl as Hgl'.
  assert (∀ t', dir_holder (<[t := (o, q')]> ps) t' ↔ dir_holder ps t') as Hdir.
  { intros t'. unfold dir_holder. rewrite at_pc_insert. destruct (decide (t' = t)) as [->|Hn]; [|tauto].
    rewrite (at_pc_here ps t o _ _ Hps). simpl. tauto. }
  assert (∀ t' x, holding cfg (<[t := (o, q')]> ps) t' x ↔ holding cfg ps t' x) as Hhold.
  { intros t' x. unfold holding. rewrite at_pc_insert. destruct (decide (t' = t)) as [->|Hn]; [|tauto].
    rewrite (at_pc_here ps t o _ _ Hps). simpl. tauto. }
  assert (∀ t' s r, building ps t' s r → building (<[t := (o, q')]> ps) t' s r) as Hbld.
  { intros t' s r Hb. unfold building. rewrite at_pc_insert. destruct (decide (t' = t)) as [->|Hn]; [|by right].
    by apply (at_pc_here ps t o _ _ Hps) in Hb. }
  pose proof Hgl' as [h1 h2 h3 h4 h5 h6 h7 h8 hl h9 h10 h11 h12 h13 h14 h15 h16 h17]. constructor; try done.
  - intros t' x Hx%Hhold. destruct (h1 t' x Hx) as (l & Hl & ?). exists l. split; [by apply fresh_lock; left|done].
  - intros t1 t2 x [Q1|(-> & E1 & _)]%fresh_owning [Q2|(-> & E2 & _)]%fresh_owning; [by apply (h2 t1 t2 x)| | |done].
    + by destruct (fresh_unowned t1 x).
    + by destruct (fresh_unowned t2 x).
  - intros t' Hx%Hdir. by apply (h3 t').
  - intros t1 t2 Q1%Hdir Q2%Hdir. by apply h4.
  - intros s pt ld Hw. destruct (h6 s pt ld Hw) as (E1 & E2 & Hx). split; [done|]. split; [done|]. intros j Hj.
    destruct (Hx j Hj) as ([l Hl] & b & Hb & Hr). split; [exists l; by apply fresh_lock; left|]. exists b. split; [by apply fresh_bucket; left|done].
  - intros s j b Hb. apply fresh_bucket in Hb as [Hb|(E & _ & ->)].
    + destruct (h8 s j b Hb) as [? ?]. split; [simpl; lia|done].
    + simpl in E. subst s. destruct new_bucket_lens as [L1 L2]. split; [simpl; lia|]. split; [done|]. split; [done|].
      pose proof (cfg_slots cfg Hcfg). split; [split; [done|apply Z.pow_pos_nonneg; lia]|]. intros i. simpl. by rewrite Z.testbit_0_l.
  - intros s j l Hl. apply fresh_lock in Hl as [Hl|(E & _)]; [pose proof (hl s j l Hl)|]; simpl in *; lia.
  - intros s j i Hu. destruct (h9 s j i Hu) as (b & Hb & Hi & Hs). exists b. split; [by apply fresh_bucket; left|]. split; [done|].
    destruct Hs as [?|[k Hk]]; [by left|right]. exists k. by apply fresh_fullk.
  - intros s j i k p Hf%fresh_full. destruct (h10 s j i k p Hf) as (E1 & E2 & Hhm). split; [done|]. split; [done|].
    destruct Hhm as [?|(t' & s' & pt & ld & Hb & Hr)]; [by left|right]. exists t', s', pt, ld. split; [by apply Hbld|done].
  - intros s s' j j' i i' k Q1%fresh_fullk Q2%fresh_fullk. by apply (h11 s s' j j' i i' k).
  - intros k p Hk. destruct (h12 k p Hk) as (s & i & Hf). exists s, i. by apply fresh_full.
  - intros s j Hd Hj Hn. apply (st_settled cfg heap w w' (λ _, False) False (fresh_guar _ _) s j); [by intros []|done|].
    apply (h13 s j Hd Hj). intros t' Hx. apply (Hn t'). apply fresh_owning. by left.
  - intros x [b Hb]. apply fresh_bucket in Hb as [Hb|(E & Hj & _)].
    + destruct (h15 x) as [l Hl]; [by eexists|]. exists l. apply fresh_lock. by left.
    + exists ver_new. apply fresh_lock. by right.
  - intros x l Hl Hk. apply fresh_lock in Hl as [Hl|(_ & _ & ->)]; [|by rewrite ver_new_free in Hk].
    destruct (h16 x l Hl Hk) as [t' Ht']. exists t'. by apply Hhold.
  - intros Hk. destruct (h17 Hk) as [t' Ht']. exists t'. by apply Hdir.
Qed.

Lemma fresh_step : inv w' (<[t := (o, q')]> ps).
Proof.
  apply (inv_step cfg Hcfg heap w ps t o _ Hinv Hps); [apply fresh_guar|apply fresh_glob|].
  pose proof (the_tinv cfg heap w ps t o _ Hinv Hps) as (Hleg & _ & Hl & Hw & Hst). pose proof (proj2 Hcfg) as Hnb. split; [done|].
  assert (∀ j, 0 ≤ j < nb → split_todo heap w' local sid rgt j) as Htodo.
  { intros j Hj. destruct (Hst j Hj) as (Q1 & pt & ld & Hw' & Q2). assert (ld = local) as -> by congruence. split.
    { apply (st_bits_but cfg heap w w' (λ _, False) False (fresh_guar _ _)); [intros []|exact Q1]. }
    split; [apply (st_bhead cfg heap w w' (λ _, False) False (fresh_guar _ _)); [by intros []|done]|].
    split; [eexists; apply fresh_bucket; by right|]. intros i. by apply (fresh_none j). }
  split; [|split; [lia|split; [split; intros j Hj; [lia|apply Htodo; lia]|intros _; apply Htodo; lia]]].
  split; [done|]. split; [done|]. split; [done|]. split; [apply (fresh_none 0)|]. simpl. lia.
Qed.
End fresh.
End writes.
