(* ===== verification/ConcSteps.v ===== *)
(** * Steps of the concurrent hash table that write *)

From S2P Require Export ConcRead ConcWrite ConcDir.

Section steps.
Context `{UtilSpec} `{DenseSpec} `{SimdSpec} `{VerLockSpec} {K : Type} `{Countable K} `{HashFnSpec K}.
Variable cfg : HashConfig.
Hypothesis Hcfg : wf_config cfg.
Variable heap : gmap Z (KVPair K).
Abbreviation nb := (kNBucketInSegment cfg).
Abbreviation ns := (kNSlotInBucket cfg).
Abbreviation bidx k := (bucket_index (hash_fn k) nb).
Abbreviation buckets w := (ct_buckets (wc w)).
Abbreviation locks w := (ct_locks (wc w)).
Abbreviation arrays w := (ct_arrays (wc w)).
Abbreviation fullk := (fullk heap).
Abbreviation settled := (settled heap).
Abbreviation inv := (inv cfg heap).
Abbreviation glob := (glob cfg heap).
Abbreviation tinv := (tinv cfg heap).
Abbreviation good := (good cfg heap).
Abbreviation step := (thread_step cfg heap).
Variable w : world K.
Variable ps : gmap Z (table_op K * pc).
Variable t : Z.
Hypothesis Hinv : inv w ps.
Abbreviation Hgl := (the_glob cfg heap w ps Hinv).
Implicit Types (o : table_op K) (s j i d g v sid : Z) (q : pc) (md : mode) (k : K) (x : Z * Z) (b : HashBucket).

Ltac start := intros Hps; pose proof (the_tinv cfg heap w ps t _ _ Hinv Hps) as Ht.

(** A step without effect on the map. *)
Lemma good_same o q q' (w' : world K) c' :
  wc w' = c' → wm w' = wm w → decided q' = decided q → inv w' (<[t := (o, q')]> ps) → good w ps t o q (Next c' q').
Proof.
  intros Hc Hm Hd Hi. exists w'. split; [done|]. split; [done|]. unfold effect. rewrite Hd, Hm. destruct (decided q); [done|by left].
Qed.

Lemma held_lock o q x : ps !! t = Some (o, q) → holds cfg (op_key o) q x → ∃ l, locks w !! x = Some l ∧ ver_locked l = true.
Proof. intros Hps Hh. apply (gl_held _ _ _ _ Hgl t x). by exists o, q. Qed.

(** ** Locks *)

Lemma ok_lock o vd d g sid : ps !! t = Some (o, PLock vd d g sid) →
  good w ps t o (PLock vd d g sid) (step o (wc w) (PLock vd d g sid)).
Proof.
  start. destruct Ht as (Hleg & Hu & Hs & Hd). unfold thread_step, lock_bucket, on_lock. pose proof (bidx_ok cfg Hcfg (op_key o)) as Hj.
  destruct (the_lock cfg heap w ps Hinv sid _ Hs Hj) as [l Hl]. rewrite Hl. simpl. destruct (ver_locked l) eqn:Ef; [done|].
  apply (good_same o _ _ (with_lock w (sid, bidx (op_key o)) (ver_acquire l))); [done..|].
  apply (acquire_step cfg Hcfg heap w ps Hinv t o (PLock vd d g sid)); try done.
  - intros y. simpl. tauto.
  - split; [done|]. split; [done|]. split; [|done]. by apply (free_settled cfg heap w ps Hinv sid _ l).
Qed.

Lemma ok_slock o d g local sid j : j < nb → ps !! t = Some (o, SLock d g local sid j) →
  good w ps t o (SLock d g local sid j) (step o (wc w) (SLock d g local sid j)).
Proof.
  intros Hj. start. destruct Ht as (Hleg & He & Hu & Hge & Hr & Hst). unfold thread_step. rewrite (proj2 (Z.ltb_lt j nb)) by done.
  pose proof Hge as (pat & ld & Hw & _). assert (sid ∈ dom (wo w)) as Hs by (apply elem_of_dom; by eexists).
  unfold lock_bucket, on_lock. destruct (the_lock cfg heap w ps Hinv sid j Hs ltac:(lia)) as [l Hl]. rewrite Hl. simpl.
  destruct (ver_locked l) eqn:Ef; [done|].
  apply (good_same o _ _ (with_lock w (sid, j) (ver_acquire l))); [done..|].
  apply (acquire_step cfg Hcfg heap w ps Hinv t o (SLock d g local sid j)); try done.
  - intros [s j']. simpl. split.
    + intros [-> ?]. destruct (decide (j' = j)) as [->|]; [by right|left; split; [done|lia]].
    + intros [[-> ?]|[= -> ->]]; (split; [done|lia]).
  - split; [done|]. split; [done|]. split; [done|]. split; [done|]. split; [lia|]. intros j' Hj'.
    destruct (decide (j' = j)) as [->|]; [|apply Hst; lia]. apply (free_settled cfg heap w ps Hinv sid j l); [done|lia|done|done].
Qed.

Lemma ok_unlock o sid r : ps !! t = Some (o, PUnlock sid r) → good w ps t o (PUnlock sid r) (step o (wc w) (PUnlock sid r)).
Proof.
  start. destruct Ht as (Hleg & Hst). unfold thread_step, unlock_bucket, on_lock.
  destruct (held_lock o _ (sid, bidx (op_key o)) Hps eq_refl) as (l & Hl & _). rewrite Hl. simpl.
  apply (good_same o _ _ (with_lock w (sid, bidx (op_key o)) (ver_release l))); [done|done|by destruct r|].
  apply (release_step cfg Hcfg heap w ps Hinv t o (PUnlock sid r)); try done; destruct r; try done; try (intros y; simpl; tauto).
Qed.

Lemma ok_full_unlock o d g sid local : ps !! t = Some (o, PFullUnlock d g sid local) →
  good w ps t o (PFullUnlock d g sid local) (step o (wc w) (PFullUnlock d g sid local)).
Proof.
  start. destruct Ht as (Hleg & Hst & He). unfold thread_step, unlock_bucket, on_lock.
  destruct (held_lock o _ (sid, bidx (op_key o)) Hps eq_refl) as (l & Hl & _). rewrite Hl. simpl.
  apply (good_same o _ _ (with_lock w (sid, bidx (op_key o)) (ver_release l))); [done..|].
  apply (release_step cfg Hcfg heap w ps Hinv t o (PFullUnlock d g sid local)); try done. intros y. simpl. tauto.
Qed.

Lemma ok_seg_unlock o sid j : j < nb → ps !! t = Some (o, SSegUnlock sid j) →
  good w ps t o (SSegUnlock sid j) (step o (wc w) (SSegUnlock sid j)).
Proof.
  intros Hj. start. destruct Ht as (Hleg & Hj0 & Hst). unfold thread_step, unlock_bucket, on_lock. rewrite (proj2 (Z.ltb_lt j nb)) by done.
  destruct (held_lock o _ (sid, j) Hps) as (l & Hl & _); [simpl; split; [done|lia]|]. rewrite Hl. simpl.
  apply (good_same o _ _ (with_lock w (sid, j) (ver_release l))); [done..|].
  apply (release_step cfg Hcfg heap w ps Hinv t o (SSegUnlock sid j)); try done.
  - apply Hst. simpl. lia.
  - intros [s j']. simpl. split.
    + intros [-> ?]. split; [split; [done|lia]|]. intros [= ->]. lia.
    + intros [[-> ?] Hne]. split; [done|]. assert (j' ≠ j) by congruence. lia.
  - split; [done|]. split; [lia|]. intros j' Hj'. apply Hst. lia.
Qed.

(** ** Slots *)

(** A full slot gets another record of its key. *)
Lemma put_settled s0 j0 i0 p0 k0 b0 r0 s j :
  buckets w !! (s0, j0) = Some b0 → 0 ≤ i0 < ns → heap !! p0 = Some r0 ∧ kv_key r0 = k0 ∧ 2 < p0 < 2 ^ 48 →
  fullk w s0 j0 i0 k0 → settled w s j →
  settled (with_buckets w (<[(s0, j0) := put_kv b0 i0 (mk_dense p0 (slot_tag (hash_fn k0)))]> (buckets w))
    (<[k0 := p0]> (wm w)) (wu w ∪ {[(s0, j0, i0)]})) s j.
Proof.
  intros Hb0 Hi0 Hr0 [p1 Hf0] [(b & Hb & h1 & h2) (pat & ld & Hw & b' & Hb' & Hd & Hx)].
  assert (b' = b) as -> by congruence.
  assert (∀ i k, fullk w s j i k ↔ fullk (with_buckets w (<[(s0, j0) := put_kv b0 i0 (mk_dense p0 (slot_tag (hash_fn k0)))]> (buckets w))
    (<[k0 := p0]> (wm w)) (wu w ∪ {[(s0, j0, i0)]})) s j i k) as Hiff.
  { intros i k. rewrite (put_fullk cfg Hcfg heap w ps Hinv s0 j0 i0 p0 k0 b0 r0 Hb0 Hi0 Hr0). case_decide as E; [|done].
    injection E as -> -> ->. split; [intros [p Hf]; by destruct (full_fun heap w _ _ _ _ _ _ _ Hf Hf0)|intros ->; by exists p1]. }
  assert (∃ b', buckets (with_buckets w (<[(s0, j0) := put_kv b0 i0 (mk_dense p0 (slot_tag (hash_fn k0)))]> (buckets w))
    (<[k0 := p0]> (wm w)) (wu w ∪ {[(s0, j0, i0)]})) !! (s, j) = Some b' ∧ same_head b b') as (b2 & Hb2 & E1 & E2 & E3 & E4).
  { simpl. destruct (decide ((s, j) = (s0, j0))) as [E|Hne].
    - rewrite E, lookup_insert_eq. eexists. split; [done|]. assert (b = b0) as -> by congruence. done.
    - rewrite lookup_insert_ne by done. by exists b. }
  split.
  - exists b2. split; [done|]. rewrite E1, E2. split.
    + intros i Hi Hn. destruct (h1 i Hi Hn) as (k & Hk & Htg). exists k. split; [by apply Hiff|done].
    + intros i k Hk. apply (h2 i k). by apply Hiff.
  - exists pat, ld. split; [done|]. exists b2. split; [done|]. split; congruence.
Qed.

(** Two records of a slot with the same key. *)
Lemma home_full s j i k p : full heap w s j i k p → j = bidx k ∧ home w ps k s.
Proof. intros Hf. by apply (gl_full _ _ _ _ Hgl) in Hf as (_ & ? & ?). Qed.

Lemma full_only s j i k : fullk w s j i k → ∀ s' j' i', fullk w s' j' i' k → (s', j', i') = (s, j, i).
Proof.
  intros Hf s' j' i' Hf'. destruct (gl_uniq _ _ _ _ Hgl _ _ _ _ _ _ _ Hf' Hf) as [-> ->]. destruct Hf as [p Hf], Hf' as [p' Hf'].
  apply home_full in Hf as [-> _]. by apply home_full in Hf' as [-> _].
Qed.

Lemma cas_new o kv : legal_table_op heap o → (o = OUpdate (op_key o) kv ∨ o = OUpsert (op_key o) kv) →
  ∃ r, heap !! kv = Some r ∧ kv_key r = op_key o ∧ 2 < kv < 2 ^ 48.
Proof. intros Hleg [E|E]; rewrite E in Hleg |- *; destruct Hleg as (? & r & ? & ?); by exists r. Qed.

Lemma ok_cas o md sid mask idx old : ps !! t = Some (o, PCas md sid mask idx old) →
  good w ps t o (PCas md sid mask idx old) (step o (wc w) (PCas md sid mask idx old)).
Proof.
  start. destruct Ht as (Hleg & Hslot & Hold). pose proof Hslot as (Hmd & Hnl & Hu & Hm & Hused & Hir & Hex). unfold thread_step.
  destruct (slot_cases cfg heap w ps Hinv _ _ idx Hused) as (bk & cur & Hb & _ & Hs & Hc). unfold on_bucket. rewrite Hb. cbn [or_fault].
  rewrite Hs. cbn [or_fault]. case_bool_decide as Ecur; [|by apply (go cfg Hcfg heap w ps t Hinv)]. subst cur.
  assert (∃ kv, (o = OUpdate (op_key o) kv ∨ o = OUpsert (op_key o) kv)) as (kv & Ho).
  { destruct o as [k|k kv|k kv]; [done|exists kv; by left|exists kv; by right]. }
  assert (∃ p r, old = mk_dense p (slot_tag (hash_fn (op_key o))) ∧ 2 < p < 2 ^ 48 ∧ heap !! p = Some r ∧ kv_key r = op_key o ∧
    is_expired heap p kv = Some false) as (p & r & Eold & Hp & Hr & Hk & Hexp).
  { destruct Ho as [E|E]; rewrite E in Hold |- *; exact Hold. }
  assert (full heap w sid (bidx (op_key o)) idx (op_key o) p) as Hf.
  { split; [done|]. exists bk, r. subst old. done. }
  pose proof (present cfg heap w ps Hinv _ _ _ _ _ Hf) as Hmap. destruct (home_full _ _ _ _ _ Hf) as [_ Hhome].
  destruct (cas_new o kv Hleg Ho) as (r' & Hr'). assert (fullk w sid (bidx (op_key o)) idx (op_key o)) as Hfk by (by exists p).
  set (w' := with_buckets w (<[(sid, bidx (op_key o)) := put_kv bk idx (mk_dense kv (slot_tag (hash_fn (op_key o))))]> (buckets w))
    (<[op_key o := kv]> (wm w)) (wu w ∪ {[(sid, bidx (op_key o), idx)]})).
  assert (inv w' (<[t := (o, finish md sid p)]> ps)) as Hinv'.
  { apply (write_step cfg Hcfg heap w ps Hinv sid (bidx (op_key o)) idx kv (op_key o) bk r' Hb Hir Hr' t o (PCas md sid mask idx old)); try done.
    - by destruct md.
    - by destruct md.
    - by destruct md.
    - by apply full_only.
    - intros k [p2 Hf2]. by destruct (full_fun heap w _ _ _ _ _ _ _ Hf2 Hf).
    - by right.
    - split; [done|]. destruct md as [v|d g]; [done|]. simpl. destruct Hu as (_ & Hst & _). by apply (put_settled _ _ _ _ _ _ r'). }
  pose proof (slot_tag_range (hash_fn (op_key o))).
  assert (good w ps t o (PCas md sid mask idx old) (Next (put_bucket (wc w) sid (bidx (op_key o))
    (put_kv bk idx (mk_dense kv (slot_tag (hash_fn (op_key o)))))) (finish md sid (dense_pointer old)))) as Hgood.
  { rewrite Eold, dense_pointer_mk by lia. rewrite <-Eold. exists w'. split; [done|]. split; [done|]. unfold effect. simpl. right. exists p.
    split; [|by destruct md]. unfold w'. cbn [wm with_buckets]. clear -Ho Hmap Hexp. destruct o as [k|k kv'|k kv']; [by destruct Ho|..];
      (assert (kv' = kv) as -> by (by destruct Ho as [[= ?]|[= ?]])); cbn in *; by rewrite Hmap, Hexp. }
  destruct Ho as [E|E]; revert Hgood; clearbody w'; clear -E; rewrite E; simpl; done.
Qed.

Lemma ok_free o d g sid : ps !! t = Some (o, PFree d g sid) → good w ps t o (PFree d g sid) (step o (wc w) (PFree d g sid)).
Proof.
  start. destruct Ht as (Hleg & Hup & Hu). pose proof (cfg_slots cfg Hcfg) as Hns.
  destruct (bucket_of cfg Hcfg heap w ps Hinv _ _ _ _ Hu) as (bk & Hb & Hix & Hbr & Ht1 & Hk1 & Hused). destruct Hu as (Hdf & Hst & Hno).
  unfold thread_step, on_bucket. rewrite Hb. cbn [or_fault]. assert (2 ^ ns ≤ 2 ^ 48) by (apply Z.pow_le_mono_r; lia).
  destruct (index_least0_spec (bk_bitmap bk)) as (Hi & Hbit & Hlow); [lia|]. set (idx := index_least0 (bk_bitmap bk)) in *.
  destruct (Z.eqb_spec idx ns) as [E|Hne]; [by apply (go cfg Hcfg heap w ps t Hinv)|].
  assert (idx < ns) as Hlt.
  { destruct (Z.lt_ge_cases ns idx) as [Hgt|]; [|lia]. specialize (Hlow ns ltac:(lia)). rewrite (testbit_above _ ns) in Hlow by lia. done. }
  destruct o as [k|k kv|k kv]; [done|done|]. cbn [op_key] in *. unfold check. rewrite (proj2 (Z.leb_le 0 idx)), (proj2 (Z.ltb_lt idx ns)) by lia.
  simpl. destruct Hleg as (Hkv & r & Hr & Hk). set (o := OUpsert k kv). fold o in Hps.
  pose proof Hst as [(bk' & Hb' & h1 & h2) (pat & ld & Hw & Hd)]. assert (bk' = bk) as -> by congruence.
  assert (∀ k', ¬ fullk w sid (bidx k) idx k') as Hempty.
  { intros k' Hf. specialize (h2 idx k' Hf (λ y, y)). congruence. }
  assert (holding cfg ps t (sid, bidx k)) as Hhold by (by exists o, (PFree d g sid)).
  assert (wm w !! k = None) as Hmap.
  { apply (absent cfg heap w ps Hinv sid k); [by eapply dir_fact_own|done|]. intros t' rgt Hbd.
    destruct (builds_holds cfg ps t' sid rgt (bidx k) Hbd (bidx_ok cfg Hcfg k)) as (o' & q' & Hq' & Hh').
    assert (t' = t) as ->.
    { apply (gl_one _ _ _ _ Hgl t' t (sid, bidx k)); [exists o', q'|exists o, (PFree d g sid)]; (split; [done|by left]). }
    by apply (at_pc_here ps t o _ _ Hps) in Hbd. }
  set (w' := with_buckets w (<[(sid, bidx k) := put_kv bk idx (mk_dense kv (slot_tag (hash_fn k)))]> (buckets w))
    (<[k := kv]> (wm w)) (wu w ∪ {[(sid, bidx k, idx)]})).
  assert (0 ≤ idx < ns) as Hir by lia.
  assert (∀ i k', fullk w' sid (bidx k) i k' ↔ if decide (i = idx) then k' = k else fullk w sid (bidx k) i k') as Hfk.
  { intros i k'. unfold w'. rewrite (put_fullk cfg Hcfg heap w ps Hinv sid (bidx k) idx kv k bk r Hb Hir (conj Hr (conj Hk Hkv))).
    rewrite (decide_ext ((sid, bidx k, i) = (sid, bidx k, idx)) (i = idx)); [done|]. split; [congruence|by intros ->]. }
  exists w'. split; [done|]. split; [|unfold effect; simpl; right; exists kNotFound; by rewrite Hmap].
  apply (write_step cfg Hcfg heap w ps Hinv sid (bidx k) idx kv k bk r Hb Hir (conj Hr (conj Hk Hkv)) t o (PFree d g sid)); try done.
  - left. by eapply dir_fact_own.
  - intros s j i [p Hf]. apply (present cfg heap w ps Hinv) in Hf. congruence.
  - intros k' Hf. by destruct (Hempty k').
  - left. by left.
  - split; [split; [done|by exists r]|]. cbn [op_key]. split; [done|]. fold w'. split; [apply Hfk; by rewrite decide_True|]. split.
    + exists (put_kv bk idx (mk_dense kv (slot_tag (hash_fn k)))). split; [unfold w'; simpl; by rewrite lookup_insert_eq|].
      split.
      * intros i Hi2 Hn. destruct (h1 i Hi2 (λ y, y)) as (k' & Hk' & Htg). exists k'. split; [|done]. apply Hfk. by rewrite decide_False by congruence.
      * intros i k' Hf Hn. apply Hfk in Hf. rewrite decide_False in Hf by congruence. exact (h2 i k' Hf (λ y, y)).
    + exists pat, ld. split; [done|]. destruct Hd as (b2 & Hb2 & Hd2 & Hx2). assert (b2 = bk) as -> by congruence.
      exists (put_kv bk idx (mk_dense kv (slot_tag (hash_fn k)))). split; [unfold w'; simpl; by rewrite lookup_insert_eq|done].
Qed.

(** *** The tag and the bit of a new record *)

Lemma inserting_bucket k sid idx : inserting cfg heap w k sid idx → ∃ bk, buckets w !! (sid, bidx k) = Some bk ∧ bk_index bk = bidx k ∧
  fine cfg w (wu w) (sid, bidx k) bk ∧ (sid, bidx k, idx) ∈ wu w ∧ ∃ pat ld, wo w !! sid = Some (pat, ld) ∧ bk_depth bk = ld.
Proof.
  intros (_ & [p [Hu _]] & _ & pat & ld & Hw & bk & Hb & Hd & Hx). exists bk. split; [done|]. split; [done|].
  split; [by apply (the_fine cfg heap w ps Hinv)|]. split; [done|]. by exists pat, ld.
Qed.

Lemma ok_tag o sid idx : ps !! t = Some (o, PTag sid idx) → good w ps t o (PTag sid idx) (step o (wc w) (PTag sid idx)).
Proof.
  start. destruct Ht as (Hleg & Hins). destruct (inserting_bucket _ _ _ Hins) as (bk & Hb & Hx & Hfi & Hus & pat & ld & Hw & Hd).
  destruct Hins as (Hir & Hf & (b2 & Hb2 & h1 & h2) & _). assert (b2 = bk) as -> by congruence. unfold thread_step, on_bucket. rewrite Hb. simpl.
  set (k := op_key o) in *. set (bk' := set_bk_tags (updZ (bk_tags bk) idx (bucket_tag (hash_fn k))) bk).
  pose proof Hfi as (f1 & f2 & f3 & f4 & f5).
  assert (quiet cfg w (owns cfg k (PTag sid idx)) (<[(sid, bidx k) := bk']> (buckets w))) as Hq.
  { apply (quiet_one cfg heap w ps Hinv _ _ bk); [done|by left|]. split; [|done]. split; [unfold bk'; simpl; by rewrite lenZ_updZ|done]. }
  pose proof (λ s j i k, quiet_fullk cfg heap w _ _ s j i k Hq) as Hfk.
  apply (good_same o _ _ (with_buckets w (<[(sid, bidx k) := bk']> (buckets w)) (wm w) (wu w))); [done..|].
  apply (quiet_step cfg Hcfg heap w ps Hinv t o (PTag sid idx)); try done. split; [done|]. fold k.
  assert (buckets (with_buckets w (<[(sid, bidx k) := bk']> (buckets w)) (wm w) (wu w)) !! (sid, bidx k) = Some bk') as Hb'.
  { simpl. by rewrite lookup_insert_eq. }
  split; [|exists bk'; split; [done|unfold bk'; simpl; by rewrite nthZ_updZ_eq by lia]].
  split; [done|]. split; [by apply Hfk|]. split; [|exists pat, ld; split; [done|by exists bk']].
  exists bk'. split; [done|]. split.
  - intros i Hi Hn. destruct (h1 i Hi Hn) as (k' & Hk' & Htg). exists k'. split; [by apply Hfk|]. unfold bk'. simpl. by rewrite nthZ_updZ_ne.
  - intros i k' Hk'%Hfk. by apply (h2 i k').
Qed.

Lemma set_bit_small (x i n : Z) : 0 ≤ i < n → 0 ≤ x < 2 ^ n → 0 ≤ set_bit x i < 2 ^ n.
Proof.
  intros Hi Hx. assert (0 ≤ set_bit x i) as Hpos.
  { unfold set_bit, bit. apply Z.lor_nonneg. split; [lia|]. apply Z.shiftl_nonneg. lia. }
  split; [done|]. apply word_bound; [lia|done|]. intros j Hj. rewrite set_bit_testbit by lia. rewrite (testbit_above x n) by lia.
  rewrite bool_decide_false by lia. done.
Qed.
Lemma wrap48 (x : Z) : 0 ≤ x < 2 ^ ns → wrap 48 x = x.
Proof.
  intros Hx. pose proof (cfg_slots cfg Hcfg). assert (2 ^ ns ≤ 2 ^ 48) by (apply Z.pow_le_mono_r; lia). apply Z.mod_small. lia.
Qed.

Lemma ok_bit o sid idx : ps !! t = Some (o, PBit sid idx) → good w ps t o (PBit sid idx) (step o (wc w) (PBit sid idx)).
Proof.
  start. destruct Ht as (Hleg & Hins & b3 & Hb3 & Htag). destruct (inserting_bucket _ _ _ Hins) as (bk & Hb & Hx & Hfi & Hus & pat & ld & Hw & Hd).
  destruct Hins as (Hir & Hf & (b2 & Hb2 & h1 & h2) & _). assert (b2 = bk) as -> by congruence. assert (b3 = bk) as -> by congruence.
  unfold thread_step, on_bucket. rewrite Hb. simpl. pose proof Hfi as (f1 & f2 & f3 & f4 & f5). pose proof (set_bit_small _ idx ns Hir f3) as Hsb.
  rewrite wrap48 by done. set (k := op_key o) in *. set (bk' := set_bk_bitmap (set_bit (bk_bitmap bk) idx) bk).
  assert (∀ i, Z.testbit (bk_bitmap bk') i = Z.testbit (bk_bitmap bk) i || bool_decide (idx = i)) as Hbits.
  { intros i. unfold bk'. simpl. apply set_bit_testbit. lia. }
  assert (quiet cfg w (owns cfg k (PBit sid idx)) (<[(sid, bidx k) := bk']> (buckets w))) as Hq.
  { apply (quiet_one cfg heap w ps Hinv _ _ bk); [done|by left|]. split; [|done]. do 3 (split; [done|]). split; [|done].
    intros i. rewrite Hbits. intros [?|<-%bool_decide_eq_true]%orb_prop; [by apply f4|done]. }
  pose proof (λ s j i k, quiet_fullk cfg heap w _ _ s j i k Hq) as Hfk.
  apply (good_same o _ _ (with_buckets w (<[(sid, bidx k) := bk']> (buckets w)) (wm w) (wu w))); [done..|].
  apply (quiet_step cfg Hcfg heap w ps Hinv t o (PBit sid idx)); try done. split; [done|]. fold k.
  assert (buckets (with_buckets w (<[(sid, bidx k) := bk']> (buckets w)) (wm w) (wu w)) !! (sid, bidx k) = Some bk') as Hb'.
  { simpl. by rewrite lookup_insert_eq. }
  split; [|exists pat, ld; split; [done|by exists bk']]. exists bk'. split; [done|]. split.
  - intros i Hi _. destruct (decide (idx = i)) as [<-|Hne].
    + exists k. split; [by apply Hfk|done].
    + rewrite Hbits, bool_decide_false, orb_false_r in Hi by done. destruct (h1 i Hi Hne) as (k' & Hk' & Htg). exists k'. split; [by apply Hfk|done].
  - intros i k' Hk'%Hfk _. rewrite Hbits. case_bool_decide as Hi; [by rewrite orb_true_r|]. by rewrite (h2 i k' Hk' Hi).
Qed.
End steps.
