(* ===== verification/ConcSplit.v ===== *)
(** * Steps of a split of the concurrent hash table *)

From S2P Require Export ConcSteps.

Section steps.
Context `{UtilSpec} `{DenseSpec} `{SimdSpec} `{VerLockSpec} {K : Type} `{Countable K} `{HashFnSpec K}.
Variable cfg : HashConfig.
Hypothesis Hcfg : wf_config cfg.
Variable heap : gmap Z (KVPair K).
Abbreviation nb := (kNBucketInSegment cfg).
Abbreviation ns := (kNSlotInBucket cfg).
Abbreviation bidx k := (bucket_index (hash_fn k) nb).
Abbreviation buckets w := (ct_buckets (wc w)).
Abbreviation locks w := (ct_locks (wc w)).
Abbreviation arrays w := (ct_arrays (wc w)).
Abbreviation fullk := (fullk heap).
Abbreviation settled := (settled heap).
Abbreviation inv := (inv cfg heap).
Abbreviation glob := (glob cfg heap).
Abbreviation tinv := (tinv cfg heap).
Abbreviation good := (good cfg heap).
Abbreviation step := (thread_step cfg heap).
Variable w : world K.
Variable ps : gmap Z (table_op K * pc).
Variable t : Z.
Hypothesis Hinv : inv w ps.
Abbreviation Hgl := (the_glob cfg heap w ps Hinv).
Abbreviation same := (good_same cfg heap w ps t).
Implicit Types (o : table_op K) (s j i d g v sid : Z) (q : pc) (md : mode) (k : K) (x : Z * Z) (b : HashBucket).

Ltac start := intros Hps; pose proof (the_tinv cfg heap w ps t _ _ Hinv Hps) as Ht.


Lemma building_self o q sid rgt : ps !! t = Some (o, q) → builds q = Some (sid, rgt) → building ps t sid rgt.
Proof. intros Hps Hb. by exists o, q. Qed.

(** What the changes of the buckets number [j] of the two halves keep. *)
Section keep.
Variable w' : world K.
Variable local sid rgt j : Z.
Hypothesis Hg : guar cfg heap (λ x, x = (sid, j) ∨ x = (rgt, j)) False w w'.

Lemma keep_other s j' : j' ≠ j → ¬ ((s, j') = (sid, j) ∨ (s, j') = (rgt, j)).
Proof. intros Hne [[= _ ?]|[= _ ?]]; done. Qed.

Lemma keep_rest : split_rest cfg heap w local sid rgt j → split_rest cfg heap w' local sid rgt j.
Proof.
  intros [h1 h2]. split; intros j' Hj'.
  - apply (st_split_done cfg heap w w' _ False Hg); [apply keep_other; lia..|by apply h1].
  - apply (st_split_todo cfg heap w w' _ False Hg); [apply keep_other; lia..|by apply h2].
Qed.

Lemma keep_next : split_rest cfg heap w local sid rgt j → 0 ≤ j → split_done heap w' local sid rgt j →
  split_rest cfg heap w' local sid rgt (j + 1) ∧ (j + 1 < nb → split_todo heap w' local sid rgt (j + 1)).
Proof.
  intros [h1 h2]%keep_rest Hj Hd. split; [split|].
  - intros j' Hj'. destruct (decide (j' = j)) as [->|]; [done|apply h1; lia].
  - intros j' Hj'. apply h2. lia.
  - intros Hlt. apply h2. lia.
Qed.
End keep.

(** ** The new segment *)

Lemma ok_new o local sid lft : ps !! t = Some (o, SNew local sid lft) →
  good w ps t o (SNew local sid lft) (step o (wc w) (SNew local sid lft)).
Proof.
  start. pose proof Ht as (Hleg & -> & _). unfold thread_step.
  apply (same o _ _ (with_table w (fresh_table cfg w))); [done..|]. by apply (fresh_step cfg Hcfg heap w ps Hinv).
Qed.

Lemma ok_bucket o local sid lft rgt j : j < nb → ps !! t = Some (o, SBucket local sid lft rgt j) →
  good w ps t o (SBucket local sid lft rgt j) (step o (wc w) (SBucket local sid lft rgt j)).
Proof.
  intros Hj. start. destruct Ht as (Hleg & Hsp & Hj0 & Hrest & Htodo). pose proof Hsp as (-> & Hl & Hw & Hwr & _).
  destruct (Htodo Hj) as (Hbits & (bk & Hb & Hd & Hx) & [br Hbr] & Hun). unfold thread_step. rewrite (proj2 (Z.ltb_lt j nb)) by done.
  unfold on_lock, on_bucket. destruct (held_lock cfg heap w ps t Hinv o _ (sid, j) Hps) as (l & Hll & Hlk); [simpl; split; [done|lia]|].
  rewrite Hll. simpl. unfold check. rewrite Hlk, Hb. simpl.
  match goal with |- context [put_bucket _ rgt j ?b] => set (bn := b) end.
  destruct (the_fine cfg heap w ps Hinv _ _ Hb) as (f1 & _ & f3 & _). destruct (new_bucket_lens cfg Hcfg) as [_ L2].
  assert (∀ A : Z * Z → Prop, A (rgt, j) → quiet cfg w A (<[(rgt, j) := bn]> (buckets w))) as Hq.
  { intros A HA. apply (quiet_one cfg heap w ps Hinv _ _ br); [done|done|]. split; [|split].
    - split; [done|]. split; [exact L2|]. split; [unfold bn; cbn [bk_bitmap set_bk_tags]; lia|]. split; [intros i; simpl; by rewrite Z.testbit_0_l|].
      simpl. intros pat ld E. congruence.
    - intros [v Hv]%elem_of_dom. simpl in Hv. congruence.
    - intros i Hi. by destruct (Hun i). }
  set (w' := with_buckets w (<[(rgt, j) := bn]> (buckets w)) (wm w) (wu w)).
  pose proof (quiet_guar cfg heap w (λ x, x = (rgt, j)) False _ (Hq _ eq_refl)) as Hg.
  assert ((sid, j) ≠ (rgt, j)) as Hne by congruence.
  apply (same o _ _ w'); [done..|].
  apply (quiet_step cfg Hcfg heap w ps Hinv t o (SBucket local sid sid rgt j)); [done..|apply Hq; right; exists sid; split; [done|simpl; lia]|].
  split; [done|]. split; [done|]. split; [lia|]. split; [|split; [|pose proof (cfg_slots cfg Hcfg); lia]].
  - apply (keep_rest w'); [|done]. apply (quiet_guar cfg heap w), Hq. by right.
  - split; [by apply (st_bits_but cfg heap w w' _ False Hg)|]. split; [apply (st_bhead cfg heap w w' _ False Hg); [done|by exists bk]|].
    split; [exists bn; split; [unfold w'; simpl; by rewrite lookup_insert_eq|done]|]. split; [done|].
    exists bk, bn. unfold w'. simpl. rewrite lookup_insert_ne, lookup_insert_eq by done. done.
Qed.

Lemma ok_copy o local sid lft rgt j i : i < ns → ps !! t = Some (o, SCopy local sid lft rgt j i) →
  good w ps t o (SCopy local sid lft rgt j i) (step o (wc w) (SCopy local sid lft rgt j i)).
Proof.
  intros Hi. start. destruct Ht as (Hleg & Hsp & Hj0 & Hrest & Hc & Hi0). pose proof Hsp as (-> & Hl & Hw & Hwr & _).
  destruct Hc as (Hbits & Hd & (b2 & Hb2 & Hd' & Hx') & Hun & bk & bk' & Hb & Hb' & Et & Em). assert (b2 = bk') as -> by congruence.
  unfold thread_step, on_bucket. rewrite Hb. simpl. rewrite (proj2 (Z.ltb_lt i ns)) by done.
  destruct (the_fine cfg heap w ps Hinv _ _ Hb) as (_ & Hlen & _). destruct (nthZ_is_Some (bk_kvs bk) i) as [kv Hkv]; [lia|]. rewrite Hkv. simpl.
  rewrite Hb'. simpl. assert ((sid, j) ≠ (rgt, j)) as Hne by congruence.
  assert (∀ A : Z * Z → Prop, A (rgt, j) → quiet cfg w A (<[(rgt, j) := put_kv bk' i kv]> (buckets w))) as Hq.
  { intros A HA. apply (quiet_one cfg heap w ps Hinv _ _ bk'); [done|done|]. split; [|split].
    - apply put_kv_fine. by apply (the_fine cfg heap w ps Hinv).
    - done.
    - intros i' Hi'. by destruct (Hun i'). }
  set (w' := with_buckets w (<[(rgt, j) := put_kv bk' i kv]> (buckets w)) (wm w) (wu w)).
  pose proof (quiet_guar cfg heap w (λ x, x = (rgt, j)) False _ (Hq _ eq_refl)) as Hg.
  apply (same o _ _ w'); [done..|].
  apply (quiet_step cfg Hcfg heap w ps Hinv t o (SCopy local sid sid rgt j i)); [done..|apply Hq; right; exists sid; split; [done|simpl; lia]|].
  split; [done|]. split; [done|]. split; [done|]. split; [|split; [|lia]].
  - apply (keep_rest w'); [|done]. apply (quiet_guar cfg heap w), Hq. by right.
  - split; [by apply (st_bits_but cfg heap w w' _ False Hg)|]. split; [by apply (st_bhead cfg heap w w' _ False Hg)|].
    split; [exists (put_kv bk' i kv); split; [unfold w'; simpl; by rewrite lookup_insert_eq|done]|]. split; [done|].
    exists bk, (put_kv bk' i kv). unfold w'. simpl. rewrite lookup_insert_ne, lookup_insert_eq by done. done.
Qed.

(** ** Moving the records *)

(** The slots [cand0], and [idx], have been moved. *)
Lemma moving_step local sid rgt j mask cand0 idx k' p' bk bk' :
  sid ≠ rgt → 0 ≤ idx < ns → Z.testbit mask idx = true → Z.testbit (hash_fn k') local = true →
  buckets w !! (sid, j) = Some bk → buckets w !! (rgt, j) = Some bk' → full heap w sid j idx k' p' → (∀ k, ¬ fullk w rgt j idx k) →
  moving cfg heap w local sid rgt j mask cand0 →
  moving cfg heap (with_buckets w (<[(rgt, j) := put_kv bk' idx (mk_dense p' (slot_tag (hash_fn k')))]>
    (<[(sid, j) := put_kv bk idx dense_null]> (buckets w))) (wm w) (wu w ∪ {[(rgt, j, idx)]}))
    local sid rgt j (clear_bit mask idx) (set_bit cand0 idx).
Proof.
  intros Hne Hi Hmi Hbit Hb Hb' Hf Hn (Hmr & Hcr & b1 & b2 & Eb & Eb' & Ed & Ei & Ed' & Ei' & Et & Em & Hmask & Hcand & Hb3 & Hful & Hful').
  assert (b1 = bk) as -> by congruence. assert (b2 = bk') as -> by congruence. pose proof (cfg_slots cfg Hcfg) as Hns.
  assert (2 ^ ns ≤ 2 ^ 64) by (apply Z.pow_le_mono_r; lia).
  pose proof (λ s j i k, move_fullk cfg Hcfg heap w ps Hinv sid rgt _ _ _ _ _ _ Hne Hb Hb' Hi Hf Hn s j i k) as Hfk.
  assert (∀ i, Z.testbit (clear_bit mask idx) i = true → i ≠ idx ∧ Z.testbit mask i = true) as Hclr.
  { intros i. rewrite clear_bit_testbit by lia. intros [? Hd%negb_true_iff%bool_decide_eq_false]%andb_prop. split; congruence. }
  assert (∀ i, Z.testbit (set_bit cand0 idx) i = Z.testbit cand0 i || bool_decide (idx = i)) as Hset by (intros; apply set_bit_testbit; lia).
  split; [apply clear_bit_bound; [lia|done|lia]|]. split; [by apply set_bit_small|].
  exists (put_kv bk idx dense_null), (put_kv bk' idx (mk_dense p' (slot_tag (hash_fn k')))).
  split; [simpl; rewrite lookup_insert_ne by congruence; by rewrite lookup_insert_eq|]. split; [simpl; by rewrite lookup_insert_eq|].
  do 6 (split; [done|]). split; [|split; [|split; [|split]]].
  - intros i [Hd Hm]%Hclr. destruct (Hmask i Hm) as [? Hc]. split; [done|]. rewrite Hset, Hc, bool_decide_false by congruence. done.
  - intros i. rewrite Hset. intros [?|<-%bool_decide_eq_true]%orb_prop; [by apply Hcand|by apply Hmask].
  - intros i Hbi. rewrite Hset. destruct (decide (idx = i)) as [<-|Hd].
    + rewrite bool_decide_true, orb_true_r by done. destruct (Hb3 idx Hbi) as (k & Htg & Hx). rewrite (proj2 (Hmask idx Hmi)) in Hx.
      destruct Hx as [[p Hx] _]. destruct (full_fun heap w _ _ _ _ _ _ _ Hx Hf) as [-> _]. exists k'. split; [done|].
      apply Hfk. by rewrite decide_True.
    + rewrite bool_decide_false, orb_false_r by done. destruct (Hb3 i Hbi) as (k & Htg & Hx). exists k. split; [done|].
      destruct (Z.testbit cand0 i).
      * apply Hfk. rewrite decide_False by congruence. split; [congruence|done].
      * destruct Hx as [Hx Hs]. split; [apply Hfk; rewrite decide_False by congruence; split; [congruence|done]|].
        rewrite clear_bit_testbit by lia. rewrite bool_decide_false, andb_true_r by congruence. done.
  - intros i k Hk%Hfk. rewrite decide_False in Hk by congruence. destruct Hk as [Hd Hk]. destruct (Hful i k Hk) as [? Hc].
    split; [done|]. rewrite Hset, Hc, bool_decide_false by congruence. done.
  - intros i k Hk%Hfk. rewrite Hset. case_decide as Hd; [injection Hd as ->; by rewrite bool_decide_true, orb_true_r|].
    rewrite (Hful' i k) by apply Hk. done.
Qed.

Lemma ok_xchg o local sid lft rgt j mask cand idx : ps !! t = Some (o, SXchg local sid lft rgt j mask cand idx) →
  good w ps t o (SXchg local sid lft rgt j mask cand idx) (step o (wc w) (SXchg local sid lft rgt j mask cand idx)).
Proof.
  start. destruct Ht as (Hleg & Hsp & Hj0 & Hrest & cand0 & k' & -> & Hmv & Hmi & [p' Hf] & Hbit). pose proof Hsp as (-> & Hl & Hw & Hwr & _).
  pose proof Hmv as (_ & _ & bk & bk' & Hb & Hb' & _ & _ & _ & _ & _ & _ & Hmask & _ & _ & _ & Hful').
  assert (sid ≠ rgt) as Hne by congruence. pose proof (used_range cfg heap w ps Hinv _ _ _ (proj1 Hf)) as Hi.
  assert (∀ k, ¬ fullk w rgt j idx k) as Hn.
  { intros k Hk. specialize (Hful' idx k Hk). destruct (Hmask idx Hmi). congruence. }
  unfold thread_step, on_bucket. rewrite Hb. simpl. rewrite Hb'. simpl. pose proof Hf as (_ & b1 & r & Hb1 & Hs & _).
  assert (b1 = bk) as -> by congruence. rewrite Hs. simpl.
  set (w' := with_buckets w (<[(rgt, j) := put_kv bk' idx (mk_dense p' (slot_tag (hash_fn k')))]>
    (<[(sid, j) := put_kv bk idx dense_null]> (buckets w))) (wm w) (wu w ∪ {[(rgt, j, idx)]})).
  apply (same o _ _ w'); [done..|].
  apply (move_step cfg Hcfg heap w ps Hinv sid rgt j idx p' k' bk bk' Hne Hb Hb' Hi Hf Hn t o (SXchg local sid sid rgt j mask (set_bit cand0 idx) idx)); try done.
  - right. exists t, sid, (hash_fn (op_key o) mod 2 ^ local), local. split; [by apply (building_self o _ _ _ Hps)|]. split; [done|]. split; [|done].
    destruct (home_full cfg heap w ps Hinv _ _ _ _ _ Hf) as [_ [(pt & ld & Hw2 & Hm)|(t' & s' & pt & ld & Hbd & _)]].
    + assert (pt = hash_fn (op_key o) mod 2 ^ local ∧ ld = local) as [<- <-] by (split; congruence). done.
    + destruct (build_new cfg heap w ps Hinv t' s' sid Hbd) as [E _]. congruence.
  - left. simpl. split; [done|lia].
  - right. exists sid. split; [done|simpl; lia].
  - split; [done|]. split; [done|]. split; [done|]. split; [|by apply moving_step].
    apply (keep_rest w'); [|done]. apply (move_guar cfg Hcfg heap w ps Hinv sid rgt j idx p' k' bk bk' Hne Hb Hb' Hi Hf Hn); [by left|by right].
Qed.

(** The bits of a bucket that changes no slot in use. *)
Lemma bits_quiet A B' s j b' : quiet cfg w A B' → B' !! (s, j) = Some b' →
  (∀ i, Z.testbit (bk_bitmap b') i = true → ∃ k, fullk w s j i k ∧ nthZ (bk_tags b') i = Some (bucket_tag (hash_fn k))) →
  (∀ i k, fullk w s j i k → Z.testbit (bk_bitmap b') i = true) →
  bits_ok heap (with_buckets w B' (wm w) (wu w)) s j.
Proof.
  intros Hq Hb' h1 h2. pose proof (λ i k, quiet_fullk cfg heap w A B' s j i k Hq) as Hfk. exists b'. split; [done|]. split.
  - intros i Hi _. destruct (h1 i Hi) as (k & Hk & Htg). exists k. split; [by apply Hfk|done].
  - intros i k Hk%Hfk _. by apply (h2 i k).
Qed.

Lemma ok_bits o local sid lft rgt j cand : ps !! t = Some (o, SBits local sid lft rgt j cand) →
  good w ps t o (SBits local sid lft rgt j cand) (step o (wc w) (SBits local sid lft rgt j cand)).
Proof.
  start. destruct Ht as (Hleg & Hsp & Hj0 & Hrest & Hmv). pose proof Hsp as (-> & Hl & Hw & Hwr & _).
  destruct Hmv as (_ & Hcr & bk & bk' & Hb & Hb' & Ed & Ei & Ed' & Ei' & Et & Em & _ & Hcand & Hb3 & Hful & Hful').
  unfold thread_step, on_bucket. rewrite Hb. simpl. rewrite Hb'. simpl. assert (sid ≠ rgt) as Hne by congruence.
  destruct (the_fine cfg heap w ps Hinv _ _ Hb) as (f1 & f2 & f3 & f4 & f5). destruct (the_fine cfg heap w ps Hinv _ _ Hb') as (g1 & g2 & g3 & g4 & g5).
  set (x := Z.land (bk_bitmap bk) (Z.lnot cand)).
  assert (∀ i, 0 ≤ i → Z.testbit x i = Z.testbit (bk_bitmap bk) i && negb (Z.testbit cand i)) as Hx.
  { intros i Hi. unfold x. by rewrite Z.land_spec, Z.lnot_spec. }
  assert (∀ i, Z.testbit x i = true ↔ Z.testbit (bk_bitmap bk) i = true ∧ Z.testbit cand i = false) as Hx'.
  { intros i. destruct (Z.lt_ge_cases i 0) as [Hi|Hi]; [rewrite !Z.testbit_neg_r by done; split; [done|by intros [? _]]|].
    rewrite Hx by done. destruct (Z.testbit (bk_bitmap bk) i), (Z.testbit cand i); split; (done || by intros [? ?]). }
  pose proof (cfg_slots cfg Hcfg) as Hns.
  assert (0 ≤ x < 2 ^ ns) as Hxr.
  { assert (0 ≤ x) by (apply Z.land_nonneg; lia). split; [done|]. apply word_bound; [lia|done|]. intros i Hi. rewrite Hx by lia.
    by rewrite (testbit_above (bk_bitmap bk) ns) by lia. }
  assert (u8 (bk_depth bk' + 1) = local + 1) as Eu.
  { rewrite Ed'. apply Z.mod_small. change (2 ^ 8) with 256. unfold kMaxDirDepth in Hl. lia. }
  rewrite !(wrap48 cfg Hcfg) by done. rewrite Eu.
  match goal with |- context [put_bucket (put_bucket _ sid j ?b1) rgt j ?b2] => set (n1 := b1); set (n2 := b2) end.
  assert (∀ A : Z * Z → Prop, A (sid, j) → A (rgt, j) → quiet cfg w A (<[(rgt, j) := n2]> (<[(sid, j) := n1]> (buckets w)))) as Hq.
  { intros A A1 A2. apply (quiet_two cfg heap w ps Hinv A (sid, j) (rgt, j) bk bk'); [done|done|done|done|congruence| |].
    - split; [|done]. do 3 (split; [done|]). split; [|done]. intros i [Hi _]%Hx'. by apply f4.
    - split; [|done]. do 3 (split; [done|]). split; [|intros pt ld E; simpl in E; congruence].
      intros i Hi. simpl in Hi. specialize (Hcand i Hi). destruct (Hb3 i Hcand) as (k & _ & Hf). rewrite Hi in Hf. by destruct Hf as [p [Hu _]]. }
  set (B' := <[(rgt, j) := n2]> (<[(sid, j) := n1]> (buckets w))) in *.
  assert (B' !! (sid, j) = Some n1) as Hn1 by (unfold B'; rewrite lookup_insert_ne by congruence; by rewrite lookup_insert_eq).
  assert (B' !! (rgt, j) = Some n2) as Hn2 by (unfold B'; by rewrite lookup_insert_eq).
  set (w' := with_buckets w B' (wm w) (wu w)).
  pose proof (Hq (λ y, y = (sid, j) ∨ y = (rgt, j)) (or_introl eq_refl) (or_intror eq_refl)) as Hq0.
  apply (same o _ _ w'); [done..|].
  apply (quiet_step cfg Hcfg heap w ps Hinv t o (SBits local sid sid rgt j cand)); [done..| |].
  { apply Hq; [left; simpl; split; [done|lia]|right; exists sid; split; [done|simpl; lia]]. }
  split; [done|]. split; [done|]. split; [done|]. split; [apply (keep_rest w'); [by apply (quiet_guar cfg heap w)|done]|].
  split; [|split; [|split; [|split]]].
  - apply (bits_quiet _ _ _ _ n1 Hq0 Hn1).
    + intros i [Hi Hc]%Hx'. destruct (Hb3 i Hi) as (k & Htg & Hf). rewrite Hc in Hf. exists k. split; [apply Hf|done].
    + intros i k Hf. apply Hx'. by apply (Hful i k).
  - apply (bits_quiet _ _ _ _ n2 Hq0 Hn2).
    + intros i Hi. simpl in Hi. destruct (Hb3 i (Hcand i Hi)) as (k & Htg & Hf). rewrite Hi in Hf. exists k. split; [done|]. simpl. by rewrite Et.
    + intros i k Hf. simpl. by apply (Hful' i k).
  - exists n1. done.
  - exists n2. done.
  - intros i k Hf%(quiet_fullk cfg heap w _ B' sid j i k Hq0). destruct (Hful i k Hf) as [Hi Hc]. destruct (Hb3 i Hi) as (k2 & _ & Hf2).
    rewrite Hc, Z.testbit_0_l in Hf2. destruct Hf2 as [[p2 Hf2] Hs]. destruct Hf as [p Hf]. destruct (full_fun heap w _ _ _ _ _ _ _ Hf Hf2) as [-> _].
    by apply Hs.
Qed.

Lemma ok_incr o local sid lft rgt j : ps !! t = Some (o, SIncr local sid lft rgt j) →
  good w ps t o (SIncr local sid lft rgt j) (step o (wc w) (SIncr local sid lft rgt j)).
Proof.
  start. destruct Ht as (Hleg & Hsp & Hj0 & Hrest & Q1 & Q2 & (bk & Hb & Ed & Ei) & Q3 & Q4). pose proof Hsp as (-> & Hl & Hw & Hwr & _).
  unfold thread_step, on_bucket. rewrite Hb. simpl. assert ((sid, j) ≠ (rgt, j)) as Hne by congruence.
  assert (u8 (bk_depth bk + 1) = local + 1) as Eu.
  { rewrite Ed. apply Z.mod_small. change (2 ^ 8) with 256. unfold kMaxDirDepth in Hl. lia. }
  rewrite Eu. set (n1 := set_bk_depth (local + 1) bk). destruct (the_fine cfg heap w ps Hinv _ _ Hb) as (f1 & f2 & f3 & f4 & f5).
  assert (∀ A : Z * Z → Prop, A (sid, j) → quiet cfg w A (<[(sid, j) := n1]> (buckets w))) as Hq.
  { intros A HA. apply (quiet_one cfg heap w ps Hinv _ _ bk); [done|done|]. split; [|done]. do 4 (split; [done|]).
    intros pt ld E _. simpl in E |- *. right. assert (ld = local) as -> by congruence. done. }
  set (B' := <[(sid, j) := n1]> (buckets w)) in *.
  assert (B' !! (sid, j) = Some n1) as Hn1 by (unfold B'; by rewrite lookup_insert_eq).
  set (w' := with_buckets w B' (wm w) (wu w)). pose proof (Hq (λ y, y = (sid, j)) eq_refl) as Hq0.
  pose proof (quiet_guar cfg heap w _ False _ Hq0) as Hg. apply (same o _ _ w'); [done..|].
  apply (quiet_step cfg Hcfg heap w ps Hinv t o (SIncr local sid sid rgt j)); [done..|apply Hq; left; simpl; split; [done|lia]|].
  split; [done|]. split; [done|]. split; [lia|]. apply (keep_next w'); [apply (quiet_guar cfg heap w), Hq; by left|done|lia|].
  destruct Q1 as (b1 & Hb1 & h1 & h2). assert (b1 = bk) as -> by congruence.
  split; [|split; [|split; [|split]]].
  - apply (bits_quiet _ _ _ _ n1 Hq0 Hn1); [intros i Hi; by apply h1; [|intros []]|intros i k Hf; by apply (h2 i k Hf); intros []].
  - by apply (st_bits_but cfg heap w w' _ False Hg).
  - exists n1. done.
  - by apply (st_bhead cfg heap w w' _ False Hg).
  - intros i k Hf%(quiet_fullk cfg heap w _ B' sid j i k Hq0). by apply (Q4 i k).
Qed.

(** ** The directory *)

Lemma ok_dir_lock o local sid rgt : ps !! t = Some (o, SDirLock local sid rgt) →
  good w ps t o (SDirLock local sid rgt) (step o (wc w) (SDirLock local sid rgt)).
Proof.
  start. unfold thread_step. destruct (ver_locked (ct_lock (wc w))) eqn:Ef; [done|].
  apply (same o _ _ (publish_world w (op_key o) local sid rgt)); [done..|]. by apply (publish_step cfg Hcfg heap w ps Hinv).
Qed.

Lemma ok_dir_unlock o sid : ps !! t = Some (o, SDirUnlock sid) →
  good w ps t o (SDirUnlock sid) (step o (wc w) (SDirUnlock sid)).
Proof.
  start. destruct Ht as (Hleg & Hst & Hok). unfold thread_step.
  apply (same o _ _ (with_table w (set_ct_lock (ver_release (ct_lock (wc w))) (wc w)))); [done..|].
  apply (dir_release_step cfg Hcfg heap w ps Hinv t o (SDirUnlock sid)); try done. by intros [].
Qed.


(** The arrays after a change of the array number [a]. *)
Lemma arrays_change A a (l' : list Z) :
  (∀ l, arrays w !! a = Some l → lenZ l ≤ lenZ l' ∧ ∀ i s, 0 ≤ i < lenZ l → nthZ l' i = Some s → nthZ l i = Some s ∨
      ∃ lft pat l0, nthZ l i = Some lft ∧ wo w !! lft = Some (pat, l0 + 1) ∧ wo w !! s = Some (pat + 2 ^ l0, l0 + 1) ∧
        i mod 2 ^ (l0 + 1) = pat + 2 ^ l0 ∧ 0 ≤ l0 ∧ ∀ j, 0 ≤ j < nb → A (lft, j)) →
  ∀ d l, arrays w !! d = Some l → ∃ l2, <[a := l']> (arrays w) !! d = Some l2 ∧ lenZ l ≤ lenZ l2 ∧
    ∀ i s, 0 ≤ i < lenZ l → nthZ l2 i = Some s → nthZ l i = Some s ∨
      ∃ lft pat l0, nthZ l i = Some lft ∧ wo w !! lft = Some (pat, l0 + 1) ∧ wo w !! s = Some (pat + 2 ^ l0, l0 + 1) ∧
        i mod 2 ^ (l0 + 1) = pat + 2 ^ l0 ∧ 0 ≤ l0 ∧ ∀ j, 0 ≤ j < nb → A (lft, j).
Proof.
  intros Ha d l Hl. destruct (decide (d = a)) as [->|Hne].
  - exists l'. rewrite lookup_insert_eq. split; [done|]. by apply Ha.
  - exists l. rewrite lookup_insert_ne by done. split; [done|]. split; [lia|]. intros i s _ Hs. by left.
Qed.

Lemma ok_grow o local sid rgt d g : ps !! t = Some (o, SGrow local sid rgt d g) →
  good w ps t o (SGrow local sid rgt d g) (step o (wc w) (SGrow local sid rgt d g)).
Proof.
  start. destruct Ht as (Hleg & Hpub & Ed & Eg & El & Hdir). unfold thread_step.
  destruct (Z.leb_spec kMaxDirDepth g) as [|Hg]; [done|]. set (a := ct_narrays (wc w)).
  pose proof Hgl as Hgl'. assert (∀ d' l, arrays w !! d' = Some l → d' < a) as Hlt by (intros d' l Hl; by apply (gl_array _ _ _ _ Hgl' d' l)).
  assert (arrays w !! a = None) as Hna.
  { destruct (arrays w !! a) as [l|] eqn:E; [|done]. specialize (Hlt a l E). lia. }
  match goal with |- context [Next ?c _] => set (c' := c) end.
  assert (∀ w2 : world K, wc w2 = c' → wo w2 = wo w → wu w2 = wu w → dir_but w2 d g sid (hash_fn (op_key o) mod 2 ^ local) local 0) as Hdir'.
  { intros w2 E1 E2 E3. destruct Hdir as (Hr & l & Hl & Hx). split; [done|]. exists l. rewrite E1, E2. split; [|done].
    unfold c'. simpl. rewrite lookup_insert_ne; [done|]. specialize (Hlt d l Hl). lia. }
  apply (same o _ _ (with_table w c')); [done..|].
  apply (dir_step cfg Hcfg heap w ps Hinv t o (SGrow local sid rgt d g)); try done.
  - apply arrays_change. congruence.
  - intros d' l. unfold c'. simpl. destruct (decide (d' = a)) as [->|Hne].
    + rewrite lookup_insert_eq. intros [= <-]. split; [lia|]. intros s Hs. by apply elem_of_nil in Hs.
    + rewrite lookup_insert_ne by done. intros Hl. destruct (gl_array _ _ _ _ Hgl' d' l Hl) as [? ?]. split; [lia|done].
  - split; [done|]. split; [done|]. split; [done|]. split; [done|]. split; [done|]. split; [|split; [done|split; [|by apply Hdir']]].
    + destruct Hdir as (_ & l & Hl & _). specialize (Hlt d l Hl). lia.
    + unfold c'. simpl. by rewrite lookup_insert_eq.
Qed.

Lemma ok_grow_depth o local sid rgt d a g : ps !! t = Some (o, SGrowDepth local sid rgt d a g) →
  good w ps t o (SGrowDepth local sid rgt d a g) (step o (wc w) (SGrowDepth local sid rgt d a g)).
Proof.
  start. destruct Ht as (Hleg & Hpub & Ed & Eg & Hrest). unfold thread_step. pose proof Hgl as Hgl'.
  apply (same o _ _ (with_table w (set_ct_depth (ct_depth (wc w) + 1) (wc w)))); [done..|].
  apply (dir_step cfg Hcfg heap w ps Hinv t o (SGrowDepth local sid rgt d a g)); try done.
  - intros d' l Hl. exists l. split; [done|]. split; [lia|]. intros i s _ Hs. by left.
  - apply (gl_array _ _ _ _ Hgl').
  - split; [done|]. split; [done|]. split; [done|]. split; [simpl; lia|]. done.
Qed.

(** Twice the array, for a segment as deep as it. *)
Lemma double_dir d a g sid pat l (w2 : world K) :
  0 ≤ g < kMaxDirDepth → (∀ s s' (x : Z), own_code w s x → own_code w s' x → s = s') → wo w2 = wo w → arrays w2 !! a = Some (l ++ l) →
  wo w !! sid = Some (pat, g + 1) → 0 ≤ pat < 2 ^ g → arrays w !! d = Some l →
  dir_but w d g sid pat g 0 → dir_but w2 a (g + 1) sid pat g 0.
Proof.
  intros Hg Hdisj Ew Ea Hw Hpat Hl (_ & l1 & Hl1 & Hlen & He). assert (l1 = l) as -> by congruence.
  assert (0 < 2 ^ g) as Hpos by (apply Z.pow_pos_nonneg; lia). assert (2 ^ (g + 1) = 2 * 2 ^ g) as E2 by (rewrite Z.pow_add_r by lia; lia).
  split; [lia|]. exists (l ++ l). split; [done|]. split; [rewrite lenZ_app; lia|]. rewrite Ew.
  assert (∀ i s, nthZ l i = Some s → ∃ pt ld, wo w !! s = Some (pt, ld) ∧ (s = sid ∨ ld ≤ g) ∧ i mod 2 ^ ld = pt ∧ (s = sid ↔ i = pat)) as Hold.
  { intros i s Hs. pose proof (nthZ_Some _ _ _ Hs) as Hi. rewrite Hlen in Hi. destruct (He i s Hs) as [_ Hx].
    destruct Hx as (pt & ld & Hws & Hor & Hm); [rewrite Z.mod_small by lia; lia|]. exists pt, ld. split; [done|]. split; [done|]. split; [done|].
    split; intros ->.
    - assert (pt = pat ∧ ld = g + 1) as [-> ->] by (split; congruence). rewrite Z.mod_small in Hm by lia. done.
    - apply (Hdisj s sid pat); [by exists pt, ld|]. exists pat, (g + 1). split; [done|]. apply Z.mod_small. lia. }
  intros i s Hs. pose proof (nthZ_Some _ _ _ Hs) as Hi. rewrite lenZ_app, Hlen in Hi.
  rewrite (nthZ_app_same l (2 ^ g)) in Hs by (done || lia). rewrite (Z.mod_small i) by lia. rewrite Z.div_small by lia.
  destruct (Hold _ s Hs) as (pt & ld & Hws & Hor & Hm & Hiff). destruct (gl_seg _ _ _ _ Hgl s pt ld Hws) as (Hld & _).
  assert (i mod 2 ^ g = pat → i = pat ∨ i = pat + 2 ^ g) as Hcase.
  { intros Hi2. destruct (decide (i < 2 ^ g)); [rewrite Z.mod_small in Hi2 by lia; by left|right].
    rewrite <-(Z.mod_unique_pos i (2 ^ g) 1 (i - 2 ^ g)) in Hi2 by lia. lia. }
  split.
  - intros [-> _]. apply Hiff. rewrite <-(Z.mod_unique_pos (pat + 2 ^ g) (2 ^ g) 1 pat) by lia. done.
  - intros Hn. exists pt, ld. split; [done|]. destruct (decide (s = sid)) as [->|Hns].
    + split; [by left|]. assert (pt = pat ∧ ld = g + 1) as [-> ->] by (split; congruence). rewrite Z.mod_small by lia.
      destruct (Hcase (proj1 Hiff eq_refl)) as [?| ->]; [done|]. destruct Hn. done.
    + destruct Hor as [?|Hle]; [done|]. split; [right; lia|]. by rewrite mod_mod_pow in Hm by lia.
Qed.

Lemma ok_grow_copy o local sid rgt d a g : ps !! t = Some (o, SGrowCopy local sid rgt d a g) →
  good w ps t o (SGrowCopy local sid rgt d a g) (step o (wc w) (SGrowCopy local sid rgt d a g)).
Proof.
  start. destruct Ht as (Hleg & Hpub & Ed & Eg & El & Hne & Hg & Ha & Hdir). pose proof Hgl as Hgl'.
  pose proof Hdir as (Hg0 & l & Hl & Hlen & _). unfold thread_step. rewrite Hl. simpl. unfold check.
  rewrite (proj2 (Z.ltb_lt local (ct_depth (wc w)))) by lia.
  assert (take (Z.to_nat (bit g)) l = l) as -> by (apply take_ge; rewrite bit_pow by lia; unfold lenZ in Hlen; lia).
  set (c' := set_ct_arrays (<[a := l ++ l]> (arrays w)) (wc w)). rewrite Ed, Eg. apply (same o _ _ (with_table w c')); [done..|].
  apply (dir_step cfg Hcfg heap w ps Hinv t o (SGrowCopy local sid rgt d a g)); try done.
  - apply arrays_change. intros l0 Hl0. assert (l0 = []) as -> by congruence. unfold lenZ. simpl. split; [lia|]. intros i s Hi. lia.
  - intros d' l'. simpl. destruct (decide (d' = a)) as [->|Hnd].
    + rewrite lookup_insert_eq. intros [= <-]. split; [by apply (gl_array _ _ _ _ Hgl' a [])|].
      intros s [Hs|Hs]%elem_of_app; by apply (gl_array _ _ _ _ Hgl' d l).
    + rewrite lookup_insert_ne by done. apply (gl_array _ _ _ _ Hgl').
  - pose proof Hpub as (Hlo & Hws & _). rewrite El in *. split; [done|]. split; [done|]. split; [done|]. split; [done|]. split; [lia|].
    split; [split; [done|]; apply Z.div_pos; [by apply Z.pow_nonneg|apply Z.pow_pos_nonneg; lia]|].
    apply (double_dir d a g sid _ l); try done; [lia|apply (gl_disj _ _ _ _ Hgl')|simpl; by rewrite lookup_insert_eq|].
    apply Z.mod_pos_bound, Z.pow_pos_nonneg; lia.
Qed.

(** The entries of the right half. *)
Lemma install_index local g pat pid i : 0 ≤ local < g → 0 ≤ pat < 2 ^ local → 0 ≤ pid < 2 ^ g / 2 ^ (local + 1) →
  let i0 := pid * 2 ^ (local + 1) + (pat + 2 ^ local) in
  0 ≤ i0 < 2 ^ g ∧ i0 mod 2 ^ (local + 1) = pat + 2 ^ local ∧ i0 / 2 ^ (local + 1) = pid ∧
  (i mod 2 ^ (local + 1) = pat + 2 ^ local → i / 2 ^ (local + 1) = pid → i = i0).
Proof.
  intros Hl Hp Hpid i0. assert (0 < 2 ^ local) as Hpos by (apply Z.pow_pos_nonneg; lia).
  assert (2 ^ (local + 1) = 2 * 2 ^ local) as E by (rewrite Z.pow_add_r by lia; lia). set (m := 2 ^ (local + 1)) in *.
  assert (2 ^ g = m * (2 ^ g / m)) as Hdiv.
  { apply Z.div_exact; [lia|]. unfold m. replace g with ((g - (local + 1)) + (local + 1)) by lia. rewrite Z.pow_add_r by lia. apply Z.mod_mul. lia. }
  assert (i0 / m = pid) as Hd by (unfold i0; rewrite Z.div_add_l by lia; rewrite Z.div_small by lia; lia).
  assert (i0 mod m = pat + 2 ^ local) as Hm by (unfold i0; rewrite Z.add_comm, Z.mod_add by lia; apply Z.mod_small; lia).
  split; [|split; [done|split; [done|]]].
  - unfold i0. split; [nia|]. assert ((pid + 1) * m ≤ 2 ^ g) by nia. nia.
  - intros Hi1 Hi2. rewrite (Z.div_mod i m), (Z.div_mod i0 m) by lia. congruence.
Qed.

Lemma ok_install o local sid rgt d g pid : pid < 2 ^ g / 2 ^ (local + 1) → ps !! t = Some (o, SInstall local sid rgt d g pid) →
  good w ps t o (SInstall local sid rgt d g pid) (step o (wc w) (SInstall local sid rgt d g pid)).
Proof.
  intros Hpid. start. destruct Ht as (Hleg & Hpub & Ed & Eg & Hlt & Hpr & Hdir). pose proof Hgl as Hgl'.
  pose proof Hpub as (Hlo & Hws & Hwr & Hst). pose proof Hdir as (Hg0 & l & Hl & Hlen & He). set (pat := hash_fn (op_key o) mod 2 ^ local) in *.
  assert (0 ≤ pat < 2 ^ local) as Hpat by (apply Z.mod_pos_bound, Z.pow_pos_nonneg; lia).
  pose proof (λ i, install_index local g pat pid i ltac:(lia) Hpat ltac:(lia)) as Hidx. set (i0 := pid * 2 ^ (local + 1) + (pat + 2 ^ local)) in *.
  destruct (Hidx 0) as (Hir & Him & Hid & _).
  unfold thread_step. rewrite !bit_pow by lia. rewrite (proj2 (Z.ltb_lt pid _)) by done. rewrite Hl. simpl.
  rewrite segment_index_mod by lia. fold pat. fold i0. unfold check. rewrite (proj2 (Z.ltb_lt i0 (lenZ l))) by lia.
  set (c' := set_ct_arrays (<[d := updZ l i0 rgt]> (arrays w)) (wc w)). apply (same o _ _ (with_table w c')); [done..|].
  destruct (nthZ_is_Some l i0) as [s0 Hs0]; [lia|]. destruct (He i0 s0 Hs0) as [Hc0 _]. rewrite Hc0 in Hs0 by (split; [done|lia]).
  apply (dir_step cfg Hcfg heap w ps Hinv t o (SInstall local sid rgt d g pid)); try done.
  - apply arrays_change. intros l0 Hl0. assert (l0 = l) as -> by congruence. rewrite lenZ_updZ. split; [lia|]. intros i s Hi.
    destruct (decide (i = i0)) as [->|Hne]; [|rewrite nthZ_updZ_ne by done; by left]. rewrite nthZ_updZ_eq by lia. intros [= <-]. right.
    exists sid, pat, local. split; [done|]. split; [done|]. split; [done|]. split; [done|]. split; [lia|]. intros j Hj. by left.
  - intros d' l'. simpl. destruct (decide (d' = d)) as [->|Hnd].
    + rewrite lookup_insert_eq. intros [= <-]. destruct (gl_array _ _ _ _ Hgl' d l Hl) as [? Hx]. split; [done|].
      intros s [i Hi]%list_elem_of_lookup. assert (nthZ (updZ l i0 rgt) (Z.of_nat i) = Some s) as Hs.
      { unfold nthZ. rewrite (proj2 (Z.leb_le 0 _)) by lia. by rewrite Nat2Z.id. }
      destruct (decide (Z.of_nat i = i0)) as [E|Hne].
      * rewrite E, nthZ_updZ_eq in Hs by lia. injection Hs as <-. apply elem_of_dom. by eexists.
      * rewrite nthZ_updZ_ne in Hs by done. apply Hx. unfold nthZ in Hs. destruct (0 <=? _); [|done]. by eapply list_elem_of_lookup_2.
    + rewrite lookup_insert_ne by done. apply (gl_array _ _ _ _ Hgl').
  - split; [done|]. split; [done|]. split; [done|]. split; [done|]. split; [done|]. split; [lia|]. split; [done|].
    exists (updZ l i0 rgt). split; [simpl; by rewrite lookup_insert_eq|]. split; [by rewrite lenZ_updZ|]. intros i s.
    destruct (decide (i = i0)) as [->|Hne].
    + rewrite nthZ_updZ_eq by lia. intros [= <-]. split; [intros [_ ?]; lia|]. intros _. exists (pat + 2 ^ local), (local + 1).
      split; [done|]. split; [right; lia|done].
    + rewrite nthZ_updZ_ne by done. intros Hs. destruct (He i s Hs) as [h1 h2]. split.
      * intros [? ?]. apply h1. split; [done|lia].
      * intros Hn. apply h2. intros [E1 E2]. destruct (decide (i / 2 ^ (local + 1) = pid)) as [E3|]; [by apply Hne, Hidx|].
        apply Hn. split; [done|lia].
Qed.
End steps.
