(* ===== verification/ConcSpec.v ===== *)
(** * The concurrent hash table is linearizable

    [step_good]: a step of a thread keeps the invariant of [ConcInv] and is the
    effect of its call on the map, or none.  [conc_start_inv]: the invariant holds of a
    sequential table before the threads start.  So every execution is one of the
    map in which each call takes effect at one moment, no thread faults, and while
    a call is running some thread can go on. *)

From S2P Require Export ConcSplit.

(** ** Definitions *)

(** The configuration of the store. *)
Definition store_config (cfg : HashConfig) : Prop :=
  wf_config cfg ∧ kOptUpdate cfg = true ∧ kTimeStamp cfg = true.

(** A thread in the specification. *)
Definition abs_thread `{Dense} {K : Type} (x : table_op K * pc) : status :=
  match decided x.2 with Some r => Finished r | None => Pending x.1 end.

Section start.
Context `{Util} `{Dense} `{Simd} `{VerLock} {K : Type} `{Countable K} `{HashFn K}.
Variable t : HashTable.

Definition seg_depth (s : Z) : Z :=
  match nthZ (ht_segs t) s ≫= λ l, nthZ l 0 with Some b => bk_depth b | None => 0 end.
Definition start_owners : gmap Z (Z * Z) :=
  list_to_map ((λ i, let s := default 0 (nthZ (ht_dir t) i) in (s, (i mod 2 ^ seg_depth s, seg_depth s))) <$> seqZ 0 (lenZ (ht_dir t))).
Definition start_used : gset (Z * Z * Z) :=
  list_to_set ('(x, b) ← map_to_list (live_buckets t); i ← seqZ 0 64; if Z.testbit (bk_bitmap b) i then [(x.1, x.2, i)] else []).
Definition start_world (m : gmap K Z) : world K := World (conc_of t) m start_owners start_used.
End start.

(** ** The steps *)

Section steps.
Context `{UtilSpec} `{DenseSpec} `{SimdSpec} `{VerLockSpec} {K : Type} `{Countable K} `{HashFnSpec K}.
Variable cfg : HashConfig.
Hypothesis Hcfg : wf_config cfg.
Variable heap : gmap Z (KVPair K).
Abbreviation nb := (kNBucketInSegment cfg).
Abbreviation inv := (inv cfg heap).
Implicit Types (w : world K) (ps : gmap Z (table_op K * pc)) (t : Z) (o : table_op K) (q : pc).

Lemma step_good w ps t o q : inv w ps → ps !! t = Some (o, q) → good cfg heap w ps t o q (thread_step cfg heap o (wc w) q).
Proof.
  intros Hinv Hps. destruct q.
  - by apply ok_start.
  - by apply ok_dir.
  - by apply ok_depth.
  - by apply ok_changed.
  - by apply ok_entry.
  - by apply ok_shared.
  - by apply ok_valid.
  - by apply ok_lock.
  - by apply ok_validx.
  - by apply ok_mask.
  - by apply ok_scan.
  - by apply ok_cas.
  - by apply ok_reload.
  - by apply ok_end.
  - by apply ok_free.
  - by apply ok_tag.
  - by apply ok_bit.
  - by apply ok_unlock.
  - by apply ok_full.
  - by apply ok_full_unlock.
  - by apply ok_ptr.
  - destruct (Z.lt_ge_cases j nb); [by apply ok_slock|by apply ok_lock_end].
  - by apply ok_ptr2.
  - by apply ok_sdepth.
  - by apply ok_ptr3.
  - by apply ok_new.
  - destruct (Z.lt_ge_cases j nb); [by apply ok_bucket|by apply ok_bucket_end].
  - destruct (Z.lt_ge_cases i (kNSlotInBucket cfg)); [by apply ok_copy|by apply ok_copy_end].
  - by apply ok_move.
  - by apply ok_xchg.
  - by apply ok_bits.
  - by apply ok_incr.
  - by apply ok_assert.
  - by apply ok_dir_lock.
  - by apply ok_dir_read.
  - by apply ok_grow.
  - by apply ok_grow_depth.
  - by apply ok_grow_copy.
  - destruct (Z.lt_ge_cases pid (2 ^ g / 2 ^ (local + 1))); [by apply ok_install|by apply ok_install_end].
  - by apply ok_dir_unlock.
  - destruct (Z.lt_ge_cases j nb); [by apply ok_seg_unlock|by apply ok_seg_end].
  - done.
  - by destruct (the_tinv cfg heap w ps t o _ Hinv Hps) as [_ []].
Qed.

(** A thread that holds nothing comes or goes. *)
Lemma pool_glob w ps ps' : (∀ t P, (∀ o, ¬ P o PStart) → (∀ o r, ¬ P o (PDone r)) → at_pc ps' t P ↔ at_pc ps t P) → glob cfg heap w ps → glob cfg heap w ps'.
Proof.
  intros Hat. apply (glob_pool cfg heap w ps ps'). intros t. split; [|split; [|split]].
  - intros x. apply Hat; [by intros o []|by intros o r []].
  - intros x. apply Hat; [intros o [[]|(? & [=] & _)]|intros o r [[]|(? & [=] & _)]].
  - intros sid rgt. apply Hat; [by intros o|by intros o r].
  - apply Hat; [by intros o []|by intros o r []].
Qed.

Lemma call_inv w ps t o : ps !! t = None → legal_table_op heap o → inv w ps → inv w (<[t := (o, PStart)]> ps).
Proof.
  intros Hps Hleg [Hg Ht]. split.
  - apply (pool_glob w ps); [|done]. intros t' P HP _. rewrite at_pc_insert. split; [intros [[-> HP']|[_ ?]]; [by destruct (HP o)|done]|].
    intros HP'. right. split; [|done]. intros ->. destruct HP' as (o' & q' & E & _). congruence.
  - intros t' o' q'. destruct (decide (t' = t)) as [->|Hne].
    + rewrite lookup_insert_eq. by intros [= <- <-].
    + rewrite lookup_insert_ne by done. apply Ht.
Qed.

Lemma return_inv w ps t o r : ps !! t = Some (o, PDone r) → inv w ps → inv w (delete t ps).
Proof.
  intros Hps [Hg Ht]. split.
  - apply (pool_glob w ps); [|done]. intros t' P _ HP. unfold at_pc. destruct (decide (t' = t)) as [->|Hne].
    + rewrite lookup_delete_eq, Hps. split; [by intros (? & ? & [=] & _)|]. intros (o' & q' & [= <- <-] & HP'). by destruct (HP o r).
    + by rewrite lookup_delete_ne.
  - intros t' o' q' Hq. apply lookup_delete_Some in Hq as [_ Hq]. by apply (Ht t').
Qed.
End steps.

(** ** The start *)

Section start.
Context `{UtilSpec} `{DenseSpec} `{SimdSpec} `{VerLockSpec} {K : Type} `{Countable K} `{HashFnSpec K}.
Variable cfg : HashConfig.
Hypothesis Hcfg : wf_config cfg.
Variable heap : gmap Z (KVPair K).
Variable t : HashTable.
Variable m : gmap K Z.
Hypothesis Ht : ht_inv cfg heap t.
Hypothesis Hm : table_rel cfg heap t m.
Abbreviation nb := (kNBucketInSegment cfg).
Abbreviation ns := (kNSlotInBucket cfg).
Abbreviation w := (start_world t m).
Abbreviation locks w := (ct_locks (wc w)).
Implicit Types (s i j p : Z) (k : K).

Lemma nthZ_elem_of {A} (l : list A) i x : nthZ l i = Some x → x ∈ l.
Proof. unfold nthZ. destruct (0 <=? i); [|done]. apply list_elem_of_lookup_2. Qed.

Lemma lookup_seqZ {A} (l : list A) i : map_seqZ (M := gmap Z A) 0 l !! i = nthZ l i.
Proof.
  rewrite lookup_map_seqZ. unfold nthZ. destruct (Z.leb_spec 0 i) as [Hi|Hi].
  - rewrite option_guard_True by done. simpl. by rewrite Z.sub_0_r.
  - by rewrite option_guard_False by lia.
Qed.

Lemma live_bucket s j b : live_buckets t !! (s, j) = Some b ↔ s ∈ ht_dir t ∧ ∃ l, nthZ (ht_segs t) s = Some l ∧ nthZ l j = Some b.
Proof.
  unfold live_buckets. rewrite map_lookup_filter_Some, lookup_map_uncurry. simpl. rewrite lookup_fmap, lookup_seqZ.
  rewrite bind_Some. split.
  - intros [(g & (l & Hl & ->)%fmap_Some & Hb) Hs]. split; [done|]. exists l. split; [exact Hl|]. by rewrite lookup_seqZ in Hb.
  - intros [Hs (l & Hl & Hb)]. split; [|done]. eexists. split; [apply fmap_Some; exists l; split; [exact Hl|done]|]. by rewrite lookup_seqZ.
Qed.

Lemma seg_depth_ok s l pat ld : nthZ (ht_segs t) s = Some l → seg_inv cfg heap pat ld l → seg_depth t s = ld.
Proof.
  intros Hl [Hlen Hb]. pose proof (proj2 Hcfg). destruct (nthZ_is_Some l 0) as [b Hb0]; [lia|].
  unfold seg_depth. rewrite Hl. simpl. rewrite Hb0. by destruct (Hb 0 b Hb0) as (_ & ? & _).
Qed.

(** The segment [s] of the directory, with the codes that it owns. *)
Lemma the_seg s : s ∈ ht_dir t → ∃ i l ld, 0 ≤ i < 2 ^ ht_depth t ∧ entry t i s l ∧ 0 ≤ ld ≤ ht_depth t ∧ seg_inv cfg heap (i mod 2 ^ ld) ld l ∧
  seg_depth t s = ld.
Proof.
  intros [n Hn]%list_elem_of_lookup. assert (nthZ (ht_dir t) (Z.of_nat n) = Some s) as Hd.
  { unfold nthZ. rewrite (proj2 (Z.leb_le 0 _)) by lia. by rewrite Nat2Z.id. }
  pose proof (nthZ_Some _ _ _ Hd) as Hi. rewrite (hi_dir _ _ _ Ht) in Hi.
  destruct (hi_entry _ _ _ Ht _ Hi) as (s' & l & ld & [Hd' Hl] & Hld & Hseg). assert (s' = s) as -> by congruence.
  exists (Z.of_nat n), l, ld. split; [done|]. split; [done|]. split; [done|]. split; [done|].
  by apply (seg_depth_ok s l (Z.of_nat n mod 2 ^ ld)).
Qed.

Lemma start_owner s pat ld : start_owners t !! s = Some (pat, ld) ↔
  ∃ i l, 0 ≤ i < 2 ^ ht_depth t ∧ entry t i s l ∧ 0 ≤ ld ≤ ht_depth t ∧ seg_inv cfg heap pat ld l ∧ pat = i mod 2 ^ ld.
Proof.
  assert (∀ i s', (s', (i mod 2 ^ seg_depth t s', seg_depth t s')) ∈ ((λ i, let s := default 0 (nthZ (ht_dir t) i) in
      (s, (i mod 2 ^ seg_depth t s, seg_depth t s))) <$> seqZ 0 (lenZ (ht_dir t))) ∨ nthZ (ht_dir t) i ≠ Some s') as Hin.
  { intros i s'. destruct (nthZ (ht_dir t) i) as [s0|] eqn:E; [|by right]. destruct (decide (s0 = s')) as [->|]; [left|right; congruence].
    apply list_elem_of_fmap. exists i. rewrite E. simpl. split; [done|]. apply elem_of_seqZ. apply nthZ_Some in E. lia. }
  split.
  - intros Hs%elem_of_list_to_map_2. apply list_elem_of_fmap in Hs as (i & E & Hi). apply elem_of_seqZ in Hi.
    destruct (nthZ_is_Some (ht_dir t) i) as [s0 Hs0]; [lia|]. rewrite Hs0 in E. simpl in E. injection E as -> -> ->.
    rewrite (hi_dir _ _ _ Ht) in Hi. destruct (hi_entry _ _ _ Ht i ltac:(lia)) as (s' & l & ld & [Hd' Hl] & Hld & Hseg).
    assert (s' = s0) as -> by congruence. pose proof (seg_depth_ok s0 l _ ld Hl Hseg) as ->.
    exists i, l. split; [lia|]. done.
  - intros (i & l & Hi & [Hd Hl] & Hld & Hseg & ->). pose proof (seg_depth_ok s l _ ld Hl Hseg) as E.
    unfold start_owners. apply elem_of_list_to_map_1'; [|destruct (Hin i s) as [Hx|Hx]; [by rewrite E in Hx|done]].
    intros y Hy. apply list_elem_of_fmap in Hy as (i' & E' & Hi'). apply elem_of_seqZ in Hi'.
    destruct (nthZ_is_Some (ht_dir t) i') as [s0 Hs0]; [lia|]. rewrite Hs0 in E'. simpl in E'. injection E' as -> ->. rewrite E. f_equal.
    symmetry. apply (hi_share _ _ _ Ht i i' s0 l ld); [done|done|lia| |done]. rewrite <-(hi_dir _ _ _ Ht). lia.
Qed.

Lemma start_used_spec s j i : (s, j, i) ∈ start_used t ↔ ∃ b, live_buckets t !! (s, j) = Some b ∧ 0 ≤ i < 64 ∧ Z.testbit (bk_bitmap b) i = true.
Proof.
  unfold start_used. rewrite elem_of_list_to_set, list_elem_of_bind. split.
  - intros ([x b] & Hx & Hb%elem_of_map_to_list). apply list_elem_of_bind in Hx as (i' & Hx & Hi%elem_of_seqZ).
    destruct (Z.testbit (bk_bitmap b) i') eqn:E; [|by apply elem_of_nil in Hx]. apply list_elem_of_singleton in Hx as [= -> -> ->].
    destruct x as [s' j']. exists b. split; [done|]. split; [lia|done].
  - intros (b & Hb & Hi & Hbit). exists (s, j, b). split; [|by apply elem_of_map_to_list]. apply list_elem_of_bind. exists i.
    rewrite Hbit. split; [by apply list_elem_of_singleton|]. apply elem_of_seqZ. lia.
Qed.

(** A bucket of the directory. *)
Lemma start_bucket s j b : live_buckets t !! (s, j) = Some b →
  ∃ i l ld, 0 ≤ i < 2 ^ ht_depth t ∧ entry t i s l ∧ start_owners t !! s = Some (i mod 2 ^ ld, ld) ∧ nthZ l j = Some b ∧
    wf_bucket cfg heap b ∧ bk_depth b = ld ∧ bk_index b = j ∧ 0 ≤ ld ≤ ht_depth t ∧ seg_inv cfg heap (i mod 2 ^ ld) ld l ∧
    ∀ k p, in_bucket heap b k p → bucket_index (hash_fn k) nb = j ∧ hash_fn k mod 2 ^ ld = i mod 2 ^ ld.
Proof.
  intros (Hs & l & Hl & Hb)%live_bucket. destruct (the_seg s Hs) as (i & l' & ld & Hi & He & Hld & Hseg & _).
  assert (l' = l) as -> by (destruct He; congruence). exists i, l, ld. destruct (proj2 Hseg j b Hb) as (Q1 & Q2 & Q3 & Q4).
  split; [done|]. split; [done|]. split; [apply start_owner; by exists i, l|]. done.
Qed.

Lemma start_full s j i k p : full heap w s j i k p ↔
  ∃ b r, live_buckets t !! (s, j) = Some b ∧ slot_of heap b i p r ∧ kv_key r = k.
Proof.
  split.
  - intros (Hu & b & r & Hb & Hs & Hr & Hk & Hp). exists b, r. split; [done|]. apply start_used_spec in Hu as (b' & Hb' & Hi & Hbit).
    assert (b' = b) as -> by (simpl in Hb; congruence). split; [|done].
    destruct (start_bucket s j b Hb') as (_ & _ & _ & _ & _ & _ & _ & Hwf & _). destruct (wb_slot _ _ _ Hwf i Hbit) as (p' & r' & Hs').
    pose proof Hs' as (_ & E & _ & Hr' & Hp'). rewrite Hs in E. injection E as E. apply (f_equal dense_pointer) in E.
    pose proof (slot_tag_range (hash_fn k)). pose proof (slot_tag_range (hash_fn (kv_key r'))). rewrite !dense_pointer_mk in E by lia. subst p'.
    assert (r' = r) as -> by congruence. done.
  - intros (b & r & Hb & Hs & <-). pose proof Hs as (Hbit & E & _ & Hr & Hp). destruct (start_bucket s j b Hb) as (_ & _ & _ & _ & _ & _ & _ & Hwf & _).
    split; [|by exists b, r]. apply start_used_spec. exists b. split; [done|]. split; [|done]. pose proof (wb_bitmap _ _ _ Hwf).
    pose proof (cfg_slots cfg Hcfg). destruct (Z.lt_ge_cases i 0); [by rewrite Z.testbit_neg_r in Hbit|].
    destruct (Z.lt_ge_cases i ns); [lia|]. by rewrite (testbit_above _ ns) in Hbit by lia.
Qed.

(** The codes of a segment, by the entry of the directory for them. *)
Lemma start_own s (x : Z) : own_code w s x → nthZ (ht_dir t) (x mod 2 ^ ht_depth t) = Some s.
Proof.
  intros (pat & ld & Hs & Hx). apply start_owner in Hs as (i & l & Hi & He & Hld & Hseg & ->).
  apply (hi_share _ _ _ Ht i _ s l ld He Hseg); [lia|apply Z.mod_pos_bound, Z.pow_pos_nonneg; lia|]. by rewrite mod_mod_pow.
Qed.

Lemma start_full_own s j i k p : full heap w s j i k p → m !! k = Some p ∧ j = bucket_index (hash_fn k) nb ∧ own w s k.
Proof.
  intros (b & r & Hb & Hs & Hk)%start_full. destruct (start_bucket s j b Hb) as (i0 & l & ld & Hi0 & He & Hw & Hlj & Hwf & _ & _ & Hld & Hseg & Hkeys).
  assert (in_bucket heap b k p) as Hin by (by exists i, r). destruct (Hkeys k p Hin) as [Ej Em].
  assert (own w s k) as Ho by (by exists (i0 mod 2 ^ ld), ld). split; [|by split].
  pose proof (hi_depth _ _ _ Ht). apply Hm. exists s, l. split; [|by exists b; rewrite Ej]. split; [|apply He]. rewrite segment_index_mod by lia. by apply start_own.
Qed.

(** The buckets of an owner. *)
Lemma owner_bucket s pat ld j : start_owners t !! s = Some (pat, ld) → 0 ≤ j < nb →
  ∃ b, live_buckets t !! (s, j) = Some b ∧ wf_bucket cfg heap b ∧ bk_depth b = ld ∧ bk_index b = j.
Proof.
  intros Hs Hj. apply start_owner in Hs as (i & l & Hi & [Hd Hl] & Hld & [Hlen Hb] & ->).
  destruct (nthZ_is_Some l j) as [b Hlj]; [lia|]. destruct (Hb j b Hlj) as (Hwf & Q1 & Q2 & _). exists b. split; [|done].
  apply live_bucket. split; [by apply (nthZ_elem_of _ i)|by exists l].
Qed.

Lemma start_uniq s s' j j' i i' k : ConcInv.fullk heap w s j i k → ConcInv.fullk heap w s' j' i' k → s = s' ∧ i = i'.
Proof.
  intros [p Hf] [p' Hf']. destruct (start_full_own _ _ _ _ _ Hf) as (_ & Ej & Ho), (start_full_own _ _ _ _ _ Hf') as (_ & Ej' & Ho').
  apply start_own in Ho, Ho'. assert (s' = s) as -> by congruence. split; [done|]. subst j j'.
  apply start_full in Hf as (b & r & Hb & Hs & Hk), Hf' as (b' & r' & Hb' & Hs' & Hk'). assert (b' = b) as -> by congruence.
  destruct (start_bucket _ _ _ Hb) as (_ & _ & _ & _ & _ & _ & _ & Hwf & _). apply (wb_inj _ _ _ Hwf i i' p p' r r'); [done|done|congruence].
Qed.

Lemma start_settled s j : s ∈ dom (start_owners t) → 0 ≤ j < nb → settled heap w s j.
Proof.
  intros [[pat ld] Hs]%elem_of_dom Hj. destruct (owner_bucket s pat ld j Hs Hj) as (b & Hlive & Hwf & Q1 & Q2).
  split; [|exists pat, ld; split; [done|by exists b]]. exists b. split; [done|]. split.
  - intros i' Hi' _. destruct (wb_slot _ _ _ Hwf i' Hi') as (p & r & Hs2). exists (kv_key r). split; [|apply Hs2]. exists p. apply start_full. by exists b, r.
  - intros i' k [p Hf] _. apply start_full in Hf as (b' & r & Hb' & Hs2 & _). assert (b' = b) as -> by congruence. apply Hs2.
Qed.

Lemma start_glob : glob cfg heap w ∅.
Proof.
  pose proof (hi_depth _ _ _ Ht) as Hd.
  assert (∀ t' P, ¬ at_pc (K := K) ∅ t' P) as Hno by (intros t' P (? & ? & E & _); by rewrite lookup_empty in E).
  assert (∀ s s' x, own_code w s x → own_code w s' x → s = s') as Hdisj.
  { intros s s' x Q1%start_own Q2%start_own. congruence. }
  assert (∀ s j l, locks w !! (s, j) = Some l → l = ver_new ∧ is_Some (live_buckets t !! (s, j))) as Hlk.
  { intros s j l. simpl. rewrite lookup_fmap. intros (b & Hb & ->)%fmap_Some. by split. }
  constructor.
  - intros t' x Hx. by apply Hno in Hx.
  - intros t' t2 x Hx. by apply Hno in Hx.
  - intros t' Hx. by apply Hno in Hx.
  - intros t' t2 Hx. by apply Hno in Hx.
  - intros _. split; [unfold kMaxDirDepth; simpl; lia|]. exists (ht_dir t). split; [simpl; by rewrite lookup_singleton_eq|]. split; [apply (hi_dir _ _ _ Ht)|].
    intros i s Hs. pose proof (nthZ_Some _ _ _ Hs) as Hi. rewrite (hi_dir _ _ _ Ht) in Hi.
    destruct (hi_entry _ _ _ Ht i Hi) as (s' & l & ld & He & Hld & Hseg). assert (s' = s) as -> by (destruct He; congruence).
    exists (i mod 2 ^ ld), ld. split; [apply start_owner; by exists i, l|]. split; [simpl; lia|done].
  - intros s pat ld Hs. pose proof Hs as Hs2. apply start_owner in Hs2 as (i & l & Hi & He & Hld & Hseg & ->).
    split; [unfold kMaxDirDepth; lia|]. split; [apply Z.mod_pos_bound, Z.pow_pos_nonneg; lia|]. intros j Hj.
    destruct (owner_bucket s _ ld j Hs Hj) as (b & Hlive & _ & Q1 & Q2).
    split; [simpl; rewrite lookup_fmap, Hlive; by eexists|]. exists b. split; [done|]. split; [done|by left].
  - done.
  - intros s j b Hb. destruct (start_bucket s j b Hb) as (i & l & ld & _ & [_ Hl] & _ & _ & [h1 h2 h3 h4 _] & _).
    apply nthZ_Some in Hl. split; [simpl; lia|]. split; [done|]. split; [done|]. split; [done|]. intros i' Hi'. apply start_used_spec.
    exists b. split; [done|]. split; [|done]. pose proof (cfg_slots cfg Hcfg). destruct (Z.lt_ge_cases i' 0); [by rewrite Z.testbit_neg_r in Hi'|].
    destruct (Z.lt_ge_cases i' ns); [lia|]. by rewrite (testbit_above _ ns) in Hi' by lia.
  - intros s j l Hl. apply Hlk in Hl as [_ [b Hb]]. destruct (start_bucket s j b Hb) as (i & l' & ld & _ & [_ Hl'] & _).
    apply nthZ_Some in Hl'. simpl. lia.
  - intros s j i Hu. apply start_used_spec in Hu as (b & Hb & _ & Hbit). exists b. split; [done|].
    destruct (start_bucket s j b Hb) as (_ & _ & _ & _ & _ & _ & _ & Hwf & _). destruct (wb_slot _ _ _ Hwf i Hbit) as (p & r & Hs).
    pose proof Hs as (_ & Hkv & _). apply nthZ_Some in Hkv. rewrite (wb_kvs _ _ _ Hwf) in Hkv. split; [done|]. right. exists (kv_key r), p.
    apply start_full. by exists b, r.
  - intros s j i k p Hf. destruct (start_full_own s j i k p Hf) as (E1 & E2 & Ho). split; [done|]. split; [done|by left].
  - apply start_uniq.
  - intros k p Hk. apply Hm in Hk as (s & l & [Hd2 Hl] & b & Hb & i & r & Hs & Hkr). exists s, i. apply start_full. exists b, r.
    split; [|done]. apply live_bucket. split; [|by exists l].
    by eapply nthZ_elem_of.
  - intros s j Hs Hj _. by apply start_settled.
  - intros d l. simpl. intros [<- <-]%lookup_singleton_Some. split; [lia|]. intros s Hs. destruct (the_seg s Hs) as (i & l & ld & Hi & He & Hld & Hseg & _).
    apply elem_of_dom. exists (i mod 2 ^ ld, ld). apply start_owner. by exists i, l.
  - intros x [b Hb]. simpl in *. rewrite lookup_fmap, Hb. by eexists.
  - intros [s j] l Hl Hk. apply Hlk in Hl as [-> _]. by rewrite ver_new_free in Hk.
  - simpl. by rewrite ver_new_free.
Qed.

Lemma conc_start_inv : inv cfg heap w ∅.
Proof. split; [apply start_glob|]. intros t' o q E. by rewrite lookup_empty in E. Qed.
End start.
