(* ===== verification/ConcMain.v ===== *)
(** * Properties of the concurrent hash table

    Every execution is one of the atomic map, no thread faults, the threads never
    wait for each other in a circle, and what the threads have done is seen by a
    lookup that runs alone. *)

From S2P Require Export ConcSpec.

Section main.
Context `{UtilSpec} `{DenseSpec} `{SimdSpec} `{VerLockSpec} {K : Type} `{Countable K} `{HashFnSpec K}.
Variable cfg : HashConfig.
Variable heap : gmap Z (KVPair K).
Implicit Types (w : world K) (ps : gmap Z (table_op K * pc)) (o : table_op K) (q : pc) (m : gmap K Z) (c : ctable).

(** ** Simulation *)

(** The specification is where the threads are. *)
Definition simulates (s : config) (a : atomic_config) : Prop :=
  ∃ w, wc w = s.1 ∧ inv cfg heap w s.2 ∧ a = (wm w, abs_thread <$> s.2).

(** Only these steps wait. *)
Definition may_wait (q : pc) : Prop :=
  match q with PStart | PShared _ _ | PLock _ _ _ _ | SLock _ _ _ _ _ | SDirLock _ _ _ | PDone _ | PFault => True | _ => False end.

(** A lookup that is the only thread: what it has read is still so. *)
Definition alone c (key : K) (q : pc) : Prop :=
  match q with
  | PStart => True
  | PDir vd | PDepth vd _ | PChanged vd _ _ | PEntry vd _ _ | PShared vd _ => ver_version (ct_lock c) = vd
  | PValid vd sid v => ver_version (ct_lock c) = vd ∧
      ∃ l, ct_locks c !! (sid, bucket_index (hash_fn key) (kNBucketInSegment cfg)) = Some l ∧ ver_version l = v
  | PMask (Shared v) sid _ _ | PScan (Shared v) sid _ | PEnd sid v =>
      ∃ l, ct_locks c !! (sid, bucket_index (hash_fn key) (kNBucketInSegment cfg)) = Some l ∧ ver_version l = v
  | _ => False
  end.

(** How many steps it has left, at most. *)
Definition steps_left (q : pc) : Z :=
  match q with
  | PStart => 2 ^ 48 + 107
  | PDir _ => 2 ^ 48 + 106
  | PDepth _ _ => 2 ^ 48 + 105
  | PChanged _ _ _ => 2 ^ 48 + 104
  | PEntry _ _ _ => 2 ^ 48 + 103
  | PShared _ _ => 2 ^ 48 + 102
  | PValid _ _ _ => 2 ^ 48 + 101
  | PMask _ _ None _ => 2 ^ 48 + 100
  | PMask _ _ _ tags => 2 ^ 48 + 50 - lenZ tags
  | PScan _ _ mask => 1 + mask
  | _ => 0
  end.

Definition locks_free c : Prop :=
  ver_locked (ct_lock c) = false ∧ ∀ x l, ct_locks c !! x = Some l → ver_locked l = false.

Hypothesis Hcfg : wf_config cfg.

Lemma sim_step s e s' a : conc_step cfg heap s e s' → simulates s a →
  ∃ a', run (atomic_step heap) a (option_list e) a' ∧ simulates s' a'.
Proof.
  intros Hst (w & Hw & Hinv & ->). destruct Hst as [c ps t o Hps Hleg|c ps t o q c' q' Hps Hq|c ps t o q Hps Hq|c ps t o r Hps]; simpl in *; subst c.
  - exists (wm w, abs_thread <$> <[t := (o, PStart)]> ps). split.
    + rewrite <-(app_nil_r [_]). eapply (run_step _ _ (Some (Call t o)) _ []); [|constructor]. rewrite fmap_insert. constructor; [|done].
      by rewrite lookup_fmap, Hps.
    + exists w. split; [done|]. split; [by apply call_inv|done].
  - pose proof (step_good cfg Hcfg heap w ps t o q Hinv Hps) as Hg. rewrite Hq in Hg. destruct Hg as (w' & Hw' & Hinv' & Heff).
    exists (wm w', abs_thread <$> <[t := (o, q')]> ps). split; [|by exists w'].
    unfold effect in Heff. rewrite fmap_insert.
    assert (wm w' = wm w → decided q' = decided q →
      run (atomic_step heap) (wm w, abs_thread <$> ps) [] (wm w', <[t := abs_thread (o, q')]> (abs_thread <$> ps))) as Hsame.
    { intros -> E. rewrite insert_id; [constructor|]. rewrite lookup_fmap, Hps. unfold abs_thread. simpl. by rewrite E. }
    destruct (decided q) as [r|] eqn:Ed; [apply Hsame; [apply Heff|]; by destruct Heff|].
    destruct Heff as [[Em Ed']|(r & Eop & Ed')]; [by apply Hsame; [|congruence]|].
    eapply (run_step _ _ None ((atomic_op heap (wm w) o).1, <[t := Finished (atomic_op heap (wm w) o).2]> (abs_thread <$> ps)) []).
    + apply as_effect. rewrite lookup_fmap, Hps. unfold abs_thread. simpl. by rewrite Ed.
    + rewrite Eop. unfold abs_thread. simpl. rewrite Ed'. constructor.
  - pose proof (step_good cfg Hcfg heap w ps t o q Hinv Hps) as Hg. by rewrite Hq in Hg.
  - exists (wm w, abs_thread <$> delete t ps). split.
    + rewrite <-(app_nil_r [_]). eapply (run_step _ _ (Some (Return t r)) _ []); [|constructor]. rewrite fmap_delete. constructor.
      by rewrite lookup_fmap, Hps.
    + exists w. split; [done|]. split; [by apply (return_inv cfg heap w ps t o r)|done].
Qed.

Lemma run_app {S E : Type} (step : S → option E → S → Prop) s tr s' tr' s'' :
  run step s tr s' → run step s' tr' s'' → run step s (tr ++ tr') s''.
Proof. induction 1 as [|s e s1 tr1 s2 Hst _ IH]; [done|]. intros Hr. rewrite <-app_assoc. eapply run_step; [done|by apply IH]. Qed.

Lemma sim_run s tr s' a : run (conc_step cfg heap) s tr s' → simulates s a →
  ∃ a', run (atomic_step heap) a tr a' ∧ simulates s' a'.
Proof.
  intros Hr. revert a. induction Hr as [s|s e s1 tr s2 Hst _ IH]; intros a Hsim; [exists a; split; [constructor|done]|].
  destruct (sim_step _ _ _ _ Hst Hsim) as (a1 & Hr1 & Hsim1). destruct (IH a1 Hsim1) as (a2 & Hr2 & Hsim2).
  exists a2. split; [by apply (run_app _ _ _ a1)|done].
Qed.

(** What holds in every state that the threads reach. *)
Lemma reached t m tr c ps : ht_inv cfg heap t → table_rel cfg heap t m → run (conc_step cfg heap) (conc_of t, ∅) tr (c, ps) →
  ∃ w, wc w = c ∧ inv cfg heap w ps ∧ run (atomic_step heap) (m, ∅) tr (wm w, abs_thread <$> ps).
Proof.
  intros Ht Hm Hr. destruct (sim_run _ _ _ (m, ∅) Hr) as (a & Hra & w & Hw & Hinv & ->).
  - exists (start_world t m). split; [done|]. split; [by apply conc_start_inv|]. simpl. by rewrite fmap_empty.
  - by exists w.
Qed.


(** ** Waiting *)

Abbreviation nb := (kNBucketInSegment cfg).
Abbreviation locks w := (ct_locks (wc w)).

Lemma no_wait c o q : thread_step cfg heap o c q = Blocked → may_wait q.
Proof.
  destruct q; try done; cbn [thread_step]; intros Hb; exfalso; revert Hb.
  all: unfold assert_locked, unlock_bucket, on_bucket, check, on_hit, on_lock.
  all: repeat (unfold or_fault; match goal with |- context [match ?x with _ => _ end] => destruct x; try discriminate end).
Qed.

(** What a thread waits for; with locks of a segment it waits only for the next one. *)
Lemma blocked_cases w o q : thread_step cfg heap o (wc w) q = Blocked → q ≠ PFault →
  (∃ r, q = PDone r) ∨ (ver_locked (ct_lock (wc w)) = true ∧ ¬ in_dir q) ∨
  ∃ x l, locks w !! x = Some l ∧ ver_locked l = true ∧ ¬ in_dir q ∧ x.2 < nb ∧
    ∀ y, holds cfg (op_key o) q y → y.1 = x.1 ∧ y.2 < x.2.
Proof.
  intros Hb Hf. pose proof (no_wait _ _ _ Hb) as Hw. pose proof (bidx_ok cfg Hcfg (op_key o)) as Hj.
  assert (∀ sid j q', lock_bucket (wc w) sid j q' = Blocked → ∃ l, locks w !! (sid, j) = Some l ∧ ver_locked l = true) as Hlb.
  { intros sid j q'. unfold lock_bucket, on_lock. destruct (locks w !! (sid, j)) as [l|]; [|done]. simpl.
    destruct (ver_locked l) eqn:E; [|done]. intros _. by exists l. }
  destruct q; try done; cbn [thread_step] in Hb.
  - right. left. unfold lock_shared in Hb. destruct (ver_locked _); [by split; [|intros []]|done].
  - right. right. unfold on_lock in Hb. destruct (locks w !! _) as [l|] eqn:E; [|done]. simpl in Hb. unfold lock_shared in Hb.
    destruct (ver_locked l) eqn:El; [|done]. eexists _, l. split; [done|]. split; [done|]. split; [by intros []|]. split; [apply Hj|by intros y []].
  - right. right. apply Hlb in Hb as (l & E & El). eexists _, l. split; [done|]. split; [done|]. split; [by intros []|]. split; [apply Hj|by intros y []].
  - right. right. destruct (Z.ltb_spec j nb); [|done]. apply Hlb in Hb as (l & E & El). eexists _, l. split; [done|]. split; [done|].
    split; [by intros []|]. split; [done|]. intros y [-> ?]. simpl. split; [done|lia].
  - right. left. destruct (ver_locked _); [by split; [|intros []]|done].
  - left. by eexists.
Qed.

(** A thread that holds the lock of a bucket can go on, or waits for a bucket
    with a higher number; so some thread can go on. *)
Lemma someone_runs w ps : inv cfg heap w ps →
  (∃ t, dir_holder ps t) ∨ (∃ x l, locks w !! x = Some l ∧ ver_locked l = true) →
  ∃ t o q, ps !! t = Some (o, q) ∧ thread_step cfg heap o (wc w) q ≠ Blocked.
Proof.
  intros Hinv Hlk. pose proof (the_glob cfg heap w ps Hinv) as Hgl. pose proof (proj2 Hcfg) as Hnb.
  assert (∀ t o q, ps !! t = Some (o, q) → q ≠ PFault) as Hnf by (intros t o q Hq ->; by destruct (the_tinv cfg heap w ps t o _ Hinv Hq) as [_ []]).
  assert ((∃ t, dir_holder ps t) → ∃ t o q, ps !! t = Some (o, q) ∧ thread_step cfg heap o (wc w) q ≠ Blocked) as Hdir.
  { intros (t & o & q & Hq & Hd). exists t, o, q. split; [done|]. intros Hb.
    destruct (blocked_cases w o q Hb (Hnf _ _ _ Hq)) as [[r ->]|[[_ ?]|(x & l & _ & _ & ? & _)]]; done. }
  destruct Hlk as [Hd|(x & l & Hl & Hk)]; [by apply Hdir|].
  assert (∀ n x l, locks w !! x = Some l → ver_locked l = true → nb - x.2 ≤ Z.of_nat n →
    ∃ t o q, ps !! t = Some (o, q) ∧ thread_step cfg heap o (wc w) q ≠ Blocked) as Hmain.
  { clear x l Hl Hk. induction n as [|n IH]; intros x l Hl Hk Hn; destruct (gl_holder _ _ _ _ Hgl x l Hl Hk) as (t & o & q & Hq & Hh).
    all: destruct (thread_step cfg heap o (wc w) q) eqn:Es; try (exists t, o, q; split; [done|by rewrite Es]).
    all: destruct (blocked_cases w o q Es (Hnf _ _ _ Hq)) as [[r ->]|[[Hdl _]|(y & l' & Hl' & Hk' & _ & Hy & Hord)]]; [done|by apply Hdir, Hgl|].
    all: destruct (Hord x Hh) as [_ Hlt]; try lia. apply (IH y l'); [done|done|lia]. }
  apply (Hmain (Z.to_nat (nb - x.2)) x l Hl Hk). lia.
Qed.

(** ** A lookup on its own *)

Lemma clear_bit_lt (x i : Z) : 0 ≤ x < 2 ^ 64 → 0 ≤ i < 64 → Z.testbit x i = true → clear_bit x i < x.
Proof.
  intros Hx Hi Hb. assert (clear_bit x i ≤ x) as Hle.
  { apply (Z.ldiff_le (clear_bit x i) x); [lia|]. apply Z.bits_inj'. intros j Hj.
    rewrite Z.ldiff_spec, clear_bit_testbit, Z.testbit_0_l by lia. destruct (Z.testbit x j); [by rewrite andb_false_r|done]. }
  assert (clear_bit x i ≠ x); [|lia]. intros E. pose proof (clear_bit_testbit x i i ltac:(lia) Hx) as E'.
  rewrite E, Hb, bool_decide_true in E' by done. done.
Qed.

Lemma alone_step w ps t key q :
  inv cfg heap w ps → ps !! t = Some (OLookup key, q) → locks_free (wc w) → alone (wc w) key q →
  ∃ q', thread_step cfg heap (OLookup key) (wc w) q = Next (wc w) q' ∧
    ((∃ r, q' = PDone r) ∨ alone (wc w) key q' ∧ 0 ≤ steps_left q' < steps_left q).
Proof.
  intros Hinv Hps [Hfd Hfb] Ha. pose proof (step_good cfg Hcfg heap w ps t (OLookup key) q Hinv Hps) as Hg.
  destruct (the_tinv cfg heap w ps t (OLookup key) q Hinv Hps) as [_ Ht]. pose proof (cfg_slots cfg Hcfg) as Hns.
  assert (2 ^ kNSlotInBucket cfg ≤ 2 ^ 48) as Hpow by (apply Z.pow_le_mono_r; lia).
  assert (∀ v, ver_version (ct_lock (wc w)) = v → ver_changed (ct_lock (wc w)) v = false) as Hdv by (intros v <-; by apply ver_changed_spec).
  destruct q as [|vd|vd d|vd d g|vd d g|vd sid|vd sid v| | |[v|] sid bm tags|[v|] sid mask| | |sid v| | | | | | | | | | | | | | | | | | | | | | | | | | | | |]; try done;
    cbn [alone thread_step] in Ha, Hg |- *; cbn [tinv] in Ht.
  - unfold lock_shared in *. rewrite Hfd in *. eexists. split; [done|]. right. split; [done|cbn [steps_left]; lia].
  - eexists. split; [done|]. right. split; [done|cbn [steps_left]; lia].
  - eexists. split; [done|]. right. split; [done|cbn [steps_left]; lia].
  - rewrite Hdv by done. eexists. split; [done|]. right. split; [done|cbn [steps_left]; lia].
  - destruct (entry_at _ _ _) as [sid|]; [|done]. eexists. split; [done|]. right. split; [done|cbn [steps_left]; lia].
  - unfold on_lock in *. destruct (ct_locks (wc w) !! _) as [l|] eqn:El; [|done]. cbn [or_fault] in *. unfold lock_shared in *.
    rewrite (Hfb _ _ El). eexists. split; [done|]. right. split; [split; [done|by exists l]|cbn [steps_left]; lia].
  - rewrite Hdv by apply Ha. eexists. split; [done|]. right. split; [apply Ha|cbn [steps_left]; lia].
  - destruct Ht as (_ & _ & _ & Hlen). assert (0 ≤ lenZ tags) as Hl0 by (unfold lenZ; lia). unfold on_bucket in *. destruct (ct_buckets (wc w) !! _) as [b|]; [|done]. cbn [or_fault] in *.
    unfold check in *. destruct (_ =? bk_index b); [|done]. destruct bm as [x|].
    + destruct (Z.ltb_spec (lenZ tags) (kNSlotInBucket cfg)) as [Hlt|_].
      * destruct (nthZ _ _) as [tg|]; [|done]. eexists. split; [done|]. right. split; [done|]. cbn [steps_left]. rewrite lenZ_app. change (lenZ [tg]) with 1. lia.
      * destruct Hg as (w' & Hw' & Hinv' & _). eexists. split; [done|]. right. split; [done|].
        assert (0 ≤ Z.land x (compare_equal cfg tags (bucket_tag (hash_fn key))) < 2 ^ kNSlotInBucket cfg) as Hmr.
        { destruct (the_tinv cfg heap w' _ t (OLookup key) _ Hinv' (lookup_insert_eq _ _ _)) as (_ & _ & _ & Hm & _). exact Hm. }
        cbn [steps_left op_key]. lia.
    + eexists. split; [done|]. right. split; [done|]. cbn [steps_left]. lia.
  - destruct Ht as (_ & _ & Hm). pose proof (proj1 Hm) as Hmr. destruct (Z.eqb_spec mask 0) as [->|Hnz].
    { eexists. split; [done|]. right. split; [done|cbn [steps_left]; lia]. }
    destruct (mask_bound cfg Hcfg heap w _ _ _ mask Hm Hnz) as (Hi & Hbit & Hm64).
    unfold on_bucket in *. destruct (ct_buckets (wc w) !! _) as [b|]; [|done]. cbn [or_fault] in *. destruct (nthZ _ _) as [old|]; [|done]. cbn [or_fault] in *.
    destruct (slot_hit _ _ _ _) as [[|]|]; [|cbn [or_fault] in *|done].
    + eexists. split; [done|]. left. by eexists.
    + eexists. split; [done|]. right. split; [done|]. cbn [steps_left]. pose proof (clear_bit_lt mask _ Hm64 Hi Hbit).
      pose proof (clear_bit_range mask _ Hm64 Hi). lia.
  - destruct Ha as (l & Hl & Hv). unfold on_lock in *. cbn [op_key] in *. rewrite Hl in *. cbn [or_fault] in *.
    assert (ver_changed l v = false) as -> by (apply ver_changed_spec; split; [by apply (Hfb _ l Hl)|done]).
    eexists. split; [done|]. left. by eexists.
Qed.

Lemma alone_run n w ps t key q :
  inv cfg heap w (<[t := (OLookup key, q)]> ps) → locks_free (wc w) → alone (wc w) key q → steps_left q ≤ Z.of_nat n →
  ∃ k, run_schedule cfg heap (replicate k t) (wc w, <[t := (OLookup key, q)]> ps) =
    Some (wc w, <[t := (OLookup key, PDone (default kNotFound (wm w !! key)))]> ps).
Proof.
  revert w q. induction n as [|n IH]; intros w q Hinv Hfree Ha Hn;
    destruct (alone_step w (<[t := (OLookup key, q)]> ps) t key q Hinv (lookup_insert_eq _ _ _) Hfree Ha) as (q' & Hst & Hcase);
    pose proof (step_good cfg Hcfg heap w _ t _ q Hinv (lookup_insert_eq _ _ _)) as Hg; rewrite Hst in Hg;
    destruct Hg as (w' & Hw' & Hinv' & Heff); rewrite insert_insert_eq in Hinv'.
  all: assert (decided q = None) as Hd by (clear -Ha; destruct q; try done; by destruct Ha).
  all: unfold effect in Heff; rewrite Hd in Heff.
  all: assert (run_schedule cfg heap [t] (wc w, <[t := (OLookup key, q)]> ps) = Some (wc w, <[t := (OLookup key, q')]> ps)) as Hone
    by (cbn [run_schedule fst snd]; rewrite lookup_insert_eq; cbn [mbind option_bind]; rewrite Hst; by rewrite insert_insert_eq).
  all: destruct Hcase as [[r ->]|[Ha' Hlt]].
  1, 3: exists 1%nat; cbn [replicate]; rewrite Hone; destruct Heff as [[_ ?]|(r' & Heq & [= <-])]; [done|]; by injection Heq as _ <-.
  - lia.
  - assert (wm w' = wm w) as Em.
    { destruct Heff as [[? _]|(r & Heq & Hr)]; [done|]. by injection Heq as <- _. }
    destruct (IH w' q' Hinv') as [k Hk]; [by rewrite Hw'|by rewrite Hw'|lia|]. rewrite Hw', Em in Hk.
    exists (S k). cbn [replicate]. cbn [run_schedule fst snd] in Hone |- *. rewrite lookup_insert_eq in Hone |- *. cbn [mbind option_bind] in Hone |- *.
    rewrite Hst, insert_insert_eq. exact Hk.
Qed.
End main.

(** A schedule is an execution. *)
Lemma schedule_run `{Util} `{Dense} `{Simd} `{VerLock} {K : Type} `{Countable K} `{HashFn K} cfg (heap : gmap Z (KVPair K)) ts (s s' : config) :
  run_schedule cfg heap ts s = Some s' → run (conc_step cfg heap) s [] s'.
Proof.
  revert s. induction ts as [|t ts IH]; intros [c ps]; cbn [run_schedule fst snd]; [intros [= <-]; constructor|].
  destruct (ps !! t) as [[o q]|] eqn:Hps; [|done]. cbn [mbind option_bind]. destruct (thread_step cfg heap o c q) as [c' q'| | |] eqn:Hst; try done.
  intros Hr%IH. by apply (run_step _ _ None _ [] _ (cs_run _ _ _ _ _ _ _ _ _ Hps Hst)).
Qed.

(** ** Properties *)

Section claims.
Context `{UtilSpec} `{DenseSpec} `{SimdSpec} `{VerLockSpec} {K : Type} `{Countable K} `{HashFnSpec K}.
Variable cfg : HashConfig.
Hypothesis Hcfg : store_config cfg.
Variable heap : gmap Z (KVPair K).
Variable t : HashTable.
Variable m : gmap K Z.
Hypothesis Ht : ht_inv cfg heap t.
Hypothesis Hm : table_rel cfg heap t m.

(** C2: the concurrent hash table is linearizable.  Threads call lookup, update
    and upsert on a table that represents the map [m] and are interleaved in any
    way: what they call and what the calls return, in this order, is an execution
    of the map in which each call takes effect at one moment between its call and
    its return.  That holds with every retry, with splits and doublings of the
    directory, and with updates and lookups that take no lock. *)
Theorem table_linearizable tr c ps :
  run (conc_step cfg heap) (conc_of t, ∅) tr (c, ps) →
  ∃ m', run (atomic_step heap) (m, ∅) tr (m', abs_thread <$> ps).
Proof.
  intros Hr. destruct (reached cfg heap (proj1 Hcfg) t m tr c ps Ht Hm Hr) as (w & _ & _ & Ha). by exists (wm w).
Qed.

(** C6: no thread faults, however the threads are interleaved: no assert fails,
    no bucket, slot or entry that does not exist is accessed, no null pointer or
    pointer to a record that does not exist is followed. *)
Theorem table_no_fault tr c ps t' o q :
  run (conc_step cfg heap) (conc_of t, ∅) tr (c, ps) → ps !! t' = Some (o, q) →
  q ≠ PFault ∧ thread_step cfg heap o c q ≠ Fault.
Proof.
  intros Hr Hq. destruct (reached cfg heap (proj1 Hcfg) t m tr c ps Ht Hm Hr) as (w & <- & Hinv & _). split.
  - intros ->. by destruct (the_tinv cfg heap w ps t' o _ Hinv Hq) as [_ []].
  - intros E. pose proof (step_good cfg (proj1 Hcfg) heap w ps t' o q Hinv Hq) as Hg. by rewrite E in Hg.
Qed.

(** C10: the threads never all wait.  As long as a call is running, some thread
    can take its next step, or ends because there is no memory for the directory. *)
Theorem table_progress tr c ps t' o q :
  run (conc_step cfg heap) (conc_of t, ∅) tr (c, ps) → ps !! t' = Some (o, q) → decided q = None →
  ∃ t2 o2 q2, ps !! t2 = Some (o2, q2) ∧
    ((∃ c' q', thread_step cfg heap o2 c q2 = Next c' q') ∨ thread_step cfg heap o2 c q2 = Terminate).
Proof.
  intros Hr Hq Hd. destruct (reached cfg heap (proj1 Hcfg) t m tr c ps Ht Hm Hr) as (w & <- & Hinv & _).
  assert (∃ t2 o2 q2, ps !! t2 = Some (o2, q2) ∧ thread_step cfg heap o2 (wc w) q2 ≠ Blocked) as (t2 & o2 & q2 & Hq2 & Hnb).
  { destruct (thread_step cfg heap o (wc w) q) eqn:E; try (exists t', o, q; split; [done|by rewrite E]).
    destruct (blocked_cases cfg heap (proj1 Hcfg) w o q E) as [[r ->]|[[Hl _]|(x & l & Hl & Hk & _)]]; [|done| |].
    - intros ->. by destruct (the_tinv cfg heap w ps t' o _ Hinv Hq) as [_ []].
    - apply (someone_runs cfg heap (proj1 Hcfg) w ps Hinv). left. by apply (gl_dirholder _ _ _ _ (the_glob cfg heap w ps Hinv)).
    - apply (someone_runs cfg heap (proj1 Hcfg) w ps Hinv). right. by exists x, l. }
  exists t2, o2, q2. split; [done|]. pose proof (step_good cfg (proj1 Hcfg) heap w ps t2 o2 q2 Hinv Hq2) as Hg.
  destruct (thread_step cfg heap o2 (wc w) q2) as [c' q'| | |]; [left; by eexists _, _|done|done|by right].
Qed.

(** C12: whenever no lock is held, a lookup that runs alone ends after finitely
    many steps, changes nothing and returns the record of its key in the map that
    the calls before it have left. *)
Theorem lookup_alone tr c ps t' key :
  run (conc_step cfg heap) (conc_of t, ∅) tr (c, ps) → locks_free c → ps !! t' = None →
  ∃ m' n, run (atomic_step heap) (m, ∅) tr (m', abs_thread <$> ps) ∧
    run_schedule cfg heap (replicate n t') (c, <[t' := (OLookup key, PStart)]> ps) =
      Some (c, <[t' := (OLookup key, PDone (default kNotFound (m' !! key)))]> ps).
Proof.
  intros Hr Hf Hn. destruct (reached cfg heap (proj1 Hcfg) t m tr c ps Ht Hm Hr) as (w & <- & Hinv & Ha).
  destruct (alone_run cfg heap (proj1 Hcfg) (Z.to_nat (steps_left PStart)) w ps t' key PStart) as [n Hrun]; [|done|done|lia|].
  { by apply (call_inv cfg heap w ps t' (OLookup key) Hn I Hinv). }
  by exists (wm w), n.
Qed.
End claims.

(** ** Two threads *)

(** Thread 1 stores the record 100 of the key 5 while thread 2, which has already
    read the bitmap, looks for it. *)
Definition two_threads : config := (conc_of example_table, <[2 := (OLookup 5, PStart)]> (<[1 := (OUpsert 5 100, PStart)]> ∅)).
Definition interleaved : list Z := replicate 25 2 ++ replicate 30 1 ++ replicate 28 2.
Definition two_done : config := default two_threads (run_schedule small_config example_heap interleaved two_threads).
Definition two_calls : list event := [Call 1 (OUpsert 5 100); Call 2 (OLookup 5)].

Lemma small_store_config : store_config small_config.
Proof. split; [apply small_config_wf|done]. Qed.

Lemma two_called : run (conc_step small_config example_heap) (conc_of example_table, ∅) two_calls two_threads.
Proof.
  apply (run_step _ _ (Some (Call 1 (OUpsert 5 100))) (conc_of example_table, <[1 := (OUpsert 5 100, PStart)]> ∅) [Call 2 (OLookup 5)]).
  { apply cs_call; [done|]. split; [lia|]. exists (example_kv 5 0). split; reflexivity. }
  apply (run_step _ _ (Some (Call 2 (OLookup 5))) two_threads []); [|constructor]. apply cs_call; [by rewrite lookup_insert_ne|exact I].
Qed.

Lemma two_finished : run_schedule small_config example_heap interleaved two_threads = Some two_done.
Proof. vm_cast_no_check (eq_refl (Some two_done)). Qed.

Lemma two_ran : run (conc_step small_config example_heap) (conc_of example_table, ∅) two_calls two_done.
Proof. rewrite <-(app_nil_r two_calls). apply (run_app _ _ _ two_threads); [apply two_called|apply (schedule_run _ _ interleaved), two_finished]. Qed.

(** Both threads have returned: thread 2 found the record. *)
Lemma two_returned : run (conc_step small_config example_heap) (conc_of example_table, ∅)
  (two_calls ++ [Return 1 kNotFound; Return 2 100]) (two_done.1, delete 2 (delete 1 two_done.2)).
Proof.
  apply (run_app _ _ _ two_done); [apply two_ran|]. rewrite (surjective_pairing two_done) at 1.
  apply (run_step _ _ (Some (Return 1 kNotFound)) (two_done.1, delete 1 two_done.2) [Return 2 100]).
  { apply (cs_return _ _ _ _ _ (OUpsert 5 100)). vm_cast_no_check (eq_refl (Some (OUpsert 5 100, PDone kNotFound))). }
  apply (run_step _ _ (Some (Return 2 100)) (two_done.1, delete 2 (delete 1 two_done.2)) []); [|constructor].
  apply (cs_return _ _ _ _ _ (OLookup 5)). vm_cast_no_check (eq_refl (Some (OLookup 5, PDone 100))).
Qed.

Lemma two_free : locks_free two_done.1.
Proof.
  split; [vm_cast_no_check (eq_refl false)|]. apply map_Forall_lookup.
  apply (bool_decide_unpack (map_Forall (λ _ l, ver_locked l = false) (ct_locks two_done.1))). vm_cast_no_check I.
Qed.

Lemma table_linearizable_witness :
  ∃ m', run (atomic_step example_heap) (∅, ∅) (two_calls ++ [Return 1 kNotFound; Return 2 100])
    (m', abs_thread <$> delete 2 (delete 1 two_done.2)).
Proof.
  destruct (example_table_ok example_heap) as [Hi Hr].
  exact (table_linearizable small_config small_store_config example_heap example_table ∅ Hi Hr _ _ _ two_returned).
Defined.

Lemma table_no_fault_witness : PStart ≠ PFault ∧ thread_step small_config example_heap (OLookup 5) (conc_of example_table) PStart ≠ Fault.
Proof.
  destruct (example_table_ok example_heap) as [Hi Hr].
  exact (table_no_fault small_config small_store_config example_heap example_table ∅ Hi Hr _ _ _ 2 (OLookup 5) PStart two_called eq_refl).
Defined.

Lemma table_progress_witness : ∃ t o q, two_threads.2 !! t = Some (o, q) ∧
  ((∃ c' q', thread_step small_config example_heap o (conc_of example_table) q = Next c' q') ∨
   thread_step small_config example_heap o (conc_of example_table) q = Terminate).
Proof.
  destruct (example_table_ok example_heap) as [Hi Hr].
  exact (table_progress small_config small_store_config example_heap example_table ∅ Hi Hr _ _ _ 2 (OLookup 5) PStart two_called eq_refl eq_refl).
Defined.

Lemma lookup_alone_witness :
  ∃ m' n, run (atomic_step example_heap) (∅, ∅) two_calls (m', abs_thread <$> two_done.2) ∧
    run_schedule small_config example_heap (replicate n 3) (two_done.1, <[3 := (OLookup 5, PStart)]> two_done.2) =
      Some (two_done.1, <[3 := (OLookup 5, PDone (default kNotFound (m' !! 5)))]> two_done.2).
Proof.
  destruct (example_table_ok example_heap) as [Hi Hr]. pose proof two_ran as Hrun. rewrite (surjective_pairing two_done) in Hrun.
  assert (two_done.2 !! 3 = None) as Hn by (vm_cast_no_check (eq_refl (@None (table_op Z * pc)))).
  exact (lookup_alone small_config small_store_config example_heap example_table ∅ Hi Hr _ _ _ 3 5 Hrun two_free Hn).
Defined.
