(* ===== verification/HashStore.v ===== *)
(** * The key-value store (store/hash-store.h)

    The records live in regions of the allocator, the index in memory.  An
    update writes a new record with a new version, and the old one is retired:
    after a grace period it goes to a limbo list of a thread, where a later
    write may reuse it.  Closing the store unloads the index to persistent
    memory; opening it loads the index, or rebuilds it from the records. *)

From S2P Require Export Slab HashTable.
Import Pmem.

(** ** Definitions *)

Definition HashStoreConfig : HashConfig := {|
  kOptUpdate := true; kTimeStamp := true; kNSlotInBucket := 48; kNBucketInSegment := 64;
  kInitDepth := 4 |}.
Definition kWriteOpt : bool := true.
Definition kWrtOptMaxSize : Z := 2048.
Definition kMaxLimboSize : Z := 1024.
Definition kReclaimTomb : Z := Z.shiftl 1 30.

(** The structures that the destructor leaves in persistent memory. *)
Record PersistHead := { ph_depth : Z; ph_tomb_size : Z; ph_dir : Z; ph_ver : Z }.
Record PersistBucket := {
  pb_bitmap : Z;
  pb_depth : Z;
  pb_index : Z;
  pb_bucket_tags : list Z;
  pb_slot_tags : list Z;
  pb_kvs : list Z;
}.
Definition sizeof_PersistHead : Z := 32.
Definition sizeof_PersistBucket (n : Z) : Z := 8 + n + 2 * n + 8 * n.

(** A function passed to [retire]. *)
Inductive closure := SlabRelease (ptr : Z) | LimboRelease (ptr : Z).

Definition ThreadLimbo : Type := list (list Z).

Record hs_st `{Dense} (K : Type) := {
  hs_slab : alloc_st;
  hs_index : HashTable;
  hs_heap : gmap Z (KVPair K);        (* the records, by address *)
  hs_tomb : Z;
  hs_version : list Z;
  hs_retired : list closure;          (* what the epoch holds back *)
  hs_limbos : gmap Z ThreadLimbo;     (* the ThreadLimbo objects that exist *)
  hs_limbo_next : Z;                  (* the number of the next one *)
  hs_tsd : gmap Z Z;                  (* tsd_: thread, limbo *)
  hs_local : gmap Z Z;                (* thread_local local.limbo, once set for this store *)
  hs_phead : gmap Z PersistHead;
  hs_pdir : gmap Z (list Z);
  hs_pver : gmap Z (list Z);
  hs_pseg : gmap Z (list PersistBucket);
}.
Arguments hs_slab {_ K}.
Arguments hs_index {_ K}.
Arguments hs_heap {_ K}.
Arguments hs_tomb {_ K}.
Arguments hs_version {_ K}.
Arguments hs_retired {_ K}.
Arguments hs_limbos {_ K}.
Arguments hs_limbo_next {_ K}.
Arguments hs_tsd {_ K}.
Arguments hs_local {_ K}.
Arguments hs_phead {_ K}.
Arguments hs_pdir {_ K}.
Arguments hs_pver {_ K}.
Arguments hs_pseg {_ K}.

Section setters.
Context `{Dense} {K : Type}.
Definition eta_hs (s : hs_st K) : hs_st K := {|
  hs_slab := hs_slab s; hs_index := hs_index s; hs_heap := hs_heap s; hs_tomb := hs_tomb s;
  hs_version := hs_version s; hs_retired := hs_retired s; hs_limbos := hs_limbos s;
  hs_limbo_next := hs_limbo_next s; hs_tsd := hs_tsd s; hs_local := hs_local s;
  hs_phead := hs_phead s; hs_pdir := hs_pdir s; hs_pver := hs_pver s; hs_pseg := hs_pseg s |}.
Definition set_hs_slab := ltac:(setter eta_hs (@hs_slab H K)).
Definition set_hs_index := ltac:(setter eta_hs (@hs_index H K)).
Definition set_hs_heap := ltac:(setter eta_hs (@hs_heap H K)).
Definition set_hs_tomb := ltac:(setter eta_hs (@hs_tomb H K)).
Definition set_hs_version := ltac:(setter eta_hs (@hs_version H K)).
Definition set_hs_retired := ltac:(setter eta_hs (@hs_retired H K)).
Definition set_hs_limbos := ltac:(setter eta_hs (@hs_limbos H K)).
Definition set_hs_limbo_next := ltac:(setter eta_hs (@hs_limbo_next H K)).
Definition set_hs_tsd := ltac:(setter eta_hs (@hs_tsd H K)).
Definition set_hs_local := ltac:(setter eta_hs (@hs_local H K)).
Definition set_hs_phead := ltac:(setter eta_hs (@hs_phead H K)).
Definition set_hs_pdir := ltac:(setter eta_hs (@hs_pdir H K)).
Definition set_hs_pver := ltac:(setter eta_hs (@hs_pver H K)).
Definition set_hs_pseg := ltac:(setter eta_hs (@hs_pseg H K)).
End setters.

Section store.
Context `{Util} `{UnorderedMap} `{Dense} `{Simd} {K : Type} `{EqDecision K} `{HashFn K}.
Variable cfg : HashConfig.
Variable N : Z.                    (* entries of the version table *)
Variable sizeof_KVPair : Z.
Variable key_len : K → Z.          (* key.len of a String, 0 for an integer *)
Variable zero_key : K.             (* the key of a region that was never written *)

Abbreviation st := (hs_st K).

Definition slabm {A} (m : M alloc_st A) : M st A := mzoom hs_slab set_hs_slab m.
Definition idx {A} (m : gmap Z (KVPair K) → M HashTable A) : M st A :=
  h ← mgets hs_heap; mzoom hs_index set_hs_index (m h).

Definition zero_kv : KVPair K := Build_KVPair 0 zero_key 0 [].
Definition kv_at (s : st) (p : Z) : KVPair K := default zero_kv (hs_heap s !! p).

(** A store through a [KVPair*]. *)
Definition kv_store (p : Z) (f : KVPair K → KVPair K) : M st unit :=
  if p =? nullptr then merr EUB
  else mmodify (λ s, set_hs_heap (<[p := f (kv_at s p)]> (hs_heap s)) s).
Definition kv_load (p : Z) : M st (KVPair K) :=
  if p =? nullptr then merr EUB else mgets (λ s, kv_at s p).
Definition kv_make (p : Z) (key : K) (value : option (list Z)) (vlen : Z) : M st unit :=
  kv ← kv_load p;
  kv ← make_kv kv key value vlen;
  kv_store p (λ _, kv).

(** The constructor, on a new allocator. *)
Definition HashStore_new (slab : alloc_st) (local : gmap Z Z) : res unit st :=
  match HashTable_new (S := unit) cfg (kInitDepth cfg) 0 tt with
  | Err e => Err e
  | Ok t _ => Ok {|
      hs_slab := slab; hs_index := t; hs_heap := ∅; hs_tomb := 0;
      hs_version := replicate (Z.to_nat N) 0; hs_retired := []; hs_limbos := ∅;
      hs_limbo_next := 0; hs_tsd := ∅; hs_local := local; hs_phead := ∅; hs_pdir := ∅;
      hs_pver := ∅; hs_pseg := ∅ |} tt
  end.

(** *** Limbo lists *)

Definition kLimboCount : Z := size2index_compute kWrtOptMaxSize + 1.

(** [thread_limbo()]: the number of the limbo of the thread. *)
Definition thread_limbo (tid : Z) : M st Z :=
  s ← mget;
  match hs_local s !! tid with
  | Some id => mret id
  | None =>
      match hs_tsd s !! tid with
      | Some id => mmodify (set_hs_local (<[tid := id]> (hs_local s))) ;; mret id
      | None =>
          let id := hs_limbo_next s in
          mmodify (λ s,
            set_hs_limbos (<[id := replicate (Z.to_nat kLimboCount) []]> (hs_limbos s))
              (set_hs_limbo_next (id + 1)
                 (set_hs_tsd (<[tid := id]> (hs_tsd s))
                    (set_hs_local (<[tid := id]> (hs_local s)) s)))) ;;
          mret id
      end
  end.

(** A method call on a limbo that has been deleted is undefined. *)
Definition load_limbo (id : Z) : M st ThreadLimbo :=
  l ← mgets hs_limbos; mderef (l !! id).
Definition store_limbo (id : Z) (l : ThreadLimbo) : M st unit :=
  mmodify (λ s, set_hs_limbos (<[id := l]> (hs_limbos s)) s).

Definition st_sc : M st SizeClass := mgets (λ s, rn_sc (as_run (al_arena (hs_slab s)))).

Definition limbo_release (tid ptr : Z) : M st unit :=
  id ← thread_limbo tid;
  l ← load_limbo id;
  massert (negb (ptr =? nullptr)) ;;
  len ← slabm (Alloc_region_size tid ptr);
  sc ← st_sc;
  ind ← size2index sc len;
  let list := default [] (nthZ l ind) in
  if (ind <? kLimboCount) && (lenZ list <? kMaxLimboSize) then
    store_limbo id (updZ l ind (list ++ [ptr]))
  else slabm (Alloc_release tid ptr).

(** [nullptr] when the list is empty. *)
Definition limbo_acquire (tid size : Z) : M st Z :=
  id ← thread_limbo tid;
  l ← load_limbo id;
  sc ← st_sc;
  ind ← size2index sc size;
  match (if ind <? kLimboCount then default [] (nthZ l ind) else []) with
  | ptr :: list => store_limbo id (updZ l ind list) ;; mret ptr
  | [] => mret nullptr
  end.

(** The destructor of [ThreadLimbo], run by the thread [tid]. *)
Definition limbo_close (tid id : Z) : M st unit :=
  l ← load_limbo id;
  mforeach (concat l) (λ ptr, slabm (Alloc_release tid ptr)) ;;
  mmodify (λ s, set_hs_limbos (delete id (hs_limbos s)) s).

(** *** The epoch (in the util submodule)

    [retire] holds a function back; when a function runs, and on which thread,
    is a choice of the epoch: [run_closure] is the step that runs the oldest. *)
Definition retire (ptr : Z) : M st unit :=
  let c := if kWriteOpt then LimboRelease ptr else SlabRelease ptr in
  mmodify (λ s, set_hs_retired (hs_retired s ++ [c]) s).
Definition run_closure (tid : Z) : M st unit :=
  l ← mgets hs_retired;
  match l with
  | [] => mret tt
  | c :: cs =>
      mmodify (set_hs_retired cs) ;;
      match c with
      | SlabRelease ptr => slabm (Alloc_release tid ptr)
      | LimboRelease ptr => limbo_release tid ptr
      end
  end.
(** [Epoch::clear] runs what is held back. *)
Definition epoch_clear (tid : Z) : M st unit :=
  l ← mgets hs_retired; mfor (length l) 0 (λ _, run_closure tid).

(** *** Operations *)

(** [version_[code % N]++]: the result is the old value. *)
Definition next_version (code : Z) : M st Z :=
  v ← mgets hs_version;
  if N =? 0 then merr EUB
  else
    old ← mderef (nthZ v (code mod N));
    mmodify (set_hs_version (updZ v (code mod N) (u64 (old + 1)))) ;;
    mret old.

(** Writing a record: into an expired object, or into a new region.  The
    write-backs in between are the subject of [RecordCrash]. *)
Definition write_record (tid : Z) (key : K) (value : option (list Z)) (vlen version : Z)
    (tomb : bool) : M st Z :=
  let kv_len := sizeof_KVPair + key_len key + vlen in
  kv ← limbo_acquire tid kv_len;
  if negb (kv =? nullptr) then
    kv_store kv invalidate ;;
    kv_make kv key value vlen ;;
    kv_store kv (set_control version tomb) ;;
    mret kv
  else
    obj ← slabm (Alloc_acquire tid kv_len);
    let kv := reg_pointer obj in
    kv_make kv key value vlen ;;
    kv_store kv (set_control version tomb) ;;
    slabm (exa (pm (region_publish obj true 0 true))) ;;
    mret kv.

Definition upsert (tid : Z) (key : K) (value : list Z) (vlen : Z) : M st bool :=
  let code := hash_code key in
  version ← next_version code;
  kv ← write_record tid key (Some value) vlen version false;
  old ← idx (λ h, HashTable_upsert cfg h kv code);
  if old =? kNotFound then mret true
  else
    let old := if old =? kExpired then kv else old in
    retire old ;; mret false.

Definition update (tid : Z) (key : K) (value : list Z) (vlen : Z) : M st bool :=
  let code := hash_code key in
  version ← next_version code;
  kv ← write_record tid key (Some value) vlen version false;
  old ← idx (λ h, HashTable_update cfg h kv code);
  if old =? kNotFound then
    (if kWriteOpt then limbo_release tid kv else slabm (Alloc_release tid kv)) ;;
    mret false
  else
    let old := if old =? kExpired then kv else old in
    retire old ;; mret true.

(** [nullptr] (that is [kNotFound]) when there is no record. *)
Definition lookup (key : K) : M st Z :=
  kv ← idx (λ h, HashTable_lookup cfg h key (hash_code key));
  if kv =? kNotFound then mret kNotFound
  else
    r ← kv_load kv;
    mret (if tombstone r then kNotFound else kv).

Definition remove (tid : Z) (key : K) : M st bool :=
  let code := hash_code key in
  version ← next_version code;
  kv ← write_record tid key None 0 version true;
  size ← slabm (Alloc_region_size tid kv);
  mmodify (λ s, set_hs_tomb (u64 (hs_tomb s + size)) s) ;;
  old ← idx (λ h, HashTable_upsert cfg h kv code);
  if old =? kNotFound then
    (if kWriteOpt then limbo_release tid kv else slabm (Alloc_release tid kv)) ;;
    mret false
  else
    let old := if old =? kExpired then kv else old in
    retire old ;; mret true.

Definition store_size : M st Z := mgets (λ s, HashTable_size (hs_index s)).
Definition used_pm_size : M st Z := slabm Alloc_used_size.

(** *** Closing *)

(** A store through a pointer that [acquire] has returned. *)
Definition check_pointer (p : Z) : M st unit := if p =? nullptr then merr EUB else mret tt.

(** [pb.bitmap], ... of a bucket; with [reclaim] the records that are
    tombstones are released and their bits cleared. *)
Definition unload_bucket (tid : Z) (reclaim : bool) (vb : HashBucket) : M st PersistBucket :=
  bitmap ← mfold (Z.to_nat (kNSlotInBucket cfg)) 0 (λ i bm,
    kv ← mderef (nthZ (bk_kvs vb) i);
    if reclaim && test_bit (bk_bitmap vb) i then
      r ← kv_load (dense_pointer kv);
      if tombstone r then
        slabm (Alloc_release tid (dense_pointer kv)) ;;
        mret (Z.land bm (u64 (Z.lnot (bit i))))
      else mret bm
    else mret bm) (wrap 48 (bk_bitmap vb));
  mret {| pb_bitmap := bitmap; pb_depth := bk_depth vb; pb_index := bk_index vb;
          pb_bucket_tags := bk_tags vb;
          pb_slot_tags := dense_remain <$> bk_kvs vb;
          pb_kvs := dense_pointer <$> bk_kvs vb |}.

Fixpoint unload_buckets (tid : Z) (reclaim : bool) (bs : list HashBucket)
    : M st (list PersistBucket) :=
  match bs with
  | [] => mret []
  | vb :: bs =>
      pb ← unload_bucket tid reclaim vb;
      pbs ← unload_buckets tid reclaim bs;
      mret (pb :: pbs)
  end.

(** [publish(false)] *)
Definition publish_volatile (obj : region_t) : M st unit :=
  slabm (exa (pm (region_publish obj false 0 true))).

(** The loop over the directory; [pdir] is the array being filled. *)
Definition unload_entry (tid : Z) (reclaim : bool) (sid : Z) (pdir : list Z) : M st (list Z) :=
  t ← mgets hs_index;
  massert (sid <? directory_size t) ;;
  '(_, vsegment) ← dir_segment t sid;
  depth ← segment_depth vsegment;
  if sid <? bit depth then
    psegment ← slabm (Alloc_acquire tid (sizeof_PersistBucket (kNSlotInBucket cfg) *
                                         kNBucketInSegment cfg));
    check_pointer (reg_pointer psegment) ;;
    pbs ← unload_buckets tid reclaim vsegment;
    mmodify (λ s, set_hs_pseg (<[reg_pointer psegment := pbs]> (hs_pseg s)) s) ;;
    publish_volatile psegment ;;
    mret (updZ pdir sid (reg_pointer psegment))
  else
    p ← mderef (nthZ pdir (sid mod bit depth));
    mret (updZ pdir sid p).

Definition dir_limit : Z := 4 * 1024 * 1024.

(** The body of the destructor, run by the thread [tid]. *)
Definition HashStore_close (tid : Z) : M st unit :=
  tsd ← mgets hs_tsd;
  mforeach (um_order (dom tsd)) (λ t, id ← mderef (tsd !! t); limbo_close tid id) ;;
  t ← mgets hs_index;
  let dir_size := 8 * directory_size t in
  (if dir_limit <=? dir_size then merr EExit else mret tt) ;;
  head ← slabm (Alloc_acquire tid sizeof_PersistHead);
  pdir ← slabm (Alloc_acquire tid dir_size);
  pver ← slabm (Alloc_acquire tid (8 * N));
  tomb ← mgets hs_tomb;
  let reclaim := kReclaimTomb <? tomb in
  mwhen reclaim (mmodify (set_hs_tomb 0)) ;;
  tomb ← mgets hs_tomb;
  let ph := reg_pointer head in
  check_pointer ph ;;
  mmodify (λ s, set_hs_phead (<[ph := {| ph_depth := ht_depth t; ph_tomb_size := tomb;
                                         ph_dir := reg_pointer pdir; ph_ver := reg_pointer pver |}]>
                                (hs_phead s)) s) ;;
  publish_volatile head ;; publish_volatile pdir ;; publish_volatile pver ;;
  slabm (exa (pm (PersistRoot_set 0 ph ;; persist_write_back (LRoot 0)))) ;;
  check_pointer (reg_pointer pver) ;;
  mmodify (λ s, set_hs_pver (<[reg_pointer pver := hs_version s]> (hs_pver s)) s) ;;
  epoch_clear tid ;;
  check_pointer (reg_pointer pdir) ;;
  entries ← mfold (Z.to_nat (directory_size t)) 0 (unload_entry tid reclaim)
              (replicate (Z.to_nat (directory_size t)) nullptr);
  mmodify (λ s, set_hs_pdir (<[reg_pointer pdir := entries]> (hs_pdir s)) s).

(** Then the members are destroyed: the index and the allocator. *)
Definition HashStore_destroy (tid : Z) : M st unit :=
  HashStore_close tid ;; slabm AllocatorDetail_close.

(** *** Opening *)

(** The functor passed to [recover], on one thread. *)
Definition rebuild (tid : Z) (obj : region_t) : M st unit :=
  mode ← slabm (exa (pm (region_mode obj)));
  if (mode : bool) then
    let kv := reg_pointer obj in
    r ← kv_load kv;
    if kWriteOpt && invalid r then slabm (Alloc_release tid kv)
    else
      let code := hash_code (kv_key r) in
      res ← idx (λ h, HashTable_upsert cfg h kv code);
      mwhen (tombstone r)
        (size ← slabm (Alloc_region_size tid kv);
         mmodify (λ s, set_hs_tomb (u64 (hs_tomb s + size)) s)) ;;
      if res =? kExpired then slabm (Alloc_release tid kv)
      else
        mwhen (negb (res =? kNotFound))
          (mmodify (λ s, set_hs_retired (hs_retired s ++ [SlabRelease res]) s)) ;;
        let latest := load_version r in
        v ← mgets hs_version;
        (if N =? 0 then merr EUB else mret tt) ;;
        origin ← mderef (nthZ v (code mod N));
        mwhen (origin <? latest) (mmodify (set_hs_version (updZ v (code mod N) latest)))
  else slabm (Alloc_release tid (reg_pointer obj)).

Definition HashStore_recover (tid : Z) : M st unit :=
  Alloc_recover hs_slab set_hs_slab (rebuild tid).

(** Loading one bucket. *)
Definition load_bucket (pb : PersistBucket) : HashBucket :=
  HashBucket_load cfg (pb_bitmap pb) (pb_depth pb) (pb_index pb) (pb_bucket_tags pb)
    (zip_with mk_dense (pb_kvs pb) (pb_slot_tags pb)).

(** The loop that loads the segments; [vdir] and [segs] grow, the persistent
    segments to release are collected. *)
Definition load_entry (entries : list Z) (sid : Z) (acc : list Z * list HashSegment * list Z)
    : M st (list Z * list HashSegment * list Z) :=
  let '(vdir, segs, released) := acc in
  p ← mderef (nthZ entries sid);
  psegs ← mgets hs_pseg;
  pseg ← mderef (psegs !! p);
  pb0 ← mderef (nthZ pseg 0);
  let depth := pb_depth pb0 in
  if sid <? bit depth then
    mret (vdir ++ [lenZ segs], segs ++ [load_bucket <$> pseg], released ++ [p])
  else
    v ← mderef (nthZ vdir (sid mod bit depth));
    mret (vdir ++ [v], segs, released).

Definition HashStore_reload (tid : Z) : M st unit :=
  root ← slabm (exa (pm (PersistRoot_get 0)));
  mwhen (negb (root =? nullptr))
    (heads ← mgets hs_phead;
     head ← mderef (heads !! root);
     let count := bit (ph_depth head) in
     mmodify (set_hs_tomb (ph_tomb_size head)) ;;
     dirs ← mgets hs_pdir;
     entries ← mderef (dirs !! ph_dir head);
     vers ← mgets hs_pver;
     ver ← mderef (vers !! ph_ver head);
     mmodify (set_hs_version ver) ;;
     '(vdir, segs, released) ← mfold (Z.to_nat count) 0 (load_entry entries) ([], [], []);
     mforeach released (λ p, slabm (Alloc_release tid p)) ;;
     table ← HashTable_prebuilt (ph_depth head) vdir segs;
     mmodify (set_hs_index table) ;;
     slabm (Alloc_release tid (ph_dir head)) ;;
     slabm (Alloc_release tid (ph_ver head)) ;;
     slabm (Alloc_release tid root)).

Definition HashStore_open (fs : FileSystem) (existing : option (Z * Z)) (size tid : Z)
    : M st unit :=
  slabm (Alloc_open fs existing size false) ;;
  ok ← slabm (mgets al_ok);
  (if negb (ok : bool) then HashStore_recover tid else HashStore_reload tid) ;;
  slabm (exa (pm (PersistRoot_set 0 nullptr ;; wait_write_back (LRoot 0)))).
End store.
