(* ===== verification/StoreSlots.v ===== *)
(** * Where the records of the store are

    The address of a record that the store has written is at exactly one place:
    in the index under its key, in a limbo list of a thread, or in the epoch, as a
    record that has been retired.  The block of the allocator at the address is
    published, and a limbo list holds the blocks of one size class.  [slots_inv]
    states this, and the lemmas say how records move from one place to another. *)

From S2P Require Export HeapSpec TableSize HashStore.
Import Pmem.

(** ** Definitions *)

Inductive slot (K : Type) := AtIndex (k : K) | AtLimbo (id ind : Z) | AtEpoch.
Arguments AtIndex {K} k.
Arguments AtLimbo {K} id ind.
Arguments AtEpoch {K}.

Definition closure_ptr (c : closure) : Z := match c with SlabRelease p | LimboRelease p => p end.

(** A published block of the size class [idx]. *)
Definition record_block (h : heap) (p idx : Z) : Prop :=
  0 ≤ idx < 40 ∧ ∃ b, h !! p = Some b ∧ bl_size b = index2size_compute idx ∧ bl_code b = hire_code true 0.

Section slots.
Context `{Util} `{Dense} {K : Type} `{Countable K}.
Implicit Types (s : hs_st K) (h : heap) (tm : gmap K Z) (x : slot K) (p idx : Z).

Definition at_slot s tm x p : Prop :=
  match x with
  | AtIndex k => tm !! k = Some p
  | AtLimbo id ind => ∃ l lst, hs_limbos s !! id = Some l ∧ nthZ l ind = Some lst ∧ p ∈ lst
  | AtEpoch => p ∈ closure_ptr <$> hs_retired s
  end.

(** The record at [p] is nowhere: the operation that is running has it. *)
Definition loose s h tm p idx : Prop := (∀ x, ¬ at_slot s tm x p) ∧ record_block h p idx.

Record slots_inv s h tm : Prop := {
  so_block : ∀ x p, at_slot s tm x p → ∃ idx, record_block h p idx ∧
    match x with AtLimbo _ ind => idx = ind | _ => True end;
  so_disj : ∀ x y p, at_slot s tm x p → at_slot s tm y p → x = y;
  so_limbo : ∀ id l ind lst, hs_limbos s !! id = Some l → nthZ l ind = Some lst → NoDup lst;
  so_epoch : NoDup (closure_ptr <$> hs_retired s);
  so_closure : ∀ c, c ∈ hs_retired s → ∃ p, c = LimboRelease p;
  so_limbos : ∀ id l, hs_limbos s !! id = Some l → lenZ l = kLimboCount ∧ id < hs_limbo_next s;
  so_tsd : ∀ tid id, hs_tsd s !! tid = Some id → is_Some (hs_limbos s !! id);
  so_local : ∀ tid id, hs_local s !! tid = Some id → is_Some (hs_limbos s !! id);
  so_owner : ∀ id, is_Some (hs_limbos s !! id) → ∃ tid, hs_tsd s !! tid = Some id;
  so_own : ∀ tid tid' id, hs_tsd s !! tid = Some id → hs_tsd s !! tid' = Some id → tid = tid';
}.
End slots.

(** ** Lemmas *)

Section lemmas.
Context `{UtilSpec} `{Dense} {K : Type} `{Countable K}.
Implicit Types (s : hs_st K) (h : heap) (tm : gmap K Z) (x y : slot K) (p q idx : Z).

Lemma kLimboCount_range : 0 < kLimboCount ≤ 40.
Proof.
  unfold kLimboCount. change kWrtOptMaxSize with 2048. destruct (size_class_spec 2048) as (Hi & _); [lia|].
  unfold kLimboCount. lia.
Qed.

(** *** The blocks *)

Lemma block_frame h h' p idx : h' !! p = h !! p → record_block h p idx → record_block h' p idx.
Proof. unfold record_block. by intros ->. Qed.

Lemma record_block_class h p idx idx' : record_block h p idx → record_block h p idx' → idx = idx'.
Proof.
  intros (Hi & b & Hb & Es & _) (Hi' & b' & Hb' & Es' & _). assert (b' = b) as -> by congruence.
  rewrite <-(class_of_class idx), <-(class_of_class idx') by done. congruence.
Qed.

Lemma slots_heap s h h' tm :
  slots_inv s h tm → (∀ x p, at_slot s tm x p → h' !! p = h !! p) → slots_inv s h' tm.
Proof.
  intros [h1 h2 h3 h4 h5 h6 h7 h8 h9 h10] He. constructor; try done. intros x p Hp.
  destruct (h1 x p Hp) as (idx & Hb & Hx). exists idx. split; [|done]. by eapply block_frame; [eapply He|].
Qed.

Lemma loose_heap s h h' tm p idx : h' !! p = h !! p → loose s h tm p idx → loose s h' tm p idx.
Proof. intros He [Hn Hb]. split; [done|]. by apply (block_frame h). Qed.

(** Only the limbo lists and the epoch matter. *)
Lemma slots_same s s' h tm :
  slots_inv s h tm → hs_limbos s' = hs_limbos s → hs_retired s' = hs_retired s →
  hs_limbo_next s' = hs_limbo_next s → hs_tsd s' = hs_tsd s → hs_local s' = hs_local s → slots_inv s' h tm.
Proof.
  intros [h1 h2 h3 h4 h5 h6 h7 h8 h9 h10] E1 E2 E3 E4 E5.
  assert (∀ x p, at_slot s' tm x p ↔ at_slot s tm x p) as Hat by (intros []; simpl; by rewrite ?E1, ?E2).
  constructor; rewrite ?E1, ?E2, ?E3, ?E4, ?E5; try done.
  - intros x p. rewrite Hat. apply h1.
  - intros x y p. rewrite !Hat. apply h2.
Qed.

(** A block that is not there yet, or that a running operation has, may change. *)
Lemma slots_new s h tm p b : slots_inv s h tm → h !! p = None → slots_inv s (<[p := b]> h) tm.
Proof.
  intros Hs Hn. apply (slots_heap s h); [done|]. intros x q Hq. apply lookup_insert_ne. intros <-.
  destruct (so_block _ _ _ Hs x p Hq) as (idx & (_ & c & Hc & _) & _). congruence.
Qed.

Lemma slots_upd s h tm p b : slots_inv s h tm → (∀ x, ¬ at_slot s tm x p) → slots_inv s (<[p := b]> h) tm.
Proof.
  intros Hs Hn. apply (slots_heap s h); [done|]. intros x q Hq. apply lookup_insert_ne. intros <-. by apply (Hn x).
Qed.

Lemma slots_delete s h tm p : slots_inv s h tm → (∀ x, ¬ at_slot s tm x p) → slots_inv s (delete p h) tm.
Proof.
  intros Hs Hn. apply (slots_heap s h); [done|]. intros x q Hq. apply lookup_delete_ne. intros <-. by apply (Hn x).
Qed.

Lemma not_at_slot s h tm p x : slots_inv s h tm → h !! p = None → ¬ at_slot s tm x p.
Proof.
  intros Hs Hn Hx. destruct (so_block _ _ _ Hs x p Hx) as (idx & (_ & c & Hc & _) & _). congruence.
Qed.

(** *** The epoch *)

Lemma slots_retire s h tm p idx :
  slots_inv s h tm → loose s h tm p idx →
  slots_inv (set_hs_retired (hs_retired s ++ [LimboRelease p]) s) h tm.
Proof.
  intros [h1 h2 h3 h4 h5 h6 h7 h8 h9 h10] [Hn Hb]. set (s' := set_hs_retired _ s).
  assert (∀ x q, at_slot s' tm x q → at_slot s tm x q ∨ x = AtEpoch ∧ q = p) as Hat.
  { intros [k|id ind|] q Hq; [by left|by left|]. simpl in Hq. rewrite fmap_app in Hq.
    apply elem_of_app in Hq as [Hq|Hq]; [by left|right]. simpl in Hq. by apply list_elem_of_singleton in Hq. }
  constructor; try done.
  - intros x q Hq. destruct (Hat x q Hq) as [Hq0|[-> ->]]; [by apply h1|by exists idx].
  - intros x y q Hx Hy. destruct (Hat x q Hx) as [Hx0|[-> Ex]], (Hat y q Hy) as [Hy0|[-> Ey]]; subst; try done.
    + by apply (h2 x y q).
    + by destruct (Hn x).
    + by destruct (Hn y).
  - simpl. rewrite fmap_app. apply NoDup_app. split; [done|]. split; [|apply NoDup_singleton].
    intros q Hq Hq'. simpl in Hq'. apply list_elem_of_singleton in Hq' as ->. by apply (Hn AtEpoch).
  - intros c Hc. simpl in Hc. apply elem_of_app in Hc as [Hc|Hc]; [by apply h5|].
    apply list_elem_of_singleton in Hc as ->. by exists p.
Qed.

Lemma slots_expire s h tm c cs :
  slots_inv s h tm → hs_retired s = c :: cs →
  ∃ p idx, c = LimboRelease p ∧ slots_inv (set_hs_retired cs s) h tm ∧ loose (set_hs_retired cs s) h tm p idx.
Proof.
  intros [h1 h2 h3 h4 h5 h6 h7 h8 h9 h10] E. destruct (h5 c) as [p ->]; [rewrite E; by left|].
  rewrite E in h4. apply NoDup_cons in h4 as [Hni Hnd]. simpl in Hni.
  assert (at_slot s tm AtEpoch p) as Hp by (simpl; rewrite E; by left).
  destruct (h1 _ _ Hp) as (idx & Hb & _).
  assert (∀ x q, at_slot (set_hs_retired cs s) tm x q → at_slot s tm x q) as Hat.
  { intros [k|id ind|] q Hq; [done|done|]. simpl in *. rewrite E. by right. }
  exists p, idx. split; [done|]. split.
  - constructor; try done.
    + intros x q Hq. by apply h1, Hat.
    + intros x y q Hx Hy. by apply (h2 x y q); apply Hat.
    + intros c Hc. apply h5. rewrite E. by right.
  - split; [|done]. intros x Hx. assert (x = AtEpoch) as -> by (by apply (h2 x AtEpoch p); [apply Hat|]). done.
Qed.

(** *** The limbo lists *)

(** One list of one limbo changes. *)
Definition put_list (s : hs_st K) (id : Z) (l : ThreadLimbo) (ind : Z) (lst : list Z) : hs_st K :=
  set_hs_limbos (<[id := updZ l ind lst]> (hs_limbos s)) s.

Lemma put_list_limbo s id l ind lst id' l' j lst' :
  hs_limbos s !! id = Some l → 0 ≤ ind < lenZ l →
  hs_limbos (put_list s id l ind lst) !! id' = Some l' → nthZ l' j = Some lst' →
  (id' = id ∧ j = ind ∧ lst' = lst) ∨
  (¬ (id' = id ∧ j = ind) ∧ ∃ l0, hs_limbos s !! id' = Some l0 ∧ nthZ l0 j = Some lst').
Proof.
  intros Hl Hi Hl' Hj. simpl in Hl'. destruct (decide (id = id')) as [<-|Hne].
  - rewrite lookup_insert_eq in Hl'. injection Hl' as <-. rewrite nthZ_updZ in Hj by done. case_decide as Hij.
    + left. split; [done|]. by split; [|congruence].
    + right. split; [intros [_ ?]; congruence|]. by exists l.
  - rewrite lookup_insert_ne in Hl' by done. right. split; [intros [? _]; congruence|]. by exists l'.
Qed.

Lemma put_list_at s tm id l ind lst lst0 x q :
  hs_limbos s !! id = Some l → nthZ l ind = Some lst0 →
  at_slot (put_list s id l ind lst) tm x q →
  (x = AtLimbo id ind ∧ q ∈ lst) ∨ (x ≠ AtLimbo id ind ∧ at_slot s tm x q).
Proof.
  intros Hl Hi Hq. destruct x as [k|id' j|]; [by right|simpl in Hq|by right].
  destruct Hq as (l' & lst' & Hl' & Hj & Hin).
  destruct (put_list_limbo s id l ind lst id' l' j lst' Hl (nthZ_Some _ _ _ Hi) Hl' Hj)
    as [(-> & -> & ->)|(Hne & l0 & Hl0 & Hj0)]; [by left|right].
  split; [intros [= -> ->]; by apply Hne|]. by exists l0, lst'.
Qed.

Lemma put_list_inv s h tm id l ind lst0 lst :
  slots_inv s h tm → hs_limbos s !! id = Some l → nthZ l ind = Some lst0 → NoDup lst →
  (∀ q, q ∈ lst → record_block h q ind ∧ ∀ x, at_slot s tm x q → x = AtLimbo id ind) →
  slots_inv (put_list s id l ind lst) h tm.
Proof.
  intros [h1 h2 h3 h4 h5 h6 h7 h8 h9 h10] Hl Hi Hnd Hq. constructor; try done.
  - intros x q Hx. destruct (put_list_at _ _ _ _ _ _ _ _ _ Hl Hi Hx) as [[-> Hin]|[_ Hx0]]; [|by apply h1].
    exists ind. split; [by apply Hq|done].
  - intros x y q Hx Hy. destruct (put_list_at _ _ _ _ _ _ _ _ _ Hl Hi Hx) as [[-> Hin]|[Hnx Hx0]],
      (put_list_at _ _ _ _ _ _ _ _ _ Hl Hi Hy) as [[-> Hin']|[Hny Hy0]]; [done| | |by apply (h2 x y q)].
    + symmetry. by apply (Hq q).
    + by apply (Hq q).
  - intros id' l' j lst' Hl' Hj.
    destruct (put_list_limbo s id l ind lst id' l' j lst' Hl (nthZ_Some _ _ _ Hi) Hl' Hj)
      as [(-> & -> & ->)|(_ & l0 & Hl0 & Hj0)]; [done|by apply (h3 id' l0 j)].
  - intros id' l' Hl'. simpl in Hl'. destruct (decide (id = id')) as [<-|Hne].
    + rewrite lookup_insert_eq in Hl'. injection Hl' as <-. rewrite lenZ_updZ. by apply h6.
    + rewrite lookup_insert_ne in Hl' by done. by apply h6.
  - intros tid id' Ht. simpl. destruct (decide (id = id')) as [<-|Hne];
      [rewrite lookup_insert_eq; by eexists|rewrite lookup_insert_ne by done; by apply (h7 tid)].
  - intros tid id' Ht. simpl. destruct (decide (id = id')) as [<-|Hne];
      [rewrite lookup_insert_eq; by eexists|rewrite lookup_insert_ne by done; by apply (h8 tid)].
  - intros id'. simpl. destruct (decide (id = id')) as [<-|Hne]; [intros _; by apply h9|].
    rewrite lookup_insert_ne by done. apply h9.
Qed.

Lemma slots_push s h tm id l idx lst p :
  slots_inv s h tm → hs_limbos s !! id = Some l → nthZ l idx = Some lst → loose s h tm p idx →
  slots_inv (put_list s id l idx (lst ++ [p])) h tm.
Proof.
  intros Hs Hl Hi [Hn Hb]. apply (put_list_inv s h tm id l idx lst); [done|done|done| |].
  - apply NoDup_app. split; [by eapply so_limbo|]. split; [|apply NoDup_singleton].
    intros q Hq ->%list_elem_of_singleton. apply (Hn (AtLimbo id idx)). by exists l, lst.
  - intros q [Hq| ->%list_elem_of_singleton]%elem_of_app.
    + assert (at_slot s tm (AtLimbo id idx) q) as Hat by (by exists l, lst).
      destruct (so_block _ _ _ Hs _ _ Hat) as (i & Hb' & ->). split; [done|].
      intros x Hx. by apply (so_disj _ _ _ Hs x _ q).
    + split; [done|]. intros x Hx. by destruct (Hn x).
Qed.

Lemma slots_pop s h tm id l ind p lst :
  slots_inv s h tm → hs_limbos s !! id = Some l → nthZ l ind = Some (p :: lst) →
  slots_inv (put_list s id l ind lst) h tm ∧ loose (put_list s id l ind lst) h tm p ind.
Proof.
  intros Hs Hl Hi. pose proof (so_limbo _ _ _ Hs id l ind _ Hl Hi) as Hnd. apply NoDup_cons in Hnd as [Hni Hnd].
  assert (∀ q, q ∈ p :: lst → record_block h q ind ∧ ∀ x, at_slot s tm x q → x = AtLimbo id ind) as Hall.
  { intros q Hq. assert (at_slot s tm (AtLimbo id ind) q) as Hat by (by exists l, (p :: lst)).
    destruct (so_block _ _ _ Hs _ _ Hat) as (i & Hb' & ->). split; [done|].
    intros x Hx. by apply (so_disj _ _ _ Hs x _ q). }
  split; [|split; [|apply Hall; by left]].
  - apply (put_list_inv s h tm id l ind (p :: lst)); [done|done|done|done|]. intros q Hq. apply Hall. by right.
  - intros x Hx. destruct (put_list_at _ _ _ _ _ _ _ _ _ Hl Hi Hx) as [[-> Hin]|[Hne Hx0]]; [done|].
    apply Hne. apply (Hall p); [by left|done].
Qed.

(** What was in the list is still somewhere, or was taken out of it. *)
Lemma put_list_keep s tm id l ind lst lst0 x q :
  hs_limbos s !! id = Some l → nthZ l ind = Some lst0 → at_slot s tm x q →
  at_slot (put_list s id l ind lst) tm x q ∨ (x = AtLimbo id ind ∧ q ∈ lst0).
Proof.
  intros Hl Hi Hq. destruct x as [k|id' j|]; [by left| |by left]. destruct Hq as (l' & lst' & Hl' & Hj & Hin). simpl.
  destruct (decide (id = id')) as [<-|Hne].
  - assert (l' = l) as -> by congruence. destruct (decide (ind = j)) as [<-|Hnj].
    + right. split; [done|congruence].
    + left. exists (updZ l ind lst), lst'. rewrite lookup_insert_eq, nthZ_updZ_ne by done. done.
  - left. exists l', lst'. by rewrite lookup_insert_ne.
Qed.

Lemma put_list_in s tm id l ind lst lst0 q :
  hs_limbos s !! id = Some l → nthZ l ind = Some lst0 → q ∈ lst → at_slot (put_list s id l ind lst) tm (AtLimbo id ind) q.
Proof.
  intros Hl Hi Hq. exists (updZ l ind lst), lst. simpl. rewrite lookup_insert_eq.
  rewrite nthZ_updZ_eq by (by eapply nthZ_Some). done.
Qed.

(** A new limbo, for a thread that has none. *)
Definition new_limbo : ThreadLimbo := replicate (Z.to_nat kLimboCount) [].

Lemma slots_new_limbo s h tm tid :
  slots_inv s h tm → hs_tsd s !! tid = None →
  let n := hs_limbo_next s in
  slots_inv (set_hs_limbos (<[n := new_limbo]> (hs_limbos s)) (set_hs_limbo_next (n + 1)
    (set_hs_tsd (<[tid := n]> (hs_tsd s)) (set_hs_local (<[tid := n]> (hs_local s)) s)))) h tm ∧
  (∀ x q, at_slot (set_hs_limbos (<[n := new_limbo]> (hs_limbos s)) s) tm x q ↔ at_slot s tm x q).
Proof.
  intros [h1 h2 h3 h4 h5 h6 h7 h8 h9 h10] Ht n.
  assert (hs_limbos s !! n = None) as Hnone.
  { destruct (hs_limbos s !! n) as [l|] eqn:E; [|done]. destruct (h6 n l E) as [_ Hlt]. unfold n in Hlt. lia. }
  assert (∀ j lst, nthZ new_limbo j = Some lst → lst = []) as Hnil.
  { intros j lst Hj. pose proof (nthZ_Some _ _ _ Hj) as Hr. unfold new_limbo in Hr. rewrite lenZ_replicate in Hr.
    unfold new_limbo in Hj. rewrite nthZ_replicate in Hj by done. congruence. }
  assert (∀ x q, at_slot (set_hs_limbos (<[n := new_limbo]> (hs_limbos s)) s) tm x q ↔ at_slot s tm x q) as Hat.
  { intros [k|n' j|] q; [done| |done]. simpl. split.
    - intros (l & lst & Hl & Hj & Hq). destruct (decide (n = n')) as [<-|Hne].
      + rewrite lookup_insert_eq in Hl. injection Hl as <-. apply Hnil in Hj as ->. by apply not_elem_of_nil in Hq.
      + rewrite lookup_insert_ne in Hl by done. by exists l, lst.
    - intros (l & lst & Hl & Hj & Hq). assert (n' ≠ n) as Hne by (intros E; rewrite E in Hl; exact (eq_None_ne_Some_1 _ _ Hnone Hl)).
      exists l, lst. by rewrite lookup_insert_ne. }
  assert (∀ t i (m : gmap Z Z), (∀ t i, m !! t = Some i → is_Some (hs_limbos s !! i)) → <[tid := n]> m !! t = Some i →
    is_Some (<[n := new_limbo]> (hs_limbos s) !! i)) as Hid.
  { intros t i m Hm Hi. destruct (decide (n = i)) as [<-|Hne]; [rewrite lookup_insert_eq; by eexists|].
    rewrite lookup_insert_ne by done. destruct (decide (tid = t)) as [<-|Hnt].
    - rewrite lookup_insert_eq in Hi. congruence.
    - rewrite lookup_insert_ne in Hi by done. by apply (Hm t). }
  split; [|done]. constructor; try done; simpl.
  - intros x q Hx. apply h1. by apply Hat.
  - intros x y q Hx Hy. apply (h2 x y q); by apply Hat.
  - intros i l j lst Hl Hj. destruct (decide (n = i)) as [<-|Hne].
    + rewrite lookup_insert_eq in Hl. injection Hl as <-. apply Hnil in Hj as ->. apply NoDup_nil_2.
    + rewrite lookup_insert_ne in Hl by done. by apply (h3 i l j).
  - intros i l Hl. destruct (decide (n = i)) as [<-|Hne].
    + rewrite lookup_insert_eq in Hl. injection Hl as <-. unfold new_limbo. rewrite lenZ_replicate.
      pose proof kLimboCount_range. lia.
    + rewrite lookup_insert_ne in Hl by done. destruct (h6 i l Hl) as [E1 E2]. split; [done|unfold n; lia].
  - intros t i. by apply Hid.
  - intros t i. by apply Hid.
  - intros i Hi. destruct (decide (n = i)) as [<-|Hne]; [exists tid; apply lookup_insert_eq|].
    rewrite lookup_insert_ne in Hi by done. destruct (h9 i Hi) as [t Hti]. exists t. rewrite lookup_insert_ne; [done|congruence].
  - assert (∀ t, hs_tsd s !! t ≠ Some n) as Hfresh.
    { intros t Htn. destruct (h7 t n Htn) as [l Hl]. congruence. }
    intros t t' i. destruct (decide (tid = t)) as [<-|Hne], (decide (tid = t')) as [<-|Hne']; [done| | |].
    + rewrite lookup_insert_eq, lookup_insert_ne by done. intros [= <-] Hx. by destruct (Hfresh t').
    + rewrite lookup_insert_eq, lookup_insert_ne by done. intros Hx [= <-]. by destruct (Hfresh t).
    + rewrite !lookup_insert_ne by done. apply h10.
Qed.

(** *** The index *)

(** The record at [p] becomes the record of the key [k]; the old one is loose. *)
Lemma slots_index s h tm k p idx :
  slots_inv s h tm → loose s h tm p idx →
  slots_inv s h (<[k := p]> tm) ∧
  ∀ q, tm !! k = Some q → ∃ i, loose s h (<[k := p]> tm) q i.
Proof.
  intros [h1 h2 h3 h4 h5 h6 h7 h8 h9 h10] [Hn Hb].
  assert (∀ x q, at_slot s (<[k := p]> tm) x q → x = AtIndex k ∧ q = p ∨ x ≠ AtIndex k ∧ at_slot s tm x q) as Hat.
  { intros [k'|id j|] q Hq; [|by right|by right]. simpl in Hq. destruct (decide (k = k')) as [<-|Hne].
    - rewrite lookup_insert_eq in Hq. left. split; [done|congruence].
    - rewrite lookup_insert_ne in Hq by done. right. split; [congruence|done]. }
  split.
  - constructor; try done.
    + intros x q Hx. destruct (Hat x q Hx) as [[-> ->]|[_ Hx0]]; [by exists idx|by apply h1].
    + intros x y q Hx Hy. destruct (Hat x q Hx) as [[-> Ex]|[_ Hx0]], (Hat y q Hy) as [[-> Ey]|[_ Hy0]]; subst; try done.
      * by destruct (Hn y).
      * by destruct (Hn x).
      * by apply (h2 x y q).
  - intros q Hq. assert (at_slot s tm (AtIndex k) q) as Hq' by done. destruct (h1 _ _ Hq') as (i & Hbq & _). exists i.
    split; [|done]. intros x Hx. destruct (Hat x q Hx) as [[-> ->]|[Hne Hx0]]; [by apply (Hn (AtIndex k))|].
    apply Hne. by apply (h2 x (AtIndex k) q).
Qed.
End lemmas.
