(* ===== verification/StoreSpec.v ===== *)
(** * The store in normal operation

    The contract of [upsert], [update], [remove] and [lookup] of [HashStore]: the
    store is a finite map from keys to values, where a removed key stays in the map
    without a value.  The invariant composes those of the allocator ([refines]),
    of the index ([ht_inv], [table_rel]) and of the places of the records
    ([slots_inv]).  There is one rule per operation: what it returns, and the map
    after it. *)

From S2P Require Export StoreSlots.
Import Pmem.

(** ** Definitions *)

Section spec.
Context `{Util} `{UnorderedMap} `{Dense} `{Simd} {K : Type} `{Countable K} `{HashFn K}.
Variable cfg : HashConfig.
Variable N : Z.
Variable sizeof_KVPair : Z.
Variable key_len : K → Z.
Variable f : ExtentFile.
Implicit Types (s : hs_st K) (h : heap) (tm : gmap K Z) (m : gmap K (option (list Z))) (vs : list Z)
  (k key : K) (v : option (list Z)) (p : Z).

Definition kv_len k v : Z := sizeof_KVPair + key_len k + lenZ (default [] v).

(** The record [r] has the key [k] and the value [v], [None] for a tombstone. *)
Definition record_of (r : KVPair K) k v : Prop :=
  kv_key r = k ∧ invalid r = false ∧ tombstone r = bool_decide (v = None) ∧ kv_data r = default [] v ∧
  kv_vlen r = lenZ (default [] v).

(** The record of [k] in the index: it fits in its block, and its version is below
    that of the next record. *)
Definition record_ok vs s h k p v : Prop :=
  ∃ r b n, hs_heap s !! p = Some r ∧ record_of r k v ∧
    h !! p = Some b ∧ kv_len k v ≤ bl_size b ∧
    nthZ vs (hash_fn k mod N) = Some n ∧ load_version r < n.

Record data_inv vs s h tm m : Prop := {
  da_index : ht_inv cfg (hs_heap s) (hs_index s);
  da_table : table_rel cfg (hs_heap s) (hs_index s) tm;
  da_record : ∀ k, match tm !! k, m !! k with
                   | Some p, Some v => record_ok vs s h k p v
                   | None, None => True
                   | _, _ => False end;
}.

(** A reader in an epoch: the records it has found, and how many of the retired
    functions may run before it leaves. *)
Record guard := { gd_found : gmap Z (KVPair K); gd_grace : nat }.
Definition no_guard : guard := {| gd_found := ∅; gd_grace := 0 |}.
Definition enter_guard s p (r : KVPair K) : guard :=
  {| gd_found := {[p := r]}; gd_grace := length (hs_retired s) |}.
Definition expire_guard (g : guard) : guard :=
  {| gd_found := gd_found g; gd_grace := Nat.pred (gd_grace g) |}.

(** A record that was found is intact: its block is in use, in no limbo list, and
    not what a function releases that may run. *)
Definition guarded (g : guard) s h : Prop :=
  (gd_grace g ≤ length (hs_retired s))%nat ∧
  ∀ p r, gd_found g !! p = Some r →
    hs_heap s !! p = Some r ∧ is_Some (h !! p) ∧ (∀ id ind, ¬ at_slot s ∅ (AtLimbo id ind) p) ∧
    p ∉ take (gd_grace g) (closure_ptr <$> hs_retired s).

(** No block is lost: it is at a place, or the running operation has it in its
    hand [o]. *)
Definition owned (o : option Z) s h tm : Prop := ∀ p, is_Some (h !! p) → o = Some p ∨ ∃ x, at_slot s tm x p.

(** [h]: the blocks of the allocator, [tm]: the records of the keys, [vs]: bounds
    of their versions. *)
Record store_inv (g : guard) (o : option Z) vs s h tm m : Prop := {
  si_heap : refines f (hs_slab s) h;
  si_slots : slots_inv s h tm;
  si_data : data_inv vs s h tm m;
  si_len : lenZ vs = N;
  si_guard : guarded g s h;
  si_owned : owned o s h tm;
}.

(** The store is the map [m], and no version has been given out [c] times. *)
Definition store_rel (g : guard) (c : Z) s m : Prop :=
  (∃ h tm, store_inv g None (hs_version s) s h tm m) ∧ ∀ i n, nthZ (hs_version s) i = Some n → 0 ≤ n ≤ c.

(** The parts of the state that the limbo lists do not concern. *)
Definition same_data s s' : Prop :=
  hs_slab s' = hs_slab s ∧ hs_index s' = hs_index s ∧ hs_heap s' = hs_heap s ∧ hs_version s' = hs_version s.

(** What a write leaves: a record that is at no place yet. *)
Definition fresh_record s h k v (version p : Z) : Prop :=
  ∃ r b, hs_heap s !! p = Some r ∧ record_of r k v ∧ load_version r = version ∧
    h !! p = Some b ∧ kv_len k v ≤ bl_size b.

(** Fewer keys than a bucket has slots collide with [key]. *)
Definition few_keys m key : Prop :=
  ∀ l : list K, NoDup l →
    (∀ k, k ∈ l → is_Some (m !! k) ∧
       bucket_index (hash_fn k) (kNBucketInSegment cfg) =
       bucket_index (hash_fn key) (kNBucketInSegment cfg) ∧
       hash_fn k mod 2 ^ 32 = hash_fn key mod 2 ^ 32) →
    lenZ l < kNSlotInBucket cfg.
End spec.

(** ** Lemmas *)

Section lemmas.
Context `{UtilSpec} `{UnorderedMapSpec} `{DenseSpec} `{SimdSpec} {K : Type} `{Countable K} `{HashFnSpec K}.
Variable cfg : HashConfig.
Hypothesis Hcfg : wf_config cfg.
Variable N : Z.
Hypothesis HN : 0 < N.
Variable sizeof_KVPair : Z.
Variable key_len : K → Z.
Variable zero_key : K.
Variable f : ExtentFile.
Hypothesis Hf : 2 < extents f ∧ file_end f ≤ 2 ^ 48.
Implicit Types (s : hs_st K) (h : heap) (tm : gmap K Z) (m : gmap K (option (list Z))) (vs : list Z)
  (k key : K) (v : option (list Z)) (p q idx : Z).

Abbreviation kv_len := (kv_len sizeof_KVPair key_len).
Abbreviation record_ok := (record_ok N sizeof_KVPair key_len).
Abbreviation data_inv := (data_inv cfg N sizeof_KVPair key_len).
Variable g : guard (K := K).
Abbreviation store_inv := (store_inv cfg N sizeof_KVPair key_len f g).
Abbreviation store_rel := (store_rel cfg N sizeof_KVPair key_len f g).
Abbreviation fresh_record := (fresh_record sizeof_KVPair key_len).

(** *** Frames *)

Lemma data_same vs s s' h tm m : same_data s s' → data_inv vs s h tm m → data_inv vs s' h tm m.
Proof.
  intros (_ & E2 & E3 & _) [h1 h2 h3]. unfold StoreSpec.record_ok in h3.
  constructor; rewrite ?E2, ?E3; [done..|]. unfold StoreSpec.record_ok. by rewrite E3.
Qed.

Lemma data_heap vs s h h' tm m :
  data_inv vs s h tm m → (∀ k p, tm !! k = Some p → h' !! p = h !! p) → data_inv vs s h' tm m.
Proof.
  intros [h1 h2 h3] He. constructor; [done..|]. intros k. specialize (h3 k).
  destruct (tm !! k) as [p|] eqn:E; [|done]. destruct (m !! k) as [v|]; [|done].
  destruct h3 as (r & b & n & Hr & Hv & Hb & Hrest). exists r, b, n. rewrite (He k p) by done. done.
Qed.

(** Writing a record that is not in the index. *)
Lemma data_write vs s h tm m p r :
  data_inv vs s h tm m → (∀ k, tm !! k ≠ Some p) →
  data_inv vs (set_hs_heap (<[p := r]> (hs_heap s)) s) h tm m.
Proof.
  intros [h1 h2 h3] Hn. assert (∀ k q, tm !! k = Some q → <[p := r]> (hs_heap s) !! q = hs_heap s !! q) as He.
  { intros k q Hq. apply lookup_insert_ne. intros <-. by apply (Hn k). }
  destruct (table_frame cfg (hs_heap s) (<[p := r]> (hs_heap s)) (hs_index s) tm h1 h2 He) as [h1' h2'].
  constructor; [exact h1'|exact h2'|]. intros k. specialize (h3 k).
  destruct (tm !! k) as [q|] eqn:E; [|done]. destruct (m !! k) as [v|]; [|done].
  destruct h3 as (o & b & n & Hr & Hrest). exists o, b, n. split; [|done]. simpl. by rewrite (He k q).
Qed.

(** The record at [p] has not been found by the reader. *)
Definition unguarded p : Prop := gd_found g !! p = None.

Lemma guarded_write s h p r : guarded g s h → unguarded p → guarded g (set_hs_heap (<[p := r]> (hs_heap s)) s) h.
Proof.
  intros [Hn Hg] Hp. split; [exact Hn|]. intros q o Hq. destruct (Hg q o Hq) as (Hr & Hrest). split; [|exact Hrest].
  simpl. rewrite lookup_insert_ne; [done|]. intros <-. unfold unguarded in Hp. congruence.
Qed.

Lemma guarded_heap s h h' : guarded g s h → (∀ p, ¬ unguarded p → is_Some (h !! p) → is_Some (h' !! p)) → guarded g s h'.
Proof.
  intros [Hn Hg] Hh. split; [exact Hn|]. intros q o Hq. destruct (Hg q o Hq) as (Hr & Hb & Hrest). split; [done|].
  split; [|done]. apply Hh; [|done]. unfold unguarded. by rewrite Hq.
Qed.

(** Only the lists change, and no record that was found enters one. *)
Lemma guarded_lists s s' h :
  guarded g s h → hs_heap s' = hs_heap s → hs_retired s' = hs_retired s →
  (∀ id ind p, ¬ unguarded p → at_slot s' ∅ (AtLimbo id ind) p → at_slot s ∅ (AtLimbo id ind) p) → guarded g s' h.
Proof.
  intros [Hn Hg] E1 E2 Hl. split; [by rewrite E2|]. intros q o Hq. destruct (Hg q o Hq) as (Hr & Hb & Hli & Ht).
  rewrite E1, E2. do 2 (split; [done|]). split; [|done]. intros id ind Hat. apply (Hli id ind), Hl; [|done].
  unfold unguarded. by rewrite Hq.
Qed.

Lemma guarded_same s s' h :
  guarded g s h → hs_heap s' = hs_heap s → hs_retired s' = hs_retired s → hs_limbos s' = hs_limbos s → guarded g s' h.
Proof. intros Hg E1 E2 E3. apply (guarded_lists s); [done|done|done|]. intros id ind p _. simpl. by rewrite E3. Qed.

Lemma guarded_retire s h c : guarded g s h → guarded g (set_hs_retired (hs_retired s ++ [c]) s) h.
Proof.
  intros [Hn Hg]. split; [simpl; rewrite length_app; lia|]. intros q o Hq. destruct (Hg q o Hq) as (Hr & Hb & Hli & Ht).
  do 3 (split; [done|]). simpl. rewrite fmap_app, take_app_le by (rewrite length_fmap; lia). exact Ht.
Qed.

Lemma limbo_unguarded s h id ind p : guarded g s h → at_slot s ∅ (AtLimbo id ind) p → unguarded p.
Proof.
  intros [_ Hg] Hp. unfold unguarded. destruct (gd_found g !! p) as [r|] eqn:E; [|done].
  destruct (Hg p r E) as (_ & _ & Hl & _). by destruct (Hl id ind).
Qed.

Lemma new_unguarded s h p : guarded g s h → h !! p = None → unguarded p.
Proof.
  intros [_ Hg] Hp. unfold unguarded. destruct (gd_found g !! p) as [r|] eqn:E; [|done].
  destruct (Hg p r E) as (_ & [b Hb] & _). congruence.
Qed.

(** *** Nothing is lost *)

Lemma owned_at o s s' h tm : owned o s h tm → (∀ x p, at_slot s tm x p → at_slot s' tm x p) → owned o s' h tm.
Proof. intros Ho Hat p Hp. destruct (Ho p Hp) as [?|[x Hx]]; [by left|right]. exists x. by apply Hat. Qed.

Lemma owned_new s h tm p b : owned None s h tm → owned (Some p) s (<[p := b]> h) tm.
Proof.
  intros Ho q [c Hq]. apply lookup_insert_Some in Hq as [[-> _]|[_ Hq]]; [by left|].
  destruct (Ho q) as [?|Hx]; [by eexists|done|by right].
Qed.

Lemma loose_not_index s h tm p idx : loose s h tm p idx → ∀ k, tm !! k ≠ Some p.
Proof. intros [Hn _] k Hk. by apply (Hn (AtIndex k)). Qed.

Lemma inv_write o vs s h tm m p r :
  store_inv o vs s h tm m → (∀ x, ¬ at_slot s tm x p) → unguarded p →
  store_inv o vs (set_hs_heap (<[p := r]> (hs_heap s)) s) h tm m.
Proof.
  intros [h1 h2 h3 h4 h5 h6] Hn Hu. constructor; [done|by apply (slots_same s)| |done|by apply guarded_write|done].
  apply data_write; [done|]. intros k. exact (Hn (AtIndex k)).
Qed.

Lemma inv_same o o' vs s s' h tm m :
  store_inv o vs s h tm m → same_data s s' → slots_inv s' h tm → guarded g s' h → owned o' s' h tm →
  store_inv o' vs s' h tm m.
Proof.
  intros [h1 h2 h3 h4 h5 h6] Hs Hsl Hg Ho. constructor; [by rewrite (proj1 Hs)|done|by eapply data_same|done|done|done].
Qed.

Lemma same_data_refl s : same_data s s.
Proof. done. Qed.
Lemma same_data_trans s1 s2 s3 : same_data s1 s2 → same_data s2 s3 → same_data s1 s3.
Proof. intros (?&?&?&?) (?&?&?&?). unfold same_data. split_and!; congruence. Qed.

(** *** The allocator *)

Lemma wp_slabm {A} (o : M alloc_st A) Q s :
  wp o (λ a z, Q a (set_hs_slab z s)) (hs_slab s) → wp (slabm o) Q s.
Proof. apply wp_zoom. Qed.

Lemma refines_sc z h : refines f z h → rn_sc (as_run (al_arena z)) = SizeClass_new.
Proof. intros (fl & ml & G & Hz & _). apply (rv_sc _ _ _ (av_runs _ _ _ (lv_arenas _ _ _ _ Hz))). Qed.

Lemma block_addr z h p b : refines f z h → h !! p = Some b → 2 < p < 2 ^ 48.
Proof.
  intros Hz Hb. destruct (refines_ok f z h Hz p b Hb) as (_ & Hn & Hlo & Hhi & _). destruct Hf. lia.
Qed.

Lemma loose_addr z s h tm p idx : refines f z h → loose s h tm p idx → 2 < p < 2 ^ 48.
Proof. intros Hz (_ & _ & b & Hb & _). by eapply block_addr. Qed.

(** *** Limbo lists *)

Lemma wp_thread_limbo s h tm tid Q :
  slots_inv s h tm →
  (∀ s' id l, same_data s s' → slots_inv s' h tm → hs_retired s' = hs_retired s →
     (∀ tm x p, at_slot s' tm x p ↔ at_slot s tm x p) →
     hs_limbos s' !! id = Some l → Q id s') →
  wp (thread_limbo tid) Q s.
Proof.
  intros Hs HQ. unfold thread_limbo. wp_step. wp_step. destruct (hs_local s !! tid) as [id|] eqn:El.
  - destruct (so_local _ _ _ Hs tid id El) as [l Hl]. wp_step. by apply (HQ s id l).
  - destruct (hs_tsd s !! tid) as [id|] eqn:Et.
    + destruct (so_tsd _ _ _ Hs tid id Et) as [l Hl]. wp_step. wp_step. wp_step. apply (HQ _ id l); [done| |done|done|done].
      destruct Hs as [h1 h2 h3 h4 h5 h6 h7 h8]. constructor; try done. intros t i. simpl. destruct (decide (tid = t)) as [<-|Hne].
      * rewrite lookup_insert_eq. intros [= <-]. by exists l.
      * rewrite lookup_insert_ne by done. apply h8.
    + wp_step. wp_step. wp_step. destruct (slots_new_limbo s h tm tid Hs Et) as [Hs' Hat].
      apply (HQ _ (hs_limbo_next s) new_limbo); [done|exact Hs'|done| |].
      { intros tm' [k|i j|] p; [done|exact (Hat (AtLimbo i j) p)|done]. }
      apply lookup_insert_eq.
Qed.

Lemma wp_limbo_acquire vs s h tm m tid size Q :
  store_inv None vs s h tm m → 0 < size ≤ kMaxMediumSize →
  (∀ s', store_inv None vs s' h tm m → same_data s s' → Q nullptr s') →
  (∀ s' p, store_inv (Some p) vs s' h tm m → same_data s s' → loose s' h tm p (size2index_compute size) → unguarded p → Q p s') →
  wp (limbo_acquire tid size) Q s.
Proof.
  intros Hs Hsz Hnull HQ. unfold limbo_acquire. wp_step.
  apply (wp_thread_limbo s h tm); [apply Hs|]. intros s1 id l Hd Hs1 Hret Hat Hl.
  assert (guarded g s1 h) as Hg1 by (apply (guarded_lists s); [apply Hs|apply Hd|done|intros i j q _; by rewrite Hat]).
  assert (owned None s1 h tm) as Ho1 by (apply (owned_at _ s); [apply Hs|intros x q; by rewrite Hat]).
  pose proof (inv_same None None vs s s1 h tm m Hs Hd Hs1 Hg1 Ho1) as Hi. wp_step. unfold load_limbo. wp_step. wp_step.
  wp_step; [exact Hl|]. wp_step. unfold st_sc. wp_step. rewrite (refines_sc (hs_slab s1) h) by apply Hi.
  wp_step. eapply wp_pure; [by apply size2index_ok|]. cbv beta. set (ind := size2index_compute size).
  destruct (Z.ltb_spec ind kLimboCount) as [Hlt|Hge]; [|wp_step; by apply Hnull].
  destruct (size_class_spec size Hsz) as (Hind & _). fold ind in Hind.
  destruct (nthZ_is_Some l ind) as [lst Hlst].
  { rewrite (proj1 (so_limbos _ _ _ Hs1 id l Hl)). lia. }
  rewrite Hlst. simpl. destruct lst as [|p lst]; [wp_step; by apply Hnull|].
  destruct (slots_pop s1 h tm id l ind p lst Hs1 Hl Hlst) as [Hs2 Hp].
  wp_step. unfold store_limbo. wp_step. wp_step. apply HQ; [|done|exact Hp|].
  - apply (inv_same None (Some p) vs s1); [done|done|done| |].
    + apply (guarded_lists s1); [done|done|done|]. intros i j q _ Hq.
      destruct (put_list_at _ _ _ _ _ _ _ _ _ Hl Hlst Hq) as [[[= -> ->] Hin]|[_ Hq0]]; [|done].
      exists l, (p :: lst). split; [done|]. split; [done|by right].
    + intros q Hq. destruct (Ho1 q Hq) as [?|[x Hx]]; [done|].
      destruct (put_list_keep s1 tm id l ind lst _ x q Hl Hlst Hx) as [?|[-> [-> | ?]%elem_of_cons]]; [right; by exists x|by left|].
      right. exists (AtLimbo id ind). by apply (put_list_in s1 tm id l ind lst (p :: lst)).
  - apply (limbo_unguarded s1 h id ind); [done|]. exists l, (p :: lst). split; [done|]. split; [done|by left].
Qed.

Lemma slots_slab z s h tm : slots_inv s h tm → slots_inv (set_hs_slab z s) h tm.
Proof. intros Hs. by apply (slots_same s). Qed.

(** A step of the allocator on a block that is at no place. *)
Lemma inv_slab o o' vs s h h' tm m z :
  store_inv o vs s h tm m → refines f z h' → slots_inv s h' tm → owned o' s h' tm →
  (∀ k p, tm !! k = Some p → h' !! p = h !! p) → (∀ p, ¬ unguarded p → is_Some (h !! p) → is_Some (h' !! p)) →
  store_inv o' vs (set_hs_slab z s) h' tm m.
Proof.
  intros [h1 h2 h3 h4 h5 h6] Hz Hsl Ho He Hu. constructor; [done|by apply slots_slab| |done| |done].
  2: { apply (guarded_heap _ h); [by apply (guarded_same s)|done]. }
  apply (data_heap vs _ h); [|done]. destruct h3 as [k1 k2 k3]. by constructor.
Qed.

Lemma inv_delete vs s h tm m p idx z :
  store_inv (Some p) vs s h tm m → loose s h tm p idx → unguarded p → refines f z (delete p h) →
  store_inv None vs (set_hs_slab z s) (delete p h) tm m.
Proof.
  intros Hs Hl Hu Hz. apply (inv_slab (Some p) None vs s h); [done|done|apply slots_delete; [apply Hs|apply Hl]| | |].
  - intros q [b Hb]. apply lookup_delete_Some in Hb as [Hne Hb].
    destruct (si_owned _ _ _ _ _ _ _ _ _ _ _ _ Hs q) as [[= ?]|Hx]; [by eexists|done|by right].
  - intros k q Hq. apply lookup_delete_ne. intros <-. by eapply loose_not_index.
  - intros q Hq [b Hb]. exists b. rewrite lookup_delete_ne; [done|]. by intros <-.
Qed.

Lemma wp_limbo_release vs s h tm m tid p idx Q :
  store_inv (Some p) vs s h tm m → loose s h tm p idx → unguarded p →
  (∀ s' h', store_inv None vs s' h' tm m → hs_version s' = hs_version s → hs_retired s' = hs_retired s → Q tt s') →
  wp (limbo_release tid p) Q s.
Proof.
  intros Hs Hl Hu HQ. unfold limbo_release. wp_step.
  apply (wp_thread_limbo s h tm); [apply Hs|]. intros s1 id l Hd Hs1 Hret Hat Hlimbo.
  assert (guarded g s1 h) as Hg1 by (apply (guarded_lists s); [apply Hs|apply Hd|done|intros i j q _; by rewrite Hat]).
  assert (owned (Some p) s1 h tm) as Ho1 by (apply (owned_at _ s); [apply Hs|intros x q; by rewrite Hat]).
  pose proof (inv_same (Some p) (Some p) vs s s1 h tm m Hs Hd Hs1 Hg1 Ho1) as Hi.
  assert (loose s1 h tm p idx) as Hl1 by (split; [intros x; rewrite Hat; apply Hl|apply Hl]).
  pose proof (loose_addr _ _ _ _ _ _ (si_heap _ _ _ _ _ _ _ _ _ _ _ _ Hi) Hl1) as Hp.
  pose proof Hl1 as (Hn & Hidx & b & Hb & Es & Ec). destruct (index2size_facts idx Hidx) as (_ & Hsz & _).
  wp_step. unfold load_limbo. wp_step. wp_step. wp_step; [exact Hlimbo|]. wp_step.
  wp_step; [apply negb_true_iff, Z.eqb_neq; change nullptr with 0; lia|]. wp_step. apply wp_slabm.
  apply (wp_heap_size f _ h tid p b); [apply Hi|done|]. intros z Hz. rewrite Es.
  assert (store_inv (Some p) vs (set_hs_slab z s1) h tm m) as Hi2 by (by apply (inv_slab (Some p) (Some p) vs s1 h)).
  wp_step. unfold st_sc. wp_step. rewrite (refines_sc (hs_slab (set_hs_slab z s1)) h) by exact Hz.
  wp_step. eapply wp_pure; [by apply size2index_ok|]. cbv beta. rewrite class_of_class by done.
  destruct (idx <? kLimboCount) eqn:Elt; simpl; last first.
  { apply wp_slabm. apply (wp_heap_release f z h tid p); [done|by right; exists b|]. intros z' Hz'.
    apply (HQ _ (delete p h)); [|apply Hd|exact Hret].
    apply (inv_delete vs s1 h tm m p idx z'); [done|done|done|exact Hz']. }
  apply Z.ltb_lt in Elt. destruct (nthZ_is_Some l idx) as [lst Hlst].
  { rewrite (proj1 (so_limbos _ _ _ Hs1 id l Hlimbo)). lia. }
  rewrite Hlst. simpl. destruct (_ <? kMaxLimboSize).
  - unfold store_limbo. wp_step. apply (HQ _ h); [|apply Hd|exact Hret]. change (set_hs_limbos _ _) with (put_list (set_hs_slab z s1) id l idx (lst ++ [p])).
    apply (inv_same (Some p) None vs (set_hs_slab z s1)); [done|done|apply slots_push; [apply Hi2|done|done|exact Hl1]| |].
    + apply (guarded_lists s1); [done|done|done|]. intros i j q Hq Hatq.
      destruct (put_list_at (set_hs_slab z s1) _ _ _ _ _ _ _ _ Hlimbo Hlst Hatq) as [[[= -> ->] Hin]|[_ Hq0]]; [|done].
      exists l, lst. split; [done|]. split; [done|]. by apply elem_of_app in Hin as [?| ->%list_elem_of_singleton].
    + intros q Hq. right. destruct (Ho1 q Hq) as [[= <-]|[x Hx]].
      * exists (AtLimbo id idx). apply (put_list_in (set_hs_slab z s1) tm id l idx _ _ p Hlimbo Hlst).
        apply elem_of_app. right. by apply list_elem_of_singleton.
      * destruct (put_list_keep (set_hs_slab z s1) tm id l idx (lst ++ [p]) _ x q Hlimbo Hlst Hx) as [?|[-> Hin]]; [by exists x|].
        exists (AtLimbo id idx). apply (put_list_in (set_hs_slab z s1) tm id l idx _ _ q Hlimbo Hlst).
        apply elem_of_app. by left.
  - apply wp_slabm. apply (wp_heap_release f z h tid p); [done|by right; exists b|]. intros z' Hz'.
    apply (HQ _ (delete p h)); [|apply Hd|exact Hret].
    apply (inv_delete vs s1 h tm m p idx z'); [done|done|done|exact Hz'].
Qed.

(** *** The epoch *)

Lemma inv_retire vs s h tm m p idx :
  store_inv (Some p) vs s h tm m → loose s h tm p idx →
  store_inv None vs (set_hs_retired (hs_retired s ++ [LimboRelease p]) s) h tm m.
Proof.
  intros Hs Hl. apply (inv_same (Some p) None vs s); [done|done| |apply guarded_retire, Hs|].
  - eapply slots_retire; [apply Hs|done].
  - intros q Hq. right. destruct (si_owned _ _ _ _ _ _ _ _ _ _ _ _ Hs q Hq) as [[= <-]|[x Hx]].
    + exists AtEpoch. simpl. rewrite fmap_app. apply elem_of_app. right. by left.
    + exists x. destruct x as [k|id ind|]; [done|done|]. simpl in *. rewrite fmap_app. apply elem_of_app. by left.
Qed.

(** *** Writing a record *)

Lemma made_record (c : Z) (old : list Z) key v version :
  0 ≤ version < 2 ^ 62 →
  let r := set_control version (bool_decide (v = None))
    {| kv_ctrl := c; kv_key := key; kv_vlen := lenZ (default [] v);
       kv_value := match v with Some w => memcpy old (take (Z.to_nat (lenZ (default [] v))) w) | None => old end |} in
  record_of r key v ∧ load_version r = version.
Proof.
  intros Hv r. unfold r. match goal with |- context [set_control _ _ ?x] => set (kv := x) end.
  destruct (set_control_spec version (bool_decide (v = None)) kv Hv) as (E1 & E2 & E3 & E4 & E5).
  split; [|done]. unfold record_of. rewrite E1, E2, E4, E5.
  do 3 (split; [done|]). split; [|done]. unfold kv_data. subst kv. cbn [kv_vlen kv_value].
  unfold lenZ. destruct v as [w|]; [|done]. change (default [] (Some w)) with w.
  rewrite Nat2Z.id, (take_ge w) by lia. unfold memcpy. by rewrite take_app_length.
Qed.

Lemma wp_kv_store s p (u : KVPair K → KVPair K) Q :
  p ≠ nullptr → Q tt (set_hs_heap (<[p := u (kv_at zero_key s p)]> (hs_heap s)) s) →
  wp (kv_store zero_key p u) Q s.
Proof.
  intros Hp HQ. unfold kv_store. rewrite (proj2 (Z.eqb_neq _ _)) by done. by wp_step.
Qed.

(** [make_kv] and [set_control] on an address that is at no place. *)
Lemma wp_fill {A} o vs s h tm m p key v version (rest : M (hs_st K) A) E Q :
  store_inv o vs s h tm m → (∀ x, ¬ at_slot s tm x p) → unguarded p → p ≠ nullptr → 0 ≤ version < 2 ^ 62 →
  (∀ hh r, hh !! p = Some r → record_of r key v → load_version r = version →
     store_inv o vs (set_hs_heap hh s) h tm m → wp_e rest E Q (set_hs_heap hh s)) →
  wp_e (kv_make zero_key p key v (lenZ (default [] v)) ;;
        kv_store zero_key p (set_control version (bool_decide (v = None))) ;; rest) E Q s.
Proof.
  intros Hs Hn Hu Hp Hv HQ. apply wp_e_bind, wp_e_wp. unfold kv_make, kv_load. wp_step.
  rewrite (proj2 (Z.eqb_neq _ _)) by done. wp_step. wp_step. unfold make_kv.
  wp_step. wp_step; [by destruct v|]. wp_step. apply wp_kv_store; [done|].
  set (s1 := set_hs_heap _ s). apply wp_e_bind, wp_e_wp, wp_kv_store; [done|].
  assert (store_inv o vs s1 h tm m) as Hs1 by (by apply inv_write).
  assert (kv_at zero_key s1 p = _) as -> by (unfold kv_at; simpl; by rewrite lookup_insert_eq).
  set (r := set_control _ _ _).
  destruct (made_record (kv_ctrl (kv_at zero_key s p)) (kv_value (kv_at zero_key s p)) key v version Hv) as [Hr Hver].
  fold r in Hr, Hver. change (set_hs_heap (<[p := r]> (hs_heap s1)) s1) with (set_hs_heap (<[p := r]> (hs_heap s1)) s).
  apply (HQ _ r); [apply lookup_insert_eq|done|done|]. exact (inv_write o vs s1 h tm m p r Hs1 Hn Hu).
Qed.

Lemma fits_class size n : 0 < size ≤ kMaxMediumSize → fits size n →
  n = index2size_compute (size2index_compute size) ∧ 0 ≤ size2index_compute size < 40.
Proof.
  intros Hs [_ Hn]. destruct (size_class_spec size Hs) as (Hi & _). split; [apply Hn, Hs|done].
Qed.

Lemma wp_write_record vs s h tm m tid key v version (E : error → Prop) Q :
  store_inv None vs s h tm m → 0 < kv_len key v ≤ kMaxMediumSize → 0 ≤ version < 2 ^ 62 →
  (exhausted (hs_slab s) tid (kv_len key v) → E EUB) →
  (∀ s' h' p idx, store_inv (Some p) vs s' h' tm m → loose s' h' tm p idx → unguarded p → fresh_record s' h' key v version p →
     hs_version s' = hs_version s → Q p s') →
  wp_e (write_record sizeof_KVPair key_len zero_key tid key v (lenZ (default [] v)) version (bool_decide (v = None))) E Q s.
Proof.
  intros Hs Hlen Hv HE HQ. unfold write_record. change (sizeof_KVPair + key_len key + lenZ (default [] v)) with (kv_len key v).
  set (size := kv_len key v) in *. apply wp_e_bind, wp_e_wp.
  apply (wp_limbo_acquire vs s h tm m); [done|done| |].
  - intros s1 Hs1 Hd1. rewrite Z.eqb_refl. cbn [negb]. apply wp_e_bind. unfold slabm. apply wp_e_zoom.
    rewrite (proj1 Hd1). apply (wp_heap_acquire f (hs_slab s) h tid size); [apply Hs|lia| | |].
    + intros e [[(-> & _)|(_ & Hgt & _)] Hx]; [by apply HE|lia].
    + intros z Hz Hcase. cbn [reg_pointer null_region]. unfold kv_make, kv_load. rewrite Z.eqb_refl.
      apply wp_e_bind, wp_e_bind, wp_e_err, HE. change kMaxMediumSize with 65536 in *. change kMaxLargeSize with 4194304 in *.
      destruct Hcase as [?|[?|[_ Hx]]]; [lia|lia|done].
    + intros z p b Hz Hno Hfit Hc. destruct (fits_class size _ Hlen Hfit) as [Es Hidx]. set (idx := size2index_compute size) in *.
      assert (∀ x, ¬ at_slot s1 tm x p) as Hn by (intros x; eapply not_at_slot; [apply Hs1|done]).
      assert (unguarded p) as Hu by (eapply new_unguarded; [apply Hs1|done]).
      assert (store_inv (Some p) vs (set_hs_slab z s1) (<[p := b]> h) tm m) as Hs2.
      { apply (inv_slab None (Some p) vs s1 h); [done|done|by apply slots_new; [apply Hs1|]|apply owned_new, Hs1| |].
        - intros k q Hq. apply lookup_insert_ne. intros <-. exact (Hn (AtIndex k) Hq).
        - intros q _ Hq. by apply lookup_insert_is_Some'; right. }
      assert (2 < p < 2 ^ 48) as Hp by (eapply block_addr; [exact Hz|apply lookup_insert_eq]).
      cbn [reg_pointer]. apply (wp_fill (Some p) vs _ (<[p := b]> h) tm m p); [done|exact Hn|done|change nullptr with 0; lia|done|].
      intros hh r Hr Hrec Hver Hs3. apply wp_e_bind, wp_e_wp, wp_slabm.
      apply (wp_heap_publish f z (<[p := b]> h) p b); [done|apply lookup_insert_eq|done|by vm_compute|].
      intros z' Hz'. apply wp_e_wp, wp_ret. rewrite insert_insert_eq in Hz'.
      assert (loose s1 (<[p := set_code (hire_code true 0) b]> h) tm p idx) as Hl.
      { split; [done|]. split; [done|]. exists (set_code (hire_code true 0) b). rewrite lookup_insert_eq. done. }
      apply (HQ _ (<[p := set_code (hire_code true 0) b]> h) p idx); [|exact Hl|done| |apply Hd1].
      * apply (inv_slab (Some p) (Some p) vs (set_hs_heap hh (set_hs_slab z s1)) (<[p := b]> h));
          [exact Hs3|exact Hz'| |apply (owned_new s1), Hs1| |].
        -- apply (slots_same s1); try done. apply slots_new; [apply Hs1|done].
        -- intros k q Hq. rewrite !lookup_insert_ne; [done|intros <-..]; exact (Hn (AtIndex k) Hq).
        -- intros q Hq. rewrite !lookup_insert_ne by (by intros <-). done.
      * exists r, (set_code (hire_code true 0) b). split; [exact Hr|]. split; [done|]. split; [done|].
        split; [apply lookup_insert_eq|apply Hfit].
  - intros s1 p Hs1 Hd1 Hl Hu. set (idx := size2index_compute size) in *.
    pose proof (loose_addr _ _ _ _ _ _ (si_heap _ _ _ _ _ _ _ _ _ _ _ _ Hs1) Hl) as Hp.
    pose proof Hl as (Hn & Hidx & b & Hb & Es & Ec). destruct (size_class_spec size Hlen) as (_ & Hle & _). fold idx in Hle.
    rewrite (proj2 (Z.eqb_neq _ _)) by (change nullptr with 0; lia). cbn [negb].
    apply wp_e_bind, wp_e_wp, wp_kv_store; [change nullptr with 0; lia|].
    set (s2 := set_hs_heap _ s1). assert (store_inv (Some p) vs s2 h tm m) as Hs2 by (by apply inv_write).
    apply (wp_fill (Some p) vs s2 h tm m p); [done|exact Hn|done|change nullptr with 0; lia|done|].
    intros hh r Hr Hrec Hver Hs3. apply wp_e_wp, wp_ret.
    apply (HQ _ h p idx); [exact Hs3|exact Hl|done| |apply Hd1]. exists r, b. split; [exact Hr|]. split; [done|]. split; [done|].
    split; [done|]. rewrite Es. exact Hle.
Qed.

(** *** Versions *)

Definition versions_below (c : Z) vs : Prop := ∀ i n, nthZ vs i = Some n → 0 ≤ n ≤ c.

Definition versions_grow vs vs' : Prop :=
  ∀ j (n : Z), nthZ vs j = Some n → ∃ n', nthZ vs' j = Some n' ∧ n ≤ n'.

Lemma inv_version o vs vs' s h tm m : store_inv o vs s h tm m → store_inv o vs (set_hs_version vs' s) h tm m.
Proof.
  intros [h1 h2 [k1 k2 k3] h4 h5 h6]. constructor; [done|by apply (slots_same s)|by constructor|done|by apply (guarded_same s)|done].
Qed.

Lemma wp_next_version s h tm m c code Q :
  store_inv None (hs_version s) s h tm m → versions_below c (hs_version s) → c < 2 ^ 62 →
  (∀ n, let i := code mod N in let vs := updZ (hs_version s) i (n + 1) in
     nthZ (hs_version s) i = Some n → 0 ≤ n ≤ c → nthZ vs i = Some (n + 1) → versions_below (c + 1) vs →
     versions_grow (hs_version s) vs →
     store_inv None (hs_version s) (set_hs_version vs s) h tm m → Q n (set_hs_version vs s)) →
  wp (next_version N code) Q s.
Proof.
  intros Hs Hb Hc HQ. set (i := code mod N). pose proof (Z.mod_pos_bound code N HN) as Hi. fold i in Hi.
  destruct (nthZ_is_Some (hs_version s) i) as [n Hn]; [rewrite (si_len _ _ _ _ _ _ _ _ _ _ _ _ Hs); lia|].
  pose proof (Hb i n Hn) as Hnr. unfold next_version. wp_step. wp_step. rewrite (proj2 (Z.eqb_neq N 0)) by lia.
  wp_step. wp_step; [exact Hn|]. wp_step. wp_step. wp_step. fold i.
  assert (u64 (n + 1) = n + 1) as -> by (unfold u64, wrap; apply Z.mod_small; lia).
  pose proof (nthZ_Some _ _ _ Hn) as Hil. apply HQ; [done|done|by apply nthZ_updZ_eq| | |by apply inv_version].
  - intros j x Hx. destruct (decide (i = j)) as [<-|Hne].
    + rewrite nthZ_updZ_eq in Hx by done. injection Hx as <-. lia.
    + rewrite nthZ_updZ_ne in Hx by done. specialize (Hb j x Hx). lia.
  - intros j x Hx. destruct (decide (i = j)) as [<-|Hne].
    + exists (n + 1). rewrite nthZ_updZ_eq by done. split; [done|]. assert (x = n) by congruence. lia.
    + exists x. by rewrite nthZ_updZ_ne.
Qed.

(** *** The index *)

Lemma few_keys_table o vs s h tm m key : store_inv o vs s h tm m → few_keys cfg m key → few_collisions cfg tm key.
Proof.
  intros Hs Hk l Hnd Hl. apply Hk; [done|]. intros k Hin. destruct (Hl k Hin) as ([p Hp] & Hrest).
  split; [|done]. pose proof (da_record _ _ _ _ _ _ _ _ _ (si_data _ _ _ _ _ _ _ _ _ _ _ _ Hs) k) as Hr.
  rewrite Hp in Hr. destruct (m !! k); [by eexists|done].
Qed.

(** The new record is newer than the one in the index. *)
Lemma new_is_newer x vs s h tm m key v version p q :
  store_inv x vs s h tm m → fresh_record s h key v version p → nthZ vs (hash_fn key mod N) = Some version →
  tm !! key = Some q → ¬ not_older cfg (hs_heap s) p q.
Proof.
  intros Hs (r & b & Hr & _ & Hver & _) Hn Hq (_ & _ & r' & o & Hr' & Ho & Hle).
  pose proof (da_record _ _ _ _ _ _ _ _ _ (si_data _ _ _ _ _ _ _ _ _ _ _ _ Hs) key) as Hrec. rewrite Hq in Hrec.
  destruct (m !! key) as [w|]; [|done]. destruct Hrec as (o' & b' & n & Ho' & _ & _ & _ & Hn' & Hlt).
  assert (o' = o) as -> by congruence. assert (r' = r) as -> by congruence. assert (n = version) as -> by congruence. lia.
Qed.

Lemma record_ok_grow vs vs' s h k p v : versions_grow vs vs' → record_ok vs s h k p v → record_ok vs' s h k p v.
Proof.
  intros Hg (r & b & n & Hr & Hv & Hb & Hle & Hn & Hlt). destruct (Hg _ _ Hn) as (n' & Hn' & Hle').
  exists r, b, n'. do 5 (split; [done|]). lia.
Qed.

(** The record at [p] enters the index. *)
Lemma index_put vs s h tm m key v version p idx t' :
  store_inv (Some p) vs s h tm m → loose s h tm p idx → fresh_record s h key v version p →
  nthZ (hs_version s) (hash_fn key mod N) = Some (version + 1) → versions_grow vs (hs_version s) →
  lenZ (hs_version s) = N →
  ht_inv cfg (hs_heap s) t' → table_rel cfg (hs_heap s) t' (<[key := p]> tm) →
  let s' := set_hs_index t' s in let tm' := <[key := p]> tm in
  store_inv (tm !! key) (hs_version s) s' h tm' (<[key := v]> m) ∧ ∀ q, tm !! key = Some q → ∃ i, loose s' h tm' q i.
Proof.
  intros Hs Hl (r & b & Hr & Hrec & Hver & Hb & Hle) Hn Hg HlN Ht Htm s' tm'.
  destruct (slots_index s h tm key p idx (si_slots _ _ _ _ _ _ _ _ _ _ _ _ Hs) Hl) as [Hsl Hold].
  split; [|exact Hold]. constructor; [apply Hs|by apply (slots_same s)| |done|apply (guarded_same s); [apply Hs|done..]|].
  2: { intros q Hq. destruct (si_owned _ _ _ _ _ _ _ _ _ _ _ _ Hs q Hq) as [[= <-]|[x Hx]].
    - right. exists (AtIndex key). apply lookup_insert_eq.
    - destruct x as [k|id ind|]; [|right; by exists (AtLimbo id ind)|right; by exists AtEpoch].
      destruct (decide (key = k)) as [<-|Hne]; [by left|]. right. exists (AtIndex k). simpl. unfold tm'. by rewrite lookup_insert_ne. }
  constructor; [done|done|]. intros k. destruct (decide (key = k)) as [<-|Hne].
  - unfold tm'. rewrite !lookup_insert_eq. exists r, b, (version + 1). do 5 (split; [done|]). lia.
  - unfold tm'. rewrite !lookup_insert_ne by done.
    pose proof (da_record _ _ _ _ _ _ _ _ _ (si_data _ _ _ _ _ _ _ _ _ _ _ _ Hs) k) as Hk.
    destruct (tm !! k) as [q|]; [|done]. destruct (m !! k) as [w|]; [|done]. exact (record_ok_grow _ _ s h k q w Hg Hk).
Qed.

(** [upsert] of the index. *)
Lemma wp_index_upsert vs s h tm m key v version p idx Q :
  store_inv (Some p) vs s h tm m → loose s h tm p idx → fresh_record s h key v version p →
  nthZ vs (hash_fn key mod N) = Some version →
  nthZ (hs_version s) (hash_fn key mod N) = Some (version + 1) → versions_grow vs (hs_version s) →
  lenZ (hs_version s) = N → few_keys cfg m key →
  (∀ t', let s' := set_hs_index t' s in let tm' := <[key := p]> tm in
     store_inv (tm !! key) (hs_version s) s' h tm' (<[key := v]> m) →
     (∀ q, tm !! key = Some q → ∃ i, loose s' h tm' q i) → Q (default kNotFound (tm !! key)) s') →
  wp (HashStore.idx (λ hp, HashTable_upsert cfg hp p (hash_code key))) Q s.
Proof.
  intros Hs Hl Hfr Hn0 Hn Hg HlN Hfew HQ. pose proof (loose_addr _ _ _ _ _ _ (si_heap _ _ _ _ _ _ _ _ _ _ _ _ Hs) Hl) as Hp.
  pose proof (si_data _ _ _ _ _ _ _ _ _ _ _ _ Hs) as [k1 k2 k3].
  pose proof Hfr as (r & b & Hr & (Ek & _) & _). unfold HashStore.idx. wp_step. wp_step.
  destruct (table_upsert_ok cfg Hcfg (hs_heap s) (hs_index s) tm p r) as (t' & tm2 & q & Hop & Ht & Htm & Hmap);
    [done|done|done|done|rewrite Ek; by eapply few_keys_table|].
  wp_step. rewrite Ek in Hop. apply wp_Ok. exists q, t'. split; [exact Hop|]. rewrite Ek in Hmap. unfold map_upsert in Hmap.
  assert (tm2 = <[key := p]> tm ∧ q = default kNotFound (tm !! key)) as [-> ->].
  { destruct (tm !! key) as [old|] eqn:E; [|by destruct Hmap].
    destruct Hmap as [[Hno _]|(_ & -> & ->)]; [|done]. by destruct (new_is_newer (Some p) vs s h tm m key v version p old). }
  destruct (index_put vs s h tm m key v version p idx t') as [Hs' Hold]; try done. by apply HQ.
Qed.
(** [update] of the index: nothing happens when the key is not there. *)
Lemma wp_index_update vs s h tm m key v version p idx Q :
  store_inv (Some p) vs s h tm m → loose s h tm p idx → fresh_record s h key v version p →
  nthZ vs (hash_fn key mod N) = Some version →
  nthZ (hs_version s) (hash_fn key mod N) = Some (version + 1) → versions_grow vs (hs_version s) →
  lenZ (hs_version s) = N →
  (tm !! key = None → ∀ t', let s' := set_hs_index t' s in
     store_inv (Some p) vs s' h tm m → loose s' h tm p idx → Q kNotFound s') →
  (∀ q t', tm !! key = Some q → let s' := set_hs_index t' s in let tm' := <[key := p]> tm in
     store_inv (Some q) (hs_version s) s' h tm' (<[key := v]> m) → (∃ i, loose s' h tm' q i) → Q q s') →
  wp (HashStore.idx (λ hp, HashTable_update cfg hp p (hash_code key))) Q s.
Proof.
  intros Hs Hl Hfr Hn0 Hn Hg HlN HQn HQ. pose proof (loose_addr _ _ _ _ _ _ (si_heap _ _ _ _ _ _ _ _ _ _ _ _ Hs) Hl) as Hp.
  pose proof (si_data _ _ _ _ _ _ _ _ _ _ _ _ Hs) as [k1 k2 k3].
  pose proof Hfr as (r & b & Hr & (Ek & _) & _). unfold HashStore.idx. wp_step. wp_step.
  destruct (table_update_ok cfg Hcfg (hs_heap s) (hs_index s) tm p r) as (t' & tm2 & q & Hop & Ht & Htm & Hmap);
    [done|done|done|done|].
  wp_step. rewrite Ek in Hop. apply wp_Ok. exists q, t'. split; [exact Hop|]. rewrite Ek in Hmap. unfold map_update in Hmap.
  destruct (tm !! key) as [old|] eqn:E.
  - destruct Hmap as [[Hno _]|(_ & -> & ->)]; [by destruct (new_is_newer (Some p) vs s h tm m key v version p old)|].
    destruct (index_put vs s h tm m key v version p idx t') as [Hs' Hold]; try done. rewrite E in Hs'.
    apply HQ; [done|exact Hs'|by apply Hold].
  - destruct Hmap as [-> ->]. apply HQn; [done| |done]. destruct Hs as [h1 h2 h3 h4 h5 h6].
    constructor; [done|by apply (slots_same s)|by constructor|done|by apply (guarded_same s)|done].
Qed.

(** *** Operations *)

(** Between the write of a record and the step of the index: the record at [p] is
    at no place, and has the last version of its key. *)
Definition written c s h tm m key v p idx : Prop :=
  ∃ vs version, store_inv (Some p) vs s h tm m ∧ loose s h tm p idx ∧ unguarded p ∧ fresh_record s h key v version p ∧
    nthZ vs (hash_fn key mod N) = Some version ∧ nthZ (hs_version s) (hash_fn key mod N) = Some (version + 1) ∧
    versions_grow vs (hs_version s) ∧ lenZ (hs_version s) = N ∧ versions_below c (hs_version s).

Lemma written_addr c s h tm m key v p idx : written c s h tm m key v p idx → 2 < p.
Proof. intros (vs & n & Hs & Hl & _). eapply loose_addr; [apply Hs|done]. Qed.

Lemma inv_grow o vs vs' s h tm m :
  store_inv o vs s h tm m → versions_grow vs vs' → lenZ vs' = N → store_inv o vs' s h tm m.
Proof.
  intros [h1 h2 [k1 k2 k3] h4 h5 h6] Hg Hl. constructor; [done|done| |done|done|done]. constructor; [done|done|]. intros k.
  specialize (k3 k). destruct (tm !! k) as [p|]; [|done]. destruct (m !! k) as [v|]; [|done].
  exact (record_ok_grow _ _ s h k p v Hg k3).
Qed.

Lemma wp_write c s m tid key v (rest : Z → M (hs_st K) bool) (E : error → Prop) Q :
  store_rel c s m → c < 2 ^ 62 → 0 < kv_len key v ≤ kMaxMediumSize →
  (exhausted (hs_slab s) tid (kv_len key v) → E EUB) →
  (∀ s' h tm p idx, written (c + 1) s' h tm m key v p idx → wp (rest p) Q s') →
  wp_e (version ← next_version N (hash_code key);
        kv ← write_record sizeof_KVPair key_len zero_key tid key v (lenZ (default [] v)) version (bool_decide (v = None));
        rest kv) E Q s.
Proof.
  intros [(h & tm & Hs) Hb] Hc Hlen HE HQ. apply wp_e_bind, wp_e_wp.
  apply (wp_next_version s h tm m c); [done|done|done|]. intros n i vs Hn Hnr Hn' Hb' Hg Hs1.
  apply wp_e_bind. apply (wp_write_record (hs_version s) _ h tm m); [exact Hs1|done|lia|exact HE|].
  intros s2 h2 p idx Hs2 Hl Hu Hfr Hv2. apply wp_e_wp. apply (HQ s2 h2 tm p idx). exists (hs_version s), n.
  change (hs_version (set_hs_version vs s)) with vs in Hv2. rewrite Hv2. do 7 (split; [done|]). split; [|done].
  unfold vs. rewrite lenZ_updZ. apply Hs.
Qed.

(** A record of the index is at an address that no result of the index takes. *)
Lemma index_addr o vs s h tm m k p : store_inv o vs s h tm m → tm !! k = Some p → 2 < p.
Proof.
  intros Hs Hp. pose proof (da_record _ _ _ _ _ _ _ _ _ (si_data _ _ _ _ _ _ _ _ _ _ _ _ Hs) k) as Hr.
  rewrite Hp in Hr. destruct (m !! k) as [v|]; [|done]. destruct Hr as (r & b & n & _ & _ & Hb & _).
  eapply block_addr; [apply Hs|done].
Qed.

Lemma index_key o vs s h tm m k : store_inv o vs s h tm m → m !! k = None ↔ tm !! k = None.
Proof.
  intros Hs. pose proof (da_record _ _ _ _ _ _ _ _ _ (si_data _ _ _ _ _ _ _ _ _ _ _ _ Hs) k) as Hr.
  by destruct (tm !! k), (m !! k).
Qed.

(** The end of a successful operation: the old record, if there is one, goes to
    the epoch. *)
Lemma wp_retire_old c s h tm m q kv (b : bool) Q :
  store_inv (Some q) (hs_version s) s h tm m → versions_below c (hs_version s) → 2 < q → (∃ i, loose s h tm q i) →
  (∀ s', store_rel c s' m → Q b s') →
  wp (let old := if q =? kExpired then kv else q in retire old ;; mret b) Q s.
Proof.
  intros Hs Hb Hq [i Hl] HQ. rewrite (proj2 (Z.eqb_neq q kExpired)) by (unfold kExpired; lia). cbv zeta.
  unfold retire. cbn [kWriteOpt]. wp_step. wp_step. wp_step. apply HQ. split; [|done]. exists h, tm.
  by apply (inv_retire _ s h tm m q i).
Qed.

Lemma wp_upsert c s m tid key value (E : error → Prop) Q :
  store_rel c s m → c < 2 ^ 62 → 0 < kv_len key (Some value) ≤ kMaxMediumSize → few_keys cfg m key →
  (exhausted (hs_slab s) tid (kv_len key (Some value)) → E EUB) →
  (∀ s', store_rel (c + 1) s' (<[key := Some value]> m) → Q (bool_decide (m !! key = None)) s') →
  wp_e (upsert cfg N sizeof_KVPair key_len zero_key tid key value (lenZ value)) E Q s.
Proof.
  intros Hr Hc Hlen Hfew HE HQ. unfold upsert.
  apply (wp_write c s m tid key (Some value)); [done|done|done|done|].
  intros s1 h tm p idx Hw. destruct Hw as (vs & n & Hs & Hl & Hu & Hfr & Hn0 & Hn & Hg & HlN & Hb).
  wp_step. apply (wp_index_upsert vs s1 h tm m key (Some value) n p idx); try done.
  intros t' s2 tm2 Hs2 Hold. pose proof (index_key _ _ _ _ _ _ key Hs) as Hk. destruct (tm !! key) as [q|] eqn:Eq.
  - pose proof (index_addr _ _ _ _ _ _ _ _ Hs Eq) as Hq. simpl. rewrite (proj2 (Z.eqb_neq q kNotFound)) by (unfold kNotFound; lia).
    rewrite bool_decide_eq_false_2 in HQ by (intros Hm; by apply Hk in Hm).
    eapply (wp_retire_old (c + 1) s2 h tm2); [exact Hs2|exact Hb|done|by apply Hold|exact HQ].
  - simpl. wp_step. rewrite bool_decide_eq_true_2 in HQ by (by apply Hk).
    apply HQ. split; [|exact Hb]. by exists h, tm2.
Qed.

Lemma wp_update c s m tid key value (E : error → Prop) Q :
  store_rel c s m → c < 2 ^ 62 → 0 < kv_len key (Some value) ≤ kMaxMediumSize →
  (exhausted (hs_slab s) tid (kv_len key (Some value)) → E EUB) →
  (∀ s', store_rel (c + 1) s' (alter (λ _, Some value) key m) → Q (bool_decide (m !! key ≠ None)) s') →
  wp_e (update cfg N sizeof_KVPair key_len zero_key tid key value (lenZ value)) E Q s.
Proof.
  intros Hr Hc Hlen HE HQ. unfold update.
  apply (wp_write c s m tid key (Some value)); [done|done|done|done|].
  intros s1 h tm p idx Hw. destruct Hw as (vs & n & Hs & Hl & Hu & Hfr & Hn0 & Hn & Hg & HlN & Hb).
  pose proof (index_key _ _ _ _ _ _ key Hs) as Hk.
  wp_step. apply (wp_index_update vs s1 h tm m key (Some value) n p idx); try done.
  - intros Eq t' s2 Hs2 Hl2. rewrite Z.eqb_refl. cbn [kWriteOpt]. apply Hk in Eq.
    rewrite bool_decide_eq_false_2 in HQ by (intros Hne; by apply Hne).
    wp_step. apply (wp_limbo_release vs s2 h tm m tid p idx); [done|done|done|]. intros s3 h3 Hs3 Hv3 _. wp_step.
    rewrite alter_id in HQ by (intros w Hw; rewrite Eq in Hw; done). apply HQ.
    change (hs_version s2) with (hs_version s1) in Hv3. rewrite <-Hv3 in Hg, HlN, Hb.
    split; [|exact Hb]. exists h3, tm. by apply (inv_grow None vs).
  - intros q t' Eq s2 tm2 Hs2 Hold. pose proof (index_addr _ _ _ _ _ _ _ _ Hs Eq) as Hq.
    rewrite (proj2 (Z.eqb_neq q kNotFound)) by (unfold kNotFound; lia).
    assert (m !! key ≠ None) as Hne by (rewrite Hk; by rewrite Eq).
    rewrite bool_decide_eq_true_2 in HQ by done.
    eapply (wp_retire_old (c + 1) s2 h tm2); [exact Hs2|exact Hb|done|done|].
    intros s3 Hs3. apply HQ. replace (alter _ key m) with (<[key := Some value]> m); [done|].
    apply map_eq. intros k. destruct (decide (key = k)) as [<-|Hkn].
    + rewrite lookup_insert_eq, lookup_alter_eq. by destruct (m !! key).
    + by rewrite lookup_insert_ne, lookup_alter_ne.
Qed.
(** [remove] of a key that has a record. *)
Lemma wp_remove c s m tid key v (E : error → Prop) Q :
  store_rel c s m → c < 2 ^ 62 → 0 < kv_len key None ≤ kMaxMediumSize → few_keys cfg m key → m !! key = Some v →
  (exhausted (hs_slab s) tid (kv_len key None) → E EUB) →
  (∀ s', store_rel (c + 1) s' (<[key := None]> m) → Q true s') →
  wp_e (remove cfg N sizeof_KVPair key_len zero_key tid key) E Q s.
Proof.
  intros Hr Hc Hlen Hfew Hm HE HQ. unfold remove.
  apply (wp_write c s m tid key None); [done|done|done|done|].
  intros s1 h tm p idx Hw. destruct Hw as (vs & n & Hs & Hl & Hu & Hfr & Hn0 & Hn & Hg & HlN & Hb).
  pose proof Hl as (_ & _ & b & Hbl & _). wp_step. apply wp_slabm.
  apply (wp_heap_size f _ h tid p b); [apply Hs|done|]. intros z Hz. wp_step. wp_step. wp_step.
  set (s2 := set_hs_tomb _ (set_hs_slab z s1)).
  assert (store_inv (Some p) vs s2 h tm m) as Hs2.
  { destruct (inv_slab (Some p) (Some p) vs s1 h h tm m z) as [h1 h2 h3 h4 h5 h6]; [done|done|apply Hs|apply Hs|done|done|].
    constructor; [done|by apply (slots_same (set_hs_slab z s1))|destruct h3; by constructor|done| |done].
    by apply (guarded_same (set_hs_slab z s1)). }
  apply (wp_index_upsert vs s2 h tm m key None n p idx); try done.
  intros t' s3 tm3 Hs3 Hold. pose proof (index_key _ _ _ _ _ _ key Hs) as Hk. destruct (tm !! key) as [q|] eqn:Eq.
  - pose proof (index_addr _ _ _ _ _ _ _ _ Hs Eq) as Hq. simpl. rewrite (proj2 (Z.eqb_neq q kNotFound)) by (unfold kNotFound; lia).
    eapply (wp_retire_old (c + 1) s3 h tm3); [exact Hs3|exact Hb|done|by apply Hold|exact HQ].
  - rewrite (proj2 Hk eq_refl) in Hm. done.
Qed.

(** What [lookup] returns: the record of the key, unless it is a tombstone. *)
Definition found s (w : option (list Z)) p : Prop :=
  match w with
  | None => p = kNotFound
  | Some value => p ≠ kNotFound ∧ ∃ r, hs_heap s !! p = Some r ∧ kv_data r = value
  end.

(** A reader enters the epoch and finds the record of a key. *)
Lemma inv_enter o vs s h tm m k p r :
  store_inv o vs s h tm m → tm !! k = Some p → hs_heap s !! p = Some r →
  StoreSpec.store_inv cfg N sizeof_KVPair key_len f (enter_guard s p r) o vs s h tm m.
Proof.
  intros [h1 h2 h3 h4 h5 h6] Hp Hr. constructor; [done..| |done]. split; [done|]. intros q w Hq. simpl in Hq.
  apply lookup_singleton_Some in Hq as [<- <-]. assert (at_slot s tm (AtIndex k) p) as Hat by done.
  destruct (so_block _ _ _ h2 _ _ Hat) as (idx & (_ & b & Hb & _) & _). split; [done|]. split; [by eexists|].
  split.
  - intros id ind Hl. assert (at_slot s tm (AtLimbo id ind) p) as Hl' by done. by pose proof (so_disj _ _ _ h2 _ _ _ Hat Hl').
  - simpl. rewrite take_ge by (rewrite length_fmap; lia). intros He. assert (at_slot s tm AtEpoch p) as He' by done.
    by pose proof (so_disj _ _ _ h2 _ _ _ Hat He').
Qed.

Lemma wp_lookup c s m key Q :
  store_rel c s m →
  (∀ p, found s (mjoin (m !! key)) p →
     (∀ r, p ≠ kNotFound → hs_heap s !! p = Some r →
        StoreSpec.store_rel cfg N sizeof_KVPair key_len f (enter_guard s p r) c s m) → Q p s) →
  wp (lookup cfg zero_key key) Q s.
Proof.
  intros [(h & tm & Hs) Hver] HQ. pose proof (si_data _ _ _ _ _ _ _ _ _ _ _ _ Hs) as [k1 k2 k3]. specialize (k3 key).
  pose proof (block_addr _ _ : ∀ p b, refines f (hs_slab s) h → _) as Haddr.
  unfold lookup, HashStore.idx. wp_step. wp_step. wp_step. wp_step. apply wp_Ok. eexists _, (hs_index s).
  split; [by apply (table_lookup_ok cfg Hcfg (hs_heap s) (hs_index s) tm)|].
  replace (set_hs_index (hs_index s) s) with s by (by destruct s).
  destruct (tm !! key) as [p|] eqn:Ep; simpl; last first.
  { wp_step. apply HQ; [by destruct (m !! key)|done]. }
  destruct (m !! key) as [v|]; [|done]. destruct k3 as (r & b & n & Hr & (_ & _ & Ht & Hd & _) & Hb & _).
  assert (2 < p) as Hp by (eapply Haddr; [apply Hs|done]).
  rewrite (proj2 (Z.eqb_neq p kNotFound)) by (unfold kNotFound; lia). unfold kv_load.
  rewrite (proj2 (Z.eqb_neq p nullptr)) by (change nullptr with 0; lia). wp_step. wp_step. wp_step.
  assert (kv_at zero_key s p = r) as -> by (unfold kv_at; by rewrite Hr). rewrite Ht. apply HQ.
  - destruct v as [w|]; simpl; [|done]. split; [unfold kNotFound; lia|]. by exists r.
  - destruct v as [w|]; simpl; [|done]. intros o _ Ho. split; [|done]. exists h, tm. by apply (inv_enter None _ s h tm m key).
Qed.
End lemmas.

Section epoch.
Context `{UtilSpec} `{UnorderedMapSpec} `{DenseSpec} `{SimdSpec} {K : Type} `{Countable K} `{HashFnSpec K}.
Variable cfg : HashConfig.
Hypothesis Hcfg : wf_config cfg.
Variable N : Z.
Hypothesis HN : 0 < N.
Variable sizeof_KVPair : Z.
Variable key_len : K → Z.
Variable f : ExtentFile.
Hypothesis Hf : 2 < extents f ∧ file_end f ≤ 2 ^ 48.
Implicit Types (s : hs_st K) (h : heap) (tm : gmap K Z) (m : gmap K (option (list Z))) (g : guard (K := K)).

Abbreviation store_inv := (store_inv cfg N sizeof_KVPair key_len f).
Abbreviation store_rel := (store_rel cfg N sizeof_KVPair key_len f).

(** A retired function may run when no reader has found a record, or when it is
    one of those that do not wait for the reader. *)
Definition may_expire g : Prop := gd_found g = ∅ ∨ (0 < gd_grace g)%nat.

Lemma guarded_expire g s h c cs :
  guarded g s h → may_expire g → hs_retired s = c :: cs →
  guarded (expire_guard g) (set_hs_retired cs s) h ∧ unguarded (expire_guard g) (closure_ptr c).
Proof.
  intros [Hn Hg] He E. rewrite E in Hn, Hg. simpl in Hn, Hg. destruct g as [P [|n]]; simpl in *.
  - unfold may_expire in He. simpl in He. destruct He as [->|]; [|lia]. split; [|by apply (lookup_empty (M := gmap Z))].
    split; [simpl; lia|]. intros q o Hq. simpl in Hq. by apply (lookup_empty_Some (M := gmap Z)) in Hq.
  - split.
    + split; [simpl; lia|]. intros q o Hq. destruct (Hg q o Hq) as (Hr & Hb & Hl & Ht). do 3 (split; [done|]).
      intros Hin. apply Ht. by right.
    + unfold unguarded. simpl. destruct (P !! closure_ptr c) as [o|] eqn:Ho; [|done].
      destruct (Hg _ o Ho) as (_ & _ & _ & Ht). exfalso. apply Ht. by left.
Qed.

Lemma inv_expire_none g o vs s h tm m :
  store_inv g o vs s h tm m → hs_retired s = [] → store_inv (expire_guard g) o vs s h tm m.
Proof.
  intros [h1 h2 h3 h4 [Hn Hg] h6] E. constructor; [done..| |done]. rewrite E in Hn. simpl in Hn. split; [simpl; lia|].
  intros q w Hq. destruct (Hg q w Hq) as (Hr & Hb & Hl & _). rewrite E. simpl. rewrite take_nil.
  do 3 (split; [done|]). apply not_elem_of_nil.
Qed.

Lemma wp_run_closure g vs s h tm m tid Q :
  store_inv g None vs s h tm m → may_expire g →
  (∀ s' h', store_inv (expire_guard g) None vs s' h' tm m → hs_version s' = hs_version s →
     hs_retired s' = tail (hs_retired s) → Q tt s') →
  wp (run_closure tid) Q s.
Proof.
  intros Hs He HQ. unfold run_closure. wp_step. wp_step. destruct (hs_retired s) as [|c cs] eqn:E.
  - wp_step. apply (HQ s h); [by apply inv_expire_none|done|by rewrite E].
  - destruct (slots_expire s h tm c cs (si_slots _ _ _ _ _ _ _ _ _ _ _ _ Hs) E) as (p & idx & -> & Hsl & Hl).
    destruct (guarded_expire g s h _ cs (si_guard _ _ _ _ _ _ _ _ _ _ _ _ Hs) He E) as [Hg Hu].
    wp_step. wp_step. apply (wp_limbo_release cfg N sizeof_KVPair key_len f Hf (expire_guard g) vs _ h tm m tid p idx).
    + destruct Hs as [h1 h2 h3 h4 h5 h6]. constructor; [done|exact Hsl| |done|exact Hg|].
      * by apply (data_same cfg N sizeof_KVPair key_len vs s).
      * intros q Hq. destruct (h6 q Hq) as [?|[x Hx]]; [done|]. destruct x as [k|id ind|].
        -- right. by exists (AtIndex k).
        -- right. by exists (AtLimbo id ind).
        -- simpl in Hx. rewrite E in Hx. apply elem_of_cons in Hx as [-> |Hx]; [by left|right; by exists AtEpoch].
    + done.
    + done.
    + intros s' h' Hs' Hv Hret. by apply (HQ s' h').
Qed.

(** [size()] counts the keys, those that have been removed too. *)
Lemma store_size_ok g c s m : store_rel g c s m → HashTable_size (hs_index s) = Z.of_nat (size m).
Proof.
  intros [(h & tm & Hs) _]. pose proof (si_data _ _ _ _ _ _ _ _ _ _ _ _ Hs) as [k1 k2 _].
  rewrite (table_size_ok cfg Hcfg (hs_heap s) (hs_index s) tm) by done. f_equal. rewrite <-!size_dom. f_equal.
  apply leibniz_equiv. intros k. rewrite !elem_of_dom. pose proof (index_key _ _ _ _ _ _ _ _ _ _ _ _ k Hs) as Hk.
  rewrite <-!not_eq_None_Some. by rewrite Hk.
Qed.

(** A step of the epoch. *)
Lemma wp_expire g c s m tid Q :
  store_rel g c s m → may_expire g → 
  (∀ s', store_rel (expire_guard g) c s' m → hs_retired s' = tail (hs_retired s) → Q tt s') → wp (run_closure tid) Q s.
Proof.
  intros [(h & tm & Hs) Hb] He HQ. apply (wp_run_closure g (hs_version s) s h tm m); [done|done|]. intros s' h' Hs' Hv Hret.
  apply HQ; [|done]. split; [exists h', tm; by rewrite Hv|]. by rewrite Hv.
Qed.

(** When nobody reads, everything that has been retired can be taken back. *)
Lemma wp_epoch_clear g c s m tid Q :
  store_rel g c s m → gd_found g = ∅ → (∀ s' g', store_rel g' c s' m → hs_retired s' = [] → Q tt s') →
  wp (epoch_clear tid) Q s.
Proof.
  intros Hr Hg HQ. unfold epoch_clear. wp_step. wp_step. set (n := length (hs_retired s)).
  apply (wp_mfor (λ i s', ∃ g', gd_found g' = ∅ ∧ store_rel g' c s' m ∧
    Z.of_nat (length (hs_retired s')) = Z.of_nat n - i)).
  - exists g. split; [done|]. split; [done|]. unfold n. lia.
  - intros i s1 Hi (g1 & Hg1 & Hr1 & Hn1). apply (wp_expire g1 c s1 m); [done|by left|].
    intros s2 Hr2 E2. exists (expire_guard g1). split; [done|]. split; [done|]. rewrite E2. destruct (hs_retired s1); simpl in *; lia.
  - intros s1 (g1 & _ & Hr1 & Hn1). apply (HQ s1 g1); [done|]. apply length_zero_iff_nil. lia.
Qed.

(** The constructor, on an allocator in normal operation. *)
Lemma new_store_rel z : refines f z ∅ → 0 ≤ kInitDepth cfg ≤ 32 →
  ∃ s, HashStore_new cfg N z ∅ = Ok s tt ∧ store_rel no_guard 0 s ∅.
Proof.
  intros Hz Hd. destruct (table_new_ok cfg Hcfg (∅ : gmap Z (KVPair K)) (kInitDepth cfg) 0 tt) as (t & Ht & Hi & Hrel & _);
    [lia|lia|]. unfold HashStore_new. rewrite Ht. eexists. split; [reflexivity|].
  split.
  - exists ∅, ∅. constructor; [exact Hz| | | | |].
    + constructor; simpl; try (intros ? ? Hx; by apply lookup_empty_Some in Hx).
      * intros [k|id ind|] p Hp; simpl in Hp; [by apply (lookup_empty_Some (M := gmap K)) in Hp| |by apply not_elem_of_nil in Hp].
        destruct Hp as (l & lst & Hl & _). by apply (lookup_empty_Some (M := gmap Z)) in Hl.
      * intros [k|id ind|] y p Hp _; simpl in Hp; [by apply (lookup_empty_Some (M := gmap K)) in Hp| |by apply not_elem_of_nil in Hp].
        destruct Hp as (l & lst & Hl & _). by apply (lookup_empty_Some (M := gmap Z)) in Hl.
      * intros id l ind lst Hl. by apply (lookup_empty_Some (M := gmap Z)) in Hl.
      * apply NoDup_nil_2.
      * intros c Hc. by apply not_elem_of_nil in Hc.
      * intros id [l Hl]. by apply (lookup_empty_Some (M := gmap Z)) in Hl.
      * intros tid tid' id Hx. by apply (lookup_empty_Some (M := gmap Z)) in Hx.
    + constructor; simpl; [done|done|]. intros k. by rewrite !lookup_empty.
    + simpl. rewrite lenZ_replicate. lia.
    + split; [simpl; lia|]. intros p r Hp. simpl in Hp. by apply (lookup_empty_Some (M := gmap Z)) in Hp.
    + intros p [b Hp]. by apply (lookup_empty_Some (M := gmap Z)) in Hp.
  - intros i n Hn. simpl in Hn. pose proof (nthZ_Some _ _ _ Hn) as Hr. rewrite lenZ_replicate in Hr.
    rewrite nthZ_replicate in Hn by done. injection Hn as <-. lia.
Qed.
End epoch.
