(* ===== verification/StoreMap.v ===== *)
(** * The store as a map

    [store_refines_map]: a program that calls [upsert], [update], [remove] and
    [lookup] from any threads, each call depending on the results before it, with
    the steps of the epoch anywhere in between, sees the results of a finite map.
    The theorems before it state the same of the single operations. *)

From S2P Require Export StoreSpec.
Import Pmem.

(** ** Definitions *)

(** [kv_data] of the record that [lookup] returns, as the callers read it. *)
Inductive store_op (K : Type) :=
| SUpsert (tid : Z) (key : K) (value : list Z)
| SUpdate (tid : Z) (key : K) (value : list Z)
| SRemove (tid : Z) (key : K)
| SLookup (key : K)
| SSize
| SExpire (tid : Z).
Arguments SUpsert {K} tid key value.
Arguments SUpdate {K} tid key value.
Arguments SRemove {K} tid key.
Arguments SLookup {K} key.
Arguments SSize {K}.
Arguments SExpire {K} tid.

Inductive store_result := SBool (b : bool) | SValue (v : option (list Z)) | SInt (n : Z) | SUnit.

Inductive store_client (K : Type) :=
| SDone
| SDo (op : store_op K) (k : store_result → store_client K).
Arguments SDone {K}.
Arguments SDo {K} op k.

Section map.
Context {K : Type} `{Countable K}.
Implicit Types (m : gmap K (option (list Z))) (op : store_op K) (c : store_client K).

(** The operations on the map.  A removed key keeps an entry, without a value. *)
Definition map_op m op : gmap K (option (list Z)) * store_result :=
  match op with
  | SUpsert _ key value => (<[key := Some value]> m, SBool (bool_decide (m !! key = None)))
  | SUpdate _ key value => (alter (λ _, Some value) key m, SBool (bool_decide (m !! key ≠ None)))
  | SRemove _ key => (<[key := None]> m, SBool true)
  | SLookup key => (m, SValue (mjoin (m !! key)))
  | SSize => (m, SInt (Z.of_nat (size m)))
  | SExpire _ => (m, SUnit)
  end.

Fixpoint map_client m c : gmap K (option (list Z)) * list store_result :=
  match c with
  | SDone => (m, [])
  | SDo op k =>
      let '(m', r) := map_op m op in
      let '(m2, l) := map_client m' (k r) in (m2, r :: l)
  end.

Fixpoint client_calls m c : Z :=
  match c with
  | SDone => 0
  | SDo op k => let '(m', r) := map_op m op in 1 + client_calls m' (k r)
  end.

(** The steps of the epoch in the run. *)
Definition is_expire op : nat := match op with SExpire _ => 1 | _ => 0 end.
Fixpoint client_expires m c : nat :=
  match c with
  | SDone => 0
  | SDo op k => let '(m', r) := map_op m op in (is_expire op + client_expires m' (k r))%nat
  end.
End map.

Section store.
Context `{Util} `{UnorderedMap} `{Dense} `{Simd} {K : Type} `{Countable K} `{HashFn K}.
Variable cfg : HashConfig.
Variable N : Z.
Variable sizeof_KVPair : Z.
Variable key_len : K → Z.
Variable zero_key : K.
Implicit Types (s : hs_st K) (m : gmap K (option (list Z))) (op : store_op K) (c : store_client K).

Definition read_value key : M (hs_st K) (option (list Z)) :=
  p ← lookup cfg zero_key key;
  if p =? kNotFound then mret None else r ← kv_load zero_key p; mret (Some (kv_data r)).

Definition do_store_op op : M (hs_st K) store_result :=
  match op with
  | SUpsert tid key value => b ← upsert cfg N sizeof_KVPair key_len zero_key tid key value (lenZ value); mret (SBool b)
  | SUpdate tid key value => b ← update cfg N sizeof_KVPair key_len zero_key tid key value (lenZ value); mret (SBool b)
  | SRemove tid key => b ← remove cfg N sizeof_KVPair key_len zero_key tid key; mret (SBool b)
  | SLookup key => v ← read_value key; mret (SValue v)
  | SSize => n ← store_size; mret (SInt n)
  | SExpire tid => run_closure tid ;; mret SUnit
  end.

Fixpoint run_store c : M (hs_st K) (list store_result) :=
  match c with
  | SDone => mret []
  | SDo op k => r ← do_store_op op; l ← run_store (k r); mret (r :: l)
  end.

(** The size of the record that the operation writes. *)
Definition op_len op : Z :=
  match op with
  | SUpsert _ key value | SUpdate _ key value => kv_len sizeof_KVPair key_len key (Some value)
  | SRemove _ key => kv_len sizeof_KVPair key_len key None
  | _ => 1
  end.

(** Records fit in a medium block, few keys collide, and only keys that have been
    inserted are removed. *)
Definition legal_op m op : Prop :=
  0 < op_len op ≤ kMaxMediumSize ∧
  match op with
  | SUpsert _ key _ => few_keys cfg m key
  | SRemove _ key => few_keys cfg m key ∧ is_Some (m !! key)
  | _ => True
  end.

Fixpoint legal_client m c : Prop :=
  match c with
  | SDone => True
  | SDo op k => legal_op m op ∧ let '(m', r) := map_op m op in legal_client m' (k r)
  end.

(** The thread of a write. *)
Definition writer op : option Z :=
  match op with SUpsert tid _ _ | SUpdate tid _ _ | SRemove tid _ => Some tid | _ => None end.

(** The run of the client gets to a write whose thread cannot get a block for the
    record in the state of the call. *)
Inductive store_exhausted : hs_st K → store_client K → error → Prop :=
| se_here s op k tid : writer op = Some tid → exhausted (hs_slab s) tid (op_len op) → store_exhausted s (SDo op k) EUB
| se_next s op k r s' e : do_store_op op s = Ok r s' → store_exhausted s' (k r) e → store_exhausted s (SDo op k) e.

(** In the run of the client every write finds a pool of which 64 extents have
    never been used. *)
Fixpoint roomy_run s c : bool :=
  match c with
  | SDone => true
  | SDo op k => roomy_pool (hs_slab s) && (0 <? op_len op) && (op_len op <=? kMaxLargeSize) &&
      match do_store_op op s with Ok r s' => roomy_run s' (k r) | Err _ => true end
  end.
End store.

(** ** Lemmas *)

Section lemmas.
Context `{UtilSpec} `{UnorderedMapSpec} `{DenseSpec} `{SimdSpec} {K : Type} `{Countable K} `{HashFnSpec K}.
Variable cfg : HashConfig.
Hypothesis Hcfg : wf_config cfg.
Variable N : Z.
Hypothesis HN : 0 < N.
Variable sizeof_KVPair : Z.
Variable key_len : K → Z.
Variable zero_key : K.
Variable f : ExtentFile.
Hypothesis Hf : 2 < extents f ∧ file_end f ≤ 2 ^ 48.
Implicit Types (s : hs_st K) (m : gmap K (option (list Z))) (op : store_op K) (g : guard (K := K)).

Abbreviation store_rel := (store_rel cfg N sizeof_KVPair key_len f).
Abbreviation do_store_op := (do_store_op cfg N sizeof_KVPair key_len zero_key).
Abbreviation run_store := (run_store cfg N sizeof_KVPair key_len zero_key).
Abbreviation store_exhausted := (store_exhausted cfg N sizeof_KVPair key_len zero_key).

Lemma wp_read_value g n s m key Q :
  store_rel g n s m → Q (mjoin (m !! key)) s → wp (read_value cfg zero_key key) Q s.
Proof.
  intros Hr HQ. unfold read_value. wp_step. eapply (wp_lookup cfg Hcfg N sizeof_KVPair key_len zero_key f Hf g n s m); [done|].
  intros p Hp _. destruct (mjoin (m !! key)) as [w|]; simpl in Hp.
  - destruct Hp as (Hne & r & Hr' & <-). rewrite (proj2 (Z.eqb_neq p kNotFound)) by done. unfold kv_load.
    rewrite (proj2 (Z.eqb_neq p nullptr)) by done. wp_step. wp_step. wp_step. unfold kv_at. by rewrite Hr'.
  - rewrite Hp, Z.eqb_refl. by wp_step.
Qed.

Lemma store_rel_later g n s m : store_rel g n s m → store_rel g (n + 1) s m.
Proof. intros [Hi Hb]. split; [done|]. intros i x Hx. specialize (Hb i x Hx). lia. Qed.

(** The epoch may take [e] steps before the reader leaves. *)
Definition allows g (e : nat) : Prop := gd_found g = ∅ ∨ (e ≤ gd_grace g)%nat.

(** One call. *)
Lemma store_op_ok g n s m op (E : error → Prop) Q :
  store_rel g n s m → n < 2 ^ 62 → legal_op cfg sizeof_KVPair key_len m op → allows g (is_expire op) →
  (∀ tid, writer op = Some tid → exhausted (hs_slab s) tid (op_len sizeof_KVPair key_len op) → E EUB) →
  (∀ s' g', store_rel g' (n + 1) s' (map_op m op).1 → gd_found g' = gd_found g →
     (gd_grace g ≤ is_expire op + gd_grace g')%nat → Q (map_op m op).2 s') → wp_e (do_store_op op) E Q s.
Proof.
  intros Hr Hn [Hlen Hl] Ha HE HQ.
  destruct op as [tid key value|tid key value|tid key|key| |tid]; simpl in Hl, Hlen, HE, HQ |- *.
  - apply wp_e_bind. eapply (wp_upsert cfg Hcfg N HN sizeof_KVPair key_len zero_key f Hf g n s m); [done|done|done|done|by apply (HE tid)|].
    intros s' Hs'. apply wp_e_wp, wp_ret. by apply (HQ s' g).
  - apply wp_e_bind. eapply (wp_update cfg Hcfg N HN sizeof_KVPair key_len zero_key f Hf g n s m); [done|done|done|by apply (HE tid)|].
    intros s' Hs'. apply wp_e_wp, wp_ret. by apply (HQ s' g).
  - destruct Hl as [Hfew [v Hv]]. apply wp_e_bind.
    eapply (wp_remove cfg Hcfg N HN sizeof_KVPair key_len zero_key f Hf g n s m tid key v); [done|done|done|done|done|by apply (HE tid)|].
    intros s' Hs'. apply wp_e_wp, wp_ret. by apply (HQ s' g).
  - apply wp_e_wp. wp_step. apply (wp_read_value g n s m); [done|]. wp_step. apply (HQ s g); [by apply store_rel_later|done|done].
  - apply wp_e_wp. unfold store_size. wp_step. wp_step. wp_step.
    rewrite (store_size_ok cfg Hcfg N sizeof_KVPair key_len f g n s m) by done.
    apply (HQ s g); [by apply store_rel_later|done|done].
  - apply wp_e_wp. wp_step. apply (wp_expire cfg N sizeof_KVPair key_len f Hf g n s m); [done| |].
    + destruct Ha as [Ha|Ha]; [by left|right; simpl in Ha; lia].
    + intros s' Hs' _. wp_step. apply (HQ s' (expire_guard g)); [by apply store_rel_later|done|simpl; lia].
Qed.

Lemma client_calls_pos m (c : store_client K) : 0 ≤ client_calls m c.
Proof. revert m. induction c as [|op k IH]; intros m; simpl; [done|]. destruct (map_op m op) as [m' r]. specialize (IH r m'). lia. Qed.

Lemma store_client_ok c g n s m :
  store_rel g n s m → legal_client cfg sizeof_KVPair key_len m c → n + client_calls m c ≤ 2 ^ 62 →
  allows g (client_expires m c) →
  wp_e (run_store c) (store_exhausted s c)
    (λ l s', l = (map_client m c).2 ∧
       ∃ g', gd_found g' = gd_found g ∧ store_rel g' (n + client_calls m c) s' (map_client m c).1) s.
Proof.
  revert g n s m. induction c as [|op k IH]; intros g n s m Hr Hl Hn Ha; simpl.
  - apply wp_e_wp, wp_ret. rewrite Z.add_0_r. split; [done|by exists g].
  - destruct Hl as [Hop Hl]. simpl in Hn, Ha. destruct (map_op m op) as [m' r] eqn:Em.
    pose proof (client_calls_pos m' (k r)) as Hpos.
    apply wp_e_bind_eq, (store_op_ok g n s m op); [done|lia|done| |intros tid; by apply se_here|].
    { destruct Ha; [by left|right; lia]. }
    rewrite Em. simpl. intros s1 g1 Hr1 Hg1 Hle Hop1. apply wp_e_bind.
    eapply wp_e_mono; [apply (IH r g1 (n + 1) s1 m'); [done|done|lia|]| |].
    + unfold allows. rewrite Hg1. destruct Ha; [by left|right; lia].
    + intros e He. by eapply se_next.
    + intros l s2 (-> & g2 & Hg2 & Hr2). apply wp_e_wp, wp_ret. destruct (map_client m' (k r)) as [m2 l2]. split; [done|].
      exists g2. split; [congruence|]. by rewrite Z.add_assoc.
Qed.

(** Such a run does not run out of memory. *)
Lemma roomy_run_ok s (c : store_client K) e :
  roomy_run cfg N sizeof_KVPair key_len zero_key s c = true → ¬ store_exhausted s c e.
Proof.
  intros Hr Hx. revert Hr. induction Hx as [s op k tid Hw Hx|s op k r s' e Hop _ IH]; simpl; intros Hr;
    apply andb_true_iff in Hr as [[[Hp Hlo%Z.ltb_lt]%andb_true_iff Hhi%Z.leb_le]%andb_true_iff Hr].
  - by apply (not_exhausted _ tid (op_len sizeof_KVPair key_len op)) in Hx.
  - rewrite Hop in Hr. by apply IH.
Qed.

Lemma guard_found g n s m p r : store_rel g n s m → gd_found g !! p = Some r → hs_heap s !! p = Some r.
Proof. intros [(h & tm & Hs) _] Hp. by apply (proj2 (si_guard _ _ _ _ _ _ _ _ _ _ _ _ Hs)) in Hp as [? _]. Qed.

(** Without readers any guard will do. *)
Lemma store_rel_unguard g n s m : store_rel g n s m → store_rel no_guard n s m.
Proof.
  intros [(h & tm & [h1 h2 h3 h4 h5 h6]) Hb]. split; [|done]. exists h, tm. constructor; [done..| |done].
  split; [simpl; lia|]. intros p r Hp. simpl in Hp. by apply (lookup_empty_Some (M := gmap Z)) in Hp.
Qed.

Lemma lookup_guard g n s m key p : store_rel g n s m → lookup cfg zero_key key s = Ok p s → p ≠ kNotFound →
  ∃ r, hs_heap s !! p = Some r ∧ store_rel (enter_guard s p r) n s m.
Proof.
  intros Hr Hl Hp. assert (wp (lookup cfg zero_key key) (λ q _, q ≠ kNotFound → ∃ r, hs_heap s !! q = Some r ∧
    store_rel (enter_guard s q r) n s m) s) as Hw.
  { apply (wp_lookup cfg Hcfg N sizeof_KVPair key_len zero_key f Hf g n s m); [done|]. intros q Hq Hen Hne.
    destruct (mjoin (m !! key)) as [w|]; simpl in Hq; [|done]. destruct Hq as (_ & r & Hq & _). exists r.
    split; [done|by apply Hen]. }
  unfold wp in Hw. rewrite Hl in Hw. by apply Hw.
Qed.

(** ** Properties *)


(** C4: a record that [lookup] has returned stays as it is while the reader is in
    the epoch: whatever the threads do - replace the record, remove its key, reuse
    the records of the limbo lists - as long as only those retired functions run
    that were retired before the lookup. *)
Theorem reader_protected c n s m key p :
  store_rel no_guard n s m → lookup cfg zero_key key s = Ok p s → p ≠ kNotFound →
  legal_client cfg sizeof_KVPair key_len m c → n + client_calls m c ≤ 2 ^ 62 →
  (client_expires m c ≤ length (hs_retired s))%nat →
  wp_e (run_store c) (store_exhausted s c)
    (λ _ s', is_Some (hs_heap s !! p) ∧ hs_heap s' !! p = hs_heap s !! p) s.
Proof.
  intros Hr Hl Hp Hc Hn He. destruct (lookup_guard no_guard n s m key p Hr Hl Hp) as (r & Hr' & Hg). rewrite Hr'.
  eapply wp_e_mono; [apply (store_client_ok c (enter_guard s p r) n s m); [done|done|done|by right]|done|].
  intros l s' (_ & g & Eg & Hg'). split; [by eexists|]. apply (guard_found _ _ _ _ _ _ Hg'). rewrite Eg. apply lookup_singleton_eq.
Qed.

(** C9: no memory is lost.  When nobody reads, the epoch can run all that has
    been retired: [epoch_clear] terminates, keeps the map and leaves nothing
    retired; every block that the store then has of the allocator is the record of
    a key or in a limbo list, where the next write of its size class finds it. *)
Theorem epoch_reclaims n s m tid :
  store_rel no_guard n s m →
  wp (epoch_clear tid) (λ _ s', store_rel no_guard n s' m ∧ hs_retired s' = [] ∧
    ∃ h tm, refines f (hs_slab s') h ∧ table_rel cfg (hs_heap s') (hs_index s') tm ∧ dom tm = dom m ∧
      ∀ p, is_Some (h !! p) → (∃ k, tm !! k = Some p) ∨ (∃ id ind, at_slot s' tm (AtLimbo id ind) p)) s.
Proof.
  intros Hr. apply (wp_epoch_clear cfg N sizeof_KVPair key_len f Hf no_guard n s m); [done|done|].
  intros s' g Hr' E. split; [by apply (store_rel_unguard g)|]. split; [done|]. destruct Hr' as [(h & tm & Hs) _].
  exists h, tm. split; [apply Hs|]. split; [apply Hs|]. split.
  - apply set_eq. intros k. rewrite !elem_of_dom. pose proof (index_key _ _ _ _ _ _ _ _ _ _ _ _ k Hs) as Hk.
    rewrite <-!not_eq_None_Some. by rewrite Hk.
  - intros p Hp. destruct (si_owned _ _ _ _ _ _ _ _ _ _ _ _ Hs p Hp) as [?|[[k|id ind|] Hx]]; [done| | |].
    + left. by exists k.
    + right. by exists id, ind.
    + simpl in Hx. rewrite E in Hx. by apply not_elem_of_nil in Hx.
Qed.
End lemmas.

(** C32: the constructor on an allocator without blocks, in normal operation,
    returns a store that is the empty map. *)
Theorem HashStore_new_correct `{UtilSpec} `{DenseSpec} `{SimdSpec} {K : Type} `{Countable K} `{!HashFn K} `{!HashFnSpec K}
    (cfg : HashConfig) N sizeof_KVPair (key_len : K → Z) f z :
  wf_config cfg → 0 ≤ kInitDepth cfg ≤ 32 → 0 < N → refines f z ∅ →
  ∃ s, HashStore_new cfg N z ∅ = Ok s tt ∧ store_rel cfg N sizeof_KVPair key_len f no_guard 0 s (∅ : gmap K _).
Proof. intros Hcfg Hd HN Hz. by apply new_store_rel. Qed.

(** ** Witnesses: a store of integer keys on a new pool *)

Lemma few_keys_small {K : Type} `{Countable K} `{HashFn K} (cfg : HashConfig) (m : gmap K (option (list Z))) key :
  Z.of_nat (size m) < kNSlotInBucket cfg → few_keys cfg m key.
Proof.
  intros Hs l Hnd Hl. apply (Z.le_lt_trans _ (Z.of_nat (size m))); [|done]. unfold lenZ.
  rewrite <-size_dom, <-(size_list_to_set (C := gset K) l) by done.
  apply inj_le, subseteq_size. intros k Hk. apply elem_of_list_to_set in Hk.
  apply elem_of_dom. by apply Hl.
Qed.

Definition example_file : ExtentFile := es_file (al_ext new_alloc).
Lemma example_file_low : 2 < extents example_file ∧ file_end example_file ≤ 2 ^ 48.
Proof. vm_compute. split; [reflexivity|discriminate]. Qed.

Definition no_store : hs_st Z := {|
  hs_slab := new_alloc; hs_index := example_table; hs_heap := ∅; hs_tomb := 0; hs_version := []; hs_retired := [];
  hs_limbos := ∅; hs_limbo_next := 0; hs_tsd := ∅; hs_local := ∅; hs_phead := ∅; hs_pdir := ∅; hs_pver := ∅; hs_pseg := ∅ |}.
Definition example_store : hs_st Z :=
  match HashStore_new small_config 256 new_alloc ∅ with Ok s _ => s | Err _ => no_store end.

Abbreviation example_rel := (store_rel small_config 256 24 (λ _, 0) example_file).

Lemma HashStore_new_correct_witness :
  ∃ s, HashStore_new small_config 256 new_alloc ∅ = Ok s tt ∧ example_rel no_guard 0 s ∅.
Proof.
  apply (HashStore_new_correct (K := Z) small_config 256 24 (λ _, 0) example_file new_alloc).
  - exact small_config_wf.
  - simpl. lia.
  - lia.
  - exact example_refines.
Defined.

Lemma example_store_rel : example_rel no_guard 0 example_store ∅.
Proof.
  destruct (new_store_rel (K := Z) small_config small_config_wf 256 ltac:(lia) 24 (λ _, 0) example_file new_alloc)
    as (s & Hs & Hr); [exact example_refines|simpl; lia|]. unfold example_store. by rewrite Hs.
Qed.





(** After the key 5 has been stored twice: one record is retired. *)
Definition store_twice : store_client Z := SDo (SUpsert 1 5 [49]) (λ _, SDo (SUpsert 1 5 [50]) (λ _, SDone)).
Definition twice_run : res (hs_st Z) (list store_result) :=
  run_store small_config 256 24 (λ _, 0) 0 store_twice example_store.
Definition example_store2 : hs_st Z := match twice_run with Ok _ s => s | Err _ => example_store end.

Lemma twice_run_ok : match twice_run with Ok _ s => length (hs_retired s) | Err _ => 0%nat end = 1%nat.
Proof. vm_compute. reflexivity. Qed.

Definition map2 : gmap Z (option (list Z)) := {[5 := Some [50]]}.
Lemma example_store2_rel : example_rel no_guard 2 example_store2 map2 ∧ length (hs_retired example_store2) = 1%nat.
Proof.
  assert (legal_client small_config 24 (λ _, 0) ∅ store_twice) as Hl.
  { repeat (split; [split; [vm_compute; split; [reflexivity|discriminate]|apply few_keys_small; vm_compute; reflexivity]|]).
    exact I. }
  pose proof (store_client_ok small_config small_config_wf 256 ltac:(lia) 24 (λ _, 0) 0 example_file example_file_low
    store_twice no_guard 0 example_store ∅ example_store_rel Hl ltac:(vm_compute; discriminate) (or_introl eq_refl)) as Hr.
  pose proof twice_run_ok as Hok. unfold wp_e in Hr. fold twice_run in Hr. unfold example_store2.
  destruct twice_run as [l s|e]; [|discriminate Hok]. split; [|exact Hok]. destruct Hr as (_ & g & Hg & Hr).
  exact (store_rel_unguard small_config 256 24 (λ _, 0) example_file g 2 s map2 Hr).
Qed.

Lemma found_record : ∃ p, lookup small_config 0 5 example_store2 = Ok p example_store2 ∧ p ≠ kNotFound.
Proof.
  assert (wp (lookup small_config 0 5) (λ p s, s = example_store2 ∧ p ≠ kNotFound) example_store2) as Hw.
  { apply (wp_lookup small_config small_config_wf 256 24 (λ _, 0) 0 example_file example_file_low no_guard 2 _ map2).
    - apply example_store2_rel.
    - intros p Hp _. split; [reflexivity|]. apply Hp. }
  unfold wp in Hw. destruct (lookup small_config 0 5 example_store2) as [p s|e]; [|done]. destruct Hw as [-> Hp]. by exists p.
Qed.

(** While a reader has the record of the key 5, other threads replace and remove
    the key and the first retired record is reused. *)
Definition writers : store_client Z :=
  SDo (SUpsert 2 5 [51]) (λ _, SDo (SExpire 1) (λ _, SDo (SRemove 1 5) (λ _, SDo (SUpsert 1 6 [7]) (λ _, SDone)))).

Lemma writers_legal : legal_client small_config 24 (λ _, 0) map2 writers.
Proof.
  repeat (split; [split; [vm_compute; split; [reflexivity|discriminate]|]|]); try exact I;
    try (apply few_keys_small; vm_compute; reflexivity).
  split; [apply few_keys_small; vm_compute; reflexivity|eexists; vm_compute; reflexivity].
Qed.
Lemma writers_roomy : roomy_run small_config 256 24 (λ _, 0) 0 example_store2 writers = true.
Proof. vm_compute. reflexivity. Qed.

Lemma reader_protected_witness :
  ∃ p, lookup small_config 0 5 example_store2 = Ok p example_store2 ∧
    wp (run_store small_config 256 24 (λ _, 0) 0 writers)
      (λ _ s', is_Some (hs_heap example_store2 !! p) ∧ hs_heap s' !! p = hs_heap example_store2 !! p) example_store2.
Proof.
  destruct found_record as (p & Hl & Hp). exists p. split; [exact Hl|].
  pose proof (reader_protected small_config small_config_wf 256 ltac:(lia) 24 (λ _, 0) 0 example_file example_file_low
    writers 2 example_store2 map2 5 p (proj1 example_store2_rel) Hl Hp writers_legal ltac:(vm_compute; discriminate)) as Hw.
  rewrite (proj2 example_store2_rel) in Hw. specialize (Hw (le_n _)). unfold wp_e in Hw. unfold wp.
  destruct (run_store small_config 256 24 (λ _, 0) 0 writers example_store2) as [l s'|e]; [exact Hw|].
  by destruct (roomy_run_ok small_config 256 24 (λ _, 0) 0 example_store2 writers e writers_roomy).
Defined.

Lemma epoch_reclaims_witness :
  wp (epoch_clear 2) (λ _ s', example_rel no_guard 2 s' map2 ∧ hs_retired s' = []) example_store2.
Proof.
  eapply wp_mono.
  - apply (epoch_reclaims small_config 256 24 (λ _, 0) example_file example_file_low 2 example_store2 map2 2).
    apply example_store2_rel.
  - intros [] s' (Hr & E & _). split; [exact Hr|exact E].
Defined.
