(* ===== verification/UnloadSpec.v ===== *)
(** * Unloading and loading the index

    When the store is closed, every segment of the index is written to a block of
    the allocator, and the directory becomes an array of the addresses of these
    blocks, where entries that share a segment share the address.  When it is
    opened again the segments are built from the blocks.  The table that comes out
    is not the same one - its segments are numbered in another order, the unused
    slots may differ - but it satisfies the invariant and represents the same map. *)

From S2P Require Export StoreMap.
Import Pmem.

(** ** Definitions *)

Section defs.
Context `{Dense}.

(** What [unload_bucket] writes, when no tombstones are reclaimed. *)
Definition persisted (b : HashBucket) : PersistBucket := {|
  pb_bitmap := bk_bitmap b; pb_depth := bk_depth b; pb_index := bk_index b; pb_bucket_tags := bk_tags b;
  pb_slot_tags := dense_remain <$> bk_kvs b; pb_kvs := dense_pointer <$> bk_kvs b |}.
End defs.

Section iso.
Context `{Util} `{Dense} `{Simd} {K : Type} `{Countable K} `{HashFn K}.
Variable cfg : HashConfig.
Variable heap : gmap Z (KVPair K).

(** Segments with the same content. *)
Definition seg_same (s s' : HashSegment) : Prop :=
  (∀ pat local, 0 ≤ local ≤ 32 → seg_inv cfg heap pat local s → seg_inv cfg heap pat local s') ∧
  ∀ k p pat local, 0 ≤ local ≤ 32 → seg_inv cfg heap pat local s → in_segment cfg heap s' k p ↔ in_segment cfg heap s k p.

(** Tables whose directories share segments with the same content in the same way. *)
Record table_same (t t' : HashTable) : Prop := {
  ts_depth : ht_depth t' = ht_depth t;
  ts_dir : lenZ (ht_dir t') = lenZ (ht_dir t);
  ts_entry : ∀ i sid s, entry t i sid s → ∃ sid' s', entry t' i sid' s' ∧ seg_same s s';
  ts_share : ∀ i j sid, nthZ (ht_dir t') i = Some sid → nthZ (ht_dir t') j = Some sid →
    nthZ (ht_dir t) i = nthZ (ht_dir t) j;
  ts_share' : ∀ i j sid, nthZ (ht_dir t) i = Some sid → nthZ (ht_dir t) j = Some sid →
    nthZ (ht_dir t') i = nthZ (ht_dir t') j;
}.
End iso.

(** ** Lemmas *)

Section lemmas.
Context `{UtilSpec} `{DenseSpec} `{SimdSpec} {K : Type} `{Countable K} `{HashFnSpec K}.
Variable cfg : HashConfig.
Hypothesis Hcfg : wf_config cfg.
Variable heap : gmap Z (KVPair K).
Implicit Types (t : HashTable) (s : HashSegment) (b : HashBucket) (k key : K) (p q : Z) (m : gmap K Z).

Abbreviation wf_bucket := (wf_bucket cfg heap).
Abbreviation in_bucket := (in_bucket heap).
Abbreviation slot_of := (slot_of heap).
Abbreviation seg_inv := (seg_inv cfg heap).
Abbreviation ht_inv := (ht_inv cfg heap).
Abbreviation table_rel := (table_rel cfg heap).
Abbreviation seg_same := (seg_same cfg heap).
Abbreviation table_same := (table_same cfg heap).

(** *** Buckets *)

Lemma bitmap_48 b : wf_bucket b → 0 ≤ bk_bitmap b < 2 ^ 48.
Proof.
  intros Hb. pose proof (cfg_slots cfg Hcfg). pose proof (wb_bitmap _ _ _ Hb) as Hr. split; [lia|].
  eapply Z.lt_le_trans; [apply Hr|]. apply Z.pow_le_mono_r; lia.
Qed.

Lemma unload_bucket_ok {zero_key : K} tid b (x : hs_st K) :
  wf_bucket b → unload_bucket cfg zero_key tid false b x = Ok (persisted b) x.
Proof.
  intros Hb. assert (wp (unload_bucket cfg zero_key tid false b) (λ pb x', pb = persisted b ∧ x' = x) x) as Hw.
  { unfold unload_bucket. apply wp_bind, (wp_mfold (λ _ bm x', bm = bk_bitmap b ∧ x' = x)).
    - split; [|done]. unfold wrap. apply Z.mod_small. by apply bitmap_48.
    - intros i bm x' Hi [-> ->]. pose proof (cfg_slots cfg Hcfg).
      destruct (nthZ_is_Some (bk_kvs b) i) as [d Hd]; [rewrite (wb_kvs _ _ _ Hb); lia|].
      apply wp_bind. rewrite Hd. apply wp_ret. simpl. by apply wp_ret.
    - intros bm x' [-> ->]. by apply wp_ret. }
  unfold wp in Hw. destruct (unload_bucket _ _ _ _ _ _) as [pb x'|]; [|done]. by destruct Hw as [-> ->].
Qed.

Lemma unload_buckets_ok {zero_key : K} tid s (x : hs_st K) :
  (∀ b, b ∈ s → wf_bucket b) → unload_buckets cfg zero_key tid false s x = Ok (persisted <$> s) x.
Proof.
  intros Hs. induction s as [|b s IH]; [done|]. simpl. unfold mbind at 1, M_bind at 1.
  rewrite unload_bucket_ok by (apply Hs; by left). unfold mbind at 1, M_bind at 1.
  rewrite IH by (intros c Hc; apply Hs; by right). done.
Qed.

(** The slots after loading. *)
Lemma loaded_kvs b i :
  wf_bucket b → nthZ (bk_kvs (load_bucket cfg (persisted b))) i =
    (λ d, mk_dense (dense_pointer d) (dense_remain d)) <$> nthZ (bk_kvs b) i.
Proof.
  intros Hb. pose proof (wb_kvs _ _ _ Hb) as Hl. unfold lenZ in Hl. unfold load_bucket, HashBucket_load. simpl.
  assert (zip_with mk_dense (dense_pointer <$> bk_kvs b) (dense_remain <$> bk_kvs b) =
    (λ d, mk_dense (dense_pointer d) (dense_remain d)) <$> bk_kvs b) as ->.
  { clear Hl. induction (bk_kvs b) as [|d l IH]; [done|]. simpl. f_equal. exact IH. }
  rewrite take_ge by (rewrite length_fmap; lia). unfold nthZ. destruct (0 <=? i); [|done]. apply list_lookup_fmap.
Qed.

Lemma loaded_slot b i p r : wf_bucket b → slot_of (load_bucket cfg (persisted b)) i p r ↔ slot_of b i p r.
Proof.
  intros Hb. assert (bk_bitmap (load_bucket cfg (persisted b)) = bk_bitmap b) as Ebm.
  { unfold load_bucket, HashBucket_load, wrap. simpl. apply Z.mod_small. by apply bitmap_48. }
  assert (bk_tags (load_bucket cfg (persisted b)) = bk_tags b) as Etg.
  { unfold load_bucket, HashBucket_load. simpl. apply take_ge. pose proof (wb_tags _ _ _ Hb) as Hl. unfold lenZ in Hl. lia. }
  assert (∀ q o, slot_of b i q o → slot_of (load_bucket cfg (persisted b)) i q o) as Hto.
  { intros q o (h1 & h2 & h3 & h4 & h5). split; [by rewrite Ebm|]. split; [|by rewrite Etg].
    rewrite loaded_kvs, h2 by done. simpl. pose proof (slot_tag_range (hash_fn (kv_key o))).
    by rewrite dense_pointer_mk, dense_remain_mk by lia. }
  split; [|apply Hto]. intros Hp. pose proof Hp as (h1 & h2 & _ & h4 & h5). rewrite Ebm in h1.
  destruct (wb_slot _ _ _ Hb i h1) as (q & o & Hq). pose proof (Hto q o Hq) as (_ & g2 & _ & g4 & g5).
  assert (q = p) as ->.
  { rewrite h2 in g2. assert (dense_pointer (mk_dense p (slot_tag (hash_fn (kv_key r)))) =
      dense_pointer (mk_dense q (slot_tag (hash_fn (kv_key o))))) as E by congruence.
    rewrite !dense_pointer_mk in E by (lia || apply slot_tag_range). done. }
  assert (o = r) as -> by congruence. exact Hq.
Qed.

Lemma loaded_bucket b : wf_bucket b → 0 ≤ bk_depth b < 256 → 0 ≤ bk_index b < 256 →
  let b' := load_bucket cfg (persisted b) in
  wf_bucket b' ∧ bk_depth b' = bk_depth b ∧ bk_index b' = bk_index b ∧ ∀ k p, in_bucket b' k p ↔ in_bucket b k p.
Proof.
  intros Hb Hd Hi b'. assert (∀ i p r, slot_of b' i p r ↔ slot_of b i p r) as Hs by (intros; by apply loaded_slot).
  pose proof (wb_tags _ _ _ Hb) as Ht. pose proof (wb_kvs _ _ _ Hb) as Hk. pose proof (bitmap_48 b Hb) as Hbm.
  assert (bk_bitmap b' = bk_bitmap b) as Ebm by (unfold b', load_bucket, HashBucket_load, wrap; simpl; by apply Z.mod_small).
  split; [|split; [|split]].
  - constructor.
    + rewrite Ebm. apply Hb.
    + unfold b', load_bucket, HashBucket_load, lenZ in *. simpl. rewrite length_take. lia.
    + unfold b', load_bucket, HashBucket_load, lenZ in *. simpl. rewrite length_take, length_zip_with, !length_fmap. lia.
    + intros i. rewrite Ebm. intros Hbit. destruct (wb_slot _ _ _ Hb i Hbit) as (p & r & Hp). exists p, r. by apply Hs.
    + intros i j p q r r'. rewrite !Hs. apply (wb_inj _ _ _ Hb).
  - unfold b', load_bucket, HashBucket_load, u8, wrap. simpl. by apply Z.mod_small.
  - unfold b', load_bucket, HashBucket_load, u8, wrap. simpl. by apply Z.mod_small.
  - intros k p. split; intros (i & r & Hr & Hkey); exists i, r; (split; [by apply Hs|done]).
Qed.

(** *** Segments *)

Definition reloaded s : HashSegment := load_bucket cfg <$> (persisted <$> s).

Lemma reloaded_nth s j : nthZ (reloaded s) j = (λ b, load_bucket cfg (persisted b)) <$> nthZ s j.
Proof.
  unfold reloaded, nthZ. destruct (0 <=? j); [|done]. rewrite !list_lookup_fmap. symmetry. exact (option_fmap_compose persisted (load_bucket cfg) (s !! Z.to_nat j)).
Qed.

Lemma seg_wf pat local s b : seg_inv pat local s → b ∈ s → wf_bucket b.
Proof. intros [_ Hs] [n Hn]%list_elem_of_lookup. rewrite <-nthZ_nat in Hn. by apply (Hs (Z.of_nat n) b). Qed.

Lemma reloaded_same s : seg_same s (reloaded s).
Proof.
  assert (∀ pat local j b, 0 ≤ local ≤ 32 → seg_inv pat local s → nthZ s j = Some b →
    let b' := load_bucket cfg (persisted b) in
    wf_bucket b' ∧ bk_depth b' = bk_depth b ∧ bk_index b' = bk_index b ∧ ∀ k p, in_bucket b' k p ↔ in_bucket b k p) as Hb.
  { intros pat local j b Hl [Hn Hs] Hj. destruct (Hs j b Hj) as (Hwf & Hd & Hi & _). pose proof (nthZ_Some _ _ _ Hj).
    pose proof (cfg_buckets cfg Hcfg). apply loaded_bucket; [done|lia|lia]. }
  split.
  - intros pat local Hl Hs. pose proof Hs as [Hn Hseg]. split.
    + unfold reloaded, lenZ in *. by rewrite !length_fmap.
    + intros j b'. rewrite reloaded_nth. intros Hj. apply fmap_Some in Hj as (b & Hj & ->).
      destruct (Hb pat local j b Hl Hs Hj) as (h1 & h2 & h3 & h4). destruct (Hseg j b Hj) as (_ & Hd & Hi & Hk).
      split; [done|]. split; [congruence|]. split; [congruence|]. intros k p Hin. apply (Hk k p). by apply h4.
  - intros k p pat local Hl Hs. unfold in_segment. split.
    + intros (b' & Hj & Hin). rewrite reloaded_nth in Hj. apply fmap_Some in Hj as (b & Hj & ->). exists b. split; [done|].
      by apply (Hb pat local _ b Hl Hs Hj).
    + intros (b & Hj & Hin). exists (load_bucket cfg (persisted b)). rewrite reloaded_nth, Hj. split; [done|].
      by apply (Hb pat local _ b Hl Hs Hj).
Qed.

(** *** Tables *)

Lemma table_same_ok t t' m : table_same t t' → ht_inv t → table_rel t m → ht_inv t' ∧ table_rel t' m.
Proof.
  intros [E1 E2 He Hsh Hsh'] Ht Hm. pose proof (hi_depth _ _ _ Ht) as Hd.
  assert (∀ i sid' s', entry t' i sid' s' → ∃ sid s, entry t i sid s ∧ seg_same s s') as Hback.
  { intros i sid' s' [Hi Hs']. pose proof (nthZ_Some _ _ _ Hi) as Hr. rewrite E2, (hi_dir _ _ _ Ht) in Hr.
    destruct (hi_entry _ _ _ Ht i Hr) as (sid & s & local & Hent & _). exists sid, s. split; [done|].
    destruct (He i sid s Hent) as (sid2 & s2 & [Hi2 Hs2] & Hss). assert (sid2 = sid') as -> by congruence.
    by assert (s2 = s') as -> by congruence. }
  split.
  - constructor; rewrite ?E1, ?E2.
    + done.
    + apply Ht.
    + intros i Hi. destruct (hi_entry _ _ _ Ht i Hi) as (sid & s & local & Hent & Hl & Hseg).
      destruct (He i sid s Hent) as (sid' & s' & Hent' & Hss & _). exists sid', s', local. split; [done|]. split; [done|].
      apply Hss; [lia|done].
    + intros i j sid' s' local Hent' Hseg Hl Hj. destruct (Hback i sid' s' Hent') as (sid & s & Hent & Hss & _).
      assert (0 ≤ i < 2 ^ ht_depth t) as Hi.
      { destruct Hent as [Hi _]. apply nthZ_Some in Hi. by rewrite (hi_dir _ _ _ Ht) in Hi. }
      destruct (hi_entry _ _ _ Ht i Hi) as (sid2 & s2 & local2 & Hent2 & Hl2 & Hseg2).
      destruct (entry_fun _ _ _ _ _ _ Hent Hent2) as [<- <-].
      assert (local = local2) as -> by (eapply seg_local; [done|exact Hseg|apply Hss; [lia|exact Hseg2]]).
      rewrite <-(hi_share _ _ _ Ht i j sid s local2) by (done || lia). destruct Hent as [Hdi _], Hent' as [Hdi' _]. split.
      * intros Hdj. rewrite <-(Hsh i j sid' Hdi' Hdj). done.
      * intros Hdj. rewrite <-(Hsh' i j sid Hdi Hdj). done.
  - intros k p. rewrite (Hm k p). unfold in_table. rewrite E1. set (i := segment_index (hash_fn k) (ht_depth t)).
    destruct (inv_lookup cfg Hcfg heap t k Ht) as (sid & s & local & b & Hent & _ & Hl & Hseg & _ & _). fold i in Hent, Hseg.
    destruct (He i sid s Hent) as (sid' & s' & Hent' & _ & Hin). split.
    + intros (sid2 & s2 & Hent2 & Hk). destruct (entry_fun _ _ _ _ _ _ Hent Hent2) as [<- <-].
      exists sid', s'. split; [done|]. apply (Hin k p (i mod 2 ^ local) local); [lia|done|done].
    + intros (sid2 & s2 & Hent2 & Hk). destruct (entry_fun _ _ _ _ _ _ Hent' Hent2) as [<- <-].
      exists sid, s. split; [done|]. by apply (Hin k p (i mod 2 ^ local) local); [lia|done|].
Qed.
End lemmas.
