(* ===== verification/RebootSpec.v ===== *)
(** * Closing and opening the store

    The loops of the destructor and of [open] over the directory: the first one
    writes the segments to blocks of the allocator, the second one builds the
    table from them. *)

From S2P Require Export RootSpec UnloadSpec.
Import Pmem.

(** ** Definitions *)

(** A size that [acquire] serves as long as there is memory. *)
Definition fine_size (size : Z) : Prop := 0 < size ≤ kMaxLargeSize.

(** One call of the thread [tid] to the allocator, or a write of the root. *)
Definition by_thread (tid : Z) (op : aop) : Prop :=
  match op with OpAcquire t _ | OpRelease t _ | OpSize t _ => t = tid | OpPublish _ _ _ _ => True end.
Definition slab_call `{Util} `{UnorderedMap} (tid : Z) (z z' : alloc_st) : Prop :=
  (∃ op r, by_thread tid op ∧ do_op op z = Ok r z') ∨
  ∃ p, exa (pm (PersistRoot_set 0 p ;; persist_write_back (LRoot 0))) z = Ok tt z'.
(** The state [z'] is reached from [z] by such calls. *)
Definition slab_calls `{Util} `{UnorderedMap} (tid : Z) : alloc_st → alloc_st → Prop := rtc (slab_call tid).
(** The same, without writes of the root. *)
Definition reached `{Util} `{UnorderedMap} (tid : Z) (z z' : alloc_st) : Prop :=
  slab_calls tid z z' ∧ root0 z' = root0 z.

(** After the first [i] entries: [loc] has the block of every segment that is in
    one of them. *)
Record unloaded `{Dense} (t : HashTable) (pseg : gmap Z (list PersistBucket)) (i : Z) (entries : list Z)
    (loc : gmap Z Z) : Prop := {
  un_len : lenZ entries = 2 ^ ht_depth t;
  un_done : ∀ j sid, j < i → nthZ (ht_dir t) j = Some sid → ∃ p, loc !! sid = Some p ∧ nthZ entries j = Some p;
  un_seg : ∀ sid p, loc !! sid = Some p →
    ∃ s, nthZ (ht_segs t) sid = Some s ∧ pseg !! p = Some (persisted <$> s);
  un_inj : ∀ sid sid' p, loc !! sid = Some p → loc !! sid' = Some p → sid = sid';
  un_live : ∀ sid p, loc !! sid = Some p → ∃ j, 0 ≤ j < i ∧ nthZ (ht_dir t) j = Some sid;
}.

(** The blocks in [loc] have been added to [h]. *)
Record seg_blocks (h h' : heap) (loc : gmap Z Z) : Prop := {
  sb_old : ∀ p, (∀ sid, loc !! sid ≠ Some p) → h' !! p = h !! p;
  sb_new : ∀ sid p, loc !! sid = Some p → h !! p = None ∧ is_Some (h' !! p);
}.

(** After loading the first [i] entries: [num] has the number of the new segment
    that comes from a block. *)
Record loaded `{Dense} (cfg : HashConfig) (t : HashTable) (entries : list Z) (loc : gmap Z Z) (i : Z)
    (vdir : list Z) (segs : list HashSegment) (released : list Z) (num : gmap Z Z) : Prop := {
  ld_len : lenZ vdir = i;
  ld_lens : lenZ segs = lenZ released;
  ld_dir : ∀ j, 0 ≤ j < i → ∃ p n, nthZ entries j = Some p ∧ num !! p = Some n ∧ nthZ vdir j = Some n;
  ld_seg : ∀ p n, num !! p = Some n → nthZ released n = Some p ∧ (∃ j, 0 ≤ j < i ∧ nthZ entries j = Some p) ∧
    ∃ sid s, loc !! sid = Some p ∧ nthZ (ht_segs t) sid = Some s ∧ nthZ segs n = Some (reloaded cfg s);
  ld_num : ∀ p n, nthZ released n = Some p → num !! p = Some n;
}.

(** ** Lemmas *)

Lemma wp_e_mfold {S A} (I : Z → A → S → Prop) n from (body : Z → A → M S A) a E Q s :
  I from a s →
  (∀ i a s, from ≤ i < from + Z.of_nat n → I i a s → wp_e (body i a) E (λ a, I (i + 1) a) s) →
  (∀ a s, I (from + Z.of_nat n) a s → Q a s) →
  wp_e (mfold n from body a) E Q s.
Proof.
  revert from a s. induction n as [|n IH]; intros from a s HI Hb HQ; simpl.
  - apply wp_e_wp, wp_ret, HQ. by rewrite Z.add_0_r.
  - apply wp_e_bind. eapply wp_e_mono; [apply Hb; [lia|done]|done|].
    intros a' s' HI'. apply IH; [done|intros; apply Hb; [lia|done]|].
    intros a'' s'' Hx. apply HQ. replace (from + Z.of_nat (Datatypes.S n)) with (from + 1 + Z.of_nat n) by lia. done.
Qed.

Lemma wp_run {S A} (mm : M S A) Q (s : S) : wp mm (λ a s', mm s = Ok a s' → Q a s') s → wp mm Q s.
Proof. unfold wp. destruct (mm s) as [a s'|]; [intros Hq; by apply Hq|done]. Qed.

Section calls.
Context `{Util} `{UnorderedMap}.
Implicit Types (z : alloc_st) (tid : Z).

Lemma reached_refl tid z : reached tid z z.
Proof. split; [apply rtc_refl|done]. Qed.
Lemma reached_trans tid z1 z2 z3 : reached tid z1 z2 → reached tid z2 z3 → reached tid z1 z3.
Proof. intros [C1 E1] [C2 E2]. split; [by etrans|congruence]. Qed.

Lemma wp_e_call {A} (m : M alloc_st A) tid (E : error → Prop) Q z :
  keeps m → (∀ a z', m z = Ok a z' → slab_call tid z z') →
  wp_e m E (λ a z', reached tid z z' → Q a z') z → wp_e m E Q z.
Proof.
  intros Hk Hc Hw. apply wp_e_keeps; [done|]. unfold wp_e in *. destruct (m z) as [a z'|] eqn:Em; [|done].
  intros Er. apply Hw. split; [|done]. by eapply rtc_once, Hc.
Qed.
Lemma wp_call {A} (m : M alloc_st A) tid Q z :
  keeps m → (∀ a z', m z = Ok a z' → slab_call tid z z') →
  wp m (λ a z', reached tid z z' → Q a z') z → wp m Q z.
Proof.
  intros Hk Hc Hw. apply wp_keeps; [done|]. unfold wp in *. destruct (m z) as [a z'|] eqn:Em; [|done].
  intros Er. apply Hw. split; [|done]. by eapply rtc_once, Hc.
Qed.

Lemma call_acquire tid size z r z' : Alloc_acquire tid size z = Ok r z' → slab_call tid z z'.
Proof.
  intros E. left. exists (OpAcquire tid size), (RRegion r). split; [done|]. unfold do_op, mbind, M_bind. by rewrite E.
Qed.
Lemma call_release tid p z u z' : Alloc_release tid p z = Ok u z' → slab_call tid z z'.
Proof.
  intros E. left. exists (OpRelease tid p), RDone. split; [done|]. unfold do_op, mbind, M_bind. by rewrite E.
Qed.
Lemma call_publish tid r mode tag persist z u z' :
  exa (pm (region_publish r mode tag persist)) z = Ok u z' → slab_call tid z z'.
Proof.
  intros E. left. exists (OpPublish r mode tag persist), RDone. split; [done|]. unfold do_op, mbind, M_bind. by rewrite E.
Qed.
End calls.

Lemma wp_heap_get `{UtilSpec} `{UnorderedMapSpec} f z h tid size (E : error → Prop) Q :
  refines f z h → fine_size size → (exhausted z tid size → E EUB ∧ E EAssert) →
  (∀ z', refines f z' h → exhausted z tid size → Q null_region z') →
  (∀ z' p b, refines f z' (<[p := b]> h) → h !! p = None → size ≤ bl_size b → bl_code b = kFreeCode →
     Q (region (bl_ref b) p) z') →
  wp_e (Alloc_acquire tid size) E Q z.
Proof.
  intros Hz Hs HE Hn HQ. unfold fine_size in Hs. change kMaxLargeSize with 4194304 in *.
  apply (wp_heap_acquire f z h); [done|lia| | |].
  - intros e [[(-> & _)|(-> & _)] Hx]; by apply HE.
  - intros z' Hz' [?|[?|[_ Hx]]]; [lia|change kMaxLargeSize with 4194304 in *; lia|by apply Hn].
  - intros z' p b Hz' Hno [Hle _] Hc. by apply HQ.
Qed.

Section lemmas.
Context `{UtilSpec} `{UnorderedMapSpec} `{DenseSpec} `{SimdSpec} {K : Type} `{Countable K} `{HashFnSpec K}.
Variable cfg : HashConfig.
Hypothesis Hcfg : wf_config cfg.
Variable zero_key : K.
Variable f : ExtentFile.
Hypothesis Hf : 2 < extents f ∧ file_end f ≤ 2 ^ 48.
Variable tid : Z.
Implicit Types (s : hs_st K) (h : heap) (t : HashTable) (entries : list Z) (loc num : gmap Z Z).

(** An entry below [2 ^ local] is the first one of its segment. *)
Lemma first_entry hp t i j sid sg local :
  ht_inv cfg hp t → entry t i sid sg → seg_inv cfg hp (i mod 2 ^ local) local sg → 0 ≤ local →
  0 ≤ j < i → i < 2 ^ local → i < 2 ^ ht_depth t → nthZ (ht_dir t) j ≠ Some sid.
Proof.
  intros Ht He Hs Hl Hj Hi Hd Hx. apply (hi_share _ _ _ Ht i j sid sg local) in Hx; [|done..|lia].
  rewrite !Z.mod_small in Hx by lia. lia.
Qed.

(** *** Unloading *)

Abbreviation seg_size := (sizeof_PersistBucket (kNSlotInBucket cfg) * kNBucketInSegment cfg).

Definition unload_inv s0 h i entries s h' loc : Prop :=
  (∃ z pseg, s = set_hs_pseg pseg (set_hs_slab z s0) ∧ reached tid (hs_slab s0) z) ∧ refines f (hs_slab s) h' ∧ seg_blocks h h' loc ∧
  unloaded (hs_index s0) (hs_pseg s) i entries loc ∧ Z.of_nat (size h') ≤ Z.of_nat (size h) + i.

Lemma unload_step s0 h i entries s h' loc (E : error → Prop) Q :
  ht_inv cfg (hs_heap s0) (hs_index s0) → fine_size seg_size → 0 ≤ i < 2 ^ ht_depth (hs_index s0) →
  unload_inv s0 h i entries s h' loc → (exhausted (hs_slab s) tid seg_size → E EUB ∧ E EAssert) →
  (∀ entries' s' h2 loc', unload_inv s0 h (i + 1) entries' s' h2 loc' → Q entries' s') →
  wp_e (unload_entry cfg zero_key tid false i entries) E Q s.
Proof.
  intros Ht Hfine Hi (Hst & Hz & [Hold Hnew] & [h1 h2 h3 h4 h5] & Hsz) HE HQ. destruct Hst as (z0 & pseg & -> & Hroot).
  set (t := hs_index s0) in *. set (s := set_hs_pseg pseg (set_hs_slab z0 s0)) in *.
  pose proof (hi_depth _ _ _ Ht) as Hdep.
  destruct (hi_entry _ _ _ Ht i Hi) as (sid & sg & local & Hent & Hl & Hseg).
  unfold unload_entry. apply wp_e_bind, wp_e_wp. wp_step. change (hs_index s) with t.
  apply wp_e_bind, wp_e_wp. wp_step; [unfold directory_size; rewrite bit_pow by lia; apply Z.ltb_lt; lia|].
  apply wp_e_bind, wp_e_wp. eapply wp_pure; [by apply dir_segment_ok|]. cbv beta iota.
  apply wp_e_bind, wp_e_wp. eapply wp_pure; [by eapply segment_depth_ok|]. cbv beta.
  rewrite bit_pow by lia. destruct (Z.ltb_spec i (2 ^ local)) as [Hlt|Hge].
  - assert (loc !! sid = None) as Hnone.
    { destruct (loc !! sid) as [p|] eqn:Ep; [|done]. destruct (h5 sid p Ep) as (j & Hj & Hdj).
      exfalso. refine (first_entry (hs_heap s0) t i j sid sg local Ht Hent Hseg _ _ _ _ Hdj); lia. }
    apply wp_e_bind. unfold slabm. apply wp_e_zoom, (wp_e_call _ tid); [apply keeps_acquire|intros r z; apply call_acquire|].
    apply (wp_heap_get f _ h'); [done|done|exact HE| |].
    { intros z Hzz Hx _. cbn [reg_pointer null_region]. apply wp_e_bind. unfold check_pointer. rewrite Z.eqb_refl.
      apply wp_e_err. by apply HE. }
    intros z p b Hzz Hno Hle Hc Er. cbn [reg_pointer].
    assert (2 < p < 2 ^ 48) as Hp by (eapply (block_addr f Hf); [exact Hzz|apply lookup_insert_eq]).
    apply wp_e_bind. unfold check_pointer. rewrite (proj2 (Z.eqb_neq p nullptr)) by (change nullptr with 0; lia).
    apply wp_e_wp, wp_ret. apply wp_e_bind, wp_e_wp.
    eapply wp_pure; [apply (unload_buckets_ok cfg Hcfg (hs_heap s0)); intros c Hc'; by eapply (seg_wf cfg (hs_heap s0) _ _ sg)|]. cbv beta.
    apply wp_e_bind, wp_e_wp. wp_step. apply wp_e_bind, wp_e_wp. unfold publish_volatile. apply wp_slabm, (wp_call _ tid);
      [apply keeps_publish|intros u z'; apply call_publish|].
    apply (wp_heap_publish f z (<[p := b]> h') p b); [exact Hzz|apply lookup_insert_eq|done|by vm_compute|].
    intros z' Hz' Er'. rewrite insert_insert_eq in Hz'. apply wp_e_wp. wp_step.
    set (b' := set_code (hire_code false 0) b) in *.
    apply (HQ _ _ (<[p := b']> h') (<[sid := p]> loc)). split.
    { exists z', (<[p := persisted <$> sg]> pseg). split; [reflexivity|].
      apply (reached_trans _ _ z); [exact (reached_trans _ _ z0 z Hroot Er)|exact Er']. }
    assert (∀ sid' q, loc !! sid' = Some q → q ≠ p) as Hpn.
    { intros sid' q Hq ->. destruct (Hnew sid' p Hq) as [_ [c Hc']]. congruence. }
    split; [exact Hz'|]. split; [|split].
    + constructor.
      * intros q Hq. rewrite lookup_insert_ne by (intros <-; apply (Hq sid), lookup_insert_eq). apply Hold.
        intros sid' Hs'. apply (Hq sid'). rewrite lookup_insert_ne; [done|]. intros <-. congruence.
      * intros sid' q Hq. destruct (decide (sid = sid')) as [<-|Hne].
        -- rewrite lookup_insert_eq in Hq. injection Hq as <-. rewrite lookup_insert_eq. split; [|by eexists].
           rewrite <-Hold; [done|]. intros sid' Hs'. by apply (Hpn sid' p).
        -- rewrite lookup_insert_ne in Hq by done. rewrite lookup_insert_ne by (intros ->; by apply (Hpn sid' q)).
           by apply (Hnew sid').
    + constructor.
      * by rewrite lenZ_updZ.
      * intros j sid' Hj Hdj. destruct (decide (j = i)) as [->|Hne].
        -- destruct Hent as [Hdi _]. assert (sid' = sid) as -> by (unfold t in *; congruence). exists p. rewrite lookup_insert_eq.
           split; [done|]. apply nthZ_updZ_eq. lia.
        -- destruct (h2 j sid') as (q & Hq & He); [lia|done|]. exists q. split.
           ++ rewrite lookup_insert_ne; [done|]. intros <-. congruence.
           ++ by rewrite nthZ_updZ_ne.
      * intros sid' q Hq. destruct (decide (sid = sid')) as [<-|Hne].
        -- rewrite lookup_insert_eq in Hq. injection Hq as <-. exists sg. split; [apply Hent|]. apply lookup_insert_eq.
        -- rewrite lookup_insert_ne in Hq by done. destruct (h3 sid' q Hq) as (sg' & Hs' & Hps). exists sg'. split; [done|].
           change (<[p := persisted <$> sg]> pseg !! q = Some (persisted <$> sg')).
           rewrite lookup_insert_ne by (intros ->; by apply (Hpn sid' q)). exact Hps.
      * intros a c q Ha Hc'. destruct (decide (sid = a)) as [<-|Hna], (decide (sid = c)) as [<-|Hnc]; [done| | |].
        -- rewrite lookup_insert_eq in Ha. rewrite lookup_insert_ne in Hc' by done. injection Ha as ->. by destruct (Hpn c q).
        -- rewrite lookup_insert_eq in Hc'. rewrite lookup_insert_ne in Ha by done. injection Hc' as ->. by destruct (Hpn a q).
        -- rewrite lookup_insert_ne in Ha, Hc' by done. by apply (h4 a c q).
      * intros sid' q Hq. destruct (decide (sid = sid')) as [<-|Hne].
        -- exists i. split; [lia|apply Hent].
        -- rewrite lookup_insert_ne in Hq by done. destruct (h5 sid' q Hq) as (j & Hj & Hdj). exists j. split; [lia|done].
    + rewrite map_size_insert_None by done. lia.
  - set (i' := i mod 2 ^ local). pose proof (Z.mod_pos_bound i (2 ^ local) ltac:(apply Z.pow_pos_nonneg; lia)) as Hi'. fold i' in Hi'.
    assert (nthZ (ht_dir t) i' = Some sid) as Hdi'.
    { apply (hi_share _ _ _ Ht i i' sid sg local); [done|done|lia|lia|]. unfold i'. apply Z.mod_mod. lia. }
    destruct (h2 i' sid) as (p & Hp & He); [lia|done|].
    apply wp_e_bind, wp_e_wp. wp_step; [exact He|]. apply wp_e_wp. wp_step.
    apply (HQ _ _ h' loc). split; [by exists z0, pseg|]. split; [exact Hz|]. split; [by constructor|]. split; [|lia].
    constructor; [by rewrite lenZ_updZ| |done|done|].
    + intros j sid' Hj Hdj. destruct (decide (j = i)) as [->|Hne].
      * destruct Hent as [Hdi _]. assert (sid' = sid) as -> by (unfold t in *; congruence). exists p. split; [done|]. apply nthZ_updZ_eq. lia.
      * destruct (h2 j sid') as (q & Hq & Heq); [lia|done|]. exists q. by rewrite nthZ_updZ_ne.
    + intros sid' q Hq. destruct (h5 sid' q Hq) as (j & Hj & Hdj). exists j. split; [lia|done].
Qed.

Lemma wp_unload s0 h (E : error → Prop) Q :
  let n := 2 ^ ht_depth (hs_index s0) in
  ht_inv cfg (hs_heap s0) (hs_index s0) → refines f (hs_slab s0) h → fine_size seg_size →
  (∀ z h', reached tid (hs_slab s0) z → refines f z h' → Z.of_nat (size h') ≤ Z.of_nat (size h) + n →
     exhausted z tid seg_size → E EUB ∧ E EAssert) →
  (∀ entries s' h' loc, unload_inv s0 h n entries s' h' loc → Q entries s') →
  wp_e (mfold (Z.to_nat (directory_size (hs_index s0))) 0 (unload_entry cfg zero_key tid false)
          (replicate (Z.to_nat (directory_size (hs_index s0))) nullptr)) E Q s0.
Proof.
  intros n Ht Hz Hfine HE HQ. pose proof (hi_depth _ _ _ Ht) as Hd. unfold directory_size. rewrite bit_pow by lia. fold n.
  assert (0 < n) as Hn by (apply Z.pow_pos_nonneg; lia).
  apply (wp_e_mfold (λ i entries s', ∃ h' loc, unload_inv s0 h i entries s' h' loc)).
  - exists h, ∅. split; [exists (hs_slab s0), (hs_pseg s0); split; [by destruct s0|apply reached_refl]|]. split; [done|]. split; [|split; [|lia]].
    + constructor; [done|]. intros sid p Hp. by apply (lookup_empty_Some (M := gmap Z)) in Hp.
    + constructor.
      * rewrite lenZ_replicate. fold n. lia.
      * intros j sid Hj Hdj. apply nthZ_Some in Hdj. lia.
      * intros sid p Hp. by apply (lookup_empty_Some (M := gmap Z)) in Hp.
      * intros sid sid' p Hp. by apply (lookup_empty_Some (M := gmap Z)) in Hp.
      * intros sid p Hp. by apply (lookup_empty_Some (M := gmap Z)) in Hp.
  - intros i entries s' Hi (h' & loc & Hu). apply (unload_step s0 h i entries s' h' loc); [done|done|lia|done| |].
    + intros Hx. destruct Hu as ((z & pseg & -> & Hre) & Hz' & _ & _ & Hsz). apply (HE z h'); [exact Hre|done|lia|done].
    + intros entries' s2 h2 loc' Hu'. by exists h2, loc'.
  - intros entries s' (h' & loc & Hu). apply (HQ entries s' h' loc). by rewrite Z.add_0_l, Z2Nat.id in Hu by lia.
Qed.

(** *** Loading *)

Lemma load_step hp t pseg entries loc i vdir segs released num s :
  let n := 2 ^ ht_depth t in
  ht_inv cfg hp t → unloaded t pseg n entries loc → hs_pseg s = pseg → 0 ≤ i < n →
  loaded cfg t entries loc i vdir segs released num →
  ∃ vdir' segs' released' num', load_entry cfg entries i (vdir, segs, released) s = Ok (vdir', segs', released') s ∧
    loaded cfg t entries loc (i + 1) vdir' segs' released' num'.
Proof.
  intros n Ht [h1 h2 h3 h4 h5] Eps Hi [g1 g2 g3 g4 g5]. pose proof (hi_depth _ _ _ Ht) as Hdep.
  destruct (hi_entry _ _ _ Ht i Hi) as (sid & sg & local & Hent & Hl & Hseg). pose proof Hent as [Hdi Hsg].
  destruct (h2 i sid) as (p & Hp & He); [lia|done|]. destruct (h3 sid p Hp) as (sg' & Hsg' & Hps).
  assert (sg' = sg) as -> by congruence. pose proof Hseg as [Hlen Hbs]. pose proof (cfg_buckets cfg Hcfg) as Hnb.
  destruct (nthZ_is_Some sg 0) as [b0 Hb0]; [lia|]. destruct (Hbs 0 b0 Hb0) as (_ & Hd0 & _).
  assert (nthZ (persisted <$> sg) 0 = Some (persisted b0)) as Hpb.
  { unfold nthZ in *. simpl in *. rewrite list_lookup_fmap. by rewrite Hb0. }
  unfold load_entry, mbind, M_bind, mderef, mgets. rewrite He. unfold mret at 1, M_ret at 1. rewrite Eps, Hps.
  unfold mret at 1, M_ret at 1. rewrite Hpb. unfold mret at 1, M_ret at 1. cbn [persisted pb_depth]. rewrite Hd0.
  rewrite bit_pow by lia. destruct (Z.ltb_spec i (2 ^ local)) as [Hlt|Hge].
  - set (k := lenZ segs). eexists _, _, _, (<[p := k]> num). split; [reflexivity|].
    assert (num !! p = None) as Hnone.
    { destruct (num !! p) as [q|] eqn:Eq; [|done]. destruct (g4 p q Eq) as (_ & (j & Hj & Hej) & sid' & sg' & Hl' & _).
      assert (sid' = sid) as -> by (by apply (h4 sid' sid p)). exfalso.
      pose proof (nthZ_Some _ _ _ Hej) as Hjr. rewrite h1 in Hjr. destruct (nthZ_is_Some (ht_dir t) j) as [sj Hsj].
      { rewrite (hi_dir _ _ _ Ht). lia. }
      destruct (h2 j sj) as (pj & Hpj & Hej'); [lia|done|]. assert (pj = p) as -> by congruence.
      assert (sj = sid) as -> by (by apply (h4 sj sid p)).
      refine (first_entry hp t i j sid sg local Ht Hent Hseg _ _ _ _ Hsj); lia. }
    constructor.
    + rewrite lenZ_app. unfold lenZ at 2. simpl. lia.
    + rewrite !lenZ_app. unfold lenZ at 2 4. simpl. lia.
    + intros j Hj. rewrite nthZ_snoc, g1. case_decide as Hji.
      * subst j. exists p, k. rewrite lookup_insert_eq. done.
      * destruct (g3 j) as (q & m & Hq & Hm & Hv); [lia|]. exists q, m. split; [done|]. split; [|done].
        rewrite lookup_insert_ne; [done|]. intros <-. congruence.
    + intros q m Hq. rewrite !nthZ_snoc. destruct (decide (p = q)) as [<-|Hne].
      * rewrite lookup_insert_eq in Hq. injection Hq as <-. rewrite decide_True by (unfold k; lia). split; [done|].
        split; [exists i; split; [lia|done]|]. exists sid, sg. split; [done|]. split; [done|].
        rewrite decide_True by done. f_equal.
      * rewrite lookup_insert_ne in Hq by done. destruct (g4 q m Hq) as (Hr & (j & Hj & Hej) & sid' & sg' & Hl' & Hs' & Hm).
        pose proof (nthZ_Some _ _ _ Hr) as Hmr. rewrite decide_False by lia. split; [done|]. split; [exists j; split; [lia|done]|].
        exists sid', sg'. split; [done|]. split; [done|]. rewrite decide_False by (unfold k in *; lia). done.
    + intros q m. rewrite nthZ_snoc. case_decide as Hm.
      * intros [= <-]. rewrite lookup_insert_eq. unfold k. congruence.
      * intros Hq. rewrite lookup_insert_ne; [by apply g5|]. intros <-. rewrite (g5 p m Hq) in Hnone. done.
  - set (i' := i mod 2 ^ local). pose proof (Z.mod_pos_bound i (2 ^ local) ltac:(apply Z.pow_pos_nonneg; lia)) as Hi'. fold i' in Hi'.
    assert (nthZ (ht_dir t) i' = Some sid) as Hdi'.
    { apply (hi_share _ _ _ Ht i i' sid sg local); [done|done|lia|unfold n in *; lia|]. unfold i'. apply Z.mod_mod. lia. }
    destruct (g3 i') as (q & m & Hq & Hm & Hv); [lia|]. rewrite Hv. unfold mret, M_ret.
    destruct (h2 i' sid) as (p' & Hp' & He'); [lia|done|]. assert (p' = p) as -> by congruence. assert (q = p) as -> by congruence.
    eexists _, _, _, num. split; [reflexivity|]. constructor; [|done| |  |done].
    + rewrite lenZ_app. unfold lenZ at 2. simpl. lia.
    + intros j Hj. rewrite nthZ_snoc, g1. case_decide as Hji.
      * subst j. by exists p, m.
      * apply g3. lia.
    + intros q k Hk. destruct (g4 q k Hk) as (Hr & (j & Hj & Hej) & Hrest). split; [done|]. split; [|done].
      exists j. split; [lia|done].
Qed.

(** The table that comes out. *)
Lemma loaded_same hp t pseg entries loc vdir segs released num :
  let n := 2 ^ ht_depth t in
  ht_inv cfg hp t → unloaded t pseg n entries loc → loaded cfg t entries loc n vdir segs released num →
  table_same cfg hp t {| ht_dir := take (Z.to_nat (bit (ht_depth t))) vdir; ht_depth := ht_depth t; ht_segs := segs |}.
Proof.
  intros n Ht [h1 h2 h3 h4 h5] [g1 g2 g3 g4 g5]. pose proof (hi_depth _ _ _ Ht) as Hdep. pose proof (hi_dir _ _ _ Ht) as Hdir.
  rewrite take_ge by (rewrite bit_pow by lia; fold n; unfold lenZ in g1; lia).
  assert (∀ i sid, nthZ (ht_dir t) i = Some sid → ∃ p m, loc !! sid = Some p ∧ nthZ entries i = Some p ∧
    num !! p = Some m ∧ nthZ vdir i = Some m) as Hto.
  { intros i sid Hi. pose proof (nthZ_Some _ _ _ Hi) as Hr. rewrite Hdir in Hr. destruct (h2 i sid) as (p & Hp & He); [lia|done|].
    destruct (g3 i) as (q & m & Hq & Hm & Hv); [lia|]. assert (q = p) as -> by congruence. by exists p, m. }
  constructor; simpl.
  - done.
  - by rewrite g1, Hdir.
  - intros i sid s [Hi Hs]. destruct (Hto i sid Hi) as (p & m & Hp & He & Hm & Hv).
    destruct (g4 p m Hm) as (_ & _ & sid' & s' & Hp' & Hs' & Hn). assert (sid' = sid) as -> by (by apply (h4 sid' sid p)).
    assert (s' = s) as -> by congruence. exists m, (reloaded cfg s). split; [done|]. by apply reloaded_same.
  - intros i j k Hi Hj. assert (∀ i, nthZ vdir i = Some k → ∃ sid p, nthZ (ht_dir t) i = Some sid ∧ loc !! sid = Some p ∧
      nthZ released k = Some p) as Hback.
    { intros a Ha. pose proof (nthZ_Some _ _ _ Ha) as Hr. rewrite g1 in Hr. destruct (nthZ_is_Some (ht_dir t) a) as [sid Hsid].
      { rewrite Hdir. unfold n in *. lia. }
      destruct (Hto a sid Hsid) as (p & m & Hp & He & Hm & Hv). assert (m = k) as -> by congruence. exists sid, p.
      split; [done|]. split; [done|]. by apply g4. }
    destruct (Hback i Hi) as (si & pi & -> & Hpi & Hri), (Hback j Hj) as (sj & pj & -> & Hpj & Hrj).
    assert (pj = pi) as -> by congruence. f_equal. by apply (h4 si sj pi).
  - intros i j sid Hi Hj. destruct (Hto i sid Hi) as (p & m & Hp & He & Hm & ->), (Hto j sid Hj) as (q & k & Hq & He' & Hk & ->).
    congruence.
Qed.

(** *** Releasing many blocks *)

Lemma wp_release_all s h (l : list Z) Q :
  refines f (hs_slab s) h → NoDup l → (∀ p, p ∈ l → is_Some (h !! p)) →
  (∀ z h', refines f z h' → reached tid (hs_slab s) z →
     (∀ p b, h' !! p = Some b ↔ h !! p = Some b ∧ p ∉ l) → Q tt (set_hs_slab z s)) →
  wp (mforeach l (λ p, slabm (Alloc_release tid p))) Q s.
Proof.
  revert s h. induction l as [|p l IH]; intros s h Hz Hnd Hl HQ; simpl.
  - apply wp_ret. replace s with (set_hs_slab (hs_slab s) s) by (by destruct s). apply (HQ (hs_slab s) h); [done|apply reached_refl|].
    intros p b. split; [|tauto]. intros Hb. split; [done|apply not_elem_of_nil].
  - apply NoDup_cons in Hnd as [Hni Hnd]. apply wp_bind, wp_slabm, (wp_call _ tid);
      [apply keeps_release|intros u z; apply call_release|].
    apply (wp_heap_release f _ h); [done|right; apply Hl; by left|]. intros z Hz' Er.
    apply (IH (set_hs_slab z s) (delete p h)); [done|done| |].
    + intros q Hq. destruct (Hl q) as [b Hb]; [by right|]. exists b. rewrite lookup_delete_ne; [done|]. by intros <-.
    + intros z2 h2 Hz2 Er2 Hh2. change (set_hs_slab z2 (set_hs_slab z s)) with (set_hs_slab z2 s).
      apply (HQ z2 h2); [done|exact (reached_trans _ _ z z2 Er Er2)|]. intros q b. rewrite Hh2, lookup_delete_Some, not_elem_of_cons.
      split; [intros [[??] ?]; split; [done|split; [congruence|done]]|intros (? & ? & ?); split; [split; [congruence|done]|done]].
Qed.

(** *** Closing the limbo lists *)

Lemma elem_of_concat (ls : list (list Z)) p : p ∈ concat ls ↔ ∃ ind lst, nthZ ls ind = Some lst ∧ p ∈ lst.
Proof.
  induction ls as [|l ls IH]; simpl.
  - split; [intros Hp; by apply not_elem_of_nil in Hp|]. intros (ind & lst & Hi & _). apply nthZ_Some in Hi. unfold lenZ in Hi. simpl in Hi. lia.
  - rewrite elem_of_app, IH. split.
    + intros [Hp|(ind & lst & Hi & Hp)]; [by exists 0, l|]. exists (ind + 1), lst. split; [|done].
      pose proof (nthZ_Some _ _ _ Hi). unfold nthZ in *. rewrite (proj2 (Z.leb_le 0 ind)) in Hi by lia.
      rewrite (proj2 (Z.leb_le 0 (ind + 1))) by lia. by rewrite Z2Nat.inj_add, Nat.add_1_r by lia.
    + intros (ind & lst & Hi & Hp). pose proof (nthZ_Some _ _ _ Hi) as Hr. destruct (decide (ind = 0)) as [->|Hne].
      * injection Hi as ->. by left.
      * right. exists (ind - 1), lst. split; [|done]. unfold nthZ in *. rewrite (proj2 (Z.leb_le 0 ind)) in Hi by lia.
        rewrite (proj2 (Z.leb_le 0 (ind - 1))) by lia. replace (Z.to_nat ind) with (Datatypes.S (Z.to_nat (ind - 1))) in Hi by lia. done.
Qed.

Lemma NoDup_concat (ls : list (list Z)) :
  (∀ ind lst, nthZ ls ind = Some lst → NoDup lst) →
  (∀ i j a b p, nthZ ls i = Some a → nthZ ls j = Some b → p ∈ a → p ∈ b → i = j) → NoDup (concat ls).
Proof.
  intros Hnd Hdj. induction ls as [|l ls IH]; simpl; [apply NoDup_nil_2|].
  assert (∀ i x, nthZ ls i = Some x → nthZ (l :: ls) (i + 1) = Some x) as Hs.
  { intros i x Hi. pose proof (nthZ_Some _ _ _ Hi). unfold nthZ in *. rewrite (proj2 (Z.leb_le 0 i)) in Hi by lia.
    rewrite (proj2 (Z.leb_le 0 (i + 1))) by lia. by rewrite Z2Nat.inj_add, Nat.add_1_r by lia. }
  apply NoDup_app. split; [by apply (Hnd 0)|]. split.
  - intros p Hp (ind & lst & Hi & Hp')%elem_of_concat. pose proof (nthZ_Some _ _ _ Hi).
    assert (0 = ind + 1) as E by (apply (Hdj 0 (ind + 1) l lst p); [done|by apply Hs|done|done]). lia.
  - apply IH.
    + intros ind lst Hi. by apply (Hnd (ind + 1)), Hs.
    + intros i j a b p Hi Hj Ha Hb. apply Hs in Hi, Hj. pose proof (Hdj _ _ a b p Hi Hj Ha Hb). lia.
Qed.

Definition in_limbo s p : Prop := ∃ id ind, at_slot s ∅ (AtLimbo id ind) p.

Definition closing s h (l : list Z) s' h' : Prop :=
  (∃ z L, s' = set_hs_limbos L (set_hs_slab z s) ∧ reached tid (hs_slab s) z) ∧ refines f (hs_slab s') h' ∧
  (∀ p b, h' !! p = Some b ↔ h !! p = Some b ∧
     ∀ u id ind, u ∉ l → hs_tsd s !! u = Some id → ¬ at_slot s ∅ (AtLimbo id ind) p) ∧
  (∀ u id, u ∈ l → hs_tsd s !! u = Some id → hs_limbos s' !! id = hs_limbos s !! id).

Lemma limbo_close_step s h tm (u : Z) l s' h' Q :
  slots_inv s h tm → closing s h (u :: l) s' h' → u ∉ l → is_Some (hs_tsd s !! u) →
  (∀ s2 h2, closing s h l s2 h2 → Q tt s2) →
  wp (id ← mderef (hs_tsd s !! u); limbo_close tid id) Q s'.
Proof.
  intros Hs ((z & L & -> & Hre) & Hz & Hh & Hlim) Ht [id Hid] HQ. set (s' := set_hs_limbos L (set_hs_slab z s)) in *.
  rewrite Hid. destruct (so_tsd _ _ _ Hs u id Hid) as [ls Hls]. wp_step.
  assert (hs_limbos s' !! id = Some ls) as Hls' by (rewrite (Hlim u id); [done|by left|done]).
  wp_step; [reflexivity|]. unfold limbo_close, load_limbo.
  wp_step. wp_step. wp_step. wp_step; [exact Hls'|]. wp_step.
  assert (∀ p, p ∈ concat ls ↔ ∃ ind, at_slot s ∅ (AtLimbo id ind) p) as Hc.
  { intros p. rewrite elem_of_concat. simpl. split.
    - intros (ind & lst & Hi & Hp). by exists ind, ls, lst.
    - intros (ind & ls' & lst & Hl' & Hi & Hp). exists ind, lst. pose proof (eq_trans (eq_sym Hls) Hl') as E. by injection E as <-. }
  assert (∀ u' id' ind ind' p, u' ≠ u → hs_tsd s !! u' = Some id' → at_slot s ∅ (AtLimbo id ind) p →
    ¬ at_slot s ∅ (AtLimbo id' ind') p) as Hapart.
  { intros u' id' ind ind' p Hne Ht' Hp Hp'. assert (AtLimbo id ind = AtLimbo id' ind' :> slot K) as E.
    { by apply (so_disj _ _ _ Hs _ _ p). }
    injection E as <- _. apply Hne. by apply (so_own _ _ _ Hs u' u id). }
  assert (∀ u', u' ∉ u :: l → u' ≠ u) as Hnt by (intros u' Hn ->; apply Hn; by left).
  apply (wp_release_all s' h'); [exact Hz| | |].
  - apply NoDup_concat.
    + intros ind lst Hi. by apply (so_limbo _ _ _ Hs id ls ind).
    + intros i j a b p Hi Hj Ha Hb. assert (AtLimbo id i = AtLimbo id j :> slot K) as E; [|by injection E].
      apply (so_disj _ _ _ Hs _ _ p); [by exists ls, a|by exists ls, b].
  - intros p Hp. apply Hc in Hp as [ind Hp]. destruct (so_block _ _ _ Hs (AtLimbo id ind) p Hp) as (x & (_ & b & Hb & _) & _).
    exists b. apply Hh. split; [done|]. intros u' id' ind' Hn Ht'. by apply (Hapart u' id' ind); [apply Hnt| |].
  - intros z2 h2 Hz2 Hre2 Hh2. wp_step. apply (HQ _ h2). split.
    { exists z2. eexists. split; [reflexivity|exact (reached_trans _ _ z z2 Hre Hre2)]. } split; [exact Hz2|]. split.
    + intros p b. rewrite Hh2, Hh, Hc. split.
      * intros [[Hb Hn] Hni]. split; [done|]. intros u' id' ind' Hnt' Ht' Hp. destruct (decide (u' = u)) as [->|Hne].
        -- apply Hni. exists ind'. by assert (id' = id) as <- by congruence.
        -- apply (Hn u' id' ind'); [|done|done]. intros [?|?]%elem_of_cons; done.
      * intros [Hb Hn]. split; [split; [done|]|].
        -- intros u' id' ind' Hnt'. apply Hn. intros Hin. apply Hnt'. by right.
        -- intros [ind Hp]. by apply (Hn u id ind).
    + intros u' id' Ht' Hid'. simpl. rewrite lookup_delete_ne.
      * apply (Hlim u' id'); [by right|done].
      * intros <-. assert (u' = u) as -> by (by apply (so_own _ _ _ Hs u' u id)). done.
Qed.

Lemma wp_close_limbos s h tm Q :
  slots_inv s h tm → refines f (hs_slab s) h →
  (∀ z L h', reached tid (hs_slab s) z → refines f z h' → (∀ p b, h' !! p = Some b ↔ h !! p = Some b ∧ ¬ in_limbo s p) →
     Q tt (set_hs_limbos L (set_hs_slab z s))) →
  wp (mforeach (um_order (dom (hs_tsd s))) (λ u, id ← mderef (hs_tsd s !! u); limbo_close tid id)) Q s.
Proof.
  intros Hs Hz HQ. pose proof (um_order_spec (dom (hs_tsd s))) as Hp. set (l0 := um_order (dom (hs_tsd s))) in *.
  assert (∀ l s' h', NoDup l → (∀ u, u ∈ l → is_Some (hs_tsd s !! u)) → closing s h l s' h' →
    wp (mforeach l (λ u, id ← mderef (hs_tsd s !! u); limbo_close tid id)) Q s') as Hloop.
  { induction l as [|u l IH]; intros s' h' Hnd Hl Hc; simpl.
    - apply wp_ret. destruct Hc as ((z & L & -> & Hre) & Hz' & Hh & _). apply (HQ z L h'); [exact Hre|exact Hz'|]. intros p b. rewrite Hh.
      split; intros [Hb Hn]; (split; [done|]).
      + intros (id & ind & Hat). pose proof Hat as (ls & lst & Hls & _). destruct (so_owner _ _ _ Hs id) as [u Ht]; [by eexists|].
        apply (Hn u id ind); [apply not_elem_of_nil|done|done].
      + intros u id ind _ _ Hat. apply Hn. by exists id, ind.
    - apply NoDup_cons in Hnd as [Hni Hnd]. apply wp_bind, (limbo_close_step s h tm u l s' h'); [done|done|done|apply Hl; by left|].
      intros s2 h2 Hc2. apply (IH s2 h2); [done|intros w Hw; apply Hl; by right|done]. }
  apply (Hloop l0 s h).
  - rewrite Hp. apply NoDup_elements.
  - intros u Ht. rewrite Hp in Ht. by apply elem_of_elements, elem_of_dom in Ht.
  - split; [exists (hs_slab s), (hs_limbos s); split; [by destruct s|apply reached_refl]|]. split; [done|]. split; [|done]. intros p b. split; [|tauto].
    intros Hb. split; [done|]. intros u id ind Ht Hid _. apply Ht. rewrite Hp. apply elem_of_elements, elem_of_dom. by eexists.
Qed.
End lemmas.
