(* ===== verification/ShutdownSpec.v ===== *)
(** * A shutdown and the next start

    [close_open]: after the destructor of the store has run, a new store on an
    allocator that has the same blocks and the same root loads the same map. *)

From S2P Require Export RebootSpec.
Import Pmem.

(** ** Definitions *)

Section defs.
Context `{Util} `{UnorderedMap} `{Dense} {K : Type} `{Countable K}.
Implicit Types (s : hs_st K) (h : heap) (tm : gmap K Z).

(** The block that [acquire] returned, or null, which [E] allows. *)
Definition got (E : error → Prop) (r : region_t) (h h' : heap) : Prop :=
  (r = null_region ∧ h' = h ∧ E EUB) ∨
  ∃ p b, r = region (bl_ref b) p ∧ h' = <[p := b]> h ∧ h !! p = None ∧ bl_code b = kFreeCode ∧ p ≠ nullptr.

(** The blocks of the records in the index. *)
Definition index_blocks h tm (hk : heap) : Prop := ∀ p b, hk !! p = Some b ↔ h !! p = Some b ∧ ∃ k, tm !! k = Some p.

(** What the destructor leaves of the store [s]: the blocks [hk] of the records,
    three blocks for the head, the directory and the versions, and those of the
    segments. *)
Record shut s s' (hk h' : heap) (tm : gmap K Z) (entries : list Z) (loc : gmap Z Z) (pdir pver : Z) : Prop := {
  sh_heap : hs_heap s' = hs_heap s;
  sh_head : hs_phead s' !! root0 (hs_slab s') = Some {|
    ph_depth := ht_depth (hs_index s); ph_tomb_size := hs_tomb s; ph_dir := pdir; ph_ver := pver |};
  sh_dir : hs_pdir s' !! pdir = Some entries;
  sh_ver : hs_pver s' !! pver = Some (hs_version s);
  sh_segs : unloaded (hs_index s) (hs_pseg s') (2 ^ ht_depth (hs_index s)) entries loc;
  sh_nodup : NoDup [root0 (hs_slab s'); pdir; pver];
  sh_new : ∀ p, p ∈ [root0 (hs_slab s'); pdir; pver] → p ≠ nullptr ∧ hk !! p = None ∧ is_Some (h' !! p) ∧ ∀ sid, loc !! sid ≠ Some p;
  sh_seg : ∀ sid p, loc !! sid = Some p → hk !! p = None ∧ is_Some (h' !! p);
  sh_old : ∀ p, p ∉ [root0 (hs_slab s'); pdir; pver] → (∀ sid, loc !! sid ≠ Some p) → h' !! p = hk !! p;
}.

(** A new store, with what the old one left in persistent memory. *)
Definition power_on s s0 : hs_st K :=
  set_hs_heap (hs_heap s) (set_hs_phead (hs_phead s) (set_hs_pdir (hs_pdir s)
    (set_hs_pver (hs_pver s) (set_hs_pseg (hs_pseg s) s0)))).
End defs.

(** The sizes of the structures that the destructor writes. *)
Definition close_sizes (cfg : HashConfig) (N depth : Z) : list Z :=
  [sizeof_PersistHead; 8 * 2 ^ depth; 8 * N; sizeof_PersistBucket (kNSlotInBucket cfg) * kNBucketInSegment cfg].

(** The errors of the destructor of the store whose allocator is in the state [z0]:
    the directory is too large, or the destructor, after some calls to the allocator,
    cannot get a block for one of the structures, although only the records of the
    [n] keys and the other structures are in the pool then. *)
Definition close_fails `{Util} `{UnorderedMap} (cfg : HashConfig) (N : Z) (f : ExtentFile) (tid : Z) (z0 : alloc_st)
    (n depth : Z) (e : error) : Prop :=
  e = EExit ∧ dir_limit ≤ 8 * 2 ^ depth ∨
  (e = EUB ∨ e = EAssert) ∧ ∃ z h size, slab_calls tid z0 z ∧ refines f z h ∧ Z.of_nat (base.size h) ≤ n + 3 + 2 ^ depth ∧
    size ∈ close_sizes cfg N depth ∧ exhausted z tid size.

(** ** Lemmas *)

Section lemmas.
Context `{UtilSpec} `{UnorderedMapSpec} `{DenseSpec} `{SimdSpec} {K : Type} `{Countable K} `{HashFnSpec K}.
Variable cfg : HashConfig.
Hypothesis Hcfg : wf_config cfg.
Variable N : Z.
Hypothesis HN : 0 < N.
Variable sizeof_KVPair : Z.
Variable key_len : K → Z.
Variable zero_key : K.
Variable f : ExtentFile.
Hypothesis Hf : 2 < extents f ∧ file_end f ≤ 2 ^ 48.
Variable tid : Z.
Implicit Types (s : hs_st K) (h hk : heap) (tm : gmap K Z) (m : gmap K (option (list Z))) (loc num : gmap Z Z).

Abbreviation store_rel := (store_rel cfg N sizeof_KVPair key_len f).
Abbreviation store_inv := (store_inv cfg N sizeof_KVPair key_len f).

(** *** Blocks for the structures *)

Lemma wp_e_got s h size (E : error → Prop) Q :
  refines f (hs_slab s) h → fine_size size → (exhausted (hs_slab s) tid size → E EUB ∧ E EAssert) →
  (∀ z r h', refines f z h' → reached tid (hs_slab s) z → got E r h h' → Q r (set_hs_slab z s)) →
  wp_e (slabm (Alloc_acquire tid size)) E Q s.
Proof.
  intros Hz Hs HE HQ. unfold slabm. apply wp_e_zoom, (wp_e_call _ tid); [apply keeps_acquire|intros r z; apply call_acquire|].
  apply (wp_heap_get f _ h); [done|done|done| |].
  - intros z Hz' Hx Er. apply (HQ z _ h); [done|done|]. left. split; [done|]. split; [done|]. by apply HE.
  - intros z p b Hz' Hno _ Hc Er. apply (HQ z _ (<[p := b]> h)); [done|done|]. right. exists p, b.
    do 4 (split; [done|]). assert (2 < p < 2 ^ 48) as Hp by (eapply (block_addr f Hf); [exact Hz'|apply lookup_insert_eq]).
    change nullptr with 0. lia.
Qed.

Lemma got_size E r h h' : got E r h h' → Z.of_nat (size h') ≤ Z.of_nat (size h) + 1.
Proof.
  intros [(-> & -> & _)|(p & b & -> & -> & Hn & _)]; [lia|]. rewrite map_size_insert_None by done. lia.
Qed.

Lemma got_keeps E r h h' p b : got E r h h' → h !! p = Some b → h' !! p = Some b.
Proof.
  intros [(-> & -> & _)|(q & c & -> & -> & Hn & _)] Hb; [done|]. rewrite lookup_insert_ne; [done|]. intros <-. congruence.
Qed.

(** [publish(false)] *)
Lemma wp_e_publish s h r (E : error → Prop) Q :
  refines f (hs_slab s) h →
  (r = null_region ∧ E EUB ∨ ∃ p b, r = region (bl_ref b) p ∧ h !! p = Some b ∧ bl_code b = kFreeCode) →
  (∀ z p b, r = region (bl_ref b) p → h !! p = Some b → refines f z (<[p := set_code (hire_code false 0) b]> h) →
     reached tid (hs_slab s) z → Q tt (set_hs_slab z s)) →
  wp_e (publish_volatile r) E Q s.
Proof.
  intros Hz [[-> HE]|(p & b & -> & Hb & Hc)] HQ.
  - unfold wp_e. assert (publish_volatile null_region s = Err EUB) as -> by reflexivity. done.
  - apply wp_e_wp. unfold publish_volatile. apply wp_slabm, (wp_call _ tid); [apply keeps_publish|intros u z; apply call_publish|].
    apply (wp_heap_publish f _ h p b); [done|done|done|by vm_compute|]. intros z Hz' Er. by apply (HQ z p b).
Qed.

Lemma wp_e_check p s (E : error → Prop) Q : (p = nullptr → E EUB) → (p ≠ nullptr → Q tt s) → wp_e (check_pointer p) E Q s.
Proof.
  intros HE HQ. unfold check_pointer. destruct (Z.eqb_spec p nullptr); [by apply wp_e_err, HE|by apply wp_e_wp, wp_ret, HQ].
Qed.

(** The bound on the number of records. *)
Lemma index_blocks_size h tm hk : index_blocks h tm hk → (size hk ≤ size tm)%nat.
Proof.
  intros Hk. rewrite <-size_dom. unfold size at 1, set_size. simpl. rewrite <-length_map_to_list.
  rewrite <-(length_fmap snd (map_to_list tm)). apply submseteq_length, NoDup_submseteq; [apply NoDup_elements|].
  intros p Hp. apply elem_of_elements, elem_of_dom in Hp as [b Hb]. apply Hk in Hb as [_ [k Hb]].
  apply list_elem_of_fmap. exists (k, p). split; [done|]. by apply elem_of_map_to_list.
Qed.

Lemma dir_size_fine depth : 0 ≤ depth → 8 * 2 ^ depth < dir_limit → fine_size (8 * 2 ^ depth).
Proof.
  intros Hd Hlt. assert (0 < 2 ^ depth) by (by apply Z.pow_pos_nonneg). change dir_limit with 4194304 in Hlt.
  unfold fine_size. change kMaxLargeSize with 4194304. lia.
Qed.

(** *** The destructor *)

(** The limbo lists are closed: only the records in the index are left. *)
Lemma limbos_closed s h tm m hk :
  store_inv no_guard None (hs_version s) s h tm m → hs_retired s = [] →
  (∀ p b, hk !! p = Some b ↔ h !! p = Some b ∧ ¬ in_limbo s p) → index_blocks h tm hk.
Proof.
  intros Hs Hr Hk p b. rewrite Hk. pose proof (si_slots _ _ _ _ _ _ _ _ _ _ _ _ Hs) as Hsl. split; intros [Hb Hp]; (split; [done|]).
  - destruct (si_owned _ _ _ _ _ _ _ _ _ _ _ _ Hs p) as [?|[[k|id ind|] Hx]]; [by eexists|done|by exists k| |].
    + destruct Hp. by exists id, ind.
    + simpl in Hx. rewrite Hr in Hx. by apply not_elem_of_nil in Hx.
  - destruct Hp as [k Hk']. intros (id & ind & Hl). assert (at_slot s tm (AtIndex k) p) as H1' by done.
    assert (at_slot s tm (AtLimbo id ind) p) as H2' by done. by pose proof (so_disj _ _ _ Hsl _ _ _ H1' H2').
Qed.

Lemma wp_close n s m (E : error → Prop) Q :
  store_rel no_guard n s m → hs_retired s = [] → hs_tomb s ≤ kReclaimTomb → fine_size (8 * N) →
  fine_size (sizeof_PersistBucket (kNSlotInBucket cfg) * kNBucketInSegment cfg) →
  (∀ e, close_fails cfg N f tid (hs_slab s) (Z.of_nat (size m)) (ht_depth (hs_index s)) e → E e) →
  (∀ s' h tm hk h' entries loc pdir pver,
     store_inv no_guard None (hs_version s) s h tm m → index_blocks h tm hk → refines f (hs_slab s') h' →
     shut s s' hk h' tm entries loc pdir pver → Q tt s') →
  wp_e (HashStore_close cfg N zero_key tid) E Q s.
Proof.
  intros [(h & tm & Hs) Hb] Hret Htomb HfN Hfseg HE HQ. set (depth := ht_depth (hs_index s)) in *.
  pose proof (si_data _ _ _ _ _ _ _ _ _ _ _ _ Hs) as [k1 k2 k3]. pose proof (hi_depth _ _ _ k1) as Hdep. fold depth in Hdep.
  assert (0 < 2 ^ depth) as Hpos by (apply Z.pow_pos_nonneg; lia).
  assert (size tm = size m) as Esz.
  { rewrite <-!size_dom. f_equal. apply leibniz_equiv. intros k. rewrite !elem_of_dom.
    pose proof (index_key _ _ _ _ _ _ _ _ _ _ _ _ k Hs) as Hk. rewrite <-!not_eq_None_Some. by rewrite Hk. }
  unfold HashStore_close. apply wp_e_bind, wp_e_wp, wp_gets. apply wp_e_bind, wp_e_wp.
  apply (wp_close_limbos f Hf tid s h tm); [apply Hs|apply Hs|]. intros z0 L hk [Y0 _] Hz0 Hk.
  pose proof (limbos_closed s h tm m hk Hs Hret Hk) as Hidx. pose proof (index_blocks_size h tm hk Hidx) as Hszk.
  set (s1 := set_hs_limbos L (set_hs_slab z0 s)).
  assert (∀ z hh sz, slab_calls tid (hs_slab s) z → refines f z hh → Z.of_nat (size hh) ≤ Z.of_nat (size hk) + 3 + 2 ^ depth → sz ∈ close_sizes cfg N depth →
    exhausted z tid sz → E EUB ∧ E EAssert) as Hx.
  { intros z hh sz Hc Hz Hsz Hin Hx. split; apply HE; right; (split; [tauto|]); exists z, hh, sz; (split; [done|]);
      (split; [done|split; [lia|done]]). }
  apply wp_e_bind, wp_e_wp, wp_gets. cbv zeta. change (hs_index s1) with (hs_index s).
  unfold directory_size. fold depth. rewrite bit_pow by lia. apply wp_e_bind.
  destruct (Z.leb_spec dir_limit (8 * 2 ^ depth)) as [Hbig|Hsmall]; [apply wp_e_err, HE; by left|]. apply wp_e_wp, wp_ret.
  pose proof (dir_size_fine depth ltac:(lia) Hsmall) as Hfdir.
  assert (fine_size sizeof_PersistHead) as Hfhead by (split; by vm_compute).
  apply wp_e_bind. apply (wp_e_got s1 hk); [exact Hz0|exact Hfhead| |].
  { intros Hex. apply (Hx z0 hk sizeof_PersistHead); [exact Y0|exact Hz0|lia|by left|exact Hex]. }
  intros z1 r1 h1 Hz1 [Y1 _] G1. assert (slab_calls tid (hs_slab s) z1) as D1 by (etrans; [exact Y0|exact Y1]). pose proof (got_size _ _ _ _ G1) as S1.
  apply wp_e_bind. apply (wp_e_got _ h1); [exact Hz1|exact Hfdir| |].
  { intros Hex. apply (Hx z1 h1 (8 * 2 ^ depth)); [exact D1|exact Hz1|lia|right; by left|exact Hex]. }
  intros z2 r2 h2 Hz2 [Y2 _] G2. assert (slab_calls tid (hs_slab s) z2) as D2 by (etrans; [exact D1|exact Y2]). pose proof (got_size _ _ _ _ G2) as S2.
  apply wp_e_bind. apply (wp_e_got _ h2); [exact Hz2|exact HfN| |].
  { intros Hex. apply (Hx z2 h2 (8 * N)); [exact D2|exact Hz2|lia|right; right; by left|exact Hex]. }
  intros z3 r3 h3 Hz3 [Y3 _] G3. assert (slab_calls tid (hs_slab s) z3) as D3 by (etrans; [exact D2|exact Y3]). pose proof (got_size _ _ _ _ G3) as S3.
  apply wp_e_bind, wp_e_wp, wp_gets. change (hs_tomb _) with (hs_tomb s). rewrite (proj2 (Z.ltb_ge kReclaimTomb (hs_tomb s))) by done.
  apply wp_e_bind, wp_e_wp, wp_ret, wp_e_bind, wp_e_wp, wp_gets. change (hs_tomb _) with (hs_tomb s).
  apply wp_e_bind, wp_e_check.
  { destruct G1 as [(_ & _ & He)|(p & b & -> & _ & _ & _ & Hp)]; [done|]. intros Hp'. by destruct Hp. }
  intros Hph. apply wp_e_bind, wp_e_wp, wp_modify.
  destruct G1 as [(-> & _ & _)|(p1 & b1 & -> & -> & N1 & C1 & P1)]; [by destruct Hph|]. cbn [reg_pointer] in *.
  set (s4 := set_hs_phead _ _). assert (h3 !! p1 = Some b1) as B1.
  { apply (got_keeps E r3 h2 h3 p1 b1 G3), (got_keeps E r2 _ h2 p1 b1 G2), lookup_insert_eq. }
  apply wp_e_bind, (wp_e_publish s4 h3); [exact Hz3|right; by exists p1, b1|]. intros z4 q c Eq Bq Hz4 [Y4 _].
  assert (q = p1) as -> by congruence. assert (c = b1) as -> by congruence. clear Eq Bq.
  apply wp_e_bind, (wp_e_publish _ (<[p1 := set_code (hire_code false 0) b1]> h3)); [exact Hz4| |].
  { destruct G2 as [(-> & _ & He)|(p2 & b2 & -> & -> & N2 & C2 & P2)]; [by left|right]. exists p2, b2. split; [done|].
    split; [|done]. rewrite lookup_insert_ne by (intros <-; rewrite lookup_insert_eq in N2; done).
    apply (got_keeps E r3 _ h3 p2 b2 G3), lookup_insert_eq. }
  intros z5 q c Eq Bq Hz5 [Y5 _]. destruct (block_addr f Hf _ _ _ _ Hz4 Bq) as [Hq _].
  destruct G2 as [(-> & _ & _)|(p2 & b2 & -> & -> & N2 & C2 & P2)].
  { exfalso. assert (q = nullptr) as -> by (unfold null_region in Eq; congruence). change nullptr with 0 in Hq. lia. }
  assert (q = p2) as -> by congruence. cbn [reg_pointer] in *.
  assert (p1 ≠ p2) as D12 by (intros <-; rewrite lookup_insert_eq in N2; done).
  assert (c = b2) as ->.
  { rewrite lookup_insert_ne in Bq by done. pose proof (got_keeps E r3 _ h3 p2 b2 G3 (lookup_insert_eq _ _ _)). congruence. }
  clear Eq Hq. rename Bq into B2. set (h5 := <[p2 := _]> _) in Hz5.
  apply wp_e_bind, (wp_e_publish _ h5); [exact Hz5| |].
  { destruct G3 as [(-> & _ & He)|(p3 & b3 & -> & -> & N3 & C3 & P3)]; [by left|right]. exists p3, b3. split; [done|].
    split; [|done]. unfold h5. rewrite lookup_insert_ne; [rewrite lookup_insert_ne; [apply lookup_insert_eq|]|]; intros <-.
    - rewrite lookup_insert_ne, lookup_insert_eq in N3 by done. done.
    - rewrite lookup_insert_eq in N3. done. }
  intros z6 q c Eq Bq Hz6 [Y6 _]. destruct (block_addr f Hf _ _ _ _ Hz5 Bq) as [Hq _].
  destruct G3 as [(-> & _ & _)|(p3 & b3 & -> & -> & N3 & C3 & P3)].
  { exfalso. assert (q = nullptr) as -> by (unfold null_region in Eq; congruence). change nullptr with 0 in Hq. lia. }
  assert (q = p3) as -> by congruence. cbn [reg_pointer] in *. clear Eq Hq. rename Bq into B3.
  rewrite lookup_insert_None in N3. destruct N3 as [N3 D23]. rewrite lookup_insert_None in N3. destruct N3 as [N3 D13].
  rewrite lookup_insert_ne in N2 by done.
  set (h6 := <[p3 := _]> _) in Hz6.
  assert (∀ p, p ∉ [p1; p2; p3] → h6 !! p = hk !! p) as H6old.
  { intros p Hp. rewrite !not_elem_of_cons in Hp. destruct Hp as (? & ? & ? & _). unfold h6, h5. by rewrite !lookup_insert_ne by congruence. }
  assert (∀ p, p ∈ [p1; p2; p3] → is_Some (h6 !! p)) as H6new.
  { intros p Hp. unfold h6, h5. rewrite !lookup_insert_is_Some'. rewrite !elem_of_cons in Hp. destruct Hp as [->|[->|[->|Hp]]]; [tauto..|].
    by apply not_elem_of_nil in Hp. }
  assert (Z.of_nat (size h6) ≤ Z.of_nat (size hk) + 3) as S6.
  { unfold h6. rewrite map_size_insert_Some by (by eexists). unfold h5. rewrite map_size_insert_Some by (by eexists).
    rewrite map_size_insert_Some by (by eexists). lia. }
  assert (slab_calls tid (hs_slab s) z6) as D6 by (etrans; [exact D3|etrans; [exact Y4|etrans; [exact Y5|exact Y6]]]).
  apply wp_e_bind, wp_e_wp, wp_slabm, wp_run, (wp_root_set f z6 h6); [exact Hz6|]. intros z7 Hz7 Er7 R7.
  assert (slab_calls tid (hs_slab s) z7) as D7 by (eapply rtc_r; [exact D6|right; by eexists]).
  apply wp_e_bind, wp_e_check; [by intros ?|]. intros _. apply wp_e_bind, wp_e_wp, wp_modify.
  apply wp_e_bind, wp_e_wp. unfold epoch_clear. apply wp_bind, wp_gets. set (s7 := set_hs_pver _ _).
  change (hs_retired s7) with (hs_retired s). rewrite Hret. apply wp_ret.
  apply wp_e_bind, wp_e_check; [by intros ?|]. intros _. apply wp_e_bind.
  assert (2 ^ depth = directory_size (hs_index s7)) as Edir.
  { unfold directory_size. change (hs_index s7) with (hs_index s). fold depth. by rewrite bit_pow by lia. }
  rewrite Edir. apply (wp_unload cfg Hcfg zero_key f Hf tid s7 h6); [exact k1|exact Hz7|exact Hfseg| |].
  { change (ht_depth (hs_index s7)) with depth. intros z hh [Cz _] Hzz Hsz Hex.
    apply (Hx z hh (sizeof_PersistBucket (kNSlotInBucket cfg) * kNBucketInSegment cfg)); [by etrans|done|lia| |done].
    do 3 right. by left. }
  change (ht_depth (hs_index s7)) with depth. intros entries s8 h8 loc Hu. apply wp_e_wp, wp_modify.
  destruct Hu as ((z8 & pseg & -> & _ & Er8) & Hz8 & [Hold Hnew] & Hun & _).
  change (root0 z8 = root0 z7) in Er8. rewrite Er7 in Er8. cbn [reg_pointer] in *.
  apply (HQ _ h tm hk h8 entries loc p2 p3); [done|done|exact Hz8|].
  assert (root0 (hs_slab (set_hs_pdir (<[p2:=entries]> (hs_pdir (set_hs_pseg pseg (set_hs_slab z8 s7))))
    (set_hs_pseg pseg (set_hs_slab z8 s7)))) = p1) as Er by exact Er8.
  assert (∀ p sid, p ∈ [p1; p2; p3] → loc !! sid ≠ Some p) as Hapart.
  { intros p sid Hp Hl. destruct (Hnew sid p Hl) as [Hn _]. destruct (H6new p Hp) as [b Hb']. congruence. }
  constructor; rewrite ?Er.
  - reflexivity.
  - change (hs_phead _) with (<[p1 := {| ph_depth := depth; ph_tomb_size := hs_tomb s; ph_dir := p2; ph_ver := p3 |}]> (hs_phead s)).
    apply lookup_insert_eq.
  - change (hs_pdir _) with (<[p2 := entries]> (hs_pdir s)). apply lookup_insert_eq.
  - change (hs_pver _) with (<[p3 := hs_version s]> (hs_pver s)). apply lookup_insert_eq.
  - exact Hun.
  - rewrite !NoDup_cons, !not_elem_of_cons. split; [split; [done|split; [congruence|apply not_elem_of_nil]]|].
    split; [split; [congruence|apply not_elem_of_nil]|]. split; [apply not_elem_of_nil|apply NoDup_nil_2].
  - intros p Hp. split; [|split; [|split]].
    + rewrite !elem_of_cons in Hp. destruct Hp as [->|[->|[->|Hp]]]; [done..|by apply not_elem_of_nil in Hp].
    + rewrite !elem_of_cons in Hp. destruct Hp as [->|[->|[->|Hp]]]; [done..|by apply not_elem_of_nil in Hp].
    + rewrite Hold; [by apply H6new|intros sid; by apply Hapart].
    + intros sid. by apply Hapart.
  - intros sid p Hl. destruct (Hnew sid p Hl) as [Hn Hs8]. split; [|done]. rewrite <-H6old; [done|].
    intros Hp. by apply (Hapart p sid).
  - intros p Hp Hl. rewrite Hold by done. by apply H6old.
Qed.

(** *** The start *)

(** The loop over the directory does not change the state. *)
Lemma wp_load hp t entries loc s Q :
  let n := 2 ^ ht_depth t in
  ht_inv cfg hp t → unloaded t (hs_pseg s) n entries loc →
  (∀ vdir segs released num, loaded cfg t entries loc n vdir segs released num → Q (vdir, segs, released) s) →
  wp (mfold (Z.to_nat n) 0 (load_entry cfg entries) ([], [], [])) Q s.
Proof.
  intros n Ht Hu HQ. assert (0 < n) as Hn by (apply Z.pow_pos_nonneg; [lia|apply (hi_depth _ _ _ Ht)]).
  apply (wp_mfold (λ i '(vdir, segs, released) s', s' = s ∧ ∃ num, loaded cfg t entries loc i vdir segs released num)).
  - split; [done|]. exists ∅. constructor; [done|done|lia| |].
    + intros p k Hp. by apply (lookup_empty_Some (M := gmap Z)) in Hp.
    + intros p k Hk. apply nthZ_Some in Hk. change (lenZ []) with 0 in Hk. lia.
  - intros i [[vdir segs] released] s' Hi [-> [num Hl]].
    destruct (load_step cfg Hcfg hp t _ entries loc i vdir segs released num s Ht Hu eq_refl ltac:(lia) Hl) as (v' & g' & r' & num' & E & Hl').
    unfold wp. rewrite E. split; [done|]. by exists num'.
  - intros [[vdir segs] released] s' [-> [num Hl]]. apply (HQ _ _ _ num). by rewrite Z.add_0_l, Z2Nat.id in Hl by lia.
Qed.

(** The blocks to release. *)
Lemma released_blocks t pseg entries loc vdir segs released num :
  let n := 2 ^ ht_depth t in
  unloaded t pseg n entries loc → loaded cfg t entries loc n vdir segs released num → 
  NoDup released ∧ ∀ p, p ∈ released ↔ ∃ sid, loc !! sid = Some p.
Proof.
  intros n [h1 h2 h3 h4 h5] [g1 g2 g3 g4 g5].
  assert (∀ p, p ∈ released ↔ ∃ k, nthZ released k = Some p) as Hr.
  { intros p. rewrite list_elem_of_lookup. split.
    - intros [k Hk]. exists (Z.of_nat k). by rewrite nthZ_nat.
    - intros [k Hk]. exists (Z.to_nat k). pose proof (nthZ_Some _ _ _ Hk). rewrite <-nthZ_nat. by rewrite Z2Nat.id by lia. }
  split.
  - apply NoDup_alt. intros i j p Hi Hj. rewrite <-nthZ_nat in Hi, Hj. apply g5 in Hi, Hj. rewrite Hi in Hj. injection Hj. lia.
  - intros p. rewrite Hr. split.
    + intros [k Hk]. apply g5 in Hk. destruct (g4 p k Hk) as (_ & _ & sid & _ & Hl & _). by exists sid.
    + intros [sid Hl]. destruct (h5 sid p Hl) as (j & Hj & Hd). destruct (h2 j sid) as (q & Hq & He); [lia|done|].
      destruct (g3 j Hj) as (q' & k & Hq' & Hk & _). assert (q' = p) as -> by congruence. exists k. by apply g4.
Qed.

(** Only the records are left. *)
Lemma start_heap s s1 hk h1 tm entries loc pdir pver (released : list Z) h2 :
  shut s s1 hk h1 tm entries loc pdir pver →
  (∀ p, p ∈ released ↔ ∃ sid, loc !! sid = Some p) → (∀ p b, h2 !! p = Some b ↔ h1 !! p = Some b ∧ p ∉ released) →
  delete (root0 (hs_slab s1)) (delete pver (delete pdir h2)) = hk.
Proof.
  intros Hs Hr Hh2. apply map_eq. intros p. destruct (decide (p ∈ [root0 (hs_slab s1); pdir; pver])) as [Hin|Hni].
  - destruct (sh_new _ _ _ _ _ _ _ _ _ Hs p Hin) as (_ & -> & _). apply lookup_delete_None.
    rewrite !elem_of_cons in Hin. rewrite !lookup_delete_None. destruct Hin as [->|[->|[->|Hin]]]; [tauto..|].
    by apply not_elem_of_nil in Hin.
  - rewrite !not_elem_of_cons in Hni. destruct Hni as (n1 & n2 & n3 & _). rewrite !lookup_delete_ne by congruence.
    apply option_eq. intros b. rewrite Hh2, Hr. destruct (decide (p ∈ released)) as [Hp|Hp].
    + apply Hr in Hp as [sid Hl]. destruct (sh_seg _ _ _ _ _ _ _ _ _ Hs sid p Hl) as [-> _]. split; [|done].
      intros [_ Hn]. destruct Hn. by exists sid.
    + rewrite (sh_old _ _ _ _ _ _ _ _ _ Hs p).
      * split; [tauto|]. intros Hb. split; [done|]. by rewrite <-Hr.
      * rewrite !not_elem_of_cons. split; [done|]. split; [done|]. split; [done|]. apply not_elem_of_nil.
      * intros sid Hl. apply Hp, Hr. by exists sid.
Qed.

(** The invariant of a store that has nothing but an index. *)
Lemma start_inv vs s s' h tm m hk :
  store_inv no_guard None vs s h tm m → index_blocks h tm hk → refines f (hs_slab s') hk →
  ht_inv cfg (hs_heap s) (hs_index s') → table_rel cfg (hs_heap s) (hs_index s') tm →
  hs_heap s' = hs_heap s → hs_limbos s' = ∅ → hs_retired s' = [] → hs_tsd s' = ∅ → hs_local s' = ∅ →
  store_inv no_guard None vs s' hk tm m.
Proof.
  intros [g1 g2 [d1 d2 d3] g4 g5 g6] Hk Hz Ht Hrel E1 E2 E3 E4 E5.
  assert (∀ x p, at_slot s' tm x p → ∃ k, x = AtIndex k ∧ tm !! k = Some p) as Hat.
  { intros [k|id ind|] p Hp; simpl in Hp; [by exists k| |rewrite E3 in Hp; by apply not_elem_of_nil in Hp].
    destruct Hp as (l & lst & Hl & _). rewrite E2 in Hl. by apply (lookup_empty_Some (M := gmap Z)) in Hl. }
  assert (∀ id l, ¬ hs_limbos s' !! id = Some l) as Hno.
  { intros id l Hl. rewrite E2 in Hl. by apply (lookup_empty_Some (M := gmap Z)) in Hl. }
  constructor; [done| | |done| |].
  - constructor.
    + intros x p Hp. destruct (Hat x p Hp) as (k & -> & Hkp).
      destruct (so_block _ _ _ g2 (AtIndex k) p Hkp) as (i & (Hi & b & Hb & Hx) & _). exists i. split; [|done]. split; [done|].
      exists b. split; [|done]. apply Hk. split; [done|by exists k].
    + intros x y p Hx Hy. destruct (Hat x p Hx) as (k & -> & Hxk), (Hat y p Hy) as (k' & -> & Hyk).
      by apply (so_disj _ _ _ g2 _ _ p).
    + intros id l ind lst Hl. by destruct (Hno id l).
    + rewrite E3. apply NoDup_nil_2.
    + intros c Hc. rewrite E3 in Hc. by apply not_elem_of_nil in Hc.
    + intros id l Hl. by destruct (Hno id l).
    + intros u id Hu. rewrite E4 in Hu. by apply (lookup_empty_Some (M := gmap Z)) in Hu.
    + intros u id Hu. rewrite E5 in Hu. by apply (lookup_empty_Some (M := gmap Z)) in Hu.
    + intros id [l Hl]. by destruct (Hno id l).
    + intros u u' id Hu. rewrite E4 in Hu. by apply (lookup_empty_Some (M := gmap Z)) in Hu.
  - constructor; rewrite ?E1; [done|done|]. intros k. specialize (d3 k).
    destruct (tm !! k) as [p|] eqn:Ep, (m !! k) as [v|]; try done.
    destruct d3 as (r & b & n & h1 & h2 & h3 & h4). exists r, b, n. rewrite E1. split; [done|]. split; [done|].
    split; [|done]. apply Hk. split; [done|by exists k].
  - split; [simpl; lia|]. intros p r Hp. simpl in Hp. by apply (lookup_empty_Some (M := gmap Z)) in Hp.
  - intros p [b Hb]. right. apply Hk in Hb as [_ [k Hkp]]. by exists (AtIndex k).
Qed.

Lemma wp_reload n s s1 h tm m hk h1 entries loc pdir pver z s0 (tid' : Z) Q :
  store_inv no_guard None (hs_version s) s h tm m → (∀ i x, nthZ (hs_version s) i = Some x → 0 ≤ x ≤ n) →
  index_blocks h tm hk → shut s s1 hk h1 tm entries loc pdir pver →
  refines f z h1 → root0 z = root0 (hs_slab s1) → HashStore_new cfg N z ∅ = Ok s0 tt →
  (∀ s2, store_rel no_guard n s2 m → Q tt s2) →
  wp (HashStore_reload cfg tid') Q (power_on s1 s0).
Proof.
  intros Hs Hb Hk Hsh Hz Er Es0 HQ. unfold HashStore_new in Es0. destruct (HashTable_new _ _ _ _) as [t0|]; [|done].
  injection Es0 as <-. pose proof (si_data _ _ _ _ _ _ _ _ _ _ _ _ Hs) as [k1 k2 k3]. pose proof (hi_depth _ _ _ k1) as Hdep.
  pose proof (sh_nodup _ _ _ _ _ _ _ _ _ Hsh) as Hnd. rewrite !NoDup_cons, !not_elem_of_cons in Hnd.
  destruct Hnd as ((n1 & n2 & _) & (n3 & _) & _).
  assert (∀ p, p ∈ [root0 (hs_slab s1); pdir; pver] → is_Some (h1 !! p)) as Hnew by (intros p Hp; by apply (sh_new _ _ _ _ _ _ _ _ _ Hsh p)).
  destruct (sh_new _ _ _ _ _ _ _ _ _ Hsh (root0 (hs_slab s1))) as (Hroot & _); [by left|].
  set (sr := power_on s1 _). unfold HashStore_reload. apply wp_bind, wp_slabm, wp_root_get.
  change (hs_slab sr) with z. rewrite Er. replace (set_hs_slab z sr) with sr by reflexivity.
  rewrite (proj2 (Z.eqb_neq (root0 (hs_slab s1)) nullptr)) by done. cbn [negb mwhen].
  apply wp_bind, wp_gets, wp_bind. change (hs_phead sr) with (hs_phead s1). rewrite (sh_head _ _ _ _ _ _ _ _ _ Hsh). apply wp_ret.
  cbn [ph_depth ph_tomb_size ph_dir ph_ver]. cbv zeta. rewrite bit_pow by lia.
  apply wp_bind, wp_modify, wp_bind, wp_gets, wp_bind. change (hs_pdir _) with (hs_pdir s1).
  rewrite (sh_dir _ _ _ _ _ _ _ _ _ Hsh). apply wp_ret, wp_bind, wp_gets, wp_bind. change (hs_pver _) with (hs_pver s1).
  rewrite (sh_ver _ _ _ _ _ _ _ _ _ Hsh). apply wp_ret, wp_bind, wp_modify, wp_bind. set (s3 := set_hs_version _ _).
  pose proof (sh_segs _ _ _ _ _ _ _ _ _ Hsh) as Hu.
  apply (wp_load (hs_heap s) (hs_index s) entries loc s3); [done|exact Hu|]. intros vdir segs released num Hl.
  destruct (released_blocks _ _ _ _ _ _ _ _ Hu Hl) as [Hnd Hr].
  apply wp_bind, (wp_release_all f Hf tid' s3 h1); [exact Hz|exact Hnd| |].
  { intros p Hp. apply Hr in Hp as [sid Hp]. by apply (sh_seg _ _ _ _ _ _ _ _ _ Hsh sid p). }
  intros z4 h4 Hz4 _ Hh4.
  assert (∀ p, p ∈ [root0 (hs_slab s1); pdir; pver] → is_Some (h4 !! p)) as Hin.
  { intros p Hp. destruct (Hnew p Hp) as [b Hb']. exists b. apply Hh4. split; [done|]. intros [sid Hl']%Hr.
    destruct (sh_new _ _ _ _ _ _ _ _ _ Hsh p Hp) as (_ & _ & _ & Hap). by apply (Hap sid). }
  apply wp_bind. unfold HashTable_prebuilt. apply wp_bind, wp_assert; [apply Z.leb_le; lia|]. apply wp_ret.
  apply wp_bind, wp_modify. set (t := Build_HashTable _ _ _ _).
  destruct (table_same_ok cfg Hcfg (hs_heap s) (hs_index s) t tm) as [Ht Hrel];
    [exact (loaded_same cfg Hcfg _ _ _ _ _ _ _ _ _ k1 Hu Hl)|done|done|].
  apply wp_bind, wp_slabm, (wp_heap_release f z4 h4); [exact Hz4|right; apply Hin; right; by left|]. intros z5 Hz5.
  apply wp_bind, wp_slabm, (wp_heap_release f z5 (delete pdir h4)); [exact Hz5|right|].
  { rewrite lookup_delete_ne by done. apply Hin. right. right. by left. }
  intros z6 Hz6. apply wp_slabm, (wp_heap_release f z6 (delete pver (delete pdir h4))); [exact Hz6|right|].
  { rewrite !lookup_delete_ne by congruence. apply Hin. by left. }
  intros z7 Hz7. rewrite (start_heap s s1 hk h1 tm entries loc pdir pver released h4) in Hz7 by done.
  apply HQ. split; [|exact Hb]. exists hk, tm.
  apply (start_inv (hs_version s) s _ h tm m hk); [exact Hs|exact Hk|exact Hz7|exact Ht|exact Hrel|exact (sh_heap _ _ _ _ _ _ _ _ _ Hsh)|reflexivity..].
Qed.

(** ** Properties *)

(** C5: shutting the store down and starting it again gives the same map.  The
    destructor, run when the epoch holds nothing back, terminates - unless the
    directory is too large or, in a state that its calls reach, the allocator has no
    block for what it writes ([close_fails]) - and leaves
    in the pool the records of the map, a head to which the root points, and the
    index.  On any allocator with these blocks and this root, [open] terminates
    and the new store is the map of the old one; all the blocks that the
    destructor has added are free again. *)
Theorem close_open n s m :
  store_rel no_guard n s m → hs_retired s = [] → hs_tomb s ≤ kReclaimTomb → fine_size (8 * N) →
  fine_size (sizeof_PersistBucket (kNSlotInBucket cfg) * kNBucketInSegment cfg) →
  wp_e (HashStore_close cfg N zero_key tid) (close_fails cfg N f tid (hs_slab s) (Z.of_nat (size m)) (ht_depth (hs_index s)))
    (λ _ s1, ∃ h1, refines f (hs_slab s1) h1 ∧
       ∀ z s0 tid', refines f z h1 → root0 z = root0 (hs_slab s1) → HashStore_new cfg N z ∅ = Ok s0 tt →
         wp (HashStore_reload cfg tid') (λ _ s2, store_rel no_guard n s2 m) (power_on s1 s0)) s.
Proof.
  intros Hr Hret Htomb HfN Hfs. apply (wp_close n s m); [done..|].
  intros s1 h tm hk h1 entries loc pdir pver Hs Hk Hz Hsh. exists h1. split; [done|]. intros z s0 tid' Hz' Er Es0.
  apply (wp_reload n s s1 h tm m hk h1 entries loc pdir pver z s0 tid'); [exact Hs|apply Hr|exact Hk|exact Hsh|exact Hz'|exact Er|exact Es0|done].
Qed.
End lemmas.

(** ** Witness *)

Definition store_once : store_client Z := SDo (SUpsert 1 5 [50]) (λ _, SDone).
Definition once_run : res (hs_st Z) (list store_result) :=
  run_store small_config 256 24 (λ _, 0) 0 store_once example_store.
Definition example_store1 : hs_st Z := match once_run with Ok _ s => s | Err _ => example_store end.

Lemma once_run_ok : match once_run with Ok _ s => (length (hs_retired s) =? 0)%nat && (hs_tomb s =? 0) | Err _ => false end = true.
Proof. vm_compute. reflexivity. Qed.

Lemma example_store1_rel :
  example_rel no_guard 1 example_store1 map2 ∧ hs_retired example_store1 = [] ∧ hs_tomb example_store1 ≤ kReclaimTomb.
Proof.
  assert (legal_client small_config 24 (λ _, 0) ∅ store_once) as Hl.
  { split; [|exact I]. split; [vm_compute; split; [reflexivity|discriminate]|apply few_keys_small; vm_compute; reflexivity]. }
  pose proof (store_client_ok small_config small_config_wf 256 ltac:(lia) 24 (λ _, 0) 0 example_file example_file_low
    store_once no_guard 0 example_store ∅ example_store_rel Hl ltac:(vm_compute; discriminate) (or_introl eq_refl)) as Hr.
  pose proof once_run_ok as Hok. unfold wp_e in Hr. fold once_run in Hr. unfold example_store1.
  destruct once_run as [l s|e]; [|discriminate Hok]. apply andb_prop in Hok as [Hok Ht]. split; [|split].
  - destruct Hr as (_ & g & Hg & Hr). exact (store_rel_unguard small_config 256 24 (λ _, 0) example_file g 1 s map2 Hr).
  - destruct (hs_retired s); [reflexivity|discriminate Hok].
  - apply Z.eqb_eq in Ht. rewrite Ht. vm_compute. discriminate.
Qed.

Lemma example_close_ok : match HashStore_close small_config 256 0 1 example_store1 with Ok _ _ => true | Err _ => false end = true.
Proof. vm_compute. reflexivity. Qed.

(** The next store is given the same allocator. *)
Lemma close_open_witness :
  wp (HashStore_close small_config 256 0 1)
    (λ _ s1, ∀ s0, HashStore_new small_config 256 (hs_slab s1) ∅ = Ok s0 tt →
       wp (HashStore_reload small_config 1) (λ _ s2, example_rel no_guard 1 s2 map2) (power_on s1 s0)) example_store1.
Proof.
  destruct example_store1_rel as (Hr & Hret & Htomb).
  assert (fine_size (8 * 256)) as Hf1 by (vm_compute; split; [reflexivity|discriminate]).
  assert (fine_size (sizeof_PersistBucket (kNSlotInBucket small_config) * kNBucketInSegment small_config)) as Hf2
    by (vm_compute; split; [reflexivity|discriminate]).
  pose proof (close_open small_config small_config_wf 256 24 (λ _, 0) 0 example_file example_file_low 1 1 example_store1 map2
    Hr Hret Htomb Hf1 Hf2) as Hw. pose proof example_close_ok as Hok. unfold wp_e in Hw. unfold wp at 1.
  destruct (HashStore_close small_config 256 0 1 example_store1) as [[] s1|e]; [|discriminate Hok].
  intros s0 Es. destruct Hw as (h1 & Hz & Hl). apply (Hl (hs_slab s1) s0 1); [exact Hz|reflexivity|exact Es].
Defined.
