(* ===== verification/StoreRuns.v ===== *)
(** * Runs of the store

    The store as a whole, executed: a new pool, a store of integer keys with the
    configuration of hash-store.h, operations of one thread, and a restart after
    the machine has stopped.  The theorems are runs that show three defects of
    hash-store.h; the runs next to them show the behaviour that was meant. *)

From S2P Require Import ExtSpec HashSpec HashStore.

(** ** Definitions *)

Abbreviation store := (hs_st Z).

(** A process that has not opened the pool yet: [p] and [heap] are what the files
    hold. *)
Definition closed_ext (p : pmem) : ext_st := {|
  es_pst := {| mem := p; log := [] |}; es_file := {| ef_start := 0; ef_size := 0 |};
  es_recs := ∅ |}.

Definition kThread : Z := 0.
Definition kVersions : Z := 256.
Definition kRecordSize : Z := 24.

(** The constructor and [open] of the store on a machine with four cores. *)
Definition boot (p : pmem) (heap : gmap Z (KVPair Z)) (existing : option (Z * Z))
    : res unit store :=
  match AllocatorDetail_new 4096 4 (closed_ext p) ∅ with
  | Err e => Err e
  | Ok al _ =>
      match HashStore_new HashStoreConfig kVersions al ∅ with
      | Err e => Err e
      | Ok s _ =>
          match HashStore_open HashStoreConfig kVersions 0 example_fs existing (2 ^ 30) kThread
                  (set_hs_heap heap s) with
          | Ok _ s => Ok s tt
          | Err e => Err e
          end
      end
  end.
Definition new_store : res unit store := boot zero_pmem ∅ None.

(** The machine stops, with everything in persistent memory as it was last
    stored, and the pool is opened again. *)
Definition durable (s : store) : pmem := mem (es_pst (rn_ext (as_run (al_arena (hs_slab s))))).
Definition crash_boot (s : store) : res unit store :=
  boot (durable s) (hs_heap s) (Some (2 ^ 30 + kRootSegSize, 0)).

Definition do_upsert (k v : Z) : M store bool :=
  upsert HashStoreConfig kVersions kRecordSize (λ _, 0) 0 kThread k [v] 1.
Definition do_remove (k : Z) : M store bool :=
  remove HashStoreConfig kVersions kRecordSize (λ _, 0) 0 kThread k.
Definition do_lookup (k : Z) : M store (option (list Z)) :=
  p ← lookup HashStoreConfig 0 k;
  if p =? kNotFound then mret None else r ← kv_load 0 p; mret (Some (kv_value r)).
Definition do_close : M store unit := HashStore_close HashStoreConfig kVersions 0 kThread.
(** The epoch has passed: the oldest retired function runs. *)
Definition grace_period : M store unit := run_closure kThread.

Definition after {A B} (r : res unit store) (m : M store A) (f : A → store → res unit B)
    : res unit B :=
  match r with
  | Err e => Err e
  | Ok s _ => match m s with Ok a s' => f a s' | Err e => Err e end
  end.
(** What the program [m] returns when it is run on a store. *)
Definition outcome {A} (r : res unit store) (m : M store A) : res unit A :=
  after r m (λ a _, Ok a tt).

(** ** Properties *)

(** C35: a [remove] of a key that is not there loses a later update of that key.
    [remove] puts its tombstone into the index and then gives the memory of the
    tombstone to the limbo list although the index points to it.  A later
    [upsert] of the key writes into that memory, finds itself in the index, and
    retires itself: when the next [upsert], of another key, reuses the memory, the
    value 50 of the key 5 has gone.  Without the [remove] it is found. *)
Theorem remove_missing_loses_update :
  outcome new_store
    (do_remove 5 ;; do_upsert 5 50 ;; grace_period ;; do_upsert 6 60 ;; do_lookup 5) = Ok None tt ∧
  outcome new_store
    (do_upsert 5 50 ;; grace_period ;; do_upsert 6 60 ;; do_lookup 5) = Ok (Some [50]) tt.
Proof. split; vm_compute; reflexivity. Qed.

(** C36: the first update of a key after a crash is lost.  [recover] sets the
    version counter to the version of the record, and [upsert] uses the counter
    before it increments it, so the new record has the version of the old one and
    is taken for an expired one: the lookup returns the old value, and only the
    second update takes effect. *)
Theorem recovery_loses_update :
  after new_store (do_upsert 5 50) (λ _ s,
    outcome (crash_boot s)
      (v0 ← do_lookup 5; do_upsert 5 51 ;; v1 ← do_lookup 5; do_upsert 5 52 ;; v2 ← do_lookup 5;
       mret (v0, v1, v2))) = Ok (Some [50], Some [50], Some [52]) tt.
Proof. vm_compute. reflexivity. Qed.

(** Closing a store while a retired record has not been released uses freed
    memory.  The destructor deletes the limbo lists of the threads first, and the
    epoch then runs the retired functions, which put the records on these lists.
    If the grace period has passed before, closing succeeds. *)
Lemma close_uses_deleted_limbo :
  outcome new_store (do_upsert 5 50 ;; do_upsert 5 51 ;; do_close) = Err EUB ∧
  outcome new_store (do_upsert 5 50 ;; do_upsert 5 51 ;; grace_period ;; do_close) = Ok tt tt.
Proof. split; vm_compute; reflexivity. Qed.
